(* ===== verification/_CoqProject ===== *)
-Q . S2P
Prelude.v
CString.v
Sorting.v
LongDouble.v
Life.v
LifeProofs.v
Pages.v
PagesProofs.v
Crossroad.v
CrossroadProofs.v
ProcFs.v
Ps.v
Top.v
TopProofs.v
Ls.v
LsProofs.v
Chmod.v
Calc.v
ToolsProofs.v
Lscpu.v
LscpuProofs.v
Sched.v
SchedProofs.v
Groups.v
GroupsTree.v
GroupsLimits.v
GroupsProofs.v
Uclamp.v
UclampProofs.v
Wakeq.v
WakeqProofs.v
Affinity.v
AffinityProtocol.v
AffinityPlaces.v
AffinityProofs.v
AffinityCalls.v
AffinityCallsProofs.v
Switch.v
SwitchInv.v
SwitchFacts.v
SwitchSchedule.v
SwitchWaking.v
SwitchKeeps.v
SwitchStart.v
SwitchMemory.v
SwitchCounts.v
SwitchWakeups.v
SwitchProgress.v
SwitchProofs.v
Hotplug.v
HotplugInv.v
HotplugCores.v
HotplugProofs.v
Psi.v
PsiProofs.v
Clock.v
ClockProofs.v
Inherit.v
InheritProofs.v
Resched.v
ReschedProofs.v
RqLock.v
RqLockProofs.v
Preempt.v
PreemptProofs.v
Attach.v
AttachProofs.v
Pick.v
PickProofs.v
Moves.v
MovesProofs.v
Boot.v
BootProofs.v
Queries.v
Burst.v
BurstProofs.v
Cfs.v
Examples.v
ExamplesProofs.v
Signals.v
