(* ===== verification/Prelude.v ===== *)
(** * The programs of LinuxSystemProgramming, modelled and verified

    The repository holds the assignments of a course on operating systems and
    of one on system programming: simulators, process and file tools for
    Linux, and a Linux scheduler (core.c, sched.h, stats.h of 5.11) in which
    an assignment changed the policies and the accounting. The programs do
    not call each other; the kernel files form one program whose parts do.

    ** Files

    Shared. This file: the outcomes of C code ([res]: a value, an [exit], or
    undefined behaviour with its reason), machine integers written with their
    wrap-around, bounded lists, arrays updated by index, loops. CString: the
    part of the C library for strings, input and formats. Sorting: the two
    exchange sorts that top and myls contain. LongDouble: x86 [long double].

    One file of definitions per program, and one ...Proofs with what holds:

    - Life: 리시프설계.c, the game of life, sequential, with child processes
      and with threads. The number of neighbours and the rule are compared
      with their definitions on an unbounded board; the sequential mode is
      the iteration of that rule; the threads, in any interleaving of their
      rows and generations, leave the same file, if what pthread_join
      overwrites behind the int status is harmless (a parameter says what the
      compiler put there); the child processes do so or overrun the matrix, and
      the theorem says exactly when.
    - Pages: the page replacement simulator of assignment 5. FIFO, LRU and
      SCR simulate the textbook policies (LRU under the condition in the
      theorem, without which it does not); at most 8 references are read.
    - Crossroad: the crossroad of assignment 6: [main] and four threads as a
      step relation, a step for each part between two operations on a mutex
      or condition. Counts, exclusion, bounds and the termination of the
      executions without spurious wake-ups; what one such wake-up breaks; and
      the lost signal after which all threads wait.
    - ProcFs, Top, Ps: top.c and ps.c of assignment 2: the reading of /proc
      (shared code), the order, the screen, the keys. ToolsProofs and
      TopProofs: the sort, the layout of the columns, the printed times.
    - Lscpu: lscpu.c of assignment 2; the sums of the cache sizes.
    - Ls: myls.c, its options and the orders of its list.
    - Chmod: mychmod.c and mytouch.c. Calc: the four system calls added in
      assignment 3 and the calculator that calls them (both in ToolsProofs).
    - Examples: programs of 리눅스시스템프로그래밍_예제 that fork, execute,
      write to pipes or read limits, with the output buffer of each process.
      Signals: those on pipes, signals and time, with what is printed to a
      terminal and to a file.
    - Sched, Groups, Uclamp, Wakeq, Affinity, AffinityCalls, Switch, Hotplug,
      Psi, Clock, Inherit, Resched, RqLock, Preempt, Attach, Pick, Moves, Boot,
      Queries, Burst: the kernel of assignment 4 (core.c, sched.h, stats.h);
      Cfs: the programs CFS.c and CFS_nice.c that measure it. Short components
      (Queries, Cfs, Signals) have definitions and theorems in one file.

    ** The kernel of assignment 4

    Sched: nice values, the system calls that set and read the policy of a
    task, and what a fork inherits. A task is a record of the fields these
    read and write; each region under the lock of a run queue is one step,
    between two such steps other processors may change the task, and the
    recheck loop of __sched_setscheduler is given the list of these changes
    (one more turn than changes is enough fuel, which is proved). The
    theorems say what a request for a policy does on every path, to the task as
    one turn of the loop checked it and found it with the lock, and what the
    changes of the assignment (SCHED_FIFO forced in _sched_setscheduler and
    in sched_fork) do to policies and to nice.

    Groups: the tree of task groups, walk_tg_tree_from with its two labels,
    the fair bandwidth controller and the files cpu.cfs_quota_us,
    cpu.cfs_period_us, cpu.max, cpu.shares, cpu.weight and cpu.weight.nice.
    GroupsTree proves the walk equal to a recursive traversal (its fuel is
    twice the number of groups and one more, and is proved enough);
    GroupsLimits gives the meaning of the check of a bandwidth over the tree;
    GroupsProofs has the invariant of all calls, in any order, and the round
    trips of the files. What core.c takes from fair.c and from the control
    group core is a class ([group_headers]) with named laws, and the instance
    [linux_groups] gives the values documented for Linux.

    Uclamp: utilisation clamps. The buckets and the maximum of a run queue
    under enqueue, dequeue, change and move of tasks and the update of a queued
    task, except where the code is wrong (lemmas at the end of UclampProofs); the effective clamps of
    the hierarchy of groups with the loop that leaves out unchanged parts
    (its fuel is the number of groups, as every turn advances in the order of
    the traversal); sched_setattr's clamps, the sysctl files, the boot. Other
    kernel code is the class [uclamp_headers], with [linux_uclamp].

    Wakeq: queues of delayed wake-ups of several contexts, whose links are in
    the tasks, as a step relation with a step for each access to a link.

    Affinity: __set_cpus_allowed_ptr with the stopper functions
    migration_cpu_stop and push_cpu_stop, migrate_disable and migrate_enable,
    and the choice of a processor (select_fallback_rq, select_task_rq,
    sched_exec, migrate_task_to). A state has the tasks, the affinity requests
    with their reference counts, the queue of works of each stopper and the
    calls in progress; a step is a region under the lock of a task and its run
    queue, and any number of callers, stoppers and tasks are interleaved.
    AffinityProtocol proves that the reference counts are exact in every
    reachable state; AffinityPlaces follows one request through the stoppers;
    AffinityProofs has what this gives: no call is forgotten, a completed call
    leaves the task where it may run, and the traces where it does not. The
    processors are the class [topology_ok], with the instance
    [three_of_four]; the nesting of migrate_disable is bounded by its 16 bits
    ([countable]), and select_fallback_rq needs fuel 3, one for each of its
    states; a wake-up for which its last state has no processor is the BUG of
    the code. AffinityCalls: the system calls sched_setaffinity and
    sched_getaffinity, whose retry loop is given the list of changes that
    other processors make, as in Sched.

    Switch: __schedule with context_switch and finish_task_switch, do_task_dead,
    try_to_wake_up with ttwu_runnable, ttwu_queue and the list of remote
    wake-ups (sched_ttwu_pending), sched_fork and wake_up_new_task, the move of
    queued tasks, and the memories that kernel threads borrow, on any number
    of processors. A state has the fields of every task and run queue that
    this code reads and writes, and the place where each processor is; a step
    ([do] of a label) is an access to a field that other processors read
    without its lock, or what one processor does under a lock. The task that
    pick_next_task returns, the processor that select_task_rq returns, the
    answers of signal_pending_state and the arrival of interrupts are in the
    label, so that the theorems hold for all of them. A program sleeps as the
    comments of core.c ask for: it sets its state, tests its condition and
    calls schedule; whoever makes the condition true starts a wake-up in the
    same step. References (mm_count, the users of a task) are integers that a
    grab increments and a drop decrements, and a drop without a reference is
    undefined; nr_uninterruptible wraps at 64 bits and nr_iowait does not. The
    warnings are those of the modelled regions; of set_task_cpu, those on locks
    and on disabled migration are left out.
    SwitchInv has the invariant; SwitchFacts, SwitchSchedule, SwitchWaking and
    SwitchKeeps prove that every step keeps it, SwitchStart that sched_init
    gives it. SwitchMemory: the counts of memories and that no step is
    undefined, against the interface [mm_code_ok] for exec and exit, which
    are not in the repository. SwitchCounts: the statistics. SwitchWakeups: no
    wake-up is lost. SwitchProgress: the processors do not deadlock.
    SwitchProofs gathers these for the reachable states, with a machine of two
    processors on which they are tried. A lock is not assumed fair:
    progress means that some processor takes a step.

    Hotplug: sched_cpu_starting, sched_cpu_activate, sched_cpu_deactivate,
    sched_cpu_wait_empty and sched_cpu_dying with balance_push, the callbacks
    of a run queue, and the remote tick (sched_tick_remote and its start and
    stop). The hot-plug thread has a list of regions to do, one after the
    other; scheduling, changes of policy, the stoppers and the work queue come
    in between. Every WARN of these regions sets the same flag; that none fires
    is proved for the orders of steps ([orderly]) that the rest of the kernel
    keeps to. The code of topology.c, cpuset.c and loadavg.c is the class
    [platform] with its laws [platform_ok] and the instance [two_cores].
    HotplugInv: what the rest of a list leads to ([leads]); HotplugCores: the
    counts of cores and of frozen processors ([goes]); HotplugProofs: the
    properties, and two traces in which the code fails: a refused deactivation
    that is half undone, for every platform and interleaving, and a push
    callback that escapes its processor.

    Psi: the flags that stats.h gives to psi.c over wake-ups, moves, sleep and
    switches; what psi.c does with them is the class [psi_code]. Clock: update_rq_clock and
    update_rq_clock_task, the run time of a task and the high resolution tick;
    the clocks of the machine are the class [clock_code] and may go backward. The
    sum is exact modulo 2^64, and exact while the readings are in range.

    Inherit: rt_mutex_setprio between the calls of Sched, for any donors that
    rtmutex.c hands over, and normalize_rt_tasks. A region under the lock of a
    task is one step; the order of deadlines is a parameter.

    Resched: how a processor is told to reschedule. Each access to the flags of
    a task on another processor, each interrupt and each step of the idle loop
    is a step; the loop of the idle task (idle.c) and the function queue (smp.c)
    are the class [idle_code], with what the comments of core.c say of them as
    laws and the instance [linux_idle]. RqLock: task_rq_lock, __task_rq_lock,
    wait_task_inactive and try_invoke_on_locked_down_task of any number of
    contexts on one task, again a step for each read without a lock; the task
    may be put on the wake list of a processor in between.

    Preempt: the preemption count and every way into __schedule, which appears
    as an event here and step by step in Switch. Interrupts are a list of
    answers of need_resched (the noise); the loops have one turn more than it
    has entries as fuel, which is proved enough.

    Attach: tasks between task groups: sched_move_task, cpu_cgroup_fork,
    can_attach and attach, with forks, wake-ups, exits, migrations and the
    removal of groups as a step relation. What the classes need (a task is
    taken off the queue it is on, a load that exists is moved, no group is used
    after it was freed) is undefined otherwise. Whether the control group core
    keeps the group that a child copies, as a comment says, is the class
    [cgroup_code]; the theorem says that this is all that is missing, and a
    trace shows the use of a freed group without it.

    Pick: pick_next_task with its short way for fair tasks,
    check_preempt_curr, and the functions that put a task on a run queue and
    have to call it (ttwu_do_activate, wake_up_new_task, move_queued_task and
    __migrate_swap_task, as the run queue that gets the task sees them), against the interface [scheduler] of the classes with
    its laws [scheduler_ok]; an instance with lists shows that the laws can hold.
    Moves: migrate_swap with its stopper function among other moves, and
    yield_to, whose retry loop is given the list of changes as in Sched. Boot:
    the block of memory that sched_init cuts into arrays, with 64-bit addresses
    and nr_cpu_ids of 32 bits, the stores of fair.c and rt.c into it as a class,
    the fields of the run queues, and the switches for schedstats and NUMA
    balancing. Queries: the range of priorities, time slices, the copy of
    attributes to a program, and the letters and filters of states.

    Burst: the counter cpu_burst that the assignment adds to sched_info and
    prints when a task dies, over any sequence of scheduling events.

    ** Conventions

    Integers are Z; a result is wrapped ([wrap32], [wrapu64], ...) where the
    type is unsigned or the code relies on gcc's wrap-around, and a signed
    overflow is [Undef SignedOverflow] where the programs could reach it.
    Reads and writes outside an array are [Undef OutOfBounds]. Recursion that
    is not structural has fuel, with a theorem that the fuel is enough, and
    running out of it is [Undef Diverges]. What a program finds in its
    environment (files, /proc, the terminal, the answers of system calls) is
    an argument. Interleavings are lists of steps or reachable states of a
    step relation; a theorem about them is about all of them.

    ** Not modelled

    Of core.c: what the scheduling classes do inside (fair.c, rt.c, deadline.c
    and idle.c are not in the repository) and so load balancing, which is a
    choice of the labels where tasks move; scheduler_tick, which only calls
    what Clock, Psi and the classes have; the preempt notifiers and the hooks of
    a switch for tracing, performance events and rseq; sched_set_stop_task,
    idle_task_exit, the NUMA masks and statistics; the calls of sched_init into
    other files; the files of the real-time groups and of statistics, which pass
    a value on or print counters; sched_show_task and other debugging output; the comments and
    the configurations that are switched off. Memory barriers: accesses are
    interleaved in program order.

    syscalls.h and syscall_64.tbl of assignment 3, which only declare the system
    calls of Linux; the four added lines are [Calc.syscall]. sched.h beyond the
    structures and helpers that the modelled code uses. Interactive menus and
    the measuring of time in the game of life and in CFS.c. The examples that
    print identifiers of their process, and stdpipe.c, which never makes its
    pipe. *)
From stdpp Require Export base tactics functions list strings numbers pretty gmap fin_maps.
From Stdlib Require Export ZArith Lia Ascii.

Open Scope Z_scope.

(** * Outcomes of C code

    A C operation returns, leaves the process through [exit], or reaches
    a point where the C standard gives no meaning to the program. *)

Inductive ub : Set :=
  | OutOfBounds      (** an access outside an array or a string buffer *)
  | Uninitialised    (** a read of an object that was never written *)
  | DivByZero        (** a division trap: divisor 0 or INT_MIN / -1 *)
  | SignedOverflow   (** a signed result outside the range of its type *)
  | BadShift         (** a shift by a negative or too large amount *)
  | NoReturnValue    (** the value of a function that fell off its end *)
  | NullPointer      (** a null pointer is dereferenced *)
  | UseAfterFree     (** an object is used after its lifetime *)
  | QueuedTwice      (** an element of a list is inserted a second time *)
  | BugOn            (** BUG() stops the kernel *)
  | Diverges.        (** the loop never leaves its body *)

#[global] Instance ub_eq_dec : EqDecision ub.
Proof. solve_decision. Defined.

Inductive res (A : Type) : Type :=
  | Ok (a : A)
  | Exit (status : Z)
  | Undef (u : ub).
Arguments Ok {A} a.
Arguments Exit {A} status.
Arguments Undef {A} u.

#[global] Instance res_ret : MRet res := λ A a, Ok a.
#[global] Instance res_bind : MBind res := λ A B f m,
  match m with Ok a => f a | Exit e => Exit e | Undef u => Undef u end.
#[global] Instance res_fmap : FMap res := λ A B f m,
  match m with Ok a => Ok (f a) | Exit e => Exit e | Undef u => Undef u end.
#[global] Instance res_eq_dec {A} `{EqDecision A} : EqDecision (res A).
Proof. solve_decision. Defined.

Definition is_ok {A} (r : res A) : bool :=
  match r with Ok _ => true | _ => false end.

(** [opt u o]: the value of [o], undefined behaviour [u] when there is none. *)
Definition opt {A} (u : ub) (o : option A) : res A :=
  match o with Some a => Ok a | None => Undef u end.

Section res_laws.
Context {A B C : Type}.

Lemma res_bind_ok (a : A) (f : A → res B) : (Ok a ≫= f) = f a.
Proof. done. Qed.

Lemma res_bind_assoc (m : res A) (f : A → res B) (g : B → res C) :
  ((m ≫= f) ≫= g) = (m ≫= λ a, f a ≫= g).
Proof. by destruct m. Qed.

Lemma res_bind_ok_inv (m : res A) (f : A → res B) b :
  (m ≫= f) = Ok b → ∃ a, m = Ok a ∧ f a = Ok b.
Proof. destruct m; simpl; [eauto | done..]. Qed.

Lemma opt_ok_inv u (o : option A) a : opt u o = Ok a ↔ o = Some a.
Proof. destruct o; simpl; naive_solver. Qed.
End res_laws.

(** * Arrays

    An array is a list; an index is a C integer. Both accesses check the
    bounds, so an access the code makes outside them is visible. *)

Definition rd {A} (l : list A) (i : Z) : res A :=
  if decide (0 ≤ i) then opt OutOfBounds (l !! Z.to_nat i) else Undef OutOfBounds.

Definition wr {A} (l : list A) (i : Z) (v : A) : res (list A) :=
  if decide (0 ≤ i < Z.of_nat (length l))
  then Ok (<[Z.to_nat i := v]> l) else Undef OutOfBounds.

(** The total read the specifications use. *)
Definition getZ {A} (l : list A) (i : Z) : option A :=
  if decide (0 ≤ i) then l !! Z.to_nat i else None.

Section arrays.
Context {A : Type}.
Implicit Types (l : list A) (i j : Z) (v : A).

Lemma rd_getZ l i : rd l i = opt OutOfBounds (getZ l i).
Proof. unfold rd, getZ. by case_decide. Qed.

Lemma rd_ok_iff l i v : rd l i = Ok v ↔ getZ l i = Some v.
Proof. by rewrite rd_getZ, opt_ok_inv. Qed.

Lemma getZ_lt l i v : getZ l i = Some v → (0 ≤ i < Z.of_nat (length l)).
Proof.
  unfold getZ. case_decide; [|done].
  intros ?%lookup_lt_Some. lia.
Qed.

Lemma getZ_is_Some l i : (0 ≤ i < Z.of_nat (length l)) → is_Some (getZ l i).
Proof. intros ?. unfold getZ. case_decide; [|lia]. apply lookup_lt_is_Some. lia. Qed.

Lemma getZ_of_nat l (k : nat) : getZ l (Z.of_nat k) = l !! k.
Proof. unfold getZ. case_decide; [|lia]. by rewrite Nat2Z.id. Qed.

Lemma wr_ok l i v :
  (0 ≤ i < Z.of_nat (length l)) → wr l i v = Ok (<[Z.to_nat i := v]> l).
Proof. intros. unfold wr. by case_decide. Qed.

Lemma wr_ok_inv l i v l' :
  wr l i v = Ok l' → (0 ≤ i < Z.of_nat (length l)) ∧ l' = <[Z.to_nat i := v]> l.
Proof. unfold wr. case_decide; naive_solver. Qed.

Lemma getZ_insert l i j v :
  (0 ≤ i < Z.of_nat (length l)) →
  getZ (<[Z.to_nat i := v]> l) j = if decide (i = j) then Some v else getZ l j.
Proof.
  intros Hi. unfold getZ. repeat case_decide; subst; try lia; try done.
  - apply list_lookup_insert_eq. lia.
  - apply list_lookup_insert_ne. lia.
Qed.

Lemma getZ_app_l l l2 i :
  (i < Z.of_nat (length l)) → getZ (l ++ l2) i = getZ l i.
Proof. intros. unfold getZ. case_decide; [|done]. apply lookup_app_l. lia. Qed.
End arrays.

(** * Loops

    [for_up lo hi f s] is [for (int i = lo; i < hi; i++) f(i)] on the state
    [s]; [for_down hi lo f s] is [for (int i = hi; i > lo; i--) f(i)]. The
    body of a loop that can [break] returns [inr s] to leave it. *)

Fixpoint loop_from {S} (k : nat) (i d : Z) (f : Z → S → res S) (s : S) : res S :=
  match k with
  | O => Ok s
  | Datatypes.S k => s' ← f i s; loop_from k (i + d) d f s'
  end.

Definition for_up {S} (lo hi : Z) (f : Z → S → res S) (s : S) : res S :=
  loop_from (Z.to_nat (hi - lo)) lo 1 f s.

Definition for_down {S} (hi lo : Z) (f : Z → S → res S) (s : S) : res S :=
  loop_from (Z.to_nat (hi - lo)) hi (-1) f s.

Fixpoint loop_brk {S} (k : nat) (i d : Z) (f : Z → S → res (S + S)) (s : S) : res S :=
  match k with
  | O => Ok s
  | Datatypes.S k =>
      r ← f i s;
      match r with inl s' => loop_brk k (i + d) d f s' | inr s' => Ok s' end
  end.

Definition for_brk {S} (lo hi : Z) (f : Z → S → res (S + S)) (s : S) : res S :=
  loop_brk (Z.to_nat (hi - lo)) lo 1 f s.

Section loops.
Context {S : Type}.
Implicit Types (P : Z → S → Prop) (f : Z → S → res S).

(** Total-correctness rules: the body always returns under the invariant. *)
Lemma for_up_inv P lo hi f s :
  lo ≤ hi → P lo s →
  (∀ i s, lo ≤ i < hi → P i s → ∃ s', f i s = Ok s' ∧ P (i + 1) s') →
  ∃ s', for_up lo hi f s = Ok s' ∧ P hi s'.
Proof.
  unfold for_up. intros Hle HP Hstep.
  remember (Z.to_nat (hi - lo)) as k eqn:Hk.
  induction k as [|k IH] in lo, s, Hle, Hk, HP, Hstep |- *; simpl.
  - replace hi with lo by lia. eauto.
  - destruct (Hstep lo s) as (s' & -> & HP'); [lia|done|]. simpl.
    apply IH; [lia|done| |lia]. intros i s0 ?. apply Hstep. lia.
Qed.

Lemma for_down_inv P hi lo f s :
  lo ≤ hi → P hi s →
  (∀ i s, lo < i ≤ hi → P i s → ∃ s', f i s = Ok s' ∧ P (i - 1) s') →
  ∃ s', for_down hi lo f s = Ok s' ∧ P lo s'.
Proof.
  unfold for_down. intros Hle HP Hstep.
  remember (Z.to_nat (hi - lo)) as k eqn:Hk.
  induction k as [|k IH] in hi, s, Hle, Hk, HP, Hstep |- *; simpl.
  - replace lo with hi by lia. eauto.
  - destruct (Hstep hi s) as (s' & -> & HP'); [lia|done|]. simpl.
    apply IH; [lia|done| |lia]. intros i s0 ?. apply Hstep. lia.
Qed.

Lemma for_brk_inv P (Q : S → Prop) lo hi (f : Z → S → res (S + S)) s :
  lo ≤ hi → P lo s →
  (∀ i s, lo ≤ i < hi → P i s →
     (∃ s', f i s = Ok (inl s') ∧ P (i + 1) s') ∨
     (∃ s', f i s = Ok (inr s') ∧ Q s')) →
  (∀ s, P hi s → Q s) →
  ∃ s', for_brk lo hi f s = Ok s' ∧ Q s'.
Proof.
  unfold for_brk. intros Hle HP Hstep HQ.
  remember (Z.to_nat (hi - lo)) as k eqn:Hk.
  induction k as [|k IH] in lo, s, Hle, Hk, HP, Hstep |- *; simpl.
  - replace hi with lo in HQ by lia. eauto.
  - destruct (Hstep lo s) as [(s' & -> & HP')|(s' & -> & HQ')];
      [lia|done| |eauto]. simpl.
    apply IH; [lia|done| |lia]. intros i s0 ?. apply Hstep. lia.
Qed.

(** Partial-correctness rule: what holds of every run that returns. *)
Lemma for_up_ok_inv P lo hi f s s' :
  lo ≤ hi → P lo s →
  (∀ i s s', lo ≤ i < hi → P i s → f i s = Ok s' → P (i + 1) s') →
  for_up lo hi f s = Ok s' → P hi s'.
Proof.
  unfold for_up. intros Hle HP Hstep.
  remember (Z.to_nat (hi - lo)) as k eqn:Hk.
  induction k as [|k IH] in lo, s, Hle, Hk, HP, Hstep |- *; simpl.
  - intros [= <-]. replace hi with lo by lia. done.
  - intros (s1 & Hf & Hl)%res_bind_ok_inv.
    eapply (IH (lo + 1)); [lia|eapply Hstep; eauto; lia| |lia|done].
    intros i s0 s2 ?. apply Hstep. lia.
Qed.

(** A loop whose body is undefined at iteration [k]. *)
Lemma for_up_undef P lo hi k f s u :
  lo ≤ k < hi → P lo s →
  (∀ i s, lo ≤ i < k → P i s → ∃ s', f i s = Ok s' ∧ P (i + 1) s') →
  (∀ s, P k s → f k s = Undef u) →
  for_up lo hi f s = Undef u.
Proof.
  unfold for_up. intros Hle HP Hstep Hk.
  remember (Z.to_nat (hi - lo)) as c eqn:Hc.
  induction c as [|c IH] in lo, s, Hle, Hc, HP, Hstep |- *; [lia|]. simpl.
  destruct (decide (lo = k)) as [->|]; [by rewrite Hk|].
  destruct (Hstep lo s) as (s' & -> & HP'); [lia|done|]. simpl.
  apply IH; [lia|done| |lia]. intros i s0 ?. apply Hstep. lia.
Qed.
End loops.

(** * Machine integers *)

Definition wrap32 (z : Z) : Z := (z + 2^31) mod 2^32 - 2^31.
Definition wrapu32 (z : Z) : Z := z mod 2^32.
Definition wrapu64 (z : Z) : Z := z mod 2^64.
Definition wrap64 (z : Z) : Z := (z + 2^63) mod 2^64 - 2^63.
Definition int32 (z : Z) : Prop := (- 2^31 ≤ z < 2^31).

#[global] Instance int32_dec z : Decision (int32 z).
Proof. unfold int32. apply _. Defined.

(** A signed 32-bit result: undefined when it does not fit. *)
Definition in_int (z : Z) : res Z := if decide (int32 z) then Ok z else Undef SignedOverflow.

Section ints.

Lemma in_int_ok z : int32 z → in_int z = Ok z.
Proof. intros. unfold in_int. by rewrite decide_True. Qed.

Lemma wrap32_range z : int32 (wrap32 z).
Proof. unfold wrap32, int32. pose proof (Z.mod_pos_bound (z + 2^31) (2^32)). lia. Qed.

Lemma wrap32_small z : int32 z → wrap32 z = z.
Proof. unfold wrap32, int32. intros. rewrite Z.mod_small; lia. Qed.

Lemma wrap32_congr z : ∃ k, wrap32 z = z + k * 2^32.
Proof.
  unfold wrap32. exists (- ((z + 2^31) / 2^32)).
  pose proof (Z.div_mod (z + 2^31) (2^32)). lia.
Qed.
End ints.

(** * Strings *)

Lemma string_length_app (s1 s2 : string) :
  String.length (s1 +:+ s2) = (String.length s1 + String.length s2)%nat.
Proof.
  induction s1 as [|c s1 IH]; [done|].
  change (String c s1 +:+ s2) with (String c (s1 +:+ s2)). simpl. by rewrite IH.
Qed.

(** * Automation *)

Create HintDb csrc.
Create Rewrite HintDb csrc.
#[export] Hint Resolve wrap32_range : csrc.
#[export] Hint Rewrite @res_bind_ok @length_insert @length_replicate : csrc.

(** Decide the first test of the goal or of a hypothesis and simplify. *)
Ltac case_tests :=
  repeat (case_match || case_decide || case_bool_decide); simplify_eq/=.

(** Turn the successful binds of the context into their parts. *)
Ltac bind_inv :=
  repeat match goal with
  | H : (_ ≫= _) = Ok _ |- _ => apply res_bind_ok_inv in H as (? & ? & H)
  | H : (_ ≫= _) = Ok _ |- _ => apply res_bind_ok_inv in H as ([? ?] & ? & H)
  | H : Ok _ = Ok _ |- _ => injection H as H
  | H : mret _ = Ok _ |- _ => injection H as H
  end.

(** Run the first loop of the goal with the invariant [P] (and the exit
    condition [Q] for a loop with a [break]); the side conditions come first
    and the continuation of the goal last. *)
Ltac run_up P :=
  match goal with
  | |- context [for_up ?lo ?hi ?f ?s] =>
      let H := fresh "Hrun" in
      assert (∃ s', for_up lo hi f s = Ok s' ∧ P hi s') as H;
      [apply (for_up_inv P lo hi f s)|destruct H as (? & -> & ?)]
  end.
Ltac run_brk P Q :=
  match goal with
  | |- context [for_brk ?lo ?hi ?f ?s] =>
      let H := fresh "Hrun" in
      assert (∃ s', for_brk lo hi f s = Ok s' ∧ Q s') as H;
      [apply (for_brk_inv P Q lo hi f s)|destruct H as (? & -> & ?)]
  end.

(** Prove a decidable proposition by evaluating its decision. *)
Ltac by_decision := refine (bool_decide_unpack _ _); vm_compute; exact I.
