(* ===== verification/CString.v ===== *)
(** The part of the C string library the programs use, on Rocq strings: the
    characters before the terminating null byte. Character tests, [strcmp],
    [strstr], [strtok], number conversions ([atoi], [sscanf]), line and word
    input ([fgets], [fscanf]) and the [printf] conversions. *)
From S2P Require Import Prelude.
Local Open Scope Z_scope.

(** * Characters *)

(** The value of a [char]: signed, as on x86. *)
Definition char_val (c : ascii) : Z :=
  let n := Z.of_N (N_of_ascii c) in if decide (n < 128) then n else n - 256.

Definition is_digit (c : ascii) : bool := bool_decide (48 ≤ char_val c ≤ 57).
Definition is_alpha (c : ascii) : bool :=
  bool_decide (65 ≤ char_val c ≤ 90 ∨ 97 ≤ char_val c ≤ 122).
Definition is_space (c : ascii) : bool :=
  bool_decide (char_val c = 32 ∨ 9 ≤ char_val c ≤ 13).

(** [c - '0'] *)
Definition digit_of (c : ascii) : Z := char_val c - 48.

Definition newline : ascii := "010"%char.

(** * Comparison and search *)

(** [strcmp(a,b)]: only its sign is used. *)
Definition strcmp (a b : string) : comparison := String.compare a b.
Definition strcmp_lt (a b : string) : bool :=
  match strcmp a b with Lt => true | _ => false end.

(** [strstr(s,t)] as a truth value. *)
Fixpoint strstr (s t : string) : bool :=
  String.prefix t s ||
  match s with EmptyString => false | String _ s => strstr s t end.

Fixpoint string_get (s : string) (n : nat) : option ascii :=
  match s, n with
  | EmptyString, _ => None
  | String c _, O => Some c
  | String _ s, S n => string_get s n
  end.

(** [s + n] for a pointer into a string *)
Fixpoint string_drop (n : nat) (s : string) : string :=
  match n, s with S n, String _ s => string_drop n s | _, _ => s end.

Fixpoint string_take (n : nat) (s : string) : string :=
  match n, s with S n, String c s => String c (string_take n s) | _, _ => EmptyString end.

(** The longest prefix of characters satisfying [p], and the rest. *)
Fixpoint span (p : ascii → bool) (s : string) : string * string :=
  match s with
  | EmptyString => (EmptyString, EmptyString)
  | String c s' =>
      if p c then let '(a, b) := span p s' in (String c a, b) else (EmptyString, s)
  end.

(** The tokens [strtok(s,sep)], [strtok(NULL,sep)], ... return, for one
    separator character: the maximal runs of other characters. *)
Fixpoint strtok_all (sep : ascii) (cur : string) (s : string) : list string :=
  match s with
  | EmptyString => if decide (cur = EmptyString) then [] else [cur]
  | String c s =>
      if decide (c = sep)
      then (if decide (cur = EmptyString) then [] else [cur]) ++ strtok_all sep EmptyString s
      else strtok_all sep (cur +:+ String c EmptyString) s
  end.
Definition strtok (sep : ascii) (s : string) : list string := strtok_all sep EmptyString s.

(** * Numbers *)

Fixpoint digits_val (acc : Z) (s : string) : Z :=
  match s with
  | EmptyString => acc
  | String c s => if is_digit c then digits_val (10 * acc + digit_of c) s else acc
  end.

Definition skip_space (s : string) : string := (span is_space s).2.

(** The integer at the head of [s] as [strtol] reads it, unbounded, with the
    rest; [None] when there is no digit. *)
Definition scan_int (s : string) : option (Z * string) :=
  let s := skip_space s in
  let '(neg, s) := match s with
                   | String c s' => if decide (c = "-"%char) then (true, s')
                                    else if decide (c = "+"%char) then (false, s')
                                    else (false, s)
                   | EmptyString => (false, s)
                   end in
  let '(ds, rest) := span is_digit s in
  if decide (ds = EmptyString) then None
  else Some ((if neg : bool then - digits_val 0 ds else digits_val 0 ds), rest).

Definition clamp64 (z : Z) : Z := Z.max (- 2^63) (Z.min (2^63 - 1) z).

Definition atol (s : string) : Z :=
  match scan_int s with Some (z, _) => clamp64 z | None => 0 end.
Definition atoi (s : string) : Z := wrap32 (atol s).

(** [sscanf(s,"%lu",&v)]: [None] when nothing is stored. *)
Definition scan_lu (s : string) : option Z :=
  match scan_int s with
  | Some (z, _) => Some (if decide (Z.abs z < 2^64) then wrapu64 z else 2^64 - 1)
  | None => None
  end.

(** * Input *)

(** [fgets(buf,size,fp)]: at most [size-1] characters, up to and including a
    newline; [None] at the end of the file. *)
Fixpoint fgets_go (k : nat) (s : string) : string * string :=
  match k, s with
  | O, _ => (EmptyString, s)
  | _, EmptyString => (EmptyString, EmptyString)
  | S k, String c s =>
      if decide (c = newline) then (String c EmptyString, s)
      else let '(a, b) := fgets_go k s in (String c a, b)
  end.
Definition fgets (size : nat) (s : string) : option (string * string) :=
  if decide (s = EmptyString) then None else Some (fgets_go (size - 1) s).

(** [fscanf(fp,"%s",buf)]: the next word; [None] at the end of the file. *)
Definition fscanf_word (s : string) : option (string * string) :=
  let '(w, rest) := span (λ c, negb (is_space c)) (skip_space s) in
  if decide (w = EmptyString) then None else Some (w, rest).

(** * Output *)

Fixpoint spaces (n : nat) : string :=
  match n with O => EmptyString | S n => String " "%char (spaces n) end.
Fixpoint zeros (n : nat) : string :=
  match n with O => EmptyString | S n => String "0"%char (zeros n) end.

(** [%Nd] / [%Ns]: padded on the left to width [n]. *)
Definition pad (n : nat) (s : string) : string := spaces (n - String.length s) +:+ s.

(** [%0Nd]: zeros between the sign and the digits. *)
Definition pad0 (n : nat) (z : Z) : string :=
  let body := pretty (Z.abs z) in
  if decide (z < 0) then "-" +:+ zeros (n - 1 - String.length body) +:+ body
  else zeros (n - String.length body) +:+ body.

(** [strcpy] / [sprintf] into an array of [cap] characters. *)
Definition store (cap : nat) (s : string) : res string :=
  if decide (String.length s < cap)%nat then Ok s else Undef OutOfBounds.

(** * Lemmas *)

Lemma store_ok_inv cap s s' : store cap s = Ok s' → s' = s ∧ (String.length s < cap)%nat.
Proof. unfold store. case_decide; naive_solver. Qed.

Lemma store_ok cap s : (String.length s < cap)%nat → store cap s = Ok s.
Proof. intros. unfold store. by rewrite decide_True. Qed.

Lemma string_app_nil_r s : (s +:+ "")%string = s.
Proof. induction s as [|c s IH]; [done|]. change (String c (s +:+ "") = String c s). by rewrite IH. Qed.

Lemma string_app_assoc (a b c : string) : (a +:+ (b +:+ c))%string = ((a +:+ b) +:+ c)%string.
Proof.
  induction a as [|x a IH]; [done|].
  change (String x (a +:+ (b +:+ c)) = String x ((a +:+ b) +:+ c)). by rewrite IH.
Qed.

Lemma strcmp_refl a : strcmp a a = Eq.
Proof.
  unfold strcmp. induction a as [|c a IH]; [done|]. simpl.
  assert (Ascii.compare c c = Eq) as -> by (unfold Ascii.compare; apply N.compare_refl). done.
Qed.

Lemma strcmp_eq_iff a b : strcmp a b = Eq ↔ a = b.
Proof. split; [apply String.compare_eq_iff|intros ->; apply strcmp_refl]. Qed.

Lemma strcmp_antisym a b : strcmp b a = CompOpp (strcmp a b).
Proof. unfold strcmp. apply String.compare_antisym. Qed.

Lemma strcmp_lt_le a b : strcmp_lt a b = false ↔ String.le b a.
Proof.
  unfold strcmp_lt, strcmp, String.le, String.leb. rewrite (String.compare_antisym b a).
  destruct (String.compare a b); simpl; naive_solver.
Qed.

Lemma strcmp_lt_lt a b : strcmp_lt a b = true → String.le a b ∧ a ≠ b.
Proof.
  unfold strcmp_lt. destruct (strcmp a b) eqn:E; try done. intros _. split.
  - unfold strcmp, String.le, String.leb in *. by rewrite E.
  - intros ->. by rewrite strcmp_refl in E.
Qed.

Lemma prefix_refl s : String.prefix s s = true.
Proof. induction s as [|c s IH]; [done|]. simpl. destruct (ascii_dec c c); done. Qed.

Lemma strstr_refl s : strstr s s = true.
Proof. destruct s; [done|]. unfold strstr. fold strstr. by rewrite prefix_refl. Qed.

Lemma span_all p s : span p s = (s, EmptyString) ↔ ∀ n c, string_get s n = Some c → p c = true.
Proof.
  induction s as [|c s IH]; simpl.
  - split; [|done]. intros _ [|n] c; done.
  - destruct (p c) eqn:Hc.
    + split.
      * destruct (span p s) as [a b]. intros [= -> ->] [|n] c'; simpl; [naive_solver|].
        by apply IH.
      * intros H. destruct IH as [_ IH]. rewrite IH; [done|]. intros n c' Hn.
        by apply (H (S n)).
    + split; [done|]. intros H. specialize (H 0%nat c eq_refl). congruence.
Qed.

Lemma span_app p s t :
  span p s = (s, EmptyString) →
  match t with String c _ => p c = false | EmptyString => True end →
  span p (s +:+ t) = (s, t).
Proof.
  intros Hs Ht. induction s as [|c s IH].
  - change ("" +:+ t)%string with t. destruct t as [|c t]; [done|]. simpl. by rewrite Ht.
  - change (String c s +:+ t)%string with (String c (s +:+ t)). simpl in *.
    destruct (p c) eqn:Hc; [|done]. rewrite IH; [done|].
    destruct (span p s) as [a b]. by injection Hs as -> ->.
Qed.

(** ** Decimal numerals *)

Lemma is_digit_char (x : N) : (x < 10)%N → is_digit (pretty_N_char x) = true.
Proof.
  intros. assert (x = 0 ∨ x = 1 ∨ x = 2 ∨ x = 3 ∨ x = 4 ∨ x = 5 ∨ x = 6 ∨ x = 7 ∨
    x = 8 ∨ x = 9)%N as H' by lia.
  by repeat destruct H' as [->|H']; subst.
Qed.

Lemma digit_of_char (x : N) : (x < 10)%N → digit_of (pretty_N_char x) = Z.of_N x.
Proof.
  intros. assert (x = 0 ∨ x = 1 ∨ x = 2 ∨ x = 3 ∨ x = 4 ∨ x = 5 ∨ x = 6 ∨ x = 7 ∨
    x = 8 ∨ x = 9)%N as H' by lia.
  by repeat destruct H' as [->|H']; subst.
Qed.

(** A property of every digit string that reading digits right to left keeps. *)
Lemma pretty_N_go_ind (P : N → string → Prop) x s :
  P x s →
  (∀ x s, (0 < x)%N → P x s → P (x `div` 10)%N (String (pretty_N_char (x `mod` 10)) s)) →
  P 0%N (pretty_N_go x s).
Proof.
  intros HP Hstep. revert s HP. induction (N.lt_wf_0 x) as [x _ IH]; intros s HP.
  destruct (decide (x = 0%N)) as [->|]; [done|].
  rewrite pretty_N_go_step by lia. apply IH; [apply N.div_lt; lia|]. apply Hstep; [lia|done].
Qed.

Definition all_digits (s : string) : Prop := ∀ n c, string_get s n = Some c → is_digit c = true.

Lemma all_digits_cons c s : is_digit c = true → all_digits s → all_digits (String c s).
Proof. intros ? H [|n] c'; simpl; [naive_solver|apply H]. Qed.

Lemma pretty_go_digits x s : all_digits s → all_digits (pretty_N_go x s).
Proof.
  intros Hs. apply (pretty_N_go_ind (λ _ s, all_digits s) x s); [done|].
  intros y t _ Ht. apply all_digits_cons; [|done]. apply is_digit_char, N.mod_lt. lia.
Qed.

Lemma digits_val_shift a s :
  all_digits s → digits_val a s = a * 10 ^ Z.of_nat (String.length s) + digits_val 0 s.
Proof.
  induction s as [|c s IH] in a |- *; intros Hs; cbn [digits_val String.length]; [lia|].
  rewrite (Hs 0%nat c eq_refl). assert (all_digits s) by (intros n; apply (Hs (S n))).
  rewrite (IH (10 * a + _)), (IH (10 * 0 + _)) by done.
  rewrite Nat2Z.inj_succ, Z.pow_succ_r by lia. lia.
Qed.

Lemma digits_val_go (x : N) s :
  all_digits s →
  digits_val 0 (pretty_N_go x s) = Z.of_N x * 10 ^ Z.of_nat (String.length s) + digits_val 0 s.
Proof.
  intros Hs. set (V := Z.of_N x * 10 ^ Z.of_nat (String.length s) + digits_val 0 s).
  destruct (pretty_N_go_ind (λ y t, all_digits t ∧
    Z.of_N y * 10 ^ Z.of_nat (String.length t) + digits_val 0 t = V) x s) as [_ HV]; [done| |lia].
  intros y t Hy [Ht HV]. rewrite <- HV. assert ((y `mod` 10 < 10)%N) by (apply N.mod_lt; lia).
  split; [apply all_digits_cons; [by apply is_digit_char|done]|].
  cbn [digits_val String.length]. rewrite is_digit_char, digit_of_char by done.
  rewrite (digits_val_shift (10 * 0 + _)) by done.
  rewrite Nat2Z.inj_succ, Z.pow_succ_r by lia.
  pose proof (N.div_mod y 10). rewrite (N.div_mod y 10) at 3 by lia. lia.
Qed.

Lemma pretty_nonneg_digits z : 0 ≤ z → all_digits (pretty z) ∧ pretty z ≠ EmptyString.
Proof.
  intros. destruct z as [|p|p]; [| |lia].
  - split; [|done]. intros [|[|n]] c; simpl; naive_solver.
  - assert (pretty (Z.pos p) = pretty_N_go (N.pos p) "") as -> by done.
    split; [apply pretty_go_digits; intros [|n] c; done|].
    intros E. pose proof (digits_val_go (N.pos p) "") as Hd. rewrite E in Hd. simpl in Hd.
    assert (0 = Z.pos p); [|lia]. rewrite Hd; [lia|]. intros [|n] c; done.
Qed.

Lemma digits_val_pretty z : 0 ≤ z → digits_val 0 (pretty z) = z.
Proof.
  intros. destruct z as [|p|p]; [done| |lia].
  assert (pretty (Z.pos p) = pretty_N_go (N.pos p) "") as -> by done.
  rewrite digits_val_go by (intros [|n] c; done). simpl. lia.
Qed.

Lemma pretty_neg z : z < 0 → pretty z = ("-" +:+ pretty (- z))%string.
Proof. intros. destruct z; try lia. done. Qed.

Lemma pretty_N_go_length (k : nat) (x : N) s :
  (x < 10 ^ N.of_nat k)%N →
  (String.length (pretty_N_go x s) ≤ k + String.length s)%nat.
Proof.
  induction k as [|k IH] in x, s |- *; intros Hx.
  - assert (x = 0%N) as -> by (simpl in Hx; lia). done.
  - destruct (decide (x = 0%N)) as [->|]; [rewrite pretty_N_go_0; lia|].
    rewrite pretty_N_go_step by lia.
    specialize (IH (x `div` 10)%N (String (pretty_N_char (x `mod` 10)) s)).
    simpl in IH. assert (x `div` 10 < 10 ^ N.of_nat k)%N; [|lia].
    apply N.Div0.div_lt_upper_bound. rewrite Nat2N.inj_succ, N.pow_succ_r' in Hx. lia.
Qed.

Lemma pretty_length (k : nat) z :
  0 ≤ z < 10 ^ Z.of_nat k → (0 < k)%nat → (String.length (pretty z) ≤ k)%nat.
Proof.
  intros Hz Hk. destruct z as [|p|p]; [simpl; lia| |lia].
  assert (pretty (Z.pos p) = pretty_N_go (N.pos p) "") as -> by done.
  pose proof (pretty_N_go_length k (N.pos p) "") as H. simpl in *.
  rewrite <- (nat_N_Z k) in Hz. rewrite <- (N2Z.inj_pow 10) in Hz. lia.
Qed.

(** A line of digits and a rest without a newline. *)
Lemma fgets_go_line k s :
  (∀ n c, string_get s n = Some c → c ≠ newline) → (String.length s < k)%nat →
  fgets_go k (s +:+ String newline "") = (s +:+ String newline "", "")%string.
Proof.
  induction s as [|c s IH] in k |- *; intros Hs Hk; (destruct k as [|k]; [simpl in Hk; lia|]).
  - done.
  - change (String c s +:+ String newline "")%string with (String c (s +:+ String newline "")).
    cbn [fgets_go]. rewrite decide_False by (apply (Hs 0%nat c); done).
    rewrite IH; [done| |simpl in Hk; lia]. intros n. apply (Hs (S n)).
Qed.
