(* ===== verification/Sorting.v ===== *)
(** The two exchange sorts the programs use, on arrays, for any test of
    whether one element has to come after another: bubble sort ([top]) and
    the sort that exchanges element [i] with every element before it ([ls]). *)
From S2P Require Import Prelude.
Local Open Scope Z_scope.

Definition swap_if {A} (after : A → A → bool) (i j : Z) (l : list A) : res (list A) :=
  a ← rd l i; b ← rd l j;
  if after a b then l ← wr l i b; wr l j a else Ok l.

(** [for(j=0;j<i;j++) if(after(l[j],l[j+1])) swap] *)
Definition bubble_pass {A} (after : A → A → bool) (i : Z) (l : list A) : res (list A) :=
  for_up 0 i (λ j, swap_if after j (j + 1)) l.

(** [for(i=n-1;i>0;i--) bubble_pass] *)
Definition bubble_sort {A} (after : A → A → bool) (n : Z) (l : list A) : res (list A) :=
  for_down (n - 1) 0 (bubble_pass after) l.

(** [for(i=0;i<n;i++) for(j=0;j<i;j++) if(after(l[j],l[i])) swap] *)
Definition exchange_sort {A} (after : A → A → bool) (n : Z) (l : list A) : res (list A) :=
  for_up 0 n (λ i, for_up 0 i (λ j, swap_if after j i)) l.

(** In order: no element has to come after a later one. *)
Definition in_order {A} (after : A → A → bool) (l : list A) : Prop :=
  ∀ x y a b, (x < y)%nat → l !! x = Some a → l !! y = Some b → after a b = false.

Section sorting.
Context {A : Type} (after : A → A → bool) (D : A → Prop).
Hypothesis after_asym : ∀ a b, D a → D b → after a b = true → after b a = false.
Hypothesis after_trans : ∀ a b c, D a → D b → D c →
  after a b = false → after b c = false → after a c = false.
Implicit Types l : list A.

Lemma insert_cons_perm l i a b : l !! i = Some a → a :: <[i:=b]> l ≡ₚ b :: l.
Proof.
  intros Hi. rewrite insert_take_drop by (by eapply lookup_lt_Some).
  rewrite <- (take_drop_middle l i a Hi) at 3.
  rewrite <- !Permutation_middle. apply Permutation_swap.
Qed.

Lemma swap_perm l i j a b : l !! i = Some a → l !! j = Some b → <[j:=a]> (<[i:=b]> l) ≡ₚ l.
Proof.
  intros Hi Hj. destruct (decide (i = j)) as [->|Hne].
  - rewrite list_insert_insert_eq. rewrite list_insert_id; [done|done].
  - apply (Permutation_cons_inv (a := b)).
    rewrite (insert_cons_perm (<[i:=b]> l) j b a) by (by rewrite list_lookup_insert_ne).
    by apply insert_cons_perm.
Qed.

Lemma swap_if_ok i j l :
  (i < length l)%nat → (j < length l)%nat →
  ∃ l', swap_if after (Z.of_nat i) (Z.of_nat j) l = Ok l' ∧ l' ≡ₚ l ∧ length l' = length l ∧
    ∃ a b, l !! i = Some a ∧ l !! j = Some b ∧
      ((after a b = true ∧ l' = <[j:=a]> (<[i:=b]> l)) ∨ (after a b = false ∧ l' = l)).
Proof.
  intros Hi Hj. destruct (lookup_lt_is_Some_2 l i Hi) as [a Ha].
  destruct (lookup_lt_is_Some_2 l j Hj) as [b Hb]. unfold swap_if.
  rewrite !rd_getZ, !getZ_of_nat, Ha, Hb. simpl.
  destruct (after a b) eqn:E.
  - rewrite wr_ok by lia. simpl. rewrite wr_ok by (rewrite length_insert; lia).
    rewrite !Nat2Z.id. eexists. split; [done|]. split; [by apply swap_perm|].
    rewrite !length_insert. split; [done|]. exists a, b. auto.
  - eexists. split; [done|]. split; [done|]. split; [done|]. exists a, b. auto.
Qed.

Lemma domain_perm l l' : l' ≡ₚ l → Forall D l → Forall D l'.
Proof. by intros ->. Qed.

Lemma domain_lookup l i a : Forall D l → l !! i = Some a → D a.
Proof. intros H. by apply Forall_lookup_1. Qed.

(** ** Bubble sort *)

(** Position [j] holds an element no earlier one has to come after. *)
Definition top_at l (j : nat) : Prop :=
  ∀ x a b, (x < j)%nat → l !! x = Some a → l !! j = Some b → after a b = false.

Lemma bubble_pass_ok (i : nat) l :
  (i < length l)%nat → Forall D l →
  ∃ l', bubble_pass after (Z.of_nat i) l = Ok l' ∧ l' ≡ₚ l ∧ length l' = length l ∧
    top_at l' i ∧ (∀ y, (i < y)%nat → l' !! y = l !! y) ∧
    (∀ x a, (x ≤ i)%nat → l' !! x = Some a → ∃ x', (x' ≤ i)%nat ∧ l !! x' = Some a).
Proof.
  intros Hi HD. unfold bubble_pass.
  run_up (λ (j : Z) l', ∃ k : nat, j = Z.of_nat k ∧ l' ≡ₚ l ∧ length l' = length l ∧
    top_at l' k ∧ (∀ y, (i < y)%nat → l' !! y = l !! y) ∧
    (∀ x a, (x ≤ i)%nat → l' !! x = Some a → ∃ x', (x' ≤ i)%nat ∧ l !! x' = Some a)).
  - lia.
  - exists 0%nat. split_and!; try done; eauto. intros x a b. lia.
  - intros j l' Hj (k & -> & Hp & Hl & Ht & Hs & Hm).
    replace (Z.of_nat k + 1) with (Z.of_nat (S k)) by lia.
    destruct (swap_if_ok k (S k) l') as (l'' & -> & Hp' & Hl' & a & b & Ha & Hb & Hcase); [lia|lia|].
    exists l''. split; [done|]. exists (S k). split; [done|].
    split; [by rewrite Hp'|]. split; [lia|].
    pose proof (domain_perm _ _ Hp HD) as HD'.
    pose proof (domain_lookup _ _ _ HD' Ha). pose proof (domain_lookup _ _ _ HD' Hb).
    destruct Hcase as [[E ->]|[E ->]].
    + split_and!.
      * intros x u v Hx Hu Hv. rewrite list_lookup_insert_eq in Hv by (rewrite length_insert; lia).
        injection Hv as <-. rewrite list_lookup_insert_ne in Hu by lia.
        destruct (decide (x = k)) as [->|].
        { rewrite list_lookup_insert_eq in Hu by lia. injection Hu as <-. by apply after_asym. }
        rewrite list_lookup_insert_ne in Hu by lia. apply (Ht x u a); [lia|done|done].
      * intros y Hy. rewrite !list_lookup_insert_ne by lia. by apply Hs.
      * intros x u Hx Hu. destruct (decide (x = S k)) as [->|].
        { rewrite list_lookup_insert_eq in Hu by (rewrite length_insert; lia).
          injection Hu as <-. apply (Hm k a); [lia|done]. }
        rewrite list_lookup_insert_ne in Hu by lia. destruct (decide (x = k)) as [->|].
        { rewrite list_lookup_insert_eq in Hu by lia. injection Hu as <-. apply (Hm (S k) b); [lia|done]. }
        rewrite list_lookup_insert_ne in Hu by lia. by apply (Hm x).
    + split_and!; [|done|done]. intros x u v Hx Hu Hv. rewrite Hb in Hv. injection Hv as <-.
      destruct (decide (x = k)) as [->|]; [congruence|].
      pose proof (domain_lookup _ _ _ HD' Hu).
      apply (after_trans u a b); [done|done|done| |done]. apply (Ht x u a); [lia|done|done].
  - destruct H as (k & Hk & Hp & Hl & Ht & Hs & Hm).
    assert (k = i) as -> by lia. eexists. split; [done|]. by split_and!.
Qed.

Lemma bubble_sort_ok l :
  Forall D l →
  ∃ l', bubble_sort after (Z.of_nat (length l)) l = Ok l' ∧ l' ≡ₚ l ∧ in_order after l'.
Proof.
  intros HD. destruct l as [|a0 l0] eqn:El.
  { exists []. split; [done|]. split; [done|]. intros x y a b _ H. done. }
  rewrite <- El in *. assert (0 < length l)%nat as Hpos by (rewrite El; simpl; lia).
  clear El. unfold bubble_sort.
  destruct (for_down_inv (λ i l', ∃ k : nat, i = Z.of_nat k ∧ (k < length l)%nat ∧ l' ≡ₚ l ∧
      length l' = length l ∧
      ∀ x y a b, (x < y)%nat → (k < y)%nat → l' !! x = Some a → l' !! y = Some b → after a b = false)
    (Z.of_nat (length l) - 1) 0 (bubble_pass after) l) as (l' & E & k & Hk & _ & Hp & Hl & Ho).
  - lia.
  - exists (length l - 1)%nat. split_and!; try done; try lia.
    intros x y a b ?? _ Hy. apply lookup_lt_Some in Hy. lia.
  - intros i l' Hi (k & -> & Hkl & Hp & Hl & Ho).
    destruct (bubble_pass_ok k l') as (l'' & -> & Hp' & Hl' & Ht & Hs & Hm);
      [lia|by eapply domain_perm|].
    exists l''. split; [done|]. exists (k - 1)%nat.
    split_and!; [lia|lia|by rewrite Hp'|lia|].
    intros x y a b Hxy Hky Ha Hb. destruct (decide (y = k)) as [->|].
    { apply (Ht x a b); [lia|done|done]. }
    rewrite Hs in Hb by lia. destruct (decide (x ≤ k)%nat).
    + destruct (Hm x a) as (x' & ? & Hx'); [done|done|]. apply (Ho x' y a b); [lia|lia|done|done].
    + rewrite Hs in Ha by lia. apply (Ho x y a b); [lia|lia|done|done].
  - exists l'. split; [done|]. split; [done|]. intros x y a b Hxy. apply Ho; lia.
Qed.

(** ** Exchange sort *)

Lemma exchange_pass_ok (i : nat) l :
  (i < length l)%nat → Forall D l → in_order after (take i l) →
  ∃ l', for_up 0 (Z.of_nat i) (λ j, swap_if after j (Z.of_nat i)) l = Ok l' ∧ l' ≡ₚ l ∧
    length l' = length l ∧ in_order after (take (S i) l').
Proof.
  intros Hi HD Ho.
  run_up (λ (j : Z) l', ∃ k : nat, j = Z.of_nat k ∧ l' ≡ₚ l ∧ length l' = length l ∧
    (∀ x y a b, (x < y)%nat → (y < i)%nat → l' !! x = Some a → l' !! y = Some b → after a b = false) ∧
    (∀ x a b, (x < k)%nat → l' !! x = Some a → l' !! i = Some b → after a b = false)).
  - lia.
  - exists 0%nat. split_and!; try done; [|intros x a b; lia].
    intros x y a b ? ? Ha Hb. apply (Ho x y); [done|by rewrite lookup_take_lt by lia..].
  - intros j l' Hj (k & -> & Hp & Hl & Hs & Hc).
    destruct (swap_if_ok k i l') as (l'' & -> & Hp' & Hl' & a & b & Ha & Hb & Hcase); [lia|lia|].
    exists l''. split; [done|]. exists (S k). split; [lia|].
    split; [by rewrite Hp'|]. split; [lia|].
    pose proof (domain_perm _ _ Hp HD) as HD'.
    pose proof (domain_lookup _ _ _ HD' Ha). pose proof (domain_lookup _ _ _ HD' Hb).
    destruct Hcase as [[E ->]|[E ->]].
    + split.
      * intros x y u v Hxy Hy Hu Hv. rewrite list_lookup_insert_ne in Hu, Hv by lia.
        destruct (decide (x = k)) as [->|]; [|destruct (decide (y = k)) as [->|]].
        -- rewrite list_lookup_insert_eq in Hu by lia. injection Hu as <-.
           rewrite list_lookup_insert_ne in Hv by lia.
           pose proof (domain_lookup _ _ _ HD' Hv).
           apply (after_trans b a v); [done|done|done|by apply after_asym|].
           apply (Hs k y); done.
        -- rewrite list_lookup_insert_eq in Hv by lia. injection Hv as <-.
           rewrite list_lookup_insert_ne in Hu by lia. by apply (Hc x).
        -- rewrite list_lookup_insert_ne in Hu, Hv by lia. by apply (Hs x y).
      * intros x u v Hx Hu Hv. rewrite list_lookup_insert_eq in Hv by (rewrite length_insert; lia).
        injection Hv as <-. rewrite list_lookup_insert_ne in Hu by lia.
        destruct (decide (x = k)) as [->|].
        -- rewrite list_lookup_insert_eq in Hu by lia. injection Hu as <-. by apply after_asym.
        -- rewrite list_lookup_insert_ne in Hu by lia. apply (Hs x k); [lia|lia|done|done].
    + split; [done|]. intros x u v Hx Hu Hv. rewrite Hb in Hv. injection Hv as <-.
      destruct (decide (x = k)) as [->|]; [congruence|]. apply (Hc x); [lia|done|done].
  - destruct H as (k & Hk & Hp & Hl & Hs & Hc). assert (k = i) as -> by lia.
    eexists. split; [done|]. split_and!; [done|done|].
    intros p q a b Hxy Ha Hb. pose proof (lookup_lt_Some _ _ _ Hb) as Hy.
    rewrite length_take in Hy. rewrite lookup_take_lt in Ha, Hb by lia.
    destruct (decide (q = i)) as [->|]; [by apply (Hc p)|]. apply (Hs p q); [done|lia|done|done].
Qed.

Lemma exchange_sort_ok l :
  Forall D l →
  ∃ l', exchange_sort after (Z.of_nat (length l)) l = Ok l' ∧ l' ≡ₚ l ∧ in_order after l'.
Proof.
  intros HD. unfold exchange_sort.
  run_up (λ (i : Z) l', ∃ k : nat, i = Z.of_nat k ∧ l' ≡ₚ l ∧ length l' = length l ∧
    in_order after (take k l')).
  - lia.
  - exists 0%nat. split_and!; try done.
  - intros i l' Hi (k & -> & Hp & Hl & Ho).
    destruct (exchange_pass_ok k l') as (l'' & -> & Hp' & Hl' & Ho');
      [lia|by eapply domain_perm|done|].
    exists l''. split; [done|]. exists (S k). split_and!; [lia|by rewrite Hp'|lia|done].
  - destruct H as (k & Hk & Hp & Hl & Ho). eexists. split; [done|]. split; [done|].
    assert (k = length l) as -> by lia. by rewrite take_ge in Ho by lia.
Qed.
End sorting.
