(* ===== verification/LongDouble.v ===== *)
(** [long double] of x86: IEEE-754 arithmetic with 64 bits of precision, from
    the Standard Library's [SpecFloat]; its decimal input and output. *)
From Stdlib Require Export SpecFloat.
From S2P Require Import Prelude CString.
Local Open Scope Z_scope.

Abbreviation long_double := spec_float.

Definition ld_prec : Z := 64.
Definition ld_emax : Z := 16384.

Definition ld_of_Z (z : Z) : long_double := binary_normalize ld_prec ld_emax z 0 false.
Definition ld_div (a b : long_double) : long_double := SFdiv ld_prec ld_emax a b.
Definition ld_mul (a b : long_double) : long_double := SFmul ld_prec ld_emax a b.

(** [a < b] and [a > b]: false when an operand is a NaN. *)
Definition ld_lt (a b : long_double) : bool :=
  match SFcompare a b with Some Lt => true | _ => false end.
Definition ld_gt (a b : long_double) : bool :=
  match SFcompare a b with Some Gt => true | _ => false end.

(** [(unsigned long)x]: undefined outside the range of the type. *)
Definition ld_to_ulong (x : long_double) : res Z :=
  match x with
  | S754_zero _ => Ok 0
  | S754_finite false m e =>
      let v := if decide (0 ≤ e) then Z.pos m * 2 ^ e else Z.pos m / 2 ^ (- e) in
      if decide (v < 2^64) then Ok v else Undef OutOfBounds
  | S754_finite true m e =>
      if decide (e < 0 ∧ Z.pos m / 2 ^ (- e) = 0) then Ok 0 else Undef OutOfBounds
  | _ => Undef OutOfBounds
  end.

(** The value nearest to the fraction [n / d], [d > 0]. *)
Definition ld_ratio (neg : bool) (n d : Z) : long_double :=
  if decide (n = 0) then S754_zero neg
  else let '(q, e, l) := SFdiv_core_binary ld_prec ld_emax n 0 d 0 in
       binary_round_aux ld_prec ld_emax neg q e l.

(** [%Lf] of [scanf] on the decimal notation the kernel's files use: digits
    with an optional fraction. The rest of the input follows. *)
Definition scan_Lf (s : string) : option (long_double * string) :=
  let s := skip_space s in
  let '(neg, s) := match s with
                   | String c s' => if decide (c = "-"%char) then (true, s') else (false, s)
                   | EmptyString => (false, s)
                   end in
  let '(ip, rest) := span is_digit s in
  let '(fp, rest) := match rest with
                     | String c r => if decide (c = "."%char) then span is_digit r
                                     else (EmptyString, rest)
                     | EmptyString => (EmptyString, rest)
                     end in
  if decide (ip = EmptyString ∧ fp = EmptyString) then None
  else Some (ld_ratio neg (digits_val 0 (ip +:+ fp)) (10 ^ Z.of_nat (String.length fp)), rest).

(** [n / d] rounded to an integer, ties to even. *)
Definition round_half_even (n d : Z) : Z :=
  let q := n / d in let r := n mod d in
  if decide (2 * r < d) then q
  else if decide (d < 2 * r) then q + 1
  else if Z.even q then q else q + 1.

(** [%<w>.<p>Lf]. The NaN of an invalid operation has its sign bit set. *)
Definition fixed_digits (p : nat) (n : Z) : string :=
  let d := 10 ^ Z.of_nat p in pretty (n / d) +:+ "." +:+ pad0 p (n mod d).

Definition show_Lf (w p : nat) (x : long_double) : string :=
  pad w match x with
        | S754_nan => "-nan"
        | S754_infinity s => if s then "-inf" else "inf"
        | S754_zero s => (if s then "-" else "") +:+ fixed_digits p 0
        | S754_finite s m e =>
            let n := Z.pos m * 10 ^ Z.of_nat p in
            let v := if decide (0 ≤ e) then n * 2 ^ e else round_half_even n (2 ^ (- e)) in
            (if s then "-" else "") +:+ fixed_digits p v
        end.

(** [%<w>.<p>LF]: the same with INF and NAN in capitals. *)
Definition show_LF (w p : nat) (x : long_double) : string :=
  match x with
  | S754_nan => pad w "-NAN"
  | S754_infinity s => pad w (if s then "-INF" else "INF")
  | _ => show_Lf w p x
  end.

(** * The order of the values that are not NaN *)

Definition is_nan (x : long_double) : bool := match x with S754_nan => true | _ => false end.

(** A triple whose lexicographic order is the order of the values. *)
Definition ld_key (x : long_double) : Z * Z * Z :=
  match x with
  | S754_nan => (3, 0, 0)
  | S754_infinity s => if s then (-2, 0, 0) else (2, 0, 0)
  | S754_zero _ => (0, 0, 0)
  | S754_finite s m e => if s then (-1, - e, Z.neg m) else (1, e, Z.pos m)
  end.

Definition key_lt (a b : Z * Z * Z) : Prop :=
  let '(a1, a2, a3) := a in let '(b1, b2, b3) := b in
  a1 < b1 ∨ (a1 = b1 ∧ (a2 < b2 ∨ (a2 = b2 ∧ a3 < b3))).

Lemma ld_lt_key a b : is_nan a = false → is_nan b = false →
  ld_lt a b = true ↔ key_lt (ld_key a) (ld_key b).
Proof.
  intros Ha Hb. unfold ld_lt, key_lt.
  destruct a as [?|[]| |[] m1 e1], b as [?|[]| |[] m2 e2]; try done; simpl;
    try (split; [done|lia]); try (split; [lia|done]); try lia;
    destruct (Z.compare_spec e1 e2) as [->|?|?]; try (split; [done|lia]);
    try (split; [lia|done]);
    change (PosDef.Pos.compare_cont Eq m1 m2) with (Pos.compare m1 m2);
    destruct (Pos.compare_spec m1 m2); simpl; split; intros; try done; lia.
Qed.

Lemma ld_gt_lt a b : ld_gt a b = ld_lt b a.
Proof.
  unfold ld_gt, ld_lt.
  destruct a as [?|[]| |[] m1 e1], b as [?|[]| |[] m2 e2]; try done; simpl;
    rewrite (Z.compare_antisym e1 e2); destruct (Z.compare e1 e2); simpl; try done;
    change PosDef.Pos.compare_cont with Pos.compare_cont;
    change (Pos.compare_cont Eq) with Pos.compare;
    rewrite (Pos.compare_antisym m1 m2); destruct (Pos.compare m1 m2); done.
Qed.

Lemma key_lt_trans a b c : key_lt a b → key_lt b c → key_lt a c.
Proof. destruct a as [[??]?], b as [[??]?], c as [[??]?]. unfold key_lt. lia. Qed.

Lemma key_lt_total a b : key_lt a b ∨ a = b ∨ key_lt b a.
Proof.
  destruct a as [[a1 a2] a3], b as [[b1 b2] b3]. unfold key_lt.
  destruct (Z.lt_trichotomy a1 b1) as [?|[->|?]]; [lia| |lia].
  destruct (Z.lt_trichotomy a2 b2) as [?|[->|?]]; [lia| |lia].
  destruct (Z.lt_trichotomy a3 b3) as [?|[->|?]]; [lia| |lia]. auto.
Qed.

Lemma key_lt_irrefl a : ¬ key_lt a a.
Proof. destruct a as [[??]?]. unfold key_lt. lia. Qed.
