(* ===== verification/Life.v ===== *)
(** The cell simulator of the system-programming course
    (src/과제/리눅스시스템프로그래밍과제/리시프설계.c): the neighbour count and
    the rule, the matrix files, and the three ways the program computes a
    generation: sequentially, with one child process per block of rows, and
    with one thread per block of rows. *)
From S2P Require Import Prelude.
Local Open Scope Z_scope.

(** * Matrices: [char**], rows obtained from [malloc]

    A cell that was never written is [None]; reading it is undefined. *)

Abbreviation mrow := (list (option ascii)).
Abbreviation matrix := (list (list (option ascii))).

Definition fresh_matrix (m w : Z) : matrix :=
  replicate (Z.to_nat m) (replicate (Z.to_nat w) None).

Definition cell (mt : matrix) (i j : Z) : res ascii :=
  r ← rd mt i; v ← rd r j; opt Uninitialised v.

Definition set_cell (mt : matrix) (i j : Z) (v : option ascii) : res matrix :=
  r ← rd mt i; r' ← wr r j v; wr mt i r'.

(** [if(matrix[i][j]=='1')ret++;] for the listed cells, in order. *)
Fixpoint count_cells (mt : matrix) (l : list (Z * Z)) (ret : Z) : res Z :=
  match l with
  | [] => Ok ret
  | (i, j) :: l =>
      c ← cell mt i j;
      count_cells mt l (if decide (c = "1"%char) then ret + 1 else ret)
  end.

Definition living_cell_count (mt : matrix) (i j horizontal vertical : Z) : res Z :=
  if decide (i = 0) then
    if decide (j = 0) then count_cells mt [(0,1); (1,0); (1,1)] 0
    else if decide (j = vertical) then
      count_cells mt [(0,vertical-1); (1,vertical); (1,vertical-1)] 0
    else
      count_cells mt [(i,j-1); (i,j+1); (i+1,j-1); (i+1,j); (i+1,j+1)] 0
  else if decide (i = horizontal) then
    if decide (j = 0) then
      count_cells mt [(horizontal-1,0); (horizontal-1,1); (horizontal,1)] 0
    else if decide (j = vertical) then
      count_cells mt
        [(horizontal-1,vertical); (horizontal-1,vertical-1); (horizontal,vertical-1)] 0
    else
      count_cells mt [(i,j-1); (i,j+1); (i-1,j-1); (i-1,j); (i-1,j+1)] 0
  else
    if decide (j = 0) then
      count_cells mt [(i-1,0); (i+1,1); (i-1,1); (i,1); (i+1,0)] 0
    else if decide (j = vertical) then
      count_cells mt
        [(i-1,vertical); (i+1,vertical); (i-1,vertical-1); (i,vertical-1); (i+1,vertical-1)] 0
    else
      count_cells mt
        [(i,j-1); (i-1,j-1); (i+1,j-1); (i-1,j); (i+1,j); (i-1,j+1); (i,j+1); (i+1,j+1)] 0.

Definition get_next_generation_matrix
    (mt next : matrix) (i horizontal vertical : Z) : res matrix :=
  for_up 0 (vertical + 1) (λ j next,
    tmp ← living_cell_count mt i j horizontal vertical;
    c ← cell mt i j;
    set_cell next i j (Some
      (if decide (c = "0"%char)
       then if decide (tmp = 4) then "1"%char else "0"%char
       else if decide (tmp ≤ 2 ∨ 7 ≤ tmp) then "0"%char else "1"%char))) next.

(** * Files

    [fs] is the directory of the process; [read] returns the number of bytes
    read (-1 on a descriptor [open] failed to give) and overwrites the head of
    the buffer. *)

Abbreviation file := (list ascii).
Abbreviation files := (gmap string (list ascii)).

Definition sys_read (fd : option file) (off n : Z) (buf : mrow) : Z * Z * mrow :=
  match fd with
  | None => (-1, off, buf)
  | Some c =>
      let data := take (Z.to_nat n) (drop (Z.to_nat off) c) in
      (Z.of_nat (length data), off + Z.of_nat (length data),
       (Some <$> data) ++ drop (length data) buf)
  end.

(** [write] at offset [off]: a gap before it reads as zero bytes. *)
Definition pwrite (c : file) (off : Z) (data : file) : file :=
  let o := Z.to_nat off in
  take o (c ++ replicate (o - length c) "000"%char) ++ data ++ drop (o + length data) c.

Definition rename (fs : files) (old new : string) : files :=
  match fs !! old with
  | Some c => <[new := c]> (delete old fs)
  | None => fs
  end.

Definition buf_len : Z := 20010.

(** [sprintf(generation_filename,"%s%d%s","gen_",generation_count,".matrix")]
    into [char generation_filename[20]]. *)
Definition gen_name (count : Z) : res string :=
  let s := ("gen_" +:+ pretty count +:+ ".matrix")%string in
  if decide (String.length s < 20)%nat then Ok s else Undef OutOfBounds.

Definition line_feed : ascii := "010"%char.

(** The width of a line of the input file: [n = i+1] at the first newline. *)
Definition find_width (buf : mrow) (n : Z) : res Z :=
  for_brk 0 buf_len (λ i n,
    v ← rd buf i; c ← opt Uninitialised v;
    Ok (if decide (c = line_feed) then inr (i + 1) else inl n)) n.

(** [while(1){ if((tmp = read(fd,tmp_buffer,n)) == 0)break; m++; }] *)
Fixpoint count_rows (fuel : nat) (fd : option file) (off n : Z) (buf : mrow) (m : Z)
    : res (Z * mrow) :=
  match fuel with
  | O => Undef Diverges
  | S fuel =>
      let '(k, off', buf') := sys_read fd off n buf in
      if decide (k = 0) then Ok (m, buf') else count_rows fuel fd off' n buf' (m + 1)
  end.

Definition fuel_of (fd : option file) : nat :=
  match fd with Some c => S (length c) | None => O end.

(** One row of [n] bytes: the bytes at even positions are the cells. *)
Definition store_row (buf : mrow) (n i : Z) (mt : matrix) : res matrix :=
  for_up 0 ((n + 1) / 2) (λ k mt, v ← rd buf (2 * k); set_cell mt i k v) mt.

(** [m] rows of [n] bytes through the one buffer [tmp_buffer]. *)
Definition read_rows (fd : option file) (m n : Z) (buf : mrow) (mt : matrix)
    : res (Z * mrow * matrix) :=
  for_up 0 m (λ i '(off, buf, mt),
    let '(_, off', buf') := sys_read fd off n buf in
    mt' ← store_row buf' n i mt; Ok (off', buf', mt')) (0, buf, mt).

(** [m] rows of [n] bytes, each through a new [char get_buffer[n*2]]. *)
Definition reread_rows (fd : option file) (m n : Z) (mt : matrix) : res (Z * matrix) :=
  for_up 0 m (λ i '(off, mt),
    let '(_, off', buf') := sys_read fd off n (replicate (Z.to_nat n) None) in
    mt' ← store_row buf' n i mt; Ok (off', mt')) (0, mt).

(** The variables of [main] that survive from one menu choice to the next. *)
Record life := Life {
  l_fs : files;
  l_buf : mrow;            (* char tmp_buffer[20010] *)
  l_m : Z;
  l_n : Z;
  l_name : option string;  (* char generation_filename[20] *)
}.

(** Opening and loading [argv[1]]: the code of case 2, repeated in 3 and 4. *)
Definition load_matrix (argv1 : string) (s : life) : res (matrix * matrix * life) :=
  let fd := l_fs s !! argv1 in
  let '(_, _, buf) := sys_read fd 0 buf_len (l_buf s) in
  n ← find_width buf (l_n s);
  '(m, buf) ← (if decide (l_m s = 0)
               then count_rows (fuel_of fd) fd 0 n buf 0 else Ok (l_m s, buf));
  '(_, buf, mt) ← read_rows fd m n buf (fresh_matrix m (n / 2));
  Ok (mt, fresh_matrix m (n / 2), Life (l_fs s) buf m (n / 2) (l_name s)).

Definition load_matrix_process := load_matrix.
Definition load_matrix_thread := load_matrix.

(** * Case 2: sequential *)

Definition fill_output_row (mt : matrix) (n i : Z) (next : matrix) : res matrix :=
  for_up 0 n (λ k next,
    r ← rd mt i; v ← rd r k;
    next ← set_cell next i (2 * k) v;
    set_cell next i (2 * k + 1)
      (Some (if decide (2 * k = 2 * n - 2) then line_feed else " "%char))) next.

Definition write_row (next : matrix) (w i : Z) (out : file) : res file :=
  for_up 0 w (λ j out, c ← cell next i j; Ok (out ++ [c])) out.

Definition seq_generation (m n count : Z) (st : files * mrow * matrix * matrix)
    : res (files * mrow * matrix * matrix) :=
  let '(fs, buf, mt, next) := st in
  '(buf, mt) ← (if decide (count = 0) then Ok (buf, mt) else
     old ← gen_name count;
     '(_, buf, mt) ← read_rows (fs !! old) m (n * 2) buf mt;
     Ok (buf, mt));
  name ← gen_name (count + 1);
  next ← for_up 0 m (λ i next, get_next_generation_matrix mt next i (m-1) (n-1)) next;
  let mt := next in
  next ← for_up 0 m (λ i next, fill_output_row mt n i next) (fresh_matrix m (2 * n));
  out ← for_up 0 m (λ i out, write_row next (2 * n) i out) [];
  Ok (<[name := out]> fs, buf, mt, next).

(** [while(generation_number--)]: a negative count only ends by overflow. *)
Definition generations {S} (gens : Z) (body : Z → S → res S) (s : S) : res S :=
  if decide (gens < 0) then Undef Diverges else for_up 0 gens body s.

(** The name left in [generation_filename] when the loop ends. *)
Definition last_name (gens : Z) (old : option string) : res string :=
  if decide (gens = 0) then opt Uninitialised old else gen_name gens.

Definition sequential (argv1 : string) (gens : Z) (s : life) : res life :=
  '(mt, next, s) ← load_matrix argv1 s;
  '(fs, buf, _, _) ← generations gens (seq_generation (l_m s) (l_n s))
                       (l_fs s, l_buf s, mt, next);
  name ← last_name gens (l_name s);
  Ok (Life (rename fs name "output.matrix") buf (l_m s) (l_n s) (Some name)).

(** * Case 3: one child process per block of rows *)

(** [m % p ? m / p + 1 : m / p]; C division, so [p = 0] traps. *)
Definition block_size (m p : Z) : res Z :=
  if decide (p = 0) then Undef DivByZero
  else Ok (if decide (Z.rem m p = 0) then Z.quot m p else Z.quot m p + 1).

Definition output_row (next : matrix) (n index : Z) : res file :=
  for_up 0 n (λ k out,
    c ← cell next index k;
    Ok (out ++ [c; if decide (k = n - 1) then line_feed else " "%char])) [].

(** Child [i]: its rows, up to the first row with number exactly [m]. The
    child has its own copy of [next_generation_matrix]; the file is shared. *)
Definition child (mt next : matrix) (m n handle i : Z) (out : file) : res file :=
  '(out, _) ← for_brk 0 handle (λ j '(out, next),
    let index := i * handle + j in
    if decide (index = m) then Ok (inr (out, next)) else
    next ← get_next_generation_matrix mt next index (m-1) (n-1);
    data ← output_row next n index;
    Ok (inl (pwrite out (index * 2 * n) data, next))) (out, next);
  Ok out.

(** The parent waits for child [i] before it forks child [i+1]. *)
Definition proc_generation (m n p handle count : Z) (next : matrix)
    (st : files * matrix) : res (files * matrix) :=
  let '(fs, mt) := st in
  mt ← (if decide (count = 0) then Ok mt else
     old ← gen_name count; '(_, mt) ← reread_rows (fs !! old) m (n * 2) mt; Ok mt);
  name ← gen_name (count + 1);
  out ← for_up 0 p (λ i out, child mt next m n handle i out) [];
  Ok (<[name := out]> fs, mt).

Definition process (argv1 : string) (gens p : Z) (s : life) : res life :=
  '(mt, next, s) ← load_matrix_process argv1 s;
  handle ← block_size (l_m s) p;
  '(fs, _) ← generations gens (λ c, proc_generation (l_m s) (l_n s) p handle c next)
               (l_fs s, mt);
  name ← last_name gens (l_name s);
  Ok (Life (rename fs name "output.matrix") (l_buf s) (l_m s) (l_n s) (Some name)).

(** * Case 4: one thread per block of rows

    [thread_func] as a machine with one step per system call or row, so that
    the steps of several threads interleave. The matrix is read-only; the next
    matrix and the file are shared; the file offset belongs to the thread. *)

Inductive tpc : Set :=
  | TOpen
  | TLoop (i : Z)      (** the test of the loop, then [lseek] *)
  | TCompute (i : Z)   (** the call of [get_next_generation_matrix] *)
  | TWrite (i : Z)     (** [tmp_write] is filled and written *)
  | TClose
  | TExit.

Record thread := Thread { t_pc : tpc; t_off : Z }.
Record shared := Shared { sh_next : matrix; sh_file : file }.

Definition thread_func (mt : matrix) (m n handle myindex : Z) (t : thread) (sh : shared)
    : res (thread * shared) :=
  match t_pc t with
  | TOpen => Ok (Thread (TLoop 0) 0, sh)
  | TLoop i =>
      let index := myindex * handle + i in
      if decide (i < handle ∧ index < m)
      then Ok (Thread (TCompute i) (index * 2 * n), sh)
      else Ok (Thread TClose (t_off t), sh)
  | TCompute i =>
      next ← get_next_generation_matrix mt (sh_next sh) (myindex * handle + i) (m-1) (n-1);
      Ok (Thread (TWrite i) (t_off t), Shared next (sh_file sh))
  | TWrite i =>
      data ← output_row (sh_next sh) n (myindex * handle + i);
      Ok (Thread (TLoop (i + 1)) (t_off t + Z.of_nat (length data)),
          Shared (sh_next sh) (pwrite (sh_file sh) (t_off t) data))
  | TClose => Ok (Thread TExit (t_off t), sh)
  | TExit => Ok (t, sh)
  end.

(** One scheduling decision: thread [k] runs its next step. *)
Definition sched_step (mt : matrix) (m n handle : Z) (k : nat)
    (c : list thread * shared) : res (list thread * shared) :=
  match c.1 !! k with
  | None => Ok c
  | Some t =>
      '(t', sh') ← thread_func mt m n handle (Z.of_nat k) t c.2;
      Ok (<[k := t']> c.1, sh')
  end.

Fixpoint run_schedule (mt : matrix) (m n handle : Z) (sched : list nat)
    (c : list thread * shared) : res (list thread * shared) :=
  match sched with
  | [] => Ok c
  | k :: sched => c' ← sched_step mt m n handle k c; run_schedule mt m n handle sched c'
  end.

(** [pthread_create] for every thread. *)
Definition start_threads (p : Z) : list thread :=
  replicate (Z.to_nat p) (Thread TOpen 0).

(** [pthread_join] on every thread returns when all of them have exited. *)
Definition all_exited (ts : list thread) : Prop := Forall (λ t, t_pc t = TExit) ts.

#[global] Instance tpc_eq_dec : EqDecision tpc.
Proof. solve_decision. Defined.
#[global] Instance all_exited_dec ts : Decision (all_exited ts).
Proof. unfold all_exited. apply _. Defined.

(** [pthread_join] stores the result of a thread, a null pointer of 8 bytes,
    in [status], an int of 4 bytes. What lies behind [status] on the stack is up
    to the compiler: nothing, [n], its copy [tmp], or something else. *)
Inductive behind_status : Set := Padding | Holds_n | Holds_tmp | Another.

(** [n] and [tmp] after a join. *)
Definition pthread_join (behind : behind_status) (v : Z * Z) : res (Z * Z) :=
  match behind with
  | Padding => Ok v
  | Holds_n => Ok (0, v.2)
  | Holds_tmp => Ok (v.1, 0)
  | Another => Undef OutOfBounds
  end.

(** [tmp = n], the joins, and [n = tmp]. *)
Definition join_threads (behind : behind_status) (p n : Z) : res Z :=
  '(_, tmp) ← for_up 0 p (λ _, pthread_join behind) (n, n); Ok tmp.

(** A generation under the schedule [sched]; a schedule that leaves a thread
    running is not the one the joins saw. *)
Definition thread_generation (behind : behind_status) (m p handle : Z) (sched : list nat) (count : Z)
    (st : files * matrix * matrix * Z) : res (files * matrix * matrix * Z) :=
  let '(fs, mt, next, n) := st in
  mt ← (if decide (count = 0) then Ok mt else
     old ← gen_name count; '(_, mt) ← reread_rows (fs !! old) m (n * 2) mt; Ok mt);
  name ← gen_name (count + 1);
  '(ts, sh) ← run_schedule mt m n handle sched (start_threads p, Shared next []);
  if decide (all_exited ts) then n ← join_threads behind p n; Ok (<[name := sh_file sh]> fs, mt, sh_next sh, n)
  else Undef Diverges.

Definition threads (behind : behind_status) (argv1 : string) (gens p : Z) (scheds : Z → list nat) (s : life)
    : res life :=
  '(mt, next, s) ← load_matrix_thread argv1 s;
  handle ← block_size (l_m s) p;
  '(fs, _, _, n) ← generations gens (λ c, thread_generation behind (l_m s) p handle (scheds c) c)
                     (l_fs s, mt, next, l_n s);
  name ← last_name gens (l_name s);
  Ok (Life (rename fs name "output.matrix") (l_buf s) (l_m s) n (Some name)).
