(* ===== verification/LifeProofs.v ===== *)
(** What the cell simulator computes: the reference neighbour count, rule and
    file format, and the proofs that the three modes of Life.v produce them. *)
From S2P Require Import Prelude CString Life.
Local Open Scope Z_scope.

(** * Specification *)

(** 1 for a live cell of the [m] x [n] grid, 0 for a dead or an absent one. *)
Definition alive (m n : Z) (g : Z → Z → ascii) (i j : Z) : Z :=
  if decide (0 ≤ i < m ∧ 0 ≤ j < n ∧ g i j = "1"%char) then 1 else 0.

Definition neighbours (m n : Z) (g : Z → Z → ascii) (i j : Z) : Z :=
  alive m n g (i-1) (j-1) + alive m n g (i-1) j + alive m n g (i-1) (j+1) +
  alive m n g i (j-1) + alive m n g i (j+1) +
  alive m n g (i+1) (j-1) + alive m n g (i+1) j + alive m n g (i+1) (j+1).

(** Born with exactly 4 live neighbours, survives with 3 to 6. *)
Definition rule (c : ascii) (k : Z) : ascii :=
  if decide (c = "0"%char) then (if decide (k = 4) then "1"%char else "0"%char)
  else if decide (3 ≤ k ≤ 6) then "1"%char else "0"%char.

Definition next_gen (m n : Z) (g : Z → Z → ascii) (i j : Z) : ascii :=
  rule (g i j) (neighbours m n g i j).

Fixpoint gens_of (m n : Z) (k : nat) (g : Z → Z → ascii) : Z → Z → ascii :=
  match k with O => g | S k => next_gen m n (gens_of m n k g) end.

(** Byte [k] of row [i] of a matrix file. *)
Definition row_byte (n : Z) (h : Z → ascii) (k : Z) : ascii :=
  if decide (k mod 2 = 0) then h (k / 2)
  else if decide (k = 2 * n - 1) then line_feed else " "%char.

Definition enc_row (n : Z) (h : Z → ascii) : file := row_byte n h <$> seqZ 0 (2 * n).
Definition encode (m n : Z) (g : Z → Z → ascii) : file :=
  concat ((λ i, enc_row n (g i)) <$> seqZ 0 m).

(** The matrix [mt] holds the cells [g]. *)
Definition grid (m n : Z) (mt : matrix) (g : Z → Z → ascii) : Prop :=
  ∀ i j, 0 ≤ i < m → 0 ≤ j < n → cell mt i j = Ok (g i j).

(** [mt] has [m] rows of at least [w] cells. *)
Definition room (m w : Z) (mt : matrix) : Prop :=
  Z.of_nat (length mt) = m ∧ ∀ i r, getZ mt i = Some r → w ≤ Z.of_nat (length r).

(** * Cells and rows *)

Lemma room_fresh m w w' :
  0 ≤ m → w' ≤ w → room m w' (fresh_matrix m w).
Proof.
  intros. unfold room, fresh_matrix. rewrite length_replicate. split; [lia|].
  intros i r. unfold getZ. case_decide; [|done].
  intros [-> _]%lookup_replicate. rewrite length_replicate. lia.
Qed.

Lemma room_le m w w' mt : room m w mt → w' ≤ w → room m w' mt.
Proof. intros [? H] ?. split; [done|]. intros i r Hr. specialize (H i r Hr). lia. Qed.

Lemma cell_ok_inv mt i j c :
  cell mt i j = Ok c → ∃ r, rd mt i = Ok r ∧ rd r j = Ok (Some c).
Proof.
  unfold cell. intros H. bind_inv. apply opt_ok_inv in H as ->. eauto.
Qed.

Lemma set_cell_ok m w mt i j v :
  room m w mt → 0 ≤ i < m → 0 ≤ j < w →
  ∃ mt', set_cell mt i j v = Ok mt' ∧ room m w mt' ∧
    ∀ i' j', cell mt' i' j' =
      if decide (i' = i ∧ j' = j) then opt Uninitialised v else cell mt i' j'.
Proof.
  intros [Hm Hw] Hi Hj. unfold set_cell.
  destruct (getZ_is_Some mt i) as [r Hr]; [lia|].
  pose proof (Hw i r Hr) as Hlen.
  assert (rd mt i = Ok r) as -> by (by apply rd_ok_iff). simpl.
  rewrite (wr_ok r j) by lia. simpl. rewrite wr_ok by lia.
  eexists. split; [done|]. split; [split|].
  - rewrite length_insert. done.
  - intros i' r'. rewrite getZ_insert by lia. case_decide; [|eauto].
    intros [= <-]. rewrite length_insert. lia.
  - intros i' j'. unfold cell. rewrite !rd_getZ, getZ_insert by lia.
    destruct (decide (i = i')) as [<-|]; simpl.
    + rewrite Hr. simpl. rewrite !rd_getZ, getZ_insert by lia.
      destruct (decide (j = j')) as [<-|]; [by rewrite decide_True|].
      rewrite decide_False by naive_solver. done.
    + rewrite decide_False by naive_solver. done.
Qed.

(** A loop over one row whose body writes [h j] to the cell [(i, j)]. *)
Lemma fill_row m w mt i n h body :
  room m w mt → 0 ≤ i < m → 0 ≤ n ≤ w →
  (∀ j a, 0 ≤ j < n → room m w a →
     (∀ i' j', i' ≠ i → cell a i' j' = cell mt i' j') →
     body j a = set_cell a i j (Some (h j))) →
  ∃ mt', for_up 0 n body mt = Ok mt' ∧ room m w mt' ∧
    ∀ i' j', cell mt' i' j' =
      if decide (i' = i ∧ 0 ≤ j' < n) then Ok (h j') else cell mt i' j'.
Proof.
  intros Hroom Hi Hn Hbody.
  apply (for_up_inv (λ k a, room m w a ∧
    ∀ i' j', cell a i' j' =
      if decide (i' = i ∧ 0 ≤ j' < k) then Ok (h j') else cell mt i' j') 0 n).
  - lia.
  - split; [done|]. intros. rewrite decide_False by lia. done.
  - intros j a Hj [Ha Hc].
    rewrite Hbody; [|lia|done|].
    2: { intros i' j' ?. rewrite Hc, decide_False by naive_solver. done. }
    destruct (set_cell_ok m w a i j (Some (h j))) as (a' & -> & Ha' & Hc');
      [done|lia|lia|].
    exists a'. split; [done|]. split; [done|]. intros i' j'.
    rewrite Hc', Hc. repeat case_decide; naive_solver lia.
Qed.

(** A loop over rows that fills the rows of the matrix one after the other. *)
Lemma fill_rows m w mt k n (h : Z → Z → ascii) body :
  room m w mt → 0 ≤ k ≤ m → 0 ≤ n ≤ w →
  (∀ i a, 0 ≤ i < k → room m w a →
     ∃ a', body i a = Ok a' ∧ room m w a' ∧
       ∀ i' j', cell a' i' j' =
         if decide (i' = i ∧ 0 ≤ j' < n) then Ok (h i j') else cell a i' j') →
  ∃ mt', for_up 0 k body mt = Ok mt' ∧ room m w mt' ∧ grid k n mt' h.
Proof.
  intros Hroom Hk Hn Hbody.
  apply (for_up_inv (λ k a, room m w a ∧ grid k n a h) 0 k); [lia| |].
  - split; [done|]. intros i j ?. lia.
  - intros i a Hi [Ha Hg].
    destruct (Hbody i a) as (a' & -> & Ha' & Hc); [done..|].
    exists a'. split; [done|]. split; [done|]. intros i' j' ??.
    rewrite Hc. case_decide as Hd; [destruct Hd; by subst|].
    apply Hg; [|done]. destruct (decide (i' = i)); naive_solver lia.
Qed.

(** * The neighbour count and the rule *)

Lemma count_cells_grid m n mt g l ret :
  grid m n mt g →
  Forall (λ p : Z * Z, 0 ≤ p.1 < m ∧ 0 ≤ p.2 < n) l →
  count_cells mt l ret = Ok (ret + foldr (λ p s, alive m n g p.1 p.2 + s) 0 l).
Proof.
  intros Hg Hl. induction Hl as [|[i j] l [Hi Hj] _ IH] in ret |- *; simpl.
  - f_equal. lia.
  - rewrite Hg by done. simpl. rewrite IH. f_equal. unfold alive. simpl in *.
    destruct (decide (g i j = "1"%char)) as [E|E].
    + rewrite decide_True by done. lia.
    + rewrite decide_False by naive_solver. lia.
Qed.

Lemma alive_out m n g i j : ¬ (0 ≤ i < m ∧ 0 ≤ j < n) → alive m n g i j = 0.
Proof. intros. unfold alive. rewrite decide_False; naive_solver. Qed.

Ltac drop_absent :=
  repeat match goal with
  | |- context [alive ?m ?n ?g ?a ?b] => rewrite (alive_out m n g a b) by lia
  end.

Lemma living_cell_count_ok m n mt g i j :
  2 ≤ m → 2 ≤ n → grid m n mt g → 0 ≤ i < m → 0 ≤ j < n →
  living_cell_count mt i j (m-1) (n-1) = Ok (neighbours m n g i j).
Proof.
  intros Hm Hn Hg Hi Hj. unfold living_cell_count, neighbours.
  repeat case_decide; subst;
    (rewrite (count_cells_grid m n mt g) by
       (done || (repeat (apply Forall_cons; split; [simpl; lia|]); apply Forall_nil_2)));
    f_equal; simpl; drop_absent; rewrite ?Z.add_0_l; lia.
Qed.

Lemma rule_spec c k :
  (if decide (c = "0"%char)
   then if decide (k = 4) then "1"%char else "0"%char
   else if decide (k ≤ 2 ∨ 7 ≤ k) then "0"%char else "1"%char) = rule c k.
Proof. unfold rule. repeat case_decide; naive_solver lia. Qed.

Lemma next_row_ok m n w mt next g i :
  2 ≤ m → 2 ≤ n → n ≤ w → grid m n mt g → room m w next → 0 ≤ i < m →
  ∃ next', get_next_generation_matrix mt next i (m-1) (n-1) = Ok next' ∧
    room m w next' ∧
    ∀ i' j', cell next' i' j' =
      if decide (i' = i ∧ 0 ≤ j' < n) then Ok (next_gen m n g i j') else cell next i' j'.
Proof.
  intros ??? Hg Hroom ?. unfold get_next_generation_matrix.
  replace (n - 1 + 1) with n by lia.
  apply (fill_row m w next i n (next_gen m n g i)); [done|lia|lia|].
  intros j a Hj _ _. rewrite (living_cell_count_ok m n mt g) by lia || done. simpl.
  rewrite Hg by lia. simpl. by rewrite rule_spec.
Qed.

Lemma next_rows_ok m n w mt next g k :
  2 ≤ m → 2 ≤ n → n ≤ w → grid m n mt g → room m w next → 0 ≤ k ≤ m →
  ∃ next', for_up 0 k (λ i next, get_next_generation_matrix mt next i (m-1) (n-1)) next
             = Ok next' ∧ room m w next' ∧ grid k n next' (next_gen m n g).
Proof.
  intros. apply fill_rows; [done|lia|lia|].
  intros i a ??. apply next_row_ok; done || lia.
Qed.

(** * The file format *)

Lemma length_enc_row n h : 0 ≤ n → Z.of_nat (length (enc_row n h)) = 2 * n.
Proof. intros. unfold enc_row. rewrite length_fmap, length_seqZ. lia. Qed.

Lemma enc_row_lookup n h k :
  0 ≤ k < 2 * n → enc_row n h !! Z.to_nat k = Some (row_byte n h k).
Proof.
  intros. unfold enc_row. rewrite list_lookup_fmap, lookup_seqZ_lt by lia.
  simpl. do 2 f_equal. lia.
Qed.

Lemma row_byte_even n h j : row_byte n h (2 * j) = h j.
Proof.
  unfold row_byte. replace (2 * j) with (j * 2) by lia.
  rewrite Z.mod_mul, Z.div_mul by lia. done.
Qed.

Lemma row_byte_odd n h j :
  row_byte n h (2 * j + 1) = if decide (j = n - 1) then line_feed else " "%char.
Proof.
  unfold row_byte. replace (2 * j + 1) with (1 + j * 2) by lia.
  rewrite Z_mod_plus_full. repeat case_decide; try done; lia.
Qed.

Lemma enc_row_ext n h h' :
  (∀ j, 0 ≤ j < n → h j = h' j) → enc_row n h = enc_row n h'.
Proof.
  intros H. unfold enc_row. apply list_fmap_ext. intros k x [-> Hk]%lookup_seqZ.
  unfold row_byte. case_decide; [|done]. apply H.
  pose proof (Z.div_mod (0 + Z.of_nat k) 2). lia.
Qed.

Lemma encode_ext m n g g' :
  (∀ i j, 0 ≤ i < m → 0 ≤ j < n → g i j = g' i j) → encode m n g = encode m n g'.
Proof.
  intros H. unfold encode. f_equal. apply list_fmap_ext.
  intros k x [-> Hk]%lookup_seqZ. apply enc_row_ext. intros. apply H; lia.
Qed.

Lemma encode_rows m n g :
  0 ≤ m → encode (m + 1) n g = encode m n g ++ enc_row n (g m).
Proof.
  intros. unfold encode. rewrite seqZ_app, fmap_app, concat_app by lia. f_equal.
  rewrite (seqZ_cons _ 1) by lia. simpl. by rewrite app_nil_r.
Qed.

Lemma length_encode m n g :
  0 ≤ m → 0 ≤ n → Z.of_nat (length (encode m n g)) = m * (2 * n).
Proof.
  intros Hm Hn. revert m Hm. apply (natlike_ind _); [done|].
  intros m Hm IH. rewrite <- Z.add_1_r, encode_rows, length_app, Nat2Z.inj_add, IH,
    length_enc_row by lia. lia.
Qed.

(** Reading row [i] of an encoded matrix. *)
Lemma encode_slice m n g i :
  0 ≤ i < m → 0 ≤ n →
  take (Z.to_nat (2 * n)) (drop (Z.to_nat (i * (2 * n))) (encode m n g)) = enc_row n (g i).
Proof.
  intros Hi Hn. remember (Z.to_nat (m - i - 1)) as k eqn:Hk.
  induction k as [|k IH] in m, Hi, Hk |- *.
  - replace m with (i + 1) by lia. rewrite encode_rows by lia.
    pose proof (length_encode i n g). pose proof (length_enc_row n (g i)).
    rewrite drop_app_length' by lia. apply take_ge. lia.
  - replace m with (m - 1 + 1) by lia. rewrite encode_rows by lia.
    pose proof (length_encode (m - 1) n g) as Hlen.
    assert (i * (2 * n) + 2 * n ≤ (m - 1) * (2 * n)) by nia.
    rewrite drop_app_le, take_app_le by (rewrite ?length_drop; nia).
    apply IH; lia.
Qed.

Lemma read_encoded m n g i buf :
  0 ≤ i < m → 0 ≤ n →
  sys_read (Some (encode m n g)) (i * (2 * n)) (2 * n) buf =
    (2 * n, (i + 1) * (2 * n), (Some <$> enc_row n (g i)) ++ drop (Z.to_nat (2 * n)) buf).
Proof.
  intros. unfold sys_read. rewrite encode_slice by lia.
  pose proof (length_enc_row n (g i)).
  repeat f_equal; lia.
Qed.

Lemma read_buffer_even n h rest j :
  0 ≤ j < n → rd ((Some <$> enc_row n h) ++ rest) (2 * j) = Ok (Some (h j)).
Proof.
  intros. apply rd_ok_iff. rewrite getZ_app_l.
  2: { rewrite length_fmap, length_enc_row; lia. }
  unfold getZ. rewrite decide_True by lia.
  rewrite list_lookup_fmap, enc_row_lookup, row_byte_even by lia. done.
Qed.

Lemma store_row_ok m w n h rest i mt :
  room m w mt → 0 ≤ i < m → 0 ≤ n ≤ w →
  ∃ mt', store_row ((Some <$> enc_row n h) ++ rest) (2 * n) i mt = Ok mt' ∧ room m w mt' ∧
    ∀ i' j', cell mt' i' j' =
      if decide (i' = i ∧ 0 ≤ j' < n) then Ok (h j') else cell mt i' j'.
Proof.
  intros. unfold store_row. replace ((2 * n + 1) / 2) with n.
  2: { apply (Z.div_unique _ 2 n 1); lia. }
  apply (fill_row m w mt i n h); [done..|].
  intros j a Hj _ _. by rewrite read_buffer_even.
Qed.

(** Both ways of reading a matrix file back give the cells that were encoded. *)
Lemma read_rows_ok m w n g buf mt :
  room m w mt → 0 ≤ m → 0 ≤ n ≤ w →
  ∃ off buf' mt', read_rows (Some (encode m n g)) m (2 * n) buf mt = Ok (off, buf', mt') ∧
    (length buf ≤ length buf')%nat ∧ room m w mt' ∧ grid m n mt' g.
Proof.
  intros Hroom Hm Hn. unfold read_rows.
  destruct (for_up_inv (λ i '(off, b, a), off = i * (2 * n) ∧ (length buf ≤ length b)%nat ∧
     room m w a ∧ grid i n a g) 0 m
     (λ i '(off, buf, mt), let '(_, off', buf') := sys_read (Some (encode m n g)) off (2 * n) buf in
        mt' ← store_row buf' (2 * n) i mt; Ok (off', buf', mt')) (0, buf, mt))
    as ([[off b] a] & -> & ? & ? & ? & ?); [lia| | |naive_solver].
  - split_and!; [lia|done|done|intros i j; lia].
  - intros i [[off b] a] Hi (-> & Hlen & Ha & Hg). rewrite read_encoded by lia.
    destruct (store_row_ok m w n (g i) (drop (Z.to_nat (2 * n)) b) i a)
      as (a' & -> & Ha' & Hc); [done|lia|done|].
    eexists. split; [done|]. split_and!; [done| |done|].
    + rewrite length_app, length_fmap, length_drop.
      pose proof (length_enc_row n (g i)). lia.
    + intros i' j' ??. rewrite Hc. case_decide as Hd; [destruct Hd; by subst|].
      apply Hg; [|done]. destruct (decide (i' = i)); naive_solver lia.
Qed.

Lemma reread_rows_ok m w n g mt :
  room m w mt → 0 ≤ m → 0 ≤ n ≤ w →
  ∃ off mt', reread_rows (Some (encode m n g)) m (2 * n) mt = Ok (off, mt') ∧
    room m w mt' ∧ grid m n mt' g.
Proof.
  intros Hroom Hm Hn. unfold reread_rows.
  destruct (for_up_inv (λ i '(off, a), off = i * (2 * n) ∧ room m w a ∧ grid i n a g) 0 m
     (λ i '(off, mt), let '(_, off', buf') := sys_read (Some (encode m n g)) off (2 * n)
          (replicate (Z.to_nat (2 * n)) None) in
        mt' ← store_row buf' (2 * n) i mt; Ok (off', mt')) (0, mt))
    as ([off a] & -> & ? & ? & ?); [lia| | |naive_solver].
  - split_and!; [lia|done|intros i j; lia].
  - intros i [off a] Hi (-> & Ha & Hg). rewrite read_encoded by lia.
    destruct (store_row_ok m w n (g i)
      (drop (Z.to_nat (2 * n)) (replicate (Z.to_nat (2 * n)) None)) i a)
      as (a' & -> & Ha' & Hc); [done|lia|done|].
    eexists. split; [done|]. split_and!; [done|done|].
    intros i' j' ??. rewrite Hc. case_decide as Hd; [destruct Hd; by subst|].
    apply Hg; [|done]. destruct (decide (i' = i)); naive_solver lia.
Qed.

(** * Loading the input *)

Lemma find_width_ok n h rest n0 :
  0 < n → 2 * n ≤ buf_len → (∀ j, 0 ≤ j < n → h j ≠ line_feed) →
  find_width ((Some <$> enc_row n h) ++ rest) n0 = Ok (2 * n).
Proof.
  intros Hn Hb Hh. unfold find_width.
  destruct (for_brk_inv (λ i _, i ≤ 2 * n - 1) (λ w, w = 2 * n) 0 buf_len
    (λ i w, v ← rd ((Some <$> enc_row n h) ++ rest) i; c ← opt Uninitialised v;
      Ok (if decide (c = line_feed) then inr (i + 1) else inl w)) n0) as (? & -> & ->);
    [unfold buf_len; lia|lia| |lia|done].
  intros i w Hi Hle.
  assert (rd ((Some <$> enc_row n h) ++ rest) i = Ok (Some (row_byte n h i))) as ->.
  { apply rd_ok_iff. rewrite getZ_app_l by (rewrite length_fmap, length_enc_row; lia).
    unfold getZ. rewrite decide_True, list_lookup_fmap, enc_row_lookup by lia. done. }
  simpl. destruct (decide (row_byte n h i = line_feed)) as [E|E].
  - right. eexists. split; [done|]. unfold row_byte in E. repeat case_decide; try done; try lia.
    exfalso. eapply Hh; [|done]. pose proof (Z.div_mod i 2). lia.
  - left. eexists. split; [done|]. destruct (decide (i = 2 * n - 1)) as [->|]; [|lia].
    exfalso. apply E. replace (2 * n - 1) with (2 * (n - 1) + 1) by lia.
    rewrite row_byte_odd, decide_True; done.
Qed.

Lemma count_rows_ok m n g k fuel buf :
  0 ≤ k ≤ m → 0 < n → (Z.to_nat (m - k) < fuel)%nat →
  ∃ buf', count_rows fuel (Some (encode m n g)) (k * (2 * n)) (2 * n) buf k = Ok (m, buf').
Proof.
  intros Hk Hn Hf. induction fuel as [|fuel IH] in k, Hk, Hf, buf |- *; [lia|].
  cbn [count_rows]. destruct (decide (k = m)) as [->|].
  - pose proof (length_encode m n g). unfold sys_read. rewrite drop_ge by lia. simpl.
    rewrite firstn_nil. simpl. eauto.
  - rewrite read_encoded by lia. rewrite decide_False by lia. apply IH; lia.
Qed.

Lemma encode_split m n g : 0 < m → ∃ rest, encode m n g = enc_row n (g 0) ++ rest.
Proof. intros. unfold encode. rewrite seqZ_cons by lia. simpl. eauto. Qed.

(** The input file and the variables that matter when a run starts. *)
Record ready (argv1 : string) (m n : Z) (g : Z → Z → ascii) (s : life) : Prop := {
  ready_m : 2 ≤ m;
  ready_n : 2 ≤ n;
  ready_width : 2 * n ≤ buf_len;
  ready_file : l_fs s !! argv1 = Some (encode m n g);
  ready_cells : ∀ j, 0 ≤ j < n → g 0 j ≠ line_feed;
  ready_rows : l_m s = 0 ∨ l_m s = m;
}.

Lemma load_matrix_ok argv1 m n g s :
  ready argv1 m n g s →
  ∃ mt buf, load_matrix argv1 s =
      Ok (mt, fresh_matrix m n, Life (l_fs s) buf m n (l_name s)) ∧
    room m n mt ∧ grid m n mt g.
Proof.
  intros [Hm Hn Hw Hfile Hcells Hrows]. unfold load_matrix. rewrite Hfile.
  destruct (encode_split m n g) as [rest Hsplit]; [lia|].
  unfold sys_read at 1.
  pose proof (length_enc_row n (g 0)) as Hrow.
  assert (∃ tl, (Some <$> take (Z.to_nat buf_len) (drop (Z.to_nat 0) (encode m n g))) ++
    drop (length (take (Z.to_nat buf_len) (drop (Z.to_nat 0) (encode m n g)))) (l_buf s)
    = (Some <$> enc_row n (g 0)) ++ tl) as [tl ->].
  { change (Z.to_nat 0) with 0%nat. rewrite drop_0, Hsplit.
    rewrite take_app_ge by (unfold buf_len in *; lia).
    rewrite fmap_app, <- app_assoc. eauto. }
  rewrite find_width_ok by (done || lia). cbn [mbind res_bind].
  assert (∃ buf', (if decide (l_m s = 0)
     then count_rows (fuel_of (Some (encode m n g))) (Some (encode m n g)) 0 (2 * n)
            ((Some <$> enc_row n (g 0)) ++ tl) 0
     else Ok (l_m s, (Some <$> enc_row n (g 0)) ++ tl)) = Ok (m, buf')) as [buf' ->].
  { destruct Hrows as [Hz| ->]; [|rewrite decide_False by lia; eauto].
    rewrite decide_True by done.
    apply (count_rows_ok m n g 0); [lia|lia|]. pose proof (length_encode m n g).
    unfold fuel_of. nia. }
  cbn [mbind res_bind].
  assert (2 * n / 2 = n) as -> by (symmetry; apply (Z.div_unique _ 2 n 0); lia).
  destruct (read_rows_ok m n n g buf' (fresh_matrix m n))
    as (off & buf2 & mt & -> & _ & ? & ?); [apply room_fresh; lia|lia|lia|].
  simpl. eauto.
Qed.

(** * The sequential mode *)

Lemma seqZ_snoc k : 0 ≤ k → seqZ 0 (k + 1) = seqZ 0 k ++ [k].
Proof. intros. rewrite seqZ_app by lia. by f_equal. Qed.

Lemma fill_output_row_ok m n mt next (h : Z → ascii) i :
  room m (2 * n) next → 0 ≤ i < m → 0 ≤ n → (∀ j, 0 ≤ j < n → cell mt i j = Ok (h j)) →
  ∃ next', fill_output_row mt n i next = Ok next' ∧ room m (2 * n) next' ∧
    ∀ i' j', cell next' i' j' =
      if decide (i' = i ∧ 0 ≤ j' < 2 * n) then Ok (row_byte n h j') else cell next i' j'.
Proof.
  intros Hroom Hi Hn Hmt. unfold fill_output_row.
  destruct (for_up_inv (λ k a, room m (2 * n) a ∧ ∀ i' j', cell a i' j' =
      if decide (i' = i ∧ 0 ≤ j' < 2 * k) then Ok (row_byte n h j') else cell next i' j') 0 n
    (λ k next, r ← rd mt i; v ← rd r k; next ← set_cell next i (2 * k) v;
      set_cell next i (2 * k + 1)
        (Some (if decide (2 * k = 2 * n - 2) then line_feed else " "%char))) next)
    as (a & -> & ?); [lia| | |eauto].
  - split; [done|]. intros. rewrite decide_False by lia. done.
  - intros k a Hk [Ha Hc]. destruct (cell_ok_inv mt i k (h k)) as (r & -> & Hr); [auto|].
    simpl. rewrite Hr. simpl.
    destruct (set_cell_ok m (2 * n) a i (2 * k) (Some (h k))) as (a1 & -> & Ha1 & Hc1);
      [done|lia|lia|]. simpl.
    destruct (set_cell_ok m (2 * n) a1 i (2 * k + 1)
      (Some (if decide (2 * k = 2 * n - 2) then line_feed else " "%char)))
      as (a2 & -> & Ha2 & Hc2); [done|lia|lia|].
    eexists. split; [done|]. split; [done|]. intros i' j'. rewrite Hc2, Hc1, Hc. clear Hc2 Hc1 Hc.
    destruct (decide (i' = i)) as [->|];
      [|by rewrite !decide_False by naive_solver].
    destruct (decide (j' = 2 * k + 1)) as [->|].
    { rewrite row_byte_odd. repeat case_decide; simpl; done || lia. }
    destruct (decide (j' = 2 * k)) as [->|].
    { rewrite row_byte_even. repeat case_decide; simpl; done || lia. }
    repeat case_decide; done || lia.
Qed.

Lemma write_row_ok m n next (g : Z → Z → ascii) i out :
  grid m (2 * n) next (λ i, row_byte n (g i)) → 0 ≤ i < m → 0 ≤ n →
  write_row next (2 * n) i out = Ok (out ++ enc_row n (g i)).
Proof.
  intros Hg Hi Hn. unfold write_row.
  destruct (for_up_inv (λ j o, o = out ++ (row_byte n (g i) <$> seqZ 0 j)) 0 (2 * n)
    (λ j out, c ← cell next i j; Ok (out ++ [c])) out) as (? & -> & ->); [lia| | |done].
  - simpl. by rewrite app_nil_r.
  - intros j o ? ->. rewrite Hg by lia. simpl. eexists. split; [done|].
    rewrite seqZ_snoc, fmap_app, app_assoc by lia. done.
Qed.

Lemma write_rows_ok m n next (g : Z → Z → ascii) :
  grid m (2 * n) next (λ i, row_byte n (g i)) → 0 ≤ m → 0 ≤ n →
  for_up 0 m (λ i out, write_row next (2 * n) i out) [] = Ok (encode m n g).
Proof.
  intros Hg Hm Hn.
  destruct (for_up_inv (λ i o, o = encode i n g) 0 m
    (λ i out, write_row next (2 * n) i out) []) as (? & -> & ->); [lia|done| |done].
  intros i o ? ->. rewrite (write_row_ok m n next g) by (done || lia).
  eexists. split; [done|]. by rewrite encode_rows by lia.
Qed.

(** ** The names of the generation files *)

Lemma gen_name_ok c : 0 ≤ c < 10 ^ 8 → ∃ name, gen_name c = Ok name.
Proof.
  intros Hc. unfold gen_name. rewrite decide_True; [eauto|].
  assert (String.length (pretty c) ≤ 8)%nat by (apply pretty_length; [done|lia]).
  rewrite !string_length_app. simpl. lia.
Qed.

(** What one generation leaves for the next: the file just written. *)
Definition seq_inv (m n : Z) (g : Z → Z → ascii) (c : Z) (st : files * mrow * matrix * matrix)
    : Prop :=
  let '(fs, buf, mt, next) := st in
  room m n mt ∧ room m n next ∧
  if decide (c = 0) then grid m n mt g
  else ∃ name, gen_name c = Ok name ∧
         fs !! name = Some (encode m n (gens_of m n (Z.to_nat c) g)).

Lemma seq_generation_ok m n g c st :
  2 ≤ m → 2 ≤ n → 0 ≤ c < 10^8 - 1 → seq_inv m n g c st →
  ∃ st', seq_generation m n c st = Ok st' ∧ seq_inv m n g (c + 1) st'.
Proof.
  intros Hm Hn Hc. destruct st as [[[fs buf] mt] next]. intros (Hmt & Hnext & Hcur).
  unfold seq_generation.
  assert (∃ buf' mt', (if decide (c = 0) then Ok (buf, mt) else
     old ← gen_name c; '(_, buf, mt) ← read_rows (fs !! old) m (n * 2) buf mt; Ok (buf, mt))
     = Ok (buf', mt') ∧ grid m n mt' (gens_of m n (Z.to_nat c) g)) as (buf' & mt' & -> & Hg).
  { destruct (decide (c = 0)) as [->|].
    - eauto.
    - destruct Hcur as (name & -> & Hfile). cbn [mbind res_bind]. rewrite Hfile.
      replace (n * 2) with (2 * n) by lia.
      destruct (read_rows_ok m n n (gens_of m n (Z.to_nat c) g) buf mt)
        as (off & buf' & mt' & -> & _ & _ & ?); [done|lia|lia|]. simpl. eauto. }
  cbn [mbind res_bind].
  destruct (gen_name_ok (c + 1)) as [name Hname]; [lia|]. rewrite Hname. cbn [mbind res_bind].
  destruct (next_rows_ok m n n mt' next (gens_of m n (Z.to_nat c) g) m)
    as (next1 & -> & Hroom1 & Hg1); [lia..|done|done|lia|]. cbn [mbind res_bind].
  destruct (fill_rows m (2 * n) (fresh_matrix m (2 * n)) m (2 * n)
    (λ i, row_byte n (next_gen m n (gens_of m n (Z.to_nat c) g) i))
    (λ i next, fill_output_row next1 n i next)) as (next2 & -> & Hroom2 & Hg2);
    [apply room_fresh; lia|lia|lia| |].
  { intros i a Hi Ha. apply (fill_output_row_ok m n); [done|done|lia|]. intros. by apply Hg1. }
  cbn [mbind res_bind]. rewrite (write_rows_ok m n next2 _ Hg2) by lia. cbn [mbind res_bind].
  eexists. split; [done|]. split_and!; [done|eapply room_le; [done|lia]|].
  rewrite decide_False by lia. exists name. split; [done|].
  rewrite lookup_insert_eq. replace (Z.to_nat (c + 1)) with (S (Z.to_nat c)) by lia. done.
Qed.

(** ** Runs of generations *)

Section generation_runs.
Context {S : Type} (P : Z → S → Prop) (body : Z → S → res S).

Lemma generations_ok gens s :
  0 ≤ gens → P 0 s →
  (∀ c s, 0 ≤ c < gens → P c s → ∃ s', body c s = Ok s' ∧ P (c + 1) s') →
  ∃ s', generations gens body s = Ok s' ∧ P gens s'.
Proof.
  intros Hg HP Hstep. unfold generations. rewrite decide_False by lia. by apply for_up_inv.
Qed.
End generation_runs.

Lemma last_name_ok gens old : 0 < gens → last_name gens old = gen_name gens.
Proof. intros. unfold last_name. by rewrite decide_False by lia. Qed.

Lemma rename_new fs old new c : fs !! old = Some c → rename fs old new !! new = Some c.
Proof. intros H. unfold rename. rewrite H. apply lookup_insert_eq. Qed.

Lemma sequential_ok argv1 m n g gens s :
  ready argv1 m n g s → 0 < gens < 10^8 →
  ∃ s', sequential argv1 gens s = Ok s' ∧
    l_fs s' !! "output.matrix" = Some (encode m n (gens_of m n (Z.to_nat gens) g)) ∧
    l_m s' = m ∧ l_n s' = n.
Proof.
  intros Hr Hgens. pose proof (ready_m _ _ _ _ _ Hr). pose proof (ready_n _ _ _ _ _ Hr).
  unfold sequential.
  destruct (load_matrix_ok argv1 m n g s Hr) as (mt & buf & -> & Hroom & Hg).
  cbn [mbind res_bind l_m l_n l_fs l_buf l_name].
  destruct (generations_ok (seq_inv m n g) (seq_generation m n) gens
    (l_fs s, buf, mt, fresh_matrix m n)) as ([[[fs buf'] mt'] next'] & -> & Hinv); [lia| | |].
  - split_and!; [done|apply room_fresh; lia|]. by rewrite decide_True.
  - intros c st Hc. apply seq_generation_ok; lia.
  - cbn [mbind res_bind]. rewrite last_name_ok by lia.
    destruct Hinv as (_ & _ & Hcur). rewrite decide_False in Hcur by lia.
    destruct Hcur as (name & -> & Hfile). cbn [mbind res_bind].
    eexists. split; [done|]. split_and!; [|done..]. by apply rename_new.
Qed.

(** * The process mode *)

Lemma pwrite_append c off d : off = Z.of_nat (length c) → pwrite c off d = c ++ d.
Proof.
  intros ->. unfold pwrite. rewrite Nat2Z.id, Nat.sub_diag. simpl.
  rewrite app_nil_r, take_ge, drop_ge by lia. by rewrite app_nil_r.
Qed.

Lemma output_row_ok n next h index :
  0 ≤ n → (∀ j, 0 ≤ j < n → cell next index j = Ok (h j)) →
  output_row next n index = Ok (enc_row n h).
Proof.
  intros Hn Hh. unfold output_row.
  destruct (for_up_inv (λ k o, o = row_byte n h <$> seqZ 0 (2 * k)) 0 n
    (λ k out, c ← cell next index k;
       Ok (out ++ [c; if decide (k = n - 1) then line_feed else " "%char])) [])
    as (? & -> & ->); [lia|done| |done].
  intros k o ? ->. rewrite Hh by lia. simpl. eexists. split; [done|].
  replace (2 * (k + 1)) with (2 * k + 1 + 1) by lia.
  rewrite !seqZ_snoc, !fmap_app, <- app_assoc by lia. simpl.
  by rewrite row_byte_even, row_byte_odd.
Qed.

Lemma block_size_ok m p :
  0 ≤ m → 0 < p →
  ∃ h, block_size m p = Ok h ∧ (p * h < m + p ∧ m ≤ p * h) ∧ 0 ≤ h.
Proof.
  intros Hm Hp. unfold block_size. rewrite decide_False by lia.
  pose proof (Z.quot_rem' m p). pose proof (Z.rem_bound_pos m p).
  eexists. split; [done|]. case_decide; nia.
Qed.

Lemma child_ok m n mt next g handle i :
  2 ≤ m → 2 ≤ n → 0 ≤ i → 0 ≤ handle → i * handle ≤ m →
  grid m n mt g → room m n next →
  child mt next m n handle i (encode (i * handle) n (next_gen m n g)) =
    Ok (encode (Z.min ((i + 1) * handle) m) n (next_gen m n g)).
Proof.
  intros Hm Hn Hi Hh Him Hg Hroom. unfold child.
  set (g' := next_gen m n g).
  run_brk
    (λ j '(out, a), i * handle + j ≤ m ∧ out = encode (i * handle + j) n g' ∧ room m n a)
    (λ '((out, _) : file * matrix), out = encode (Z.min ((i + 1) * handle) m) n g');
    [lia| | | |by case_match; subst].
  - split_and!; [lia|by rewrite Z.add_0_r|done].
  - intros j [out a] Hj (Hle & -> & Ha). cbn zeta.
    destruct (decide (i * handle + j = m)) as [E|E].
    { right. eexists. split; [done|]. cbn. f_equal. nia. }
    left. destruct (next_row_ok m n n mt a g (i * handle + j)) as (a' & -> & Ha' & Hc);
      [lia..|done|done|nia|]. cbn [mbind res_bind].
    rewrite (output_row_ok n a' (g' (i * handle + j))); [|lia|].
    2: { intros j' ?. rewrite Hc, decide_True by lia. done. }
    cbn [mbind res_bind]. eexists. split; [done|]. split_and!; [lia| |done].
    rewrite pwrite_append. 2: { rewrite length_encode by nia. lia. }
    rewrite Z.add_assoc, encode_rows by nia. done.
  - intros [out a] (Hle & -> & _). f_equal. lia.
Qed.

Lemma children_ok m n mt next g handle p :
  2 ≤ m → 2 ≤ n → 0 ≤ p → 0 ≤ handle → (p - 1) * handle ≤ m →
  grid m n mt g → room m n next →
  for_up 0 p (λ i out, child mt next m n handle i out) [] =
    Ok (encode (Z.min (p * handle) m) n (next_gen m n g)).
Proof.
  intros Hm Hn Hp Hh Hle Hg Hroom.
  destruct (for_up_inv (λ i o, o = encode (Z.min (i * handle) m) n (next_gen m n g)) 0 p
    (λ i out, child mt next m n handle i out) []) as (? & -> & ->); [lia| | |done].
  - rewrite Z.mul_0_l, Z.min_l by lia. done.
  - intros i o Hi ->. assert (i * handle ≤ m) by nia. rewrite Z.min_l by lia.
    rewrite child_ok by (done || lia). eauto.
Qed.

Definition proc_inv (m n : Z) (g : Z → Z → ascii) (c : Z) (st : files * matrix) : Prop :=
  let '(fs, mt) := st in
  room m n mt ∧
  if decide (c = 0) then grid m n mt g
  else ∃ name, gen_name c = Ok name ∧
         fs !! name = Some (encode m n (gens_of m n (Z.to_nat c) g)).

(** The matrix of the generation before, from the file or from the input. *)
Lemma reload_ok m n g c fs mt :
  2 ≤ m → 2 ≤ n → proc_inv m n g c (fs, mt) →
  ∃ mt', (if decide (c = 0) then Ok mt else
     old ← gen_name c; '(_, mt) ← reread_rows (fs !! old) m (n * 2) mt; Ok mt) = Ok mt' ∧
     room m n mt' ∧ grid m n mt' (gens_of m n (Z.to_nat c) g).
Proof.
  intros Hm Hn [Hmt Hcur]. destruct (decide (c = 0)) as [->|]; [eauto|].
  destruct Hcur as (name & -> & Hfile). cbn [mbind res_bind]. rewrite Hfile.
  replace (n * 2) with (2 * n) by lia.
  destruct (reread_rows_ok m n n (gens_of m n (Z.to_nat c) g) mt)
    as (off & mt' & -> & ? & ?); [done|lia|lia|]. simpl. eauto.
Qed.

Lemma proc_generation_ok m n g p handle c next st :
  2 ≤ m → 2 ≤ n → 0 < p → 0 ≤ handle → m ≤ p * handle → (p - 1) * handle ≤ m →
  0 ≤ c < 10^8 - 1 → room m n next → proc_inv m n g c st →
  ∃ st', proc_generation m n p handle c next st = Ok st' ∧ proc_inv m n g (c + 1) st'.
Proof.
  intros Hm Hn Hp Hh Hcover Hfit Hc Hnext. destruct st as [fs mt]. intros Hinv.
  unfold proc_generation.
  destruct (reload_ok m n g c fs mt) as (mt' & -> & Hmt' & Hg); [done..|].
  cbn [mbind res_bind]. destruct (gen_name_ok (c + 1)) as [name Hname]; [lia|].
  rewrite Hname. cbn [mbind res_bind].
  rewrite (children_ok m n mt' next _ handle p Hm Hn) by (done || lia).
  cbn [mbind res_bind]. eexists. split; [done|]. split; [done|].
  rewrite decide_False by lia. exists name. split; [done|].
  rewrite lookup_insert_eq, Z.min_r by lia.
  replace (Z.to_nat (c + 1)) with (S (Z.to_nat c)) by lia. done.
Qed.

Lemma process_ok argv1 m n g gens p handle s :
  ready argv1 m n g s → 0 < gens < 10^8 → 0 < p →
  block_size m p = Ok handle → (p - 1) * handle ≤ m →
  ∃ s', process argv1 gens p s = Ok s' ∧
    l_fs s' !! "output.matrix" = Some (encode m n (gens_of m n (Z.to_nat gens) g)).
Proof.
  intros Hr Hgens Hp Hblock Hfit.
  pose proof (ready_m _ _ _ _ _ Hr). pose proof (ready_n _ _ _ _ _ Hr).
  destruct (block_size_ok m p) as (h & Hh & Hcover & Hpos); [lia..|].
  rewrite Hblock in Hh. injection Hh as <-.
  unfold process, load_matrix_process.
  destruct (load_matrix_ok argv1 m n g s Hr) as (mt & buf & -> & Hroom & Hg).
  cbn [mbind res_bind l_m l_n l_fs l_buf l_name]. rewrite Hblock. cbn [mbind res_bind].
  destruct (generations_ok (proc_inv m n g)
    (λ c, proc_generation m n p handle c (fresh_matrix m n)) gens (l_fs s, mt))
    as ([fs mt'] & -> & Hinv); [lia| | |].
  - split; [done|]. by rewrite decide_True.
  - intros c st Hc. apply proc_generation_ok; try lia. apply room_fresh; lia.
  - cbn [mbind res_bind]. rewrite last_name_ok by lia.
    destruct Hinv as [_ Hcur]. rewrite decide_False in Hcur by lia.
    destruct Hcur as (name & -> & Hfile). cbn [mbind res_bind].
    eexists. split; [done|]. by apply rename_new.
Qed.

(** With [i * handle > m] the child never meets the row number [m] and reads
    rows the matrix does not have. *)
Lemma child_overrun m n mt next g handle i out :
  2 ≤ m → 2 ≤ n → 0 < handle → m < i * handle → room m n mt → grid m n mt g →
  child mt next m n handle i out = Undef OutOfBounds.
Proof.
  intros Hm Hn Hh Hi [Hlen _] _. unfold child, for_brk.
  destruct (Z.to_nat (handle - 0)) as [|c] eqn:Hc; [lia|]. cbn [loop_brk].
  rewrite decide_False by lia. unfold get_next_generation_matrix, for_up.
  destruct (Z.to_nat (n - 1 + 1 - 0)) as [|d] eqn:Hd; [lia|]. cbn [loop_from].
  unfold living_cell_count. rewrite !decide_False, decide_True by lia.
  cbn [count_cells]. unfold cell.
  assert (rd mt (i * handle + 0 - 1) = Undef OutOfBounds) as ->; [|done].
  unfold rd. rewrite decide_True, lookup_ge_None_2 by lia. done.
Qed.

Lemma process_overrun argv1 m n g gens p handle s :
  ready argv1 m n g s → 0 < gens < 10^8 → 0 < p →
  block_size m p = Ok handle → m < (p - 1) * handle →
  process argv1 gens p s = Undef OutOfBounds.
Proof.
  intros Hr Hgens Hp Hblock Hover.
  pose proof (ready_m _ _ _ _ _ Hr). pose proof (ready_n _ _ _ _ _ Hr).
  destruct (block_size_ok m p) as (h & Hh & Hcover & Hpos); [lia..|].
  rewrite Hblock in Hh. injection Hh as <-.
  unfold process, load_matrix_process.
  destruct (load_matrix_ok argv1 m n g s Hr) as (mt & buf & -> & Hroom & Hg).
  cbn [mbind res_bind l_m l_n l_fs l_buf l_name]. rewrite Hblock. cbn [mbind res_bind].
  unfold generations. rewrite decide_False by lia.
  rewrite (for_up_undef (λ c st, st = (l_fs s, mt)) 0 gens 0 _ _ OutOfBounds); try done; try lia.
  intros ? ->. unfold proc_generation. rewrite decide_True by done. cbn [mbind res_bind].
  destruct (gen_name_ok (0 + 1)) as [name Hname]; [lia|]. rewrite Hname. cbn [mbind res_bind].
  assert (0 < handle) by nia. pose proof (Z.div_mod m handle). pose proof (Z.mod_pos_bound m handle).
  rewrite (for_up_undef (λ i o, o = encode (Z.min (i * handle) m) n (next_gen m n g)) 0 p
    (m / handle + 1) _ _ OutOfBounds); [done|nia| | |].
  - rewrite Z.mul_0_l, Z.min_l by lia. done.
  - intros i o Hi ->. assert (i * handle ≤ m) by nia. rewrite Z.min_l by lia.
    rewrite child_ok by (done || lia || apply room_fresh; lia). eauto.
  - intros o _. eapply child_overrun; [lia..|nia|done|done].
Qed.

(** * The thread mode *)

Section pwrite_lookup.
Implicit Types (c d : file).

Lemma length_pwrite c off d :
  0 ≤ off → Z.of_nat (length (pwrite c off d)) =
    Z.max (Z.of_nat (length c)) (off + Z.of_nat (length d)).
Proof.
  intros. unfold pwrite.
  rewrite !length_app, length_take, length_drop, length_app, length_replicate. lia.
Qed.

Lemma pwrite_in c off d x :
  0 ≤ off → off ≤ x < off + Z.of_nat (length d) → getZ (pwrite c off d) x = getZ d (x - off).
Proof.
  intros ? Hx. unfold getZ, pwrite. rewrite !decide_True by lia.
  set (pre := take _ _). assert (length pre = Z.to_nat off) as Hpre.
  { subst pre. rewrite length_take, length_app, length_replicate. lia. }
  rewrite lookup_app_r by lia. rewrite lookup_app_l by lia. f_equal. lia.
Qed.

Lemma pwrite_out c off d x b :
  0 ≤ off → x < off ∨ off + Z.of_nat (length d) ≤ x →
  getZ c x = Some b → getZ (pwrite c off d) x = Some b.
Proof.
  intros ? Hx Hb. pose proof (getZ_lt _ _ _ Hb). unfold getZ, pwrite in *.
  rewrite decide_True in Hb |- * by lia. set (pre := take _ _).
  assert (length pre = Z.to_nat off) as Hpre.
  { subst pre. rewrite length_take, length_app, length_replicate. lia. }
  destruct Hx as [Hx|Hx].
  - rewrite lookup_app_l by lia. subst pre. rewrite lookup_take_lt by lia.
    by rewrite lookup_app_l by lia.
  - rewrite !lookup_app_r by lia. rewrite lookup_drop, <- Hb. f_equal. lia.
Qed.
End pwrite_lookup.

Section interleaving.
Context (m n handle : Z) (mt : matrix) (g : Z → Z → ascii).
Context (Hm : 2 ≤ m) (Hn : 2 ≤ n) (Hh : 0 ≤ handle) (Hg : grid m n mt g).

Definition row_done (f : file) (r : Z) : Prop :=
  ∀ k, 0 ≤ k < 2 * n → getZ f (r * (2 * n) + k) = Some (row_byte n (next_gen m n g r) k).

(** The first [cnt] rows of thread [idx] are in the file. *)
Definition rows_done (f : file) (idx cnt : Z) : Prop :=
  ∀ j, 0 ≤ j < cnt → idx * handle + j < m → row_done f (idx * handle + j).

Definition thread_inv (idx : Z) (t : thread) (sh : shared) : Prop :=
  match t_pc t with
  | TOpen => True
  | TLoop i => 0 ≤ i ≤ handle ∧ rows_done (sh_file sh) idx i
  | TCompute i =>
      0 ≤ i < handle ∧ idx * handle + i < m ∧ t_off t = (idx * handle + i) * 2 * n ∧
      rows_done (sh_file sh) idx i
  | TWrite i =>
      (0 ≤ i < handle ∧ idx * handle + i < m ∧ t_off t = (idx * handle + i) * 2 * n ∧
       rows_done (sh_file sh) idx i) ∧
      ∀ j, 0 ≤ j < n → cell (sh_next sh) (idx * handle + i) j =
                         Ok (next_gen m n g (idx * handle + i) j)
  | TClose | TExit => rows_done (sh_file sh) idx handle
  end.

Definition threads_inv (c : list thread * shared) : Prop :=
  room m n (sh_next c.2) ∧ Z.of_nat (length (sh_file c.2)) ≤ m * (2 * n) ∧
  ∀ k t, c.1 !! k = Some t → thread_inv (Z.of_nat k) t c.2.

(** Steps a thread has left at most. *)
Definition remaining (t : thread) : Z :=
  match t_pc t with
  | TOpen => 3 * handle + 3
  | TLoop i => 3 * (handle - i) + 2
  | TCompute i => 3 * (handle - i) + 1
  | TWrite i => 3 * (handle - i)
  | TClose => 1
  | TExit => 0
  end.

Lemma row_done_pwrite f r r' d :
  0 ≤ r' → r ≠ r' → Z.of_nat (length d) = 2 * n →
  row_done f r → row_done (pwrite f (r' * 2 * n) d) r.
Proof.
  intros ? ? Hd Hr k Hk. apply pwrite_out; [nia| |by apply Hr].
  destruct (decide (r < r')); [left|right]; nia.
Qed.

Lemma row_done_self f r :
  0 ≤ r → row_done (pwrite f (r * 2 * n) (enc_row n (next_gen m n g r))) r.
Proof.
  intros ? k Hk. rewrite pwrite_in; [|nia|rewrite length_enc_row by lia; lia].
  replace (r * (2 * n) + k - r * 2 * n) with k by lia.
  unfold getZ. rewrite decide_True by lia. by apply enc_row_lookup.
Qed.

(** What thread [idx] guarantees to the others: it changes row
    [idx * handle + i] of the shared matrix and of the file only. *)
Definition guarantee (idx : Z) (sh sh' : shared) : Prop :=
  (∀ idx' i j, idx' ≠ idx → 0 ≤ i < handle →
     cell (sh_next sh') (idx' * handle + i) j = cell (sh_next sh) (idx' * handle + i) j) ∧
  (∀ idx' i, idx' ≠ idx → 0 ≤ i < handle →
     row_done (sh_file sh) (idx' * handle + i) → row_done (sh_file sh') (idx' * handle + i)).

Lemma thread_inv_stable idx idx' t sh sh' :
  idx' ≠ idx → guarantee idx sh sh' → thread_inv idx' t sh → thread_inv idx' t sh'.
Proof.
  intros Hne [Hcell Hrow].
  assert (∀ cnt, cnt ≤ handle → rows_done (sh_file sh) idx' cnt → rows_done (sh_file sh') idx' cnt)
    as Hrows.
  { intros cnt ? H j ??. apply (Hrow idx' j); [done|lia|]. by apply H. }
  unfold thread_inv. destruct (t_pc t); try naive_solver lia.
  - intros [(?&?&?&?) Hc]. split; [naive_solver lia|]. intros j ?. rewrite Hcell by lia. by apply Hc.
Qed.

Lemma thread_step_ok idx t sh :
  0 ≤ idx → room m n (sh_next sh) → Z.of_nat (length (sh_file sh)) ≤ m * (2 * n) →
  thread_inv idx t sh →
  ∃ t' sh', thread_func mt m n handle idx t sh = Ok (t', sh') ∧
    room m n (sh_next sh') ∧ Z.of_nat (length (sh_file sh')) ≤ m * (2 * n) ∧
    thread_inv idx t' sh' ∧ guarantee idx sh sh' ∧
    (remaining t' ≤ Z.max 0 (remaining t - 1) ∧ 0 ≤ remaining t').
Proof.
  intros Hidx Hroom Hlen Hinv. unfold thread_func, thread_inv, remaining, guarantee in *.
  destruct t as [[|i|i|i| |] off]; cbn [t_pc t_off] in *.
  - eexists _, _. split; [done|]. cbn. split_and!; try done; try lia. intros j; lia.
  - destruct Hinv as [Hi Hrows].
    destruct (decide (i < handle ∧ idx * handle + i < m)) as [[??]|Hd].
    + eexists _, _. split; [done|]. cbn. split_and!; try done; lia.
    + eexists _, _. split; [done|]. cbn. split_and!; try done; try lia.
      intros j ??. apply Hrows; lia.
  - destruct Hinv as (Hi & Hlt & -> & Hrows).
    destruct (next_row_ok m n n mt (sh_next sh) g (idx * handle + i)) as (nx & -> & Hroom' & Hc);
      [lia..|done|done|nia|]. cbn [mbind res_bind].
    eexists _, _. split; [done|]. cbn. split_and!; try done; try lia.
    + intros j ?. rewrite Hc, decide_True by lia. done.
    + intros idx' i' j Hne ?. rewrite Hc, decide_False; [done|]. intros [E _]. nia.
  - destruct Hinv as [(Hi & Hlt & -> & Hrows) Hcells].
    rewrite (output_row_ok n _ (next_gen m n g (idx * handle + i))) by (done || lia).
    cbn [mbind res_bind]. eexists _, _. split; [done|]. cbn.
    pose proof (length_enc_row n (next_gen m n g (idx * handle + i))).
    split_and!; try done; try lia.
    + rewrite length_pwrite by nia. nia.
    + intros j ??. destruct (decide (j = i)) as [->|]; [apply row_done_self; nia|].
      apply row_done_pwrite; [nia|nia|lia|]. apply Hrows; lia.
    + intros idx' i' Hne ? Hd. apply row_done_pwrite; [nia|nia|lia|done].
  - eexists _, _. split; [done|]. cbn. split_and!; try done; lia.
  - eexists _, _. split; [done|]. cbn. split_and!; try done; lia.
Qed.

(** Every step of every schedule is defined and keeps the invariant. *)
Lemma sched_step_ok k c :
  threads_inv c →
  ∃ c', sched_step mt m n handle k c = Ok c' ∧ threads_inv c' ∧ length c'.1 = length c.1 ∧
    ∀ k' t', c'.1 !! k' = Some t' → ∃ t, c.1 !! k' = Some t ∧
      remaining t' ≤ Z.max 0 (remaining t - (if decide (k' = k) then 1 else 0)).
Proof.
  destruct c as [ts sh]. intros (Hroom & Hlen & Hts). unfold sched_step. cbn [fst snd] in *.
  destruct (ts !! k) as [t|] eqn:Hk.
  2: { eexists. split; [done|]. split; [done|]. split; [done|]. intros k' t' Ht'. exists t'.
       split; [done|]. rewrite decide_False by (intros ->; cbn in *; congruence). lia. }
  destruct (thread_step_ok (Z.of_nat k) t sh) as (t' & sh' & -> & ? & ? & ? & ? & ?);
    [lia|done|done|by apply Hts|]. cbn [mbind res_bind].
  eexists. split; [done|]. unfold threads_inv. cbn [fst snd].
  split_and!; [done|done| |by rewrite length_insert|].
  - intros k' t2. rewrite list_lookup_insert. case_decide as Hd.
    + destruct Hd as [<- _]. by intros [= <-].
    + intros Ht2. destruct (decide (k' = k)) as [->|].
      { apply lookup_lt_Some in Hk. naive_solver lia. }
      eapply thread_inv_stable; [|done|by apply Hts]. lia.
  - intros k' t2. rewrite list_lookup_insert. case_decide as Hd.
    + destruct Hd as [<- _]. intros [= <-]. exists t. rewrite decide_True by done. naive_solver lia.
    + intros Ht2. exists t2. split; [done|]. rewrite decide_False; [lia|].
      intros ->. apply lookup_lt_Some in Hk. naive_solver lia.
Qed.

Lemma run_schedule_ok sched c :
  threads_inv c →
  ∃ c', run_schedule mt m n handle sched c = Ok c' ∧ threads_inv c' ∧ length c'.1 = length c.1 ∧
    ∀ k' t', c'.1 !! k' = Some t' → ∃ t, c.1 !! k' = Some t ∧
      remaining t' ≤ Z.max 0 (remaining t - Z.of_nat (count_occ Nat.eq_dec sched k')).
Proof.
  induction sched as [|k sched IH] in c |- *; intros Hc; simpl.
  - eexists. split; [done|]. split_and!; [done|done|]. intros k' t' ?. exists t'.
    split; [done|]. lia.
  - destruct (sched_step_ok k c Hc) as (c1 & -> & Hc1 & Hlen1 & Hr1). simpl.
    destruct (IH c1 Hc1) as (c2 & -> & Hc2 & Hlen2 & Hr2).
    eexists. split; [done|]. split_and!; [done|lia|]. intros k' t' Ht'.
    destruct (Hr2 _ _ Ht') as (t1 & Ht1 & ?). destruct (Hr1 _ _ Ht1) as (t & Ht & Hle).
    exists t. split; [done|]. destruct (Nat.eq_dec k k') as [->|].
    + rewrite decide_True in Hle by done. lia.
    + rewrite decide_False in Hle by done. lia.
Qed.

(** When all threads have exited the file is the encoded next generation. *)
Lemma exited_file ts sh :
  threads_inv (ts, sh) → all_exited ts → m ≤ Z.of_nat (length ts) * handle →
  sh_file sh = encode m n (next_gen m n g).
Proof.
  intros (_ & Hlen & Hts) Hex Hcover. cbn [fst snd] in *.
  assert (∀ r, 0 ≤ r < m → row_done (sh_file sh) r) as Hrows.
  { intros r Hr. assert (0 < handle) by nia.
    pose proof (Z.div_mod r handle). pose proof (Z.mod_pos_bound r handle).
    assert (0 ≤ r / handle) by (apply Z.div_pos; lia).
    destruct (lookup_lt_is_Some_2 ts (Z.to_nat (r / handle))) as [t Ht]; [nia|].
    pose proof (Hts _ _ Ht) as Hinv. unfold thread_inv in Hinv.
    rewrite (Forall_lookup_1 _ _ _ _ Hex Ht) in Hinv.
    replace r with (Z.of_nat (Z.to_nat (r / handle)) * handle + r mod handle) by lia.
    apply Hinv; lia. }
  pose proof (length_encode m n (next_gen m n g)) as Henc.
  assert (∀ x, 0 ≤ x < m * (2 * n) →
    getZ (sh_file sh) x = getZ (encode m n (next_gen m n g)) x) as Heq.
  { intros x Hx. pose proof (Z.div_mod x (2 * n)). pose proof (Z.mod_pos_bound x (2 * n)).
    assert (0 ≤ x / (2 * n)) by (apply Z.div_pos; lia).
    pose proof (encode_slice m n (next_gen m n g) (x / (2 * n))) as Hsl.
    replace x with (x / (2 * n) * (2 * n) + x mod (2 * n)) by lia.
    rewrite Hrows by nia. unfold getZ. rewrite decide_True by nia.
    rewrite <- enc_row_lookup, <- Hsl by nia.
    rewrite lookup_take_lt, lookup_drop by lia. f_equal. nia. }
  assert (Z.of_nat (length (sh_file sh)) = m * (2 * n)) as Hl.
  { specialize (Heq (m * (2 * n) - 1)). destruct (getZ_is_Some (encode m n (next_gen m n g))
      (m * (2 * n) - 1)) as [b Hb]; [nia|]. rewrite Hb in Heq.
    pose proof (getZ_lt _ _ _ (Heq ltac:(nia))). lia. }
  apply list_eq. intros x. destruct (decide (Z.of_nat x < m * (2 * n))).
  - rewrite <- !getZ_of_nat. apply Heq. lia.
  - rewrite !lookup_ge_None_2; [done|nia|nia].
Qed.
End interleaving.

Lemma start_threads_inv m n handle g p next :
  0 ≤ m → 0 ≤ n → room m n next → threads_inv m n handle g (start_threads p, Shared next []).
Proof.
  intros. split; [done|]. split; [cbn; lia|]. cbn [fst snd].
  intros k t [-> _]%lookup_replicate. done.
Qed.

(** A schedule that gives each of the [p] threads the steps it needs. *)
Definition fair_schedule (p handle : Z) (sched : list nat) : Prop :=
  ∀ k, (k < Z.to_nat p)%nat → 3 * handle + 3 ≤ Z.of_nat (count_occ Nat.eq_dec sched k).

(** What lies behind [status] may be overwritten. *)
Definition harmless (behind : behind_status) : Prop := behind = Padding ∨ behind = Holds_n.

Lemma join_threads_ok behind p n : 0 < p → harmless behind → join_threads behind p n = Ok n.
Proof.
  intros Hp Hb. unfold join_threads.
  destruct (for_up_inv (λ _ v, v.2 = n) 0 p (λ _, pthread_join behind) (n, n)) as ([v w] & -> & Hv); [lia|done| |].
  - intros i v _ Hv. destruct Hb as [-> | ->]; cbn; eauto.
  - cbn in *. by subst.
Qed.

(** The steps of a generation up to the joins. *)
Lemma threads_run m n g p handle c sched fs mt next :
  2 ≤ m → 2 ≤ n → 0 < p → 0 ≤ handle → m ≤ p * handle → 0 ≤ c < 10^8 - 1 →
  fair_schedule p handle sched → room m n next → proc_inv m n g c (fs, mt) →
  ∃ fs' mt' next', (∀ behind, thread_generation behind m p handle sched c (fs, mt, next, n) =
      n' ← join_threads behind p n; Ok (fs', mt', next', n')) ∧
    room m n next' ∧ proc_inv m n g (c + 1) (fs', mt').
Proof.
  intros Hm Hn Hp Hh Hcover Hc Hfair Hnext Hinv. unfold thread_generation.
  destruct (reload_ok m n g c fs mt) as (mt' & -> & Hmt' & Hg); [done..|].
  cbn [mbind res_bind]. destruct (gen_name_ok (c + 1)) as [name Hname]; [lia|].
  rewrite Hname. cbn [mbind res_bind].
  destruct (run_schedule_ok m n handle mt' (gens_of m n (Z.to_nat c) g) Hm Hn Hh Hg sched
    (start_threads p, Shared next [])) as ([ts sh] & -> & Hts & Hlen & Hrem);
    [apply start_threads_inv; done || lia|].
  cbn [mbind res_bind fst snd] in *. unfold start_threads in Hlen. rewrite length_replicate in Hlen.
  assert (all_exited ts) as Hex.
  { apply Forall_lookup_2. intros k t Ht.
    destruct (Hrem _ _ Ht) as (t0 & [-> Hk]%lookup_replicate & Hle).
    specialize (Hfair k). destruct (Hts) as (_ & _ & Hti).
    specialize (Hti _ _ Ht). unfold thread_inv, remaining in Hti, Hle.
    destruct (t_pc t); cbn in Hle; try done; lia. }
  eexists _, _, _. split; [intros behind; by rewrite decide_True|]. split; [apply Hts|].
  split; [done|]. rewrite decide_False by lia. exists name. split; [done|].
  rewrite lookup_insert_eq. f_equal.
  rewrite (exited_file m n handle (gens_of m n (Z.to_nat c) g) Hm Hn ts sh Hts Hex) by lia.
  replace (Z.to_nat (c + 1)) with (S (Z.to_nat c)) by lia. done.
Qed.

Lemma threads_ok behind argv1 m n g gens p handle scheds s :
  ready argv1 m n g s → 0 < gens < 10^8 → 0 < p → block_size m p = Ok handle →
  (∀ c, 0 ≤ c < gens → fair_schedule p handle (scheds c)) → harmless behind →
  ∃ s', threads behind argv1 gens p scheds s = Ok s' ∧
    l_fs s' !! "output.matrix" = Some (encode m n (gens_of m n (Z.to_nat gens) g)).
Proof.
  intros Hr Hgens Hp Hblock Hfair Hb.
  pose proof (ready_m _ _ _ _ _ Hr). pose proof (ready_n _ _ _ _ _ Hr).
  destruct (block_size_ok m p) as (h & Hh & Hcover & Hpos); [lia..|].
  rewrite Hblock in Hh. injection Hh as <-.
  unfold threads, load_matrix_thread.
  destruct (load_matrix_ok argv1 m n g s Hr) as (mt & buf & -> & Hroom & Hg).
  cbn [mbind res_bind l_m l_n l_fs l_buf l_name]. rewrite Hblock. cbn [mbind res_bind].
  destruct (generations_ok (λ c '(fs, mt, next, n'), n' = n ∧ room m n next ∧ proc_inv m n g c (fs, mt))
    (λ c, thread_generation behind m p handle (scheds c) c) gens (l_fs s, mt, fresh_matrix m n, n))
    as ([[[fs mt'] next'] n'] & -> & -> & _ & Hinv); [lia| | |].
  - split; [done|]. split; [apply room_fresh; lia|]. split; [done|]. by rewrite decide_True.
  - intros c [[[fs mt1] next1] n1] Hc (-> & Hnx & Hinv).
    destruct (threads_run m n g p handle c (scheds c) fs mt1 next1)
      as (fs' & mt2 & nx & -> & ? & ?); try done; try lia; [by apply Hfair|].
    rewrite join_threads_ok by done. by eexists (_, _, _, _).
  - cbn [mbind res_bind]. rewrite last_name_ok by lia.
    destruct Hinv as [_ Hcur]. rewrite decide_False in Hcur by lia.
    destruct Hcur as (name & -> & Hfile). cbn [mbind res_bind].
    eexists. split; [done|]. by apply rename_new.
Qed.

(** Where another object lies behind [status], the first join overwrites it. *)
Lemma join_overruns argv1 m n g gens p handle scheds s :
  ready argv1 m n g s → 0 < gens < 10^8 → 0 < p → block_size m p = Ok handle →
  fair_schedule p handle (scheds 0) → threads Another argv1 gens p scheds s = Undef OutOfBounds.
Proof.
  intros Hr Hgens Hp Hblock Hfair.
  pose proof (ready_m _ _ _ _ _ Hr). pose proof (ready_n _ _ _ _ _ Hr).
  destruct (block_size_ok m p) as (h & Hh & Hcover & Hpos); [lia..|].
  rewrite Hblock in Hh. injection Hh as <-.
  unfold threads, load_matrix_thread.
  destruct (load_matrix_ok argv1 m n g s Hr) as (mt & buf & -> & Hroom & Hg).
  cbn [mbind res_bind l_m l_n l_fs l_buf l_name]. rewrite Hblock. cbn [mbind res_bind].
  unfold generations. rewrite decide_False by lia.
  rewrite (for_up_undef (λ _ st, st = (l_fs s, mt, fresh_matrix m n, n)) 0 gens 0 _ _ OutOfBounds); [done|lia|done|lia|].
  intros st ->. destruct (threads_run m n g p handle 0 (scheds 0) (l_fs s) mt (fresh_matrix m n))
    as (fs' & mt2 & nx & -> & _); try done; try lia; [apply room_fresh; lia|].
  unfold join_threads. by rewrite (for_up_undef (λ _ _, True) 0 p 0 _ _ OutOfBounds) by (done || lia).
Qed.

(** Without the input file the counting loop never ends, whatever the fuel:
    [read] keeps answering -1, which the loop does not take for the end. *)
Lemma count_rows_no_file fuel off n buf m :
  count_rows fuel None off n buf m = Undef Diverges.
Proof.
  induction fuel as [|fuel IH] in buf, m, off |- *; [done|].
  cbn [count_rows sys_read]. rewrite decide_False by lia. apply IH.
Qed.

(** * Properties *)

(** On every cell of an [m] x [n] matrix with at least two rows and two
    columns the nine-way case split of [living_cell_count] returns, without an
    access outside the matrix, the number of live cells among the (up to 8)
    neighbours of the cell. *)
Theorem living_cell_count_correct m n mt g i j :
  2 ≤ m → 2 ≤ n → grid m n mt g → 0 ≤ i < m → 0 ≤ j < n →
  living_cell_count mt i j (m-1) (n-1) = Ok (neighbours m n g i j).
Proof. apply living_cell_count_ok. Qed.

(** C25: the sequential mode is total on well-formed input and leaves in
    output.matrix exactly the text of the [gens]-th generation, through [gens]
    rounds of writing and re-reading the generation files. *)
Theorem sequential_correct argv1 m n g gens s :
  ready argv1 m n g s → 0 < gens < 10^8 →
  ∃ s', sequential argv1 gens s = Ok s' ∧
    l_fs s' !! "output.matrix" = Some (encode m n (gens_of m n (Z.to_nat gens) g)).
Proof. intros. destruct (sequential_ok argv1 m n g gens s) as (s' & ? & ? & _); eauto. Qed.

(** C26: under every interleaving of the threads' steps that lets them all
    finish, for any number of threads, the thread mode leaves the same
    output.matrix as the sequential mode, where the store of [pthread_join] behind
    [status] meets no object, or [n], which the program restores. *)
Theorem threads_agree_with_sequential behind argv1 m n g gens p handle scheds s :
  ready argv1 m n g s → 0 < gens < 10^8 → 0 < p → block_size m p = Ok handle →
  (∀ c, 0 ≤ c < gens → fair_schedule p handle (scheds c)) → harmless behind →
  ∃ s1 s2, threads behind argv1 gens p scheds s = Ok s1 ∧ sequential argv1 gens s = Ok s2 ∧
    l_fs s1 !! "output.matrix" = l_fs s2 !! "output.matrix" ∧
    is_Some (l_fs s2 !! "output.matrix").
Proof.
  intros. destruct (threads_ok behind argv1 m n g gens p handle scheds s) as (s1 & ? & E1); [done..|].
  destruct (sequential_ok argv1 m n g gens s) as (s2 & ? & E2 & _); [done..|].
  exists s1, s2. rewrite E1, E2. eauto.
Qed.

(** The process mode agrees with the sequential mode when no child starts
    past the last row, that is when [(p-1) * handle <= m]; when some child
    does, its loop never meets the one row number it stops at and the program
    reads outside the matrix. *)
Theorem process_agrees_or_overruns argv1 m n g gens p handle s :
  ready argv1 m n g s → 0 < gens < 10^8 → 0 < p → block_size m p = Ok handle →
  ((p - 1) * handle ≤ m ∧
   ∃ s1 s2, process argv1 gens p s = Ok s1 ∧ sequential argv1 gens s = Ok s2 ∧
     l_fs s1 !! "output.matrix" = l_fs s2 !! "output.matrix") ∨
  (m < (p - 1) * handle ∧ process argv1 gens p s = Undef OutOfBounds).
Proof.
  intros. destruct (decide ((p - 1) * handle ≤ m)).
  - left. split; [done|].
    destruct (process_ok argv1 m n g gens p handle s) as (s1 & ? & E1); [done..|].
    destruct (sequential_ok argv1 m n g gens s) as (s2 & ? & E2 & _); [done..|].
    exists s1, s2. rewrite E1, E2. eauto.
  - right. split; [lia|]. eapply process_overrun; done || lia.
Qed.


(** * Witnesses: the 2 x 2 and 5 x 2 diagonal matrices *)

Definition diagonal (i j : Z) : ascii := if decide (i = j) then "1"%char else "0"%char.

Definition start_state (m n : Z) : life :=
  Life {["cells" := encode m n diagonal]} (replicate 20010 None) 0 0 None.

Lemma diagonal_ready m n :
  2 ≤ m → 2 ≤ n → 2 * n ≤ buf_len → ready "cells" m n diagonal (start_state m n).
Proof.
  intros. split; [done..| | |by left].
  - apply lookup_singleton_eq.
  - intros. unfold diagonal. by case_decide.
Qed.

Definition round_robin (p rounds : nat) : list nat := concat (replicate rounds (seq 0 p)).

Lemma living_cell_count_correct_witness :
  ∃ mt, grid 2 2 mt diagonal ∧ living_cell_count mt 0 0 (2-1) (2-1) = Ok 1.
Proof.
  exists [[Some "1"; Some "0"]; [Some "0"; Some "1"]]%char.
  assert (grid 2 2 [[Some "1"; Some "0"]; [Some "0"; Some "1"]]%char diagonal) as Hg.
  { intros i j ??. assert (i = 0 ∨ i = 1) as [-> | ->] by lia;
      assert (j = 0 ∨ j = 1) as [-> | ->] by lia; reflexivity. }
  split; [exact Hg|].
  exact (living_cell_count_correct 2 2 _ diagonal 0 0 ltac:(lia) ltac:(lia) Hg ltac:(lia) ltac:(lia)).
Defined.

Lemma sequential_correct_witness :
  ∃ s', sequential "cells" 1 (start_state 2 2) = Ok s' ∧
    l_fs s' !! "output.matrix" = Some (encode 2 2 (gens_of 2 2 1 diagonal)).
Proof.
  apply (sequential_correct "cells" 2 2 diagonal 1 (start_state 2 2));
    [apply diagonal_ready; unfold buf_len; lia|lia].
Defined.

Lemma threads_agree_with_sequential_witness :
  ∃ s1 s2, threads Holds_n "cells" 2 2 (λ _, round_robin 2 6) (start_state 2 2) = Ok s1 ∧
    sequential "cells" 2 (start_state 2 2) = Ok s2 ∧
    l_fs s1 !! "output.matrix" = l_fs s2 !! "output.matrix" ∧
    is_Some (l_fs s2 !! "output.matrix").
Proof.
  apply (threads_agree_with_sequential Holds_n "cells" 2 2 diagonal 2 2 1);
    [apply diagonal_ready; unfold buf_len; lia|lia|lia|reflexivity| |by right].
  intros c _ k Hk. assert (k = 0%nat ∨ k = 1%nat) as [-> | ->] by lia; vm_compute; discriminate.
Defined.

(** Four children for five rows: block size 2, child 3 would start at row 6. *)
Lemma process_agrees_or_overruns_witness :
  process "cells" 1 4 (start_state 5 2) = Undef OutOfBounds.
Proof.
  destruct (process_agrees_or_overruns "cells" 5 2 diagonal 1 4 2 (start_state 5 2))
    as [[H _]|[_ H]];
    [apply diagonal_ready; unfold buf_len; lia|lia|lia|reflexivity|lia|exact H].
Defined.
