(* ===== verification/Pages.v ===== *)
(** The page-replacement simulator of assignment 5
    (src/과제/OS과제/과제5/20172688_최재성_과제5_소스코드.c): the memory that holds
    the reference string, the four algorithms OPT, FIFO, LRU and SCR, and
    what they print. *)
From S2P Require Import Prelude CString.
Local Open Scope Z_scope.

(** * The reference string

    [int page_reference[31]] is filled by [fgets] as characters and read as
    ints: element [i] packs the four characters [4i .. 4i+3]. The two views
    are [pr] (an element, as the algorithms read it) and [prc] (a character,
    as [vector_update] reads it through its [char*] parameter). *)

Definition byte_at (s : string) (k : Z) : Z :=
  match string_get s (Z.to_nat k) with
  | Some c => if decide (0 ≤ k) then Z.of_N (N_of_ascii c) else 0
  | None => 0
  end.

Definition word_at (s : string) (i : Z) : Z :=
  wrap32 (byte_at s (4*i) + 2^8 * byte_at s (4*i+1) + 2^16 * byte_at s (4*i+2)
          + 2^24 * byte_at s (4*i+3)).

(** An element; past the 31 elements of the array, whatever lies [beyond]. *)
Definition elem_at (beyond : Z → Z) (s : string) (i : Z) : Z :=
  if decide (i < 31) then word_at s i else beyond i.

Definition char_at (s : string) (k : Z) : Z :=
  let b := byte_at s k in if decide (b < 128) then b else b - 256.

(** * Rows of the printed table *)

Record row := Row { r_time : Z; r_frames : list Z; r_fault : bool }.
Record result := Result { res_rows : list row; res_faults : Z }.

#[global] Instance row_eq_dec : EqDecision row.
Proof. solve_decision. Defined.
#[global] Instance result_eq_dec : EqDecision result.
Proof. solve_decision. Defined.

Definition tab : string := String "009"%char EmptyString.
Definition nl : string := String newline EmptyString.

Definition show_frames (frames : list Z) : string :=
  foldr (λ v s, (if decide (v = -1) then "" else pretty v) +:+ tab +:+ s) "" frames.

Definition show_row (r : row) : string :=
  pretty (r_time r) +:+ tab +:+ tab +:+ show_frames (r_frames r) +:+
  (if r_fault r then "F" else "") +:+ nl.

Definition show_result (name text : string) (page_frame : Z) (r : result) : string :=
  "Used method : " +:+ name +:+ nl +:+
  "page reference string : " +:+ text +:+ nl +:+
  tab +:+ "frame" +:+
  foldr (λ i s, tab +:+ pretty (i + 1) +:+ s) "" (seqZ 0 page_frame) +:+
  tab +:+ "page fault" +:+ nl +:+ "time" +:+ nl +:+
  foldr (λ r s, show_row r +:+ s) "" (res_rows r) +:+
  "Number of page faults : " +:+ pretty (res_faults r) +:+ " times" +:+ nl +:+ nl.

(** [malloc] and [memset(p,-1,...)]: a table of [page_frame] entries. *)
Definition new_table (page_frame v : Z) : list Z := replicate (Z.to_nat page_frame) v.

Definition find (object : list Z) (page : Z) : bool := existsb (Z.eqb page) object.

(** [for(int i=0;i<62;i+=2){ if(!page_reference[i])break; ... }] *)
Definition reference_loop {S} (pr : Z → Z) (step : Z → S → res S) (s : S) : res S :=
  for_brk 0 31 (λ k s,
    if decide (pr (2 * k) = 0) then Ok (inr s)
    else s' ← step (2 * k) s; Ok (inl s')) s.

(** C division of non-negative or negative ints, trapping on 0. *)
Definition c_mod (a b : Z) : res Z :=
  if decide (b = 0) then Undef DivByZero else Ok (Z.rem a b).

(** * FIFO *)

Record fifo := Fifo { f_queue : list Z; f_number : Z; f_res : result }.

Definition add_row (i : Z) (frames : list Z) (fault : bool) (r : result) : result :=
  Result (res_rows r ++ [Row ((i + 2) / 2) frames fault])
         (if fault then res_faults r + 1 else res_faults r).

Definition queue_push (page_frame : Z) (queue : list Z) (queue_number page : Z)
    : res (list Z * Z) :=
  queue ← wr queue queue_number page;
  queue_number ← c_mod (queue_number + 1) page_frame;
  Ok (queue, queue_number).

Definition fifo_step (page_frame : Z) (pr : Z → Z) (i : Z) (s : fifo) : res fifo :=
  if find (f_queue s) (pr i - 48)
  then Ok (Fifo (f_queue s) (f_number s) (add_row i (f_queue s) false (f_res s)))
  else
    '(queue, number) ← queue_push page_frame (f_queue s) (f_number s) (pr i - 48);
    Ok (Fifo queue number (add_row i queue true (f_res s))).

Definition FIFO (page_frame : Z) (pr : Z → Z) : res result :=
  s ← reference_loop pr (fifo_step page_frame pr)
        (Fifo (new_table page_frame (-1)) 0 (Result [] 0));
  Ok (f_res s).

(** * LRU *)

Record lru := Lru { l_page : list Z; l_stack : list Z; l_number : Z; l_res : result }.

(** [for(i=hi;i>0;i--) stack[i] = stack[i-1];] *)
Definition shift_down (hi : Z) (stack : list Z) : res (list Z) :=
  for_down hi 0 (λ i stack, v ← rd stack (i - 1); wr stack i v) stack.

Definition page_change (page_frame : Z) (page stack : list Z) (stack_number ref : Z)
    : res (list Z * list Z) :=
  if decide (stack_number < page_frame) then
    page ← wr page stack_number ref; Ok (page, stack)
  else
    victim ← rd stack (page_frame - 1);
    page ← for_brk 0 page_frame (λ i page,
      v ← rd page i;
      if decide (v = victim) then page' ← wr page i ref; Ok (inr page') else Ok (inl page)) page;
    stack ← shift_down (page_frame - 1) stack;
    stack ← wr stack 0 ref;
    Ok (page, stack).

(** The first index of [ref] in [stack], -1 when there is none. *)
Definition index_of (page_frame : Z) (stack : list Z) (ref : Z) : res Z :=
  for_brk 0 page_frame (λ i indx,
    v ← rd stack i; Ok (if decide (v = ref) then inr i else inl indx)) (-1).

Definition stack_update (page_frame : Z) (stack : list Z) (stack_number ref : Z)
    : res (list Z) :=
  if decide (stack_number < page_frame) then
    stack ← shift_down stack_number stack; wr stack 0 ref
  else if find stack ref then
    indx ← index_of page_frame stack ref;
    tmp ← rd stack indx;
    stack ← shift_down indx stack;
    wr stack 0 tmp
  else
    stack ← for_up 1 page_frame (λ i stack, v ← rd stack (i - 1); wr stack i v) stack;
    wr stack 0 ref.

Definition lru_step (page_frame : Z) (pr : Z → Z) (i : Z) (s : lru) : res lru :=
  let ref := pr i - 48 in
  if find (l_page s) ref then
    stack ← stack_update page_frame (l_stack s) (l_number s) ref;
    Ok (Lru (l_page s) stack (l_number s) (add_row i (l_page s) false (l_res s)))
  else
    '(page, stack) ← page_change page_frame (l_page s) (l_stack s) (l_number s) ref;
    stack ← stack_update page_frame stack (l_number s) ref;
    Ok (Lru page stack (l_number s + 1) (add_row i page true (l_res s))).

Definition LRU (page_frame : Z) (pr : Z → Z) : res result :=
  s ← reference_loop pr (lru_step page_frame pr)
        (Lru (new_table page_frame (-1)) (new_table page_frame (-1)) 0 (Result [] 0));
  Ok (l_res s).

(** * SCR: second chance *)

Record scr := Scr { s_queue : list Z; s_bit : list Z; s_number : Z; s_res : result }.

(** [while(1){ if(page_bit[q % page_frame]) page_bit[q % page_frame] = 0;
    else break; q = q + 1; }] *)
Fixpoint clear_bits (fuel : nat) (page_frame : Z) (page_bit : list Z) (q : Z)
    : res (list Z * Z) :=
  match fuel with
  | O => Undef Diverges
  | S fuel =>
      k ← c_mod q page_frame;
      b ← rd page_bit k;
      if decide (b = 0) then Ok (page_bit, q)
      else page_bit ← wr page_bit k 0; clear_bits fuel page_frame page_bit (q + 1)
  end.

Definition queue_pagebit_change (page_frame : Z) (queue page_bit : list Z)
    (queue_number ref : Z) : res (list Z * list Z * Z) :=
  if decide (queue_number < page_frame) then
    queue ← wr queue queue_number ref;
    page_bit ← wr page_bit queue_number 0;
    Ok (queue, page_bit, queue_number)
  else
    '(page_bit, q) ← clear_bits (S (length page_bit)) page_frame page_bit queue_number;
    k ← c_mod q page_frame;
    queue ← wr queue k ref;
    Ok (queue, page_bit, q).

Definition pagebit_change (page_frame : Z) (queue page_bit : list Z) (ref : Z)
    : res (list Z) :=
  i ← for_brk 0 page_frame (λ i _,
        v ← rd queue i; Ok (if decide (v = ref) then inr i else inl (i + 1))) 0;
  wr page_bit i 1.

Definition scr_step (page_frame : Z) (pr : Z → Z) (i : Z) (s : scr) : res scr :=
  let ref := pr i - 48 in
  if find (s_queue s) ref then
    bits ← pagebit_change page_frame (s_queue s) (s_bit s) ref;
    Ok (Scr (s_queue s) bits (s_number s) (add_row i (s_queue s) false (s_res s)))
  else
    '(queue, bits, q) ← queue_pagebit_change page_frame (s_queue s) (s_bit s) (s_number s) ref;
    Ok (Scr queue bits (q + 1) (add_row i queue true (s_res s))).

Definition SCR (page_frame : Z) (pr : Z → Z) : res result :=
  s ← reference_loop pr (scr_step page_frame pr)
        (Scr (new_table page_frame (-1)) (new_table page_frame 0) 0 (Result [] 0));
  Ok (s_res s).

(** * OPT *)

Record optst := Optst {
  o_arr : list Z;      (* int arr[31] *)
  o_vector : list Z;
  o_number : Z;
  o_res : result;
}.

(** The first loop of [OPT]: [arr[i/2]], the distance to the next use. *)
Definition opt_distance (pr : Z → Z) (i : Z) : res Z :=
  for_brk (i / 2 + 1) 31 (λ k cnt,
    Ok (if decide (pr (2 * k) = 0 ∨ pr i = pr (2 * k)) then inr cnt else inl (cnt + 1))) 1.

Definition opt_distances (pr : Z → Z) (arr : list Z) : res (list Z) :=
  for_up 0 31 (λ k arr, cnt ← opt_distance pr (2 * k); wr arr k cnt) arr.

(** References that were made again since lose their distance. *)
Definition opt_expire (pr : Z → Z) (i : Z) (arr : list Z) : res (list Z) :=
  for_up 0 (i / 2) (λ a arr,
    for_brk (a + 1) (i / 2 + 1) (λ b arr,
      if decide (pr (2 * a) = pr (2 * b)) then arr' ← wr arr a (-1); Ok (inr arr')
      else Ok (inl arr)) arr) arr.

Definition opt_tick (i : Z) (arr : list Z) : res (list Z) :=
  for_up 0 (i / 2) (λ j arr,
    v ← rd arr j; if decide (1 < v) then wr arr j (v - 1) else Ok arr) arr.

Definition max_index (arr : list Z) (hi : Z) : res Z :=
  for_up 0 hi (λ i max_indx,
    a ← rd arr max_indx; b ← rd arr i; Ok (if decide (a < b) then i else max_indx)) 0.

Definition vector_update (page_frame : Z) (prc : Z → Z) (arr vector : list Z)
    (vector_number indx : Z) : res (list Z * list Z) :=
  if decide (vector_number < page_frame) then
    vector ← wr vector vector_number (prc indx - 48); Ok (arr, vector)
  else
    max_indx ← max_index arr (indx / 2);
    for_up 0 page_frame (λ i '(arr, vector),
      v ← rd vector i;
      if decide (v = prc (max_indx * 2) - 48) then
        vector' ← wr vector i (prc indx - 48);
        arr' ← wr arr max_indx (-1);
        Ok (arr', vector')
      else Ok (arr, vector)) (arr, vector).

Definition opt_step (page_frame : Z) (pr prc : Z → Z) (i : Z) (s : optst) : res optst :=
  arr ← opt_expire pr i (o_arr s);
  arr ← opt_tick i arr;
  if find (o_vector s) (pr i - 48)
  then Ok (Optst arr (o_vector s) (o_number s) (add_row i (o_vector s) false (o_res s)))
  else
    '(arr, vector) ← vector_update page_frame prc arr (o_vector s) (o_number s) i;
    Ok (Optst arr vector (o_number s + 1) (add_row i vector true (o_res s))).

Definition OPT (page_frame : Z) (pr prc : Z → Z) : res result :=
  arr ← opt_distances pr (replicate 31 0);
  s ← reference_loop pr (opt_step page_frame pr prc)
        (Optst arr (new_table page_frame (-1)) 0 (Result [] 0));
  Ok (o_res s).

(** * main *)

(** [fscanf(fp,"%d\n",&page_frame); fgets(page_reference,62,fp);] with the
    globals zero before. *)
Definition read_input (file : string) : Z * string :=
  let '(page_frame, rest) :=
    match scan_int file with
    | Some (z, rest) => (wrap32 (clamp64 z), skip_space rest)
    | None => (0, skip_space file)
    end in
  (page_frame, match fgets 62 rest with Some (text, _) => text | None => "" end).

Definition run_all (beyond : Z → Z) (page_frame : Z) (text : string) : res string :=
  let pr := elem_at beyond text in
  opt ← OPT page_frame pr (char_at text);
  fifo ← FIFO page_frame pr;
  lru ← LRU page_frame pr;
  scr ← SCR page_frame pr;
  Ok (show_result "OPT" text page_frame opt +:+ show_result "FIFO" text page_frame fifo +:+
      show_result "LRU" text page_frame lru +:+
      show_result "Second-Chance" text page_frame scr).

(** [main]: [argc] and the file named by [argv[1]], when it can be opened. *)
Definition main (beyond : Z → Z) (argc : Z) (file : option string) : res string :=
  if decide (argc = 2) then
    match file with
    | None => Exit 1
    | Some c => let '(page_frame, text) := read_input c in run_all beyond page_frame text
    end
  else Exit 1.
