(* ===== verification/PagesProofs.v ===== *)
(** The page-replacement simulator against its specification: the textbook
    policies as state machines on the list of resident pages, and the
    simulations that show what each of the four routines computes. *)
From S2P Require Import Prelude CString Pages.
Local Open Scope Z_scope.

(** * Policies

    A policy keeps a state, can name the resident pages, and reacts to a hit
    and to a miss. *)

Class Policy (St : Type) := {
  pol_init : St;
  pol_resident : St → list Z;
  pol_hit : Z → St → St;
  pol_miss : Z → St → St;
}.

Definition pol_access `{Policy St} (v : Z) (a : St) : bool * St :=
  if decide (v ∈ pol_resident a) then (false, pol_hit v a) else (true, pol_miss v a).

(** The faults and the resident pages after each reference. *)
Fixpoint pol_run `{Policy St} (refs : list Z) (a : St) : list (bool * list Z) :=
  match refs with
  | [] => []
  | v :: refs => let '(b, a') := pol_access v a in (b, pol_resident a') :: pol_run refs a'
  end.

(** First in first out: the pages in order of arrival, the oldest first. *)
Definition fifo_policy (n : nat) : Policy (list Z) := {|
  pol_init := [];
  pol_resident := id;
  pol_hit := λ _ l, l;
  pol_miss := λ v l, (if decide (length l < n)%nat then l else tail l) ++ [v];
|}.

(** Least recently used: the pages by their last use, the latest first. *)
Definition lru_policy (n : nat) : Policy (list Z) := {|
  pol_init := [];
  pol_resident := id;
  pol_hit := λ v l, v :: filter (λ x, x ≠ v) l;
  pol_miss := λ v l, v :: (if decide (length l < n)%nat then l else take (n - 1) l);
|}.

(** Second chance: pages with a reference bit in order of arrival. A miss on
    a full memory moves the pages with a set bit to the back, bit cleared, up
    to the first page without. *)
Definition has_bit (p : Z * Z) : bool := negb (p.2 =? 0).
Definition clear_bit (p : Z * Z) : Z * Z := (p.1, 0).

Fixpoint split_bits (l : list (Z * Z)) : list (Z * Z) * list (Z * Z) :=
  match l with
  | [] => ([], [])
  | p :: l' => if has_bit p then let '(a, b) := split_bits l' in (p :: a, b) else ([], l)
  end.

Definition second_chance (l : list (Z * Z)) : list (Z * Z) :=
  let '(ones, rest) := split_bits l in rest ++ (clear_bit <$> ones).

Definition scr_policy (n : nat) : Policy (list (Z * Z)) := {|
  pol_init := [];
  pol_resident := λ l, l.*1;
  pol_hit := λ v l, (λ p : Z * Z, if decide (p.1 = v) then (v, 1) else p) <$> l;
  pol_miss := λ v l,
    (if decide (length l < n)%nat then l else tail (second_chance l)) ++ [(v, 0)];
|}.

(** * What a routine's table says *)

(** The references the routines see: element 0, 2, ... up to the first 0. *)
Fixpoint refs_from (pr : Z → Z) (k : Z) (n : nat) : list Z :=
  match n with
  | O => []
  | S n => if decide (pr (2 * k) = 0) then [] else (pr (2 * k) - 48) :: refs_from pr (k + 1) n
  end.
Definition references (pr : Z → Z) : list Z := refs_from pr 0 31.

(** The frames of a row: the resident pages in some order, then free frames. *)
Definition holds (n : nat) (frames pages : list Z) : Prop :=
  frames ≡ₚ pages ++ replicate (n - length pages) (-1).

(** Row [k] shows time [k+1], the fault and the resident pages. *)
Definition table_of (n : nat) (k : Z) (rows : list row) (t : list (bool * list Z)) : Prop :=
  length rows = length t ∧
  ∀ j r p, rows !! j = Some r → t !! j = Some p →
    r_time r = k + Z.of_nat j + 1 ∧ r_fault r = p.1 ∧ holds n (r_frames r) p.2.

Definition count_faults (t : list (bool * list Z)) : Z :=
  Z.of_nat (length (filter (λ p, p.1 = true) t)).

Definition implements `{Policy St} (n : nat) (refs : list Z) (r : result) : Prop :=
  table_of n 0 (res_rows r) (pol_run refs pol_init) ∧
  res_faults r = count_faults (pol_run refs pol_init).

(** * Running the reference loop *)

Section simulation.
Context `{Policy St} {S : Type}.
Context (n : nat) (pr : Z → Z) (step : Z → S → res S) (out : S → result).
Context (R : list Z → S → St → Prop).

(** One reference: the routine appends the row the policy prescribes and the
    states stay related; [hist] is what was referenced before. *)
Hypothesis step_ok : ∀ hist rest k s a,
  references pr = hist ++ (pr (2 * k) - 48) :: rest → R hist s a →
  ∃ s' frames,
    step (2 * k) s = Ok s' ∧
    out s' = add_row (2 * k) frames (pol_access (pr (2 * k) - 48) a).1 (out s) ∧
    holds n frames (pol_resident (pol_access (pr (2 * k) - 48) a).2) ∧
    R (hist ++ [pr (2 * k) - 48]) s' (pol_access (pr (2 * k) - 48) a).2.

Lemma simulate_from c k hist s a :
  0 ≤ k → references pr = hist ++ refs_from pr k c → R hist s a →
  ∃ s' rows,
    loop_brk c k 1 (λ k s, if decide (pr (2 * k) = 0) then Ok (inr s)
                           else s' ← step (2 * k) s; Ok (inl s')) s = Ok s' ∧
    res_rows (out s') = res_rows (out s) ++ rows ∧
    table_of n k rows (pol_run (refs_from pr k c) a) ∧
    res_faults (out s') = res_faults (out s) + count_faults (pol_run (refs_from pr k c) a).
Proof.
  induction c as [|c IH] in k, hist, s, a |- *; intros Hk Href HR.
  - exists s, []. simpl. split; [done|]. rewrite app_nil_r. unfold table_of, count_faults.
    simpl. split_and!; try done; lia.
  - cbn [loop_brk refs_from] in *. case_decide as Hz.
    { exists s, []. simpl. split; [done|]. rewrite app_nil_r. unfold table_of, count_faults.
      simpl. split_and!; try done; lia. }
    destruct (step_ok hist (refs_from pr (k + 1) c) k s a) as (s1 & fr & E1 & Eo & Hh & HR1);
      [done..|].
    rewrite E1. simpl. set (v := pr (2 * k) - 48) in *.
    destruct (pol_access v a) as [b a1] eqn:Ea. simpl in *.
    destruct (IH (k + 1) (hist ++ [v]) s1 a1) as (s2 & rows & E2 & Er & Ht & Hf);
      [lia|rewrite <- app_assoc; done|done|].
    exists s2, (Row ((2 * k + 2) / 2) fr b :: rows).
    split_and!; [done|..].
    + rewrite Er, Eo. simpl. rewrite <- app_assoc. done.
    + destruct Ht as [Hl Ht]. split; [simpl; lia|].
      intros [|j] r p; simpl.
      * intros [= <-] [= <-]. split_and!; try done. cbn [r_time].
        pose proof (Z.div_mul (k + 1) 2). replace (2 * k + 2) with ((k + 1) * 2) by lia. lia.
      * intros Hr Hp. destruct (Ht j r p Hr Hp) as (? & ? & ?). split_and!; try done. lia.
    + rewrite Hf, Eo. unfold count_faults. destruct b.
      * rewrite filter_cons_True by done. cbn. lia.
      * rewrite filter_cons_False by done. done.
Qed.

Lemma simulate s :
  R [] s pol_init → out s = Result [] 0 →
  ∃ s', reference_loop pr step s = Ok s' ∧ implements n (references pr) (out s').
Proof.
  intros HR Hs. destruct (simulate_from 31 0 [] s pol_init) as (s' & rows & E & Er & Ht & Hf);
    [done..|].
  exists s'. split; [exact E|]. rewrite Hs in *. simpl in *. unfold implements, references.
  rewrite Er, Hf. done.
Qed.
End simulation.

(** * Circular buffers *)

Definition rot {A} (k : nat) (l : list A) : list A := drop k l ++ take k l.

Section rotation.
Context {A : Type}.
Implicit Types (l : list A) (v : A).

Lemma rot_perm k l : rot k l ≡ₚ l.
Proof. unfold rot. rewrite Permutation_app_comm. by rewrite take_drop. Qed.

Lemma rot_length k l : length (rot k l) = length l.
Proof. by rewrite rot_perm. Qed.

Lemma rot_insert_next k l v :
  (k < length l)%nat →
  rot (S k mod length l) (<[k:=v]> l) = tail (rot k l) ++ [v].
Proof.
  intros Hk. destruct (lookup_lt_is_Some_2 l k Hk) as [x Hx].
  assert (tail (rot k l) = drop (S k) l ++ take k l) as ->.
  { unfold rot. by rewrite (drop_S l x k) by done. }
  unfold rot. rewrite insert_take_drop by done.
  assert (length (take k l) = k) as Hlen by (rewrite length_take; lia).
  destruct (decide (S k = length l)) as [E|].
  - rewrite E, Nat.Div0.mod_same, drop_0, take_0, app_nil_r.
    rewrite (drop_ge l) by lia. done.
  - rewrite Nat.mod_small by lia.
    rewrite drop_app_ge, take_app_ge by lia. rewrite Hlen.
    replace (S k - k)%nat with 1%nat by lia. simpl. rewrite take_0, <- app_assoc. done.
Qed.

Lemma rot_head k l x : l !! k = Some x → rot k l = x :: tail (rot k l).
Proof.
  intros Hx. unfold rot. rewrite (drop_S l x k) by done. done.
Qed.
End rotation.

Lemma find_elem l v : find l v = true ↔ v ∈ l.
Proof.
  unfold find. rewrite existsb_exists. setoid_rewrite Z.eqb_eq. split.
  - intros (x & ?%list_elem_of_In & ->). done.
  - intros ?%list_elem_of_In. eauto.
Qed.

Lemma find_dec l v : find l v = bool_decide (v ∈ l).
Proof.
  case_bool_decide as E; [by apply find_elem|].
  apply not_true_iff_false. by rewrite find_elem.
Qed.

(** A table of [n] frames of which the first ones are taken. *)
Definition padded (n : nat) (l : list Z) : list Z := l ++ replicate (n - length l) (-1).

Lemma padded_length n l : (length l ≤ n)%nat → length (padded n l) = n.
Proof. intros. unfold padded. rewrite length_app, length_replicate. lia. Qed.

Lemma padded_elem n l v : v ≠ -1 → v ∈ padded n l ↔ v ∈ l.
Proof.
  intros. unfold padded. rewrite elem_of_app, elem_of_replicate. naive_solver.
Qed.

Lemma padded_insert n l v :
  (length l < n)%nat → <[length l := v]> (padded n l) = padded n (l ++ [v]).
Proof.
  intros. unfold padded. rewrite insert_app_r_alt, Nat.sub_diag by lia.
  rewrite length_app. simpl. replace (n - length l)%nat with (S (n - (length l + 1))) by lia.
  simpl. rewrite <- app_assoc. done.
Qed.

Lemma padded_nil n : padded n [] = replicate n (-1).
Proof. unfold padded. simpl. by rewrite Nat.sub_0_r. Qed.

Lemma padded_full n l : length l = n → padded n l = l.
Proof. intros <-. unfold padded. rewrite Nat.sub_diag. simpl. by rewrite app_nil_r. Qed.

Lemma c_mod_mod a b : 0 ≤ a → 0 < b → c_mod a b = Ok (a mod b).
Proof.
  intros. unfold c_mod. case_decide; [lia|]. by rewrite Z.rem_mod_nonneg by lia.
Qed.

Lemma holds_padded n l frames : frames = padded n l → holds n frames l.
Proof. intros ->. unfold holds. reflexivity. Qed.

Section policies.
Context (pr : Z → Z) (n : nat).
Hypothesis Hn : (1 ≤ n)%nat.
Hypothesis Hfree : Forall (λ v, v ≠ -1) (references pr).

Lemma reference_not_free hist v rest : references pr = hist ++ v :: rest → v ≠ -1.
Proof. intros E. rewrite E in Hfree. rewrite Forall_app, Forall_cons in Hfree. naive_solver. Qed.

(** * FIFO *)

(** While filling, the queue is the pages in order; once full, it is read
    from the position of the next victim. *)
Definition fifo_rel (_ : list Z) (s : fifo) (l : list Z) : Prop :=
  ((length l < n)%nat ∧ f_queue s = padded n l ∧ f_number s = Z.of_nat (length l)) ∨
  (length l = n ∧ length (f_queue s) = n ∧
   ∃ k, f_number s = Z.of_nat k ∧ (k < n)%nat ∧ l = rot k (f_queue s)).

Lemma fifo_rel_holds hist s l : fifo_rel hist s l → holds n (f_queue s) l.
Proof.
  intros [(? & -> & ?)|(Hl & Hq & k & ? & ? & ->)]; [by apply holds_padded|].
  unfold holds. rewrite rot_length, Hq, Nat.sub_diag. simpl. by rewrite app_nil_r, rot_perm.
Qed.

Lemma holds_elem q l v : holds n q l → v ≠ -1 → v ∈ q ↔ v ∈ l.
Proof. unfold holds. intros E ?. rewrite E. by apply padded_elem. Qed.

(** The victim's frame gets the new page and the queue moves on. *)
Lemma fifo_push hist s l v :
  fifo_rel hist s l →
  ∃ q k, queue_push (Z.of_nat n) (f_queue s) (f_number s) v = Ok (q, k) ∧
    ∀ r hist', fifo_rel hist' (Fifo q k r)
      ((if decide (length l < n)%nat then l else tail l) ++ [v]).
Proof.
  unfold queue_push. intros [(Hl & -> & ->)|(Hl & Hq & k & -> & Hk & ->)].
  - rewrite wr_ok by (rewrite padded_length; lia). simpl. rewrite Nat2Z.id, padded_insert by done.
    rewrite c_mod_mod by lia. simpl. eexists _, _. split; [done|]. intros r hist'.
    rewrite decide_True by done. destruct (decide (S (length l) = n)) as [E|].
    + right. rewrite length_app. simpl. split; [lia|]. split; [apply padded_length; rewrite length_app; simpl; lia|].
      exists 0%nat. replace (Z.of_nat (length l) + 1) with (Z.of_nat n) by lia.
      rewrite Z_mod_same_full. split_and!; [done|lia|].
      unfold rot. rewrite drop_0, take_0, app_nil_r, padded_full; [done|]. rewrite length_app. simpl. lia.
    + left. rewrite length_app. simpl. split_and!; [lia|done|].
      rewrite Z.mod_small by lia. lia.
  - rewrite wr_ok by lia. simpl. rewrite Nat2Z.id, c_mod_mod by lia. simpl.
    eexists _, _. split; [done|]. intros r hist'. right. rewrite decide_False by lia. simpl.
    rewrite length_app, length_tl, length_insert, rot_length. simpl.
    split_and!; [lia|done|]. exists (S k mod n)%nat.
    split_and!; [|apply Nat.mod_upper_bound; lia|].
    + rewrite Nat2Z.inj_mod. f_equal. lia.
    + rewrite <- Hq, rot_insert_next by lia. done.
Qed.

Lemma FIFO_implements : ∃ r, FIFO (Z.of_nat n) pr = Ok r ∧
  @implements _ (fifo_policy n) n (references pr) r.
Proof.
  unfold FIFO.
  edestruct (simulate (H := fifo_policy n) n pr (fifo_step (Z.of_nat n) pr) f_res fifo_rel)
    as (s' & -> & Hi); [| |done|simpl; eauto].
  2:{ left. simpl. rewrite padded_nil. unfold new_table. rewrite Nat2Z.id. split_and!; [lia|done..]. }
  - intros hist rest k s l Hr HR. pose proof (reference_not_free _ _ _ Hr) as Hv.
    set (v := pr (2 * k) - 48) in *. unfold fifo_step. fold v.
    pose proof (fifo_rel_holds _ _ _ HR) as Hh.
    rewrite find_dec. unfold pol_access. simpl. unfold id in *.
    destruct (decide (v ∈ l)) as [Hin|Hin].
    + rewrite bool_decide_true by (by apply (holds_elem _ l)). eexists _, _. simpl.
      split_and!; [done..|]. destruct HR; [by left|by right].
    + rewrite bool_decide_false by (by rewrite (holds_elem _ l)).
      destruct (fifo_push _ _ _ v HR) as (q & c & -> & Hq). simpl.
      eexists _, q. split_and!; try done.
      apply (fifo_rel_holds [] (Fifo q c (f_res s))). apply Hq.
Qed.
(** * Second chance *)

Lemma split_bits_app l : l = (split_bits l).1 ++ (split_bits l).2.
Proof.
  induction l as [|p l IH]; [done|]. simpl. destruct (has_bit p); [|done].
  destruct (split_bits l) as [a b]. simpl in *. by rewrite IH at 1.
Qed.

Lemma split_bits_ones l : Forall (λ p, has_bit p = true) (split_bits l).1.
Proof.
  induction l as [|p l IH]; [done|]. simpl. destruct (has_bit p) eqn:E; [|done].
  destruct (split_bits l) as [a b]. by constructor.
Qed.

Lemma split_bits_rest l p r : (split_bits l).2 = p :: r → has_bit p = false.
Proof.
  induction l as [|q l IH]; [done|]. simpl. destruct (has_bit q) eqn:E.
  - destruct (split_bits l) as [a b]. done.
  - intros [= <- _]. done.
Qed.

Lemma second_chance_pages l : (second_chance l).*1 ≡ₚ l.*1.
Proof.
  unfold second_chance. pose proof (split_bits_app l) as E. rewrite E at 2.
  destruct (split_bits l) as [a b]. simpl.
  by rewrite !fmap_app, <- list_fmap_compose, (Permutation_app_comm b.*1).
Qed.

Lemma second_chance_head l p r : second_chance l = p :: r → p.2 = 0.
Proof.
  unfold second_chance. pose proof (split_bits_rest l) as Hr.
  destruct (split_bits l) as [[|a0 a] [|b0 b]]; simpl in *; intros [= <- _]; try done.
  all: specialize (Hr _ _ eq_refl); unfold has_bit in Hr;
    apply negb_false_iff, Z.eqb_eq in Hr; done.
Qed.

Lemma zip_insert {A B} (l : list A) (k : list B) i x y :
  zip (<[i:=x]> l) (<[i:=y]> k) = <[i:=(x, y)]> (zip l k).
Proof.
  induction l as [|a l IH] in k, i |- *; [done|].
  destruct k as [|b k], i as [|i]; simpl; try done. by rewrite IH.
Qed.

Lemma zip_lookup {A B} (l : list A) (k : list B) i p :
  zip l k !! i = Some p ↔ l !! i = Some p.1 ∧ k !! i = Some p.2.
Proof.
  rewrite lookup_zip_with_Some. destruct p as [x y]. simpl. naive_solver.
Qed.

(** The loop clears the set bits it meets and stops at the first clear one. *)
Lemma clear_bits_ok ones rest fuel queue bits q :
  0 ≤ q → length queue = n → length bits = n →
  rot (Z.to_nat (q mod Z.of_nat n)) (zip queue bits) = ones ++ rest →
  Forall (λ p, has_bit p = true) ones →
  (∀ p r, rest ++ (clear_bit <$> ones) = p :: r → p.2 = 0) →
  (length ones < fuel)%nat →
  ∃ bits' q', clear_bits fuel (Z.of_nat n) bits q = Ok (bits', q') ∧
    length bits' = n ∧ q ≤ q' ∧
    rot (Z.to_nat (q' mod Z.of_nat n)) (zip queue bits') = rest ++ (clear_bit <$> ones).
Proof.
  induction ones as [|p ones IH] in rest, fuel, bits, q |- *;
    intros Hq Hlq Hlb Hrot Hones Hhead Hfuel; destruct fuel as [|fuel]; simpl in Hfuel; try lia.
  all: cbn [clear_bits]; rewrite c_mod_mod by lia; cbn [mbind res_bind];
    pose proof (Z.mod_pos_bound q (Z.of_nat n) ltac:(lia)) as Hm;
    set (k := Z.to_nat (q mod Z.of_nat n)) in *;
    replace (q mod Z.of_nat n) with (Z.of_nat k) by lia;
    assert (k < n)%nat as Hkn by lia;
    destruct (lookup_lt_is_Some_2 (zip queue bits) k) as [[x b] Hx];
      [rewrite length_zip; lia|];
    pose proof Hx as [_ Hb]%zip_lookup; simpl in Hb;
    rewrite rd_getZ, getZ_of_nat, Hb; cbn [opt mbind res_bind];
    rewrite (rot_head _ _ _ Hx) in Hrot.
  - simpl in *. rewrite app_nil_r in *.
    assert (b = 0) as -> by (by apply (Hhead (x, b) _ (eq_sym Hrot))).
    exists bits, q. split_and!; [done|done|lia|]. fold k. by rewrite (rot_head _ _ _ Hx).
  - injection Hrot as <- Hrot. apply Forall_cons in Hones as [Hp Hones].
    unfold has_bit in Hp. simpl in Hp. apply negb_true_iff, Z.eqb_neq in Hp.
    rewrite decide_False by done. rewrite wr_ok by lia. simpl. rewrite Nat2Z.id.
    destruct (IH (rest ++ [(x, 0)]) fuel (<[k:=0]> bits) (q + 1))
      as (bits' & q' & E & Hl & Hle & Hr'); try done; try lia.
    + by rewrite length_insert.
    + replace (Z.to_nat ((q + 1) mod Z.of_nat n)) with (S k mod length (zip queue bits))%nat.
      2:{ rewrite length_zip, Hlq, Hlb, Nat.min_id.
          rewrite <- Zplus_mod_idemp_l. replace (q mod Z.of_nat n) with (Z.of_nat k) by lia.
          replace (Z.of_nat k + 1) with (Z.of_nat (S k)) by lia.
          rewrite <- Nat2Z.inj_mod. by rewrite Nat2Z.id. }
      apply zip_lookup in Hx as [Hxq _]. simpl in Hxq.
      replace (zip queue (<[k:=0]> bits)) with (<[k:=(x, 0)]> (zip queue bits)).
      2:{ rewrite <- zip_insert. by rewrite (list_insert_id queue). }
      rewrite rot_insert_next by (rewrite length_zip; lia). rewrite Hrot.
      by rewrite <- app_assoc.
    + intros p r. rewrite <- app_assoc. apply (Hhead p r).
    + exists bits', q'. split_and!; [done|done|lia|]. by rewrite Hr', <- app_assoc.
Qed.

Definition scr_rel (_ : list Z) (s : scr) (l : list (Z * Z)) : Prop :=
  NoDup l.*1 ∧ length (s_queue s) = n ∧ length (s_bit s) = n ∧
  (((length l < n)%nat ∧ s_number s = Z.of_nat (length l) ∧
    zip (s_queue s) (s_bit s) = l ++ replicate (n - length l) (-1, 0)) ∨
   (length l = n ∧ Z.of_nat n ≤ s_number s ∧
    l = rot (Z.to_nat (s_number s mod Z.of_nat n)) (zip (s_queue s) (s_bit s)))).

Lemma zip_queue (q b : list Z) : length q = length b → q = (zip q b).*1.
Proof. intros. rewrite fst_zip; [done|lia]. Qed.

Lemma scr_rel_holds hist s l : scr_rel hist s l → holds n (s_queue s) l.*1.
Proof.
  intros (_ & Hq & Hb & [(Hl & _ & Hz)|(Hl & _ & ->)]); unfold holds; rewrite length_fmap.
  - rewrite (zip_queue (s_queue s) (s_bit s)), Hz, fmap_app, fmap_replicate by lia. done.
  - rewrite rot_length, length_zip, Hq, Hb, Nat.min_id, Nat.sub_diag. simpl.
    rewrite app_nil_r, rot_perm, <- zip_queue by lia. done.
Qed.

Lemma fmap_rot {A B} (f : A → B) k l : f <$> rot k l = rot k (f <$> l).
Proof. unfold rot. by rewrite fmap_app, fmap_drop, fmap_take. Qed.

Definition mark (v : Z) (p : Z * Z) : Z * Z := if decide (p.1 = v) then (v, 1) else p.

Lemma mark_pages v l : (mark v <$> l).*1 = l.*1.
Proof.
  rewrite <- list_fmap_compose. apply list_fmap_ext. intros _ p _. unfold compose, mark.
  by case_decide.
Qed.

Lemma mark_zip v (q b : list Z) i :
  length q = length b → q !! i = Some v → (∀ j, q !! j = Some v → j = i) →
  zip q (<[i:=1]> b) = mark v <$> zip q b.
Proof.
  intros Hl Hi Huniq. apply list_eq. intros j. apply option_eq. intros [x y].
  rewrite zip_lookup, list_lookup_fmap, fmap_Some. simpl.
  assert (i < length q)%nat by (by eapply lookup_lt_Some). split.
  - intros [Hx Hy]. destruct (decide (i = j)) as [<-|Hne].
    + rewrite list_lookup_insert_eq in Hy by lia. injection Hy as <-.
      destruct (lookup_lt_is_Some_2 b i) as [y Hy]; [lia|].
      exists (x, y). rewrite zip_lookup. split; [done|]. unfold mark. simpl.
      rewrite decide_True by congruence. congruence.
    + rewrite list_lookup_insert_ne in Hy by done. exists (x, y). rewrite zip_lookup.
      split; [done|]. unfold mark. simpl. rewrite decide_False; [done|].
      intros ->. apply Hne. symmetry. by apply Huniq.
  - intros ([x' y'] & [Hx Hy]%zip_lookup & E). simpl in *. unfold mark in E. simpl in E.
    case_decide as Hv; injection E as -> ->.
    + subst x'. assert (j = i) as -> by auto. split; [done|]. apply list_lookup_insert_eq. lia.
    + split; [done|]. rewrite list_lookup_insert_ne; [done|]. intros <-. congruence.
Qed.

Lemma first_index (q : list Z) v :
  length q = n → v ∈ q →
  ∃ i, for_brk 0 (Z.of_nat n) (λ i _,
         w ← rd q i; Ok (if decide (w = v) then inr i else inl (i + 1))) 0 = Ok (Z.of_nat i) ∧
    q !! i = Some v.
Proof.
  intros Hq [j Hj]%list_elem_of_lookup. pose proof (lookup_lt_Some _ _ _ Hj).
  destruct (for_brk_inv (λ i _, (∀ k : nat, Z.of_nat k < i → q !! k ≠ Some v))
    (λ r, ∃ i, r = Z.of_nat i ∧ q !! i = Some v) 0 (Z.of_nat n) (λ i _,
         w ← rd q i; Ok (if decide (w = v) then inr i else inl (i + 1))) 0)
    as (r & E & i & -> & Hi); [lia|lia| | |by eauto].
  - intros i z Hi Hb. destruct (getZ_is_Some q i) as [w Hw]; [lia|].
    rewrite rd_getZ, Hw. simpl. unfold getZ in Hw. rewrite decide_True in Hw by lia.
    case_decide as E.
    + right. exists i. split; [done|]. exists (Z.to_nat i). split; [lia|congruence].
    + left. exists (i + 1). split; [done|]. intros k Hk.
      destruct (decide (Z.of_nat k = i)) as [Ek|]; [|apply Hb; lia].
      replace k with (Z.to_nat i) by lia. congruence.
  - intros z Hb. exfalso. apply (Hb j); [lia|done].
Qed.

Lemma scr_hit hist s l v r hist' :
  scr_rel hist s l → v ≠ -1 → v ∈ l.*1 →
  ∃ bits, pagebit_change (Z.of_nat n) (s_queue s) (s_bit s) v = Ok bits ∧
    scr_rel hist' (Scr (s_queue s) bits (s_number s) r) (mark v <$> l).
Proof.
  intros HR Hv Hin. pose proof (scr_rel_holds _ _ _ HR) as Hh.
  destruct HR as (Hnd & Hq & Hb & HR).
  destruct (first_index (s_queue s) v) as (i & E & Hi); [done|by apply (holds_elem _ l.*1)|].
  assert (i < n)%nat by (rewrite <- Hq; by eapply lookup_lt_Some).
  unfold pagebit_change. rewrite E. simpl. rewrite wr_ok by lia. rewrite Nat2Z.id.
  eexists. split; [done|]. unfold scr_rel. simpl.
  rewrite mark_pages, length_insert, length_fmap. split_and!; [done..|].
  assert (∀ j, s_queue s !! j = Some v → j = i) as Huniq.
  { destruct HR as [(Hl & _ & Hz)|(Hl & _ & Hz)].
    - assert (s_queue s = l.*1 ++ replicate (n - length l) (-1)) as Eq.
      { rewrite (zip_queue (s_queue s) (s_bit s)), Hz, fmap_app, fmap_replicate by lia. done. }
      rewrite Eq in Hi |- *.
      assert (∀ j, (l.*1 ++ replicate (n - length l) (-1)) !! j = Some v → l.*1 !! j = Some v)
        as Hj.
      { intros j [Hj|[_ Hj]]%lookup_app_Some; [done|].
        by apply lookup_replicate in Hj as [[=] _]. }
      intros j ?. eapply NoDup_lookup; eauto.
    - assert (NoDup (s_queue s)) as Hndq.
      { rewrite (zip_queue (s_queue s) (s_bit s)) by lia.
        rewrite <- (rot_perm (Z.to_nat (s_number s mod Z.of_nat n)) (zip _ _)). by rewrite <- Hz. }
      intros j ?. eapply NoDup_lookup; eauto. }
  rewrite (mark_zip v) by (done || lia).
  destruct HR as [(Hl & Hk & Hz)|(Hl & Hk & Hz)]; [left|right]; split_and!; try done.
  - rewrite Hz, fmap_app, fmap_replicate. f_equal. f_equal. unfold mark. simpl.
    by rewrite decide_False.
  - by rewrite Hz at 1; rewrite fmap_rot.
Qed.

Lemma scr_miss hist s l v r hist' :
  scr_rel hist s l → v ∉ l.*1 →
  ∃ q b k, queue_pagebit_change (Z.of_nat n) (s_queue s) (s_bit s) (s_number s) v = Ok (q, b, k) ∧
    scr_rel hist' (Scr q b (k + 1) r)
      ((if decide (length l < n)%nat then l else tail (second_chance l)) ++ [(v, 0)]).
Proof.
  intros (Hnd & Hq & Hb & HR) Hv. unfold queue_pagebit_change.
  destruct HR as [(Hl & Hk & Hz)|(Hl & Hk & Hz)].
  - rewrite Hk, decide_True by lia. rewrite !wr_ok by lia. simpl.
    rewrite Nat2Z.id. eexists _, _, _. split; [done|]. rewrite decide_True by done.
    unfold scr_rel. simpl. rewrite fmap_app, !length_insert, length_app. simpl.
    split_and!; [|done|done|].
    { apply NoDup_app. split_and!; [done| |apply NoDup_singleton].
      intros x Hx ->%list_elem_of_singleton. done. }
    assert (zip (<[length l:=v]> (s_queue s)) (<[length l:=0]> (s_bit s)) =
      (l ++ [(v, 0)]) ++ replicate (n - (length l + 1)) (-1, 0)) as Hz'.
    { rewrite zip_insert, Hz, insert_app_r_alt, Nat.sub_diag by lia.
      replace (n - length l)%nat with (S (n - (length l + 1))) by lia.
      simpl. by rewrite <- app_assoc. }
    destruct (decide (S (length l) = n)) as [E|].
    + right. split_and!; [lia|lia|]. rewrite Hz'.
      replace (n - (length l + 1))%nat with 0%nat by lia. simpl. rewrite app_nil_r.
      replace (Z.of_nat (length l) + 1) with (Z.of_nat n) by lia. rewrite Z_mod_same_full.
      unfold rot. simpl. by rewrite app_nil_r.
    + left. split_and!; [lia|lia|]. done.
  - rewrite !decide_False by lia.
    pose proof (split_bits_app l) as Hs. pose proof (split_bits_ones l) as Ho.
    pose proof (second_chance_head l) as Hh. pose proof (second_chance_pages l) as Hp.
    unfold second_chance in *. destruct (split_bits l) as [ones rest]. cbn [fst snd] in *.
    destruct (clear_bits_ok ones rest (S (length (s_bit s))) (s_queue s) (s_bit s) (s_number s))
      as (b & q' & E & Hlb & Hle & Hr); try done; try lia.
    { by rewrite <- Hz. }
    { rewrite Hb, <- Hl, Hs, length_app. lia. }
    rewrite E. simpl. rewrite c_mod_mod by lia. simpl.
    pose proof (Z.mod_pos_bound q' (Z.of_nat n) ltac:(lia)).
    rewrite wr_ok by lia. simpl. eexists _, _, _. split; [done|].
    set (k := Z.to_nat (q' mod Z.of_nat n)) in *.
    set (l1 := rest ++ (clear_bit <$> ones)) in *.
    destruct (lookup_lt_is_Some_2 (zip (s_queue s) b) k) as [[x y] Hx]; [rewrite length_zip; lia|].
    pose proof (rot_head _ _ _ Hx) as Hrh. rewrite Hr in Hrh.
    assert (y = 0) as -> by (by apply (Hh (x, y) _ Hrh)).
    assert (length l1 = n) as Hl1.
    { rewrite <- Hr, rot_length, length_zip. lia. }
    unfold scr_rel. simpl. rewrite fmap_app, length_insert, length_app, length_tl. simpl.
    split_and!; [|done|done|right; split_and!; [lia|lia|]].
    + assert (NoDup l1.*1) as Hnd1 by (by rewrite Hp).
      rewrite Hrh in Hnd1, Hp. simpl in Hnd1. apply NoDup_cons in Hnd1 as [_ Hnd1].
      apply NoDup_app. split_and!; [done| |apply NoDup_singleton].
      intros z Hz1 ->%list_elem_of_singleton. apply Hv. rewrite <- Hp. simpl. by right.
    + apply zip_lookup in Hx as [_ Hb0]. simpl in Hb0.
      replace (zip (<[k:=v]> (s_queue s)) b) with (<[k:=(v, 0)]> (zip (s_queue s) b)).
      2:{ rewrite <- zip_insert. by rewrite (list_insert_id b). }
      replace (Z.to_nat ((q' + 1) mod Z.of_nat n)) with
        (S k mod length (zip (s_queue s) b))%nat.
      2:{ rewrite length_zip, Hq, Hlb, Nat.min_id, <- Zplus_mod_idemp_l.
          replace (q' mod Z.of_nat n) with (Z.of_nat k) by lia.
          replace (Z.of_nat k + 1) with (Z.of_nat (S k)) by lia.
          by rewrite <- Nat2Z.inj_mod, Nat2Z.id. }
      rewrite rot_insert_next by (rewrite length_zip; lia). by rewrite Hr.
Qed.

Lemma SCR_implements : ∃ r, SCR (Z.of_nat n) pr = Ok r ∧
  @implements _ (scr_policy n) n (references pr) r.
Proof.
  unfold SCR.
  edestruct (simulate (H := scr_policy n) n pr (scr_step (Z.of_nat n) pr) s_res scr_rel)
    as (s' & -> & Hi); [| |done|simpl; eauto].
  2:{ unfold scr_rel, new_table. simpl. rewrite Nat2Z.id, !length_replicate, Nat.sub_0_r.
      split_and!; [constructor|done|done|]. left. split_and!; [lia|done|].
      clear. by induction n as [|m IH]; simpl; [|rewrite IH]. }
  intros hist rest k s l Hr HR. pose proof (reference_not_free _ _ _ Hr) as Hv.
  set (v := pr (2 * k) - 48) in *. unfold scr_step. fold v.
  pose proof (scr_rel_holds _ _ _ HR) as Hh.
  rewrite find_dec. unfold pol_access. simpl.
  destruct (decide (v ∈ l.*1)) as [Hin|Hin].
  - rewrite bool_decide_true by (by apply (holds_elem _ l.*1)).
    destruct (scr_hit hist s l v (add_row (2 * k) (s_queue s) false (s_res s)) (hist ++ [v]) HR
      Hv Hin) as (b & -> & HR').
    eexists _, (s_queue s). simpl. split_and!; [done|done| |done].
    by apply (scr_rel_holds _ _ _ HR').
  - rewrite bool_decide_false by (by rewrite (holds_elem _ l.*1)).
    destruct (scr_miss hist s l v (s_res s) (hist ++ [v]) HR Hin) as (q & b & c & -> & HR').
    eexists _, q. simpl. split_and!; [done|done| |].
    + by apply (scr_rel_holds _ _ _ HR').
    + exact HR'.
Qed.
(** * LRU *)

(** Shifting [stack[0..hi]] down by one and storing [v] at the top. *)
Lemma shift_down_wr (hi : nat) stack v :
  (hi < length stack)%nat →
  (st ← shift_down (Z.of_nat hi) stack; wr st 0 v) =
    Ok (v :: take hi stack ++ drop (S hi) stack).
Proof.
  unfold shift_down, for_down. rewrite Z.sub_0_r, Nat2Z.id.
  induction hi as [|hi IH] in stack |- *; intros Hhi.
  - destruct stack as [|x stack]; simpl in *; [lia|]. rewrite wr_ok by (simpl; lia). done.
  - cbn [loop_from]. destruct (lookup_lt_is_Some_2 stack hi) as [x Hx]; [lia|].
    rewrite rd_getZ. replace (Z.of_nat (S hi) - 1) with (Z.of_nat hi) by lia.
    replace (Z.of_nat (S hi) + -1) with (Z.of_nat hi) by lia.
    rewrite getZ_of_nat, Hx. cbn [opt mbind res_bind]. rewrite wr_ok by lia.
    cbn [mbind res_bind]. rewrite Nat2Z.id.
    rewrite IH by (rewrite length_insert; lia). do 2 f_equal.
    rewrite take_insert_ge by lia. rewrite (take_S_r stack hi x) by done.
    rewrite <- app_assoc. f_equal. simpl.
    rewrite (drop_S _ x (S hi)) by (apply list_lookup_insert_eq; lia).
    f_equal. rewrite drop_insert_lt by lia. done.
Qed.

Lemma elem_of_take_in (v : Z) m l : v ∈ take m l → v ∈ l.
Proof. rewrite elem_of_take. intros (i & ? & _). by eapply list_elem_of_lookup_2. Qed.

Lemma filter_all (l : list Z) v : v ∉ l → filter (λ x, x ≠ v) l = l.
Proof.
  induction l as [|x l IH]; [done|]. intros Hv. apply not_elem_of_cons in Hv as [? ?].
  rewrite filter_cons_True by done. by rewrite IH.
Qed.

Lemma filter_nodup (l : list Z) i v :
  NoDup l → l !! i = Some v → filter (λ x, x ≠ v) l = take i l ++ drop (S i) l.
Proof.
  intros Hnd Hi. rewrite <- (take_drop_middle l i v Hi) in Hnd |- * at 1.
  apply NoDup_app in Hnd as (H1 & H2 & H3). apply NoDup_cons in H3 as [H3 H4].
  rewrite filter_app, filter_cons_False by naive_solver.
  f_equal; apply filter_all; [|done]. intros Hx. apply (H2 v Hx). by left.
Qed.

Lemma index_of_ok (q : list Z) v :
  length q = n → v ∈ q →
  ∃ i, index_of (Z.of_nat n) q v = Ok (Z.of_nat i) ∧ q !! i = Some v.
Proof.
  intros Hq [j Hj]%list_elem_of_lookup. pose proof (lookup_lt_Some _ _ _ Hj). unfold index_of.
  destruct (for_brk_inv (λ i _, ∀ k : nat, Z.of_nat k < i → q !! k ≠ Some v)
    (λ r, ∃ i, r = Z.of_nat i ∧ q !! i = Some v) 0 (Z.of_nat n) (λ i indx,
         w ← rd q i; Ok (if decide (w = v) then inr i else inl indx)) (-1))
    as (r & E & i & -> & Hi); [lia|lia| | |by eauto].
  - intros i z Hi Hb. destruct (getZ_is_Some q i) as [w Hw]; [lia|].
    rewrite rd_getZ, Hw. simpl. unfold getZ in Hw. rewrite decide_True in Hw by lia.
    case_decide as E.
    + right. exists i. split; [done|]. exists (Z.to_nat i). split; [lia|congruence].
    + left. exists z. split; [done|]. intros k Hk.
      destruct (decide (Z.of_nat k = i)) as [Ek|]; [|apply Hb; lia].
      replace k with (Z.to_nat i) by lia. congruence.
  - intros z Hb. exfalso. apply (Hb j); [lia|done].
Qed.

Lemma replace_first (page : list Z) victim v :
  length page = n → victim ∈ page →
  ∃ i, for_brk 0 (Z.of_nat n) (λ i page,
         w ← rd page i;
         if decide (w = victim) then page' ← wr page i v; Ok (inr page') else Ok (inl page)) page
       = Ok (<[i:=v]> page) ∧ page !! i = Some victim.
Proof.
  intros Hq [j Hj]%list_elem_of_lookup. pose proof (lookup_lt_Some _ _ _ Hj).
  destruct (for_brk_inv (λ i p, p = page ∧ ∀ k : nat, Z.of_nat k < i → page !! k ≠ Some victim)
    (λ r, ∃ i, r = <[i:=v]> page ∧ page !! i = Some victim) 0 (Z.of_nat n) (λ i page,
         w ← rd page i;
         if decide (w = victim) then page' ← wr page i v; Ok (inr page') else Ok (inl page)) page)
    as (r & E & i & -> & Hi); [lia|split; [done|lia]| | |by eauto].
  - intros i p Hi [-> Hb]. destruct (getZ_is_Some page i) as [w Hw]; [lia|].
    rewrite rd_getZ, Hw. simpl. unfold getZ in Hw. rewrite decide_True in Hw by lia.
    case_decide as E.
    + right. rewrite wr_ok by lia. simpl. eexists. split; [done|]. exists (Z.to_nat i).
      split; [done|congruence].
    + left. eexists. split; [done|]. split; [done|]. intros k Hk.
      destruct (decide (Z.of_nat k = i)) as [Ek|]; [|apply Hb; lia].
      replace k with (Z.to_nat i) by lia. congruence.
  - intros p [_ Hb]. exfalso. apply (Hb j); [lia|done].
Qed.

(** While filling, the page table is the pages in order of arrival and the
    stack the same in reverse; once full the stack is the recency list. *)
Definition lru_rel (hist : list Z) (s : lru) (l : list Z) : Prop :=
  NoDup l ∧ length (l_page s) = n ∧
  (((length l < n)%nat ∧ l = reverse hist ∧ l_page s = padded n hist ∧
    l_stack s = padded n l ∧ l_number s = Z.of_nat (length l)) ∨
   (length l = n ∧ l_page s ≡ₚ l ∧ l_stack s = l ∧ Z.of_nat n ≤ l_number s)).

Lemma lru_rel_holds hist s l : lru_rel hist s l → holds n (l_page s) l.
Proof.
  intros (_ & _ & [(_ & -> & -> & _)|(Hl & Hp & _)]); unfold holds.
  - unfold padded. rewrite length_reverse. by rewrite reverse_Permutation.
  - rewrite Hl, Nat.sub_diag. simpl. by rewrite app_nil_r.
Qed.

Lemma lru_hit hist s l v r hist' :
  lru_rel hist s l → v ∈ l → length l = n →
  ∃ stack, stack_update (Z.of_nat n) (l_stack s) (l_number s) v = Ok stack ∧
    lru_rel hist' (Lru (l_page s) stack (l_number s) r) (v :: filter (λ x, x ≠ v) l).
Proof.
  intros (Hnd & Hlp & [(? & _)|(Hl & Hp & -> & Hk)]) Hin Hfull; [lia|].
  unfold stack_update. rewrite decide_False by lia. rewrite find_dec, bool_decide_true by done.
  destruct (index_of_ok l v) as (i & -> & Hi); [done..|]. cbn [mbind res_bind].
  rewrite rd_getZ, getZ_of_nat, Hi. cbn [opt mbind res_bind].
  rewrite shift_down_wr by (by eapply lookup_lt_Some). eexists. split; [done|].
  rewrite (filter_nodup l i v) by done.
  assert (v :: take i l ++ drop (S i) l ≡ₚ l) as Hperm.
  { rewrite <- (take_drop_middle l i v Hi) at 3. by rewrite Permutation_middle. }
  unfold lru_rel. simpl l_page. simpl l_stack. simpl l_number.
  split_and!; [by rewrite Hperm|done|]. right. split_and!; [by rewrite Hperm| |done|done].
  by rewrite Hperm.
Qed.

Lemma lru_miss hist s l v r :
  lru_rel hist s l → v ∉ l → v ≠ -1 →
  ∃ page stack stack', page_change (Z.of_nat n) (l_page s) (l_stack s) (l_number s) v = Ok (page, stack) ∧
    stack_update (Z.of_nat n) stack (l_number s) v = Ok stack' ∧
    lru_rel (hist ++ [v]) (Lru page stack' (l_number s + 1) r)
      (v :: (if decide (length l < n)%nat then l else take (n - 1) l)).
Proof.
  intros (Hnd & Hlp & [(Hl & Hh & Hp & Hs & Hk)|(Hl & Hp & Hs & Hk)]) Hin Hv;
    unfold page_change, stack_update; rewrite ?Hs, ?Hk, ?Hp.
  - assert (length hist = length l) as Hlh by (by rewrite Hh, length_reverse).
    rewrite !decide_True by lia. rewrite wr_ok by (rewrite padded_length; lia).
    cbn [mbind res_bind]. rewrite Nat2Z.id, <- Hlh, padded_insert by lia.
    eexists _, _, _. split; [done|].
    rewrite decide_True, Hlh, shift_down_wr by (rewrite ?padded_length; lia). split; [reflexivity|].
    assert (v :: take (length l) (padded n l) ++ drop (S (length l)) (padded n l) =
      padded n (v :: l)) as ->.
    { unfold padded. rewrite take_app_le, take_ge by lia. simpl. f_equal. f_equal.
      rewrite drop_app_ge by lia.
      replace (S (length l) - length l)%nat with 1%nat by lia.
      rewrite drop_replicate. f_equal. lia. }
    unfold lru_rel. simpl l_page. simpl l_stack. simpl l_number.
    split_and!; [by apply NoDup_cons|apply padded_length; rewrite length_app; simpl; lia|].
    destruct (decide (S (length l) = n)) as [E|].
    + right. simpl. rewrite !padded_full by (rewrite ?length_app; simpl; lia).
      split_and!; [done| |done|lia]. rewrite Hh, reverse_Permutation.
      by rewrite Permutation_app_comm.
    + left. simpl. split_and!; [lia| |done|done|lia]. by rewrite Hh, reverse_snoc.
  - rewrite !decide_False by lia. assert (length (take (n - 1) l) = n - 1)%nat as Hlt
      by (rewrite length_take; lia).
    destruct (lookup_lt_is_Some_2 l (n - 1)) as [victim Hvic]; [lia|].
    rewrite rd_getZ. replace (Z.of_nat n - 1) with (Z.of_nat (n - 1)) by lia.
    rewrite getZ_of_nat, Hvic. cbn [opt mbind res_bind].
    destruct (replace_first (l_page s) victim v) as (i & -> & Hi); [done| |].
    { rewrite Hp. by eapply list_elem_of_lookup_2. }
    cbn [mbind res_bind].
    pose proof (shift_down_wr (n - 1) l v) as Hsh. rewrite (drop_ge l), app_nil_r in Hsh by lia.
    destruct (shift_down (Z.of_nat (n - 1)) l) as [st| |]; cbn [mbind res_bind] in *;
      try (specialize (Hsh ltac:(lia)); done).
    rewrite Hsh by lia. cbn [mbind res_bind]. eexists _, _, _. split; [done|].
    rewrite decide_False by lia. rewrite find_dec, bool_decide_true by (by left).
    destruct (index_of_ok (v :: take (n - 1) l) v) as (j & -> & Hj); [simpl; lia|by left|].
    cbn [mbind res_bind].
    assert (j = 0%nat) as ->.
    { destruct j as [|j]; [done|]. simpl in Hj. exfalso. apply Hin.
      apply list_elem_of_lookup_2 in Hj. by eapply elem_of_take_in. }
    rewrite rd_getZ, getZ_of_nat. cbn [lookup list_lookup opt mbind res_bind].
    rewrite (shift_down_wr 0) by (simpl; lia). split; [done|].
    unfold lru_rel. simpl l_page. simpl l_stack. simpl l_number.
    split_and!.
    + apply NoDup_cons. split; [|eapply sublist_NoDup; [done|apply sublist_take]]. intros ?%elem_of_take_in. done.
    + by rewrite length_insert.
    + right. simpl. split_and!; [lia| |done|lia].
      rewrite insert_take_drop by (by eapply lookup_lt_Some).
      rewrite <- Permutation_middle. f_equiv.
      apply (Permutation_cons_inv (a := victim)). rewrite Permutation_middle.
      rewrite take_drop_middle by done. rewrite Hp.
      rewrite <- (take_drop_middle l (n - 1) victim Hvic) at 1.
      rewrite (drop_ge l) by lia. by rewrite Permutation_app_comm.
Qed.

Lemma LRU_implements : NoDup (take n (references pr)) →
  ∃ r, LRU (Z.of_nat n) pr = Ok r ∧ @implements _ (lru_policy n) n (references pr) r.
Proof.
  intros Hfill. unfold LRU.
  edestruct (simulate (H := lru_policy n) n pr (lru_step (Z.of_nat n) pr) l_res lru_rel)
    as (s' & -> & Hi); [| |done|simpl; eauto].
  2:{ unfold lru_rel, new_table. simpl. rewrite Nat2Z.id, !length_replicate, padded_nil.
      split_and!; [constructor|done|]. left. split_and!; [lia|done..]. }
  intros hist rest k s l Hr HR. pose proof (reference_not_free _ _ _ Hr) as Hv.
  set (v := pr (2 * k) - 48) in *. unfold lru_step. fold v.
  pose proof (lru_rel_holds _ _ _ HR) as Hh.
  rewrite find_dec. unfold pol_access. simpl. unfold id.
  destruct (decide (v ∈ l)) as [Hin|Hin].
  - rewrite bool_decide_true by (by apply (holds_elem _ l)).
    destruct (decide (length l = n)) as [Hl|Hl].
    + destruct (lru_hit hist s l v (add_row (2 * k) (l_page s) false (l_res s)) (hist ++ [v])
        HR Hin Hl) as (st & -> & HR').
      eexists _, (l_page s). simpl. split_and!; [done|done| |done].
      by apply (lru_rel_holds _ _ _ HR').
    + exfalso. destruct HR as (_ & _ & [(? & -> & _)|(? & _)]); [|lia].
      rewrite length_reverse in *. rewrite Hr, take_app_ge in Hfill by lia.
      replace (n - length hist)%nat with (S (n - length hist - 1)) in Hfill by lia.
      apply NoDup_app in Hfill as (_ & Hd & _). apply (Hd v); [by apply elem_of_reverse|by left].
  - rewrite bool_decide_false by (by rewrite (holds_elem _ l)).
    destruct (lru_miss hist s l v (l_res s) HR Hin Hv) as (page & st & st' & -> & E & HR').
    simpl. rewrite E. simpl. eexists _, page. simpl. split_and!; [done|done| |exact HR'].
    by apply (lru_rel_holds _ _ _ HR').
Qed.
End policies.

(** * The number of references *)

Lemma string_get_ge s k : (String.length s ≤ k)%nat → string_get s k = None.
Proof. induction s as [|c s IH] in k |- *; [by destruct k|]. destruct k; simpl; [lia|]. intros. apply IH. lia. Qed.

Lemma fgets_length size s line rest :
  fgets size s = Some (line, rest) → (String.length line ≤ size - 1)%nat.
Proof.
  unfold fgets. case_decide; [done|]. intros [= E]. revert E.
  generalize (size - 1)%nat as k. clear.
  intros k. induction k as [|k IH] in s, line, rest |- *; [by intros [= <- <-]|].
  destruct s as [|c s]; simpl; [by intros [= <- <-]; simpl; lia|].
  case_decide; [intros [= <- <-]; simpl; lia|].
  destruct (fgets_go k s) as [a b] eqn:E. intros [= <- <-]. simpl. apply IH in E. lia.
Qed.

Lemma word_at_beyond s i : (String.length s ≤ 64)%nat → 16 ≤ i → word_at s i = 0.
Proof.
  intros Hs Hi. unfold word_at, byte_at.
  rewrite !string_get_ge by lia. done.
Qed.

Lemma refs_from_zero pr k c n : k ≤ n → pr (2 * n) = 0 → Z.of_nat (length (refs_from pr k c)) ≤ n - k.
Proof.
  intros Hk Hz. induction c as [|c IH] in k, Hk |- *; simpl; [lia|].
  case_decide; simpl; [lia|]. destruct (decide (k = n)) as [->|]; [congruence|].
  specialize (IH (k + 1) ltac:(lia)). lia.
Qed.

Lemma read_input_text file : (String.length (read_input file).2 ≤ 61)%nat.
Proof.
  unfold read_input. destruct (match scan_int file with Some _ => _ | None => _ end) as [pf rest].
  destruct (fgets 62 rest) as [[t r]|] eqn:E; simpl; [|lia]. by apply fgets_length in E.
Qed.

Lemma references_le_8 beyond file :
  (length (references (elem_at beyond (read_input file).2)) ≤ 8)%nat.
Proof.
  pose proof (read_input_text file). unfold references.
  pose proof (refs_from_zero (elem_at beyond (read_input file).2) 0 31 8 ltac:(lia)) as Hl.
  specialize (Hl ltac:(unfold elem_at; rewrite decide_True by lia; apply word_at_beyond; lia)).
  lia.
Qed.

(** A routine prints one row for each reference. *)
Lemma loop_rows {S} pr (step : Z → S → res S) (out : S → result) s s' :
  (∀ i s s', step i s = Ok s' → length (res_rows (out s')) = (length (res_rows (out s)) + 1)%nat) →
  reference_loop pr step s = Ok s' →
  length (res_rows (out s')) = (length (res_rows (out s)) + length (references pr))%nat.
Proof.
  intros Hstep. unfold reference_loop, for_brk, references. change (Z.to_nat (31 - 0)) with 31%nat.
  enough (∀ c k s, loop_brk c k 1 (λ k s, if decide (pr (2 * k) = 0) then Ok (inr s)
      else s' ← step (2 * k) s; Ok (inl s')) s = Ok s' →
    length (res_rows (out s')) = (length (res_rows (out s)) + length (refs_from pr k c))%nat)
    as H by apply H.
  intros c. induction c as [|c IH]; intros k s1; cbn [loop_brk refs_from];
    [intros [= <-]; simpl; lia|].
  case_decide; cbn [mbind res_bind]; [intros [= <-]; simpl; lia|].
  intros (r & Hr & E)%res_bind_ok_inv. apply res_bind_ok_inv in Hr as (s2 & Hs & [= <-]).
  apply IH in E. apply Hstep in Hs. simpl. lia.
Qed.

Lemma add_row_rows i frames b r : length (res_rows (add_row i frames b r)) = (length (res_rows r) + 1)%nat.
Proof. unfold add_row. simpl. by rewrite length_app. Qed.

Ltac one_row :=
  intros i s s' Hs;
  repeat (case_match || match goal with
    | H : (_ ≫= _) = Ok _ |- _ => apply res_bind_ok_inv in H as (? & ? & H)
    | H : Ok _ = Ok _ |- _ => injection H as <-
    end); simplify_eq; apply add_row_rows.

Lemma rows_references page_frame pr prc r :
  FIFO page_frame pr = Ok r ∨ LRU page_frame pr = Ok r ∨ SCR page_frame pr = Ok r ∨
  OPT page_frame pr prc = Ok r →
  length (res_rows r) = length (references pr).
Proof.
  unfold FIFO, LRU, SCR, OPT. intros [H|[H|[H|H]]]; bind_inv; subst.
  - by eapply (loop_rows pr _ f_res) in H0; [|unfold fifo_step; one_row].
  - by eapply (loop_rows pr _ l_res) in H0; [|unfold lru_step; one_row].
  - by eapply (loop_rows pr _ s_res) in H0; [|unfold scr_step; one_row].
  - by eapply (loop_rows pr _ o_res) in H1; [|unfold opt_step; one_row].
Qed.

(** * Properties *)

(** On every reference string without the free-frame value -1 and at
    least one frame, FIFO is total and its table is that of the first-in
    first-out policy: the same faults, the same resident pages after each
    reference, and the same fault count. *)
Theorem FIFO_correct pr n :
  (1 ≤ n)%nat → Forall (λ v, v ≠ -1) (references pr) →
  ∃ r, FIFO (Z.of_nat n) pr = Ok r ∧ @implements _ (fifo_policy n) n (references pr) r.
Proof. intros. by apply FIFO_implements. Qed.

(** SCR is total under the same conditions (its clearing loop always
    finds a page without a reference bit) and its table is that of the second
    chance policy. *)
Theorem SCR_correct pr n :
  (1 ≤ n)%nat → Forall (λ v, v ≠ -1) (references pr) →
  ∃ r, SCR (Z.of_nat n) pr = Ok r ∧ @implements _ (scr_policy n) n (references pr) r.
Proof. intros. by apply SCR_implements. Qed.

(** LRU is total and its table is that of the least-recently-used policy
    when no page is referenced twice before the frames are full. *)
Theorem LRU_correct pr n :
  (1 ≤ n)%nat → Forall (λ v, v ≠ -1) (references pr) → NoDup (take n (references pr)) →
  ∃ r, LRU (Z.of_nat n) pr = Ok r ∧ @implements _ (lru_policy n) n (references pr) r.
Proof. intros. by apply LRU_implements. Qed.

Lemma holds_find m frames pages v : holds m frames pages → v ∈ pages → find frames v = true.
Proof. unfold holds. rewrite find_elem. intros ->. rewrite elem_of_app. by left. Qed.

(** An input whose eight words are 1 2 3 3 3 4 5 6. *)
Definition refill_text : string :=
  "1       2       3       3       3       4       5       6    ".

Definition refill : Z → Z := elem_at (λ _, 0) refill_text.

(** What LRU prints, and what least-recently-used would keep at the end. *)
Definition refill_lru : result :=
  Eval vm_compute in match LRU 4 refill with Ok r => r | _ => Result [] 0 end.
Definition refill_row : row :=
  Eval vm_compute in match res_rows refill_lru !! 7%nat with Some r => r | None => Row 0 [] false end.
Definition refill_pages : list Z :=
  Eval vm_compute in
    match @pol_run _ (lru_policy 4) (references refill) [] !! 7%nat with
    | Some p => p.2 | None => [] end.

Definition row_of (pr : Z → Z) (page_frame : Z) (k : nat) : option row :=
  match LRU page_frame pr with Ok r => res_rows r !! k | _ => None end.

(** When a page is referenced again while frames are free, LRU stops
    being least-recently-used: with four frames and the references 1 2 3 3 3
    4 5 6, the last one faults and yet no frame receives it, and the table is
    not the policy's. *)
Theorem LRU_hit_while_filling :
  (∃ r, LRU 4 refill = Ok r ∧ ¬ @implements _ (lru_policy 4) 4 (references refill) r) ∧
  ∃ row, row_of refill 4 7 = Some row ∧
    r_fault row = true ∧ find (r_frames row) (refill 14 - 48) = false.
Proof.
  split.
  - exists refill_lru. split; [vm_compute; reflexivity|]. intros [[_ Ht] _].
    specialize (Ht 7%nat refill_row (true, refill_pages) eq_refl). destruct Ht as (_ & _ & Hh).
    { vm_compute. reflexivity. }
    pose proof (holds_find 4 _ _ (refill 14 - 48) Hh) as H.
    rewrite <- find_elem in H. vm_compute in H. by specialize (H eq_refl).
  - exists refill_row. split_and!; [vm_compute; reflexivity|done|vm_compute; reflexivity].
Qed.

(** Whatever the input file holds, each of the four tables has at most 8
    rows: the 62-character reference string is read through an array of
    4-byte ints, so references past the eighth are never simulated. *)
Theorem at_most_eight_references beyond file r :
  let '(page_frame, text) := read_input file in
  let pr := elem_at beyond text in
  FIFO page_frame pr = Ok r ∨ LRU page_frame pr = Ok r ∨ SCR page_frame pr = Ok r ∨
  OPT page_frame pr (char_at text) = Ok r →
  (length (res_rows r) ≤ 8)%nat.
Proof.
  pose proof (references_le_8 beyond file) as Hl. destruct (read_input file) as [pf text].
  intros pr H. by rewrite (rows_references pf pr (char_at text) r H).
Qed.

(** * Witnesses *)

Lemma FIFO_correct_witness :
  ∃ r, FIFO 3 refill = Ok r ∧ @implements _ (fifo_policy 3) 3 (references refill) r.
Proof.
  apply (FIFO_correct refill 3); [lia|]. by_decision.
Defined.

Lemma SCR_correct_witness :
  ∃ r, SCR 3 refill = Ok r ∧ @implements _ (scr_policy 3) 3 (references refill) r.
Proof.
  apply (SCR_correct refill 3); [lia|]. by_decision.
Defined.

Lemma LRU_correct_witness :
  ∃ r, LRU 3 refill = Ok r ∧ @implements _ (lru_policy 3) 3 (references refill) r.
Proof.
  apply (LRU_correct refill 3); [lia| |]; by_decision.
Defined.

Definition refill_file : string := String "4"%char (String newline refill_text).

Lemma at_most_eight_references_witness :
  (length (res_rows refill_lru) ≤ 8)%nat.
Proof.
  apply (at_most_eight_references (λ _, 0) refill_file refill_lru). right. left.
  vm_compute. reflexivity.
Defined.
