(* ===== verification/Crossroad.v ===== *)
(** The crossroad simulation of assignment 6
    (src/과제/OS과제/과제6/20172688_최재성_과제6_소스코드.c): the set of waiting
    vehicles, the turn of a thread, and the interleavings of the four threads
    and [main] as a step relation, with and without wake-ups that no signal
    has caused. *)
From S2P Require Import Prelude.
Local Open Scope Z_scope.

(** * State

    Where a thread is: [TLoop] at the head of its [while(true)], [TWait]
    inside [pthread_cond_wait], [TReady] woken up, [TGo] at the label [GO],
    [THalf] in the second [usleep] of its turn, [TExit] after
    [pthread_exit]. A thread only ever takes its own mutex, so a lock never
    blocks. *)
Inductive pc : Set := TLoop | TWait | TReady | TGo | THalf | TExit.

#[global] Instance pc_eq_dec : EqDecision pc.
Proof. solve_decision. Defined.

(** What the simulation prints. *)
Inductive event : Set :=
  | MovingCar (tick passed : Z)
  | WaitingList (cars : list Z).

Record cross := Cross {
  tick : Z;
  indx : Z;
  P : Z → Z;          (** [P1] .. [P4] *)
  passed : Z;
  arr : list Z;       (** [s.arr] *)
  howMany : Z;        (** [s.howMany] *)
  pcs : Z → pc;       (** the threads 1 .. 4 *)
  started : bool;     (** [main] has signalled the first thread *)
  log : list event;
}.

Definition total (st : cross) : Z := P st 1 + P st 2 + P st 3 + P st 4.

Definition set_pc (k : Z) (c : pc) (st : cross) : cross :=
  Cross (tick st) (indx st) (P st) (passed st) (arr st) (howMany st)
        (<[k := c]> (pcs st)) (started st) (log st).

Definition set_items (arr : list Z) (howMany : Z) (st : cross) : cross :=
  Cross (tick st) (indx st) (P st) (passed st) arr howMany (pcs st) (started st) (log st).

(** * The set of waiting vehicles *)

(** [add]ed only while vehicles remain to arrive; [input] is their number. *)
Definition addSet (input add : Z) (st : cross) : res cross :=
  if decide (indx st < input) then
    arr' ← wr (arr st) (howMany st) add;
    Ok (Cross (tick st) (indx st + 1) (P st) (passed st) arr' (howMany st + 1)
              (pcs st) (started st) (log st))
  else Ok st.

(** [for(j=i;j<howMany-1;j++) arr[j] = arr[j+1];] *)
Definition shift_left (i howMany : Z) (arr : list Z) : res (list Z) :=
  for_up i (howMany - 1) (λ j arr, v ← rd arr (j + 1); wr arr j v) arr.

(** [rnd] is what [rand()] returns; an empty set leaves [ret] unset. *)
Definition getItem (rnd : Z) (st : cross) : res (option Z * cross) :=
  if decide (howMany st ≠ 0) then
    let ret_index := Z.rem rnd (howMany st) in
    ret ← rd (arr st) ret_index;
    arr' ← shift_left ret_index (howMany st) (arr st);
    Ok (Some ret, set_items arr' (howMany st - 1) st)
  else Ok (None, st).

Definition isEmpty (st : cross) : bool := bool_decide (howMany st ≤ 0).

(** The first index below [howMany] that holds [n]. *)
Definition search (n : Z) (st : cross) : res (option Z) :=
  for_brk 0 (howMany st) (λ i o,
    v ← rd (arr st) i; Ok (if decide (v = n) then inr (Some i) else inl o)) None.

Definition find (n : Z) (st : cross) : res bool :=
  o ← search n st; Ok (bool_decide (is_Some o)).

Definition removeItem (n : Z) (st : cross) : res cross :=
  o ← search n st;
  arr' ← match o with
         | Some i => shift_left i (howMany st) (arr st)
         | None => Ok (arr st)
         end;
  Ok (set_items arr' (if decide (0 < howMany st) then howMany st - 1 else howMany st) st).

(** * Output *)

Definition printMovingCar (st : cross) : cross :=
  Cross (tick st) (indx st) (P st) 0 (arr st) (howMany st) (pcs st) (started st)
        (log st ++ [MovingCar (tick st) (passed st)]).

Definition printWaitingList (st : cross) : cross :=
  Cross (tick st) (indx st) (P st) (passed st) (arr st) (howMany st) (pcs st) (started st)
        (log st ++ [WaitingList (if decide (1 < tick st)
                                 then take (Z.to_nat (howMany st)) (arr st) else [])]).

Definition print_both (st : cross) : cross := printWaitingList (printMovingCar st).

(** * The threads *)

(** [pthread_cond_signal(&cond<k>)]: only a thread that waits is woken. *)
Definition signal (k : Z) (st : cross) : cross :=
  if decide (pcs st k = TWait) then set_pc k TReady st else st.

(** The start point on the other side of the crossroad. *)
Definition opposite (k : Z) : Z := if decide (k ≤ 2) then k + 2 else k - 2.

Section threads.
(** [starts] is [start_list], [past i] the memory behind its end. *)
Context (starts : list Z) (past : Z → Z).

Definition input : Z := Z.of_nat (length starts).
Definition start_at (i : Z) : Z := match getZ starts i with Some v => v | None => past i end.

(** [tick++; P<k>++; passed = k;] and the arrival of the next vehicle. *)
Definition cross_one (k : Z) (st : cross) : res cross :=
  let st := print_both st in
  let st := Cross (tick st + 1) (indx st) (<[k := P st k + 1]> (P st)) (passed st) (arr st)
                  (howMany st) (pcs st) (started st) (log st) in
  st ← addSet input (start_at (indx st)) st;
  Ok (Cross (tick st) (indx st) (P st) k (arr st) (howMany st) (pcs st) (started st) (log st)).

(** From the label [GO] up to the signal to the opposite thread, or up to
    the second [usleep]. *)
Definition first_half (k : Z) (st : cross) : res cross :=
  st ← cross_one k st;
  b ← find (opposite k) st;
  if b : bool then
    st ← removeItem (opposite k) st;
    Ok (set_pc k TLoop (signal (opposite k) st))
  else Ok (set_pc k THalf (print_both st)).

(** From the second [usleep] to the next signal, to [GO] or to the exit. *)
Definition second_half (k rnd : Z) (st : cross) : res cross :=
  let st := Cross (tick st + 1) (indx st) (P st) (passed st) (arr st) (howMany st) (pcs st)
                  (started st) (log st) in
  st ← addSet input (start_at (indx st)) st;
  '(item, st) ← getItem rnd st;
  if decide (total st = input) then
    let st := print_both st in
    Ok (set_pc k TExit (foldl (λ st j, signal j st) st (filter (λ j, j ≠ k) [1; 2; 3; 4])))
  else
    item ← opt Uninitialised item;
    if decide (item = k) then Ok (set_pc k TGo st)
    else Ok (set_pc k TLoop (signal item st)).

(** The next step of thread [k], [None] while it cannot run. *)
Definition thread_function (k rnd : Z) (st : cross) : option (res cross) :=
  match pcs st k with
  | TLoop => Some (Ok (set_pc k TWait st))
  | TReady => Some (if decide (total st = input) then Ok (set_pc k TExit st)
                    else first_half k st)
  | TGo => Some (first_half k st)
  | THalf => Some (second_half k rnd st)
  | TWait | TExit => None
  end.

(** [main] after the creation of the threads: the signal to the first one. *)
Definition main_signal (st : cross) : cross :=
  let st := signal (start_at 0) st in
  Cross (tick st) (indx st) (P st) (passed st) (arr st) (howMany st) (pcs st) true (log st).

Definition init : cross :=
  Cross 1 1 (λ _, 0) 0 (replicate 15 0) 0 (λ _, TLoop) false [].

(** [pthread_cond_wait] may return without a signal, and the threads do not
    look whether they were meant. *)
Definition spurious_wakeup (k : Z) (st : cross) : option cross :=
  if decide (pcs st k = TWait) then Some (set_pc k TReady st) else None.

(** The executions, with such wake-ups or without them. *)
Inductive step (spurious : bool) : cross → cross → Prop :=
  | step_main st : started st = false → step spurious st (main_signal st)
  | step_thread k rnd st st' :
      1 ≤ k ≤ 4 → 0 ≤ rnd → thread_function k rnd st = Some (Ok st') → step spurious st st'
  | step_spurious k st st' :
      spurious = true → 1 ≤ k ≤ 4 → spurious_wakeup k st = Some st' → step spurious st st'.

Definition reachable (spurious : bool) : cross → Prop := rtc (step spurious) init.

(** [main] returns from the four [pthread_join]s. *)
Definition finished (st : cross) : Prop := ∀ k, 1 ≤ k ≤ 4 → pcs st k = TExit.

(** A schedule: 0 is [main], [k] thread [k], with the value of [rand()], and
    [-k] a wake-up of thread [k] without a signal. *)
Fixpoint run (spurious : bool) (sched : list (Z * Z)) (st : cross) : option (res cross) :=
  match sched with
  | [] => Some (Ok st)
  | (k, rnd) :: sched =>
      r ← (if decide (k = 0)
           then if started st then None else Some (Ok (main_signal st))
           else if decide (1 ≤ k ≤ 4 ∧ 0 ≤ rnd) then thread_function k rnd st
           else if decide (spurious = true ∧ 1 ≤ - k ≤ 4) then Ok <$> spurious_wakeup (- k) st else None);
      match r with Ok st' => run spurious sched st' | _ => Some r end
  end.
End threads.

(** [start_list[i] = rand() % 4 + 1;] *)
Definition make_starts (rnds : list Z) : list Z := (λ r, Z.rem r 4 + 1) <$> rnds.
