(* ===== verification/CrossroadProofs.v ===== *)
(** The crossroad simulation: the set of waiting vehicles as a list, the
    invariant of the reachable states, and what follows from it. *)
From S2P Require Import Prelude Crossroad.
Local Open Scope Z_scope.

(** * Specification *)

(** The vehicles in the set, in the order of the array. *)
Definition items (st : cross) : list Z := take (Z.to_nat (howMany st)) (arr st).

Definition cnt (k : Z) (l : list Z) : Z := Z.of_nat (length (filter (λ x, x = k) l)).

Definition idle (c : pc) : Prop := c = TLoop ∨ c = TWait.
Definition crossing (c : pc) : Prop := c = TReady ∨ c = TGo ∨ c = THalf.

(** No step is possible. *)
Definition stuck (starts : list Z) (past : Z → Z) (st : cross) : Prop :=
  ∀ st', ¬ step starts past false st st'.

(** The steps of executions in which a thread runs its turn only when every
    other thread has reached its wait. *)
Definition eager_step (starts : list Z) (past : Z → Z) (st st' : cross) : Prop :=
  step starts past false st st' ∧
  ((∃ k, 1 ≤ k ≤ 4 ∧ pcs st k = TLoop ∧ st' = set_pc k TWait st) ∨
   (∀ k, 1 ≤ k ≤ 4 → pcs st k ≠ TLoop)).

Section invariant.
Context (starts : list Z) (past : Z → Z).
Hypothesis Hvalid : Forall (λ v, 1 ≤ v ≤ 4) starts.

Abbreviation n := (input starts).

(** ** The counts

    [fl] holds the vehicle whose turn was announced, [b] bounds the set. *)
Record Core (fl : list Z) (b : Z) (st : cross) : Prop := {
  core_arr : length (arr st) = 15%nat;
  core_many : 0 ≤ howMany st ≤ 15;
  core_indx : 1 ≤ indx st ≤ n;
  core_counts : ∀ k, 1 ≤ k ≤ 4 →
    P st k + cnt k (items st ++ fl) = cnt k (take (Z.to_nat (indx st)) starts);
  core_items : Forall (λ v, 1 ≤ v ≤ 4) (items st ++ fl);
  core_total : total st + howMany st + Z.of_nat (length fl) = indx st;
  core_bound : howMany st ≤ total st + b;
}.

Definition same (st st' : cross) : Prop :=
  P st' = P st ∧ pcs st' = pcs st ∧ started st' = started st.

Lemma cnt_app k l1 l2 : cnt k (l1 ++ l2) = cnt k l1 + cnt k l2.
Proof. unfold cnt. rewrite filter_app, length_app. lia. Qed.

Lemma cnt_perm k l1 l2 : l1 ≡ₚ l2 → cnt k l1 = cnt k l2.
Proof. unfold cnt. by intros ->. Qed.

Lemma cnt_one k v : cnt k [v] = if decide (v = k) then 1 else 0.
Proof. unfold cnt. case_decide; [by rewrite filter_cons_True|by rewrite filter_cons_False]. Qed.

Lemma items_length st : length (arr st) = 15%nat → 0 ≤ howMany st ≤ 15 →
  Z.of_nat (length (items st)) = howMany st.
Proof. intros. unfold items. rewrite length_take. lia. Qed.

(** The counts only read part of the state. *)
Lemma core_ext fl b b' st st' :
  Core fl b st → arr st' = arr st → howMany st' = howMany st → indx st' = indx st →
  P st' = P st → b ≤ b' → Core fl b' st'.
Proof.
  intros [H1 H2 H3 H4 H5 H6 H7] Ea Eh Ei EP ?. unfold items, total in *.
  constructor; unfold items, total; rewrite ?Ea, ?Eh, ?Ei, ?EP; auto; lia.
Qed.

(** ** The set operations *)

Lemma addSet_ok fl b st :
  Core fl b st →
  (∃ st', addSet n (start_at starts past (indx st)) st = Ok st' ∧ Core fl (b + 1) st' ∧
     same st st' ∧ (howMany st' ≠ 0 ∨ indx st' = n)) ∨
  (addSet n (start_at starts past (indx st)) st = Undef OutOfBounds ∧
   howMany st = 15 ∧ indx st < n).
Proof.
  intros [H1 H2 H3 H4 H5 H6 H7]. unfold addSet. case_decide as Hi.
  2:{ left. exists st. split; [done|]. split_and!; [|done|right; lia].
      by constructor; try done; lia. }
  destruct (decide (howMany st = 15)) as [E|E].
  { right. split; [|done]. unfold wr. rewrite decide_False by lia. done. }
  left. rewrite wr_ok by lia. simpl. eexists. split; [done|].
  destruct (getZ_is_Some starts (indx st)) as [v Hv]; [unfold input in *; lia|].
  unfold start_at. rewrite Hv. unfold getZ in Hv. rewrite decide_True in Hv by lia.
  assert (items (Cross (tick st) (indx st + 1) (P st) (passed st)
    (<[Z.to_nat (howMany st):=v]> (arr st)) (howMany st + 1) (pcs st) (started st) (log st)) =
    items st ++ [v]) as Hit.
  { unfold items. simpl. rewrite Z2Nat.inj_add by lia. rewrite Nat.add_1_r.
    erewrite take_S_r by (apply list_lookup_insert_eq; lia).
    by rewrite take_insert_ge by lia. }
  split_and!; [|done|left; simpl; lia].
  constructor; simpl; rewrite ?Hit; try done; try lia.
  - by rewrite length_insert.
  - intros k Hk. rewrite Z2Nat.inj_add by lia. rewrite Nat.add_1_r.
    erewrite take_S_r by done. specialize (H4 k Hk). rewrite !cnt_app in *. lia.
  - rewrite !Forall_app in *. destruct H5. split_and!; try done.
    apply Forall_singleton. by eapply Forall_lookup_1 in Hvalid.
  - unfold total in *. simpl. lia.
  - unfold total in *. simpl. lia.
Qed.

Lemma shift_left_ok i h (l : list Z) :
  0 ≤ i < h → h ≤ Z.of_nat (length l) →
  ∃ l', shift_left i h l = Ok l' ∧ length l' = length l ∧
    take (Z.to_nat (h - 1)) l' =
      take (Z.to_nat i) l ++ drop (S (Z.to_nat i)) (take (Z.to_nat h) l).
Proof.
  intros Hi Hh. unfold shift_left.
  run_up (λ (j : Z) (l' : list Z), length l' = length l ∧ ∀ x : nat,
    l' !! x = if decide (Z.of_nat x < i) then l !! x
              else if decide (Z.of_nat x < j) then l !! S x else l !! x).
  - lia.
  - split; [done|]. intros x. by repeat case_decide; try lia.
  - intros j l' Hj [Hl Hx]. rewrite rd_getZ.
    destruct (getZ_is_Some l' (j + 1)) as [v Hv]; [lia|]. rewrite Hv. simpl.
    rewrite wr_ok by lia. eexists. split; [done|]. split; [by rewrite length_insert|].
    intros x. unfold getZ in Hv. rewrite decide_True in Hv by lia.
    destruct (decide (Z.to_nat j = x)) as [<-|Hne].
    + rewrite list_lookup_insert_eq by lia. rewrite decide_False, decide_True by lia.
      rewrite <- Hv, Hx, !decide_False by lia. f_equal. lia.
    + rewrite list_lookup_insert_ne by done. rewrite Hx.
      repeat case_decide; try lia; done.
  - destruct H as [Hl Hx]. eexists. split; [done|]. split; [done|].
    apply list_eq. intros y. destruct (decide (y < Z.to_nat (h - 1))%nat) as [Hy|Hy].
    + rewrite lookup_take_lt, Hx by lia. destruct (decide (Z.of_nat y < i)).
      * rewrite lookup_app_l by (rewrite length_take; lia). by rewrite lookup_take_lt by lia.
      * rewrite decide_True by lia. rewrite lookup_app_r by (rewrite length_take; lia).
        rewrite length_take, Nat.min_l, lookup_drop by lia.
        rewrite lookup_take_lt by lia. f_equal. lia.
    + rewrite lookup_take_ge by lia. symmetry. apply lookup_ge_None.
      rewrite length_app, length_drop, !length_take. lia.
Qed.

Lemma search_ok m fl b st :
  Core fl b st →
  ∃ o, search m st = Ok o ∧
    match o with
    | Some i => 0 ≤ i < howMany st ∧ arr st !! Z.to_nat i = Some m
    | None => m ∉ items st
    end.
Proof.
  intros [H1 H2 _ _ _ _ _]. unfold search.
  run_brk (λ (i : Z) (o : option Z), o = None ∧
      ∀ x : nat, Z.of_nat x < i → arr st !! x ≠ Some m)
    (λ o : option Z, match o with
      | Some i => 0 ≤ i < howMany st ∧ arr st !! Z.to_nat i = Some m
      | None => m ∉ items st end).
  - lia.
  - split; [done|lia].
  - intros i o Hi [-> Hb]. rewrite rd_getZ.
    destruct (getZ_is_Some (arr st) i) as [v Hv]; [lia|]. rewrite Hv. simpl.
    unfold getZ in Hv. rewrite decide_True in Hv by lia. case_decide as E.
    + right. eexists. split; [done|]. simpl. split; [lia|congruence].
    + left. eexists. split; [done|]. split; [done|]. intros x Hx.
      destruct (decide (Z.of_nat x = i)) as [Ex|]; [|apply Hb; lia].
      replace x with (Z.to_nat i) by lia. congruence.
  - intros o [-> Hb]. unfold items. rewrite elem_of_take. intros (x & Hx & ?).
    apply (Hb x); [lia|done].
  - eauto.
Qed.

(** Taking the vehicle at [i] out of the set puts it in flight. *)
Lemma take_out i v b st :
  Core [] b st → 0 ≤ i < howMany st → arr st !! Z.to_nat i = Some v →
  ∃ l', shift_left i (howMany st) (arr st) = Ok l' ∧
    Core [v] (b - 1) (set_items l' (howMany st - 1) st).
Proof.
  intros [H1 H2 H3 H4 H5 H6 H7] Hi Hv.
  destruct (shift_left_ok i (howMany st) (arr st)) as (l' & -> & Hl & Ht); [lia|lia|].
  exists l'. split; [done|].
  assert (items (set_items l' (howMany st - 1) st) ++ [v] ≡ₚ items st) as Hp.
  { unfold items at 1. simpl. rewrite Ht, <- app_assoc.
    rewrite (Permutation_app_comm (drop _ _)). unfold items.
    assert (take (Z.to_nat (howMany st)) (arr st) !! Z.to_nat i = Some v) as Hv'
      by (rewrite lookup_take_lt; [done|lia]).
    rewrite <- (take_drop_middle _ _ _ Hv') at 2. rewrite take_take, Nat.min_l by lia. done. }
  constructor; try (simpl; lia).
  - intros k Hk. rewrite (cnt_perm k _ _ Hp). rewrite <- H4 by done. by rewrite app_nil_r.
  - rewrite Hp. by rewrite app_nil_r in H5.
  - unfold total in *. simpl in *. lia.
  - unfold total in *. simpl in *. lia.
Qed.

Lemma removeItem_ok m i b st :
  Core [] b st → search m st = Ok (Some i) →
  ∃ st', removeItem m st = Ok st' ∧ Core [m] (b - 1) st' ∧ same st st'.
Proof.
  intros HC Hs. destruct (search_ok m [] b st HC) as (o & Ho & Hi).
  rewrite Hs in Ho. injection Ho as <-. destruct Hi as [Hi Hm].
  destruct (take_out i m b st HC Hi Hm) as (l' & El & HC').
  unfold removeItem. rewrite Hs. simpl. rewrite El. simpl. rewrite decide_True by lia.
  eexists. by split_and!.
Qed.

Lemma getItem_ok rnd b st :
  Core [] b st → 0 ≤ rnd →
  (howMany st = 0 ∧ getItem rnd st = Ok (None, st)) ∨
  (∃ v st', getItem rnd st = Ok (Some v, st') ∧ Core [v] (b - 1) st' ∧ same st st').
Proof.
  intros HC Hr. unfold getItem. case_decide as Hh; [right|left; split; [lia|done]].
  pose proof (core_many _ _ _ HC). pose proof (core_arr _ _ _ HC).
  rewrite Z.rem_mod_nonneg by lia.
  pose proof (Z.mod_pos_bound rnd (howMany st) ltac:(lia)).
  destruct (getZ_is_Some (arr st) (rnd mod howMany st)) as [v Hv]; [lia|].
  rewrite rd_getZ, Hv. simpl. unfold getZ in Hv. rewrite decide_True in Hv by lia.
  destruct (take_out (rnd mod howMany st) v b st HC) as (l' & -> & HC'); [lia|done|].
  simpl. eexists _, _. by split_and!.
Qed.
(** ** The phases of an execution *)

(** Every thread but [k] is before or in its wait. *)
Definition rest_idle (k : Z) (st : cross) : Prop := ∀ j, 1 ≤ j ≤ 4 → j ≠ k → idle (pcs st j).

Inductive phase : Set :=
  | Before                (** [main] has not signalled yet *)
  | Crossing (v : Z)      (** thread [v] is about to let a vehicle cross *)
  | Crossed (v : Z)       (** thread [v] has, and picks the next one *)
  | Lost (v : Z)          (** thread [v] was signalled before it waited *)
  | Over.                 (** all vehicles have crossed *)

Definition Inv (ph : phase) (st : cross) : Prop :=
  match ph with
  | Before => started st = false ∧ Core (take 1 starts) 0 st ∧ rest_idle 0 st
  | Crossing v => started st = true ∧ Core [v] 0 st ∧
      (pcs st v = TReady ∨ pcs st v = TGo) ∧ rest_idle v st
  | Crossed v => started st = true ∧ 1 ≤ v ≤ 4 ∧ Core [] 0 st ∧ pcs st v = THalf ∧ rest_idle v st
  | Lost v => started st = true ∧ Core [v] 0 st ∧ rest_idle 0 st
  | Over => started st = true ∧ Core [] 0 st ∧ total st = n ∧
      ∀ j, 1 ≤ j ≤ 4 → idle (pcs st j) ∨ pcs st j = TReady ∨ pcs st j = TExit
  end.

(** Every other thread has reached its wait. *)
Definition rest_waits (k : Z) (st : cross) : Prop :=
  ∀ j, 1 ≤ j ≤ 4 → j ≠ k → pcs st j = TWait.

(** No signal has been lost. *)
Definition good (ph : phase) (st : cross) : Prop :=
  match ph with
  | Lost _ => False
  | Over => ∀ j, 1 ≤ j ≤ 4 → pcs st j = TReady ∨ pcs st j = TExit
  | _ => True
  end.

Definition weight (c : pc) : Z :=
  match c with TLoop | TReady | TGo => 1 | THalf => 4 | TWait | TExit => 0 end.

Definition weights (st : cross) : Z :=
  weight (pcs st 1) + weight (pcs st 2) + weight (pcs st 3) + weight (pcs st 4).

(** What the execution has left to do. *)
Definition left_to_do (st : cross) : Z :=
  4 * (n - total st) + weights st + (if started st then 0 else 2).

Lemma four k : 1 ≤ k ≤ 4 → k = 1 ∨ k = 2 ∨ k = 3 ∨ k = 4.
Proof. lia. Qed.

Ltac four_cases H := destruct (four _ H) as [->|[->|[->| ->]]].

Lemma set_pc_weights k c st :
  1 ≤ k ≤ 4 → weights (set_pc k c st) = weights st - weight (pcs st k) + weight c.
Proof.
  intros Hk. unfold weights, set_pc. simpl.
  four_cases Hk; rewrite fn_lookup_insert, ?fn_lookup_insert_ne by done; lia.
Qed.

Lemma weight_nonneg c : 0 ≤ weight c.
Proof. destruct c; simpl; lia. Qed.

Lemma weights_nonneg st : 0 ≤ weights st.
Proof. unfold weights. pose proof weight_nonneg. pose proof (H (pcs st 1)).
  pose proof (H (pcs st 2)). pose proof (H (pcs st 3)). pose proof (H (pcs st 4)). lia. Qed.

Lemma signal_pcs k st j :
  pcs (signal k st) j = if decide (j = k ∧ pcs st k = TWait) then TReady else pcs st j.
Proof.
  unfold signal. destruct (decide (pcs st k = TWait)) as [E|E].
  - simpl. destruct (decide (j = k)) as [->|Hne].
    + by rewrite fn_lookup_insert, decide_True.
    + rewrite fn_lookup_insert_ne, decide_False by naive_solver. done.
  - rewrite decide_False; naive_solver.
Qed.

Lemma signal_weights k st : 1 ≤ k ≤ 4 → weights (signal k st) ≤ weights st + 1.
Proof.
  intros. unfold signal. case_decide as E; [|lia]. rewrite set_pc_weights by done.
  rewrite E. simpl. lia.
Qed.

Lemma signal_core fl b k st : Core fl b st → Core fl b (signal k st).
Proof.
  intros HC. apply (core_ext fl b b st); try lia; try done; unfold signal; by case_decide.
Qed.

Lemma set_pc_core fl b k c st : Core fl b st → Core fl b (set_pc k c st).
Proof. intros HC. by apply (core_ext fl b b st). Qed.

Lemma signal_same k st :
  started (signal k st) = started st ∧ total (signal k st) = total st.
Proof. unfold signal. by case_decide. Qed.

(** The end of a turn: the next thread is woken, or its signal is lost. *)
Lemma hand_over k w st :
  1 ≤ k ≤ 4 → w ≠ k → 1 ≤ w ≤ 4 → started st = true → Core [w] 0 st → rest_idle k st →
  ∃ ph, Inv ph (set_pc k TLoop (signal w st)) ∧
    (rest_waits k st → good ph (set_pc k TLoop (signal w st))).
Proof.
  intros Hk Hw Hw4 Hs HC Hi. destruct (signal_same w st) as [Hs' _].
  destruct (decide (pcs st w = TWait)) as [E|E].
  - exists (Crossing w). split; [|done]. split_and!; [simpl; congruence|by apply set_pc_core, signal_core| |].
    + left. simpl. rewrite fn_lookup_insert_ne, signal_pcs by done. by rewrite decide_True.
    + intros j Hj Hjw. simpl. destruct (decide (j = k)) as [->|].
      * rewrite fn_lookup_insert. by left.
      * rewrite fn_lookup_insert_ne, signal_pcs, decide_False by naive_solver. by apply Hi.
  - exists (Lost w). split; [|intros Hw'; by rewrite Hw' in E by done]. split_and!; [simpl; congruence|by apply set_pc_core, signal_core|].
    intros j Hj _. simpl. destruct (decide (j = k)) as [->|].
    + rewrite fn_lookup_insert. by left.
    + rewrite fn_lookup_insert_ne, signal_pcs, decide_False by naive_solver. by apply Hi.
Qed.

Lemma cross_one_ok k st :
  1 ≤ k ≤ 4 → Core [k] 0 st →
  (∃ st', cross_one starts past k st = Ok st' ∧ Core [] 0 st' ∧ pcs st' = pcs st ∧
     started st' = started st ∧ total st' = total st + 1) ∨
  (cross_one starts past k st = Undef OutOfBounds ∧ 31 ≤ n).
Proof.
  intros Hk HC. unfold cross_one.
  set (st1 := Cross _ _ _ _ _ _ _ _ _).
  assert (total st1 = total st + 1) as Ht.
  { unfold total, st1. simpl.
    four_cases Hk; rewrite fn_lookup_insert, ?fn_lookup_insert_ne by done; lia. }
  assert (Core [] (-1) st1) as HC1.
  { destruct HC as [H1 H2 H3 H4 H5 H6 H7].
    assert (items st1 = items st) as Hit by done.
    constructor; try done; rewrite ?Hit; try (simpl in *; lia).
    - intros j Hj. specialize (H4 j Hj). rewrite cnt_app, cnt_one in H4. rewrite app_nil_r.
      simpl in *. destruct (decide (k = j)) as [->|].
      + rewrite fn_lookup_insert. lia.
      + rewrite fn_lookup_insert_ne by done. lia.
    - rewrite Forall_app in *. naive_solver. }
  destruct (addSet_ok [] (-1) st1 HC1) as [(st2 & E & HC2 & (EP & Epc & Es) & _)|(E & Eh & Ei)].
  - left. rewrite E. simpl. eexists. split; [done|].
    split_and!; try done.
    + by apply (core_ext [] 0 0 st2).
    + unfold total in *. simpl in *. rewrite EP. lia.
  - right. rewrite E. split; [done|].
    pose proof (core_total _ _ _ HC1). pose proof (core_bound _ _ _ HC1). simpl in *. lia.
Qed.

Lemma opposite_ne k : 1 ≤ k ≤ 4 → opposite k ≠ k ∧ 1 ≤ opposite k ≤ 4.
Proof. unfold opposite. case_decide; lia. Qed.

Lemma first_half_ok k st :
  1 ≤ k ≤ 4 → started st = true → Core [k] 0 st → rest_idle k st → weight (pcs st k) = 1 →
  (∃ st' ph, first_half starts past k st = Ok st' ∧ Inv ph st' ∧
     left_to_do st' < left_to_do st ∧ (rest_waits k st → good ph st')) ∨
  (first_half starts past k st = Undef OutOfBounds ∧ 31 ≤ n).
Proof.
  intros Hk Hs HC Hi Hw. unfold first_half.
  destruct (cross_one_ok k st Hk HC) as [(st1 & -> & HC1 & Epc & Es & Et)|[-> ?]];
    [left; cbn [mbind res_bind]|by right].
  destruct (opposite_ne k Hk) as [Ho1 Ho2].
  unfold find. destruct (search_ok (opposite k) [] 0 st1 HC1) as (o & Eo & _).
  rewrite Eo. cbn [mbind res_bind].
  assert (weights st1 = weights st) as Ew by (unfold weights; by rewrite Epc).
  destruct o as [i|]; cbn [mbind res_bind bool_decide is_Some_dec].
  - destruct (removeItem_ok (opposite k) i 0 st1 HC1 Eo) as (st2 & Er & HC2 & EP2 & Epc2 & Es2).
    rewrite Er. cbn [mbind res_bind].
    destruct (hand_over k (opposite k) st2) as (ph & Hph & Hg); [done..|congruence| |
      intros j; rewrite Epc2, Epc; apply Hi|].
    { by eapply core_ext. }
    eexists _, ph. split_and!; [done|done| |].
    2:{ intros Hw'. apply Hg. intros j. rewrite Epc2, Epc. apply Hw'. }
    unfold left_to_do. rewrite set_pc_weights by done. destruct (signal_same (opposite k) st2) as [E1 E2].
    simpl started. change (total (set_pc k TLoop (signal (opposite k) st2)))
      with (total (signal (opposite k) st2)). rewrite E1, E2, Es2, Es.
    assert (total st2 = total st1) as -> by (unfold total; by rewrite EP2).
    pose proof (signal_weights (opposite k) st2 Ho2).
    assert (weights st2 = weights st1) by (unfold weights; by rewrite Epc2).
    rewrite signal_pcs, decide_False by naive_solver. rewrite Epc2, Epc. simpl. lia.
  -
    eexists _, (Crossed k). split_and!; [done|..].
    + split_and!; try done; try lia.
      * simpl. congruence.
      * by apply (core_ext [] 0 0 st1).
      * simpl. by rewrite fn_lookup_insert.
      * intros j Hj Hne. simpl. rewrite fn_lookup_insert_ne by done. rewrite Epc. by apply Hi.
    + unfold left_to_do. rewrite set_pc_weights by done. simpl started.
      change (total (set_pc k THalf (print_both st1))) with (total st1).
      change (weights (print_both st1)) with (weights st1). simpl pcs.
      rewrite Epc, Es, Hw. simpl. lia.
    + done.
Qed.
Lemma core_rebound fl b b' st : Core fl b st → howMany st ≤ total st + b' → Core fl b' st.
Proof. intros [H1 H2 H3 H4 H5 H6 H7] ?. by constructor. Qed.

(** The signals of the thread that finished the last crossing. *)
Lemma signals_ok js st :
  Forall (λ j, 1 ≤ j ≤ 4) js →
  let st' := foldl (λ st j, signal j st) st js in
  weights st' ≤ weights st + Z.of_nat (length js) ∧ started st' = started st ∧
  total st' = total st ∧ (∀ fl b, Core fl b st → Core fl b st') ∧
  ∀ j, pcs st' j = pcs st j ∨ (pcs st j = TWait ∧ pcs st' j = TReady ∧ j ∈ js).
Proof.
  induction js as [|k js IH] in st |- *; intros Hjs st'.
  { subst st'. cbn [foldl length]. split_and!; try done; [lia|auto]. }
  apply Forall_cons in Hjs as [Hk Hjs].
  destruct (IH (signal k st) Hjs) as (H1 & H2 & H3 & H4 & H5).
  destruct (signal_same k st) as [E1 E2]. pose proof (signal_weights k st Hk).
  subst st'. simpl. split_and!; [lia|congruence|congruence| |].
  - intros fl b HC. by apply H4, signal_core.
  - intros j. specialize (H5 j). rewrite signal_pcs in H5. rewrite elem_of_cons.
    case_decide as E; naive_solver.
Qed.

Lemma signals_wake j js st :
  pcs st j = TWait ∨ pcs st j = TReady → j ∈ js ∨ pcs st j = TReady →
  pcs (foldl (λ st j, signal j st) st js) j = TReady.
Proof.
  induction js as [|k js IH] in st |- *; intros Hj Hin; simpl; [set_solver|].
  apply IH; rewrite signal_pcs; case_decide; naive_solver set_solver.
Qed.

Lemma second_half_ok k rnd st :
  Inv (Crossed k) st → 0 ≤ rnd →
  (∃ st' ph, second_half starts past k rnd st = Ok st' ∧ Inv ph st' ∧
     left_to_do st' < left_to_do st ∧ (rest_waits k st → good ph st')) ∨
  (second_half starts past k rnd st = Undef OutOfBounds ∧ 31 ≤ n).
Proof.
  intros (Hs & Hk & HC & Hpc & Hi) Hr. unfold second_half.
  set (st1 := Cross (tick st + 1) _ _ _ _ _ _ _ _).
  assert (Core [] 0 st1) as HC1 by (by apply (core_ext [] 0 0 st)).
  destruct (addSet_ok [] 0 st1 HC1) as [(st2 & E & HC2 & (EP & Epc & Es) & Hne)|(E & Eh & Ei)].
  2:{ right. rewrite E. split; [done|].
      pose proof (core_total _ _ _ HC1). pose proof (core_bound _ _ _ HC1). simpl in *. lia. }
  left. rewrite E. cbn [mbind res_bind].
  assert (total st2 = total st) as Et by (unfold total; by rewrite EP).
  assert (weights st2 = weights st) as Ew by (unfold weights; by rewrite Epc).
  assert (started st2 = true) as Es2 by (rewrite Es; done).
  assert (pcs st2 = pcs st) as Epc2 by (rewrite Epc; done).
  pose proof (core_total _ _ _ HC2) as Ht2. simpl in Ht2.
  destruct (getItem_ok rnd 1 st2 HC2 Hr) as [[Hh ->]|(v & st3 & -> & HC3 & EP3 & Epc3 & Es3)];
    cbn [mbind res_bind].
  - rewrite decide_True by lia.
    destruct (signals_ok (filter (λ j, j ≠ k) [1; 2; 3; 4]) (print_both st2))
      as (H1 & H2 & H3 & H4 & H5).
    { apply Forall_forall. intros j [_ Hj]%list_elem_of_filter. set_solver by lia. }
    set (st4 := foldl _ _ _) in *.
    assert (length (filter (λ j, j ≠ k) [1; 2; 3; 4]) = 3%nat) as El by (by four_cases Hk).
    rewrite El in H1. assert (pcs st4 k = THalf) as Hk4.
    { destruct (H5 k) as [->|(_ & _ & Hin)]; [simpl; congruence|].
      by apply list_elem_of_filter in Hin as [? _]. }
    change (weights (print_both st2)) with (weights st2) in *.
    change (total (print_both st2)) with (total st2) in *.
    eexists _, Over. split; [done|]. split; [|split].
    + split_and!; [simpl; rewrite H2; done| | |].
      * apply set_pc_core, H4. apply (core_ext [] 0 0 st2); try done.
        pose proof (core_indx _ _ _ HC2). apply (core_rebound [] 1); [done|lia].
      * change (total st4 = n). rewrite H3. lia.
      * intros j Hj. simpl. destruct (decide (j = k)) as [->|].
        { rewrite fn_lookup_insert. auto. }
        rewrite fn_lookup_insert_ne by done.
        destruct (H5 j) as [->|(_ & -> & _)]; [|auto]. simpl. rewrite Epc2. left. by apply Hi.
    + unfold left_to_do. rewrite set_pc_weights by done.
      change (started (set_pc k TExit st4)) with (started st4).
      change (total (set_pc k TExit st4)) with (total st4).
      rewrite Hk4, H2, H3. change (started (print_both st2)) with (started st2).
      rewrite Es2, Hs. simpl. lia.
    + intros Hw j Hj. simpl. destruct (decide (j = k)) as [->|Hjk].
      { rewrite fn_lookup_insert. auto. }
      rewrite fn_lookup_insert_ne by done. left. unfold st4.
      apply signals_wake; left; [simpl; rewrite Epc2; by apply Hw|].
      apply list_elem_of_filter. split; [done|]. four_cases Hj; set_solver.
  - pose proof (core_total _ _ _ HC3) as Ht3. pose proof (core_indx _ _ _ HC3).
    pose proof (core_many _ _ _ HC3). simpl in Ht3.
    rewrite decide_False by lia. cbn [opt mbind res_bind].
    assert (total st3 = total st) as Et3 by (unfold total in *; by rewrite EP3).
    assert (weights st3 = weights st) as Ew3 by (unfold weights in *; by rewrite Epc3).
    assert (1 ≤ v ≤ 4) as Hv.
    { pose proof (core_items _ _ _ HC3) as Hit. rewrite Forall_app, Forall_singleton in Hit. tauto. }
    destruct (decide (v = k)) as [->|Hvk].
    + eexists _, (Crossing k). split; [done|]. split; [|split].
      * split_and!; [simpl; congruence|by apply set_pc_core| |].
        { right. simpl. by rewrite fn_lookup_insert. }
        intros j Hj Hne'. simpl. rewrite fn_lookup_insert_ne by done.
        rewrite Epc3, Epc2. by apply Hi.
      * unfold left_to_do. rewrite set_pc_weights by done.
        change (started (set_pc k TGo st3)) with (started st3).
        change (total (set_pc k TGo st3)) with (total st3).
        rewrite Epc3, Epc2, Hpc, Es3, Es2, Hs. simpl. lia.
      * done.
    + destruct (hand_over k v st3) as (ph & Hph & Hg); [done..|congruence|done| |].
      { intros j. rewrite Epc3, Epc2. apply Hi. }
      eexists _, ph. split_and!; [done|done| |].
      2:{ intros Hw'. apply Hg. intros j. rewrite Epc3, Epc2. apply Hw'. }
      unfold left_to_do. rewrite set_pc_weights by done. destruct (signal_same v st3) as [E1 E2].
      change (started (set_pc k TLoop (signal v st3))) with (started (signal v st3)).
      change (total (set_pc k TLoop (signal v st3))) with (total (signal v st3)).
      pose proof (signal_weights v st3 Hv).
      rewrite signal_pcs, decide_False by naive_solver.
      rewrite E1, E2, Epc3, Epc2, Hpc, Es3, Es2, Hs. simpl. lia.
Qed.

Lemma core_lt fl b v st : Core (v :: fl) b st → total st < n.
Proof. intros HC. destruct HC as [? ? ? _ _ H _]. simpl in H. lia. Qed.

(** In an eager execution a thread that is idle waits. *)
Lemma idle_waits k st :
  rest_idle k st → (∀ j, 1 ≤ j ≤ 4 → pcs st j ≠ TLoop) → rest_waits k st.
Proof. intros Hi HL j Hj Hne. destruct (Hi j Hj Hne); [|done]. by destruct (HL j). Qed.

Lemma wait_ok ph st k :
  Inv ph st → 1 ≤ k ≤ 4 → pcs st k = TLoop →
  Inv ph (set_pc k TWait st) ∧ left_to_do (set_pc k TWait st) < left_to_do st.
Proof.
  intros HI Hk Hpc. split.
  - assert (∀ v, rest_idle v st → rest_idle v (set_pc k TWait st)) as Hri.
    { intros v Hv j Hj Hne. simpl. destruct (decide (j = k)) as [->|].
      - rewrite fn_lookup_insert. by right.
      - rewrite fn_lookup_insert_ne by done. by apply Hv. }
    destruct ph as [|v|v|v|]; simpl in *; destruct_and?; split_and?; auto using set_pc_core.
    + destruct (decide (v = k)) as [->|]; [destruct_or?; congruence|].
      by rewrite fn_lookup_insert_ne.
    + rewrite fn_lookup_insert_ne; congruence.
    + intros j Hj. destruct (decide (j = k)) as [->|].
      * rewrite fn_lookup_insert. left. by right.
      * rewrite fn_lookup_insert_ne by done. auto.
  - unfold left_to_do. rewrite set_pc_weights by done.
    change (total (set_pc k TWait st)) with (total st). simpl. rewrite Hpc. simpl. lia.
Qed.

Lemma thread_ok ph st k rnd r :
  Inv ph st → 1 ≤ k ≤ 4 → 0 ≤ rnd → thread_function starts past k rnd st = Some r →
  (∃ st' ph', r = Ok st' ∧ Inv ph' st' ∧ left_to_do st' < left_to_do st ∧
     ((∀ j, 1 ≤ j ≤ 4 → pcs st j ≠ TLoop) → good ph st → good ph' st')) ∨
  (r = Undef OutOfBounds ∧ 31 ≤ n).
Proof.
  intros HI Hk Hr. unfold thread_function.
  destruct (pcs st k) eqn:Hpc; intros [= <-].
  - (* to the wait *)
    left. destruct (wait_ok ph st k) as [? ?]; [done..|].
    exists (set_pc k TWait st), ph. split_and!; [done..|]. by intros HL; destruct (HL k).
  - (* woken up *)
    destruct ph as [|v|v|v|]; simpl in HI; destruct_and? HI.
    + exfalso. match goal with H : rest_idle 0 st |- _ => destruct (H k Hk ltac:(lia)) end; congruence.
    + match goal with H : Core [v] 0 st |- _ => pose proof (core_lt _ _ _ _ H) end.
      rewrite decide_False by lia. destruct (decide (k = v)) as [->|Hne].
      * destruct (first_half_ok v st) as [(st' & ph' & ? & ? & ? & Hg)|?];
          [done..|by rewrite Hpc| |by right].
        left. exists st', ph'. split_and!; try done. intros HL _. by apply Hg, idle_waits.
      * exfalso. match goal with H : rest_idle v st |- _ => destruct (H k Hk Hne) end; congruence.
    + exfalso. destruct (decide (k = v)) as [->|Hne]; [congruence|].
      match goal with H : rest_idle v st |- _ => destruct (H k Hk Hne) end; congruence.
    + exfalso. match goal with H : rest_idle 0 st |- _ => destruct (H k Hk ltac:(lia)) end; congruence.
    + left. rewrite decide_True by done. eexists _, Over. split; [done|]. split; [|split].
      * split_and!; try done; [by apply set_pc_core|]. intros j Hj. simpl.
        destruct (decide (j = k)) as [->|]; [rewrite fn_lookup_insert; auto|].
        rewrite fn_lookup_insert_ne by done. auto.
      * unfold left_to_do. rewrite set_pc_weights by done.
        change (total (set_pc k TExit st)) with (total st). simpl. rewrite Hpc. simpl. lia.
      * intros _ Hg j Hj. simpl. destruct (decide (j = k)) as [->|].
        { rewrite fn_lookup_insert. by right. }
        rewrite fn_lookup_insert_ne by done. by apply Hg.
  - (* at GO *)
    destruct ph as [|v|v|v|]; simpl in HI; destruct_and? HI.
    + exfalso. match goal with H : rest_idle 0 st |- _ => destruct (H k Hk ltac:(lia)) end; congruence.
    + destruct (decide (k = v)) as [->|Hne].
      * destruct (first_half_ok v st) as [(st' & ph' & ? & ? & ? & Hg)|?];
          [done..|by rewrite Hpc| |by right].
        left. exists st', ph'. split_and!; try done. intros HL _. by apply Hg, idle_waits.
      * exfalso. match goal with H : rest_idle v st |- _ => destruct (H k Hk Hne) end; congruence.
    + exfalso. destruct (decide (k = v)) as [->|Hne]; [congruence|].
      match goal with H : rest_idle v st |- _ => destruct (H k Hk Hne) end; congruence.
    + exfalso. match goal with H : rest_idle 0 st |- _ => destruct (H k Hk ltac:(lia)) end; congruence.
    + exfalso. match goal with H : ∀ j, _ → _ ∨ _ |- _ => destruct (H k Hk) as [[?|?]|[?|?]] end; congruence.
  - (* second half *)
    destruct ph as [|v|v|v|]; simpl in HI; destruct_and? HI.
    + exfalso. match goal with H : rest_idle 0 st |- _ => destruct (H k Hk ltac:(lia)) end; congruence.
    + exfalso. destruct (decide (k = v)) as [->|Hne]; [destruct_or?; congruence|].
      match goal with H : rest_idle v st |- _ => destruct (H k Hk Hne) end; congruence.
    + destruct (decide (k = v)) as [->|Hne].
      * destruct (second_half_ok v rnd st) as [(st' & ph' & ? & ? & ? & Hg)|?];
          [by split_and!|done| |by right].
        left. exists st', ph'. split_and!; try done. intros HL _. by apply Hg, idle_waits.
      * exfalso. match goal with H : rest_idle v st |- _ => destruct (H k Hk Hne) end; congruence.
    + exfalso. match goal with H : rest_idle 0 st |- _ => destruct (H k Hk ltac:(lia)) end; congruence.
    + exfalso. match goal with H : ∀ j, _ → _ ∨ _ |- _ => destruct (H k Hk) as [[?|?]|[?|?]] end; congruence.
Qed.
Hypothesis Hsome : starts ≠ [].

Lemma first_start : ∃ v, take 1 starts = [v] ∧ start_at starts past 0 = v ∧ 1 ≤ v ≤ 4.
Proof.
  destruct starts as [|v l]; [done|]. exists v. apply Forall_cons in Hvalid as [? _]. done.
Qed.

Lemma input_pos : 1 ≤ n.
Proof. unfold input. destruct starts; [done|]. simpl. lia. Qed.

Lemma init_inv : Inv Before init.
Proof.
  destruct first_start as (v & Ev & _ & Hv). pose proof input_pos.
  split_and!; [done| |by intros j _ _; left].
  constructor; rewrite ?Ev; try (simpl; lia); try done.
  - intros k _. change (Z.to_nat (indx init)) with 1%nat. by rewrite Ev.
  - simpl. by apply Forall_singleton.
Qed.

Lemma init_left : left_to_do init = 4 * n + 6.
Proof. unfold left_to_do, total, weights. simpl. lia. Qed.

Lemma main_ok st :
  Inv Before st →
  ∃ ph, Inv ph (main_signal starts past st) ∧
    left_to_do (main_signal starts past st) < left_to_do st ∧
    ((∀ j, 1 ≤ j ≤ 4 → pcs st j ≠ TLoop) → good ph (main_signal starts past st)).
Proof.
  intros (Hs & HC & Hi). destruct first_start as (v & Ev & E0 & Hv). rewrite Ev in HC.
  unfold main_signal. rewrite E0. set (st' := Cross _ _ _ _ _ _ _ _ _).
  assert (Core [v] 0 st') as HC' by (apply (core_ext [v] 0 0 (signal v st)); try done;
    by apply signal_core).
  assert (left_to_do st' < left_to_do st).
  { unfold left_to_do. change (total st') with (total (signal v st)).
    change (weights st') with (weights (signal v st)). simpl started. rewrite Hs.
    destruct (signal_same v st) as [_ ->]. pose proof (signal_weights v st Hv). lia. }
  destruct (decide (pcs st v = TWait)) as [E|E].
  - exists (Crossing v). split; [|done]. split_and!; [done|done| |].
    + left. simpl. rewrite signal_pcs. by rewrite decide_True.
    + intros j Hj Hne. simpl. rewrite signal_pcs, decide_False by naive_solver. apply Hi; [done|lia].
  - exists (Lost v). split; [|split; [done|]].
    + split_and!; [done|done|]. intros j Hj _. simpl.
      rewrite signal_pcs, decide_False by naive_solver. apply Hi; [done|lia].
    + intros HL. destruct (Hi v Hv ltac:(lia)); [by destruct (HL v)|done].
Qed.

Lemma step_ok ph st st' :
  Inv ph st → step starts past false st st' →
  ∃ ph', Inv ph' st' ∧ left_to_do st' < left_to_do st ∧
    ((∀ j, 1 ≤ j ≤ 4 → pcs st j ≠ TLoop) → good ph st → good ph' st').
Proof.
  intros HI. destruct 1 as [st Hs|k rnd st st' Hk Hr Ht|]; [| |done].
  - destruct ph; simpl in HI; destruct_and? HI; try congruence.
    destruct (main_ok st) as (ph & ? & ? & ?); [by split_and!|]. eauto.
  - destruct (thread_ok _ _ _ _ _ HI Hk Hr Ht) as [(? & ph' & [= <-] & ? & ? & ?)|[? _]]; [|done].
    eauto.
Qed.

Lemma reachable_inv st : reachable starts past false st → ∃ ph, Inv ph st.
Proof.
  intros Hr. cut (∀ st0, rtc (step starts past false) st0 st → (∃ ph, Inv ph st0) → ∃ ph, Inv ph st).
  { intros H. apply (H init Hr). eexists. apply init_inv. }
  clear Hr. intros st0. induction 1 as [|st0 st1 st2 Hs _ IH]; [done|].
  intros [ph HI]. apply IH. destruct (step_ok _ _ _ HI Hs) as (ph' & ? & _). eauto.
Qed.

Lemma steps_bounded m st0 st :
  nsteps (step starts past false) m st0 st → (∃ ph, Inv ph st0) →
  Z.of_nat m + left_to_do st ≤ left_to_do st0.
Proof.
  induction 1 as [|m st0 st1 st2 Hs _ IH]; [lia|]. intros [ph HI].
  destruct (step_ok _ _ _ HI Hs) as (ph' & ? & ? & _). specialize (IH ltac:(eauto)). lia.
Qed.

Lemma left_nonneg ph st : Inv ph st → 0 ≤ left_to_do st.
Proof.
  intros HI. unfold left_to_do. pose proof (weights_nonneg st).
  assert (total st ≤ n).
  { assert (∃ fl b, Core fl b st) as (fl & b & [? ? ? _ _ ? _]); [|lia].
    destruct ph; simpl in HI; destruct_and? HI; eauto. }
  destruct (started st); lia.
Qed.

Lemma finished_over ph st : Inv ph st → finished st → ph = Over.
Proof.
  intros HI Hf. destruct ph as [|v|v|v|]; simpl in HI; destruct_and? HI; [..|done]; exfalso.
  - match goal with H : rest_idle 0 st |- _ => destruct (H 1) end; try lia;
      rewrite Hf in *; done || lia.
  - match goal with H : Core [v] _ _ |- _ => pose proof (core_items _ _ _ H) as Hit end.
    rewrite Forall_app, Forall_singleton in Hit. rewrite (Hf v) in * by tauto.
    by destruct_or?.
  - match goal with H : pcs st v = THalf |- _ => by rewrite (Hf v) in H by done end.
  - match goal with H : rest_idle 0 st |- _ => destruct (H 1) end; try lia;
      rewrite Hf in *; done || lia.
Qed.

(** ** Eager executions *)

Lemma eager_ok ph st st' :
  Inv ph st → good ph st → eager_step starts past st st' →
  ∃ ph', Inv ph' st' ∧ good ph' st'.
Proof.
  intros HI Hg [Hs [(k & Hk & Hpc & ->)|HL]].
  - exists ph. split; [by apply wait_ok|]. destruct ph; try done. simpl in *.
    intros j Hj. exfalso. destruct (Hg k Hk); congruence.
  - destruct (step_ok _ _ _ HI Hs) as (ph' & ? & _ & Hg'). eauto.
Qed.

Lemma eager_inv st :
  rtc (eager_step starts past) init st → ∃ ph, Inv ph st ∧ good ph st.
Proof.
  intros Hr. cut (∀ st0, rtc (eager_step starts past) st0 st →
    (∃ ph, Inv ph st0 ∧ good ph st0) → ∃ ph, Inv ph st ∧ good ph st).
  { intros H. apply (H init Hr). exists Before. split; [apply init_inv|done]. }
  clear Hr. intros st0. induction 1 as [|st0 st1 st2 Hs _ IH]; [done|].
  intros (ph & HI & Hg). apply IH. by eapply eager_ok.
Qed.

(** Without overflow a thread that can run does return. *)
Lemma thread_runs ph st k :
  n ≤ 30 → Inv ph st → 1 ≤ k ≤ 4 →
  match pcs st k with TWait | TExit => False | _ => True end →
  ∃ st', thread_function starts past k 0 st = Some (Ok st').
Proof.
  intros Hn HI Hk Hpc. destruct (thread_function starts past k 0 st) as [r|] eqn:E.
  - destruct (thread_ok _ _ _ _ _ HI Hk ltac:(done) E) as [(st' & _ & -> & _)|[_ ?]]; [eauto|lia].
  - unfold thread_function in E. by destruct (pcs st k).
Qed.

Lemma eager_progress ph st :
  n ≤ 30 → Inv ph st → good ph st → (∀ st', ¬ eager_step starts past st st') → finished st.
Proof.
  intros Hn HI Hg Hstuck.
  assert (∀ k, 1 ≤ k ≤ 4 → pcs st k ≠ TLoop) as HL.
  { intros k Hk Hpc. apply (Hstuck (set_pc k TWait st)). split; [|left; eauto].
    eapply (step_thread _ _ _ k 0); [done|done|]. unfold thread_function. by rewrite Hpc. }
  assert (∀ k, 1 ≤ k ≤ 4 → match pcs st k with TWait | TExit => True | _ => False end) as Hno.
  { intros k Hk. destruct (pcs st k) eqn:Hpc; try done; [by destruct (HL k)|..].
    all: destruct (thread_runs ph st k) as [st' Ht]; [done..|by rewrite Hpc|].
    all: apply (Hstuck st'); split; [|by right]; by eapply (step_thread _ _ _ k 0). }
  destruct ph as [|v|v|v|]; simpl in HI; destruct_and? HI; try done.
  - exfalso. apply (Hstuck (main_signal starts past st)). split; [by constructor|by right].
  - exfalso. match goal with H : Core [v] _ _ |- _ => pose proof (core_items _ _ _ H) as Hit end.
    rewrite Forall_app, Forall_singleton in Hit. destruct Hit as [_ Hv].
    specialize (Hno v Hv). destruct_or?; by match goal with H : pcs st v = _ |- _ => rewrite H in Hno end.
  - exfalso. specialize (Hno v ltac:(done)).
    by match goal with H : pcs st v = _ |- _ => rewrite H in Hno end.
  - intros k Hk. specialize (Hno k Hk). destruct (Hg k Hk) as [E|E]; [by rewrite E in Hno|done].
Qed.
End invariant.

(** * Schedules *)

Definition run_state (starts : list Z) (past : Z → Z) (spurious : bool) (sched : list (Z * Z)) (st : cross) : cross :=
  match run starts past spurious sched st with Some (Ok st') => st' | _ => st end.

Lemma run_steps starts past spurious sched st st' :
  run starts past spurious sched st = Some (Ok st') → rtc (step starts past spurious) st st'.
Proof.
  induction sched as [|[k rnd] sched IH] in st |- *; simpl; [intros [= ->]; apply rtc_refl|].
  destruct (decide (k = 0)) as [->|].
  { destruct (started st) eqn:Es; simpl; [done|]. intros ?.
    eapply rtc_l; [by constructor|]. by apply IH. }
  destruct (decide (1 ≤ k ≤ 4 ∧ 0 ≤ rnd)) as [[? ?]|].
  - destruct (thread_function starts past k rnd st) as [[st1| |]|] eqn:E; simpl; try done.
    intros ?. eapply rtc_l; [|by apply IH]. by apply (step_thread _ _ _ k rnd).
  - destruct (decide _) as [[? ?]|]; [|done]. destruct (spurious_wakeup (- k) st) eqn:E; simpl; [|done].
    intros ?. eapply rtc_l; [|by apply IH]. by apply (step_spurious _ _ _ (- k)).
Qed.

Lemma run_state_reachable starts past spurious sched :
  reachable starts past spurious (run_state starts past spurious sched init).
Proof.
  unfold run_state, reachable. destruct (run starts past spurious sched init) as [[st| |]|] eqn:E;
    try apply rtc_refl. by eapply run_steps.
Qed.

Lemma waiting_stuck starts past st :
  started st = true → (∀ k, 1 ≤ k ≤ 4 → pcs st k = TWait ∨ pcs st k = TExit) → stuck starts past st.
Proof.
  intros Hs Hw st' Hstep. destruct Hstep as [st Hn|k rnd st st' Hk _ Ht|]; [congruence| |done].
  unfold thread_function in Ht. by destruct (Hw k Hk) as [E|E]; rewrite E in Ht.
Qed.

(** Schedules of eager executions: a turn is taken only when nobody is at the
    head of a loop. *)
Definition nobody_loops (st : cross) : bool :=
  forallb (λ k, bool_decide (pcs st k ≠ TLoop)) [1; 2; 3; 4].

Definition eager_one (starts : list Z) (past : Z → Z) (k rnd : Z) (st : cross) : cross :=
  if decide (1 ≤ k ≤ 4 ∧ pcs st k = TLoop) then set_pc k TWait st
  else if nobody_loops st then run_state starts past false [(k, rnd)] st else st.

Fixpoint eager_state (starts : list Z) (past : Z → Z) (sched : list (Z * Z)) (st : cross) : cross :=
  match sched with
  | [] => st
  | (k, rnd) :: sched => eager_state starts past sched (eager_one starts past k rnd st)
  end.

Lemma nobody_loops_spec st : nobody_loops st = true → ∀ k, 1 ≤ k ≤ 4 → pcs st k ≠ TLoop.
Proof.
  unfold nobody_loops. rewrite forallb_forall. intros H k Hk.
  apply (bool_decide_unpack _). rewrite H; [done|]. apply list_elem_of_In.
  destruct (four k Hk) as [->|[->|[->| ->]]]; set_solver.
Qed.

Lemma eager_one_steps starts past k rnd st :
  rtc (eager_step starts past) st (eager_one starts past k rnd st).
Proof.
  unfold eager_one. destruct (decide _) as [[Hk Hpc]|_].
  - apply rtc_once. split; [|left; eauto]. apply (step_thread _ _ _ k 0); [done|done|].
    unfold thread_function. by rewrite Hpc.
  - destruct (nobody_loops st) eqn:Hn; [|apply rtc_refl].
    pose proof (nobody_loops_spec st Hn) as HL. unfold run_state. simpl.
    destruct (decide (k = 0)).
    + destruct (started st) eqn:Es; simpl; [apply rtc_refl|]. apply rtc_once.
      split; [by constructor|by right].
    + destruct (decide (1 ≤ k ≤ 4 ∧ 0 ≤ rnd)) as [[? ?]|]; [|apply rtc_refl].
      destruct (thread_function starts past k rnd st) as [[st'| |]|] eqn:E; simpl; try apply rtc_refl.
      apply rtc_once. split; [|by right]. by apply (step_thread _ _ _ k rnd).
Qed.

Lemma eager_state_reachable starts past sched st :
  rtc (eager_step starts past) st (eager_state starts past sched st).
Proof.
  induction sched as [|[k rnd] sched IH] in st |- *; simpl; [apply rtc_refl|].
  etrans; [apply eager_one_steps|apply IH].
Qed.

(** * Properties *)

Section properties.
Context (starts : list Z) (past : Z → Z).

(** C27: whenever the four threads have exited, each counter [P<k>] is the
    number of vehicles that start from point [k]: every vehicle has crossed
    exactly once, under every interleaving and every choice of [rand()] in which
    no thread is woken without a signal. *)
Theorem crossing_counts st :
  Forall (λ v, 1 ≤ v ≤ 4) starts → starts ≠ [] → reachable starts past false st → finished st →
  ∀ k, 1 ≤ k ≤ 4 → P st k = cnt k starts.
Proof.
  intros Hv Hs Hr Hf k Hk. destruct (reachable_inv starts past Hv Hs st Hr) as [ph HI].
  rewrite (finished_over starts past ph st HI Hf) in HI. destruct HI as (_ & HC & Ht & _).
  destruct HC as [H1 H2 H3 H4 H5 H6 H7]. simpl in H6. specialize (H4 k Hk).
  unfold items in H4. replace (howMany st) with 0 in H4 by lia. simpl in H4.
  unfold cnt in H4 at 1. simpl in H4. rewrite take_ge in H4 by (unfold input in *; lia). lia.
Qed.

(** C28: until the last vehicle has crossed, at most one thread is inside its
    turn, although each thread holds a mutex of its own, as long as no thread is
    woken without a signal. *)
Theorem one_crossing_at_a_time st j k :
  Forall (λ v, 1 ≤ v ≤ 4) starts → starts ≠ [] → reachable starts past false st →
  total st ≠ input starts → 1 ≤ j ≤ 4 → 1 ≤ k ≤ 4 →
  crossing (pcs st j) → crossing (pcs st k) → j = k.
Proof.
  intros Hv Hs Hr Ht Hj Hk Cj Ck. destruct (reachable_inv starts past Hv Hs st Hr) as [ph HI].
  assert (∀ i, idle (pcs st i) → ¬ crossing (pcs st i)) as Hex
    by (intros i [->| ->] [?|[?|?]]; done).
  assert (∃ i, rest_idle i st) as [i Hi].
  { destruct ph; simpl in HI; destruct_and? HI; eauto; done. }
  destruct (decide (j = i)) as [->|]; [|exfalso; apply (Hex j); [by apply Hi|done]].
  destruct (decide (k = i)) as [->|]; [done|exfalso; apply (Hex k); [by apply Hi|done]].
Qed.

(** With at most 30 vehicles no execution leaves [s.arr] or uses an item
    that was never set: every step of a thread that can run returns. *)
Theorem no_overflow_up_to_30 st k rnd r :
  Forall (λ v, 1 ≤ v ≤ 4) starts → starts ≠ [] → input starts ≤ 30 →
  reachable starts past false st → 1 ≤ k ≤ 4 → 0 ≤ rnd →
  thread_function starts past k rnd st = Some r → ∃ st', r = Ok st'.
Proof.
  intros Hv Hs Hn Hr Hk Hrnd Ht. destruct (reachable_inv starts past Hv Hs st Hr) as [ph HI].
  destruct (thread_ok starts past Hv ph st k rnd r HI Hk Hrnd Ht)
    as [(st' & _ & -> & _)|[_ ?]]; [eauto|lia].
Qed.

(** C29: with at least one vehicle, every execution without wake-ups that no
    signal has caused is finite: it takes at most [4 * input + 6] steps; and only
    with more than 30 vehicles can the next step of a thread be undefined. *)
Theorem executions_end m st :
  Forall (λ v, 1 ≤ v ≤ 4) starts → starts ≠ [] →
  nsteps (step starts past false) m init st →
  Z.of_nat m ≤ 4 * input starts + 6 ∧
  ∀ k rnd u, 1 ≤ k ≤ 4 → 0 ≤ rnd → thread_function starts past k rnd st = Some (Undef u) → 30 < input starts.
Proof.
  intros Hv Hs Hm.
  pose proof (steps_bounded starts past Hv Hs m init st Hm (ex_intro _ Before (init_inv starts past Hv Hs))).
  rewrite init_left in *.
  destruct (reachable_inv starts past Hv Hs st) as [ph HI].
  { by eapply (rtc_nsteps_2 m). }
  pose proof (left_nonneg starts ph st HI). split; [lia|]. intros k rnd u Hk Hrnd Ht.
  destruct (thread_ok starts past Hv ph st k rnd _ HI Hk Hrnd Ht) as [(? & ? & [=] & _)|[_ ?]]. lia.
Qed.

(** When threads always reach their wait before another turn starts, no
    signal is lost and the only states without a next step are those in
    which all four threads have exited. *)
Theorem eager_executions_finish st :
  Forall (λ v, 1 ≤ v ≤ 4) starts → starts ≠ [] → input starts ≤ 30 →
  rtc (eager_step starts past) init st → (∀ st', ¬ eager_step starts past st st') → finished st.
Proof.
  intros Hv Hs Hn Hr Hstuck. destruct (eager_inv starts past Hv Hs st Hr) as (ph & HI & Hg).
  by eapply eager_progress.
Qed.
End properties.

(** A signal sent before its thread has returned to its wait is lost and
    the program hangs: with the start points 1 3 1 a state is reachable in
    which a vehicle has not crossed and no step is possible. *)
Theorem lost_wakeup_deadlocks past :
  ∃ st, reachable [1; 3; 1] past false st ∧ stuck [1; 3; 1] past st ∧ total st < input [1; 3; 1].
Proof.
  set (sched := [(1,0); (2,0); (3,0); (4,0); (0,0); (1,0); (3,0); (1,0); (3,0)]).
  exists (run_state [1; 3; 1] past false sched init). split; [apply run_state_reachable|].
  split; [|vm_compute; done]. apply waiting_stuck; [by vm_compute|].
  intros k Hk. left. destruct (four k Hk) as [->|[->|[->| ->]]]; by vm_compute.
Qed.

(** The bound of 30 vehicles is sharp: with 31 vehicles from the same
    point a thread writes past the 15 elements of [s.arr]. *)
Theorem overflow_at_31 past :
  ∃ st, reachable (replicate 31 1) past false st ∧
    thread_function (replicate 31 1) past 1 0 st = Some (Undef OutOfBounds).
Proof.
  set (sched := [(1,0); (2,0); (3,0); (4,0); (0,0)] ++ replicate 29 (1,0)).
  exists (run_state (replicate 31 1) past false sched init). split; [apply run_state_reachable|].
  by vm_compute.
Qed.

(** With one wake-up that no signal has caused the three properties are lost:
    for one vehicle from point 3, the threads 1 and 2 are in their turns at once;
    and thread 1 counts the vehicle as one from point 1 and all threads exit,
    after more than [4 * input + 6] steps. *)
Definition woken : list (Z * Z) := [(1,0); (2,0); (3,0); (4,0); (-1,0); (-2,0)].
Definition all_woken : list (Z * Z) := woken ++ [(-3,0); (-4,0); (0,0); (1,0); (1,0); (2,0); (3,0); (4,0)].
Theorem spurious_wakeups_break past :
  (∃ st, reachable [3] past true st ∧ total st ≠ input [3] ∧ crossing (pcs st 1) ∧ crossing (pcs st 2)) ∧
  ∃ st, reachable [3] past true st ∧ finished st ∧ P st 1 ≠ cnt 1 [3] ∧ P st 3 ≠ cnt 3 [3] ∧ 4 * input [3] + 6 < Z.of_nat (length all_woken).
Proof.
  split.
  - exists (run_state [3] past true woken init). split; [apply run_state_reachable|].
    split_and!; [by vm_compute|left; by vm_compute..].
  - exists (run_state [3] past true all_woken init). split; [apply run_state_reachable|].
    split_and!; [|by vm_compute..].
    intros k Hk. destruct (four k Hk) as [->|[->|[->| ->]]]; by vm_compute.
Qed.

(** * Witnesses *)

(** Three vehicles that cross and the exit of the four threads. *)
Definition done_state : cross :=
  run_state [1; 3; 2] (λ _, 0) false
    [(1,0); (2,0); (3,0); (4,0); (0,0); (1,0); (1,0); (3,0); (3,0); (3,0); (2,0); (2,0);
     (1,0); (3,0); (4,0)] init.

(** The first vehicle is crossing. *)
Definition turn_state : cross :=
  run_state [1; 3; 2] (λ _, 0) false [(1,0); (2,0); (3,0); (4,0); (0,0)] init.

Lemma crossing_counts_witness : P done_state 3 = 1.
Proof.
  rewrite (crossing_counts [1; 3; 2] (λ _, 0) done_state).
  - by vm_compute.
  - by_decision.
  - done.
  - apply run_state_reachable.
  - intros k Hk. destruct (four k Hk) as [->|[->|[->| ->]]]; by vm_compute.
  - lia.
Defined.

Lemma one_crossing_at_a_time_witness : 1 = 1 ∧ pcs turn_state 1 = TReady.
Proof.
  split; [|by vm_compute].
  apply (one_crossing_at_a_time [1; 3; 2] (λ _, 0) turn_state);
    [by_decision|done|apply run_state_reachable|by vm_compute|lia|lia|left; by vm_compute..].
Defined.

Lemma no_overflow_up_to_30_witness :
  ∃ st', thread_function [1; 3; 2] (λ _, 0) 1 0 turn_state = Some (Ok st').
Proof.
  destruct (thread_function [1; 3; 2] (λ _, 0) 1 0 turn_state) as [r|] eqn:E;
    [|vm_compute in E; done].
  destruct (no_overflow_up_to_30 [1; 3; 2] (λ _, 0) turn_state 1 0 r) as [st' ->];
    [by_decision|done|vm_compute; done|apply run_state_reachable|lia|lia|done|eauto].
Defined.

Lemma executions_end_witness : Z.of_nat 1 ≤ 4 * 3 + 6.
Proof.
  refine (proj1 _). apply (executions_end [1; 3; 2] (λ _, 0) 1 (set_pc 1 TWait init)); [by_decision|done|].
  apply nsteps_once. by apply (step_thread _ _ _ 1 0).
Defined.

Definition eager_init : cross :=
  eager_state [1] (λ _, 0)
    [(1,0); (2,0); (3,0); (4,0); (0,0); (1,0); (1,0); (2,0); (3,0); (4,0)] init.

Lemma eager_executions_finish_witness : finished eager_init.
Proof.
  apply (eager_executions_finish [1] (λ _, 0)); [by_decision|done|vm_compute; done|..].
  - apply eager_state_reachable.
  - intros st' [Hs _]. revert Hs. apply waiting_stuck; [by vm_compute|].
    intros k Hk. right. destruct (four k Hk) as [->|[->|[->| ->]]]; by vm_compute.
Defined.
