(* ===== verification/ProcFs.v ===== *)
(** What the monitors [top] and [ps] of assignment 2 share
    (src/과제/OS과제/과제2/top.c, ps.c and their headers): reading /proc into
    the list of processes. *)
From S2P Require Import Prelude CString LongDouble.
Local Open Scope Z_scope.

(** * The system the programs look at

    One consistent snapshot: a path that names no readable file has no
    contents. [localtime] and [strftime] depend on the time zone database. *)

Record stat := Stat { st_isdir : bool; st_ischr : bool; st_rdev : Z; st_uid : Z }.
Record tm := Tm { tm_hour : Z; tm_min : Z; tm_sec : Z; tm_yday : Z }.

Record system := System {
  fopen : string → option string;
  access_F : string → bool;                 (** [access(path,F_OK)] *)
  access_R : string → bool;                 (** [access(path,R_OK)] *)
  readdir : string → option (list string);
  stat_of : string → option stat;
  readlink : string → option string;
  getpwuid : Z → option string;             (** [pw_name] *)
  clk_tck : Z;                              (** [sysconf(_SC_CLK_TCK)] *)
  time_now : Z;
  localtime : Z → tm;
  users : list bool;                        (** the utmp entries: is it a user process? *)
}.

Definition SMALL_LEN : nat := 32.
Definition BIG_LEN : nat := 1024.
Definition MAX_LEN : Z := 4096.
Definition PID_MAX_LEN : Z := 32768.
Definition STAT_PID : nat := 0.
Definition STAT_CMD : nat := 1.
Definition STAT_STATE : nat := 2.
Definition STAT_TTY_NR : nat := 6.
Definition STAT_UTIME : nat := 13.
Definition STAT_STIME : nat := 14.
Definition STAT_PRIORITY : nat := 17.
Definition STAT_NICE : nat := 18.
Definition STAT_START_TIME : nat := 21.
Definition STATUS_VSZ_ROW : nat := 18.
Definition STATUS_VMLCK_ROW : nat := 19.
Definition STATUS_RSS_ROW : nat := 22.
Definition STATUS_SHR_ROW : nat := 24.

Record MY_PROC := Proc {
  pid : Z;
  uid : Z;
  user_name : string;
  cpu_percent : long_double;
  mem_percent : long_double;
  vsz : Z;
  rss : Z;
  shr : Z;
  priority : Z;
  nice : Z;
  tty : string;
  stat_letter : string;
  ptime : string;
  cmd : string;
  cmd_option : string;
}.

(** [init_proc]: every field zero. *)
Definition init_proc : MY_PROC :=
  Proc 0 0 "" (S754_zero false) (S754_zero false) 0 0 0 0 0 "" "" "" "" "".

(** * Numbers in text *)

(** The loop that moves [ptr] to a digit and [sscanf(ptr,"%lu",&v)]: without a
    digit the pointer leaves the buffer. *)
Definition first_number (buf : string) : res Z :=
  let '(_, ptr) := span (λ c, negb (is_digit c)) buf in
  if decide (ptr = EmptyString) then Undef OutOfBounds else opt Uninitialised (scan_lu ptr).

(** The search with [strlen] as its limit: the first digit, or the start. *)
Definition digit_ptr (buf : string) : nat :=
  let '(pre, ptr) := span (λ c, negb (is_digit c)) buf in
  if decide (ptr = EmptyString) then 0%nat else String.length pre.

(** [fgets] into a cleared buffer of [BIG_LEN] characters. *)
Definition next_line (s : string) : string * string :=
  match fgets BIG_LEN s with Some (line, rest) => (line, rest) | None => (EmptyString, s) end.

Fixpoint next_lines (n : nat) (line s : string) : string * string :=
  match n with
  | O => (line, s)
  | S n => let '(line, s) := next_line s in next_lines n line s
  end.

Definition to_kb (ul : Z) : Z := wrapu64 (ul * 1024) / 1000.

Definition get_total_memory (sys : system) : res Z :=
  match fopen sys "/proc/meminfo" with
  | None => Exit 1
  | Some text => v ← first_number (next_line text).1; Ok (to_kb v)
  end.

Definition get_uptime (sys : system) : res Z :=
  match fopen sys "/proc/uptime" with
  | None => Exit 1
  | Some text =>
      match scan_Lf (next_line text).1 with
      | Some (t, _) => ld_to_ulong t
      | None => Undef Uninitialised
      end
  end.

(** * Terminals *)

(** [n] times [fscanf(fp,"%s",tmp)] into a cleared buffer. *)
Fixpoint read_words (n : nat) (s : string) : list string :=
  match n with
  | O => []
  | S n =>
      match fscanf_word s with
      | Some (w, rest) => w :: read_words n rest
      | None => EmptyString :: read_words n EmptyString
      end
  end.

(** The first character device of /dev with the device number [tty_nr]. *)
Fixpoint find_device (sys : system) (names : list string) (tty_nr : Z) : res string :=
  match names with
  | [] => Ok EmptyString
  | d_name :: names =>
      match stat_of sys ("/dev/" +:+ d_name) with
      | None => Exit 1
      | Some statbuf =>
          if negb (st_ischr statbuf) then find_device sys names tty_nr
          else if decide (st_rdev statbuf = wrapu64 tty_nr) then Ok d_name
          else find_device sys names tty_nr
      end
  end.

(** [sscanf(symbolic,"/dev/%s",tty)] *)
Definition scan_dev (symbolic : string) : string :=
  if String.prefix "/dev/" symbolic
  then match fscanf_word (string_drop 5 symbolic) with Some (w, _) => w | None => "" end
  else "".

(** [cap]: the size of the buffer the name is stored in. *)
Definition get_tty (sys : system) (cap : nat) (path : string) : res string :=
  let zero_path := path +:+ "/fd/0" in
  if negb (access_F sys zero_path) then
    stat_path ← store SMALL_LEN (path +:+ "/stat");
    match fopen sys stat_path with
    | None => Ok ""
    | Some text =>
        w ← store BIG_LEN (nth STAT_TTY_NR (read_words (S STAT_TTY_NR) text) EmptyString);
        match readdir sys "/dev" with
        | None => Exit 1
        | Some names =>
            t ← find_device sys names (atoi w);
            store cap (if decide (t = EmptyString) then "?" else t)
        end
    end
  else
    match readlink sys zero_path with
    | None => Exit 1
    | Some symbolic =>
        symbolic ← store BIG_LEN symbolic;
        store cap (if decide (symbolic = "/dev/null") then "?" else scan_dev symbolic)
    end.

(** * One process *)

(** The login name, with systemd-... shortened to "systemd+". *)
Definition short_user (pw_name : string) : res string :=
  tmp ← store SMALL_LEN pw_name;
  if decide (string_take 8 tmp = "systemd-") then Ok "systemd+" else Ok pw_name.

(** [total_time / hertz] with [hertz] converted to [unsigned long]. *)
Definition per_hertz (sys : system) (t : Z) : res Z :=
  if decide (wrapu64 (clk_tck sys) = 0) then Undef DivByZero else Ok (t / wrapu64 (clk_tck sys)).

(** [(total_time / hertz) / (long double)(uptime - (start_time / hertz)) * 100] *)
Definition cpu_usage (sys : system) (uptime total_time start_time : Z) : res long_double :=
  t ← per_hertz sys total_time;
  st ← per_hertz sys start_time;
  Ok (ld_mul (ld_div (ld_of_Z t) (ld_of_Z (wrapu64 (uptime - st)))) (ld_of_Z 100)).

(** The value [sscanf(ptr,"%lu",&v)] stores, [v] when it stores none. *)
Definition line_number (buf : string) (v : Z) : Z :=
  match scan_lu (string_drop (digit_ptr buf) buf) with Some n => n | None => v end.

(** The rows of /proc/<pid>/status: [vsz], [rss], [shr] and the memory share.
    The test [buf[6] = '\0'] also ends a number that starts there. *)
Definition read_status (total_mem : Z) (text : string) : Z * Z * Z * long_double :=
  let '(buf, s) := next_lines STATUS_VSZ_ROW "" text in
  if decide (string_take 6 buf = "VmSize") then
    let vsz := if decide (digit_ptr buf ≤ 6)%nat then 0 else line_number buf 0 in
    let '(buf, s) := next_lines (STATUS_VMLCK_ROW - STATUS_VSZ_ROW) buf s in
    let '(buf, s) := next_lines (STATUS_RSS_ROW - STATUS_VMLCK_ROW) buf s in
    let rss := line_number buf 0 in
    let '(buf, s) := next_lines (STATUS_SHR_ROW - STATUS_RSS_ROW) buf s in
    let shr := line_number buf 0 in
    (vsz, rss, shr, ld_mul (ld_div (ld_of_Z rss) (ld_of_Z total_mem)) (ld_of_Z 100))
  else (0, 0, 0, S754_zero false).

(** [sscanf(token,"(%s",cmd); cmd[strlen(cmd)-1] = '\0';] *)
Definition read_cmd (token : string) : res string :=
  let cmd := match token with
             | String c s => if decide (c = "("%char)
                             then match fscanf_word s with Some (w, _) => w | None => "" end
                             else ""
             | EmptyString => ""
             end in
  if decide (cmd = EmptyString) then Undef OutOfBounds
  else Ok (string_take (String.length cmd - 1) cmd).

Definition nul : ascii := "000"%char.

(** The byte loop on /proc/<pid>/cmdline. *)
Fixpoint cmdline_loop (s acc : string) : string :=
  match s with
  | EmptyString => acc
  | String c s1 =>
      if decide (c = nul) then
        match s1 with
        | EmptyString => acc
        | String d s2 =>
            if decide (d = nul) then acc
            else cmdline_loop s2 ((acc +:+ String d EmptyString) +:+ String d EmptyString)
        end
      else cmdline_loop s1 (acc +:+ String c EmptyString)
  end.

Definition read_cmdline (text cmd : string) : res string :=
  o ← store (BIG_LEN + 100) (cmdline_loop text "");
  store (BIG_LEN + 100) (if decide (o = EmptyString) then "[" +:+ cmd +:+ "]" else o).

(** The 32 tokens of /proc/<pid>/stat, each into 32 characters. *)
Fixpoint store_all (cap : nat) (l : list string) : res (list string) :=
  match l with
  | [] => Ok []
  | w :: l => w ← store cap w; l ← store_all cap l; Ok (w :: l)
  end.

Section add_proc.
(** Where [top] and [ps] differ: the terminal and the time column. *)
Context (sys : system) (uptime total_mem : Z).
Context (tty_of : string → res string) (show_time : Z → res string).

(** What [add_proc_list] appends to the list; [None] when it gives up on the
    process and returns early. *)
Definition read_proc (path : string) : res (option MY_PROC) :=
  let stat_path := path +:+ "/stat" in
  if negb (access_R sys stat_path) then Ok None else
  match fopen sys stat_path with
  | None => Ok None
  | Some text =>
    stat_token ← store_all SMALL_LEN (read_words SMALL_LEN text);
    let tok i := nth i stat_token EmptyString in
    let pid := wrapu64 (atol (tok STAT_PID)) in
    match stat_of sys stat_path with
    | None => Ok None
    | Some statbuf =>
      pw_name ← opt NullPointer (getpwuid sys (st_uid statbuf));
      user ← short_user pw_name;
      let utime := wrapu64 (atol (tok STAT_UTIME)) in
      let stime := wrapu64 (atol (tok STAT_STIME)) in
      let start_time := wrapu64 (atol (tok STAT_START_TIME)) in
      let total_time := wrapu64 (utime + stime) in
      _ ← (if decide (pid < PID_MAX_LEN) then Ok tt else Undef OutOfBounds);
      cpu ← cpu_usage sys uptime total_time start_time;
      status_path ← store SMALL_LEN (path +:+ "/status");
      match fopen sys status_path with
      | None => Ok None
      | Some status =>
        let '(vsz, rss, shr, mem) := read_status total_mem status in
        tty ← tty_of path;
        time ← show_time total_time;
        cmd ← read_cmd (tok STAT_CMD);
        match fopen sys (path +:+ "/cmdline") with
        | None => Ok None
        | Some cmdline =>
          option ← read_cmdline cmdline cmd;
          Ok (Some (Proc pid (st_uid statbuf) user cpu mem vsz rss shr
                         (atoi (tok STAT_PRIORITY)) (atoi (tok STAT_NICE)) tty
                         (tok STAT_STATE) time cmd option))
        end
      end
    end
  end.

Definition add_proc_list (path : string) (proc_list : list MY_PROC) : res (list MY_PROC) :=
  o ← read_proc path;
  match o with
  | None => Ok proc_list
  | Some p => if decide (Z.of_nat (length proc_list) < MAX_LEN) then Ok (proc_list ++ [p])
              else Undef OutOfBounds
  end.

(** [keep]: the tests of [search_process] after the one on the name. *)
Context (keep : string → stat → res bool).

Definition all_digit (d_name : string) : bool := bool_decide ((span is_digit d_name).2 = EmptyString).

Fixpoint search_names (names : list string) (proc_list : list MY_PROC) : res (list MY_PROC) :=
  match names with
  | [] => Ok proc_list
  | d_name :: names =>
      let path := "/proc/" +:+ d_name in
      match stat_of sys path with
      | None => Exit 1
      | Some statbuf =>
          if negb (st_isdir statbuf) then search_names names proc_list
          else if negb (all_digit d_name) then search_names names proc_list
          else
            b ← keep path statbuf;
            if b : bool then
              proc_list ← add_proc_list path proc_list;
              search_names names proc_list
            else search_names names proc_list
      end
  end.
End add_proc.

(** The name of the own terminal: cut after the digits that follow its first
    four characters. *)
Definition own_tty (t : string) : string :=
  string_take 4 t +:+ (span is_digit (string_drop 4 t)).1.
