(* ===== verification/Ps.v ===== *)
(** The [ps] of assignment 2 (src/과제/OS과제/과제2/ps.c): the processes of
    the user on the own terminal. *)
From S2P Require Import Prelude CString LongDouble ProcFs.
Local Open Scope Z_scope.

(** [int hour = total_time / 60, min = total_time / 3600,
    sec = (total_time - min*3600) / 60;] in the "%02d:%02d:%02d" format. *)
Definition ps_time (total_time : Z) : res string :=
  let hour := wrap32 (total_time / 60) in
  let min := wrap32 (total_time / 3600) in
  m ← in_int (min * 3600);
  let sec := wrap32 (wrapu64 (total_time - m) / 60) in
  store SMALL_LEN (pad0 2 hour +:+ ":" +:+ pad0 2 min +:+ ":" +:+ pad0 2 sec).

(** [ps.c] carries its own copies of these functions of [top.c], letter for
    letter the same. *)
Definition ps_get_total_memory : system → res Z := get_total_memory.
Definition ps_get_uptime : system → res Z := get_uptime.
Definition ps_get_tty : system → nat → string → res string := get_tty.

Section ps.
Context (sys : system) (my_uid : Z) (my_tty : string).

Definition ps_keep (path : string) (statbuf : stat) : res bool :=
  if negb (bool_decide (st_uid statbuf = my_uid)) then Ok false
  else
    tty ← ps_get_tty sys BIG_LEN path;
    if decide (tty = "" ∨ tty = "?") then Ok false else Ok (bool_decide (tty = my_tty)).

Definition ps_add_proc_list (uptime total_mem : Z) :=
  add_proc_list sys uptime total_mem (ps_get_tty sys SMALL_LEN) ps_time.

Definition ps_search_process (total_mem : Z) : res (list MY_PROC) :=
  uptime ← ps_get_uptime sys;
  match readdir sys "/proc" with
  | None => Exit 1
  | Some names =>
      search_names sys uptime total_mem (ps_get_tty sys SMALL_LEN) ps_time ps_keep names []
  end.
End ps.

Definition ps_line (p : MY_PROC) : res string :=
  token ← store SMALL_LEN ("  " +:+ pretty (pid p));
  store BIG_LEN (token +:+ " " +:+ tty p +:+ "    " +:+ ptime p +:+ " " +:+ cmd p).

Fixpoint ps_lines (l : list MY_PROC) : res (list string) :=
  match l with
  | [] => Ok []
  | p :: l => s ← ps_line p; t ← ps_lines l; Ok (s :: t)
  end.

Definition ps_print (l : list MY_PROC) : res (list string) :=
  t ← ps_lines l; Ok ("    PID TTY       TIME CMD" :: t).

(** [self] and [my_uid]: [getpid()] and [getuid()]. *)
Definition ps_main (sys : system) (self my_uid : Z) : res (list string) :=
  total_mem ← ps_get_total_memory sys;
  pid_path ← store SMALL_LEN ("/" +:+ pretty self);
  path ← store SMALL_LEN ("/proc" +:+ pid_path);
  t ← ps_get_tty sys SMALL_LEN path;
  proc_list ← ps_search_process sys my_uid (own_tty t) total_mem;
  ps_print proc_list.
