(* ===== verification/Top.v ===== *)
(** The [top] of assignment 2 (src/과제/OS과제/과제2/top.c): the list of all
    processes, its order, the screen and the keys. *)
From S2P Require Import Prelude CString Sorting LongDouble ProcFs.
Local Open Scope Z_scope.

(** * The list *)

(** [int min = total_time / 3600, sec = (total_time - min*3600) / 60;] and
    the rest, in the "%02d:%02d.%02lld" format. *)
Definition top_time (total_time : Z) : res string :=
  let min := wrap32 (total_time / 3600) in
  m ← in_int (min * 3600);
  let sec := wrap32 (wrapu64 (total_time - m) / 60) in
  s ← in_int (sec * 60);
  let rest := wrapu64 (total_time - m - s) in
  let rest := if decide (rest < 2^63) then rest else rest - 2^64 in
  store SMALL_LEN (pad0 2 min +:+ ":" +:+ pad0 2 sec +:+ "." +:+ pad0 2 rest).

Definition top_add_proc_list (sys : system) (uptime total_mem : Z) :=
  add_proc_list sys uptime total_mem (λ _, Ok "") top_time.

Definition search_process (sys : system) (total_mem : Z) : res (list MY_PROC) :=
  uptime ← get_uptime sys;
  match readdir sys "/proc" with
  | None => Exit 1
  | Some names =>
      search_names sys uptime total_mem (λ _, Ok "") top_time (λ _ _, Ok true) names []
  end.

(** Does [a] come after [b]? *)
Definition compare_cpu (a b : MY_PROC) : bool :=
  if ld_lt (cpu_percent a) (cpu_percent b) then true
  else if ld_gt (cpu_percent a) (cpu_percent b) then false
  else bool_decide (pid b < pid a).

(** Bubble sort of the pointers to the list. *)
Definition sort_cpu (proc_list : list MY_PROC) : res (list MY_PROC) :=
  bubble_sort compare_cpu (Z.of_nat (length proc_list)) proc_list.

(** * The screen: the [mvprintw(y,x,...)] calls *)

Record put := Put { p_y : Z; p_x : Z; p_text : string }.

Definition TOP_ROW : Z := 0.
Definition TASK_ROW : Z := 1.
Definition CPU_ROW : Z := 2.
Definition MEM_ROW : Z := 3.
Definition COLUMN_ROW : Z := 6.
Definition COLS : Z := 70.

Definition pad_ld (w p : nat) (z : Z) : string := show_Lf w p (ld_div (ld_of_Z z) (ld_of_Z 1024)).

Definition show_clock (t : tm) : string :=
  pad0 2 (tm_hour t) +:+ ":" +:+ pad0 2 (tm_min t) +:+ ":" +:+ pad0 2 (tm_sec t).

Definition show_uptime (sys : system) (uptime : Z) : string :=
  let t := localtime sys uptime in
  if decide (uptime < 60 * 60) then pad 2 (pretty (tm_min t)) +:+ " min"
  else if decide (uptime < 60 * 60 * 24)
  then pad 2 (pretty (tm_hour t)) +:+ ":" +:+ pad0 2 (tm_min t)
  else pad 3 (pretty (tm_yday t)) +:+ " days, " +:+ pad0 2 (tm_hour t) +:+ ":" +:+
       pad0 2 (tm_min t).

(** [n] times [%Lf]; fewer values leave the rest unset. *)
Fixpoint scan_Lfs (n : nat) (s : string) : list long_double :=
  match n with
  | O => []
  | S n => match scan_Lf s with Some (v, r) => v :: scan_Lfs n r | None => [] end
  end.

Definition nth_ld (l : list long_double) (i : nat) : res long_double := opt Uninitialised (l !! i).

Definition print_top (sys : system) (now uptime : Z) : res put :=
  let count_user := Z.of_nat (length (filter (λ b, b = true) (users sys))) in
  match fopen sys "/proc/loadavg" with
  | None => Exit 1
  | Some text =>
      let l := scan_Lfs 3 (next_line text).1 in
      a ← nth_ld l 0; b ← nth_ld l 1; c ← nth_ld l 2;
      Ok (Put TOP_ROW 0 ("top - " +:+ show_clock (localtime sys now) +:+ " up " +:+
            show_uptime sys uptime +:+ ", " +:+ pretty count_user +:+ " users, load average: " +:+
            show_Lf 4 2 a +:+ ", " +:+ show_Lf 4 2 b +:+ ", " +:+ show_Lf 4 2 c))
  end.

(** running, sleeping, stopped, zombie *)
Record tasks := Tasks { running : Z; sleeping : Z; stopped : Z; zombie : Z }.

Definition count_task (t : tasks) (p : MY_PROC) : tasks :=
  let '(Tasks r s st z) := t in
  if decide (stat_letter p = "R") then Tasks (r + 1) s st z
  else if decide (stat_letter p = "D") then Tasks r (s + 1) st z
  else if decide (stat_letter p = "S") then Tasks r (s + 1) st z
  else if decide (stat_letter p = "T") then Tasks r s (st + 1) z
  else if decide (stat_letter p = "t") then Tasks r s (st + 1) z
  else if decide (stat_letter p = "Z") then Tasks r s st (z + 1)
  else t.

Definition count_tasks (l : list MY_PROC) : tasks := foldl count_task (Tasks 0 0 0 0) l.

Definition print_tasks (l : list MY_PROC) : put :=
  let '(Tasks r s st z) := count_tasks l in
  Put TASK_ROW 0 ("Tasks:  " +:+ pad 4 (pretty (Z.of_nat (length l))) +:+ " total,  " +:+
    pad 4 (pretty r) +:+ " running, " +:+ pad 4 (pretty s) +:+ " sleeping,  " +:+
    pad 4 (pretty st) +:+ " stopped, " +:+ pad 4 (pretty z) +:+ " zombie").

(** The shares of the processor since boot: [before_uptime] is a local that
    is 0 at its test, so the difference to the last call is never taken. *)
Definition tick_shares (sys : system) (uptime : Z) (line : string) : res (list long_double) :=
  let '(_, ptr) := span (λ c, negb (is_digit c)) line in
  if decide (ptr = EmptyString) then Undef OutOfBounds else
  let ticks := scan_Lfs 8 ptr in
  if decide (length ticks < 8)%nat then Undef Uninitialised else
  let tick_cnt := wrapu64 (uptime * wrapu64 (clk_tck sys)) in
  Ok ((λ t, ld_mul (ld_div t (ld_of_Z tick_cnt)) (ld_of_Z 100)) <$> ticks).

Definition print_cpu (sys : system) (uptime : Z) : res put :=
  match fopen sys "/proc/stat" with
  | None => Exit 1
  | Some text =>
      t ← tick_shares sys uptime (next_line text).1;
      us ← nth_ld t 0; ni ← nth_ld t 1; sy ← nth_ld t 2; id ← nth_ld t 3;
      wa ← nth_ld t 4; hi ← nth_ld t 5; si ← nth_ld t 6; st ← nth_ld t 7;
      let f := show_Lf 4 1 in
      Ok (Put CPU_ROW 0 ("%Cpu(s):  " +:+ f us +:+ " us, " +:+ f sy +:+ " sy, " +:+ f ni +:+
            " ni, " +:+ f id +:+ " id, " +:+ f wa +:+ " wa, " +:+ f hi +:+ " hi, " +:+
            f si +:+ " si, " +:+ f st +:+ " st" +:+ String newline EmptyString))
  end.

(** [indx] lines have been read; the value is on line [limit]. *)
Definition read_meminfo (limit : nat) (st : string * nat) : res (Z * (string * nat)) :=
  let '(text, indx) := st in
  let '(buf, text) := next_lines (limit - indx) EmptyString text in
  v ← first_number buf;
  Ok (v, (text, Nat.max indx limit)).

Definition print_mem (sys : system) : res (list put) :=
  match fopen sys "/proc/meminfo" with
  | None => Exit 1
  | Some text =>
      '(mem_total, s) ← read_meminfo 1 (text, 0%nat);
      '(mem_free, s) ← read_meminfo 2 s;
      '(mem_available, s) ← read_meminfo 3 s;
      '(buffer, s) ← read_meminfo 4 s;
      '(cached, s) ← read_meminfo 5 s;
      '(swap_total, s) ← read_meminfo 15 s;
      '(swap_free, s) ← read_meminfo 16 s;
      '(s_reclaimable, s) ← read_meminfo 24 s;
      let mem_used := wrapu64 (mem_total - mem_free - buffer - cached - s_reclaimable) in
      let swap_used := wrapu64 (swap_total - swap_free) in
      let f := pad_ld 8 1 in
      Ok [Put MEM_ROW 0 ("Mib Mem : " +:+ f mem_total +:+ " total,  " +:+ f mem_free +:+
            " free,  " +:+ f mem_used +:+ " used,  " +:+
            f (wrapu64 (buffer + cached + s_reclaimable)) +:+ " buff/cache" +:+
            String newline EmptyString);
          Put (MEM_ROW + 1) 0 ("Mib Swap: " +:+ f swap_total +:+ " total,  " +:+ f swap_free +:+
            " free,  " +:+ f swap_used +:+ " used,  " +:+ f mem_available +:+ " avail Mem" +:+
            String newline EmptyString)]
  end.

(** * Columns *)

Definition len (s : string) : Z := Z.of_nat (String.length s).

Definition show_cpu : long_double → string := show_Lf 3 1.

(** The texts whose lengths give the width of each column. *)
Definition fields (p : MY_PROC) : list string :=
  [pretty (pid p); user_name p; pretty (priority p); pretty (nice p); pretty (vsz p);
   pretty (rss p); pretty (shr p); stat_letter p; show_cpu (cpu_percent p);
   show_cpu (mem_percent p); ptime p; cmd p].

Definition widen (w : Z) (s : string) : Z := if decide (len s < w) then w else len s.

Definition column_width (l : list MY_PROC) : list Z :=
  foldl (λ ws p, zip_with widen ws (fields p)) [3; 4; 2; 2; 4; 3; 3; 1; 4; 3; 4; 7] l.

Record layout := Layout { start_x : list Z; start_col : Z; end_col : Z; max_cmd : Z }.

Definition place_columns (width : list Z) (col : Z) : res layout :=
  if decide (11 ≤ col) then Ok (Layout (replicate 12 0) 11 12 COLS)
  else
    '(xs, stop) ← for_brk (col + 1) 12 (λ i '(xs, stop),
        w ← rd width (i - 1); x0 ← rd xs (i - 1);
        let x := w + 2 + x0 in
        xs ← wr xs i x;
        Ok (if decide (COLS ≤ x) then inr (xs, Some i) else inl (xs, stop)))
      (replicate 12 0, None : option Z);
    match stop with
    | Some i => Ok (Layout xs col i (-1))
    | None => x11 ← rd xs 11; Ok (Layout xs col 12 (COLS - x11))
    end.

Definition shown (lay : layout) (i : Z) : bool :=
  bool_decide (start_col lay ≤ i ∧ i < end_col lay).

(** Name and, for a right-aligned name, its length. A column without one is
    printed with the gap the column before it left behind; column 7 with none. *)
Definition headings : list (Z * string * option Z) :=
  [(0, "PID", Some 3); (1, "USER", None); (2, "PR", Some 2); (3, "NI", Some 2);
   (4, "VIRT", Some 4); (5, "RES", Some 3); (6, "SHR", Some 3); (7, "S", None);
   (8, "%CPU", Some 4); (9, "%MEM", Some 3); (10, "TIME+", Some 5)].

Definition put_heading (width : list Z) (lay : layout) (st : Z * list put)
    (h : Z * string * option Z) : res (Z * list put) :=
  let '(gap, out) := st in let '(i, name, n) := h in
  if shown lay i then
    x ← rd (start_x lay) i;
    gap ← match n with Some n => w ← rd width i; Ok (w - n) | None => Ok gap end;
    Ok (gap, out ++ [Put COLUMN_ROW (x + (if decide (i = 7) then 0 else gap)) name])
  else Ok (gap, out).

Fixpoint foldM {A B} (f : A → B → res A) (a : A) (l : list B) : res A :=
  match l with [] => Ok a | b :: l => a ← f a b; foldM f a l end.

Definition put_headings (width : list Z) (lay : layout) : res (list put) :=
  '(_, out) ← foldM (put_heading width lay)
                (0, (λ i, Put COLUMN_ROW i " ") <$> seqZ 0 COLS) headings;
  x ← rd (start_x lay) 11;
  Ok (out ++ [Put COLUMN_ROW x "COMMAND"]).

(** The cells of a row: column, text, is it right-aligned? *)
Definition cells (p : MY_PROC) : list (Z * string * bool) :=
  [(0, pretty (pid p), true); (1, user_name p, false); (2, pretty (priority p), true);
   (3, pretty (nice p), true); (4, pretty (vsz p), true); (5, pretty (rss p), true);
   (6, pretty (shr p), true); (7, stat_letter p, false);
   (8, show_LF 3 1 (cpu_percent p), true); (9, show_cpu (mem_percent p), true);
   (10, ptime p, false)].

Definition put_cell (width : list Z) (lay : layout) (y : Z) (out : list put)
    (c : Z * string * bool) : res (list put) :=
  let '(i, text, align) := c in
  if shown lay i then
    x ← rd (start_x lay) i; w ← rd width i;
    Ok (out ++ [Put y (x + (if align : bool then w - len text else 0)) text])
  else Ok out.

(** The command: cut at [max_cmd], printed from its character [tap*8]; the
    1024 characters of the field are zero behind the text. *)
Definition put_command (lay : layout) (col y : Z) (p : MY_PROC) (out : list put)
    : res (list put) :=
  let tap := if decide (col < 11) then 0 else col - 11 in
  if decide (0 ≤ max_cmd lay < Z.of_nat BIG_LEN) then
    let cmd := string_take (Z.to_nat (max_cmd lay)) (cmd p) in
    if decide (tap * 8 < Z.of_nat BIG_LEN) then
      x ← rd (start_x lay) 11;
      Ok (out ++ [Put y x (string_drop (Z.to_nat (tap * 8)) cmd)])
    else Undef OutOfBounds
  else Undef OutOfBounds.

Definition put_row (width : list Z) (lay : layout) (col y : Z) (p : MY_PROC) : res (list put) :=
  out ← foldM (put_cell width lay y) [] (cells p);
  put_command lay col y p out.

Definition put_rows (width : list Z) (lay : layout) (row col : Z) (sorted : list MY_PROC)
    : res (list put) :=
  for_up row (Z.of_nat (length sorted)) (λ i out,
    p ← rd sorted i;
    r ← put_row width lay col (COLUMN_ROW + 1 + i - row) p;
    Ok (out ++ r)) [].

Definition print (sys : system) (now : Z) (proc_list sorted : list MY_PROC) (row col : Z)
    : res (list put) :=
  uptime ← get_uptime sys;
  top ← print_top sys now uptime;
  cpu ← print_cpu sys uptime;
  mem ← print_mem sys;
  let width := column_width proc_list in
  lay ← place_columns width col;
  head ← put_headings width lay;
  rows ← put_rows width lay row col sorted;
  Ok ([top; print_tasks proc_list; cpu] ++ mem ++ head ++ rows).

(** * The main loop *)

Inductive key : Set := KEY_LEFT | KEY_RIGHT | KEY_UP | KEY_DOWN | KEY_q | NoKey.

#[global] Instance key_eq_dec : EqDecision key.
Proof. solve_decision. Defined.

Record state := State {
  row : Z;
  col : Z;
  proc_list : list MY_PROC;
  before : Z;
  total_mem : Z;
  screen : list put;
}.

(** [row], [col] and [check] after a key. *)
Definition press (ch : key) (proc_cnt row col : Z) : Z * Z * bool :=
  match ch with
  | KEY_LEFT => (row, if decide (col - 1 < 0) then 0 else col - 1, true)
  | KEY_RIGHT => (row, col + 1, true)
  | KEY_UP => (if decide (row - 1 < 0) then 0 else row - 1, col, true)
  | KEY_DOWN => (if decide (proc_cnt < row + 1) then proc_cnt else row + 1, col, true)
  | KEY_q | NoKey => (row, col, false)
  end.

(** [search_process]; [sort_cpu]; [print]; [refresh]. *)
Definition refresh (sys : system) (st : state) : res state :=
  l ← search_process sys (total_mem st);
  sorted ← sort_cpu l;
  out ← print sys (time_now sys) l sorted (row st) (col st);
  Ok (State (row st) (col st) l (time_now sys) (total_mem st) out).

(** One round of the loop: the key read at the end of the last one and the
    system as it is now. *)
Definition round (ch : key) (sys : system) (st : state) : res state :=
  let '(r, c, check) := press ch (Z.of_nat (length (proc_list st))) (row st) (col st) in
  let st := State r c (proc_list st) (before st) (total_mem st) (screen st) in
  if decide (check = true ∨ 3 ≤ time_now sys - before st) then refresh sys st else Ok st.

Fixpoint rounds (l : list (key * system)) (st : state) : res state :=
  match l with
  | [] => Ok st
  | (ch, sys) :: l => if decide (ch = KEY_q) then Ok st else st ← round ch sys st; rounds l st
  end.

(** [self]: [getpid()]; the first round sees no key. *)
Definition main (sys : system) (self : Z) (keys : list (key * system)) : res state :=
  total_mem ← get_total_memory sys;
  pid_path ← store SMALL_LEN ("/" +:+ pretty self);
  path ← store SMALL_LEN ("/proc" +:+ pid_path);
  t ← get_tty sys SMALL_LEN path;
  st ← refresh sys (State 0 0 [] (time_now sys) total_mem []);
  rounds ((NoKey, sys) :: keys) st.
