(* ===== verification/TopProofs.v ===== *)
(** The monitors [top] and [ps]: the order of the process list, the layout of
    the columns, and what the columns show. *)
From S2P Require Import Prelude CString Sorting LongDouble ProcFs Ps Top.
Local Open Scope Z_scope.

(** * Specification *)

(** The processor share is a number. *)
Definition has_share (p : MY_PROC) : Prop := is_nan (cpu_percent p) = false.

(** The width of the columns [col] .. [i-1] with their two separating spaces. *)
Definition offset (width : list Z) (col i : Z) : Z :=
  foldr Z.add 0 ((λ w, w + 2) <$> take (Z.to_nat (i - col)) (drop (Z.to_nat col) width)).

(** A word: not empty, without white space. *)
Definition word (w : string) : Prop :=
  w ≠ EmptyString ∧ ∀ n c, string_get w n = Some c → is_space c = false.

(** Words on a line, each followed by a space. *)
Definition line_of (ws : list string) : string := foldr (λ w s, w +:+ String " "%char s) "" ws.

(** The bytes of /proc/<pid>/cmdline: each argument ends with a null byte. *)
Definition cmdline_of (args : list string) : string :=
  foldr (λ a s, a +:+ String nul s) "" args.

Definition double_first (a : string) : string :=
  match a with String c a' => String c (String c a') | EmptyString => EmptyString end.

(** * The order of the list *)

Lemma ld_lt_asym a b : ld_lt a b = true → ld_lt b a = false.
Proof.
  intros H. destruct (is_nan a) eqn:Ha; [by destruct a|].
  destruct (is_nan b) eqn:Hb; [by destruct b, a|].
  destruct (ld_lt b a) eqn:E; [|done]. exfalso.
  apply ld_lt_key in H, E; [|done..]. eapply key_lt_irrefl. by eapply key_lt_trans.
Qed.

(** [compare_cpu] in terms of the keys of the shares. *)
Lemma compare_cpu_spec a b : has_share a → has_share b →
  compare_cpu a b = true ↔
    key_lt (ld_key (cpu_percent a)) (ld_key (cpu_percent b)) ∨
    (ld_key (cpu_percent a) = ld_key (cpu_percent b) ∧ pid b < pid a).
Proof.
  intros Ha Hb. unfold compare_cpu. rewrite ld_gt_lt.
  destruct (ld_lt (cpu_percent a) (cpu_percent b)) eqn:E1.
  { apply ld_lt_key in E1; [|done..]. tauto. }
  assert (¬ key_lt (ld_key (cpu_percent a)) (ld_key (cpu_percent b))) as N1.
  { intros H%ld_lt_key; [congruence|done..]. }
  destruct (ld_lt (cpu_percent b) (cpu_percent a)) eqn:E2.
  { apply ld_lt_key in E2; [|done..]. split; [done|].
    intros [?|[E _]]; [done|]. rewrite E in E2. by apply key_lt_irrefl in E2. }
  assert (¬ key_lt (ld_key (cpu_percent b)) (ld_key (cpu_percent a))) as N2.
  { intros H%ld_lt_key; [congruence|done..]. }
  rewrite bool_decide_eq_true.
  destruct (key_lt_total (ld_key (cpu_percent a)) (ld_key (cpu_percent b))) as [?|[?|?]]; tauto.
Qed.

Lemma compare_cpu_asym a b : has_share a → has_share b →
  compare_cpu a b = true → compare_cpu b a = false.
Proof.
  intros Ha Hb H. apply not_true_iff_false. rewrite compare_cpu_spec in * by done.
  destruct H as [H|[E H]].
  - intros [?|[E _]]; [|rewrite E in H; by apply key_lt_irrefl in H].
    eapply key_lt_irrefl. by eapply key_lt_trans.
  - intros [Hk|[_ ?]]; [rewrite E in Hk; by apply key_lt_irrefl in Hk|lia].
Qed.

Lemma compare_cpu_trans a b c : has_share a → has_share b → has_share c →
  compare_cpu a b = false → compare_cpu b c = false → compare_cpu a c = false.
Proof.
  intros Ha Hb Hc H1%not_true_iff_false H2%not_true_iff_false. apply not_true_iff_false.
  rewrite compare_cpu_spec in * by done. intros H.
  destruct (key_lt_total (ld_key (cpu_percent a)) (ld_key (cpu_percent b))) as [?|[E1|K1]]; [tauto|..];
  destruct (key_lt_total (ld_key (cpu_percent b)) (ld_key (cpu_percent c))) as [?|[E2|K2]];
    try tauto.
  - rewrite E1, E2 in H. destruct H as [H|[_ H]]; [by apply key_lt_irrefl in H|].
    apply H2. right. split; [done|]. destruct (Z.lt_ge_cases (pid b) (pid a)); [tauto|lia].
  - rewrite E1 in H. destruct H as [H|[E _]].
    + eapply key_lt_irrefl. by eapply key_lt_trans.
    + rewrite E in K2. by apply key_lt_irrefl in K2.
  - rewrite <- E2 in H. destruct H as [H|[E _]].
    + eapply key_lt_irrefl. by eapply key_lt_trans.
    + rewrite E in K1. by apply key_lt_irrefl in K1.
  - assert (key_lt (ld_key (cpu_percent c)) (ld_key (cpu_percent a))) as K
      by (by eapply key_lt_trans).
    destruct H as [H|[E _]]; [|rewrite E in K; by apply key_lt_irrefl in K].
    eapply key_lt_irrefl. by eapply key_lt_trans.
Qed.

(** * The layout *)

Lemma offset_snoc width col i w :
  0 ≤ col ≤ i → width !! Z.to_nat i = Some w →
  offset width col (i + 1) = offset width col i + (w + 2).
Proof.
  intros Hi Hw. unfold offset.
  replace (Z.to_nat (i + 1 - col)) with (S (Z.to_nat (i - col))) by lia.
  rewrite (take_S_r _ _ w) by (rewrite lookup_drop, <- Hw; f_equal; lia).
  rewrite fmap_app, foldr_app. simpl. generalize ((λ w0, w0 + 2) <$> take (Z.to_nat (i - col)) (drop (Z.to_nat col) width)).
  intros l. induction l as [|x l IH]; simpl; lia.
Qed.

Lemma offset_mono width col i j :
  0 ≤ col ≤ i → i ≤ j → j ≤ Z.of_nat (length width) → Forall (λ w, 0 ≤ w) width →
  offset width col i ≤ offset width col j.
Proof.
  intros Hi Hij Hj Hw. replace j with (i + Z.of_nat (Z.to_nat (j - i))) in * by lia.
  induction (Z.to_nat (j - i)) as [|d IH]; [rewrite Z.add_0_r; done|].
  specialize (IH ltac:(lia) ltac:(lia)).
  destruct (lookup_lt_is_Some_2 width (Z.to_nat (i + Z.of_nat d))) as [w Hd]; [lia|].
  replace (i + Z.of_nat (S d)) with (i + Z.of_nat d + 1) by lia.
  rewrite (offset_snoc width col _ w) by (done || lia).
  apply (Forall_lookup_1 _ _ _ _ Hw) in Hd. lia.
Qed.

Lemma place_columns_ok width col :
  length width = 12%nat → Forall (λ w, 0 ≤ w) width → 0 ≤ col ≤ 10 →
  ∃ lay, place_columns width col = Ok lay ∧ length (start_x lay) = 12%nat ∧ start_col lay = col ∧
    ((offset width col 11 < COLS ∧ end_col lay = 12 ∧ max_cmd lay = COLS - offset width col 11) ∨
     (COLS ≤ offset width col 11 ∧ max_cmd lay = -1)).
Proof.
  intros Hl Hw Hc. unfold place_columns. rewrite decide_False by lia.
  run_brk (λ (i : Z) (st : list Z * option Z), st.2 = None ∧ length st.1 = 12%nat ∧
      getZ st.1 (i - 1) = Some (offset width col (i - 1)) ∧ offset width col (i - 1) < COLS)
    (λ st : list Z * option Z, length st.1 = 12%nat ∧
      ((st.2 = None ∧ getZ st.1 11 = Some (offset width col 11) ∧ offset width col 11 < COLS) ∨
       (∃ i, st.2 = Some i ∧ col ≤ i ≤ 11 ∧ COLS ≤ offset width col i))).
  - lia.
  - cbn [fst snd]. replace (col + 1 - 1) with col by lia.
    assert (offset width col col = 0) as -> by (unfold offset; by rewrite Z.sub_diag).
    split_and!; try done. unfold getZ. rewrite decide_True by lia.
    apply lookup_replicate_2. lia.
  - intros i [xs stop] Hi (Hstop & Hx & Hg & Hlt). simpl in Hstop, Hx, Hg. subst stop.
    destruct (getZ_is_Some width (i - 1)) as [w Hwi]; [lia|].
    rewrite !rd_getZ, Hwi, Hg. cbn [opt mbind res_bind].
    assert (offset width col i = w + 2 + offset width col (i - 1)) as Ho.
    { unfold getZ in Hwi. rewrite decide_True in Hwi by lia.
      replace i with (i - 1 + 1) at 1 by lia. rewrite (offset_snoc width col (i - 1) w); [lia|lia|done]. }
    rewrite <- Ho. rewrite wr_ok by lia. cbn [mbind res_bind]. case_decide as Hs.
    + right. eexists. split; [done|]. simpl. rewrite length_insert. split; [done|]. right.
      exists i. split_and!; [done|lia|lia|done].
    + left. eexists. split; [done|]. simpl. rewrite length_insert. split_and!; [done|done| |].
      * replace (i + 1 - 1) with i by lia. rewrite getZ_insert by lia. by rewrite decide_True.
      * replace (i + 1 - 1) with i by lia. lia.
  - intros [xs stop] (? & ? & ? & ?). simpl in *. split; [done|]. left. done.
  - destruct x as [xs stop]. simpl in H.
    destruct H as (Hx & [(-> & Hg & Hlt)|(i & -> & Hi & Hge)]); cbn [mbind res_bind].
    + rewrite rd_getZ, Hg. cbn [opt mbind res_bind]. eexists. split; [done|]. simpl.
      split_and!; try done. left. done.
    + eexists. split; [done|]. simpl. split_and!; try done. right. split; [|done].
      pose proof (offset_mono width col i 11 ltac:(lia) ltac:(lia) ltac:(lia) Hw). lia.
Qed.

Lemma put_cells_ok width lay y cs out :
  length width = 12%nat → length (start_x lay) = 12%nat → Forall (λ c, 0 ≤ c.1.1 < 12) cs →
  ∃ out', foldM (put_cell width lay y) out cs = Ok out'.
Proof.
  intros Hw Hx. induction cs as [|[[i t] a] cs IH] in out |- *; intros Hc; [by eexists|].
  apply Forall_cons in Hc as [Hi Hc]. simpl in Hi. cbn [foldM put_cell].
  destruct (shown lay i); cbn [mbind res_bind]; [|by apply IH].
  destruct (getZ_is_Some (start_x lay) i) as [x Ex]; [lia|].
  destruct (getZ_is_Some width i) as [w Ew]; [lia|].
  rewrite !rd_getZ, Ex, Ew. cbn [opt mbind res_bind]. by apply IH.
Qed.

Lemma put_row_ok width lay col y p :
  length width = 12%nat → length (start_x lay) = 12%nat → col ≤ 10 →
  (0 ≤ max_cmd lay < Z.of_nat BIG_LEN ∧ ∃ out, put_row width lay col y p = Ok out) ∨
  (¬ 0 ≤ max_cmd lay < Z.of_nat BIG_LEN ∧ put_row width lay col y p = Undef OutOfBounds).
Proof.
  intros Hw Hx Hc. unfold put_row.
  destruct (put_cells_ok width lay y (cells p) [] Hw Hx) as [out ->].
  { unfold cells. repeat (apply Forall_cons; split; [simpl; lia|]). by apply Forall_nil_2. }
  cbn [mbind res_bind]. unfold put_command. case_decide; [left|by right]. split; [done|].
  rewrite (decide_True (P := col < 11)) by lia. rewrite decide_True by (unfold BIG_LEN; lia).
  destruct (getZ_is_Some (start_x lay) 11) as [x Ex]; [lia|].
  rewrite rd_getZ, Ex. cbn [opt mbind res_bind]. eauto.
Qed.

(** * Text *)

Lemma span_word (w : string) (c : ascii) s :
  word w → is_space c = true →
  span (λ c, negb (is_space c)) (w +:+ String c s) = (w, String c s).
Proof.
  intros [_ Hw] Hc. apply span_app; [|by rewrite Hc]. apply span_all. intros n d Hd.
  by rewrite (Hw n d Hd).
Qed.

Lemma skip_space_word w s : word w → skip_space (w +:+ s) = (w +:+ s)%string.
Proof.
  intros [Hne Hw]. destruct w as [|c w]; [done|]. unfold skip_space.
  change (String c w +:+ s)%string with (String c (w +:+ s)). cbn [span].
  by rewrite (Hw 0%nat c eq_refl).
Qed.

Lemma fscanf_line w ws :
  word w → fscanf_word (line_of (w :: ws)) = Some (w, String " "%char (line_of ws)).
Proof.
  intros Hw. unfold fscanf_word. simpl. rewrite skip_space_word by done.
  rewrite span_word by done. destruct Hw as [Hne _]. by rewrite decide_False.
Qed.

Lemma fscanf_space s : fscanf_word (String " "%char s) = fscanf_word s.
Proof.
  unfold fscanf_word, skip_space. cbn [span].
  assert (is_space " "%char = true) as -> by done. by destruct (span is_space s).
Qed.

Lemma read_words_space n s : read_words n (String " "%char s) = read_words n s.
Proof. destruct n; [done|]. cbn [read_words]. by rewrite fscanf_space. Qed.

(** Reading back the words of a line. *)
Lemma read_words_line n ws :
  Forall word ws → (n ≤ length ws)%nat → read_words n (line_of ws) = take n ws.
Proof.
  induction n as [|n IH] in ws |- *; intros Hws Hn; [done|].
  destruct ws as [|w ws]; simpl in Hn; [lia|]. apply Forall_cons in Hws as [Hw Hws].
  cbn [read_words]. rewrite fscanf_line by done. rewrite read_words_space, IH by (done || lia).
  done.
Qed.

Lemma cmdline_plain a s acc :
  (∀ n c, string_get a n = Some c → c ≠ nul) →
  cmdline_loop (a +:+ s) acc = cmdline_loop s (acc +:+ a).
Proof.
  induction a as [|c a IH] in acc |- *; intros Ha.
  - by rewrite string_app_nil_r.
  - change (String c a +:+ s)%string with (String c (a +:+ s)). cbn [cmdline_loop].
    rewrite decide_False by (by apply (Ha 0%nat)).
    rewrite IH by (intros n; apply (Ha (S n))). by rewrite <- string_app_assoc.
Qed.

Definition plain (a : string) : Prop := a ≠ EmptyString ∧ ∀ n c, string_get a n = Some c → c ≠ nul.

Lemma cmdline_rest args acc :
  Forall plain args →
  cmdline_loop (String nul (cmdline_of args)) acc =
    acc +:+ foldr (λ a s, double_first a +:+ s) "" args.
Proof.
  induction args as [|a args IH] in acc |- *; intros Ha.
  - simpl. by rewrite string_app_nil_r.
  - apply Forall_cons in Ha as [[Hne Ha] Hargs]. destruct a as [|c a]; [done|].
    change (cmdline_of (String c a :: args)) with
      (String c (a +:+ String nul (cmdline_of args))). cbn [cmdline_loop].
    rewrite decide_True by done. rewrite decide_False by (by apply (Ha 0%nat)).
    rewrite cmdline_plain by (intros n; apply (Ha (S n))). rewrite IH by done.
    cbn [foldr double_first]. rewrite <- !string_app_assoc. done.
Qed.

(** * Properties *)

(** When no share is NaN, [sort_cpu] is total and puts the processes in
    the order of falling processor share, those with the same share by rising
    process id. *)
Theorem sort_cpu_correct l :
  Forall has_share l → ∃ l', sort_cpu l = Ok l' ∧ l' ≡ₚ l ∧ in_order compare_cpu l'.
Proof.
  intros Hl. unfold sort_cpu.
  apply (bubble_sort_ok compare_cpu has_share compare_cpu_asym compare_cpu_trans l Hl).
Qed.

(** A process that has run for less than a second and was started in the
    current second of uptime has the share 0/0: NaN, shown as "-nan", which
    [compare_cpu] takes to be equal to every other share. *)
Theorem fresh_process_has_no_share sys uptime total_time start_time :
  0 < clk_tck sys < 2^64 → 0 ≤ total_time < clk_tck sys → start_time / clk_tck sys = uptime →
  cpu_usage sys uptime total_time start_time = Ok S754_nan ∧
  (∀ a b, cpu_percent a = S754_nan → compare_cpu a b = bool_decide (pid b < pid a)).
Proof.
  intros Hh Ht Hs. split.
  - unfold cpu_usage, per_hertz. assert (wrapu64 (clk_tck sys) = clk_tck sys) as ->
      by (unfold wrapu64; rewrite Z.mod_small; lia).
    rewrite !decide_False by lia. cbn [mbind res_bind].
    rewrite Hs, Z.sub_diag, (Z.div_small total_time) by lia. vm_compute. done.
  - intros a b Ha. unfold compare_cpu. by rewrite Ha.
Qed.

(** With the view scrolled to column [col], [top] can print process rows
    exactly when the columns left of COMMAND fit into 70 characters; when they
    do not, the first row already writes before the start of a command. *)
Theorem rows_printed_iff_columns_fit width l row col :
  length width = 12%nat → Forall (λ w, 0 ≤ w) width → 0 ≤ col ≤ 10 →
  0 ≤ row < Z.of_nat (length l) →
  let r := lay ← place_columns width col; put_rows width lay row col l in
  (offset width col 11 < COLS ∧ ∃ out, r = Ok out) ∨
  (COLS ≤ offset width col 11 ∧ r = Undef OutOfBounds).
Proof.
  intros Hw Hw0 Hc Hr r. unfold r.
  destruct (place_columns_ok width col Hw Hw0 Hc) as (lay & -> & Hx & _ & Hcase).
  cbn [mbind res_bind]. unfold put_rows.
  pose proof (λ y p, put_row_ok width lay col y p Hw Hx ltac:(lia)) as Hrow.
  assert (0 ≤ offset width col 11) as Ho.
  { pose proof (offset_mono width col col 11 ltac:(lia) ltac:(lia) ltac:(lia) Hw0).
    unfold offset in H at 1. rewrite Z.sub_diag in H. simpl in H. done. }
  destruct Hcase as [(Hfit & _ & Hm)|(Hno & Hm)]; [left|right]; (split; [done|]).
  -
    run_up (λ (_ : Z) (_ : list put), True); [lia|done| |by eauto].
    intros i out Hi _. destruct (getZ_is_Some l i) as [p Ep]; [lia|].
    rewrite rd_getZ, Ep. cbn [opt mbind res_bind].
    destruct (Hrow (COLUMN_ROW + 1 + i - row) p) as [[_ [o ->]]|[Hno _]];
      [cbn [mbind res_bind]; eauto|].
    exfalso. apply Hno. rewrite Hm. unfold COLS, BIG_LEN in *. lia.
  - apply (for_up_undef (λ _ _, True) _ _ row); [lia|done|lia|].
    intros out _. destruct (getZ_is_Some l row) as [p Ep]; [lia|].
    rewrite rd_getZ, Ep. cbn [opt mbind res_bind].
    destruct (Hrow (COLUMN_ROW + 1 + row - row) p) as [[? _]|[_ ->]]; [lia|done].
Qed.

(** The TIME+ column takes the clock ticks for seconds and writes them as
    hours, minutes and seconds; [ps] does the same but shows ticks / 60 where
    the hours belong. *)
Theorem time_columns total_time :
  0 ≤ total_time < 2^31 →
  ∃ h m s, total_time = h * 3600 + m * 60 + s ∧ 0 ≤ m < 60 ∧ 0 ≤ s < 60 ∧
    top_time total_time = store SMALL_LEN (pad0 2 h +:+ ":" +:+ pad0 2 m +:+ "." +:+ pad0 2 s) ∧
    ps_time total_time =
      store SMALL_LEN (pad0 2 (total_time / 60) +:+ ":" +:+ pad0 2 h +:+ ":" +:+ pad0 2 m).
Proof.
  intros Ht. exists (total_time / 3600), ((total_time - total_time / 3600 * 3600) / 60),
    (total_time - total_time / 3600 * 3600 - (total_time - total_time / 3600 * 3600) / 60 * 60).
  pose proof (Z.mod_pos_bound total_time 3600 ltac:(lia)).
  pose proof (Z.div_mod total_time 3600 ltac:(lia)).
  set (h := total_time / 3600) in *.
  pose proof (Z.div_pos total_time 3600 ltac:(lia) ltac:(lia)). fold h in H1.
  assert (0 ≤ total_time - h * 3600 < 3600) by lia.
  pose proof (Z.mod_pos_bound (total_time - h * 3600) 60 ltac:(lia)).
  pose proof (Z.div_mod (total_time - h * 3600) 60 ltac:(lia)).
  set (m := (total_time - h * 3600) / 60) in *.
  assert (0 ≤ m < 60) by lia.
  assert (0 ≤ total_time / 60 ≤ total_time) by (split; [apply Z.div_pos; lia|apply Z.div_le_upper_bound; lia]).
  split_and!; try lia.
  - unfold top_time. fold h. rewrite (wrap32_small h) by (unfold int32; lia).
    rewrite in_int_ok by (unfold int32; lia). cbn [mbind res_bind].
    unfold wrapu64. rewrite (Z.mod_small (total_time - h * 3600)) by lia. fold m.
    rewrite (wrap32_small m) by (unfold int32; lia).
    rewrite in_int_ok by (unfold int32; lia). cbn [mbind res_bind].
    rewrite Z.mod_small by lia. rewrite decide_True by lia. done.
  - unfold ps_time. fold h. rewrite (wrap32_small h) by (unfold int32; lia).
    rewrite (wrap32_small (total_time / 60)) by (unfold int32; lia).
    rewrite in_int_ok by (unfold int32; lia). cbn [mbind res_bind].
    unfold wrapu64. rewrite (Z.mod_small (total_time - h * 3600)) by lia. fold m.
    rewrite (wrap32_small m) by (unfold int32; lia). done.
Qed.

(** The command line of a process with the arguments [a :: args] is read
    as one word: the null bytes between the arguments disappear and the first
    character of every argument after the first is doubled. *)
Theorem cmdline_doubles_first_characters a args :
  Forall plain (a :: args) →
  cmdline_loop (cmdline_of (a :: args)) "" = a +:+ foldr (λ b s, double_first b +:+ s) "" args.
Proof.
  intros [[_ Ha] Hargs]%Forall_cons. simpl. rewrite cmdline_plain by done.
  by rewrite cmdline_rest.
Qed.

(** The fields of /proc/<pid>/stat are taken by position among the words
    of the line, so a space inside the command name moves all of them: the
    second half of the name is shown as the state of the process. *)
Theorem space_in_name_shifts_fields p a b fields :
  Forall word (p :: ("(" +:+ a) :: (b +:+ ")") :: fields) → (29 ≤ length fields)%nat →
  let tok := read_words SMALL_LEN (line_of (p :: ("(" +:+ a) :: (b +:+ ")") :: fields)) in
  nth STAT_STATE tok "" = (b +:+ ")")%string ∧
  nth STAT_PRIORITY tok "" = nth (STAT_PRIORITY - 3) fields "" ∧
  (a ≠ "" → read_cmd (nth STAT_CMD tok "") = Ok (string_take (String.length a - 1) a)).
Proof.
  intros Hw Hl tok. unfold tok. rewrite read_words_line by (done || (simpl; unfold SMALL_LEN; lia)).
  unfold SMALL_LEN, STAT_STATE, STAT_PRIORITY, STAT_CMD. split_and!.
  - done.
  - cbn [take nth]. rewrite <- (take_drop 29 fields) at 2.
    rewrite app_nth1 by (rewrite length_take; lia). done.
  - intros Ha. cbn [take nth].
    assert (word a) as Hwa.
    { apply Forall_cons in Hw as [_ Hw]. apply Forall_cons in Hw as [[_ Hw] _].
      split; [done|]. intros k c Hk. by apply (Hw (S k)). }
    unfold read_cmd. change ("(" +:+ a)%string with (String "("%char a). cbn beta iota zeta. rewrite (decide_True (P := "("%char = "("%char)) by done.
    assert (fscanf_word a = Some (a, ""%string)) as ->.
    { unfold fscanf_word. pose proof (skip_space_word a "" Hwa) as Hs.
      rewrite string_app_nil_r in Hs. rewrite Hs.
      assert (span (λ c, negb (is_space c)) a = (a, EmptyString)) as ->.
      { apply span_all. intros k c Hk. destruct Hwa as [_ Hwa]. by rewrite (Hwa k c Hk). }
      by rewrite decide_False. }
    by rewrite decide_False.
Qed.

(** A process id of 32768 or more, which the kernel hands out where
    pid_max is raised, is used as an index past the end of [cpu_time]. *)
Theorem large_pid_overruns sys uptime total_mem tty_of show_time path text statbuf name toks :
  access_R sys (path +:+ "/stat") = true → fopen sys (path +:+ "/stat") = Some text →
  store_all SMALL_LEN (read_words SMALL_LEN text) = Ok toks →
  stat_of sys (path +:+ "/stat") = Some statbuf → getpwuid sys (st_uid statbuf) = Some name →
  (String.length name < SMALL_LEN)%nat →
  PID_MAX_LEN ≤ atol (nth STAT_PID toks "") →
  read_proc sys uptime total_mem tty_of show_time path = Undef OutOfBounds.
Proof.
  intros Ha Hf Ht Hs Hn Hlen Hp. unfold read_proc. rewrite Ha, Hf, Ht. cbn [negb mbind res_bind].
  rewrite Hs, Hn. cbn [opt mbind res_bind].
  unfold short_user. rewrite (store_ok SMALL_LEN name) by done. cbn [mbind res_bind].
  assert (wrapu64 (atol (nth STAT_PID toks "")) = atol (nth STAT_PID toks "")) as ->.
  { unfold wrapu64. apply Z.mod_small. unfold PID_MAX_LEN in Hp. split; [lia|].
    unfold atol. destruct (scan_int _) as [[z r]|]; unfold clamp64; lia. }
  rewrite (decide_False (P := atol (nth STAT_PID toks "") < PID_MAX_LEN)) by lia.
  by destruct (decide (string_take 8 name = "systemd-")).
Qed.

(** * Witnesses *)

Definition with_share (n : Z) (share : long_double) : MY_PROC :=
  Proc n 0 "" share (S754_zero false) 0 0 0 0 0 "" "" "" "" "".

Lemma sort_cpu_correct_witness :
  ∃ l', sort_cpu [with_share 1 (ld_of_Z 2); with_share 2 (ld_of_Z 5); with_share 3 (ld_of_Z 2)] = Ok l' ∧
    l' ≡ₚ [with_share 1 (ld_of_Z 2); with_share 2 (ld_of_Z 5); with_share 3 (ld_of_Z 2)] ∧
    in_order compare_cpu l'.
Proof. apply sort_cpu_correct. by repeat apply Forall_cons_2; try apply Forall_nil_2. Defined.

(** A system with the process 40000 and nothing else. *)
Definition tiny_system : system :=
  System (λ p, if decide (p = "/proc/40000/stat") then Some "40000 (sh) S" else None)
    (λ _, true) (λ _, true) (λ _, None) (λ _, Some (Stat true false 0 1000)) (λ _, None)
    (λ _, Some "user") 100 0 (λ _, Tm 0 0 0 0) [].

Lemma fresh_process_has_no_share_witness :
  cpu_usage tiny_system 12 30 1250 = Ok S754_nan ∧
  (∀ a b, cpu_percent a = S754_nan → compare_cpu a b = bool_decide (pid b < pid a)).
Proof. apply (fresh_process_has_no_share tiny_system 12 30 1250); by vm_compute. Defined.

Lemma rows_printed_iff_columns_fit_witness :
  let width := [5; 8; 3; 3; 8; 7; 7; 1; 4; 4; 8; 12] in
  let r := lay ← place_columns width 0; put_rows width lay 0 0 [with_share 1 (ld_of_Z 2)] in
  (offset width 0 11 < COLS ∧ ∃ out, r = Ok out) ∨
  (COLS ≤ offset width 0 11 ∧ r = Undef OutOfBounds).
Proof.
  apply (rows_printed_iff_columns_fit [5; 8; 3; 3; 8; 7; 7; 1; 4; 4; 8; 12]
    [with_share 1 (ld_of_Z 2)] 0 0); [done|by_decision|lia|simpl; lia].
Defined.

Lemma time_columns_witness :
  ∃ h m s, 6000 = h * 3600 + m * 60 + s ∧ 0 ≤ m < 60 ∧ 0 ≤ s < 60 ∧
    top_time 6000 = store SMALL_LEN (pad0 2 h +:+ ":" +:+ pad0 2 m +:+ "." +:+ pad0 2 s) ∧
    ps_time 6000 =
      store SMALL_LEN (pad0 2 (6000 / 60) +:+ ":" +:+ pad0 2 h +:+ ":" +:+ pad0 2 m).
Proof. apply (time_columns 6000). lia. Defined.

Lemma plain_dec a : a ≠ EmptyString → (span (λ c, negb (bool_decide (c = nul))) a).2 = EmptyString → plain a.
Proof.
  intros Hne Hs. split; [done|]. intros k c Hk.
  assert (span (λ c, negb (bool_decide (c = nul))) a = (a, EmptyString)) as Ha.
  { clear -Hs. induction a as [|d a IH]; [done|]. cbn [span] in *.
    destruct (negb (bool_decide (d = nul))); [|done].
    destruct (span _ a) as [u v] eqn:E. simpl in *. subst v. by specialize (IH eq_refl) as [= ->]. }
  apply (proj1 (span_all _ _) Ha) in Hk. by apply negb_true_iff, bool_decide_eq_false in Hk.
Qed.

Lemma word_dec a : a ≠ EmptyString → (span (λ c, negb (is_space c)) a).2 = EmptyString → word a.
Proof.
  intros Hne Hs. split; [done|]. intros k c Hk.
  assert (span (λ c, negb (is_space c)) a = (a, EmptyString)) as Ha.
  { clear -Hs. induction a as [|d a IH]; [done|]. cbn [span] in *.
    destruct (negb (is_space d)); [|done].
    destruct (span _ a) as [u v] eqn:E. simpl in *. subst v. by specialize (IH eq_refl) as [= ->]. }
  apply (proj1 (span_all _ _) Ha) in Hk. by apply negb_true_iff in Hk.
Qed.

Lemma cmdline_doubles_first_characters_witness :
  cmdline_loop (cmdline_of ["ls"; "-l"; "/tmp"]) "" = "ls--l//tmp".
Proof.
  apply (cmdline_doubles_first_characters "ls" ["-l"; "/tmp"]).
  repeat (apply Forall_cons_2; [by apply plain_dec|]). by apply Forall_nil_2.
Defined.

Definition web_fields : list string := "S" :: replicate 29 "0".

Lemma space_in_name_shifts_fields_witness :
  nth STAT_STATE (read_words SMALL_LEN (line_of ("77" :: "(Web" :: "Content)" :: web_fields))) "" = "Content)".
Proof.
  apply (space_in_name_shifts_fields "77" "Web" "Content" web_fields); [|simpl; lia].
  unfold web_fields. simpl.
  repeat (apply Forall_cons_2; [by apply word_dec|]). by apply Forall_nil_2.
Defined.

Lemma large_pid_overruns_witness :
  read_proc tiny_system 0 0 (λ _, Ok "") top_time "/proc/40000" = Undef OutOfBounds.
Proof.
  apply (large_pid_overruns tiny_system 0 0 (λ _, Ok "") top_time "/proc/40000" "40000 (sh) S"
    (Stat true false 0 1000) "user" (read_words SMALL_LEN "40000 (sh) S"));
    [by vm_compute..|simpl; unfold SMALL_LEN; lia|vm_compute; done].
Defined.
