(* ===== verification/Ls.v ===== *)
(** The directory lister of the system-programming course
    (src/과제/리눅스시스템프로그래밍과제/myls.c): the arguments, the options -l,
    -i, -t, -r and the orders of the entries. *)
From S2P Require Import Prelude CString Sorting.
Local Open Scope Z_scope.

(** * The file system the program sees

    [readdir] hands out pointers into the buffer of the directory stream;
    [d_room] is how many characters of the entry's record its name may use. *)

Record dirent := Dirent { d_name : string; d_room : nat }.

Record stat := Stat {
  st_mode : Z; st_nlink : Z; st_uid : Z; st_gid : Z; st_size : Z; st_mtime : Z; st_ino : Z;
}.

Record env := Env {
  opendir : string → option (list dirent);
  lstat : string → option stat;
  pw_name : Z → option string;
  gr_name : Z → option string;
  ctime : Z → string;
}.

(** * State: the globals

    [arr], [arr_l] and [rewrite_time] at one index form an entry; the name is
    stored in the [d_room] characters of the slot [arr[i]] points to. *)

Record entry := Entry { e_name : string; e_line : string; e_time : Z }.

Record ls := Ls {
  entries : list entry;
  rooms : list nat;
  perms : string;          (** the static buffer of [perm] *)
  st : stat;
  check_for_option : bool;
  output : list string;
}.

Definition no_stat : stat := Stat 0 0 0 0 0 0 0.
Definition start : ls := Ls [] [] "---------" no_stat false [].

Definition with_entries (l : list entry) (s : ls) : ls :=
  Ls l (rooms s) (perms s) (st s) (check_for_option s) (output s).
Definition print (t : string) (s : ls) : ls :=
  Ls (entries s) (rooms s) (perms s) (st s) (check_for_option s) (output s ++ [t]).

Definition nl : string := String newline EmptyString.

(** * Types and permissions *)

Definition S_IFMT : Z := 61440.
Definition fmt (mode : Z) : Z := Z.land mode S_IFMT.

(** Without a [return] for any other mode. *)
Definition type (mode : Z) : res string :=
  if decide (fmt mode = 32768) then Ok "-"
  else if decide (fmt mode = 16384) then Ok "d"
  else if decide (fmt mode = 8192) then Ok "c"
  else if decide (fmt mode = 24576) then Ok "b"
  else if decide (fmt mode = 40960) then Ok "l"
  else if decide (fmt mode = 4096) then Ok "p"
  else if decide (fmt mode = 49152) then Ok "s"
  else Undef NoReturnValue.

Fixpoint set_char (n : nat) (c : ascii) (s : string) : string :=
  match n, s with
  | _, EmptyString => EmptyString
  | O, String _ s => String c s
  | S n, String d s => String d (set_char n c s)
  end.

Definition set_if (b : bool) (n : nat) (c : ascii) (s : string) : string :=
  if b then set_char n c s else s.

Definition bit (mode mask : Z) : bool := negb (Z.land mode mask =? 0).

(** One round of the loop in [perm]; S_IRUSR = 0400, S_IWUSR = 0200,
    S_IXUSR = 0100. *)
Definition perm_round (mode : Z) (i : nat) (p : string) : string :=
  let sh m := Z.shiftr m (Z.of_nat i * 3) in
  set_if (bit mode (sh 64)) (i * 3 + 2) "x"
    (set_if (bit mode (sh 128)) (i * 3 + 1) "w"
      (set_if (bit mode (sh 256)) (i * 3) "r" p)).

(** The new contents of the static buffer. *)
Definition perm (mode : Z) (perms : string) : string :=
  foldl (λ p i, perm_round mode i p) perms (seq 0 3).

(** * Entries *)

Definition add_entry (d : dirent) (line : string) (s : ls) : res ls :=
  if decide (length (entries s) < 1024)%nat then
    line ← store 1024 line;
    Ok (Ls (entries s ++ [Entry (d_name d) line (wrap32 (st_mtime (st s)))])
           (rooms s ++ [d_room d]) (perms s) (st s) (check_for_option s) (output s))
  else Undef OutOfBounds.

Definition dotted (name : string) : bool := bool_decide (name = "." ∨ name = "..").

Section env.
Context (e : env).

(** [if(!lstat(path,&st) < 0)] never holds: a failure leaves [st] as it was. *)
Definition read_stat (dir : string) (d : dirent) (s : ls) : res ls :=
  path ← store 1024 (dir +:+ "/" +:+ d_name d);
  match lstat e path with
  | Some v => Ok (Ls (entries s) (rooms s) (perms s) v (check_for_option s) (output s))
  | None => Ok s
  end.

(** The line of -l, with the call of [perm] on the static buffer. *)
Definition long_line (name : string) (s : ls) : res (string * ls) :=
  let v := st s in
  t ← type (st_mode v);
  let p := perm (st_mode v) (perms s) in
  u ← opt NullPointer (pw_name e (st_uid v));
  g ← opt NullPointer (gr_name e (st_gid v));
  Ok (t +:+ p +:+ " " +:+ pad 3 (pretty (st_nlink v)) +:+ " " +:+ u +:+ " " +:+ g +:+ " " +:+
      pad 9 (pretty (st_size v)) +:+ " " +:+ string_take 12 (string_drop 4 (ctime e (st_mtime v)))
      +:+ " " +:+ name +:+ nl,
      Ls (entries s) (rooms s) p v (check_for_option s) (output s)).

Definition set_minus_l_option (d : dirent) (s : ls) : res ls :=
  if dotted (d_name d) then Ok s
  else '(line, s) ← long_line (d_name d) s; add_entry d line s.

(** Put the inode before the line of the first entry that contains the name. *)
Fixpoint prefix_line (w : nat) (ino : Z) (name : string) (l : list entry) : res (list entry) :=
  match l with
  | [] => Ok []
  | x :: l =>
      if strstr (e_name x) name then
        line ← store 1024 (pad w (pretty ino) +:+ " " +:+ e_line x);
        Ok (Entry (e_name x) line (e_time x) :: l)
      else l ← prefix_line w ino name l; Ok (x :: l)
  end.

Definition set_minus_i_option (d : dirent) (s : ls) : res ls :=
  if dotted (d_name d) then Ok s
  else if check_for_option s then
    l ← prefix_line 7 (st_ino (st s)) (d_name d) (entries s); Ok (with_entries l s)
  else add_entry d (pad 7 (pretty (st_ino (st s))) +:+ " " +:+ d_name d +:+ nl) s.

Definition set_minus_t_option (d : dirent) (s : ls) : res ls :=
  if dotted (d_name d) then Ok s
  else if check_for_option s then Ok s else add_entry d (d_name d +:+ nl) s.

Definition set_minus_r_option (d : dirent) (s : ls) : res ls :=
  if dotted (d_name d) then Ok s
  else if check_for_option s then Ok s else add_entry d (d_name d +:+ nl) s.

(** ** Orders *)

(** Exchange two entries with [strcpy], each name into the other's slot. *)
Definition swap_entries (rooms : list nat) (i j : Z) (l : list entry) : res (list entry) :=
  a ← rd l i; b ← rd l j;
  ri ← rd rooms i; rj ← rd rooms j;
  _ ← store ri (e_name b);
  _ ← store rj (e_name a);
  l ← wr l i b; wr l j a.

(** [for(i..) for(j<i) if(after(entry j, entry i)) swap] *)
Definition ls_sort (after : entry → entry → bool) (rooms : list nat) (l : list entry)
    : res (list entry) :=
  for_up 0 (Z.of_nat (length l)) (λ i, for_up 0 i (λ j l,
    a ← rd l j; b ← rd l i;
    if after a b then swap_entries rooms i j l else Ok l)) l.

Definition by_name (a b : entry) : bool := strcmp_lt (e_name b) (e_name a).
Definition by_time (a b : entry) : bool := bool_decide (e_time a < e_time b).
Definition by_name_same_time (a b : entry) : bool :=
  bool_decide (e_time b = e_time a) && strcmp_lt (e_name b) (e_name a).

Definition sort_names (s : ls) : res ls :=
  l ← ls_sort by_name (rooms s) (entries s); Ok (with_entries l s).

Definition sort_times (s : ls) : res ls :=
  l ← ls_sort by_time (rooms s) (entries s);
  l ← ls_sort by_name_same_time (rooms s) l;
  Ok (with_entries l s).

(** [for(i=0;i<arr_index/2;i++)] exchange the lines [i] and [arr_index-i-1]. *)
Definition reverse_lines (s : ls) : res ls :=
  let n := Z.of_nat (length (entries s)) in
  l ← for_up 0 (n / 2) (λ i l,
        a ← rd l i; b ← rd l (n - i - 1);
        l ← wr l i (Entry (e_name a) (e_line b) (e_time a));
        wr l (n - i - 1) (Entry (e_name b) (e_line a) (e_time b))) (entries s);
  Ok (with_entries l s).

(** ** The options *)

Fixpoint each (f : dirent → ls → res ls) (l : list dirent) (s : ls) : res ls :=
  match l with [] => Ok s | d :: l => s ← f d s; each f l s end.

Definition has_entry (name : string) (s : ls) : bool :=
  existsb (λ x, bool_decide (e_name x = name)) (entries s).

(** What the four option functions share. [target] is [argv[2]], if any;
    [whole] handles an entry of a directory, [single] the entry the argument
    names, [sort] the end of the function. *)
Definition option_function (whole single : dirent → ls → res ls) (sort : ls → res ls)
    (target : option string) (s : ls) : res ls :=
  let dir := match target with Some t => t | None => "." end in
  s ← match opendir e dir with
      | Some l => each (λ d s, s ← read_stat dir d s; whole d s) l s
      | None =>
          match opendir e ".", target with
          | Some l, Some t =>
              s ← each (λ d s, s ← read_stat "." d s;
                               if decide (d_name d = t) then single d s else Ok s) l s;
              Ok (if has_entry t s then s else print ("NO FILES : " +:+ t +:+ nl) s)
          | _, _ => Exit 1
          end
      end;
  sort s.

Definition myls_minus_l_option : option string → ls → res ls :=
  option_function set_minus_l_option
    (λ d s, '(line, s) ← long_line (d_name d) s; add_entry d line s) sort_names.

Definition myls_minus_i_option : option string → ls → res ls :=
  option_function set_minus_i_option
    (λ d s, if check_for_option s
            then l ← prefix_line 0 (st_ino (st s)) (d_name d) (entries s); Ok (with_entries l s)
            else add_entry d (pretty (st_ino (st s)) +:+ " " +:+ d_name d) s) sort_names.

Definition myls_minus_t_option : option string → ls → res ls :=
  option_function set_minus_t_option
    (λ d s, if check_for_option s then Ok s else add_entry d (d_name d +:+ nl) s) sort_times.

Definition myls_minus_r_option : option string → ls → res ls :=
  option_function set_minus_r_option
    (λ d s, if check_for_option s then Ok s else add_entry d (d_name d +:+ nl) s) reverse_lines.

(** Without options: [arr] only. *)
Definition myls (target : string) (s : ls) : res ls :=
  let add d s := if dotted (d_name d) then Ok s
                 else if decide (length (entries s) < 1024)%nat
                 then Ok (Ls (entries s ++ [Entry (d_name d) "" 0]) (rooms s ++ [d_room d])
                             (perms s) (st s) (check_for_option s) (output s))
                 else Undef OutOfBounds in
  match opendir e target with
  | Some l => s ← each (λ d s, s ← read_stat target d s; add d s) l s; sort_names s
  | None =>
      match opendir e "." with
      | None => Exit 1
      | Some l =>
          s ← each (λ d s, s ← read_stat "." d s; add d s) l s;
          Ok (if has_entry target s then with_entries [Entry target "" 0] s
              else print ("NO FILES : " +:+ target +:+ nl) s)
      end
  end.

(** ** Arguments *)

Definition has_dash (a : string) : bool := strstr a "-".

(** [option[]]: the indices of the arguments that contain a dash. *)
Definition option_indices (argv : list string) : list Z :=
  omap (λ p : nat * string, if has_dash p.2 then Some (Z.of_nat p.1) else None)
    (imap (λ i a, (i, a)) argv).

(** Move the arguments with a dash in front of the others, from index 2 on;
    [option[tmp_index++] = i] records where one was put. *)
Definition gather_options (argc : Z) (st : list string * list Z * Z)
    : res (list string * list Z * Z) :=
  for_up 2 argc (λ i, for_up i argc (λ j '(argv, option, tmp_index),
    a ← rd argv i; b ← rd argv j;
    if negb (has_dash a) && has_dash b then
      argv ← wr argv i b; argv ← wr argv j a;
      option ← (if decide (tmp_index < Z.of_nat (length option)) then wr option tmp_index i
                else if decide (tmp_index < 1024) then Ok (option ++ [i]) else Undef OutOfBounds);
      Ok (argv, option, tmp_index + 1)
    else Ok (argv, option, tmp_index))) st.

(** [argc--; for(j=k;j<argc;j++) argv[j] = argv[j+1];] *)
Definition drop_arg (k : Z) (argv : list string) : list string :=
  if decide (k < Z.of_nat (length argv))
  then take (Z.to_nat k) argv ++ drop (S (Z.to_nat k)) argv
  else take (length argv - 1) argv.

(** The test [!strstr(argv[1],tmp1)] fails, since [tmp1] is a copy of
    [argv[1]]: the further options are not joined to the first, only removed. *)
Definition merge_options (option : list Z) (n : Z) (argv : list string) : res (list string) :=
  for_up 1 n (λ i argv,
    a ← rd argv 1;
    tmp1 ← store 1024 a;
    k ← rd option i;
    argv ← (if strstr a tmp1 then Ok argv
            else o ← rd argv k;
                 tmp1 ← store 1024 (tmp1 +:+ string_drop 1 o);
                 wr argv 1 tmp1);
    Ok (drop_arg k argv)) argv.

Definition sort_args (argv : list string) : res (list string) :=
  match argv with
  | a0 :: a1 :: rest =>
      rest ← exchange_sort (λ a b, strcmp_lt b a) (Z.of_nat (length rest)) rest;
      Ok (a0 :: a1 :: rest)
  | _ => Ok argv
  end.

Definition wants (opt : string) (a : string) : bool := strstr a opt && String.prefix "-" a.

Definition after_option (s : ls) : ls :=
  Ls (entries s) (rooms s) (perms s) (st s) true (output s).

(** One round of the loop over the operands: the options of [argv[1]] on
    [argv[2]], then the lines. *)
Definition run_options (a : string) (target : option string) (s : ls) : res ls :=
  let s := Ls [] [] (perms s) (st s) false (output s) in
  s ← (if wants "l" a then s ← myls_minus_l_option target s; Ok (after_option s) else Ok s);
  s ← (if wants "i" a then s ← myls_minus_i_option target s; Ok (after_option s) else Ok s);
  s ← (if wants "t" a then s ← myls_minus_t_option target s; Ok (after_option s) else Ok s);
  s ← (if wants "r" a then s ← myls_minus_r_option target s; Ok (after_option s) else Ok s);
  Ok (Ls (entries s) (rooms s) (perms s) (st s) (check_for_option s)
         (output s ++ (e_line <$> entries s) ++ [nl +:+ nl])).

Fixpoint operands (a : string) (targets : list string) (s : ls) : res ls :=
  match targets with
  | [] => Ok s
  | t :: targets => s ← run_options a (Some t) s; operands a targets s
  end.

Definition with_options (argv : list string) (s : ls) : res ls :=
  let option := option_indices argv in
  let n := Z.of_nat (length option) in
  let argc := Z.of_nat (length argv) in
  k ← rd option 0;
  a1 ← rd argv 1; o ← rd argv k;
  argv ← wr argv 1 o; argv ← wr argv k a1;
  '(argv, option, _) ← gather_options argc (argv, option, 1);
  argv ← merge_options option n argv;
  argv ← sort_args argv;
  match argv with
  | _ :: a :: [] => run_options a None s
  | _ :: a :: targets => operands a targets s
  | _ => Undef NullPointer
  end.

(** Each operand in turn, without options. *)
Fixpoint plain (targets : list string) (s : ls) : res ls :=
  match targets with
  | [] => Ok s
  | t :: targets =>
      s ← myls t (Ls [] [] (perms s) (st s) (check_for_option s) (output s));
      plain targets (Ls (entries s) (rooms s) (perms s) (st s) (check_for_option s)
        (output s ++ ((λ x, e_name x +:+ nl) <$> entries s) ++ [nl]))
  end.

(** [main]; without an argument, "." is copied into a block of one byte. *)
Definition main (argv : list string) : res (list string) :=
  s ← (if decide (length argv = 1%nat)
       then dot ← store 1 "."; plain [dot] start
       else if existsb has_dash argv then with_options argv start
       else plain (tail argv) start);
  Ok (output s).
End env.
