(* ===== verification/LsProofs.v ===== *)
(** The directory lister: its orders, the permission string, and what becomes
    of a second option argument. *)
From S2P Require Import Prelude CString Sorting Ls.
Local Open Scope Z_scope.

(** * Specification *)

(** Every name fits into every slot. *)
Definition roomy (rooms : list nat) (l : list entry) : Prop :=
  ∀ r x, r ∈ rooms → x ∈ l → (String.length (e_name x) < r)%nat.

(** [-t]: the latest first, entries of the same second by name. *)
Definition by_time_then_name (a b : entry) : bool := by_time a b || by_name_same_time a b.

(** The nine characters for the permission bits [b]. *)
Definition rwx (b : Z) : string :=
  let c k ch := if Z.testbit b k then ch else "-"%char in
  String (c 8 "r"%char) (String (c 7 "w"%char) (String (c 6 "x"%char)
    (String (c 5 "r"%char) (String (c 4 "w"%char) (String (c 3 "x"%char)
      (String (c 2 "r"%char) (String (c 1 "w"%char) (String (c 0 "x"%char) EmptyString)))))))).

(** * Orders of names *)

Lemma strcmp_lt_asym a b : strcmp_lt a b = true → strcmp_lt b a = false.
Proof.
  unfold strcmp_lt. rewrite (strcmp_antisym a b). by destruct (strcmp a b).
Qed.

Lemma strcmp_lt_trans_false a b c :
  strcmp_lt b a = false → strcmp_lt c b = false → strcmp_lt c a = false.
Proof.
  rewrite !strcmp_lt_le. intros H1 H2. by transitivity b.
Qed.

Lemma by_name_asym a b : True → True → by_name a b = true → by_name b a = false.
Proof. intros _ _. apply strcmp_lt_asym. Qed.

Lemma by_name_trans a b c : True → True → True →
  by_name a b = false → by_name b c = false → by_name a c = false.
Proof. intros _ _ _. unfold by_name. intros ??. by eapply strcmp_lt_trans_false. Qed.

Lemma by_time_asym a b : True → True → by_time a b = true → by_time b a = false.
Proof. unfold by_time. intros _ _ ?%bool_decide_eq_true. apply bool_decide_eq_false. lia. Qed.

Lemma by_time_trans a b c : True → True → True →
  by_time a b = false → by_time b c = false → by_time a c = false.
Proof.
  unfold by_time. intros _ _ _ ?%bool_decide_eq_false ?%bool_decide_eq_false.
  apply bool_decide_eq_false. lia.
Qed.

Lemma all_true {A} (l : list A) : Forall (λ _, True) l.
Proof. by apply Forall_true. Qed.

(** ** The sort on slots is the sort on entries *)

Lemma swap_entries_ok rooms i j l a b :
  roomy rooms l → length rooms = length l →
  (i < length l)%nat → (j < length l)%nat → l !! i = Some a → l !! j = Some b →
  swap_entries rooms (Z.of_nat i) (Z.of_nat j) l = Ok (<[j:=a]> (<[i:=b]> l)).
Proof.
  intros Hr Hl Hi Hj Ha Hb. unfold swap_entries.
  destruct (lookup_lt_is_Some_2 rooms i) as [ri Hri]; [lia|].
  destruct (lookup_lt_is_Some_2 rooms j) as [rj Hrj]; [lia|].
  rewrite !rd_getZ, !getZ_of_nat, Ha, Hb, Hri, Hrj. cbn [opt mbind res_bind].
  rewrite !store_ok by (apply Hr; by eapply list_elem_of_lookup_2). cbn [mbind res_bind].
  rewrite wr_ok by lia. cbn [mbind res_bind]. rewrite wr_ok by (rewrite length_insert; lia).
  by rewrite !Nat2Z.id.
Qed.

Lemma roomy_perm rooms l l' : l' ≡ₚ l → roomy rooms l → roomy rooms l'.
Proof. intros Hp Hr r x Hin. rewrite Hp. by apply Hr. Qed.

(** One exchange of the two sorts, in any loop that keeps a permutation. *)
Lemma ls_step after rooms l (i j : nat) :
  roomy rooms l → length rooms = length l → (i < length l)%nat → (j < length l)%nat →
  (a ← rd l (Z.of_nat j); b ← rd l (Z.of_nat i);
   if after a b : bool then swap_entries rooms (Z.of_nat i) (Z.of_nat j) l else Ok l) =
  swap_if after (Z.of_nat j) (Z.of_nat i) l.
Proof.
  intros Hr Hl Hi Hj. unfold swap_if.
  destruct (lookup_lt_is_Some_2 l i) as [b Hb]; [lia|].
  destruct (lookup_lt_is_Some_2 l j) as [a Ha]; [lia|].
  rewrite !rd_getZ, !getZ_of_nat, Ha, Hb. cbn [opt mbind res_bind].
  destruct (after a b); [|done].
  rewrite (swap_entries_ok rooms i j l b a) by done.
  rewrite wr_ok by lia. cbn [mbind res_bind]. rewrite wr_ok by (rewrite length_insert; lia).
  rewrite !Nat2Z.id. f_equal. destruct (decide (i = j)) as [->|]; [congruence|].
  by rewrite list_insert_insert_ne.
Qed.

(** Two loops whose bodies agree under an invariant of the first. *)
Lemma for_up_ext {S} (P : Z → S → Prop) lo hi (f g : Z → S → res S) s :
  P lo s → (∀ i s, lo ≤ i < hi → P i s → f i s = g i s) →
  (∀ i s s', lo ≤ i < hi → P i s → g i s = Ok s' → P (i + 1) s') →
  for_up lo hi f s = for_up lo hi g s.
Proof.
  unfold for_up. intros HP Hfg Hg.
  remember (Z.to_nat (hi - lo)) as k eqn:Hk.
  induction k as [|k IH] in lo, s, Hk, HP, Hfg, Hg |- *; [done|]. simpl.
  rewrite Hfg by (done || lia). destruct (g lo s) as [s'| |] eqn:E; simpl; try done.
  apply IH; [eapply Hg; eauto; lia|intros; apply Hfg; [lia|done]| |lia].
  intros i s0 s2 ?. apply Hg. lia.
Qed.

Lemma ls_sort_exchange after rooms l :
  roomy rooms l → length rooms = length l →
  ls_sort after rooms l = exchange_sort after (Z.of_nat (length l)) l.
Proof.
  intros Hr Hl. unfold ls_sort, exchange_sort.
  assert (∀ i j l1 l2, 0 ≤ i < Z.of_nat (length l) → 0 ≤ j < i → l1 ≡ₚ l →
    swap_if after j i l1 = Ok l2 → l2 ≡ₚ l) as Hswap.
  { intros i j l1 l2 Hi Hj Hp E. pose proof (Permutation_length Hp).
    destruct (swap_if_ok after (Z.to_nat j) (Z.to_nat i) l1) as (l3 & E3 & Hp3 & _); [lia|lia|].
    rewrite !Z2Nat.id in E3 by lia. rewrite E in E3. injection E3 as ->. by rewrite Hp3. }
  assert (∀ i k l1, 0 ≤ i < Z.of_nat (length l) → k ≤ i → l1 ≡ₚ l →
    for_up 0 k (λ j l, a ← rd l j; b ← rd l i;
      if after a b then swap_entries rooms i j l else Ok l) l1 =
    for_up 0 k (λ j, swap_if after j i) l1) as Hin.
  { intros i k l1 Hi Hk Hp. apply (for_up_ext (λ _ l2, l2 ≡ₚ l)); [done| |].
    - intros j l2 Hj Hp2. pose proof (Permutation_length Hp2).
      pose proof (ls_step after rooms l2 (Z.to_nat i) (Z.to_nat j)) as H1.
      rewrite !Z2Nat.id in H1 by lia. apply H1; [by eapply roomy_perm|lia..].
    - intros j l2 l3 Hj. apply Hswap; lia. }
  apply (for_up_ext (λ _ l2, l2 ≡ₚ l)); [done| |].
  - intros i l2 Hi Hp. by apply Hin; [lia|lia|].
  - intros i l2 l3 Hi Hp E. apply (for_up_ok_inv (λ _ l6, l6 ≡ₚ l) 0 i _ l2 l3) in E; [done|lia|done|].
    intros j l4 l5 Hj. apply Hswap; lia.
Qed.

Lemma sort_names_ok s :
  roomy (rooms s) (entries s) → length (rooms s) = length (entries s) →
  ∃ l, sort_names s = Ok (with_entries l s) ∧ l ≡ₚ entries s ∧ in_order by_name l.
Proof.
  intros Hr Hl. unfold sort_names. rewrite ls_sort_exchange by done.
  destruct (exchange_sort_ok by_name (λ _, True) by_name_asym by_name_trans (entries s))
    as (l & -> & Hp & Ho); [apply all_true|]. simpl. eauto.
Qed.

(** ** By time, then by name *)

Lemma time_name_asym a b : True → True → by_time_then_name a b = true → by_time_then_name b a = false.
Proof.
  unfold by_time_then_name, by_time, by_name_same_time. intros _ _ H.
  apply orb_true_iff in H. apply orb_false_iff.
  destruct H as [H%bool_decide_eq_true|[H%bool_decide_eq_true Hn]%andb_true_iff].
  - split; [apply bool_decide_eq_false; lia|]. rewrite bool_decide_false by lia. done.
  - split; [apply bool_decide_eq_false; lia|]. rewrite bool_decide_true by lia. simpl.
    by apply strcmp_lt_asym.
Qed.

Lemma time_name_trans a b c : True → True → True →
  by_time_then_name a b = false → by_time_then_name b c = false → by_time_then_name a c = false.
Proof.
  unfold by_time_then_name, by_time, by_name_same_time. intros _ _ _.
  rewrite !orb_false_iff, !bool_decide_eq_false, !andb_false_iff, !bool_decide_eq_false.
  intros [H1 H2] [H3 H4]. split; [lia|].
  destruct (decide (e_time c = e_time a)) as [E|]; [right|by left].
  destruct H2 as [?|H2]; [lia|]. destruct H4 as [?|H4]; [lia|].
  by eapply strcmp_lt_trans_false.
Qed.

(** On a list in order of time the second pass compares like the full order. *)
Lemma second_pass_same l :
  in_order by_time l →
  exchange_sort by_name_same_time (Z.of_nat (length l)) l =
  exchange_sort by_time_then_name (Z.of_nat (length l)) l.
Proof.
  intros Ho. unfold exchange_sort.
  assert (∀ i j l1, 0 ≤ j < i → i < Z.of_nat (length l1) → in_order by_time l1 →
    swap_if by_name_same_time j i l1 = swap_if by_time_then_name j i l1) as Hsame.
  { intros i j l1 Hj Hi Ho1. unfold swap_if.
    destruct (getZ_is_Some l1 j) as [a Ha]; [lia|]. destruct (getZ_is_Some l1 i) as [b Hb]; [lia|].
    rewrite !rd_getZ, Ha, Hb. cbn [opt mbind res_bind]. unfold by_time_then_name.
    unfold getZ in Ha, Hb. rewrite decide_True in Ha by lia. rewrite decide_True in Hb by lia.
    rewrite (Ho1 (Z.to_nat j) (Z.to_nat i) a b) by (done || lia). done. }
  assert (∀ i j l1 l2, 0 ≤ j < i → i < Z.of_nat (length l1) → in_order by_time l1 →
    swap_if by_time_then_name j i l1 = Ok l2 →
    length l2 = length l1 ∧ in_order by_time l2) as Hkeep.
  { intros i j l1 l2 Hj Hi Ho1 E.
    destruct (swap_if_ok by_time_then_name (Z.to_nat j) (Z.to_nat i) l1)
      as (l3 & E3 & _ & Hl & a & b & Ha & Hb & Hc); [lia|lia|].
    rewrite !Z2Nat.id in E3 by lia. rewrite E in E3. injection E3 as ->.
    split; [done|]. destruct Hc as [[Hc ->]|[_ ->]]; [|done].
    assert (e_time a = e_time b) as Et.
    { unfold by_time_then_name in Hc. rewrite (Ho1 (Z.to_nat j) (Z.to_nat i) a b) in Hc by (done || lia).
      unfold by_name_same_time in Hc. simpl in Hc.
      by apply andb_true_iff in Hc as [?%bool_decide_eq_true _]. }
    assert (∀ x u, <[Z.to_nat i:=a]> (<[Z.to_nat j:=b]> l1) !! x = Some u →
      ∃ v, l1 !! x = Some v ∧ e_time v = e_time u) as Htimes.
    { intros x u. destruct (decide (x = Z.to_nat i)) as [->|].
      - rewrite list_lookup_insert_eq by (rewrite length_insert; lia). intros [= <-]. eauto.
      - rewrite list_lookup_insert_ne by done. destruct (decide (x = Z.to_nat j)) as [->|].
        + rewrite list_lookup_insert_eq by lia. intros [= <-]. eauto.
        + rewrite list_lookup_insert_ne by done. eauto. }
    intros x y u v Hxy Hu Hv. apply Htimes in Hu as (u' & Hu & Eu). apply Htimes in Hv as (v' & Hv & Ev).
    specialize (Ho1 x y u' v' Hxy Hu Hv). unfold by_time in *.
    apply bool_decide_eq_false in Ho1. apply bool_decide_eq_false. lia. }
  apply (for_up_ext (λ _ l1, length l1 = length l ∧ in_order by_time l1)); [done| |].
  - intros i l1 Hi [Hl Ho1].
    apply (for_up_ext (λ _ l2, length l2 = length l ∧ in_order by_time l2)); [done| |].
    + intros j l2 Hj [Hl2 Ho2]. apply Hsame; [lia|lia|done].
    + intros j l2 l3 Hj [Hl2 Ho2] E. apply Hkeep in E as [? ?]; [|lia|lia|done]. split; [lia|done].
  - intros i l1 l2 Hi [Hl Ho1] E.
    apply (for_up_ok_inv (λ _ l3, length l3 = length l ∧ in_order by_time l3) 0 i _ l1 l2) in E;
      [done|lia|done|].
    intros j l3 l4 Hj [Hl3 Ho3] E3. apply Hkeep in E3 as [? ?]; [|lia|lia|done]. split; [lia|done].
Qed.

(** * Permissions *)

Lemma bit_testbit m (k : nat) : bit m (2 ^ Z.of_nat k) = Z.testbit m (Z.of_nat k).
Proof.
  unfold bit. assert (Z.land m (2 ^ Z.of_nat k) = if Z.testbit m (Z.of_nat k) then 2 ^ Z.of_nat k else 0) as ->.
  { apply Z.bits_inj'. intros n Hn. rewrite Z.land_spec, Z.pow2_bits_eqb by lia.
    destruct (Z.eqb_spec (Z.of_nat k) n) as [<-|].
    - rewrite andb_true_r. destruct (Z.testbit m (Z.of_nat k)); [by rewrite Z.pow2_bits_true by lia|by rewrite Z.bits_0].
    - rewrite andb_false_r. destruct (Z.testbit m (Z.of_nat k)); [by rewrite Z.pow2_bits_false by lia|by rewrite Z.bits_0]. }
  destruct (Z.testbit m (Z.of_nat k)); [|done].
  apply negb_true_iff, Z.eqb_neq. pose proof (Z.pow_pos_nonneg 2 (Z.of_nat k)). lia.
Qed.

Definition nine (c : nat → ascii) : string :=
  String (c 0%nat) (String (c 1%nat) (String (c 2%nat) (String (c 3%nat) (String (c 4%nat)
    (String (c 5%nat) (String (c 6%nat) (String (c 7%nat) (String (c 8%nat) EmptyString)))))))).

Lemma set_if_nine t n ch c :
  set_if t n ch (nine c) = nine (λ k, if t && (k =? n)%nat then ch else c k).
Proof.
  destruct t; [|done]. unfold set_if, nine.
  do 9 (destruct n as [|n]; [vm_compute; reflexivity|]). destruct n; vm_compute; reflexivity.
Qed.

Lemma rwx_nine b :
  rwx b = nine (λ k, if Z.testbit b (nth k [8; 7; 6; 5; 4; 3; 2; 1; 0] 0)
                     then nth (k mod 3) ["r"; "w"; "x"]%char "x"%char else "-"%char).
Proof. done. Qed.

Lemma perm_rwx mode b : perm mode (rwx b) = rwx (Z.lor b mode).
Proof.
  unfold perm. cbn [seq foldl]. unfold perm_round. cbn [Nat.mul Nat.add].
  change (Z.shiftr 64 (Z.of_nat 0 * 3)) with (2 ^ Z.of_nat 6).
  change (Z.shiftr 128 (Z.of_nat 0 * 3)) with (2 ^ Z.of_nat 7).
  change (Z.shiftr 256 (Z.of_nat 0 * 3)) with (2 ^ Z.of_nat 8).
  change (Z.shiftr 64 (Z.of_nat 1 * 3)) with (2 ^ Z.of_nat 3).
  change (Z.shiftr 128 (Z.of_nat 1 * 3)) with (2 ^ Z.of_nat 4).
  change (Z.shiftr 256 (Z.of_nat 1 * 3)) with (2 ^ Z.of_nat 5).
  change (Z.shiftr 64 (Z.of_nat 2 * 3)) with (2 ^ Z.of_nat 0).
  change (Z.shiftr 128 (Z.of_nat 2 * 3)) with (2 ^ Z.of_nat 1).
  change (Z.shiftr 256 (Z.of_nat 2 * 3)) with (2 ^ Z.of_nat 2).
  rewrite !bit_testbit, !rwx_nine.
  rewrite !set_if_nine. unfold nine. cbn [Nat.eqb nth Nat.modulo Nat.divmod fst snd Nat.sub].
  rewrite !Z.lor_spec, !andb_false_r, !andb_true_r. cbn [Z.of_nat Pos.of_succ_nat Pos.succ].
  repeat (apply (f_equal2 String);
    [match goal with |- context [Z.testbit mode (Z.of_nat ?k)] =>
       let z := eval vm_compute in (Z.of_nat k) in change (Z.of_nat k) with z;
       by destruct (Z.testbit b z), (Z.testbit mode z) end|]).
  done.
Qed.

(** * Reading a directory without options *)

Definition visible (dents : list dirent) : list dirent :=
  filter (λ d, dotted (d_name d) = false) dents.

Lemma read_stat_ok e dir d s :
  (String.length dir + 1 + String.length (d_name d) < 1024)%nat →
  ∃ v, read_stat e dir d s = Ok (Ls (entries s) (rooms s) (perms s) v (check_for_option s) (output s)).
Proof.
  intros Hl. unfold read_stat. rewrite store_ok by (rewrite !string_length_app; simpl; lia).
  simpl. destruct (lstat e _); [eauto|]. exists (st s). by destruct s.
Qed.

Lemma each_plain e target dents s :
  (∀ d, d ∈ dents → (String.length target + 1 + String.length (d_name d) < 1024)%nat) →
  (length (entries s) + length dents ≤ 1024)%nat →
  ∃ s', each (λ d s, s ← read_stat e target d s;
      if dotted (d_name d) then Ok s
      else if decide (length (entries s) < 1024)%nat
           then Ok (Ls (entries s ++ [Entry (d_name d) "" 0]) (rooms s ++ [d_room d])
                       (perms s) (st s) (check_for_option s) (output s))
           else Undef OutOfBounds) dents s = Ok s' ∧
    entries s' = entries s ++ ((λ d, Entry (d_name d) "" 0) <$> visible dents) ∧
    rooms s' = rooms s ++ (d_room <$> visible dents).
Proof.
  induction dents as [|d dents IH] in s |- *; intros Hp Hn; simpl in *.
  { exists s. by rewrite !app_nil_r. }
  destruct (read_stat_ok e target d s) as [v ->]; [apply Hp; by left|]. cbn [mbind res_bind].
  unfold visible. destruct (dotted (d_name d)) eqn:E.
  - rewrite filter_cons_False by congruence. cbn [mbind res_bind].
    destruct (IH (Ls (entries s) (rooms s) (perms s) v (check_for_option s) (output s)))
      as (s' & E1 & He & Hr); [intros; apply Hp; by right|simpl; lia|].
    exists s'. split; [exact E1|]. done.
  - rewrite filter_cons_True by done. simpl entries. rewrite decide_True by lia. cbn [mbind res_bind].
    destruct (IH (Ls (entries s ++ [Entry (d_name d) "" 0]) (rooms s ++ [d_room d])
      (perms s) v (check_for_option s) (output s))) as (s' & E1 & He & Hr);
      [intros; apply Hp; by right|simpl; rewrite length_app; simpl; lia|].
    exists s'. split; [exact E1|]. rewrite He, Hr. simpl. by rewrite <- !app_assoc.
Qed.

(** * Properties *)

(** Listing a directory without options prints its visible names, each
    once, in the order of [strcmp], as long as every name fits into the slot
    of every entry. *)
Theorem myls_lists_sorted e target dents s :
  opendir e target = Some dents → entries s = [] → rooms s = [] → (length dents ≤ 1024)%nat →
  (∀ d, d ∈ dents → (String.length target + 1 + String.length (d_name d) < 1024)%nat) →
  (∀ d d', d ∈ dents → d' ∈ dents → (String.length (d_name d) < d_room d')%nat) →
  ∃ s', myls e target s = Ok s' ∧ (e_name <$> entries s') ≡ₚ (d_name <$> visible dents) ∧
    in_order by_name (entries s').
Proof.
  intros Ho He Hr Hn Hp Hroom. unfold myls. rewrite Ho.
  destruct (each_plain e target dents s Hp) as (s1 & -> & He1 & Hr1); [rewrite He; simpl; lia|].
  cbn [mbind res_bind]. rewrite He in He1. rewrite Hr in Hr1. simpl in He1, Hr1.
  destruct (sort_names_ok s1) as (l & -> & Hperm & Hord).
  - rewrite He1, Hr1. intros r x Hin1 Hin2.
    apply list_elem_of_fmap in Hin1 as (d1 & -> & Hd1). apply list_elem_of_fmap in Hin2 as (d2 & -> & Hd2).
    simpl. apply list_elem_of_filter in Hd1 as [_ ?]. apply list_elem_of_filter in Hd2 as [_ ?].
    by apply Hroom.
  - by rewrite He1, Hr1, !length_fmap.
  - eexists. split; [done|]. simpl. split; [|done]. rewrite Hperm, He1.
    by rewrite <- list_fmap_compose.
Qed.

(** The two passes of -t put the entries in the order of falling
    modification time, those of the same second by name, when every name fits
    into every slot. *)
Theorem sort_times_correct s :
  roomy (rooms s) (entries s) → length (rooms s) = length (entries s) →
  ∃ l, sort_times s = Ok (with_entries l s) ∧ l ≡ₚ entries s ∧ in_order by_time_then_name l.
Proof.
  intros Hr Hl. unfold sort_times. rewrite ls_sort_exchange by done.
  destruct (exchange_sort_ok by_time (λ _, True) by_time_asym by_time_trans (entries s))
    as (l1 & -> & Hp1 & Ho1); [apply all_true|]. cbn [mbind res_bind].
  pose proof (Permutation_length Hp1) as Hl1.
  rewrite ls_sort_exchange by (first [by eapply roomy_perm|lia]).
  rewrite second_pass_same by done.
  destruct (exchange_sort_ok by_time_then_name (λ _, True) time_name_asym time_name_trans l1)
    as (l2 & -> & Hp2 & Ho2); [apply all_true|]. cbn [mbind res_bind].
  exists l2. split; [done|]. split; [by rewrite Hp2|done].
Qed.

(** The buffer of [perm] is never reset: after files with the modes
    [modes], the permissions shown for the last one are those of all of them
    together; only the first file is shown its own. *)
Theorem perm_accumulates modes :
  foldl (λ p mode, perm mode p) (perms start) modes = rwx (foldl Z.lor 0 modes).
Proof.
  change (perms start) with (rwx 0). generalize 0 as b.
  induction modes as [|m modes IH]; intros b; [done|]. simpl. by rewrite perm_rwx.
Qed.

(** Of two option arguments only the first has an effect: the test that
    should join the second to it compares a string with its own copy. *)
Theorem second_option_ignored e prog o1 o2 :
  has_dash prog = false → has_dash o1 = true → has_dash o2 = true →
  (String.length o1 < 1024)%nat →
  main e [prog; o1; o2] = main e [prog; o1].
Proof.
  intros Hp H1 H2 Hl. unfold main. cbn [length existsb]. rewrite Hp, H1. cbn [orb].
  rewrite !decide_False by done. unfold with_options.
  assert (option_indices [prog; o1; o2] = [1; 2]) as ->
    by (unfold option_indices; simpl; by rewrite Hp, H1, H2).
  assert (option_indices [prog; o1] = [1]) as ->
    by (unfold option_indices; simpl; by rewrite Hp, H1).
  assert (gather_options 3 ([prog; o1; o2], [1; 2], 1) = Ok ([prog; o1; o2], [1; 2], 1)) as Hg.
  { unfold gather_options, for_up. simpl. unfold rd. simpl. by rewrite H2. }
  assert (merge_options [1; 2] 2 [prog; o1; o2] = Ok [prog; o1]) as Hm.
  { unfold merge_options, for_up. simpl. unfold rd. simpl. rewrite store_ok by done. simpl.
    by rewrite strstr_refl. }
  change (rd [1; 2] 0) with (Ok 1). change (rd [1] 0) with (Ok 1). cbn [mbind res_bind].
  change (rd [prog; o1; o2] 1) with (Ok o1). change (rd [prog; o1] 1) with (Ok o1).
  cbn [mbind res_bind].
  change (wr [prog; o1; o2] 1 o1) with (Ok [prog; o1; o2]).
  change (wr [prog; o1] 1 o1) with (Ok [prog; o1]). cbn [mbind res_bind].
  change (wr [prog; o1; o2] 1 o1) with (Ok [prog; o1; o2]).
  change (wr [prog; o1] 1 o1) with (Ok [prog; o1]). cbn [mbind res_bind length].
  change (Z.of_nat 3) with 3. change (Z.of_nat 2) with 2. rewrite Hg. cbn [mbind res_bind].
  rewrite Hm. reflexivity.
Qed.

(** A directory with the given names and regular files with the given modes
    and inodes 100, 101, ...; each name in a record of the size the kernel
    gives it: a multiple of 8 with 19 bytes before the name. *)
Definition kernel_room (name : string) : nat := ((String.length name + 27) / 8 * 8 - 19)%nat.

Definition small_dir (files : list (string * Z)) : env :=
  Env (λ d, if decide (d = ".") then Some ((λ p : string * Z, Dirent p.1 (kernel_room p.1)) <$> files)
            else None)
      (λ p, match list_find (λ q : string * Z, p = ("./" +:+ q.1)%string) files with
            | Some (i, q) => Some (Stat (32768 + q.2) 1 0 0 10 0 (100 + Z.of_nat i))
            | None => None
            end)
      (λ _, Some "root") (λ _, Some "root") (λ _, "Thu Jan  1 00:00:00 1970").

Definition lines (r : res (list string)) : list string := match r with Ok l => l | _ => [] end.

(** With -l and -i the inode of a file is written on the line of the first
    name that contains the file's name: the inode 100 of "b" appears on the
    line of "ab", and the line of "b" has none. *)
Theorem inode_on_the_wrong_line :
  main (small_dir [("b", 420); ("ab", 420)]) ["myls"; "-li"] =
    Ok [("    101     100 -rw-r--r--   1 root root        10 Jan  1 00:00 ab" +:+ nl)%string;
        ("-rw-r--r--   1 root root        10 Jan  1 00:00 b" +:+ nl)%string; (nl +:+ nl)%string].
Proof. vm_compute. reflexivity. Qed.

(** Sorting exchanges names in place with [strcpy]: in a directory that
    hands out "c" before "aaaaaaaa" the long name is copied over the end of
    the short record. *)
Theorem long_name_into_short_record :
  myls (small_dir [("c", 420); ("aaaaaaaa", 420)]) "." start = Undef OutOfBounds.
Proof. vm_compute. reflexivity. Qed.

(** * Witnesses *)

Lemma myls_lists_sorted_witness :
  ∃ s', myls (small_dir [("c", 420); ("b", 420)]) "." start = Ok s' ∧
    (e_name <$> entries s') ≡ₚ ["c"; "b"] ∧ in_order by_name (entries s').
Proof.
  apply (myls_lists_sorted (small_dir [("c", 420); ("b", 420)]) "."
    [Dirent "c" 5; Dirent "b" 5] start); [by vm_compute|done|done|simpl; lia| |].
  - intros d [->|[->|[]%elem_of_nil]%elem_of_cons]%elem_of_cons; simpl; lia.
  - intros d d' [->|[->|[]%elem_of_nil]%elem_of_cons]%elem_of_cons
      [->|[->|[]%elem_of_nil]%elem_of_cons]%elem_of_cons; simpl; lia.
Defined.

Definition two_entries : ls :=
  Ls [Entry "b" "b" 5; Entry "a" "a" 7] [5%nat; 5%nat] "---------" no_stat false [].

Lemma sort_times_correct_witness :
  ∃ l, sort_times two_entries = Ok (with_entries l two_entries) ∧
    l ≡ₚ [Entry "b" "b" 5; Entry "a" "a" 7] ∧ in_order by_time_then_name l.
Proof.
  apply (sort_times_correct two_entries); [|done].
  intros r x [->|[->|[]%elem_of_nil]%elem_of_cons]%elem_of_cons
    [->|[->|[]%elem_of_nil]%elem_of_cons]%elem_of_cons; simpl; lia.
Defined.

Lemma second_option_ignored_witness :
  main (small_dir [("b", 420)]) ["myls"; "-l"; "-r"] = main (small_dir [("b", 420)]) ["myls"; "-l"].
Proof. apply (second_option_ignored _ "myls" "-l" "-r"); [done..|simpl; lia]. Defined.
