(* ===== verification/Chmod.v ===== *)
(** The file tools of the course: mychmod.c and mytouch.c (each of them twice
    in the repository, under src/과제/리눅스시스템프로그래밍과제 and
    src/리눅스시스템프로그래밍_예제). *)
From S2P Require Import Prelude CString.
Local Open Scope Z_scope.

(** Modes and contents of the files; a path that is not in the map cannot be
    reached. [allowed]: does the kernel let the caller change the mode or open
    the file for writing? *)
Record fs := Fs { modes : gmap string Z; contents : gmap string string }.

(** * mychmod *)

(** [tmp << n]: undefined for a negative operand or amount. *)
Definition shl (tmp n : Z) : res Z :=
  if decide (tmp < 0 ∨ n < 0) then Undef BadShift else in_int (Z.shiftl tmp n).

Definition char_of (s : string) (i : Z) : res Z :=
  match string_get s (Z.to_nat i) with Some c => Ok (digit_of c) | None => Undef OutOfBounds end.

(** The mode [digit_mode] computes. *)
Definition digit_bits (arg : string) : res Z :=
  let n := Z.of_nat (String.length arg) in
  if decide (n = 3) then
    for_up 0 3 (λ i bit,
      tmp ← char_of arg i; v ← shl tmp ((2 - i) * 3); in_int (bit + v)) 0
  else
    tmp ← char_of arg 0;
    bit ← shl tmp 9;
    for_up 1 n (λ i bit,
      tmp ← char_of arg i; v ← shl tmp ((3 - i) * 3); in_int (bit + v)) bit.

Section chmod.
Context (allowed : string → bool).

(** [chmod(path,mode)]: the kernel keeps the low 12 bits. *)
Definition sys_chmod (path : string) (mode : Z) (s : fs) : option fs :=
  match modes s !! path with
  | Some _ => if allowed path then Some (Fs (<[path := Z.land mode 4095]> (modes s)) (contents s))
              else None
  | None => None
  end.

(** [argv2]: [None] when there is no second argument. *)
Definition digit_mode (argv1 : string) (argv2 : option string) (s : fs) : res fs :=
  match argv2 with
  | None => Exit 1
  | Some path =>
      match modes s !! path with
      | None => Exit 1
      | Some _ =>
          bit ← digit_bits argv1;
          match sys_chmod path bit s with Some s => Ok s | None => Exit 1 end
      end
  end.

(** What it prints; the files are left alone. *)
Definition english_mode (argv1 : string) : list string := strtok "," argv1.

(** The files and the lines printed. *)
Definition chmod_main (argv : list string) (s : fs) : res (fs * list string) :=
  match argv !! 1%nat with
  | None => Undef NullPointer
  | Some argv1 =>
      match argv1 with
      | String c _ =>
          if is_digit c then s ← digit_mode argv1 (argv !! 2%nat) s; Ok (s, [])
          else if is_alpha c then Ok (s, english_mode argv1)
          else Exit 1
      | EmptyString => Exit 1
      end
  end.

(** The copy among the examples. *)
Definition example_chmod_main := chmod_main.

(** * mytouch *)

(** [open(argv[1], O_RDWR | O_TRUNC)] and nothing else: the times are copied
    from a [struct stat] that was never filled and never passed to [utime]. *)
Definition touch_main (argv : list string) (s : fs) : res fs :=
  match argv with
  | [_; path] =>
      match contents s !! path with
      | Some _ => if allowed path then Ok (Fs (modes s) (<[path := EmptyString]> (contents s)))
                  else Exit 1
      | None => Exit 1
      end
  | _ => Exit 1
  end.

Definition example_touch_main := touch_main.
End chmod.
