(* ===== verification/Calc.v ===== *)
(** The system calls of assignment 3 (src/과제/OS과제/과제3/sys_print_*.c, their
    numbers in syscall_64.tbl) and the program that calls them (test.c). *)
From S2P Require Import Prelude CString.
Local Open Scope Z_scope.

(** * The system calls

    Each stores one [int] through the user pointer and returns 0. The kernel
    is built with wrapping signed arithmetic; a division by zero and the
    division of INT_MIN by -1 trap. *)

Definition sys_print_add (a b : Z) : res Z := Ok (wrap32 (a + b)).
Definition sys_print_min (a b : Z) : res Z := Ok (wrap32 (a - b)).
Definition sys_print_mul (a b : Z) : res Z := Ok (wrap32 (a * b)).
Definition sys_print_mod (a b : Z) : res Z :=
  if decide (b = 0 ∨ (a = - 2^31 ∧ b = -1)) then Undef DivByZero else Ok (Z.rem a b).

(** The four lines the assignment adds to the table of system calls. *)
Definition syscall (nr a b : Z) : option (res Z) :=
  if decide (nr = 442) then Some (sys_print_add a b)
  else if decide (nr = 443) then Some (sys_print_min a b)
  else if decide (nr = 444) then Some (sys_print_mul a b)
  else if decide (nr = 445) then Some (sys_print_mod a b)
  else None.

(** * test.c *)

(** [x * 10 + c - '0'] on [int]s, from left to right. *)
Definition push_digit (x : Z) (c : ascii) : res Z :=
  y ← in_int (x * 10); y ← in_int (y + char_val c); in_int (y - 48).

(** The digits of the first operand: the value, the operator and what
    follows it, if there is one. *)
Fixpoint first_operand (s : string) (a : Z) : res (Z * option (ascii * string)) :=
  match s with
  | EmptyString => Ok (a, None)
  | String c s =>
      if is_digit c then a ← push_digit a c; first_operand s a else Ok (a, Some (c, s))
  end.

Fixpoint second_operand (s : string) (b : Z) : res Z :=
  match s with
  | EmptyString => Ok b
  | String c s => b ← push_digit b c; second_operand s b
  end.

(** [*a *= -1] *)
Definition negate_if (check : bool) (x : Z) : res Z := if check then in_int (x * -1) else Ok x.

(** A leading minus sign is removed from [s]. *)
Definition sign (s : string) : bool * string :=
  match s with
  | String c s' => if decide (c = "-"%char) then (true, s') else (false, s)
  | EmptyString => (false, s)
  end.

(** [a], [b] and [ch]; without an operator, [buffer[-1]] is read. *)
Definition parse_token (buffer : string) : res (Z * Z * ascii) :=
  let '(check, s) := sign buffer in
  '(a, o) ← first_operand s 0;
  a ← negate_if check a;
  match o with
  | None => Undef OutOfBounds
  | Some (ch, s) =>
      let '(check, s) := sign s in
      b ← second_operand s 0;
      b ← negate_if check b;
      Ok (a, b, ch)
  end.

(** The number of the call for an operator. *)
Definition number_of (ch : ascii) : option Z :=
  if decide (ch = "+"%char) then Some 442
  else if decide (ch = "-"%char) then Some 443
  else if decide (ch = "*"%char) then Some 444
  else if decide (ch = "%"%char) then Some 445
  else None.

(** One round: [star_ptr] is what [*ptr] holds, [None] when the pointer,
    which the program never sets, points nowhere. *)
Definition calculate (buffer : string) (star_ptr : option Z) : res (string * option Z) :=
  '(a, b, ch) ← parse_token buffer;
  v ← match number_of ch with
      | Some nr =>
          match syscall nr a b with
          | Some r => v ← r; Ok (match star_ptr with Some _ => Some v | None => None end)
          | None => Ok star_ptr
          end
      | None => Ok star_ptr
      end;
  x ← opt NullPointer v;
  Ok (pretty a +:+ " " +:+ String ch EmptyString +:+ " " +:+ pretty b +:+ " =  " +:+ pretty x +:+
      String newline EmptyString, v).

(** [gets]: the line without its newline; at the end of the input the
    buffer stays empty. *)
Definition gets (input : string) : res (string * string) :=
  let '(line, rest) := span (λ c, negb (bool_decide (c = newline))) input in
  line ← store 1024 line;
  Ok (line, string_drop 1 rest).

(** [while(n--)]; every round reads a line, so the input bounds the rounds. *)
Fixpoint calc_rounds (fuel : nat) (n : Z) (input : string) (star_ptr : option Z)
    : res (list string) :=
  if decide (n = 0) then Ok [] else
  match fuel with
  | O => Undef OutOfBounds
  | S fuel =>
      '(line, rest) ← gets input;
      '(out, star_ptr) ← calculate line star_ptr;
      l ← calc_rounds fuel (n - 1) rest star_ptr;
      Ok (out :: l)
  end.

(** [scanf("%d\n",&n)] and the loop. *)
Definition calc_main (star_ptr : option Z) (input : string) : res (list string) :=
  match scan_int input with
  | None => Undef Uninitialised
  | Some (n, rest) =>
      let rest := skip_space rest in
      calc_rounds (S (String.length rest)) (wrap32 (clamp64 n)) rest star_ptr
  end.
