(* ===== verification/ToolsProofs.v ===== *)
(** The small tools: what [mychmod] makes of a numeric mode, and that the
    calculator of assignment 3 computes what its line says. *)
From S2P Require Import Prelude CString Chmod Calc.
Local Open Scope Z_scope.

(** * Specification *)

Definition octal_char (d : Z) : ascii := ascii_of_N (Z.to_N (48 + d)).
Definition octal_text (ds : list Z) : string := foldr (λ d s, String (octal_char d) s) "" ds.
Definition octal_value (ds : list Z) : Z := foldl (λ v d, 8 * v + d) 0 ds.

Definition octal (d : Z) : Prop := 0 ≤ d < 8.

#[global] Instance octal_dec d : Decision (octal d).
Proof. unfold octal. apply _. Defined.

(** What [a ch b] should be. *)
Definition meaning (ch : ascii) (a b : Z) : option Z :=
  if decide (ch = "+"%char) then Some (wrap32 (a + b))
  else if decide (ch = "-"%char) then Some (wrap32 (a - b))
  else if decide (ch = "*"%char) then Some (wrap32 (a * b))
  else if decide (ch = "%"%char) then (if decide (b = 0) then None else Some (Z.rem a b))
  else None.

(** The operands [parse_token] reads without a signed overflow on the way:
    [x * 10 + c] exceeds the value it stands for by [c] = 48. *)
Definition operand (x : Z) : Prop := Z.abs x ≤ 2^31 - 1 - 48.

(** * Modes *)

Lemma octal_char_digit d : octal d → digit_of (octal_char d) = d.
Proof.
  unfold octal. intros Hd.
  assert (d = 0 ∨ d = 1 ∨ d = 2 ∨ d = 3 ∨ d = 4 ∨ d = 5 ∨ d = 6 ∨ d = 7) as H by lia.
  by repeat destruct H as [->|H]; subst.
Qed.

Lemma octal_text_length ds : String.length (octal_text ds) = length ds.
Proof. induction ds as [|d ds IH]; simpl; congruence. Qed.

Lemma octal_text_char ds i d :
  Forall octal ds → 0 ≤ i → ds !! Z.to_nat i = Some d → char_of (octal_text ds) i = Ok d.
Proof.
  intros Hds Hi Hd. unfold char_of.
  assert (string_get (octal_text ds) (Z.to_nat i) = Some (octal_char d)) as ->.
  { clear Hds Hi. revert Hd. generalize (Z.to_nat i) as n.
    induction ds as [|x ds IH]; intros [|n] Hd; simpl in *; simplify_eq; auto. }
  by rewrite octal_char_digit by (by apply (Forall_lookup_1 _ _ _ _ Hds Hd)).
Qed.

Lemma shl_ok t n : octal t → 0 ≤ n ≤ 9 → shl t n = Ok (t * 2 ^ n).
Proof.
  unfold octal. intros Ht Hn. unfold shl. rewrite decide_False by lia.
  rewrite Z.shiftl_mul_pow2 by lia. apply in_int_ok.
  assert (0 < 2 ^ n ≤ 2 ^ 9) by (split; [apply Z.pow_pos_nonneg; lia|apply Z.pow_le_mono_r; lia]).
  unfold int32. nia.
Qed.

(** The loop of the branch for other lengths than 3, up to index 3. *)
Lemma digit_round ds i d bit :
  Forall octal ds → 0 ≤ i ≤ 3 → ds !! Z.to_nat i = Some d → 0 ≤ bit < 2^20 →
  (tmp ← char_of (octal_text ds) i; v ← shl tmp ((3 - i) * 3); in_int (bit + v)) =
    Ok (bit + d * 2 ^ ((3 - i) * 3)).
Proof.
  intros Hds Hi Hd Hb. rewrite (octal_text_char ds i d) by (done || lia). cbn [mbind res_bind].
  pose proof (Forall_lookup_1 _ _ _ _ Hds Hd) as Ho.
  rewrite shl_ok by (done || lia). cbn [mbind res_bind]. apply in_int_ok.
  assert (0 < 2 ^ ((3 - i) * 3) ≤ 2 ^ 9)
    by (split; [apply Z.pow_pos_nonneg; lia|apply Z.pow_le_mono_r; lia]).
  unfold octal, int32 in *. nia.
Qed.

Lemma digit_bits_short ds :
  Forall octal ds → (1 ≤ length ds ≤ 4)%nat →
  digit_bits (octal_text ds) =
    Ok (octal_value ds * 8 ^ (if decide (length ds = 3%nat) then 0 else 4 - Z.of_nat (length ds))).
Proof.
  intros Hds Hl. unfold digit_bits. rewrite octal_text_length.
  destruct ds as [|a [|b [|c [|d [|x ds]]]]]; simpl in Hl; try lia; cbn [length].
  - rewrite decide_False by done. rewrite (octal_text_char [a] 0 a) by done. cbn [mbind res_bind].
    apply Forall_cons in Hds as [Ha _]. rewrite shl_ok by (done || lia). cbn [mbind res_bind].
    unfold for_up; simpl; f_equal; unfold octal_value; simpl; lia.
  - rewrite decide_False by done. rewrite (octal_text_char [a; b] 0 a) by done. cbn [mbind res_bind].
    pose proof Hds as [Ha [Hb _]%Forall_cons]%Forall_cons. unfold octal in Ha, Hb.
    rewrite shl_ok by (unfold octal; lia). cbn [mbind res_bind].
    unfold for_up. change (Z.to_nat (Z.of_nat 2 - 1)) with 1%nat. cbn [loop_from].
    rewrite (digit_round [a; b] 1 b) by (done || lia). cbn [mbind res_bind].
    f_equal; unfold octal_value; simpl; lia.
  - rewrite decide_True by done. pose proof Hds as [Ha [Hb [Hc _]%Forall_cons]%Forall_cons]%Forall_cons.
    unfold octal in Ha, Hb, Hc. unfold for_up. change (Z.to_nat (3 - 0)) with 3%nat. cbn [loop_from].
    rewrite (octal_text_char [a; b; c] 0 a) by (done || lia). cbn [mbind res_bind].
    rewrite shl_ok by (unfold octal; lia). cbn [mbind res_bind].
    rewrite in_int_ok by (unfold int32; simpl; lia). cbn [mbind res_bind].
    rewrite (octal_text_char [a; b; c] (0 + 1) b) by (done || lia). cbn [mbind res_bind].
    rewrite shl_ok by (unfold octal; lia). cbn [mbind res_bind].
    rewrite in_int_ok by (unfold int32; simpl; lia). cbn [mbind res_bind].
    rewrite (octal_text_char [a; b; c] (0 + 1 + 1) c) by (done || lia). cbn [mbind res_bind].
    rewrite shl_ok by (unfold octal; lia). cbn [mbind res_bind].
    rewrite in_int_ok by (unfold int32; simpl; lia). cbn [mbind res_bind].
    f_equal; unfold octal_value; simpl; lia.
  - rewrite decide_False by done. rewrite (octal_text_char [a; b; c; d] 0 a) by done. cbn [mbind res_bind].
    pose proof Hds as [Ha [Hb [Hc [Hd _]%Forall_cons]%Forall_cons]%Forall_cons]%Forall_cons.
    unfold octal in Ha, Hb, Hc, Hd.
    rewrite shl_ok by (unfold octal; lia). cbn [mbind res_bind].
    unfold for_up. change (Z.to_nat (Z.of_nat 4 - 1)) with 3%nat. cbn [loop_from].
    rewrite (digit_round [a; b; c; d] 1 b) by (done || lia). cbn [mbind res_bind].
    rewrite (digit_round [a; b; c; d] (1 + 1) c) by (done || simpl; lia). cbn [mbind res_bind].
    rewrite (digit_round [a; b; c; d] (1 + 1 + 1) d) by (done || simpl; lia). cbn [mbind res_bind].
    f_equal; unfold octal_value; simpl; lia.
Qed.

Lemma digit_bits_long ds :
  Forall octal ds → (5 ≤ length ds)%nat → digit_bits (octal_text ds) = Undef BadShift.
Proof.
  intros Hds Hl. unfold digit_bits. rewrite octal_text_length, decide_False by lia.
  destruct (lookup_lt_is_Some_2 ds 0) as [a Ha]; [lia|].
  rewrite (octal_text_char ds 0 a) by done. cbn [mbind res_bind].
  pose proof (Forall_lookup_1 _ _ _ _ Hds Ha) as Hoa.
  rewrite shl_ok by (done || lia). cbn [mbind res_bind]. unfold octal in Hoa.
  apply (for_up_undef (λ i bit, 0 ≤ bit < i * 2^12) _ _ 4); [lia|lia| |].
  - intros i bit Hi Hb. destruct (lookup_lt_is_Some_2 ds (Z.to_nat i)) as [d Hd]; [lia|].
    rewrite (digit_round ds i d) by (done || lia). eexists. split; [done|].
    pose proof (Forall_lookup_1 _ _ _ _ Hds Hd) as Ho. unfold octal in Ho.
    assert (0 < 2 ^ ((3 - i) * 3) ≤ 2 ^ 9)
      by (split; [apply Z.pow_pos_nonneg; lia|apply Z.pow_le_mono_r; lia]).
    nia.
  - intros bit _. destruct (lookup_lt_is_Some_2 ds 4) as [d Hd]; [lia|].
    rewrite (octal_text_char ds 4 d) by (done || lia). cbn [mbind res_bind].
    unfold shl. by rewrite decide_True by lia.
Qed.

Lemma octal_value_range ds v :
  Forall octal ds → 0 ≤ v →
  0 ≤ foldl (λ v d, 8 * v + d) v ds < (v + 1) * 8 ^ Z.of_nat (length ds).
Proof.
  intros Hds. induction Hds as [|d ds Hd _ IH] in v |- *; intros Hv; simpl foldl; simpl length.
  - simpl. lia.
  - unfold octal in Hd. rewrite Nat2Z.inj_succ, Z.pow_succ_r by lia.
    specialize (IH (8 * v + d) ltac:(lia)). nia.
Qed.

(** * Lines of the calculator *)

Lemma digit_range c : is_digit c = true → 0 ≤ digit_of c ≤ 9.
Proof. unfold is_digit, digit_of. intros ?%bool_decide_eq_true. lia. Qed.

Lemma digits_val_ge acc s : 0 ≤ acc → acc ≤ digits_val acc s.
Proof.
  induction s as [|c s IH] in acc |- *; intros Hacc; simpl; [lia|].
  destruct (is_digit c) eqn:E; [|lia]. apply digit_range in E.
  etrans; [|apply IH; lia]. lia.
Qed.

Lemma push_digit_ok x c :
  0 ≤ x → is_digit c = true → 10 * x + digit_of c ≤ 2^31 - 1 - 48 →
  push_digit x c = Ok (10 * x + digit_of c).
Proof.
  intros Hx Hc Hb. pose proof (digit_range c Hc) as Hd. unfold digit_of in *. unfold push_digit.
  rewrite in_int_ok by (unfold int32; lia). cbn [mbind res_bind].
  rewrite in_int_ok by (unfold int32; lia). cbn [mbind res_bind].
  rewrite in_int_ok by (unfold int32; lia). f_equal. lia.
Qed.

Lemma first_operand_digits s rest acc :
  all_digits s → 0 ≤ acc → digits_val acc s ≤ 2^31 - 1 - 48 →
  first_operand (s +:+ rest) acc = first_operand rest (digits_val acc s).
Proof.
  induction s as [|c s IH] in acc |- *; intros Hs Hacc Hb; [done|].
  change (String c s +:+ rest)%string with (String c (s +:+ rest)).
  pose proof (Hs 0%nat c eq_refl) as Hc. cbn [first_operand digits_val] in *. rewrite Hc in *.
  pose proof (digit_range c Hc). pose proof (digits_val_ge (10 * acc + digit_of c) s ltac:(lia)).
  rewrite push_digit_ok by (done || lia). cbn [mbind res_bind].
  apply IH; [intros n; apply (Hs (S n))|lia|lia].
Qed.

Lemma second_operand_digits s acc :
  all_digits s → 0 ≤ acc → digits_val acc s ≤ 2^31 - 1 - 48 →
  second_operand s acc = Ok (digits_val acc s).
Proof.
  induction s as [|c s IH] in acc |- *; intros Hs Hacc Hb; [done|].
  pose proof (Hs 0%nat c eq_refl) as Hc. cbn [second_operand digits_val] in *. rewrite Hc in *.
  pose proof (digit_range c Hc). pose proof (digits_val_ge (10 * acc + digit_of c) s ltac:(lia)).
  rewrite push_digit_ok by (done || lia). cbn [mbind res_bind].
  apply IH; [intros n; apply (Hs (S n))|lia|lia].
Qed.

(** A printed operand is its sign and the digits of its absolute value. *)
Lemma sign_pretty x rest :
  sign (pretty x +:+ rest) = (bool_decide (x < 0), (pretty (Z.abs x) +:+ rest)%string).
Proof.
  case_bool_decide as Hx.
  - rewrite pretty_neg by done. rewrite Z.abs_neq by lia. done.
  - rewrite Z.abs_eq by lia. destruct (pretty_nonneg_digits x) as [Hd Hne]; [lia|].
    destruct (pretty x) as [|c t]; [done|]. pose proof (Hd 0%nat c eq_refl) as Hc.
    change (String c t +:+ rest)%string with (String c (t +:+ rest)). unfold sign.
    destruct (decide (c = "-"%char)) as [->|]; [done|done].
Qed.

Lemma negate_abs x : operand x → negate_if (bool_decide (x < 0)) (Z.abs x) = Ok x.
Proof.
  unfold operand. intros Hx. case_bool_decide; simpl.
  - rewrite in_int_ok by (unfold int32; lia). f_equal. lia.
  - f_equal. lia.
Qed.

Lemma parse_token_ok a b ch :
  operand a → operand b → is_digit ch = false →
  parse_token (pretty a +:+ String ch (pretty b)) = Ok (a, b, ch).
Proof.
  intros Ha Hb Hch. unfold parse_token. rewrite sign_pretty.
  destruct (pretty_nonneg_digits (Z.abs a)) as [Hda _]; [lia|].
  destruct (pretty_nonneg_digits (Z.abs b)) as [Hdb _]; [lia|].
  rewrite first_operand_digits by (done || rewrite ?digits_val_pretty by lia; done).
  rewrite digits_val_pretty by lia. cbn [first_operand]. rewrite Hch. cbn [mbind res_bind].
  rewrite negate_abs by done. cbn [mbind res_bind].
  pose proof (sign_pretty b "") as Hs. rewrite !string_app_nil_r in Hs. rewrite Hs.
  rewrite second_operand_digits by (done || rewrite ?digits_val_pretty by lia; done).
  rewrite digits_val_pretty by lia. cbn [mbind res_bind]. by rewrite negate_abs.
Qed.

(** * Properties *)

(** [mychmod] sets the mode an octal argument of three or four digits
    names; one or two digits are read from the left (7 becomes 7000), and
    five or more digits shift by a negative amount. *)
Theorem digit_mode_by_length allowed ds path s old :
  Forall octal ds → ds ≠ [] → modes s !! path = Some old → allowed path = true →
  let r := digit_mode allowed (octal_text ds) (Some path) s in
  ((length ds = 3 ∨ length ds = 4)%nat ∧
     r = Ok (Fs (<[path := octal_value ds]> (modes s)) (contents s))) ∨
  ((length ds ≤ 2)%nat ∧
     r = Ok (Fs (<[path := octal_value ds * 8 ^ (4 - Z.of_nat (length ds))]> (modes s)) (contents s))) ∨
  ((5 ≤ length ds)%nat ∧ r = Undef BadShift).
Proof.
  intros Hds Hne Hp Ha r. unfold r, digit_mode. rewrite Hp.
  assert (1 ≤ length ds)%nat as Hl1 by (destruct ds; [done|simpl; lia]).
  destruct (decide (5 ≤ length ds)%nat); [rewrite digit_bits_long by done; auto|].
  rewrite digit_bits_short by (done || lia). cbn [mbind res_bind].
  unfold sys_chmod. rewrite Hp, Ha.
  pose proof (octal_value_range ds 0 Hds ltac:(lia)) as Hv. fold (octal_value ds) in Hv.
  assert (∀ m, 0 ≤ m < 4096 → Z.land m 4095 = m) as Hland.
  { intros m Hm. change 4095 with (Z.ones 12). rewrite Z.land_ones by lia. by apply Z.mod_small. }
  assert (length ds = 1 ∨ length ds = 2 ∨ length ds = 3 ∨ length ds = 4)%nat as Hcase by lia.
  destruct Hcase as [El|[El|[El|El]]]; rewrite El in *; simpl in Hv.
  - right. left. split; [lia|]. rewrite decide_False by done. rewrite Hland; [done|]. simpl. lia.
  - right. left. split; [lia|]. rewrite decide_False by done. rewrite Hland; [done|]. simpl. lia.
  - left. split; [lia|]. rewrite decide_True by done. rewrite Z.mul_1_r, Hland by lia. done.
  - left. split; [lia|]. rewrite decide_False by done.
    change (4 - Z.of_nat 4) with 0. rewrite Z.mul_1_r, Hland by lia. done.
Qed.

(** On a line [a ch b] with one of the operators + - * % the calculator
    calls the right system call and prints its result, which wraps around
    like an [int]; a division by zero traps in the kernel. *)
Theorem calculate_correct a b ch x :
  operand a → operand b → ch ∈ ["+"; "-"; "*"; "%"]%char →
  calculate (pretty a +:+ String ch (pretty b)) (Some x) =
    match meaning ch a b with
    | Some v => Ok (pretty a +:+ " " +:+ String ch EmptyString +:+ " " +:+ pretty b +:+ " =  " +:+
                    pretty v +:+ String newline EmptyString, Some v)
    | None => Undef DivByZero
    end.
Proof.
  intros Ha Hb Hch. unfold calculate.
  assert (ch = "+"%char ∨ ch = "-"%char ∨ ch = "*"%char ∨ ch = "%"%char) as Hop
    by (rewrite !elem_of_cons, elem_of_nil in Hch; tauto).
  clear Hch. assert (is_digit ch = false) as Hd by (by destruct Hop as [->|[->|[->| ->]]]).
  rewrite parse_token_ok by done.
  cbn [mbind res_bind].
  destruct Hop as [->|[->|[->| ->]]]; try reflexivity.
  change (number_of "%") with (Some 445). cbv iota beta.
  change (syscall 445 a b) with (Some (sys_print_mod a b)).
  change (meaning "%" a b) with (if decide (b = 0) then None else Some (Z.rem a b)).
  unfold sys_print_mod, operand in *.
  destruct (decide (b = 0)) as [->|Hb0]; [by rewrite decide_True by auto|].
  by rewrite decide_False by lia.
Qed.

(** A line without an operator makes [parse_token] read the character
    before its buffer. *)
Theorem no_operator_underruns s star_ptr :
  all_digits s → digits_val 0 s ≤ 2^31 - 1 - 48 → calculate s star_ptr = Undef OutOfBounds.
Proof.
  intros Hs Hb. unfold calculate, parse_token.
  assert (sign s = (false, s)) as ->.
  { unfold sign. destruct s as [|c s]; [done|]. pose proof (Hs 0%nat c eq_refl).
    destruct (decide (c = "-"%char)) as [->|]; done. }
  pose proof (first_operand_digits s "" 0 Hs ltac:(lia) Hb) as Hf.
  rewrite string_app_nil_r in Hf. rewrite Hf. done.
Qed.

(** * Witnesses *)

Lemma digit_mode_by_length_witness :
  let s := Fs {["a" := 420]} ∅ in
  digit_mode (λ _, true) (octal_text [7]) (Some "a") s = Ok (Fs {["a" := 3584]} ∅).
Proof.
  intros s.
  pose proof (digit_mode_by_length (λ _, true) [7] "a" s 420
    ltac:(by_decision) ltac:(done) eq_refl eq_refl) as [[Hl _]|[[_ H]|[Hl _]]].
  - simpl in Hl. lia.
  - exact H.
  - simpl in Hl. lia.
Defined.

Lemma calculate_correct_witness :
  calculate "-12*7" (Some 0) = Ok ("-12 * 7 =  -84" +:+ String newline EmptyString, Some (-84)).
Proof.
  apply (calculate_correct (-12) 7 "*"%char 0); [unfold operand; lia|unfold operand; lia|by_decision].
Defined.

Lemma no_operator_underruns_witness : calculate "1234" (Some 0) = Undef OutOfBounds.
Proof.
  apply (no_operator_underruns "1234" (Some 0)); [|by vm_compute].
  intros i c. do 4 (destruct i as [|i]; [intros [= <-]; done|]). done.
Defined.
