(* ===== verification/Lscpu.v ===== *)
(** The [lscpu] of assignment 2 (src/과제/OS과제/과제2/lscpu.c and
    mylscpuheader.h): the processor's description, the cache sizes summed
    over the processors, and the printed summary. *)
From S2P Require Import Prelude CString.
Local Open Scope Z_scope.

Definition MAX_LEN : nat := 1000.
Definition LEN : nat := 100.

Record CPU_INFO := Info {
  vendor_id : string;
  model_name : string;
  cpu_mhz : string;
  L1d : Z;
  L1i : Z;
  L2 : Z;
  L3 : Z;
  online : string;
  flag : string;
}.

Definition init : CPU_INFO := Info "" "" "" 0 0 0 0 "" "".

(** * The system

    No file is ever closed: after [open_max] successful calls [fopen] fails
    like the kernel's limit on descriptors makes it fail. *)

Record system := System {
  file : string → option string;
  cpu_dir : option (list string);        (** /sys/devices/system/cpu *)
  is_dir : string → option bool;         (** [stat]; [None] when it fails *)
  open_max : nat;
}.

Definition fopen (sys : system) (opened : nat) (path : string) : option string :=
  if decide (opened < open_max sys)%nat then file sys path else None.

(** * Buffers

    The characters of a buffer that have been written so far: [fgets] writes
    the line and a null byte and leaves what was behind them. *)

Definition nul : ascii := "000"%char.

Definition put_line (line : string) (buf : list ascii) : list ascii :=
  String.list_ascii_of_string line ++ nul :: drop (S (String.length line)) buf.

Fixpoint c_string (m : list ascii) : res string :=
  match m with
  | [] => Undef Uninitialised
  | c :: m => if decide (c = nul) then Ok EmptyString else s ← c_string m; Ok (String c s)
  end.

(** [strcpy(field, buf + k)] *)
Definition copy_from (buf : list ascii) (k : nat) (cap : nat) : res string :=
  s ← c_string (drop k buf); store cap s.

(** * /proc/cpuinfo *)

(** One line; the flag says whether [cnt] is incremented. *)
Definition cpu_line (buf : list ascii) (i : CPU_INFO) : res (CPU_INFO * bool) :=
  let '(Info v m z a b c d o f) := i in
  line ← c_string buf;
  if strstr line "vendor_id" then v ← copy_from buf 12 LEN; Ok (Info v m z a b c d o f, true)
  else if strstr line "model name" then m ← copy_from buf 13 LEN; Ok (Info v m z a b c d o f, true)
  else if strstr line "cpu MHz" then z ← copy_from buf 10 LEN; Ok (Info v m z a b c d o f, true)
  else if strstr line "flags" then f ← copy_from buf 9 MAX_LEN; Ok (Info v m z a b c d o f, true)
  else Ok (i, false).

(** [while(fgets(...))] with its [break]; every line has a character, so the
    text bounds the rounds. *)
Fixpoint read_cpuinfo (fuel : nat) (text : string) (buf : list ascii) (i : CPU_INFO) (cnt : Z)
    : res (CPU_INFO * list ascii) :=
  match fuel with
  | O => Undef Diverges
  | S fuel =>
      match fgets MAX_LEN text with
      | None => Ok (i, buf)
      | Some (line, text) =>
          let buf := put_line line buf in
          '(i, b) ← cpu_line buf i;
          let cnt := if b : bool then cnt + 1 else cnt in
          if decide (cnt = 4) then Ok (i, buf) else read_cpuinfo fuel text buf i cnt
      end
  end.

Definition get_online (sys : system) (opened : nat) (i : CPU_INFO) : res CPU_INFO :=
  match fopen sys opened "/sys/devices/system/cpu/online" with
  | None => Exit 1
  | Some text =>
      match fgets LEN text with
      | None => Undef Uninitialised
      | Some (line, _) =>
          o ← copy_from (put_line line []) 0 LEN;
          let '(Info v m z a b c d _ f) := i in Ok (Info v m z a b c d o f)
      end
  end.

(** * Caches *)

(** The loop that ends the string at its first other character. *)
Definition cut_number (buf : list ascii) : res (list ascii) :=
  line ← c_string buf;
  let '(ds, rest) := span is_digit line in
  Ok (if decide (rest = EmptyString) then buf else <[String.length ds := nul]> buf).

(** [c] is [path[index_location]]. *)
Definition get_cache_size (c : ascii) (buf : list ascii) (i : CPU_INFO)
    : res (list ascii * CPU_INFO) :=
  buf ← cut_number buf;
  s ← c_string buf;
  let n := atoi s in
  let '(Info v m z a b l2 l3 o f) := i in
  if decide (c = "0"%char) then a ← in_int (a + n); Ok (buf, Info v m z a b l2 l3 o f)
  else if decide (c = "1"%char) then b ← in_int (b + n); Ok (buf, Info v m z a b l2 l3 o f)
  else if decide (c = "2"%char) then l2 ← in_int (l2 + n); Ok (buf, Info v m z a b l2 l3 o f)
  else if decide (c = "3"%char) then l3 ← in_int (l3 + n); Ok (buf, Info v m z a b l2 l3 o f)
  else Ok (buf, i).

(** [path[index_location]++] *)
Definition next_char (c : ascii) : ascii := ascii_of_N ((N_of_ascii c + 1) mod 256).

Definition cache_path (path : string) (c : ascii) : string :=
  if decide (c = nul) then path +:+ "/cache/index" else path +:+ "/cache/index" +:+ String c "/size".

(** Buffer, totals and number of open files. *)
Definition caches : Type := list ascii * CPU_INFO * nat.

(** [while((fptr = fopen(path,"r")) != NULL)]: every round opens a file. *)
Fixpoint cache_loop (fuel : nat) (sys : system) (path : string) (c : ascii) (st : caches)
    : res caches :=
  match fuel with
  | O => Undef Diverges
  | S fuel =>
      let '(buf, i, opened) := st in
      match fopen sys opened (cache_path path c) with
      | None => Ok st
      | Some text =>
          let buf := match fgets MAX_LEN text with
                     | Some (line, _) => put_line line buf
                     | None => buf
                     end in
          '(buf, i) ← get_cache_size c buf i;
          cache_loop fuel sys path (next_char c) (buf, i, S opened)
      end
  end.

Definition is_cpu (d_name : string) : bool :=
  strstr d_name "cpu" && match string_get d_name 3 with Some c => is_digit c | None => false end.

Fixpoint cpu_loop (sys : system) (names : list string) (st : caches) : res caches :=
  match names with
  | [] => Ok st
  | d_name :: names =>
      if negb (is_cpu d_name) then cpu_loop sys names st
      else
        let path := "/sys/devices/system/cpu/" +:+ d_name in
        match is_dir sys path with
        | None => Exit 1
        | Some false => cpu_loop sys names st
        | Some true =>
            st ← cache_loop (S (open_max sys)) sys path "0"%char st;
            cpu_loop sys names st
        end
  end.

(** * main *)

Definition print (i : CPU_INFO) : list string :=
  let nl := String newline EmptyString in
  let tab := String "009"%char EmptyString in
  ["Vendor ID:" +:+ tab +:+ tab +:+ tab +:+ " " +:+ vendor_id i;
   "Model name:" +:+ tab +:+ tab +:+ tab +:+ " " +:+ model_name i;
   "CPU MHz:  " +:+ tab +:+ "         " +:+ tab +:+ cpu_mhz i;
   "L1d:" +:+ tab +:+ tab +:+ tab +:+ tab +:+ " " +:+ pretty (L1d i) +:+ " KiB" +:+ nl;
   "L1i:" +:+ tab +:+ tab +:+ tab +:+ tab +:+ " " +:+ pretty (L1i i) +:+ " KiB" +:+ nl;
   "L2:" +:+ tab +:+ tab +:+ tab +:+ tab +:+ " " +:+ pretty (Z.quot (L2 i) 1024) +:+ " MiB" +:+ nl;
   "L3:" +:+ tab +:+ tab +:+ tab +:+ tab +:+ " " +:+ pretty (Z.quot (L3 i) 1024) +:+ " MiB" +:+ nl;
   "On-line CPU(s) list:    " +:+ tab +:+ " " +:+ online i;
   "flags:" +:+ tab +:+ tab +:+ tab +:+ tab +:+ " " +:+ flag i].

Definition main (sys : system) : res (list string) :=
  match fopen sys 0 "/proc/cpuinfo" with
  | None => Exit 1
  | Some text =>
      match cpu_dir sys with
      | None => Exit 1
      | Some names =>
          '(i, buf) ← read_cpuinfo (S (String.length text)) text [] init 0;
          i ← get_online sys 2 i;
          '(_, i, _) ← cpu_loop sys names (buf, i, 3%nat);
          Ok (print i)
      end
  end.
