(* ===== verification/LscpuProofs.v ===== *)
(** [lscpu]: the cache sizes it prints are the sums over the processors. *)
From S2P Require Import Prelude CString Lscpu.
Local Open Scope Z_scope.

(** * Specification *)

Definition dir_of (d_name : string) : string := "/sys/devices/system/cpu/" +:+ d_name.

(** The character of index [k]. *)
Definition index_char (k : nat) : ascii := ascii_of_N (N.of_nat (48 + k)).

(** The contents of a "size" file. *)
Definition size_text (n : Z) : string := pretty n +:+ "K" +:+ String newline EmptyString.

(** [sizes d]: the sizes of the caches of processor [d], index 0 first. *)
Record processor (sys : system) (sizes : string → list Z) (d : string) : Prop := {
  cpu_is_dir : is_dir sys (dir_of d) = Some true;
  cpu_levels : (length (sizes d) ≤ 4)%nat;
  cpu_sizes : ∀ k n, sizes d !! k = Some n →
    0 ≤ n < 2^31 ∧ file sys (cache_path (dir_of d) (index_char k)) = Some (size_text n);
  cpu_last : file sys (cache_path (dir_of d) (index_char (length (sizes d)))) = None;
}.

(** The total of index [k] over the processors listed. *)
Definition total (sizes : string → list Z) (k : nat) (names : list string) : Z :=
  foldr (λ d s, (if is_cpu d then nth k (sizes d) 0 else 0) + s) 0 names.

Definition files (sizes : string → list Z) (names : list string) : nat :=
  foldr (λ d s, ((if is_cpu d then length (sizes d) else 0) + s)%nat) 0%nat names.

Definition add_level (k : nat) (n : Z) (i : CPU_INFO) : CPU_INFO :=
  let '(Info v m z a b l2 l3 o f) := i in
  match k with
  | 0%nat => Info v m z (a + n) b l2 l3 o f
  | 1%nat => Info v m z a (b + n) l2 l3 o f
  | 2%nat => Info v m z a b (l2 + n) l3 o f
  | 3%nat => Info v m z a b l2 (l3 + n) o f
  | _ => i
  end.

Definition level (k : nat) (i : CPU_INFO) : Z :=
  match k with 0%nat => L1d i | 1%nat => L1i i | 2%nat => L2 i | _ => L3 i end.

(** * Buffers *)

Fixpoint no_nul (s : string) : Prop :=
  match s with EmptyString => True | String c s => c ≠ nul ∧ no_nul s end.

Lemma no_nul_app s t : no_nul s → no_nul t → no_nul (s +:+ t).
Proof. induction s as [|c s IH]; [done|]. intros [? ?] ?. split; auto. Qed.

Lemma all_digits_tail c s : all_digits (String c s) → is_digit c = true ∧ all_digits s.
Proof. intros H. split; [apply (H 0%nat c eq_refl)|]. intros n. apply (H (S n)). Qed.

Lemma no_nul_digits s : all_digits s → no_nul s.
Proof.
  induction s as [|c s IH]; [done|]. intros [Hc ?]%all_digits_tail. split; [|auto].
  by intros ->.
Qed.

Lemma c_string_written s m : no_nul s → c_string (String.list_ascii_of_string s ++ nul :: m) = Ok s.
Proof.
  induction s as [|c s IH]; intros Hs; [done|]. destruct Hs as [Hc Hs]. simpl.
  rewrite decide_False by done. by rewrite IH.
Qed.

Lemma length_chars s : length (String.list_ascii_of_string s) = String.length s.
Proof. induction s as [|c s IH]; simpl; congruence. Qed.

Lemma chars_app s t :
  String.list_ascii_of_string (s +:+ t) =
    String.list_ascii_of_string s ++ String.list_ascii_of_string t.
Proof. induction s as [|c s IH]; [done|]. simpl. by f_equal. Qed.

Lemma scan_int_digits s : all_digits s → s ≠ EmptyString → scan_int s = Some (digits_val 0 s, "").
Proof.
  intros Hs Hne. destruct s as [|c s]; [done|]. pose proof (all_digits_tail c s Hs) as [Hc _].
  assert (is_space c = false) as Hsp.
  { unfold is_space, is_digit in *. apply bool_decide_eq_true in Hc.
    apply bool_decide_eq_false. lia. }
  unfold scan_int. assert (skip_space (String c s) = String c s) as ->
    by (unfold skip_space; simpl span; by rewrite Hsp).
  cbv beta iota zeta.
  rewrite decide_False by (by intros ->). rewrite decide_False by (by intros ->).
  pose proof (proj2 (span_all is_digit (String c s)) Hs) as ->. by rewrite decide_False.
Qed.

Lemma atoi_pretty n : 0 ≤ n < 2^31 → atoi (pretty n) = n.
Proof.
  intros Hn. destruct (pretty_nonneg_digits n) as [Hd Hne]; [lia|].
  unfold atoi, atol. rewrite scan_int_digits by done. rewrite digits_val_pretty by lia.
  unfold clamp64. rewrite Z.max_r, Z.min_r by lia. apply wrap32_small. unfold int32. lia.
Qed.

Lemma cut_number_size n buf :
  0 ≤ n → ∃ m, cut_number (put_line (size_text n) buf) =
                 Ok (String.list_ascii_of_string (pretty n) ++ nul :: m).
Proof.
  intros Hn. destruct (pretty_nonneg_digits n) as [Hd Hne]; [lia|].
  unfold cut_number, put_line.
  rewrite c_string_written by (apply no_nul_app; [by apply no_nul_digits|done]).
  cbn [mbind res_bind]. unfold size_text at 1.
  rewrite (span_app is_digit (pretty n)) by (done || by apply span_all).
  rewrite decide_False by done. eexists. f_equal. unfold size_text. rewrite chars_app.
  rewrite <- (app_assoc (String.list_ascii_of_string (pretty n))).
  rewrite <- (length_chars (pretty n)), <- (Nat.add_0_r (length _)), insert_app_r. done.
Qed.

Lemma fgets_size n : 0 ≤ n < 2^31 → fgets MAX_LEN (size_text n) = Some (size_text n, "").
Proof.
  intros Hn. unfold fgets, size_text. rewrite string_app_assoc.
  destruct (pretty_nonneg_digits n) as [Hd Hne]; [lia|].
  rewrite decide_False by (destruct (pretty n); done). f_equal. apply fgets_go_line.
  - clear -Hd. revert Hd. generalize (pretty n) as s. induction s as [|c s IH].
    + intros _ [|[|k]] c; simpl; naive_solver.
    + intros [Hc Hs]%all_digits_tail [|k] d; simpl; [|by apply IH].
      intros [= ->] ->. done.
  - rewrite string_length_app. pose proof (pretty_length 10 n ltac:(lia) ltac:(lia)).
    change (String.length "K") with 1%nat. unfold MAX_LEN. lia.
Qed.

(** * Caches *)

Lemma get_cache_size_ok k n buf i :
  (k ≤ 3)%nat → 0 ≤ n < 2^31 → int32 (level k i + n) →
  ∃ m, get_cache_size (index_char k) (put_line (size_text n) buf) i = Ok (m, add_level k n i).
Proof.
  intros Hk Hn Hi. unfold get_cache_size.
  destruct (cut_number_size n buf) as [m ->]; [lia|]. cbn [mbind res_bind].
  destruct (pretty_nonneg_digits n) as [Hd _]; [lia|].
  rewrite c_string_written by (by apply no_nul_digits). cbn [mbind res_bind].
  rewrite atoi_pretty by done. eexists.
  destruct i as [v mo z a b l2 l3 o f].
  destruct k as [|[|[|[|k]]]]; [..|lia]; simpl in Hi |- *; by rewrite in_int_ok.
Qed.

Lemma next_index k : (k ≤ 3)%nat → next_char (index_char k) = index_char (S k).
Proof. intros Hk. by destruct k as [|[|[|[|k]]]]; [..|lia]. Qed.

Fixpoint add_levels (k : nat) (l : list Z) (i : CPU_INFO) : CPU_INFO :=
  match l with [] => i | n :: l => add_levels (S k) l (add_level k n i) end.

Lemma level_add_level j k n i :
  (j ≤ 3)%nat → (k ≤ 3)%nat → level j (add_level k n i) = level j i + (if decide (j = k) then n else 0).
Proof.
  intros Hj Hk. destruct i as [v mo z a b l2 l3 o f].
  destruct j as [|[|[|[|j]]]], k as [|[|[|[|k]]]]; try lia; simpl; lia.
Qed.

(** Short lists of sizes count as 0 in the missing places. *)
Lemma add_levels_nth l i :
  (length l ≤ 4)%nat → add_levels 0 l i = add_levels 0 [nth 0 l 0; nth 1 l 0; nth 2 l 0; nth 3 l 0] i.
Proof.
  intros Hl. destruct i as [v mo z a b l2 l3 o f].
  destruct l as [|n0 [|n1 [|n2 [|n3 [|n4 l]]]]]; simpl in Hl |- *; try lia;
    rewrite ?Z.add_0_r; done.
Qed.

Lemma add_levels_twice a b c d a' b' c' d' i :
  add_levels 0 [a'; b'; c'; d'] (add_levels 0 [a; b; c; d] i) =
    add_levels 0 [a + a'; b + b'; c + c'; d + d'] i.
Proof. destruct i as [v mo z a1 b1 l2 l3 o f]. simpl. by rewrite !Z.add_assoc. Qed.

Lemma level_add_levels k a b c d i :
  (k ≤ 3)%nat → level k (add_levels 0 [a; b; c; d] i) = level k i + nth k [a; b; c; d] 0.
Proof. intros Hk. destruct i. by destruct k as [|[|[|[|k]]]]; [..|lia]. Qed.

Section machine.
Context (sys : system) (sizes : string → list Z).

Lemma cache_loop_ok d k fuel buf i opened :
  processor sys sizes d → (k ≤ length (sizes d))%nat →
  let l := drop k (sizes d) in
  (length l < fuel)%nat → (opened + length l ≤ open_max sys)%nat →
  (∀ j n, sizes d !! j = Some n → (k ≤ j)%nat → int32 (level j i + n)) →
  ∃ buf', cache_loop fuel sys (dir_of d) (index_char k) (buf, i, opened) =
    Ok (buf', add_levels k l i, (opened + length l)%nat).
Proof.
  intros Hp. induction fuel as [|fuel IH] in k, buf, i, opened |- *; intros Hk l Hf Ho Hi; [lia|].
  unfold l in *. clear l. pose proof (cpu_levels _ _ _ Hp) as Hmax.
  cbn [cache_loop]. destruct (sizes d !! k) as [n|] eqn:Hn.
  - pose proof (lookup_lt_Some _ _ _ Hn) as Hlt.
    rewrite (drop_S _ n k Hn) in *. cbn [length add_levels] in *.
    destruct (cpu_sizes _ _ _ Hp k n Hn) as [Hr Hfile].
    unfold fopen. rewrite decide_True by lia. rewrite Hfile.
    assert (fgets MAX_LEN (size_text n) = Some (size_text n, "")) as ->.
    { apply fgets_size. done. }
    destruct (get_cache_size_ok k n buf i) as [m ->]; [lia|done|by apply Hi; [|lia]|].
    cbn [mbind res_bind]. rewrite next_index by lia.
    destruct (IH (S k) m (add_level k n i) (S opened)) as [buf' ->]; [lia|lia|lia| |].
    + intros j n' Hj Hle. pose proof (lookup_lt_Some _ _ _ Hj).
      rewrite level_add_level by lia. rewrite decide_False by lia. rewrite Z.add_0_r.
      apply Hi; [done|lia].
    + exists buf'. do 2 f_equal. lia.
  - apply lookup_ge_None in Hn. rewrite drop_ge by lia. simpl.
    assert (k = length (sizes d)) as -> by lia.
    exists buf. rewrite Nat.add_0_r. unfold fopen. rewrite (cpu_last _ _ _ Hp).
    by case_decide.
Qed.

Definition totals (names : list string) : list Z :=
  [total sizes 0 names; total sizes 1 names; total sizes 2 names; total sizes 3 names].

Lemma total_other k d names : is_cpu d = false → total sizes k (d :: names) = total sizes k names.
Proof. intros Hd. unfold total. simpl. by rewrite Hd. Qed.

Lemma total_cpu k d names :
  is_cpu d = true → total sizes k (d :: names) = nth k (sizes d) 0 + total sizes k names.
Proof. intros Hd. unfold total. simpl. by rewrite Hd. Qed.

Lemma nth_size_nonneg k d : processor sys sizes d → 0 ≤ nth k (sizes d) 0.
Proof.
  intros Hp. destruct (sizes d !! k) as [n|] eqn:Hn.
  - rewrite (nth_lookup_Some _ _ _ _ Hn). destruct (cpu_sizes _ _ _ Hp k n Hn). lia.
  - rewrite nth_overflow; [done|]. by apply lookup_ge_None.
Qed.

Lemma total_nonneg k names :
  (∀ d, d ∈ names → is_cpu d = true → processor sys sizes d) → 0 ≤ total sizes k names.
Proof.
  induction names as [|d names IH]; intros Hp; [done|].
  assert (0 ≤ total sizes k names) by (apply IH; set_solver).
  destruct (is_cpu d) eqn:Hd; [rewrite total_cpu by done|by rewrite total_other].
  pose proof (nth_size_nonneg k d). specialize (Hp d ltac:(set_solver) Hd). naive_solver lia.
Qed.

Lemma cpu_loop_ok names buf i opened :
  (∀ d, d ∈ names → is_cpu d = true → processor sys sizes d) →
  (∀ k, (k ≤ 3)%nat → 0 ≤ level k i ∧ level k i + total sizes k names < 2^31) →
  (opened + files sizes names ≤ open_max sys)%nat →
  ∃ buf', cpu_loop sys names (buf, i, opened) =
    Ok (buf', add_levels 0 (totals names) i, (opened + files sizes names)%nat).
Proof.
  induction names as [|d names IH] in buf, i, opened |- *; intros Hp Hr Ho.
  { exists buf. destruct i as [v mo z a b l2 l3 o f]. simpl.
    by rewrite !Z.add_0_r, Nat.add_0_r. }
  assert (∀ d, d ∈ names → is_cpu d = true → processor sys sizes d) as Hp' by set_solver.
  cbn [cpu_loop]. unfold files in *. cbn [foldr] in *. fold (files sizes names) in *.
  destruct (is_cpu d) eqn:Hd; cbn [negb].
  2: { unfold totals. rewrite !total_other by done. apply IH; [done| |lia].
       intros k Hk. rewrite <- (total_other k d names) by done. by apply Hr. }
  pose proof (Hp d ltac:(set_solver) Hd) as Hpd.
  pose proof (cpu_is_dir _ _ _ Hpd) as Hdir. unfold dir_of in Hdir. rewrite Hdir.
  assert (∀ k, (k ≤ 3)%nat → 0 ≤ level k i ∧ 0 ≤ nth k (sizes d) 0 ∧ 0 ≤ total sizes k names ∧
    level k i + nth k (sizes d) 0 + total sizes k names < 2^31) as Hk.
  { intros k Hk. pose proof (Hr k Hk) as [? Hb]. rewrite total_cpu in Hb by done.
    pose proof (nth_size_nonneg k d Hpd). pose proof (total_nonneg k names Hp'). lia. }
  pose proof (cpu_levels _ _ _ Hpd) as Hl.
  destruct (cache_loop_ok d 0 (S (open_max sys)) buf i opened Hpd) as [m Hm];
    rewrite ?drop_0 in *; [lia|lia|lia| |].
  { intros j n Hj _. pose proof (lookup_lt_Some _ _ _ Hj).
    destruct (Hk j) as (? & Hn & ? & ?); [lia|].
    rewrite (nth_lookup_Some _ _ _ _ Hj) in *. unfold int32. lia. }
  change "0"%char with (index_char 0). unfold dir_of in Hm. rewrite Hm. cbn [mbind res_bind].
  rewrite add_levels_nth by done.
  edestruct (IH m) as [buf' ->]; [done| |lia|].
  { intros k Hk3. rewrite level_add_levels by done. destruct (Hk k Hk3) as (? & ? & ? & ?).
    replace (nth k [_; _; _; _] 0) with (nth k (sizes d) 0)
      by (by destruct k as [|[|[|[|k]]]]; [..|lia]). lia. }
  exists buf'. unfold totals. rewrite add_levels_twice, !total_cpu by done. do 2 f_equal. lia.
Qed.
End machine.

(** * Properties *)

(** On a machine whose processors each have up to four cache levels,
    [lscpu] sums the sizes of each level over all processors (a cache shared
    by several processors is counted once for each), provided the sums fit
    an [int] and the files, which are never closed, fit the limit on open
    files; the other fields are left alone. *)
Theorem caches_summed sys sizes names buf i opened :
  (∀ d, d ∈ names → is_cpu d = true → processor sys sizes d) →
  (∀ k, (k ≤ 3)%nat → 0 ≤ level k i ∧ level k i + total sizes k names < 2^31) →
  (opened + files sizes names ≤ open_max sys)%nat →
  ∃ buf', cpu_loop sys names (buf, i, opened) =
    Ok (buf',
        Info (vendor_id i) (model_name i) (cpu_mhz i)
             (L1d i + total sizes 0 names) (L1i i + total sizes 1 names)
             (L2 i + total sizes 2 names) (L3 i + total sizes 3 names) (online i) (flag i),
        (opened + files sizes names)%nat).
Proof.
  intros Hp Hr Ho. destruct (cpu_loop_ok sys sizes names buf i opened Hp Hr Ho) as [buf' ->].
  exists buf'. by destruct i.
Qed.

(** * Witness: two processors with two levels each *)

Definition two_sizes (d : string) : list Z := if decide (d = "cpu0") then [32; 64] else [48; 64].

Definition two_cpus : system := System
  (λ p, if decide (p = "/sys/devices/system/cpu/cpu0/cache/index0/size") then Some (size_text 32)
        else if decide (p = "/sys/devices/system/cpu/cpu0/cache/index1/size") then Some (size_text 64)
        else if decide (p = "/sys/devices/system/cpu/cpu1/cache/index0/size") then Some (size_text 48)
        else if decide (p = "/sys/devices/system/cpu/cpu1/cache/index1/size") then Some (size_text 64)
        else None)
  (Some ["cpu0"; "cpufreq"; "cpu1"]) (λ _, Some true) 1024.

Lemma caches_summed_witness :
  ∃ buf, cpu_loop two_cpus ["cpu0"; "cpufreq"; "cpu1"] ([], init, 3%nat) =
    Ok (buf, Info "" "" "" 80 128 0 0 "" "", 7%nat).
Proof.
  apply (caches_summed two_cpus two_sizes ["cpu0"; "cpufreq"; "cpu1"] [] init 3).
  - intros d Hd Hc. rewrite !elem_of_cons, elem_of_nil in Hd.
    destruct Hd as [->|[->|[->|[]]]]; [|done|]; (split; [done|simpl; lia| |done]);
      intros [|[|k]] n [= <-]; (split; [lia|done]).
  - intros k Hk. destruct k as [|[|[|[|k]]]]; [..|lia]; by vm_compute.
  - simpl. lia.
Defined.
