(* ===== verification/Sched.v ===== *)
(** The scheduling policies of the kernel of assignment 4
    (src/과제/OS과제/과제4/core.c and sched.h): nice values, the system calls
    that set and read a policy, and what a fork gives to the child. The
    configuration has CONFIG_SMP and CONFIG_RT_MUTEXES and neither
    CONFIG_UCLAMP_TASK nor CONFIG_RT_GROUP_SCHED. *)
From S2P Require Import Prelude.
Local Open Scope Z_scope.

(** * The binary interface of the calls (sched(7), sched_setattr(2)) *)

Definition SCHED_NORMAL : Z := 0.
Definition SCHED_FIFO : Z := 1.
Definition SCHED_RR : Z := 2.
Definition SCHED_BATCH : Z := 3.
Definition SCHED_IDLE : Z := 5.
Definition SCHED_DEADLINE : Z := 6.
Definition SCHED_RESET_ON_FORK : Z := 0x40000000.
Definition SETPARAM_POLICY : Z := -1.

Definition SCHED_FLAG_RESET_ON_FORK : Z := 0x01.
Definition SCHED_FLAG_KEEP_POLICY : Z := 0x08.
Definition SCHED_FLAG_KEEP_PARAMS : Z := 0x10.
Definition SCHED_FLAG_UTIL_CLAMP : Z := 0x60.
Definition SCHED_FLAG_ALL : Z := 0x7f.

Definition EPERM : Z := 1.
Definition ESRCH : Z := 3.
Definition E2BIG : Z := 7.
Definition EAGAIN : Z := 11.
Definition EFAULT : Z := 14.
Definition EBUSY : Z := 16.
Definition EINVAL : Z := 22.
Definition EOPNOTSUPP : Z := 95.

Definition MIN_NICE : Z := -20.
Definition MAX_NICE : Z := 19.
Definition NICE_WIDTH : Z := 40.

Definition has (flags mask : Z) : bool := negb (bool_decide (Z.land flags mask = 0)).

(** * Tasks *)

Inductive sched_class : Set := dl_sched_class | rt_sched_class | fair_sched_class.

#[global] Instance sched_class_eq_dec : EqDecision sched_class.
Proof. solve_decision. Defined.

Record dl_params := Dl { dl_runtime : Z; dl_deadline : Z; dl_period : Z }.
Record load_weight := Load { weight : Z; inv_weight : Z }.

Record task := Task {
  policy : Z;
  static_prio : Z;
  normal_prio : Z;
  prio : Z;
  rt_priority : Z;
  class : sched_class;
  load : load_weight;
  dl : dl_params;
  sched_reset_on_fork : bool;
  cpu_burst : Z;
  mm : bool;                  (** has it an address space? *)
  uid : Z;
  euid : Z;
  is_stop : bool;             (** [p == rq->stop] *)
  queued : bool;              (** [task_on_rq_queued(p)] *)
  running : bool;             (** [task_current(rq,p)] *)
  pi_top : option Z;          (** the priority of [rt_mutex_get_top_task(p)] *)
  rlim_nice : Z;
  rlim_rtprio : Z;
}.

(** The fields the scheduler sets, in one update each. *)
Definition with_params (pol sp np rp : Z) (l : load_weight) (d : dl_params) (p : task) : task :=
  Task pol sp np (prio p) rp (class p) l d (sched_reset_on_fork p) (cpu_burst p) (mm p) (uid p)
       (euid p) (is_stop p) (queued p) (running p) (pi_top p) (rlim_nice p) (rlim_rtprio p).
Definition with_prio (pr : Z) (c : sched_class) (p : task) : task :=
  Task (policy p) (static_prio p) (normal_prio p) pr (rt_priority p) c (load p) (dl p)
       (sched_reset_on_fork p) (cpu_burst p) (mm p) (uid p) (euid p) (is_stop p) (queued p)
       (running p) (pi_top p) (rlim_nice p) (rlim_rtprio p).
Definition with_reset (b : bool) (p : task) : task :=
  Task (policy p) (static_prio p) (normal_prio p) (prio p) (rt_priority p) (class p) (load p)
       (dl p) b (cpu_burst p) (mm p) (uid p) (euid p) (is_stop p) (queued p) (running p)
       (pi_top p) (rlim_nice p) (rlim_rtprio p).
Definition with_static (sp : Z) (p : task) : task :=
  with_params (policy p) sp (normal_prio p) (rt_priority p) (load p) (dl p) p.
Definition with_load (l : load_weight) (p : task) : task :=
  with_params (policy p) (static_prio p) (normal_prio p) (rt_priority p) l (dl p) p.
Definition with_normal (np : Z) (p : task) : task :=
  with_params (policy p) (static_prio p) np (rt_priority p) (load p) (dl p) p.
(** A new task: not on a run queue, and no processor time used. *)
Definition new_task (p : task) : task :=
  Task (policy p) (static_prio p) (normal_prio p) (prio p) (rt_priority p) (class p) (load p)
       (dl p) (sched_reset_on_fork p) 0 (mm p) (uid p) (euid p) (is_stop p) false false
       (pi_top p) (rlim_nice p) (rlim_rtprio p).

Record sched_attr := Attr {
  sched_policy : Z;
  sched_flags : Z;
  sched_nice : Z;
  sched_priority : Z;
  sched_dl : dl_params;
}.

(** What is done to the run queue, in order. *)
Inductive rq_op : Set :=
  | dequeue_task (move : bool)
  | put_prev_task
  | enqueue_task (move head : bool)
  | set_next_task
  | switched_from (c : sched_class)
  | switched_to (c : sched_class)
  | prio_changed (old : Z).

(** * The headers of the kernel that are not part of the assignment

    include/linux/sched/{prio,rt,deadline}.h and kernel/sched/sched.h. *)

Class sched_headers := {
  MAX_RT_PRIO : Z;
  MAX_USER_RT_PRIO : Z;
  MAX_DL_PRIO : Z;
  SCHED_FLAG_SUGOV : Z;
  NICE_TO_PRIO : Z → Z;
  PRIO_TO_NICE : Z → Z;
  nice_to_rlimit : Z → Z;
  rt_prio : Z → bool;
  dl_prio : Z → bool;
  fair_policy : Z → bool;
  rt_policy : Z → bool;
  dl_policy : Z → bool;
  idle_policy : Z → bool;
  valid_policy : Z → bool;
  scale_load : Z → Z;
  WEIGHT_IDLEPRIO : Z;
  WMULT_IDLEPRIO : Z;
}.

(** What their documentation promises. *)
Class sched_headers_ok `{sched_headers} : Prop := {
  rt_policies : ∀ x, rt_policy x = true ↔ x = SCHED_FIFO ∨ x = SCHED_RR;
  fair_policies : ∀ x, fair_policy x = true ↔ x = SCHED_NORMAL ∨ x = SCHED_BATCH;
  dl_policies : ∀ x, dl_policy x = true ↔ x = SCHED_DEADLINE;
  idle_policies : ∀ x, idle_policy x = true ↔ x = SCHED_IDLE;
  valid_policies : ∀ x, valid_policy x = fair_policy x || rt_policy x || dl_policy x || idle_policy x;
  rt_prios : ∀ x, rt_prio x = true ↔ x < MAX_RT_PRIO;
  dl_prios : ∀ x, dl_prio x = true ↔ x < MAX_DL_PRIO;
  max_prios : MAX_DL_PRIO = 0 ∧ MAX_USER_RT_PRIO = 100 ∧ MAX_RT_PRIO = 100;
  nice_prio : ∀ n, PRIO_TO_NICE (NICE_TO_PRIO n) = n;
  nice_prio_range : ∀ n, MIN_NICE ≤ n ≤ MAX_NICE → MAX_RT_PRIO ≤ NICE_TO_PRIO n < MAX_RT_PRIO + NICE_WIDTH;
  prio_nice_range : ∀ x, MAX_RT_PRIO ≤ x < MAX_RT_PRIO + NICE_WIDTH → MIN_NICE ≤ PRIO_TO_NICE x ≤ MAX_NICE;
  nice_rlimits : ∀ n, nice_to_rlimit n = MAX_NICE - n + 1;
}.

(** * Weights *)

Definition sched_prio_to_weight : list Z := [
  88761; 71755; 56483; 46273; 36291;
  29154; 23254; 18705; 14949; 11916;
  9548; 7620; 6100; 4904; 3906;
  3121; 2501; 1991; 1586; 1277;
  1024; 820; 655; 526; 423;
  335; 272; 215; 172; 137;
  110; 87; 70; 56; 45;
  36; 29; 23; 18; 15].

Definition sched_prio_to_wmult : list Z := [
  48388; 59856; 76040; 92818; 118348;
  147320; 184698; 229616; 287308; 360437;
  449829; 563644; 704093; 875809; 1099582;
  1376151; 1717300; 2157191; 2708050; 3363326;
  4194304; 5237765; 6557202; 8165337; 10153587;
  12820798; 15790321; 19976592; 24970740; 31350126;
  39045157; 49367440; 61356676; 76695844; 95443717;
  119304647; 148102320; 186737708; 238609294; 286331153].

(** * The other parts of the kernel: deadline.c, fair.c, the security module,
    the credentials of the current task *)

Class kernel := {
  cap_sys_nice : bool;                                  (** [capable(CAP_SYS_NICE)] *)
  cred_euid : Z;
  security_task_setscheduler : task → Z;
  security_task_getscheduler : task → Z;
  security_task_setnice : task → Z → Z;
  reweight_task : task → Z → load_weight;
  checkparam_dl : sched_attr → bool;
  dl_param_changed : task → sched_attr → bool;
  sched_dl_overflow : task → Z → sched_attr → bool;
  setparam_dl : dl_params → sched_attr → dl_params;
  getparam_dl : task → sched_attr → sched_attr;
  dl_bandwidth_ok : task → bool;                        (** affinity and bandwidth of the root domain *)
}.

Section sched.
Context `{sched_headers} `{kernel}.

Definition task_nice (p : task) : Z := PRIO_TO_NICE (static_prio p).
Definition task_has_dl_policy (p : task) : bool := dl_policy (policy p).
Definition task_has_rt_policy (p : task) : bool := rt_policy (policy p).
Definition task_has_idle_policy (p : task) : bool := idle_policy (policy p).
Definition dl_task (p : task) : bool := dl_prio (prio p).

(** ** Priorities and weights *)

Definition __normal_prio (p : task) : Z := static_prio p.

Definition normal_prio_of (p : task) : Z :=
  if task_has_dl_policy p then MAX_DL_PRIO - 1
  else if task_has_rt_policy p then MAX_RT_PRIO - 1 - rt_priority p
  else __normal_prio p.

(** It stores [normal_prio] and returns the new [prio]. *)
Definition effective_prio (p : task) : Z * task :=
  let p := with_normal (normal_prio_of p) p in
  if negb (rt_prio (prio p)) then (normal_prio p, p) else (prio p, p).

Definition __rt_effective_prio (pi_task : option Z) (prio : Z) : Z :=
  match pi_task with Some q => Z.min prio q | None => prio end.
Definition rt_effective_prio (p : task) (prio : Z) : Z := __rt_effective_prio (pi_top p) prio.

Definition set_load_weight (update_load : bool) (p : task) : res task :=
  let i := static_prio p - MAX_RT_PRIO in
  if task_has_idle_policy p
  then Ok (with_load (Load (scale_load WEIGHT_IDLEPRIO) WMULT_IDLEPRIO) p)
  else if update_load && bool_decide (class p = fair_sched_class)
  then Ok (with_load (reweight_task p i) p)
  else
    w ← rd sched_prio_to_weight i;
    m ← rd sched_prio_to_wmult i;
    Ok (with_load (Load (scale_load w) m) p).

(** ** Nice values *)

Definition set_user_nice (p : task) (nice : Z) : res (task * list rq_op) :=
  if decide (task_nice p = nice ∨ nice < MIN_NICE ∨ MAX_NICE < nice) then Ok (p, [])
  else if task_has_dl_policy p || task_has_rt_policy p
  then Ok (with_static (NICE_TO_PRIO nice) p, [])
  else
    let old_prio := prio p in
    q ← set_load_weight true (with_static (NICE_TO_PRIO nice) p);
    let '(pr, q) := effective_prio q in
    let q := with_prio pr (class q) q in
    Ok (q, (if queued p then [dequeue_task false] else []) ++
           (if running p then [put_prev_task] else []) ++
           (if queued p then [enqueue_task false false] else []) ++
           (if running p then [set_next_task] else []) ++ [prio_changed old_prio]).

Definition can_nice (p : task) (nice : Z) : bool :=
  bool_decide (nice_to_rlimit nice ≤ rlim_nice p) || cap_sys_nice.

Definition clamp (x lo hi : Z) : Z := Z.max lo (Z.min x hi).

(** The call [nice(increment)] of the task [current]: the value returned. *)
Definition sys_nice (current : task) (increment : Z) : res (Z * task * list rq_op) :=
  let increment := clamp increment (- NICE_WIDTH) NICE_WIDTH in
  let nice := clamp (task_nice current + increment) MIN_NICE MAX_NICE in
  if bool_decide (increment < 0) && negb (can_nice current nice) then Ok (- EPERM, current, [])
  else
    let retval := security_task_setnice current nice in
    if decide (retval ≠ 0) then Ok (retval, current, [])
    else '(p, ops) ← set_user_nice current nice; Ok (0, p, ops).

Definition task_prio (p : task) : Z := prio p - MAX_RT_PRIO.

(** ** Setting a policy *)

Definition __setscheduler_params (p : task) (attr : sched_attr) : res task :=
  let pol := if decide (sched_policy attr = SETPARAM_POLICY) then policy p else sched_policy attr in
  let d := if dl_policy pol then setparam_dl (dl p) attr else dl p in
  let sp := if negb (dl_policy pol) && fair_policy pol then NICE_TO_PRIO (sched_nice attr)
            else static_prio p in
  let p := with_params pol sp (normal_prio p) (sched_priority attr) (load p) d p in
  set_load_weight true (with_normal (normal_prio_of p) p).

Definition class_of (prio : Z) : sched_class :=
  if dl_prio prio then dl_sched_class
  else if rt_prio prio then rt_sched_class
  else fair_sched_class.

Definition __setscheduler (p : task) (attr : sched_attr) (keep_boost : bool) : res task :=
  if has (sched_flags attr) SCHED_FLAG_KEEP_PARAMS then Ok p
  else
    p ← __setscheduler_params p attr;
    let pr := normal_prio_of p in
    let pr := if keep_boost then rt_effective_prio p pr else pr in
    Ok (with_prio pr (class_of pr) p).

Definition check_same_owner (p : task) : bool :=
  bool_decide (cred_euid = euid p) || bool_decide (cred_euid = uid p).

Definition check_class_changed (p : task) (prev_class : sched_class) (oldprio : Z) : list rq_op :=
  if decide (prev_class ≠ class p) then [switched_from prev_class; switched_to (class p)]
  else if bool_decide (oldprio ≠ prio p) || dl_task p then [prio_changed oldprio]
  else [].

(** Without CONFIG_UCLAMP_TASK. *)
Definition uclamp_validate (p : task) (attr : sched_attr) : Z := - EOPNOTSUPP.

(** The checks before the run queue is locked, for the policy [pol]: the
    error the call returns, if there is one. *)
Definition refusal (p : task) (attr : sched_attr) (user : bool) (pol : Z) (reset : bool) : option Z :=
  if has (sched_flags attr) (Z.lnot (Z.lor SCHED_FLAG_ALL SCHED_FLAG_SUGOV)) then Some (- EINVAL)
  else if decide (sched_priority attr > (if mm p then MAX_USER_RT_PRIO - 1 else MAX_RT_PRIO - 1))
  then Some (- EINVAL)
  else if (dl_policy pol && negb (checkparam_dl attr)) ||
          negb (Bool.eqb (rt_policy pol) (negb (bool_decide (sched_priority attr = 0))))
  then Some (- EINVAL)
  else if user && negb cap_sys_nice &&
    ((fair_policy pol && bool_decide (sched_nice attr < task_nice p) && negb (can_nice p (sched_nice attr))) ||
     (rt_policy pol && negb (bool_decide (pol = policy p)) && bool_decide (rlim_rtprio p = 0)) ||
     (rt_policy pol && bool_decide (rt_priority p < sched_priority attr) &&
        bool_decide (rlim_rtprio p < sched_priority attr)) ||
     dl_policy pol ||
     (task_has_idle_policy p && negb (idle_policy pol) && negb (can_nice p (task_nice p))) ||
     negb (check_same_owner p) ||
     (sched_reset_on_fork p && negb reset))
  then Some (- EPERM)
  else if user && has (sched_flags attr) SCHED_FLAG_SUGOV then Some (- EINVAL)
  else if user && bool_decide (security_task_setscheduler p ≠ 0)
  then Some (security_task_setscheduler p)
  else if has (sched_flags attr) SCHED_FLAG_UTIL_CLAMP && bool_decide (uclamp_validate p attr ≠ 0)
  then Some (uclamp_validate p attr)
  else None.

(** An error, or [policy], [oldpolicy] and [reset_on_fork]. *)
Definition precheck (p : task) (attr : sched_attr) (user : bool) (pol : Z) : Z + Z * Z * bool :=
  let '(valid, pol, oldpolicy, reset) :=
    if decide (pol < 0) then (true, policy p, policy p, sched_reset_on_fork p)
    else (valid_policy pol, pol, -1, has (sched_flags attr) SCHED_FLAG_RESET_ON_FORK) in
  if negb valid then inl (- EINVAL)
  else
    match refusal p attr user pol reset with
    | Some err => inl err
    | None => inr (pol, oldpolicy, reset)
    end.

(** [policy == p->policy] and nothing else changes either. *)
Definition nothing_changes (p : task) (attr : sched_attr) (pol : Z) : bool :=
  bool_decide (pol = policy p) &&
  negb (fair_policy pol && bool_decide (sched_nice attr ≠ task_nice p)) &&
  negb (rt_policy pol && bool_decide (sched_priority attr ≠ rt_priority p)) &&
  negb (dl_policy pol && dl_param_changed p attr) &&
  negb (has (sched_flags attr) SCHED_FLAG_UTIL_CLAMP).

(** The rest, with the run queue locked; [None]: "goto recheck". *)
Definition locked (p : task) (attr : sched_attr) (user pi : bool) (pol oldpolicy : Z) (reset : bool)
    : res (option (Z * task * list rq_op)) :=
  if is_stop p then Ok (Some (- EINVAL, p, []))
  else if nothing_changes p attr pol then Ok (Some (0, with_reset reset p, []))
  else if user && dl_policy pol && negb (has (sched_flags attr) SCHED_FLAG_SUGOV) &&
          negb (dl_bandwidth_ok p)
  then Ok (Some (- EPERM, p, []))
  else if decide (oldpolicy ≠ -1 ∧ oldpolicy ≠ policy p) then Ok None
  else if (dl_policy pol || dl_task p) && sched_dl_overflow p pol attr
  then Ok (Some (- EBUSY, p, []))
  else
    let newprio := if dl_policy (sched_policy attr) then MAX_DL_PRIO - 1
                   else MAX_RT_PRIO - 1 - sched_priority attr in
    let p := with_reset reset p in
    let oldprio := prio p in
    let move := negb (pi && bool_decide (rt_effective_prio p newprio = oldprio)) in
    q ← __setscheduler p attr pi;
    Ok (Some (0, q,
      (if queued p then [dequeue_task move] else []) ++
      (if running p then [put_prev_task] else []) ++
      (if queued p then [enqueue_task move (bool_decide (oldprio < prio q))] else []) ++
      (if running p then [set_next_task] else []) ++
      check_class_changed q (class p) oldprio)).

(** [others]: what other processors do to the task between the checks and
    the locking of the run queue, one entry for each time round. *)
Fixpoint recheck (others : list (task → task)) (p : task) (attr : sched_attr) (user pi : bool)
    (pol : Z) : res (Z * task * list rq_op) :=
  match precheck p attr user pol with
  | inl err => Ok (err, p, [])
  | inr (pol, oldpolicy, reset) =>
      match others with
      | [] =>
          o ← locked p attr user pi pol oldpolicy reset;
          match o with Some r => Ok r | None => Undef Diverges end
      | f :: others =>
          o ← locked (f p) attr user pi pol oldpolicy reset;
          match o with Some r => Ok r | None => recheck others (f p) attr user pi (-1) end
      end
  end.

Definition __sched_setscheduler (others : list (task → task)) (p : task) (attr : sched_attr)
    (user pi : bool) : res (Z * task * list rq_op) :=
  recheck others p attr user pi (sched_policy attr).

(** The attributes of [task] with [sched_policy] forced to SCHED_FIFO, and
    the policy of the caller only together with SCHED_RESET_ON_FORK. *)
Definition legacy_attr (p : task) (pol priority : Z) : sched_attr :=
  if bool_decide (pol ≠ SETPARAM_POLICY) && has pol SCHED_RESET_ON_FORK
  then Attr (Z.land pol (Z.lnot SCHED_RESET_ON_FORK)) SCHED_FLAG_RESET_ON_FORK
            (PRIO_TO_NICE (static_prio p)) (wrapu32 priority) (Dl 0 0 0)
  else Attr SCHED_FIFO 0 (PRIO_TO_NICE (static_prio p)) (wrapu32 priority) (Dl 0 0 0).

Definition _sched_setscheduler (others : list (task → task)) (p : task) (pol priority : Z)
    (check : bool) : res (Z * task * list rq_op) :=
  __sched_setscheduler others p (legacy_attr p pol priority) check true.

Definition sched_setscheduler others p pol priority := _sched_setscheduler others p pol priority true.
Definition sched_setscheduler_nocheck others p pol priority :=
  _sched_setscheduler others p pol priority false.
Definition sched_setattr others p attr := __sched_setscheduler others p attr true true.
Definition sched_setattr_nocheck others p attr := __sched_setscheduler others p attr false true.

Definition sched_set_fifo others p := sched_setscheduler_nocheck others p SCHED_FIFO (MAX_RT_PRIO / 2).
Definition sched_set_fifo_low others p := sched_setscheduler_nocheck others p SCHED_FIFO 1.
Definition sched_set_normal others p nice :=
  sched_setattr_nocheck others p (Attr SCHED_NORMAL 0 nice 0 (Dl 0 0 0)).

(** ** The system calls *)

Record procs := Procs { tasks : gmap Z task; current : Z }.

Definition find_process_by_pid (s : procs) (pid : Z) : option task :=
  tasks s !! (if decide (pid = 0) then current s else pid).

Definition set_task (s : procs) (pid : Z) (p : task) : procs :=
  Procs (<[(if decide (pid = 0) then current s else pid) := p]> (tasks s)) (current s).

(** A pointer of the caller: null, one that faults, or a value. *)
Inductive user (A : Type) : Type := Null | Fault | At (a : A).
Arguments Null {A}.
Arguments Fault {A}.
Arguments At {A} a.

Definition do_sched_setscheduler others (s : procs) (pid pol : Z) (param : user Z) : res (Z * procs) :=
  match param with
  | Null => Ok (- EINVAL, s)
  | _ =>
      if decide (pid < 0) then Ok (- EINVAL, s) else
      match param with
      | Fault | Null => Ok (- EFAULT, s)
      | At priority =>
          match find_process_by_pid s pid with
          | None => Ok (- ESRCH, s)
          | Some p =>
              '(retval, p, _) ← sched_setscheduler others p pol priority;
              Ok (retval, set_task s pid p)
          end
      end
  end.

Definition sys_sched_setscheduler others (s : procs) (pid pol : Z) (param : user Z) : res (Z * procs) :=
  if decide (pol < 0) then Ok (- EINVAL, s) else do_sched_setscheduler others s pid pol param.

Definition sys_sched_setparam others (s : procs) (pid : Z) (param : user Z) : res (Z * procs) :=
  do_sched_setscheduler others s pid SETPARAM_POLICY param.

Definition SCHED_ATTR_SIZE_VER0 : Z := 48.
Definition SCHED_ATTR_SIZE_VER1 : Z := 56.
Definition PAGE_SIZE : Z := 4096.

(** The caller's structure: its [size] field and what
    [copy_struct_from_user] makes of it, an error or the attributes. *)
Record user_attr := UAttr { u_size : Z; u_copy : Z + sched_attr }.

Definition sched_copy_attr (uattr : user_attr) : Z + sched_attr :=
  let size := if decide (u_size uattr = 0) then SCHED_ATTR_SIZE_VER0 else u_size uattr in
  if decide (size < SCHED_ATTR_SIZE_VER0 ∨ PAGE_SIZE < size) then inl (- E2BIG)
  else
    match u_copy uattr with
    | inl ret => inl ret
    | inr a =>
        if has (sched_flags a) SCHED_FLAG_UTIL_CLAMP && bool_decide (size < SCHED_ATTR_SIZE_VER1)
        then inl (- EINVAL)
        else inr (Attr (sched_policy a) (sched_flags a) (clamp (sched_nice a) MIN_NICE MAX_NICE)
                       (sched_priority a) (sched_dl a))
    end.

Definition sys_sched_setattr others (s : procs) (pid : Z) (uattr : user user_attr) (flags : Z)
    : res (Z * procs) :=
  match uattr with
  | Null => Ok (- EINVAL, s)
  | _ =>
      if decide (pid < 0 ∨ flags ≠ 0) then Ok (- EINVAL, s) else
      match uattr with
      | Fault | Null => Ok (- EFAULT, s)
      | At uattr =>
          match sched_copy_attr uattr with
          | inl retval => Ok (retval, s)
          | inr attr =>
              if decide (sched_policy attr < 0) then Ok (- EINVAL, s) else
              let attr := if has (sched_flags attr) SCHED_FLAG_KEEP_POLICY
                          then Attr SETPARAM_POLICY (sched_flags attr) (sched_nice attr)
                                    (sched_priority attr) (sched_dl attr)
                          else attr in
              match find_process_by_pid s pid with
              | None => Ok (- ESRCH, s)
              | Some p =>
                  '(retval, p, _) ← sched_setattr others p attr;
                  Ok (retval, set_task s pid p)
              end
          end
      end
  end.

Definition sys_sched_getscheduler (s : procs) (pid : Z) : Z :=
  if decide (pid < 0) then - EINVAL else
  match find_process_by_pid s pid with
  | None => - ESRCH
  | Some p =>
      let retval := security_task_getscheduler p in
      if decide (retval = 0)
      then Z.lor (policy p) (if sched_reset_on_fork p then SCHED_RESET_ON_FORK else 0)
      else retval
  end.

(** The value returned, and the priority stored when it is 0. *)
Definition sys_sched_getparam (s : procs) (pid : Z) (param : user unit) : Z * option Z :=
  match param with
  | Null => (- EINVAL, None)
  | _ =>
      if decide (pid < 0) then (- EINVAL, None) else
      match find_process_by_pid s pid with
      | None => (- ESRCH, None)
      | Some p =>
          let retval := security_task_getscheduler p in
          if decide (retval ≠ 0) then (retval, None)
          else
            let priority := if task_has_rt_policy p then rt_priority p else 0 in
            match param with At _ => (0, Some priority) | _ => (- EFAULT, None) end
      end
  end.

(** [copies]: can the caller's [usize] bytes be written? Sizes below that of
    the kernel's structure cut off only fields that are zero here. *)
Definition sys_sched_getattr (s : procs) (pid : Z) (uattr : user unit) (usize flags : Z)
    : Z * option sched_attr :=
  match uattr with
  | Null => (- EINVAL, None)
  | _ =>
      if decide (pid < 0 ∨ PAGE_SIZE < usize ∨ usize < SCHED_ATTR_SIZE_VER0 ∨ flags ≠ 0)
      then (- EINVAL, None) else
      match find_process_by_pid s pid with
      | None => (- ESRCH, None)
      | Some p =>
          let retval := security_task_getscheduler p in
          if decide (retval ≠ 0) then (retval, None)
          else
            let flag := if sched_reset_on_fork p then SCHED_FLAG_RESET_ON_FORK else 0 in
            let kattr := Attr (policy p) flag 0 0 (Dl 0 0 0) in
            let kattr :=
              if task_has_dl_policy p then getparam_dl p kattr
              else if task_has_rt_policy p
              then Attr (policy p) flag 0 (rt_priority p) (Dl 0 0 0)
              else Attr (policy p) flag (task_nice p) 0 (Dl 0 0 0) in
            match uattr with At _ => (0, Some kattr) | _ => (- EFAULT, None) end
      end
  end.

(** ** Forking

    [p] is the child's copy of [current]. The policy of every child becomes
    SCHED_FIFO; the error is that of a boosted deadline priority. *)
Definition sched_fork (current p : task) : res (Z + task) :=
  let p := new_task p in
  let p := with_prio (normal_prio current) (class p) p in
  let p := with_params SCHED_FIFO (static_prio p) (normal_prio p) (rt_priority p) (load p) (dl p) p in
  p ← (if sched_reset_on_fork p then
         let p :=
           if task_has_dl_policy p || task_has_rt_policy p
           then with_params SCHED_NORMAL (NICE_TO_PRIO 0) (normal_prio p) 0 (load p) (dl p) p
           else if decide (PRIO_TO_NICE (static_prio p) < 0) then with_static (NICE_TO_PRIO 0) p
           else p in
         let p := with_prio (__normal_prio p) (class p) (with_normal (__normal_prio p) p) in
         p ← set_load_weight false p;
         Ok (with_reset false p)
       else Ok p);
  Ok (if dl_prio (prio p) then inl (- EAGAIN)
      else if rt_prio (prio p) then inr (with_prio (prio p) rt_sched_class p)
      else inr (with_prio (prio p) fair_sched_class p)).

(** ** The tick of a full-dynticks processor *)

Definition sched_can_stop_tick (dl_nr rr_nr rt_nr nr_running : Z) : bool :=
  if negb (bool_decide (dl_nr = 0)) then false
  else if negb (bool_decide (rr_nr = 0)) then bool_decide (rr_nr = 1)
  else if negb (bool_decide (rt_nr - rr_nr = 0)) then true
  else negb (bool_decide (1 < nr_running)).
End sched.

Arguments Null {A}.
Arguments Fault {A}.
Arguments At {A} a.

(** * The values of the kernel the assignment patches *)

#[global] Instance linux_5_11 : sched_headers := {
  MAX_RT_PRIO := 100;
  MAX_USER_RT_PRIO := 100;
  MAX_DL_PRIO := 0;
  SCHED_FLAG_SUGOV := 0x10000000;
  NICE_TO_PRIO := λ n, n + 120;
  PRIO_TO_NICE := λ p, p - 120;
  nice_to_rlimit := λ n, 20 - n;
  rt_prio := λ p, bool_decide (p < 100);
  dl_prio := λ p, bool_decide (p < 0);
  fair_policy := λ p, bool_decide (p = SCHED_NORMAL ∨ p = SCHED_BATCH);
  rt_policy := λ p, bool_decide (p = SCHED_FIFO ∨ p = SCHED_RR);
  dl_policy := λ p, bool_decide (p = SCHED_DEADLINE);
  idle_policy := λ p, bool_decide (p = SCHED_IDLE);
  valid_policy := λ p, bool_decide (p = SCHED_NORMAL ∨ p = SCHED_BATCH) ||
    bool_decide (p = SCHED_FIFO ∨ p = SCHED_RR) || bool_decide (p = SCHED_DEADLINE) ||
    bool_decide (p = SCHED_IDLE);
  scale_load := λ w, w * 2^10;
  WEIGHT_IDLEPRIO := 3;
  WMULT_IDLEPRIO := 1431655765;
}.

#[global] Instance linux_5_11_ok : sched_headers_ok.
Proof.
  split; intros; simpl in *; rewrite ?bool_decide_eq_true; unfold MIN_NICE, MAX_NICE, NICE_WIDTH in *;
    try done; lia.
Qed.
