(* ===== verification/SchedProofs.v ===== *)
(** The scheduling policies: the invariant of a task, what the forced
    SCHED_FIFO does to the calls, to forked children and to [nice]. *)
From S2P Require Import Prelude Sched.
Local Open Scope Z_scope.

Section proofs.
Context `{Hh : sched_headers} `{!sched_headers_ok} `{Hk : kernel}.

(** * Specification *)

(** The fields of a task agree with each other. *)
Record sched_ok (p : task) : Prop := {
  ok_normal : normal_prio p = normal_prio_of p;
  ok_prio : prio p = rt_effective_prio p (normal_prio p);
  ok_class : class p = class_of (prio p);
  ok_rt : rt_policy (policy p) = negb (bool_decide (rt_priority p = 0));
  ok_range : 0 ≤ rt_priority p < MAX_RT_PRIO;
  ok_valid : valid_policy (policy p) = true;
  ok_static : MAX_RT_PRIO ≤ static_prio p < MAX_RT_PRIO + NICE_WIDTH;
}.

(** No [SCHED_RESET_ON_FORK] in the policy. *)
Definition plain_policy (pol : Z) : Prop := pol = SETPARAM_POLICY ∨ has pol SCHED_RESET_ON_FORK = false.

(** Attributes a system call can pass on. *)
Record attr_ok (attr : sched_attr) : Prop := {
  attr_policy : -1 ≤ sched_policy attr;
  attr_priority : 0 ≤ sched_priority attr;
  attr_nice : MIN_NICE ≤ sched_nice attr ≤ MAX_NICE;
}.

(** * Weights and parameters *)

Lemma weights_length : length sched_prio_to_weight = 40%nat ∧ length sched_prio_to_wmult = 40%nat.
Proof. done. Qed.

Lemma rd_in {A} (l : list A) i : 0 ≤ i < Z.of_nat (length l) → ∃ x, rd l i = Ok x.
Proof.
  intros Hi. unfold rd. rewrite decide_True by lia.
  destruct (lookup_lt_is_Some_2 l (Z.to_nat i)) as [x ->]; [lia|]. by exists x.
Qed.

Lemma set_load_weight_inv b p q : set_load_weight b p = Ok q → ∃ l, q = with_load l p.
Proof.
  unfold set_load_weight. repeat case_match; intros Hq.
  1, 2: injection Hq as <-; eauto.
  apply res_bind_ok_inv in Hq as (w & _ & Hq). apply res_bind_ok_inv in Hq as (m & _ & Hq).
  injection Hq as <-. eauto.
Qed.

Lemma set_load_weight_ok b p :
  MAX_RT_PRIO ≤ static_prio p < MAX_RT_PRIO + NICE_WIDTH → ∃ l, set_load_weight b p = Ok (with_load l p).
Proof.
  intros Hs. unfold NICE_WIDTH in Hs. unfold set_load_weight. destruct weights_length as [Hl1 Hl2].
  repeat case_match; eauto.
  destruct (rd_in sched_prio_to_weight (static_prio p - MAX_RT_PRIO)) as [w ->]; [rewrite Hl1; lia|].
  destruct (rd_in sched_prio_to_wmult (static_prio p - MAX_RT_PRIO)) as [m ->]; [rewrite Hl2; lia|].
  simpl. eauto.
Qed.

Lemma policy_kinds pol :
  valid_policy pol = true →
  (fair_policy pol = true ∧ rt_policy pol = false ∧ dl_policy pol = false ∧ idle_policy pol = false) ∨
  (rt_policy pol = true ∧ fair_policy pol = false ∧ dl_policy pol = false ∧ idle_policy pol = false) ∨
  (dl_policy pol = true ∧ fair_policy pol = false ∧ rt_policy pol = false ∧ idle_policy pol = false) ∨
  (idle_policy pol = true ∧ fair_policy pol = false ∧ rt_policy pol = false ∧ dl_policy pol = false).
Proof.
  rewrite valid_policies. pose proof (fair_policies pol) as Hf. pose proof (rt_policies pol) as Hr.
  pose proof (dl_policies pol) as Hd. pose proof (idle_policies pol) as Hi.
  unfold SCHED_NORMAL, SCHED_BATCH, SCHED_FIFO, SCHED_RR, SCHED_DEADLINE, SCHED_IDLE in *.
  destruct (fair_policy pol), (rt_policy pol), (dl_policy pol), (idle_policy pol); simpl; intros Hv;
    first [discriminate Hv|clear -Hv; tauto|exfalso]; repeat match goal with
      | H : true = true ↔ _ |- _ => apply proj1 in H; specialize (H eq_refl)
      end; lia.
Qed.

Lemma valid_nonneg pol : valid_policy pol = true → 0 ≤ pol.
Proof.
  intros Hv. pose proof (fair_policies pol) as Hf. pose proof (rt_policies pol) as Hr.
  pose proof (dl_policies pol) as Hd. pose proof (idle_policies pol) as Hi.
  unfold SCHED_NORMAL, SCHED_BATCH, SCHED_FIFO, SCHED_RR, SCHED_DEADLINE, SCHED_IDLE in *.
  destruct (policy_kinds pol Hv) as [?|[?|[?|?]]]; intuition lia.
Qed.

(** * Setting a policy *)

(** What an accepted request and the task must satisfy when the queue is
    locked: the rules on priorities hold for the policy that will be set. *)
Definition agreed (p : task) (attr : sched_attr) (pol : Z) : Prop :=
  valid_policy pol = true ∧ rt_policy pol = negb (bool_decide (sched_priority attr = 0)) ∧
  sched_priority attr < MAX_RT_PRIO ∧
  pol = (if decide (sched_policy attr = SETPARAM_POLICY) then policy p else sched_policy attr).

Lemma refusal_none p attr user pol reset :
  refusal p attr user pol reset = None →
  sched_priority attr < MAX_RT_PRIO ∧
  rt_policy pol = negb (bool_decide (sched_priority attr = 0)) ∧
  has (sched_flags attr) SCHED_FLAG_UTIL_CLAMP = false.
Proof.
  unfold refusal. destruct max_prios as (_ & Hu & Hr).
  assert ((if mm p then MAX_USER_RT_PRIO - 1 else MAX_RT_PRIO - 1) = MAX_RT_PRIO - 1) as ->
    by (rewrite Hu, Hr; by destruct (mm p)).
  repeat (case_match; [done|]). intros _.
  match goal with H : _ || negb (Bool.eqb _ _) = false |- _ =>
    apply orb_false_iff in H as [_ H]; apply negb_false_iff, eqb_prop in H end.
  match goal with H : has _ _ && bool_decide (uclamp_validate _ _ ≠ 0) = false |- _ =>
    unfold uclamp_validate in H; rewrite andb_true_r in H end.
  repeat split; try done; lia.
Qed.

Lemma precheck_inr p attr user pol pol' old reset :
  precheck p attr user pol = inr (pol', old, reset) →
  pol' = (if decide (pol < 0) then policy p else pol) ∧
  old = (if decide (pol < 0) then policy p else -1) ∧
  (0 ≤ pol → valid_policy pol = true) ∧
  reset = (if decide (pol < 0) then sched_reset_on_fork p else has (sched_flags attr) SCHED_FLAG_RESET_ON_FORK) ∧
  sched_priority attr < MAX_RT_PRIO ∧
  rt_policy pol' = negb (bool_decide (sched_priority attr = 0)) ∧
  has (sched_flags attr) SCHED_FLAG_UTIL_CLAMP = false.
Proof.
  unfold precheck. destruct (decide (pol < 0)) as [Hneg|Hpos]; cbn [negb].
  - destruct (refusal _ _ _ _ _) eqn:Hr; [done|]. intros [= <- <- <-].
    apply refusal_none in Hr as (? & ? & ?). repeat split; done || lia.
  - destruct (valid_policy pol) eqn:Hv; [|done]. cbn [negb].
    destruct (refusal _ _ _ _ _) eqn:Hr; [done|]. intros [= <- <- <-].
    apply refusal_none in Hr as (? & ? & ?). repeat split; done || lia.
Qed.

Lemma sched_ok_reset b p : sched_ok p → sched_ok (with_reset b p).
Proof. intros []. split; done. Qed.

(** The parameters set, task by task. *)
Lemma setscheduler_ok p attr :
  sched_ok p → attr_ok attr →
  agreed p attr (if decide (sched_policy attr = SETPARAM_POLICY) then policy p else sched_policy attr) →
  ∃ q, __setscheduler p attr true = Ok q ∧ sched_ok q ∧
    sched_reset_on_fork q = sched_reset_on_fork p ∧
    (has (sched_flags attr) SCHED_FLAG_KEEP_PARAMS = true → q = p) ∧
    (has (sched_flags attr) SCHED_FLAG_KEEP_PARAMS = false →
      policy q = (if decide (sched_policy attr = SETPARAM_POLICY) then policy p else sched_policy attr) ∧
      rt_priority q = sched_priority attr ∧
      (fair_policy (policy q) = true → static_prio q = NICE_TO_PRIO (sched_nice attr)) ∧
      (dl_policy (policy q) = true → dl q = setparam_dl (dl p) attr)).
Proof.
  intros Hp Hattr (Hv & Hrt & Hlt & _). unfold __setscheduler.
  destruct (has _ SCHED_FLAG_KEEP_PARAMS) eqn:Hkeep; [by exists p|].
  unfold __setscheduler_params.
  set (pol := if decide _ then _ else _) in *.
  set (sp := if negb (dl_policy pol) && fair_policy pol then NICE_TO_PRIO (sched_nice attr) else static_prio p).
  set (d := if dl_policy pol then _ else _).
  set (p1 := with_params pol sp (normal_prio p) (sched_priority attr) (load p) d p).
  set (p2 := with_normal (normal_prio_of p1) p1).
  assert (MAX_RT_PRIO ≤ sp < MAX_RT_PRIO + NICE_WIDTH) as Hsp.
  { unfold sp. destruct (negb _ && _); [|apply Hp]. apply nice_prio_range, Hattr. }
  destruct (set_load_weight_ok true p2) as [l ->]; [exact Hsp|]. cbn [mbind res_bind].
  eexists. split; [done|]. split; [|split; [done|split; [done|]]].
  - split; try done.
    + split; [apply Hattr|done].
  - intros _. split_and!; try done; cbn [policy with_prio with_load with_params p2 p1 with_normal static_prio dl];
      intros Hf; [|unfold d; by rewrite Hf].
    unfold sp. rewrite Hf.
    destruct (policy_kinds pol Hv) as [(_ & _ & -> & _)|[(_ & E & _)|[(_ & E & _)|(_ & E & _)]]];
      [done|congruence..].
Qed.

Lemma nothing_changes_inv p attr pol :
  nothing_changes p attr pol = true →
  pol = policy p ∧
  (fair_policy pol = true → sched_nice attr = task_nice p) ∧
  (rt_policy pol = true → sched_priority attr = rt_priority p) ∧
  (dl_policy pol = true → dl_param_changed p attr = false).
Proof.
  unfold nothing_changes. rewrite !andb_true_iff, !negb_true_iff, bool_decide_eq_true.
  intros ((((-> & Hf) & Hr) & Hd) & _). split; [done|]. split_and!; intros E; [..|by rewrite E in Hd].
  - rewrite E in Hf. simpl in Hf. apply bool_decide_eq_false in Hf. by apply dec_stable in Hf.
  - rewrite E in Hr. simpl in Hr. apply bool_decide_eq_false in Hr. by apply dec_stable in Hr.
Qed.

(** What the locked part leaves behind of a task [p]. *)
Definition done_with (p : task) (attr : sched_attr) (pol : Z) (reset : bool) (r : Z * task * list rq_op) : Prop :=
  let '(err, q, ops) := r in
  sched_ok q ∧ (err ≠ 0 → q = p ∧ ops = []) ∧
  (err = 0 → sched_reset_on_fork q = reset ∧
    (has (sched_flags attr) SCHED_FLAG_KEEP_PARAMS = true → q = with_reset reset p) ∧
    (has (sched_flags attr) SCHED_FLAG_KEEP_PARAMS = false →
      policy q = pol ∧ (rt_policy pol = true → rt_priority q = sched_priority attr) ∧
      (fair_policy pol = true → task_nice q = sched_nice attr) ∧
      (dl_policy pol = true → dl q = setparam_dl (dl p) attr ∨ dl_param_changed p attr = false ∧ dl q = dl p))).

Lemma refused_with p attr pol reset err : sched_ok p → 0 < err → done_with p attr pol reset (- err, p, []).
Proof. intros Hp He. split; [done|]. split; [done|lia]. Qed.

Lemma locked_ok p attr user pol old reset :
  sched_ok p → attr_ok attr →
  (old ≠ -1 → sched_policy attr < 0) →
  (old = -1 → 0 ≤ sched_policy attr ∧ pol = sched_policy attr) →
  (old ≠ -1 → pol = old) →
  valid_policy pol = true → rt_policy pol = negb (bool_decide (sched_priority attr = 0)) →
  sched_priority attr < MAX_RT_PRIO →
  (old ≠ -1 ∧ old ≠ policy p ∧ locked p attr user true pol old reset = Ok None) ∨
  (∃ r, locked p attr user true pol old reset = Ok (Some r) ∧ done_with p attr pol reset r).
Proof.
  intros Hp Hattr Hset Hpol Hold Hv Hrt Hlt. unfold locked.
  destruct (is_stop p); [right; eexists; split; [done|]; by apply refused_with|].
  destruct (nothing_changes p attr pol) eqn:Hn.
  { right. eexists. split; [done|]. split; [by apply sched_ok_reset|]. split; [done|]. intros _. split; [done|].
    split; [done|]. intros _. apply nothing_changes_inv in Hn as (-> & Hf & Hr & Hd). split; [done|].
    split_and!; intros E; simpl; [by rewrite Hr|by rewrite Hf|right; split; [by apply Hd|done]]. }
  destruct (user && _ && _ && _); [right; eexists; split; [done|]; by apply refused_with|].
  destruct (decide (old ≠ -1 ∧ old ≠ policy p)) as [[Ho1 Ho2]|Hno]; [by left|right].
  destruct (_ && sched_dl_overflow _ _ _); [eexists; split; [done|]; by apply refused_with|].
  assert (pol = (if decide (sched_policy attr = SETPARAM_POLICY) then policy p else sched_policy attr)) as Epol.
  { pose proof (attr_policy _ Hattr). unfold SETPARAM_POLICY. destruct (decide (old = -1)) as [E|E].
    - destruct (Hpol E) as [Hge ->]. by rewrite decide_False by lia.
    - specialize (Hset E). rewrite decide_True by lia. rewrite (Hold E).
      destruct (decide (old = policy p)); [done|tauto]. }
  destruct (setscheduler_ok (with_reset reset p) attr) as (q & -> & Hq & Hres & Hkept & Hset'); [..|].
  - by apply sched_ok_reset.
  - done.
  - cbn [policy with_reset]. rewrite <- Epol. split; [done|]. split; [done|]. split; [done|done].
  - cbn [mbind res_bind]. eexists. split; [done|]. split; [done|]. split; [done|]. intros _. split; [exact Hres|]. split; [exact Hkept|].
    intros Hkeep. destruct (Hset' Hkeep) as (E1 & E2 & E3 & E4). cbn [policy with_reset] in E1.
    rewrite <- Epol in E1. split; [done|]. split; [done|]. split; [|intros Hd; left; apply E4; by rewrite E1]. intros Hf. unfold task_nice.
    rewrite E3 by (by rewrite E1). apply nice_prio.
Qed.

Lemma refusal_some p attr user pol reset err : refusal p attr user pol reset = Some err → err ≠ 0.
Proof.
  unfold refusal, uclamp_validate.
  destruct (user && bool_decide (security_task_setscheduler p ≠ 0)) eqn:Hs;
    repeat case_match; intros [= <-]; try (unfold EINVAL, EPERM, EOPNOTSUPP; lia).
  all: apply andb_prop in Hs as [_ Hs]; by apply bool_decide_eq_true in Hs.
Qed.

Lemma precheck_inl p attr user pol err : precheck p attr user pol = inl err → err ≠ 0.
Proof.
  unfold precheck. destruct (decide (pol < 0)); cbn [negb]; [|destruct (valid_policy pol); cbn [negb]];
    repeat case_match; intros [= <-]; try done; by eapply refusal_some.
Qed.

(** The policy and the mark a request asks for, when [p] is the task that was checked. *)
Definition asked_policy (attr : sched_attr) (p : task) : Z := if decide (sched_policy attr < 0) then policy p else sched_policy attr.
Definition asked_reset (attr : sched_attr) (p : task) : bool :=
  if decide (sched_policy attr < 0) then sched_reset_on_fork p else has (sched_flags attr) SCHED_FLAG_RESET_ON_FORK.

(** One time round: an answer, or a policy that changed before the lock. *)
Lemma round_ok p p' attr user pol pol' old reset :
  precheck p attr user pol = inr (pol', old, reset) →
  sched_ok p → sched_ok p' → attr_ok attr →
  pol = sched_policy attr ∨ (pol = -1 ∧ sched_policy attr < 0) →
  (policy p' ≠ policy p ∧ sched_policy attr < 0 ∧ locked p' attr user true pol' old reset = Ok None) ∨
  (∃ r, locked p' attr user true pol' old reset = Ok (Some r) ∧ done_with p' attr (asked_policy attr p) (asked_reset attr p) r).
Proof.
  intros Hpre Hp Hp' Hattr Hpol. apply precheck_inr in Hpre as (E1 & E2 & Hv & Hres & Hlt & Hrt & _).
  pose proof (valid_nonneg _ (ok_valid _ Hp)) as Hnn.
  assert (pol < 0 ↔ sched_policy attr < 0) as Hs by lia.
  assert (pol' = asked_policy attr p) as <- by (unfold asked_policy; rewrite E1; repeat case_decide; lia || done).
  assert (reset = asked_reset attr p) as <- by (unfold asked_reset; rewrite Hres; repeat case_decide; lia || done).
  destruct (decide (pol < 0)) as [Hneg|Hge].
  - destruct (locked_ok p' attr user pol' old reset) as [(H1 & H2 & H3)|(r & H1 & H2)]; try done; try lia.
    + by rewrite E1; apply ok_valid.
    + left. split; [congruence|]. split; [lia|done].
    + right. by exists r.
  - assert (pol = sched_policy attr) as Epol by lia. subst pol' old.
    destruct (locked_ok p' attr user pol (-1) reset) as [(? & _)|(r & H1 & H2)]; try done; try lia.
    + apply Hv. lia.
    + right. by exists r.
Qed.

(** The task as a time round finds it: at the checks, and with the lock. *)
Inductive round_of : list (task → task) → task → task → task → Prop :=
  | round_alone p : round_of [] p p p
  | round_first f others p : round_of (f :: others) p p (f p)
  | round_later f others p p0 p1 : round_of others (f p) p0 p1 → round_of (f :: others) p p0 p1.

(** What a request leaves behind: an error changes nothing. *)
Definition asked (p0 p1 : task) (attr : sched_attr) (r : Z * task * list rq_op) : Prop :=
  done_with p1 attr (asked_policy attr p0) (asked_reset attr p0) r ∨ r.1.1 ≠ 0 ∧ r.1.2 = p0 ∧ r.2 = [].

Lemma recheck_ok others p attr user pol :
  Forall (λ f, ∀ p, sched_ok p → sched_ok (f p)) others → sched_ok p → attr_ok attr →
  pol = sched_policy attr ∨ (pol = -1 ∧ sched_policy attr < 0) →
  ∃ r p0 p1, recheck others p attr user true pol = Ok r ∧ sched_ok r.1.2 ∧ round_of others p p0 p1 ∧ asked p0 p1 attr r.
Proof.
  intros Ho. induction Ho as [|f others Hf _ IH] in p, pol |- *; intros Hp Hattr Hpol; cbn [recheck];
    (destruct (precheck p attr user pol) as [err|[[pol' old] reset]] eqn:Hpre;
     [eexists _, p, _; split; [done|]; split; [done|]; split; [constructor|]; right; split_and!; [by eapply precheck_inl|done..]|]).
  - destruct (round_ok p p attr user pol pol' old reset) as [(? & _)|(r & -> & Hr)]; try done.
    exists r, p, p. split; [done|]. split; [by destruct r as [[??]?]; apply Hr|]. split; [constructor|by left].
  - destruct (round_ok p (f p) attr user pol pol' old reset) as [(_ & ? & ->)|(r & -> & Hr)]; auto.
    + cbn [mbind res_bind]. destruct (IH (f p) (-1)) as (r & p0 & p1 & ? & ? & ? & ?); auto.
      exists r, p0, p1. split_and!; [done..|by constructor|done].
    + exists r, p, (f p). split; [done|]. split; [by destruct r as [[??]?]; apply Hr|]. split; [constructor|by left].
Qed.

(** A request for a policy given explicitly, without SCHED_FLAG_KEEP_PARAMS. *)
Lemma asked_explicit p0 p1 attr q ops : asked p0 p1 attr (0, q, ops) → 0 ≤ sched_policy attr → has (sched_flags attr) SCHED_FLAG_KEEP_PARAMS = false →
  sched_reset_on_fork q = has (sched_flags attr) SCHED_FLAG_RESET_ON_FORK ∧ policy q = sched_policy attr ∧
  (rt_policy (sched_policy attr) = true → rt_priority q = sched_priority attr) ∧
  (fair_policy (sched_policy attr) = true → task_nice q = sched_nice attr).
Proof.
  intros [Hd|[[] _]] Hge Hkp; [|done].
  assert (asked_policy attr p0 = sched_policy attr) as Ep by (unfold asked_policy; by rewrite decide_False by lia).
  assert (asked_reset attr p0 = has (sched_flags attr) SCHED_FLAG_RESET_ON_FORK) as Er by (unfold asked_reset; by rewrite decide_False by lia).
  rewrite Ep, Er in Hd. destruct Hd as (_ & _ & Hd). destruct (Hd eq_refl) as (Hr & _ & Hs). destruct (Hs Hkp) as (? & ? & ? & _). auto.
Qed.

Lemma legacy_attr_ok p pol priority :
  sched_ok p → -1 ≤ sched_policy (legacy_attr p pol priority) → attr_ok (legacy_attr p pol priority).
Proof.
  intros Hp Hpol. split; [done|..]; unfold legacy_attr; case_match; simpl;
    try (unfold wrapu32; apply Z.mod_pos_bound; lia);
    by apply prio_nice_range, ok_static.
Qed.

Lemma legacy_attr_plain p pol priority :
  plain_policy pol → legacy_attr p pol priority = legacy_attr p SCHED_FIFO priority.
Proof.
  intros Hpol. unfold legacy_attr. replace (has SCHED_FIFO SCHED_RESET_ON_FORK) with false by done.
  rewrite andb_false_r. destruct Hpol as [->| ->]; [done|]. by rewrite andb_false_r.
Qed.

Lemma has_none mask : has 0 mask = false.
Proof. unfold has. by rewrite Z.land_0_l. Qed.

Lemma fifo_is_rt : rt_policy SCHED_FIFO = true.
Proof. apply rt_policies. auto. Qed.

(** SCHED_FIFO without a priority is refused at once. *)
Lemma fifo_needs_priority others p n d user pi :
  __sched_setscheduler others p (Attr SCHED_FIFO 0 n 0 d) user pi = Ok (- EINVAL, p, []).
Proof.
  unfold __sched_setscheduler. cbn [sched_policy].
  assert (precheck p (Attr SCHED_FIFO 0 n 0 d) user SCHED_FIFO = inl (- EINVAL)) as Hpre.
  { unfold precheck. rewrite decide_False by done. destruct (valid_policy SCHED_FIFO); [|done].
    cbn [negb]. unfold refusal. cbn [sched_flags sched_priority]. rewrite has_none, fifo_is_rt.
    destruct max_prios as (_ & Hu & Hr).
    rewrite decide_False by (rewrite Hu, Hr; destruct (mm p); lia).
    rewrite (bool_decide_true (0 = 0)) by done. cbn. by rewrite orb_true_r. }
  destruct others; cbn [recheck]; by rewrite Hpre.
Qed.

(** ** Nice values *)

Lemma class_of_fair x : MAX_RT_PRIO ≤ x → class_of x = fair_sched_class.
Proof.
  intros Hx. unfold class_of. destruct max_prios as (Hd & _ & Hr).
  destruct (dl_prio x) eqn:Ed; [apply dl_prios in Ed; lia|].
  destruct (rt_prio x) eqn:Er; [apply rt_prios in Er; lia|done].
Qed.

Lemma clamp_range x lo hi : lo ≤ hi → lo ≤ clamp x lo hi ≤ hi.
Proof. unfold clamp. lia. Qed.

Lemma task_nice_range p : sched_ok p → MIN_NICE ≤ task_nice p ≤ MAX_NICE.
Proof. intros Hp. by apply prio_nice_range, ok_static. Qed.

(** The parameters of a task of neither policy class. *)
Lemma normal_prio_static p :
  task_has_dl_policy p || task_has_rt_policy p = false → normal_prio_of p = static_prio p.
Proof. unfold normal_prio_of. by intros [-> ->]%orb_false_iff. Qed.

Lemma set_user_nice_ok p nice :
  sched_ok p → (∀ x, pi_top p = Some x → x < MAX_RT_PRIO) → MIN_NICE ≤ nice ≤ MAX_NICE →
  ∃ q ops, set_user_nice p nice = Ok (q, ops) ∧ sched_ok q ∧ task_nice q = nice.
Proof.
  intros Hp Hpi Hn. unfold set_user_nice.
  destruct (decide _) as [Hsame|Hnew].
  { assert (task_nice p = nice) by lia. eauto. }
  pose proof (nice_prio_range nice Hn) as Hs.
  destruct (task_has_dl_policy p || task_has_rt_policy p) eqn:Hpol.
  { eexists _, _. split; [done|]. split; [|apply nice_prio].
    destruct Hp. split; try done. unfold with_static. cbn [normal_prio with_params].
    rewrite ok_normal0. unfold normal_prio_of, task_has_dl_policy, task_has_rt_policy in *.
    cbn [policy with_params rt_priority]. destruct (dl_policy (policy p)), (rt_policy (policy p)); done. }
  destruct (set_load_weight_ok true (with_static (NICE_TO_PRIO nice) p)) as [l ->]; [done|].
  cbn [mbind res_bind]. unfold effective_prio.
  set (p1 := with_load l (with_static (NICE_TO_PRIO nice) p)).
  assert (normal_prio_of p1 = NICE_TO_PRIO nice) as -> by (by rewrite normal_prio_static).
  cbn [prio normal_prio with_normal with_params p1 with_load with_static].
  assert (normal_prio p = static_prio p) as Hold by (rewrite ok_normal by done; by apply normal_prio_static).
  pose proof (ok_static _ Hp) as Hst. pose proof (ok_prio _ Hp) as Hpr. pose proof (ok_class _ Hp) as Hcl.
  unfold rt_effective_prio, __rt_effective_prio in Hpr. rewrite Hold in Hpr.
  destruct (rt_prio (prio p)) eqn:Hrt; cbn [negb]; eexists _, _;
    (split; [done|]; split; [|by apply nice_prio]); destruct Hp; split; try done;
    try (by rewrite normal_prio_static).
  - cbn [normal_prio with_prio with_normal with_params prio rt_effective_prio pi_top].
    unfold rt_effective_prio, __rt_effective_prio. cbn [pi_top with_prio with_normal with_params].
    change (pi_top p1) with (pi_top p). apply rt_prios in Hrt. revert Hpi Hpr. destruct (pi_top p) as [x|]; intros Hpi Hpr; [|lia].
    specialize (Hpi x eq_refl). lia.
  - unfold rt_effective_prio, __rt_effective_prio. cbn [pi_top with_prio with_normal with_params prio normal_prio].
    change (pi_top p1) with (pi_top p). clear ok_prio0. revert Hpi Hpr. destruct (pi_top p) as [x|]; [|done]. intros Hpi Hpr. specialize (Hpi x eq_refl).
    assert (rt_prio (prio p) = true) by (apply rt_prios; lia). congruence.
  - cbn [class prio with_prio with_normal with_params]. change (class p1) with (class p).
    rewrite class_of_fair by lia. rewrite Hcl. apply class_of_fair.
    destruct (decide (prio p < MAX_RT_PRIO)) as [Hlt|]; [apply rt_prios in Hlt; congruence|lia].
Qed.

(** * Properties *)

(** C30: whatever other processors do to the task before its run queue is
    locked, a request for a policy ends and leaves a consistent task behind
    (priorities, class, weight index and policy agree). An error leaves the task
    as the checks, or the lock, found it. When it returns 0 the task has the policy
    asked for, or with a negative one that which it had at the checks, its priority, nice value
    or deadline parameters, and the mark for forks; but with SCHED_FLAG_KEEP_PARAMS
    only the mark is set. *)
Theorem setscheduler_keeps_task_consistent others p attr user :
  Forall (λ f, ∀ p, sched_ok p → sched_ok (f p)) others → sched_ok p → attr_ok attr →
  ∃ err q ops p0 p1, __sched_setscheduler others p attr user true = Ok (err, q, ops) ∧ sched_ok q ∧
    round_of others p p0 p1 ∧
    (err ≠ 0 → (q = p0 ∨ q = p1) ∧ ops = []) ∧
    (err = 0 → sched_reset_on_fork q = asked_reset attr p0 ∧
     (has (sched_flags attr) SCHED_FLAG_KEEP_PARAMS = true → q = with_reset (asked_reset attr p0) p1) ∧
     (has (sched_flags attr) SCHED_FLAG_KEEP_PARAMS = false →
      policy q = asked_policy attr p0 ∧
      (rt_policy (policy q) = true → rt_priority q = sched_priority attr) ∧
      (fair_policy (policy q) = true → task_nice q = sched_nice attr) ∧
      (dl_policy (policy q) = true → dl q = setparam_dl (dl p1) attr ∨ dl_param_changed p1 attr = false ∧ dl q = dl p1))).
Proof.
  intros Ho Hp Hattr. destruct (recheck_ok others p attr user (sched_policy attr)) as
    ([[err q] ops] & p0 & p1 & Hr & Hq & Hround & Hdone); auto.
  exists err, q, ops, p0, p1. split; [done|]. split; [done|]. split; [done|].
  cbn [fst snd] in *. destruct Hdone as [(_ & He & Hd)|(He & E0 & E1)]; cbn [fst snd] in *; [|split; [by auto|done]].
  split; [intros Hne; destruct (He Hne) as [-> ->]; auto|]. intros H0. destruct (Hd H0) as (Hres & Hkeep & Hset).
  split; [done|]. split; [done|]. intros Hkp. destruct (Hset Hkp) as (E1 & ?). by rewrite E1.
Qed.

(** Every policy but one that carries SCHED_RESET_ON_FORK is replaced by
    SCHED_FIFO in [sched_setscheduler]: the result does not depend on it, a
    call without a real-time priority (SCHED_NORMAL, or [sched_setparam] of
    a normal task) fails with EINVAL, and a call that succeeds leaves the
    task in SCHED_FIFO. *)
Theorem setscheduler_forces_fifo others p pol priority check :
  Forall (λ f, ∀ p, sched_ok p → sched_ok (f p)) others → sched_ok p → plain_policy pol →
  _sched_setscheduler others p pol priority check = _sched_setscheduler others p SCHED_FIFO priority check ∧
  (wrapu32 priority = 0 → _sched_setscheduler others p pol priority check = Ok (- EINVAL, p, [])) ∧
  (∀ q ops, _sched_setscheduler others p pol priority check = Ok (0, q, ops) →
     policy q = SCHED_FIFO ∧ rt_priority q = wrapu32 priority).
Proof.
  intros Ho Hp Hpol. unfold _sched_setscheduler. rewrite legacy_attr_plain by done.
  assert (legacy_attr p SCHED_FIFO priority =
    Attr SCHED_FIFO 0 (PRIO_TO_NICE (static_prio p)) (wrapu32 priority) (Dl 0 0 0)) as E by done.
  split; [done|]. split.
  - intros H0. rewrite E, H0. apply fifo_needs_priority.
  - intros q ops Hq. destruct (recheck_ok others p (legacy_attr p SCHED_FIFO priority) check SCHED_FIFO)
      as (r & p0 & p1 & Hr & _ & _ & Hdone); auto; [by apply legacy_attr_ok|].
    unfold __sched_setscheduler in Hq. change (sched_policy (legacy_attr p SCHED_FIFO priority)) with SCHED_FIFO in Hq.
    rewrite Hr in Hq. injection Hq as ->. destruct (asked_explicit _ _ _ _ _ Hdone) as (_ & E1 & E2 & _); [done|apply has_none|].
    split; [exact E1|]. apply E2, fifo_is_rt.
Qed.

(** [nice] fails with EPERM exactly when the increment is negative and
    the new value exceeds the caller's rights; otherwise, when the security
    module agrees, the task's nice value becomes the old one plus the
    increment, cut to -20 ... 19, and the task stays consistent. *)
Theorem sys_nice_correct p increment :
  sched_ok p → (∀ x, pi_top p = Some x → x < MAX_RT_PRIO) →
  let nice := clamp (task_nice p + clamp increment (- NICE_WIDTH) NICE_WIDTH) MIN_NICE MAX_NICE in
  (increment < 0 → can_nice p nice = false → sys_nice p increment = Ok (- EPERM, p, [])) ∧
  (0 ≤ increment ∨ can_nice p nice = true → security_task_setnice p nice = 0 →
   ∃ q ops, sys_nice p increment = Ok (0, q, ops) ∧ task_nice q = nice ∧ sched_ok q).
Proof.
  intros Hp Hpi nice. unfold sys_nice. fold nice.
  assert (clamp increment (- NICE_WIDTH) NICE_WIDTH < 0 ↔ increment < 0) as Hneg
    by (unfold clamp, NICE_WIDTH; lia).
  split.
  - intros Hi Hc. rewrite bool_decide_true by tauto. by rewrite Hc.
  - intros Hc Hsec. rewrite Hsec, decide_False by auto.
    assert (bool_decide (clamp increment (- NICE_WIDTH) NICE_WIDTH < 0) && negb (can_nice p nice) = false) as ->.
    { destruct Hc as [Hi| ->]; [|by rewrite andb_false_r]. rewrite bool_decide_false by lia. done. }
    destruct (set_user_nice_ok p nice) as (q & ops & -> & Hq & Hn); [done|done|by apply clamp_range|].
    cbn [mbind res_bind]. eauto 10.
Qed.

(** The child of a task of the fair class is called SCHED_FIFO but stays
    in the fair class without a real-time priority, an inconsistent task; and
    because of its policy [set_user_nice], and with it [nice], changes
    neither its priority nor its weight. *)
Theorem nice_does_nothing_after_fork p :
  sched_ok p → MAX_RT_PRIO ≤ normal_prio p → sched_reset_on_fork p = false →
  ∃ q, sched_fork p p = Ok (inr q) ∧ policy q = SCHED_FIFO ∧ class q = fair_sched_class ∧
    rt_priority q = 0 ∧ ¬ sched_ok q ∧
    ∀ nice, ∃ q', set_user_nice q nice = Ok (q', []) ∧
      prio q' = prio q ∧ class q' = class q ∧ load q' = load q.
Proof.
  intros Hp Hn Hres. unfold sched_fork.
  set (p0 := with_params SCHED_FIFO _ _ _ _ _ _).
  assert (sched_reset_on_fork p0 = false) as -> by exact Hres. cbn [mbind res_bind].
  assert (prio p0 = normal_prio p) as -> by done.
  destruct max_prios as (Hd & _ & Hr).
  destruct (dl_prio (normal_prio p)) eqn:Ed; [apply dl_prios in Ed; lia|].
  destruct (rt_prio (normal_prio p)) eqn:Er; [apply rt_prios in Er; lia|].
  assert (rt_priority p = 0) as Hrt.
  { pose proof (ok_rt _ Hp) as Ho. pose proof (ok_normal _ Hp) as Hno. pose proof (ok_range _ Hp) as Hra.
    unfold normal_prio_of, task_has_dl_policy, task_has_rt_policy in Hno.
    destruct (decide (rt_priority p = 0)) as [|Hnz]; [done|].
    rewrite bool_decide_false in Ho by done. cbn [negb] in Ho. rewrite Ho in Hno.
    destruct (dl_policy (policy p)); lia. }
  eexists. split; [done|]. split; [done|]. split; [done|]. split; [exact Hrt|]. split.
  - intros Hq. pose proof (ok_rt _ Hq) as Ho. cbn in Ho. rewrite Hrt, fifo_is_rt in Ho. done.
  - intros nice. unfold set_user_nice. destruct (decide _); [eauto 10|].
    unfold task_has_rt_policy. cbn [policy with_prio p0 with_params].
    rewrite fifo_is_rt, orb_true_r. eauto 10.
Qed.

(** What [sched_setattr] has set (a fair or a real-time policy, with or
    without SCHED_FLAG_RESET_ON_FORK), [sched_getattr] returns: the policy,
    the flag, the nice value of a fair policy and the priority of a
    real-time policy. *)
Theorem getattr_after_setattr s s' pid u p attr :
  find_process_by_pid s pid = Some p → sched_ok p →
  sched_copy_attr u = inr attr → sched_flags attr = 0 ∨ sched_flags attr = SCHED_FLAG_RESET_ON_FORK →
  0 ≤ sched_priority attr →
  fair_policy (sched_policy attr) = true ∨ rt_policy (sched_policy attr) = true →
  (∀ q, security_task_getscheduler q = 0) →
  sys_sched_setattr [] s pid (At u) 0 = Ok (0, s') →
  sys_sched_getattr s' pid (At tt) SCHED_ATTR_SIZE_VER0 0 =
    (0, Some (Attr (sched_policy attr) (sched_flags attr)
       (if fair_policy (sched_policy attr) then sched_nice attr else 0)
       (if rt_policy (sched_policy attr) then sched_priority attr else 0) (Dl 0 0 0))).
Proof.
  intros Hfind Hp Hcopy Hflags Hprio Hpol Hsec. unfold sys_sched_setattr, sys_sched_getattr.
  destruct (decide (pid < 0 ∨ 0 ≠ 0)) as [?|Hpid]; [intros [=]|]. rewrite Hcopy, Hfind.
  assert (0 ≤ sched_policy attr) as Hge.
  { destruct Hpol as [Hf|Hf]; [apply fair_policies in Hf|apply rt_policies in Hf];
      unfold SCHED_NORMAL, SCHED_BATCH, SCHED_FIFO, SCHED_RR in Hf; lia. }
  rewrite decide_False by lia.
  assert (has (sched_flags attr) SCHED_FLAG_KEEP_POLICY = false) as -> by (by destruct Hflags as [->| ->]).
  assert (attr_ok attr) as Hattr.
  { split; [lia|done|]. unfold sched_copy_attr in Hcopy. repeat case_match; simplify_eq.
    all: by apply clamp_range. }
  unfold sched_setattr, __sched_setscheduler.
  destruct (recheck_ok [] p attr true (sched_policy attr)) as ([[err q] ops] & p0 & p1 & -> & Hq & _ & Hdone); auto.
  cbn [mbind res_bind]. intros [= -> <-].
  destruct (asked_explicit _ _ _ _ _ Hdone) as (Hres & E1 & E2 & E3); [done|by destruct Hflags as [->| ->]|].
  rewrite decide_False by (unfold PAGE_SIZE, SCHED_ATTR_SIZE_VER0; lia).
  assert (find_process_by_pid (set_task s pid q) pid = Some q) as ->.
  { unfold find_process_by_pid, set_task. cbn [tasks current]. apply lookup_insert_eq. }
  rewrite Hsec, decide_False by auto.
  assert ((if sched_reset_on_fork q then SCHED_FLAG_RESET_ON_FORK else 0) = sched_flags attr) as ->.
  { rewrite Hres. by destruct Hflags as [->| ->]. }
  unfold task_has_dl_policy, task_has_rt_policy. rewrite E1.
  pose proof (ok_valid q Hq) as Hv. rewrite E1 in Hv.
  destruct (policy_kinds _ Hv) as [(F & R & D & _)|[(R & F & D & _)|[(D & F & R & _)|(_ & F & R & D)]]];
    rewrite R, F in Hpol; try (destruct Hpol; discriminate); rewrite D, R, F; cbv iota.
  - by rewrite E3.
  - by rewrite E2.
Qed.
End proofs.

(** The second table holds the inverses of the first, each
    within 1 of 2^32 divided by the weight. *)
Theorem weights_inverted :
  Forall2 (λ w m, Z.abs (w * m - 2^32) < w) sched_prio_to_weight sched_prio_to_wmult.
Proof. unfold sched_prio_to_weight, sched_prio_to_wmult. by_decision. Qed.

(** * Witnesses: an unprivileged user on a kernel without further policies *)

Definition user_kernel (cap : bool) : kernel := {|
  cap_sys_nice := cap;
  cred_euid := 1000;
  security_task_setscheduler := λ _, 0;
  security_task_getscheduler := λ _, 0;
  security_task_setnice := λ _ _, 0;
  reweight_task := λ p _, load p;
  checkparam_dl := λ _, true;
  dl_param_changed := λ _ _, true;
  sched_dl_overflow := λ _ _ _, false;
  setparam_dl := λ _ a, sched_dl a;
  getparam_dl := λ p a, a;
  dl_bandwidth_ok := λ _, true;
|}.

Definition normal_task : task :=
  Task SCHED_NORMAL 120 120 120 0 fair_sched_class (Load (1024 * 1024) 4194304) (Dl 0 0 0)
       false 7 true 1000 1000 false true true None 0 0.
Definition fifo_task : task :=
  Task SCHED_FIFO 120 89 89 10 rt_sched_class (Load (1024 * 1024) 4194304) (Dl 0 0 0)
       false 7 true 1000 1000 false true true None 0 0.

Lemma normal_task_ok : sched_ok normal_task.
Proof. by split. Qed.

Lemma fifo_task_ok : sched_ok fifo_task.
Proof. by split. Qed.

(** Another processor makes the task SCHED_FIFO behind the first checks. *)
Lemma setscheduler_keeps_task_consistent_witness :
  ∃ err q ops,
    @__sched_setscheduler _ (user_kernel true) [λ _, fifo_task] normal_task
      (Attr SETPARAM_POLICY 0 0 0 (Dl 0 0 0)) true true = Ok (err, q, ops) ∧ sched_ok q.
Proof.
  destruct (@setscheduler_keeps_task_consistent _ _ (user_kernel true) [λ _, fifo_task] normal_task
    (Attr SETPARAM_POLICY 0 0 0 (Dl 0 0 0)) true) as (err & q & ops & p0 & p1 & H & Hq & _).
  - constructor; [|constructor]. intros _ _. apply fifo_task_ok.
  - apply normal_task_ok.
  - split; simpl; unfold SETPARAM_POLICY, MIN_NICE, MAX_NICE; lia.
  - by exists err, q, ops.
Defined.

Lemma setscheduler_forces_fifo_witness :
  @_sched_setscheduler _ (user_kernel true) [] normal_task SCHED_NORMAL 0 true =
    Ok (- EINVAL, normal_task, []) ∧
  @_sched_setscheduler _ (user_kernel true) [] normal_task SCHED_RR 10 true =
    @_sched_setscheduler _ (user_kernel true) [] normal_task SCHED_FIFO 10 true.
Proof.
  split.
  - apply (@setscheduler_forces_fifo _ _ (user_kernel true) [] normal_task SCHED_NORMAL 0 true);
      [constructor|apply normal_task_ok|by right|done].
  - apply (@setscheduler_forces_fifo _ _ (user_kernel true) [] normal_task SCHED_RR 10 true);
      [constructor|apply normal_task_ok|by right].
Defined.

Lemma sys_nice_correct_witness :
  @sys_nice _ (user_kernel false) normal_task (-5) = Ok (- EPERM, normal_task, []) ∧
  ∃ q ops, @sys_nice _ (user_kernel false) normal_task 5 = Ok (0, q, ops) ∧ task_nice q = 5.
Proof.
  destruct (@sys_nice_correct _ _ (user_kernel false) normal_task (-5) normal_task_ok) as [H1 _]; [done|].
  destruct (@sys_nice_correct _ _ (user_kernel false) normal_task 5 normal_task_ok) as [_ H2]; [done|].
  split; [by apply H1|]. destruct H2 as (q & ops & H & Hn & _); [by left|done|]. exists q, ops.
  split; [exact H|exact Hn].
Defined.

Lemma nice_does_nothing_after_fork_witness :
  ∃ q, @sched_fork _ (user_kernel true) normal_task normal_task = Ok (inr q) ∧
    policy q = SCHED_FIFO ∧ class q = fair_sched_class ∧
    ∃ q', @set_user_nice _ (user_kernel true) q 10 = Ok (q', []) ∧ load q' = load normal_task.
Proof.
  destruct (@nice_does_nothing_after_fork _ _ (user_kernel true) normal_task normal_task_ok)
    as (q & H & Hpol & Hc & _ & _ & Hn); [done|done|].
  exists q. split; [exact H|]. split; [exact Hpol|]. split; [exact Hc|].
  destruct (Hn 10) as (q' & H' & _ & _ & Hl). exists q'. split; [exact H'|].
  rewrite Hl. injection H as <-. done.
Defined.

Definition one_task : procs := Procs {[1 := normal_task]} 1.
Definition rr_request : user_attr := UAttr 48 (inr (Attr SCHED_RR 0 0 20 (Dl 0 0 0))).

Definition rr_task : task :=
  Task SCHED_RR 120 79 79 20 rt_sched_class (Load (1024 * 1024) 4194304) (Dl 0 0 0)
       false 7 true 1000 1000 false true true None 0 0.

Lemma getattr_after_setattr_witness :
  @sys_sched_getattr _ (user_kernel true) (Procs {[1 := rr_task]} 1) 0 (At tt) SCHED_ATTR_SIZE_VER0 0 =
    (0, Some (Attr SCHED_RR 0 0 20 (Dl 0 0 0))).
Proof.
  pose proof (@getattr_after_setattr _ _ (user_kernel true) one_task (Procs {[1 := rr_task]} 1) 0
    rr_request normal_task (Attr SCHED_RR 0 0 20 (Dl 0 0 0)) eq_refl normal_task_ok eq_refl
    (or_introl eq_refl) ltac:(done) (or_intror eq_refl) (λ _, eq_refl)) as H.
  apply H. by vm_compute.
Defined.
