(* ===== verification/Groups.v ===== *)
(** The task groups of the kernel of assignment 4
    (src/과제/OS과제/과제4/core.c): the tree of groups and its walk, the
    bandwidth controller of the fair class and the files of the cpu control
    group that read and set bandwidth, shares and weights. The configuration
    has CONFIG_CGROUP_SCHED, CONFIG_FAIR_GROUP_SCHED and CONFIG_CFS_BANDWIDTH. *)
From S2P Require Import Prelude Sched.
Local Open Scope Z_scope.

(** * Data *)

Definition NSEC_PER_USEC : Z := 1000.
Definition NSEC_PER_MSEC : Z := 1000000.
Definition NSEC_PER_SEC : Z := 1000000000.
Definition ULONG_MAX : Z := 2^64 - 1.
Definition U64_MAX : Z := 2^64 - 1.
Definition INT_MAX : Z := 2^31 - 1.
Definition ENOMEM : Z := 12.
Definition ERANGE : Z := 34.

(** [period] is an s64, [quota] a u64 and [hierarchical_quota] an s64. *)
Record cfs_bandwidth := Bw {
  period : Z;
  quota : Z;
  hierarchical_quota : Z;
}.

(** The groups are named by numbers; [children] is the list threaded through
    the [siblings] of the children. *)
Record task_group := Tg {
  parent : option Z;
  children : list Z;
  shares : Z;
  bandwidth : cfs_bandwidth;
}.

(** The run queue of a group on a processor. *)
Record cfs_rq := CfsRq { runtime_enabled : bool; runtime_remaining : Z; throttled : bool }.

(** Calls to the bandwidth controller in fair.c. *)
Inductive bw_op : Set :=
  | cfs_bandwidth_usage_inc
  | cfs_bandwidth_usage_dec
  | refill_cfs_bandwidth_runtime (tg : Z)
  | start_cfs_bandwidth (tg : Z)
  | unthrottle_cfs_rq (tg cpu : Z).

Record groups := Groups {
  tgs : gmap Z task_group;
  task_groups : list Z;
  cfs_rqs : gmap (Z * Z) cfs_rq;
  ops : list bw_op;
}.

Definition root_task_group : Z := 0.

Definition get (k : groups) (g : Z) : res task_group := opt NullPointer (tgs k !! g).
Definition put (g : Z) (tg : task_group) (k : groups) : groups :=
  Groups (<[g := tg]> (tgs k)) (task_groups k) (cfs_rqs k) (ops k).
Definition emit (l : list bw_op) (k : groups) : groups :=
  Groups (tgs k) (task_groups k) (cfs_rqs k) (ops k ++ l).

Definition set_parent (p : option Z) (tg : task_group) : task_group :=
  Tg p [] (shares tg) (bandwidth tg).
Definition set_children (l : list Z) (tg : task_group) : task_group :=
  Tg (parent tg) l (shares tg) (bandwidth tg).
Definition set_shares (s : Z) (tg : task_group) : task_group :=
  Tg (parent tg) (children tg) s (bandwidth tg).
Definition set_bandwidth (b : cfs_bandwidth) (tg : task_group) : task_group :=
  Tg (parent tg) (children tg) (shares tg) b.

(** * The walk over the tree *)

Definition tg_visitor : Type := Z → groups → res (Z * groups).

Definition first_child (k : groups) (g : Z) : res (option Z) :=
  tg ← get k g; Ok (head (children tg)).

Fixpoint list_next (c : Z) (l : list Z) : res (option Z) :=
  match l with
  | [] => Undef OutOfBounds
  | x :: l => if decide (x = c) then Ok (head l) else list_next c l
  end.

Definition next_sibling (k : groups) (g c : Z) : res (option Z) :=
  tg ← get k g; list_next c (children tg).

(** The labels of the code: [down], and [up] with the child it came from. *)
Inductive label : Set := Down | Up (child : Z).

Section walk.
Context (down up : tg_visitor).

Fixpoint walk (fuel : nat) (from g : Z) (l : label) (k : groups) : res (Z * groups) :=
  match fuel with
  | O => Undef Diverges
  | S fuel =>
      let loop (child : option Z) (k : groups) :=
        match child with
        | Some c => walk fuel from c Down k
        | None =>
            '(ret, k) ← up g k;
            if decide (ret ≠ 0 ∨ g = from) then Ok (ret, k)
            else
              tg ← get k g;
              match parent tg with
              | Some p => walk fuel from p (Up g) k
              | None => Ok (ret, k)
              end
        end in
      match l with
      | Down =>
          '(ret, k) ← down g k;
          if decide (ret ≠ 0) then Ok (ret, k) else c ← first_child k g; loop c k
      | Up c => c ← next_sibling k g c; loop c k
      end
  end.

(** Every group is entered once and returned to once per child. *)
Definition walk_tg_tree_from (from : Z) (k : groups) : res (Z * groups) :=
  walk (2 * size (tgs k)) from from Down k.
End walk.

Definition tg_nop : tg_visitor := λ g k, Ok (0, k).

(** * The headers and the files of the kernel that are not part of the
    assignment: kernel/sched/sched.h, linux/cgroup.h, kernel/sched/fair.c *)

Class group_headers := {
  RUNTIME_INF : Z;
  BW_SHIFT : Z;
  BW_UNIT : Z;
  MAX_BW : Z;
  MIN_SHARES : Z;
  MAX_SHARES : Z;
  CGROUP_WEIGHT_MIN : Z;
  CGROUP_WEIGHT_DFL : Z;
  CGROUP_WEIGHT_MAX : Z;
  scale_load_down : Z → Z;
  walk_tg_tree : tg_visitor → tg_visitor → groups → res (Z * groups);
  cgroup_subsys_on_dfl : bool;                         (** cgroup2? *)
  sched_group_set_shares : Z → Z → groups → Z * groups;
  alloc_fair_sched_group : Z → Z → groups → option groups;  (** of a group and its parent *)
  alloc_rt_sched_group : bool;
  online_cpus : list Z;
}.

Class group_headers_ok `{sched_headers} `{group_headers} : Prop := {
  runtime_inf : RUNTIME_INF = 2^64 - 1;
  bw_shift : BW_SHIFT = 20;
  bw_unit : BW_UNIT = 2^20;
  max_bw : MAX_BW = 2^44 - 1;
  shares_range : 2 ≤ MIN_SHARES ∧ MIN_SHARES ≤ 10 ∧ 102400 ≤ MAX_SHARES ≤ 2^20;
  cgroup_weights : CGROUP_WEIGHT_MIN = 1 ∧ CGROUP_WEIGHT_DFL = 100 ∧ CGROUP_WEIGHT_MAX = 10000;
  scale_loads : ∀ w, 2 ≤ w ≤ 2^32 → scale_load_down (scale_load w) = w;
  scale_load_down_max : MAX_SHARES ≤ scale_load_down ULONG_MAX < 2^64;
  scale_load_mono : ∀ a b, 0 ≤ a ≤ b → 0 ≤ scale_load a ≤ scale_load b;
  walk_from_root : ∀ down up k, walk_tg_tree down up k = walk_tg_tree_from down up root_task_group k;
  shares_root : ∀ s k, sched_group_set_shares root_task_group s k = (- EINVAL, k);
  shares_set : ∀ g s k tg, g ≠ root_task_group → tgs k !! g = Some tg →
    sched_group_set_shares g s k =
      (0, put g (set_shares (clamp s (scale_load MIN_SHARES) (scale_load MAX_SHARES)) tg) k);
  new_group : ∀ g p k k', alloc_fair_sched_group g p k = Some k' →
    (∃ s b, tgs k' = <[g := Tg None [] s b]> (tgs k) ∧ quota b = RUNTIME_INF ∧
       NSEC_PER_MSEC ≤ period b ≤ NSEC_PER_SEC) ∧
    task_groups k' = task_groups k ∧ ops k' = ops k ∧
    (∀ cpu, cpu ∈ online_cpus → is_Some (cfs_rqs k' !! (g, cpu))) ∧
    (∀ h cpu, h ≠ g → cfs_rqs k' !! (h, cpu) = cfs_rqs k !! (h, cpu));
}.

Section groups.
Context `{sched_headers} `{group_headers}.

(** ** Groups come and go *)

Definition ERR_PTR {A} (e : Z) : Z + A := inl e.

(** The run queues of a freed group are not used again. *)
Definition sched_free_group (g : Z) (k : groups) : groups :=
  Groups (delete g (tgs k)) (task_groups k) (cfs_rqs k) (ops k).

(** [alloc]: the address of the new, zeroed group. *)
Definition sched_create_group (p : Z) (alloc : option Z) (k : groups) : (Z + Z) * groups :=
  match alloc with
  | None => (ERR_PTR (- ENOMEM), k)
  | Some g =>
      let k := put g (Tg None [] 0 (Bw 0 0 0)) k in
      match alloc_fair_sched_group g p k with
      | Some k =>
          if alloc_rt_sched_group then (inr g, k) else (ERR_PTR (- ENOMEM), sched_free_group g k)
      | None => (ERR_PTR (- ENOMEM), sched_free_group g k)
      end
  end.

Definition sched_online_group (g p : Z) (k : groups) : res groups :=
  tg ← get k g;
  let k := put g (set_parent (Some p) tg) k in
  ptg ← get k p;
  let k := put p (set_children (g :: children ptg) ptg) k in
  Ok (Groups (tgs k) (g :: task_groups k) (cfs_rqs k) (ops k)).

(** [list_del_rcu] on both lists. *)
Definition sched_offline_group (g : Z) (k : groups) : res groups :=
  tg ← get k g;
  let k := Groups (tgs k) (filter (.≠ g) (task_groups k)) (cfs_rqs k) (ops k) in
  match parent tg with
  | Some p => ptg ← get k p; Ok (put p (set_children (filter (.≠ g) (children ptg)) ptg) k)
  | None => Ok k
  end.

(** A state of the control group is the group it is part of. *)
Definition css_tg (css : option Z) : option Z := css.

Definition cpu_cgroup_css_alloc (parent_css alloc : option Z) (k : groups) : (Z + Z) * groups :=
  match css_tg parent_css with
  | None => (inr root_task_group, k)
  | Some p =>
      match sched_create_group p alloc k with
      | (inr g, k) => (inr g, k)
      | (inl _, k) => (ERR_PTR (- ENOMEM), k)
      end
  end.

Definition cpu_cgroup_css_online (css : Z) (parent_css : option Z) (k : groups) : res groups :=
  match css_tg parent_css with
  | Some p => sched_online_group css p k
  | None => Ok k
  end.
Definition cpu_cgroup_css_released (css : Z) (k : groups) : res groups := sched_offline_group css k.
Definition cpu_cgroup_css_free (css : Z) (k : groups) : groups := sched_free_group css k.

(** ** Quota and period *)

Definition to_ratio (period runtime : Z) : Z :=
  if decide (runtime = RUNTIME_INF) then BW_UNIT
  else if decide (period = 0) then 0
  else wrapu64 (Z.shiftl runtime BW_SHIFT) / period.

Definition max_cfs_quota_period : Z := NSEC_PER_SEC.
Definition min_cfs_quota_period : Z := NSEC_PER_MSEC.
Definition max_cfs_runtime : Z := wrapu64 (MAX_BW * NSEC_PER_USEC).

Definition tg_get_cfs_quota (tg : task_group) : Z :=
  if decide (quota (bandwidth tg) = RUNTIME_INF) then -1
  else wrap64 (quota (bandwidth tg) / NSEC_PER_USEC).

Definition tg_get_cfs_period (tg : task_group) : Z :=
  wrap64 (wrapu64 (period (bandwidth tg)) / NSEC_PER_USEC).

Record cfs_schedulable_data := Data { d_tg : Z; d_period : Z; d_quota : Z }.

Definition normalize_cfs_quota (g : Z) (tg : task_group) (d : cfs_schedulable_data) : Z :=
  let '(period, quota) :=
    if decide (g = d_tg d) then (d_period d, d_quota d)
    else (wrapu64 (tg_get_cfs_period tg), wrapu64 (tg_get_cfs_quota tg)) in
  if decide (quota = RUNTIME_INF ∨ quota = wrapu64 (-1)) then RUNTIME_INF
  else to_ratio period quota.

Definition set_hierarchical (g q : Z) (k : groups) : res (Z * groups) :=
  tg ← get k g;
  let b := bandwidth tg in
  Ok (0, put g (set_bandwidth (Bw (period b) (quota b) q) tg) k).

(** [quota] and [parent_quota] are of type s64. *)
Definition tg_cfs_schedulable_down (d : cfs_schedulable_data) : tg_visitor := λ g k,
  tg ← get k g;
  match parent tg with
  | None => set_hierarchical g (wrap64 RUNTIME_INF) k
  | Some p =>
      ptg ← get k p;
      let quota := wrap64 (normalize_cfs_quota g tg d) in
      let parent_quota := hierarchical_quota (bandwidth ptg) in
      if cgroup_subsys_on_dfl then set_hierarchical g (Z.min quota parent_quota) k
      else if decide (wrapu64 quota = RUNTIME_INF) then set_hierarchical g parent_quota k
      else if decide (wrapu64 parent_quota ≠ RUNTIME_INF ∧ quota > parent_quota)
      then Ok (- EINVAL, k)
      else set_hierarchical g quota k
  end.

Definition __cfs_schedulable (g period quota : Z) (k : groups) : res (Z * groups) :=
  let d := if decide (quota ≠ RUNTIME_INF)
           then Data g (period / NSEC_PER_USEC) (quota / NSEC_PER_USEC)
           else Data g period quota in
  walk_tg_tree (tg_cfs_schedulable_down d) tg_nop k.

(** One processor of the loop that gives the group its new limit. *)
Definition update_cfs_rq (g : Z) (enabled : bool) (cpu : Z) (k : groups) : res groups :=
  q ← opt NullPointer (cfs_rqs k !! (g, cpu));
  let k := Groups (tgs k) (task_groups k) (<[(g, cpu) := CfsRq enabled 0 (throttled q)]> (cfs_rqs k))
                  (ops k) in
  Ok (if throttled q then emit [unthrottle_cfs_rq g cpu] k else k).

Fixpoint for_each_cpu (cpus : list Z) (f : Z → groups → res groups) (k : groups) : res groups :=
  match cpus with
  | [] => Ok k
  | cpu :: cpus => k ← f cpu k; for_each_cpu cpus f k
  end.

Definition tg_set_cfs_bandwidth (g period quota : Z) (k : groups) : res (Z * groups) :=
  if decide (g = root_task_group) then Ok (- EINVAL, k)
  else if decide (quota < min_cfs_quota_period ∨ period < min_cfs_quota_period) then Ok (- EINVAL, k)
  else if decide (period > max_cfs_quota_period) then Ok (- EINVAL, k)
  else if decide (quota ≠ RUNTIME_INF ∧ quota > max_cfs_runtime) then Ok (- EINVAL, k)
  else
    '(ret, k) ← __cfs_schedulable g period quota k;
    if decide (ret ≠ 0) then Ok (ret, k)
    else
      tg ← get k g;
      let b := bandwidth tg in
      let enabled := negb (bool_decide (quota = RUNTIME_INF)) in
      let was_enabled := negb (bool_decide (Groups.quota b = RUNTIME_INF)) in
      let k := if enabled && negb was_enabled then emit [cfs_bandwidth_usage_inc] k else k in
      let k := put g (set_bandwidth (Bw (wrap64 period) quota (hierarchical_quota b)) tg) k in
      let k := emit (refill_cfs_bandwidth_runtime g ::
                     if enabled then [start_cfs_bandwidth g] else []) k in
      k ← for_each_cpu online_cpus (update_cfs_rq g enabled) k;
      Ok (0, if was_enabled && negb enabled then emit [cfs_bandwidth_usage_dec] k else k).

Definition tg_set_cfs_quota (g cfs_quota_us : Z) (k : groups) : res (Z * groups) :=
  tg ← get k g;
  let period := wrapu64 (period (bandwidth tg)) in
  if decide (cfs_quota_us < 0) then tg_set_cfs_bandwidth g period RUNTIME_INF k
  else if decide (wrapu64 cfs_quota_us ≤ U64_MAX / NSEC_PER_USEC)
  then tg_set_cfs_bandwidth g period (wrapu64 (wrapu64 cfs_quota_us * NSEC_PER_USEC)) k
  else Ok (- EINVAL, k).

Definition tg_set_cfs_period (g cfs_period_us : Z) (k : groups) : res (Z * groups) :=
  if decide (wrapu64 cfs_period_us > U64_MAX / NSEC_PER_USEC) then Ok (- EINVAL, k)
  else
    tg ← get k g;
    tg_set_cfs_bandwidth g (wrapu64 (wrapu64 cfs_period_us * NSEC_PER_USEC)) (quota (bandwidth tg)) k.

Definition cpu_cfs_quota_read_s64 (tg : task_group) : Z := tg_get_cfs_quota tg.
Definition cpu_cfs_quota_write_s64 (g cfs_quota_us : Z) (k : groups) : res (Z * groups) :=
  tg_set_cfs_quota g cfs_quota_us k.
Definition cpu_cfs_period_read_u64 (tg : task_group) : Z := wrapu64 (tg_get_cfs_period tg).
Definition cpu_cfs_period_write_u64 (g cfs_period_us : Z) (k : groups) : res (Z * groups) :=
  tg_set_cfs_period g (wrap64 cfs_period_us) k.

(** ** Shares and weights *)

Definition cpu_shares_write_u64 (g shareval : Z) (k : groups) : Z * groups :=
  let shareval := if decide (shareval > scale_load_down ULONG_MAX) then MAX_SHARES else shareval in
  sched_group_set_shares g (scale_load shareval) k.
Definition cpu_shares_read_u64 (tg : task_group) : Z := wrapu64 (scale_load_down (shares tg)).

Definition DIV_ROUND_CLOSEST_ULL (x d : Z) : Z := wrapu64 (x + d / 2) / d.

Definition cpu_weight_read_u64 (tg : task_group) : Z :=
  let weight := scale_load_down (shares tg) in
  DIV_ROUND_CLOSEST_ULL (wrapu64 (weight * CGROUP_WEIGHT_DFL)) 1024.

Definition cpu_weight_write_u64 (g weight : Z) (k : groups) : Z * groups :=
  if decide (weight < CGROUP_WEIGHT_MIN ∨ weight > CGROUP_WEIGHT_MAX) then (- ERANGE, k)
  else
    let weight := DIV_ROUND_CLOSEST_ULL (wrapu64 (weight * 1024)) CGROUP_WEIGHT_DFL in
    sched_group_set_shares g (scale_load weight) k.

(** The loop over the table, from the entry [prio] on: the value of [prio]
    after it. The difference is an unsigned long; [abs] takes it as a long. *)
Fixpoint closest (l : list Z) (weight prio last_delta : Z) : Z :=
  match l with
  | [] => prio
  | w :: l =>
      let delta := wrap32 (Z.abs (wrap64 (w - weight))) in
      if decide (last_delta ≤ delta) then prio else closest l weight (prio + 1) delta
  end.

Definition cpu_weight_nice_read_s64 (tg : task_group) : Z :=
  let weight := scale_load_down (shares tg) in
  PRIO_TO_NICE (closest sched_prio_to_weight weight 0 INT_MAX - 1 + MAX_RT_PRIO).

(** [array_index_nospec] is the index itself, which is below 40. *)
Definition cpu_weight_nice_write_s64 (g nice : Z) (k : groups) : res (Z * groups) :=
  if decide (nice < MIN_NICE ∨ nice > MAX_NICE) then Ok (- ERANGE, k)
  else
    weight ← rd sched_prio_to_weight (NICE_TO_PRIO nice - MAX_RT_PRIO);
    Ok (sched_group_set_shares g (scale_load weight) k).

(** ** The file cpu.max *)

Section cpu_max.
(** The kernel's [sscanf]: the word [%20s] and the rest of the buffer, and
    the number [%llu] at the start of a string. *)
Context (scan_word : string → option (string * string)) (scan_llu : string → option Z).

Definition cpu_period_quota_print (period quota : Z) : string :=
  (if decide (quota < 0) then "max" else pretty quota) +:+ " " +:+ pretty period +:+ "
".

(** [periodp] holds [period] before the call; the values stored in
    [periodp] and [quotap]. *)
Definition cpu_period_quota_parse (buf : string) (period : Z) : Z + Z * Z :=
  match scan_word buf with
  | None => inl (- EINVAL)
  | Some (tok, rest) =>
      let period := default period (scan_llu rest) in
      let period := wrapu64 (period * NSEC_PER_USEC) in
      match scan_llu tok with
      | Some quota => inr (period, wrapu64 (quota * NSEC_PER_USEC))
      | None => if decide (tok = "max") then inr (period, RUNTIME_INF) else inl (- EINVAL)
      end
  end.

Definition cpu_max_show (tg : task_group) : string :=
  cpu_period_quota_print (tg_get_cfs_period tg) (tg_get_cfs_quota tg).

Definition cpu_max_write (g : Z) (buf : string) (k : groups) : res (Z * groups) :=
  tg ← get k g;
  match cpu_period_quota_parse buf (wrapu64 (tg_get_cfs_period tg)) with
  | inl e => Ok (e, k)
  | inr (period, quota) =>
      '(ret, k) ← tg_set_cfs_bandwidth g period quota k;
      Ok (if decide (ret = 0) then Z.of_nat (String.length buf) else ret, k)
  end.
End cpu_max.
End groups.

(** * The values of Linux 5.11 on two processors *)

Definition linux_groups (cgroup2 : bool) : group_headers := {|
  RUNTIME_INF := 2^64 - 1;
  BW_SHIFT := 20;
  BW_UNIT := 2^20;
  MAX_BW := 2^44 - 1;
  MIN_SHARES := 2;
  MAX_SHARES := 2^18;
  CGROUP_WEIGHT_MIN := 1;
  CGROUP_WEIGHT_DFL := 100;
  CGROUP_WEIGHT_MAX := 10000;
  scale_load_down := λ w, w / 2^10;
  walk_tg_tree := λ down up, walk_tg_tree_from down up root_task_group;
  cgroup_subsys_on_dfl := cgroup2;
  sched_group_set_shares := λ g s k,
    if decide (g = root_task_group) then (- EINVAL, k)
    else match tgs k !! g with
         | Some tg => (0, put g (set_shares (clamp s (2 * 2^10) (2^18 * 2^10)) tg) k)
         | None => (0, k)
         end;
  alloc_fair_sched_group := λ g p k,
    Some (Groups (<[g := Tg None [] (2^20) (Bw 100000000 (2^64 - 1) 0)]> (tgs k)) (task_groups k)
            (<[(g, 0) := CfsRq false 0 false]> (<[(g, 1) := CfsRq false 0 false]> (cfs_rqs k))) (ops k));
  alloc_rt_sched_group := true;
  online_cpus := [0; 1];
|}.

#[global] Instance linux_groups_ok cgroup2 : @group_headers_ok linux_5_11 (linux_groups cgroup2).
Proof.
  split; simpl; try done; try lia.
  - intros w Hw. by rewrite Z.div_mul.
  - intros g s k tg Hg Hk. rewrite decide_False by done. by rewrite Hk.
  - intros g p k k' [= <-]. simpl. split.
    + eexists _, _. split; [done|]. split; [done|]. simpl. unfold NSEC_PER_MSEC, NSEC_PER_SEC. lia.
    + split; [done|]. split; [done|]. split.
      * intros cpu Hcpu. rewrite !lookup_insert_is_Some'. set_solver.
      * intros h cpu Hh. rewrite !lookup_insert_ne by congruence. done.
Qed.
