(* ===== verification/GroupsTree.v ===== *)
(** Trees of task groups: the specification of the walk of core.c, and the
    proof that the walk with its two labels is the traversal of the tree. *)
From S2P Require Import Prelude Sched Groups.
Local Open Scope Z_scope.

(** * Specification: trees and their traversal *)

Inductive tree : Type := Node (g : Z) (subs : list tree).

Fixpoint tree_ind' (P : tree → Prop)
    (step : ∀ g subs, Forall P subs → P (Node g subs)) (t : tree) : P t :=
  match t with
  | Node g subs =>
      step g subs ((fix go l : Forall P l :=
        match l with
        | [] => Forall_nil_2 P
        | t :: l => Forall_cons_2 P t l (tree_ind' P step t) (go l)
        end) subs)
  end.

Definition root_of (t : tree) : Z := match t with Node g _ => g end.

(** The groups of a tree, each before those under it. *)
Fixpoint nodes (t : tree) : list Z :=
  match t with Node g subs => g :: (subs ≫= nodes) end.

(** The links of the groups. *)
Definition shape (k : groups) : gmap Z (option Z * list Z) :=
  (λ tg, (parent tg, children tg)) <$> tgs k.

(** The links [m] form the tree [t] below the group [p]. *)
Fixpoint holds (m : gmap Z (option Z * list Z)) (p : option Z) (t : tree) : Prop :=
  match t with
  | Node g subs => m !! g = Some (p, root_of <$> subs) ∧ foldr (λ t P, holds m (Some g) t ∧ P) True subs
  end.

(** A visitor leaves the links alone. *)
Definition keeps_shape (v : tg_visitor) : Prop :=
  ∀ g k r k', v g k = Ok (r, k') → shape k' = shape k.

(** Go on if the visitor returned 0. *)
Definition andthen (m : res (Z * groups)) (f : groups → res (Z * groups)) : res (Z * groups) :=
  '(ret, k) ← m; if decide (ret ≠ 0) then Ok (ret, k) else f k.

Fixpoint visit (down up : tg_visitor) (t : tree) (k : groups) : res (Z * groups) :=
  match t with
  | Node g subs =>
      andthen (down g k) (λ k,
        andthen (foldr (λ t f k, andthen (visit down up t k) f) (λ k, Ok (0, k)) subs k) (up g))
  end.

Definition visits (down up : tg_visitor) (l : list tree) (k : groups) : res (Z * groups) :=
  foldr (λ t f k, andthen (visit down up t k) f) (λ k, Ok (0, k)) l k.

(** * The walk *)

Lemma holds_Forall m p l :
  foldr (λ t P, holds m p t ∧ P) True l ↔ Forall (holds m p) l.
Proof. induction l; simpl; [done|]. rewrite Forall_cons. by f_equiv. Qed.

Lemma holds_root m p t : holds m p t → ∃ l, m !! root_of t = Some (p, l).
Proof. destruct t. simpl. intros [-> _]. eauto. Qed.

Lemma tree_parent m q t g : holds m q t → g ∈ nodes t → g = root_of t ∨ ∃ p l, p ∈ nodes t ∧ m !! g = Some (Some p, l).
Proof.
  revert q. induction t as [h subs IH] using tree_ind'. intros q [Hh Hsubs] Hg. simpl in Hg.
  rewrite Forall_forall in IH. rewrite holds_Forall, Forall_forall in Hsubs.
  apply elem_of_cons in Hg as [->|Hg]; [by left|right]. apply list_elem_of_bind in Hg as (t & Hg & Ht).
  destruct (IH t Ht _ (Hsubs t Ht) Hg) as [->|(p & l & Hp & Hl)].
  - destruct (holds_root _ _ _ (Hsubs t Ht)) as [l Hl]. exists h, l. split; [left|done].
  - exists p, l. split; [|done]. simpl. right. apply list_elem_of_bind. eauto.
Qed.

Lemma shape_lookup k g p l :
  shape k !! g = Some (p, l) → ∃ tg, tgs k !! g = Some tg ∧ parent tg = p ∧ children tg = l.
Proof. unfold shape. rewrite lookup_fmap_Some. naive_solver. Qed.

Lemma andthen_assoc m f g : andthen (andthen m f) g = andthen m (λ k, andthen (f k) g).
Proof.
  destruct m as [[r k]| |]; [|done..]. unfold andthen. simpl.
  destruct (decide (r ≠ 0)); simpl; [|done]. by rewrite decide_True.
Qed.

Lemma andthen_ext m f g P :
  (∀ r k, m = Ok (r, k) → P k) → (∀ k, P k → f k = g k) → andthen m f = andthen m g.
Proof.
  intros Hm Hfg. destruct m as [[r k]| |]; [|done..]. unfold andthen. simpl.
  case_decide; [done|]. apply Hfg. by eapply Hm.
Qed.

Lemma andthen_inv m f r k :
  andthen m f = Ok (r, k) → (m = Ok (r, k) ∧ r ≠ 0) ∨ ∃ k', m = Ok (0, k') ∧ f k' = Ok (r, k).
Proof.
  unfold andthen. destruct m as [[r' k']| |]; simpl; [|done..].
  case_decide; intros E; [left; by simplify_eq|right].
  exists k'. split; [|done]. by destruct (decide (r' = 0)) as [->|].
Qed.

Section walk.
Context (down up : tg_visitor) (Hdown : keeps_shape down) (Hup : keeps_shape up).

Lemma visit_cons t l k :
  visits down up (t :: l) k = andthen (visit down up t k) (visits down up l).
Proof. done. Qed.

Lemma visit_node g subs k :
  visit down up (Node g subs) k = andthen (down g k) (λ k, andthen (visits down up subs k) (up g)).
Proof. done. Qed.

Lemma visits_shape_of l :
  Forall (λ t, keeps_shape (λ _, visit down up t)) l → keeps_shape (λ _, visits down up l).
Proof.
  induction 1 as [|t l Ht _ IH]; intros g k r k'; [by intros [= _ ->]|].
  rewrite visit_cons. intros [[E _]|(k1 & E & E')]%andthen_inv; [by eapply (Ht 0)|].
  apply (IH 0) in E' as ->. by eapply (Ht 0).
Qed.

Lemma visit_shape t : keeps_shape (λ _, visit down up t).
Proof.
  induction t as [g subs IH%visits_shape_of] using tree_ind'. intros g0 k r k'. rewrite visit_node.
  intros [[E _]|(k1 & E & E')]%andthen_inv; [by eapply Hdown|].
  apply Hdown in E. rewrite <- E.
  apply andthen_inv in E' as [[E' _]|(k2 & E2 & E')]; [by eapply (IH 0)|].
  apply (IH 0) in E2. apply Hup in E'. congruence.
Qed.

Lemma visits_shape l : keeps_shape (λ _, visits down up l).
Proof. apply visits_shape_of, Forall_forall. intros t _. apply visit_shape. Qed.

(** The steps of the walk below a group, and below the rest of a list of
    children with the return to their parent. *)
Fixpoint cost (t : tree) : nat :=
  match t with Node _ subs => S (foldr (λ t n, S (cost t) + n)%nat O subs) end.
Definition costs (l : list tree) : nat := foldr (λ t n, S (cost t) + n)%nat O l.

(** What the walk does once it knows the next child. *)
Definition enter (fuel : nat) (from g : Z) (child : option Z) (k : groups) : res (Z * groups) :=
  match child with
  | Some c => walk down up fuel from c Down k
  | None =>
      '(ret, k) ← up g k;
      if decide (ret ≠ 0 ∨ g = from) then Ok (ret, k)
      else
        tg ← get k g;
        match parent tg with
        | Some p => walk down up fuel from p (Up g) k
        | None => Ok (ret, k)
        end
  end.

Lemma walk_down fuel from g k :
  walk down up (S fuel) from g Down k =
    andthen (down g k) (λ k, c ← first_child k g; enter fuel from g c k).
Proof. done. Qed.

Lemma walk_up fuel from g c k :
  walk down up (S fuel) from g (Up c) k = c ← next_sibling k g c; enter fuel from g c k.
Proof. done. Qed.

Lemma leave_below fuel from g p l k :
  g ≠ from → shape k !! g = Some (Some p, l) →
  enter fuel from g None k = andthen (up g k) (walk down up fuel from p (Up g)).
Proof.
  intros Hne Hg. unfold enter, andthen. destruct (up g k) as [[r k']| |] eqn:E; [|done..]. simpl.
  apply Hup in E. rewrite <- E in Hg. destruct (shape_lookup _ _ _ _ Hg) as (tg & Htg & Hp & _).
  destruct (decide (r ≠ 0)); [by rewrite decide_True by auto|].
  rewrite decide_False by naive_solver. unfold get. by rewrite Htg; simpl; rewrite Hp.
Qed.

Lemma leave_top fuel from k : enter fuel from from None k = up from k.
Proof.
  unfold enter. destruct (up from k) as [[r k']| |]; [|done..]. simpl.
  by rewrite decide_True by auto.
Qed.

Lemma list_next_app l1 c l2 : NoDup (l1 ++ c :: l2) → list_next c (l1 ++ c :: l2) = Ok (head l2).
Proof.
  induction l1 as [|x l1 IH]; simpl; [by rewrite decide_True|].
  intros [Hx Hl]%NoDup_cons. rewrite decide_False by set_solver. by apply IH.
Qed.

(** The walk below one group, given the walk below each child. *)
Lemma walk_children m from g p pre todo n k :
  shape k = m → m !! g = Some (p, root_of <$> pre ++ todo) → NoDup (root_of <$> pre ++ todo) →
  Forall (λ t, ∀ n k, shape k = m →
    walk down up (cost t + n) from (root_of t) Down k =
      andthen (visit down up t k) (walk down up n from g (Up (root_of t)))) todo →
  enter (costs todo + n) from g (head (root_of <$> todo)) k =
    andthen (visits down up todo k) (enter n from g None).
Proof.
  intros Hk Hg Hnodup Hall. revert pre k Hk Hg Hnodup.
  induction Hall as [|t todo Ht Hall IH]; intros pre k Hk Hg Hnodup; [done|].
  rewrite visit_cons, andthen_assoc. change (costs (t :: todo)) with (S (cost t) + costs todo)%nat.
  replace (S (cost t) + costs todo + n)%nat with (cost t + S (costs todo + n))%nat by lia.
  change (enter ?f from g (head (root_of <$> t :: todo)) k) with (walk down up f from (root_of t) Down k).
  rewrite Ht by done. apply (andthen_ext _ _ _ (λ k', shape k' = m)).
  { intros r k' E. apply (visit_shape t 0) in E. congruence. }
  intros k' Hk'. rewrite walk_up. unfold next_sibling.
  rewrite <- Hk' in Hg. destruct (shape_lookup _ _ _ _ Hg) as (tg & Htg & _ & Hc).
  unfold get. rewrite Htg. simpl. rewrite Hc, fmap_app. simpl.
  rewrite fmap_app in Hnodup. simpl in Hnodup. rewrite list_next_app by done. simpl.
  apply (IH (pre ++ [t])).
  - done.
  - rewrite <- Hk', Hg. by rewrite <- app_assoc.
  - rewrite <- app_assoc, fmap_app. done.
Qed.

Lemma NoDup_roots subs : NoDup (subs ≫= nodes) → NoDup (root_of <$> subs).
Proof.
  induction subs as [|[g l] subs IH]; simpl; [constructor|].
  intros [Hg Hl]%NoDup_cons. rewrite NoDup_app in Hl. destruct Hl as (_ & _ & Hl).
  constructor; [|by apply IH]. intros ([h l'] & -> & Hin)%list_elem_of_fmap.
  apply Hg, elem_of_app. right. apply list_elem_of_bind. exists (Node h l'). split; [left|done].
Qed.

Lemma NoDup_sub t subs : NoDup (subs ≫= nodes) → t ∈ subs → NoDup (nodes t).
Proof.
  intros Hn Hin. apply list_elem_of_split in Hin as (l1 & l2 & ->).
  rewrite bind_app in Hn. simpl in Hn. by apply NoDup_app in Hn as (_ & _ & [Hn _]%NoDup_app).
Qed.

Lemma walk_below t m from p n k :
  shape k = m → holds m (Some p) t → NoDup (nodes t) → from ∉ nodes t →
  walk down up (cost t + n) from (root_of t) Down k =
    andthen (visit down up t k) (walk down up n from p (Up (root_of t))).
Proof.
  revert p n k. induction t as [g subs IH] using tree_ind'. intros p n k Hk [Hg Hsubs] Hnodup Hfrom.
  rewrite holds_Forall in Hsubs. simpl in Hnodup, Hfrom. apply NoDup_cons in Hnodup as [Hgn Hnodup].
  change (cost (Node g subs) + n)%nat with (S (costs subs + n)). cbn [root_of].
  rewrite walk_down, visit_node, andthen_assoc.
  apply (andthen_ext _ _ _ (λ k', shape k' = m)). { intros r k' E. apply Hdown in E. congruence. }
  intros k' Hk'. rewrite andthen_assoc. unfold first_child, get.
  assert (shape k' !! g = Some (Some p, root_of <$> subs)) as Hg' by (by rewrite Hk').
  destruct (shape_lookup _ _ _ _ Hg') as (tg & Htg & _ & Hc). rewrite Htg. simpl. rewrite Hc.
  rewrite (walk_children m from g (Some p) [] subs n); [|done|done|by apply NoDup_roots|].
  - apply (andthen_ext _ _ _ (λ k', shape k' = m)).
    + intros r k2 E. apply (visits_shape subs 0) in E. congruence.
    + intros k2 Hk2. apply (leave_below _ _ _ _ (root_of <$> subs)); [set_solver|by rewrite Hk2].
  - apply Forall_forall. intros t Ht n' k2 Hk2. rewrite Forall_forall in IH, Hsubs.
    apply IH; [done|done|by apply Hsubs|by eapply NoDup_sub|set_solver].
Qed.

Lemma cost_nodes t : (cost t + 1 = 2 * length (nodes t))%nat.
Proof.
  induction t as [g subs IH] using tree_ind'.
  change (S (costs subs) + 1 = 2 * S (length (subs ≫= nodes)))%nat.
  enough (costs subs = 2 * length (subs ≫= nodes))%nat by lia.
  induction IH as [|t l Ht _ IHl]; [done|]. rewrite bind_cons, length_app.
  change (costs (t :: l)) with (S (cost t) + costs l)%nat. lia.
Qed.

Lemma holds_nodes m p t : holds m p t → ∀ g, g ∈ nodes t → is_Some (m !! g).
Proof.
  revert p. induction t as [h subs IH] using tree_ind'. intros p [Hh Hsubs] g Hg.
  rewrite holds_Forall in Hsubs. simpl in Hg. apply elem_of_cons in Hg as [->|Hg]; [by eauto|].
  apply list_elem_of_bind in Hg as (t & Hg & Ht). rewrite Forall_forall in IH, Hsubs. by eapply IH; eauto.
Qed.

Lemma nodes_size k p t :
  holds (shape k) p t → NoDup (nodes t) → (length (nodes t) ≤ size (tgs k))%nat.
Proof.
  intros Ht Hn. rewrite <- size_dom, <- (size_list_to_set (C := gset Z)) by done.
  apply subseteq_size. intros g Hg. rewrite elem_of_list_to_set in Hg.
  destruct (holds_nodes _ _ _ Ht g Hg) as [[q l] Hl].
  apply shape_lookup in Hl as (tg & Htg & _). by apply elem_of_dom_2 in Htg.
Qed.

Lemma walk_tree k p t :
  holds (shape k) p t → NoDup (nodes t) →
  walk_tg_tree_from down up (root_of t) k = visit down up t k.
Proof.
  intros Ht Hn. unfold walk_tg_tree_from.
  pose proof (cost_nodes t). pose proof (nodes_size _ _ _ Ht Hn).
  destruct t as [g subs]. destruct Ht as [Hg Hsubs].
  rewrite holds_Forall in Hsubs. simpl in Hn. apply NoDup_cons in Hn as [Hgn Hn].
  change (cost (Node g subs)) with (S (costs subs)) in *.
  replace (2 * size (tgs k))%nat with (S (costs subs + (2 * size (tgs k) - S (costs subs))))%nat by lia.
  generalize (2 * size (tgs k) - S (costs subs))%nat. intros n. cbn [root_of].
  rewrite walk_down, visit_node.
  apply (andthen_ext _ _ _ (λ k', shape k' = shape k)). { intros r k' E. by apply Hdown in E. }
  intros k' Hk'. unfold first_child, get.
  assert (shape k' !! g = Some (p, root_of <$> subs)) as Hg' by (by rewrite Hk').
  destruct (shape_lookup _ _ _ _ Hg') as (tg & Htg & _ & Hc). rewrite Htg. simpl. rewrite Hc.
  rewrite (walk_children (shape k) g g p [] subs n); [|done|done|by apply NoDup_roots|].
  - apply (andthen_ext _ _ _ (λ _, True)); [done|]. intros k2 _. apply leave_top.
  - apply Forall_forall. intros t Ht n' k2 Hk2. rewrite Forall_forall in Hsubs.
    apply (walk_below _ (shape k)); [done|by apply Hsubs|by eapply NoDup_sub|].
    intros Hin. apply Hgn, list_elem_of_bind. eauto.
Qed.
End walk.
