(* ===== verification/GroupsLimits.v ===== *)
(** The bandwidth controller on a tree of groups: what the check of the
    limits and the setting of a bandwidth do to the groups. *)
From S2P Require Import Prelude Sched Groups GroupsTree.
Local Open Scope Z_scope.

(** * Specification: nested limits *)

Section limits.
Context `{sched_headers} `{group_headers} `{!group_headers_ok}.

(** The bandwidth [tg_set_cfs_bandwidth] accepts for a single group. *)
Definition bandwidth_ok (b : cfs_bandwidth) : Prop :=
  NSEC_PER_MSEC ≤ period b ≤ NSEC_PER_SEC ∧
  (quota b = RUNTIME_INF ∨ NSEC_PER_MSEC ≤ quota b ≤ max_cfs_runtime).

(** The share of a processor a group asks for, if it has a limit: its
    quota over its period in units of 2^-20, from whole microseconds. *)
Definition share (period quota : Z) : option Z :=
  if decide (quota = RUNTIME_INF) then None
  else Some (quota / NSEC_PER_USEC * 2^20 / (period / NSEC_PER_USEC)).

Definition limit (k : groups) (g : Z) : option Z :=
  tg ← tgs k !! g; _ ← parent tg; share (period (bandwidth tg)) (quota (bandwidth tg)).

(** The limits if [g] had another bandwidth. *)
Definition limit_with (g period quota : Z) (k : groups) (h : Z) : option Z :=
  if decide (h = g) then tg ← tgs k !! h; _ ← parent tg; share period quota else limit k h.

(** A limit within another; no limit is within every limit, because the
    limit of the groups above is inherited. *)
Definition within (a b : option Z) : Prop :=
  match a, b with Some x, Some y => x ≤ y | _, _ => True end.

#[local] Instance within_dec a b : Decision (within a b).
Proof. destruct a, b; simpl; apply _. Defined.

Definition is_child (k : groups) (p g : Z) : Prop := ∃ tg, tgs k !! p = Some tg ∧ g ∈ children tg.
(** [above k a b]: [b] is a group under [a]. *)
Definition above (k : groups) : Z → Z → Prop := tc (is_child k).

(** No group has more than a group above it. *)
Definition nested (limit : Z → option Z) (k : groups) : Prop :=
  ∀ a b, above k a b → within (limit b) (limit a).

(** The groups form a tree below the root group, apart from those that are
    not yet or no longer online. *)
Definition is_tree (k : groups) : Prop :=
  ∃ t, root_of t = root_task_group ∧ NoDup (nodes t) ∧ holds (shape k) None t ∧
    ∀ g tg, tgs k !! g = Some tg → g ∉ nodes t → children tg = [].

(** * The check of the limits *)

Fixpoint admissible (lim : Z → option Z) (inh : option Z) (t : tree) : bool :=
  match t with
  | Node g subs =>
      bool_decide (within (lim g) inh) &&
      forallb (admissible lim (match lim g with Some x => Some x | None => inh end)) subs
  end.

(** The pairs of a group and a group under it. *)
Fixpoint pairs (t : tree) : list (Z * Z) :=
  match t with Node g subs => (pair g <$> (subs ≫= nodes)) ++ (subs ≫= pairs) end.

Lemma within_none a : within a None.
Proof. by destruct a. Qed.

Lemma within_trans_le a b c : within a (Some b) → within (Some b) c → within a c.
Proof. destruct a, c; simpl; lia. Qed.

Lemma admissible_pairs lim inh t :
  admissible lim inh t = true ↔
  (∀ g, g ∈ nodes t → within (lim g) inh) ∧ (∀ a b, (a, b) ∈ pairs t → within (lim b) (lim a)).
Proof.
  revert inh. induction t as [g subs IH] using tree_ind'. intros inh.
  rewrite Forall_forall in IH. cbn [admissible nodes pairs].
  rewrite andb_true_iff, bool_decide_eq_true, forallb_forall.
  set (inh' := match lim g with Some x => Some x | None => inh end).
  assert ((∀ t, In t subs → admissible lim inh' t = true) ↔
    (∀ h, h ∈ subs ≫= nodes → within (lim h) inh') ∧
    (∀ a b, (a, b) ∈ subs ≫= pairs → within (lim b) (lim a))) as ->.
  { setoid_rewrite list_elem_of_bind. setoid_rewrite <- list_elem_of_In. split.
    - intros Hs. split; [intros h (t & Hh & Ht)|intros a b (t & Hp & Ht)];
        by apply (IH t Ht inh' ); [apply Hs|].
    - intros [Hn Hp] t Ht. apply (IH t Ht). split; eauto. }
  setoid_rewrite elem_of_cons. setoid_rewrite elem_of_app. setoid_rewrite list_elem_of_fmap.
  subst inh'. split.
  - intros (Hg & Hn & Hp). split.
    + intros h [->|Hh]; [done|]. specialize (Hn h Hh).
      destruct (lim g); [|done]. by eapply within_trans_le.
    + intros a b [(h & [= -> ->] & Hh)|Hab]; [|by apply Hp].
      specialize (Hn h Hh). destruct (lim g); [done|]. by destruct (lim h).
  - intros [Hn Hp]. split; [apply Hn; by left|]. split; [|intros; apply Hp; by right].
    intros h Hh. destruct (lim g) eqn:Eg; [|apply Hn; by right].
    rewrite <- Eg. apply Hp. left. eauto.
Qed.

(** ** The pairs are the groups above each other *)

Definition link (m : gmap Z (option Z * list Z)) (a b : Z) : Prop :=
  ∃ p l, m !! a = Some (p, l) ∧ b ∈ l.

Lemma nodes_root t b : b ∈ nodes t → b = root_of t ∨ (root_of t, b) ∈ pairs t.
Proof.
  destruct t as [g subs]. simpl. rewrite elem_of_cons, elem_of_app, list_elem_of_fmap. naive_solver.
Qed.

Lemma pairs_nodes t a b : (a, b) ∈ pairs t → b ∈ nodes t.
Proof.
  induction t as [g subs IH] using tree_ind'. rewrite Forall_forall in IH. simpl.
  rewrite elem_of_app, list_elem_of_fmap, list_elem_of_bind, elem_of_cons.
  intros [(h & [= -> ->] & Hh)|(t & Hp & Ht)]; right; [done|]. apply list_elem_of_bind. eauto.
Qed.

Lemma pairs_link m p t a b : holds m p t → (a, b) ∈ pairs t → tc (link m) a b.
Proof.
  revert p a b. induction t as [g subs IH] using tree_ind'. intros p a b [Hg Hsubs].
  rewrite Forall_forall in IH. rewrite holds_Forall, Forall_forall in Hsubs. simpl.
  rewrite elem_of_app, list_elem_of_fmap, list_elem_of_bind.
  intros [(h & [= -> ->] & Hh)|(t & Hp & Ht)]; [|by eapply IH; eauto].
  apply list_elem_of_bind in Hh as (t & Hh & Ht).
  assert (link m g (root_of t)) as Hl.
  { exists p, (root_of <$> subs). split; [done|]. apply list_elem_of_fmap. eauto. }
  apply nodes_root in Hh as [->|Hh]; [by apply tc_once|]. eapply tc_l; [done|]. by eapply IH; eauto.
Qed.

Lemma link_pairs m p t b : holds m p t → tc (link m) (root_of t) b → (root_of t, b) ∈ pairs t.
Proof.
  intros Ht Htc. remember (root_of t) as a eqn:Ea. revert p t Ea Ht.
  induction Htc as [a b Hl|a c b Hl _ IH]; intros p [g subs] -> [Hg Hsubs];
    rewrite holds_Forall, Forall_forall in Hsubs; destruct Hl as (q & l & Hq & Hc); simpl in Hq;
    rewrite Hg in Hq; injection Hq as <- <-; apply list_elem_of_fmap in Hc as (t & -> & Ht);
    cbn [pairs root_of]; apply elem_of_app; left; apply list_elem_of_fmap; eexists; (split; [done|]);
    apply list_elem_of_bind; exists t; (split; [|done]).
  - destruct t. left.
  - apply pairs_nodes with (root_of t). eapply IH; [done|by apply Hsubs].
Qed.

Lemma pairs_iff m p t a b :
  holds m p t → a ∈ nodes t → (a, b) ∈ pairs t ↔ tc (link m) a b.
Proof.
  intros Ht Ha. split; [by eapply pairs_link|]. intros Htc. revert p Ht Ha.
  induction t as [g subs IH] using tree_ind'. intros p Ht Ha. simpl in Ha.
  apply elem_of_cons in Ha as [->|Ha]; [by eapply (link_pairs m p (Node g subs))|].
  apply list_elem_of_bind in Ha as (t & Ha & Hin). destruct Ht as [Hg Hsubs].
  rewrite Forall_forall in IH. rewrite holds_Forall, Forall_forall in Hsubs. cbn [pairs].
  apply elem_of_app. right. apply list_elem_of_bind. exists t. split; [|done]. eapply IH; eauto.
Qed.

Lemma above_link k a b : above k a b ↔ tc (link (shape k)) a b.
Proof.
  assert (∀ a b, is_child k a b ↔ link (shape k) a b) as Hl.
  { intros x y. unfold is_child, link, shape. setoid_rewrite lookup_fmap. split.
    - intros (tg & -> & Hy). simpl. eauto.
    - intros (q & l & Hl & Hy). destruct (tgs k !! x) as [tg|]; simplify_eq/=. eauto. }
  split; induction 1; try (by apply tc_once, Hl); eapply tc_l; eauto; by apply Hl.
Qed.
(** ** The quota as the code normalises it *)

Lemma wrap64_small z : - 2^63 ≤ z < 2^63 → wrap64 z = z.
Proof. intros. unfold wrap64. rewrite Z.mod_small; lia. Qed.

Lemma wrapu64_small z : 0 ≤ z < 2^64 → wrapu64 z = z.
Proof. intros. unfold wrapu64. by rewrite Z.mod_small. Qed.

Lemma max_cfs_runtime_eq : max_cfs_runtime = (2^44 - 1) * 1000.
Proof. unfold max_cfs_runtime. rewrite max_bw. done. Qed.

(** The bounds as numbers. *)
Lemma usecs p q :
  NSEC_PER_MSEC ≤ p ≤ NSEC_PER_SEC → NSEC_PER_MSEC ≤ q ≤ max_cfs_runtime →
  1000 ≤ p / NSEC_PER_USEC ≤ 1000000 ∧ 1000 ≤ q / NSEC_PER_USEC ≤ 2^44 - 1.
Proof.
  rewrite max_cfs_runtime_eq. unfold NSEC_PER_MSEC, NSEC_PER_SEC, NSEC_PER_USEC. intros Hp Hq.
  split; split; (apply Z.div_le_lower_bound || apply Z.div_le_upper_bound); lia.
Qed.

Lemma share_range p q x :
  bandwidth_ok (Bw p q 0) → share p q = Some x → 0 ≤ x < 2^63.
Proof.
  intros [Hp Hq] E. unfold share in E. simpl in Hp, Hq. case_decide; [done|]. injection E as <-.
  destruct Hq as [|Hq]; [done|]. pose proof (usecs p q Hp Hq) as [Hp' Hq'].
  split; [apply Z.div_pos; lia|]. apply Z.div_lt_upper_bound; [lia|]. nia.
Qed.

Lemma to_ratio_share p q :
  bandwidth_ok (Bw p q 0) → q ≠ RUNTIME_INF →
  share p q = Some (to_ratio (p / NSEC_PER_USEC) (q / NSEC_PER_USEC)).
Proof.
  intros [Hp [|Hq]] Hne; [done|]. simpl in Hp, Hq. unfold share. rewrite decide_False by done.
  pose proof (usecs p q Hp Hq) as [Hp' Hq']. unfold to_ratio.
  rewrite runtime_inf, bw_shift, !decide_False by lia.
  rewrite Z.shiftl_mul_pow2 by lia. rewrite wrapu64_small by lia. done.
Qed.

(** The arguments [__cfs_schedulable] passes on. *)
Definition data (g period quota : Z) : cfs_schedulable_data :=
  if decide (quota ≠ RUNTIME_INF) then Data g (period / NSEC_PER_USEC) (quota / NSEC_PER_USEC)
  else Data g period quota.

Lemma get_quota b p c s :
  quota b ≠ RUNTIME_INF → NSEC_PER_MSEC ≤ quota b ≤ max_cfs_runtime →
  tg_get_cfs_quota (Tg p c s b) = quota b / NSEC_PER_USEC.
Proof.
  intros Hne Hq. unfold tg_get_cfs_quota. simpl. rewrite decide_False by done.
  pose proof (usecs NSEC_PER_MSEC _ ltac:(done) Hq) as [_ ?]. apply wrap64_small. lia.
Qed.

Lemma get_period b p c s :
  NSEC_PER_MSEC ≤ period b ≤ NSEC_PER_SEC →
  tg_get_cfs_period (Tg p c s b) = period b / NSEC_PER_USEC.
Proof.
  intros Hp. unfold tg_get_cfs_period. simpl. unfold NSEC_PER_MSEC, NSEC_PER_SEC in Hp.
  rewrite wrapu64_small by lia. unfold NSEC_PER_USEC. apply wrap64_small.
  assert (0 ≤ period b / 1000 ≤ 1000000); [|lia].
  split; [apply Z.div_pos; lia|apply Z.div_le_upper_bound; lia].
Qed.

Lemma normalize_limited p q :
  bandwidth_ok (Bw p q 0) → q ≠ RUNTIME_INF →
  (if decide (q / NSEC_PER_USEC = RUNTIME_INF ∨ q / NSEC_PER_USEC = RUNTIME_INF) then RUNTIME_INF
   else to_ratio (p / NSEC_PER_USEC) (q / NSEC_PER_USEC)) = default RUNTIME_INF (share p q).
Proof.
  intros Hok Hne. rewrite to_ratio_share by done. destruct Hok as [Hp [|Hq]]; [done|].
  pose proof (usecs p q Hp Hq). rewrite decide_False; [done|]. rewrite runtime_inf. lia.
Qed.

Lemma normalize_ok g p q h tg :
  bandwidth_ok (Bw p q 0) → bandwidth_ok (bandwidth tg) →
  normalize_cfs_quota h tg (data g p q) =
    default RUNTIME_INF (if decide (h = g) then share p q
                         else share (period (bandwidth tg)) (quota (bandwidth tg))).
Proof.
  intros Hpq Htg. unfold normalize_cfs_quota.
  assert (wrapu64 (-1) = RUNTIME_INF) as -> by (by rewrite runtime_inf).
  replace (d_tg (data g p q)) with g by (unfold data; by case_decide).
  destruct (decide (h = g)); cbv beta iota.
  - unfold data. destruct (decide (q = RUNTIME_INF)) as [->|Hne].
    + rewrite (decide_False (P := RUNTIME_INF ≠ RUNTIME_INF)) by naive_solver. cbn [d_quota d_period].
      unfold share. by rewrite !decide_True by auto.
    + rewrite (decide_True (P := q ≠ RUNTIME_INF)) by done. cbn [d_quota d_period]. by apply normalize_limited.
  - destruct tg as [pa ch s b]. cbn [bandwidth] in *. destruct Htg as [Hp Hq].
    rewrite get_period by done. destruct (decide (quota b = RUNTIME_INF)) as [Hinf|Hne].
    + unfold share, tg_get_cfs_quota. cbn [bandwidth]. rewrite !(decide_True (P := quota b = RUNTIME_INF)) by done.
      by rewrite decide_True by (rewrite runtime_inf; by left).
    + destruct Hq as [|Hq]; [done|]. rewrite get_quota by done. pose proof (usecs _ _ Hp Hq).
      rewrite !wrapu64_small by lia. apply normalize_limited; [|done]. split; [done|by right].
Qed.
(** ** Only the hierarchical quotas change *)

Definition forget_tg (tg : task_group) : task_group :=
  set_bandwidth (Bw (period (bandwidth tg)) (quota (bandwidth tg)) 0) tg.
Definition forget (k : groups) : groups :=
  Groups (forget_tg <$> tgs k) (task_groups k) (cfs_rqs k) (ops k).

Definition with_hq (q : Z) (tg : task_group) : task_group :=
  set_bandwidth (Bw (period (bandwidth tg)) (quota (bandwidth tg)) q) tg.

(** Equal apart from the hierarchical quotas. *)
Definition same (k k0 : groups) : Prop := forget_tg <$> tgs k = forget_tg <$> tgs k0.

Lemma forget_same k k0 : forget k = forget k0 → same k k0.
Proof. intros E. by apply (f_equal tgs) in E. Qed.

Lemma forget_put g tg q k : tgs k !! g = Some tg → forget (put g (with_hq q tg) k) = forget k.
Proof.
  intros Hg. unfold forget, put. cbn [tgs task_groups cfs_rqs ops]. f_equal.
  rewrite fmap_insert. apply insert_id. rewrite lookup_fmap, Hg. done.
Qed.

Lemma forget_lookup k k0 g tg :
  same k k0 → tgs k !! g = Some tg → ∃ tg0, tgs k0 !! g = Some tg0 ∧ forget_tg tg = forget_tg tg0.
Proof.
  intros E Hg. apply (f_equal (λ m : gmap Z task_group, m !! g)) in E.
  rewrite !lookup_fmap, Hg in E. destruct (tgs k0 !! g) as [tg0|]; [|done].
  exists tg0. split; [done|]. by apply (inj Some (forget_tg tg) (forget_tg tg0)) in E.
Qed.

Lemma forget_shape k k0 : same k k0 → shape k = shape k0.
Proof.
  intros E. apply (f_equal (fmap (λ tg, (parent tg, children tg)))) in E.
  rewrite <- !map_fmap_compose in E. done.
Qed.

Lemma forget_limit k k0 g p q : same k k0 → ∀ h, limit_with g p q k h = limit_with g p q k0 h.
Proof.
  intros E h. apply (f_equal (λ m : gmap Z task_group, m !! h)) in E. rewrite !lookup_fmap in E.
  unfold limit_with, limit. destruct (tgs k !! h) as [[? ? ? []]|], (tgs k0 !! h) as [[? ? ? []]|]; simplify_eq/=; done.
Qed.

Definition bandwidths_ok (k : groups) : Prop :=
  ∀ g tg, tgs k !! g = Some tg → bandwidth_ok (bandwidth tg).

Lemma forget_ok k k0 : same k k0 → bandwidths_ok k0 → bandwidths_ok k.
Proof.
  intros E Hok g tg Hg. destruct (forget_lookup _ _ _ _ E Hg) as (tg0 & Hg0 & Ef).
  specialize (Hok _ _ Hg0). destruct tg as [? ? ? []], tg0 as [? ? ? []]. by injection Ef as -> -> -> -> ->.
Qed.
(** ** The check visits the tree *)

Section check.
Context (Hv1 : cgroup_subsys_on_dfl = false).
Context (g0 p0 q0 : Z) (Hok : bandwidth_ok (Bw p0 q0 0)).
Context (k0 : groups) (Hk0 : bandwidths_ok k0).

Definition check : tg_visitor := tg_cfs_schedulable_down (data g0 p0 q0).
Definition lim : Z → option Z := limit_with g0 p0 q0 k0.

Definition inherit (a b : option Z) : option Z := match a with Some x => Some x | None => b end.
Definition in_range (a : option Z) : Prop := match a with Some x => 0 ≤ x < 2^63 | None => True end.

Lemma lim_range g : in_range (lim g).
Proof.
  assert (∀ (pa : option Z) p q, bandwidth_ok (Bw p q 0) → in_range (_ ← pa; share p q)) as Hr.
  { intros [pa|] p q Hb; [|done]. simpl. unfold in_range. case_match eqn:Es; [|done]. by eapply share_range. }
  unfold lim, limit_with, limit. case_decide; destruct (tgs k0 !! g) as [tg|] eqn:E; try done;
    apply Hr; [done|by apply Hk0 in E as []].
Qed.

Lemma check_keeps_shape : keeps_shape check.
Proof.
  clear Hv1. intros g k r k' E. unfold check, tg_cfs_schedulable_down in E.
  assert (∀ q, set_hierarchical g q k = Ok (r, k') → shape k' = shape k) as Hset.
  { intros q. unfold set_hierarchical, get. destruct (tgs k !! g) eqn:Eg; [|done]. intros [= _ <-].
    by apply forget_shape, forget_same, (forget_put _ _ _ _ Eg). }
  unfold get in E. destruct (tgs k !! g); simpl in E; [|done].
  destruct (parent t); simpl in E; [|by eapply Hset].
  destruct (tgs k !! _); simpl in E; [|done]. repeat case_match; try (by eapply Hset); naive_solver.
Qed.

Lemma nop_keeps_shape : keeps_shape tg_nop.
Proof. by intros g k r k' [= _ ->]. Qed.

Lemma check_step g k p inh :
  forget k = forget k0 →
  (∃ l, shape k !! g = Some (Some p, l)) →
  (∃ ptg, tgs k !! p = Some ptg ∧ hierarchical_quota (bandwidth ptg) = default (-1) inh) →
  in_range inh →
  ∃ tg, tgs k !! g = Some tg ∧
  check g k = if decide (within (lim g) inh)
              then Ok (0, put g (with_hq (default (-1) (inherit (lim g) inh)) tg) k)
              else Ok (- EINVAL, k).
Proof.
  intros Hk%forget_same [l Hg] (ptg & Hp & Hq) Hr.
  destruct (shape_lookup _ _ _ _ Hg) as (tg & Htg & Hpa & _). exists tg. split; [done|].
  pose proof (lim_range g) as Hlr.
  assert (lim g = if decide (g = g0) then share p0 q0
                  else share (period (bandwidth tg)) (quota (bandwidth tg))) as El.
  { unfold lim. rewrite <- (forget_limit _ _ _ _ _ Hk). unfold limit_with, limit. rewrite Htg. simpl.
    rewrite Hpa. done. }
  unfold check, tg_cfs_schedulable_down, get. rewrite Htg. simpl. rewrite Hpa, Hp, Hv1. simpl.
  rewrite normalize_ok, <- El, Hq by (done || by eapply forget_ok).
  unfold set_hierarchical, get. rewrite Htg. simpl. rewrite runtime_inf.
  destruct (lim g) as [x|]; simpl in *.
  - rewrite (wrap64_small x), (wrapu64_small x), decide_False by lia.
    destruct inh as [y|]; simpl in *.
    + rewrite wrapu64_small by lia. destruct (decide (x ≤ y)).
      * by rewrite decide_False by lia.
      * by rewrite decide_True by lia.
    + done.
  - by destruct inh.
Qed.

(** The hierarchical quota of [p]. *)
Definition has_hq (k : groups) (p : Z) (inh : option Z) : Prop :=
  ∃ ptg, tgs k !! p = Some ptg ∧ hierarchical_quota (bandwidth ptg) = default (-1) inh.

Definition verdict (b : bool) : Z := if b then 0 else - EINVAL.

(** What a visit of groups below [p] does. *)
Definition checks (l : list Z) (b : bool) (r : res (Z * groups)) (k : groups) : Prop :=
  ∃ k', r = Ok (verdict b, k') ∧ forget k' = forget k0 ∧ ∀ h, h ∉ l → tgs k' !! h = tgs k !! h.

Lemma check_list p inh l k :
  Forall (λ t, ∀ k, holds (shape k0) (Some p) t → NoDup (nodes t) → p ∉ nodes t →
    forget k = forget k0 → has_hq k p inh →
    checks (nodes t) (admissible lim inh t) (visit check tg_nop t k) k) l →
  Forall (holds (shape k0) (Some p)) l → NoDup (l ≫= nodes) → p ∉ l ≫= nodes →
  forget k = forget k0 → has_hq k p inh →
  checks (l ≫= nodes) (forallb (admissible lim inh) l) (visits check tg_nop l k) k.
Proof.
  intros Hl Hholds. revert k. induction Hl as [|t l Ht _ IH]; intros k Hn Hp Hk Hq; [by exists k|].
  apply Forall_cons in Hholds as [Ht' Hl]. rewrite bind_cons in Hn, Hp |- *.
  pose proof Hn as Hn'. apply NoDup_app in Hn' as (Hn1 & _ & Hn2).
  destruct (Ht k) as (k' & E & Hk' & Hsame); [done|done|set_solver|done|done|].
  rewrite visit_cons, E. simpl. destruct (admissible lim inh t); simpl.
  - destruct (IH Hl k') as (k2 & E2 & Hk2 & Hsame2); [done|set_solver|done| |].
    { destruct Hq as (ptg & Hptg & Hhq). exists ptg. rewrite Hsame by set_solver. done. }
    exists k2. split; [done|]. split; [done|]. intros h Hh. rewrite Hsame2, Hsame by set_solver. done.
  - exists k'. split; [done|]. split; [done|]. intros h Hh. apply Hsame. set_solver.
Qed.

Lemma check_tree t : ∀ p inh k,
  holds (shape k0) (Some p) t → NoDup (nodes t) → p ∉ nodes t →
  forget k = forget k0 → has_hq k p inh → in_range inh →
  checks (nodes t) (admissible lim inh t) (visit check tg_nop t k) k.
Proof.
  induction t as [g subs IH] using tree_ind'. intros p inh k [Hg Hsubs] Hn Hp Hk Hq Hr.
  rewrite holds_Forall in Hsubs. simpl in Hn, Hp. apply NoDup_cons in Hn as [Hgn Hn].
  destruct (check_step g k p inh) as (tg & Htg & Estep); [done| |done|done|].
  { rewrite (forget_shape _ _ (forget_same _ _ Hk)). eauto. }
  rewrite visit_node, Estep. cbn [admissible nodes].
  destruct (decide (within (lim g) inh)) as [Hw|Hw].
  - rewrite bool_decide_eq_true_2 by done.
    destruct (check_list g (inherit (lim g) inh) subs
                (put g (with_hq (default (-1) (inherit (lim g) inh)) tg) k)) as (k' & E & Hk' & Hsame);
      [|done|done|done|by rewrite (forget_put _ _ _ _ Htg)| |].
    + eapply Forall_impl; [exact IH|]. intros t Ht k1 E1 E2 E3 E4 E5. apply (Ht g); try done.
      pose proof (lim_range g). unfold inherit. by destruct (lim g).
    + eexists. split; [apply lookup_insert_eq|done].
    + simpl. rewrite E. exists k'. simpl. unfold verdict, inherit in *.
      split; [by destruct (forallb _ _)|]. split; [done|]. intros h Hh.
      rewrite Hsame by set_solver. apply lookup_insert_ne. set_solver.
  - rewrite bool_decide_eq_false_2 by done. exists k. done.
Qed.

(** The top group has no limit. *)
Lemma check_root t :
  holds (shape k0) None t → NoDup (nodes t) →
  ∃ k', visit check tg_nop t k0 = Ok (verdict (admissible lim None t), k') ∧ forget k' = forget k0.
Proof.
  destruct t as [g subs]. intros [Hg Hsubs] Hn. rewrite holds_Forall in Hsubs. simpl in Hn.
  apply NoDup_cons in Hn as [Hgn Hn]. destruct (shape_lookup _ _ _ _ Hg) as (tg & Htg & Hpa & _).
  assert (lim g = None) as El.
  { unfold lim, limit_with, limit. rewrite Htg. simpl. rewrite Hpa. by case_decide. }
  rewrite visit_node. unfold check at 1, tg_cfs_schedulable_down, set_hierarchical, get.
  rewrite Htg. simpl. rewrite Hpa, El. simpl. rewrite runtime_inf.
  destruct (check_list g None subs (put g (with_hq (-1) tg) k0)) as (k' & E & Hk' & _);
    [|done|done|done|by apply forget_put| |].
  - apply Forall_forall. intros t Ht k E1 E2 E3 E4 E5. by apply (check_tree t g).
  - eexists. split; [apply lookup_insert_eq|done].
  - exists k'. split; [|done]. change (wrap64 (2^64 - 1)) with (-1). unfold with_hq in E.
    rewrite E. simpl. by destruct (forallb _ _).
Qed.
End check.
(** ** Setting the bandwidth of a group *)

Lemma schedulable_verdict g p q k :
  cgroup_subsys_on_dfl = false → is_tree k → bandwidths_ok k → bandwidth_ok (Bw p q 0) →
  ∃ b k', __cfs_schedulable g p q k = Ok (verdict b, k') ∧ forget k' = forget k ∧
    (b = true ↔ nested (limit_with g p q k) k).
Proof.
  intros Hv1 (t & Hroot & Hn & Ht & Hout) Hb Hpq.
  destruct (check_root Hv1 g p q Hpq k Hb t Ht Hn) as (k' & E & Hk').
  exists (admissible (lim g p q k) None t), k'. split; [|split; [done|]].
  - unfold __cfs_schedulable. rewrite walk_from_root, <- Hroot.
    change (walk_tg_tree_from (check g p q) tg_nop (root_of t) k = Ok (verdict (admissible (lim g p q k) None t), k')).
    assert (keeps_shape (check g p q)) as Hkeep by (by eapply check_keeps_shape).
    rewrite (walk_tree _ _ Hkeep nop_keeps_shape k None t Ht Hn). exact E.
  - rewrite admissible_pairs. unfold nested, lim. split.
    + intros [_ Hp] a b Hab. apply Hp. apply above_link in Hab. eapply pairs_iff; [done| |done].
      assert (∃ c, link (shape k) a c) as (c & pa & l & Hl & Hc) by (destruct Hab; eauto).
      apply shape_lookup in Hl as (tg & Htg & _ & <-).
      destruct (decide (a ∈ nodes t)) as [|Hna]; [done|]. rewrite (Hout a tg Htg Hna) in Hc. set_solver.
    + intros Hall. split; [by intros; destruct (limit_with _ _ _ _ _)|].
      intros a b Hab. apply Hall, above_link. by eapply pairs_link.
Qed.

Lemma for_each_cpu_spec g enabled cpus k :
  (∀ cpu, cpu ∈ cpus → is_Some (cfs_rqs k !! (g, cpu))) →
  ∃ k', for_each_cpu cpus (update_cfs_rq g enabled) k = Ok k' ∧
    tgs k' = tgs k ∧ task_groups k' = task_groups k ∧
    (∀ cpu, cpu ∈ cpus → ∃ b, cfs_rqs k' !! (g, cpu) = Some (CfsRq enabled 0 b)) ∧
    (∀ x, is_Some (cfs_rqs k !! x) → is_Some (cfs_rqs k' !! x)) ∧
    (∀ cpu q, cpu ∉ cpus → cfs_rqs k !! (g, cpu) = Some q → cfs_rqs k' !! (g, cpu) = Some q) ∧
    (∀ h cpu, h ≠ g → cfs_rqs k' !! (h, cpu) = cfs_rqs k !! (h, cpu)) ∧
    ∃ l, ops k' = ops k ++ l ∧ Forall (λ o, ∃ cpu, o = unthrottle_cfs_rq g cpu) l.
Proof.
  revert k. induction cpus as [|cpu cpus IH]; intros k Hall.
  { exists k. repeat split; try done; [set_solver|]. exists []. by rewrite app_nil_r. }
  destruct (Hall cpu) as [q Hq]; [set_solver|]. cbn [for_each_cpu].
  destruct (update_cfs_rq g enabled cpu k) as [k1| |] eqn:Ek; unfold update_cfs_rq in Ek; rewrite Hq in Ek;
    [|done..]. injection Ek as Ek. cbn [mbind res_bind].
  assert (cfs_rqs k1 = <[(g, cpu) := CfsRq enabled 0 (throttled q)]> (cfs_rqs k) ∧ tgs k1 = tgs k ∧
    task_groups k1 = task_groups k ∧
    ops k1 = ops k ++ if throttled q then [unthrottle_cfs_rq g cpu] else []) as (Er & Et & Eg & Eo).
  { subst k1. destruct (throttled q); simpl; rewrite ?app_nil_r; done. }
  clear Ek. assert (∀ x, is_Some (cfs_rqs k !! x) → is_Some (cfs_rqs k1 !! x)) as Hsome.
  { intros x Hx. rewrite Er. apply lookup_insert_is_Some'. by right. }
  destruct (IH k1) as (k' & E & Et' & Eg' & Hset & Hsome' & Hkeep & Hother & l & Hl & Hun).
  { intros c Hc. apply Hsome, Hall. set_solver. }
  exists k'. split; [exact E|]. split; [congruence|]. split; [congruence|].
  split; [|split; [by auto|split; [|split]]].
  - intros c [->|Hc]%elem_of_cons; [|by apply Hset].
    destruct (decide (cpu ∈ cpus)); [by apply Hset|]. exists (throttled q).
    apply Hkeep; [done|]. rewrite Er. apply lookup_insert_eq.
  - intros c q' Hc Hq'. apply Hkeep; [set_solver|]. rewrite Er, lookup_insert_ne; [done|set_solver].
  - intros h c Hh. rewrite Hother, Er, lookup_insert_ne by (done || congruence). done.
  - exists ((if throttled q then [unthrottle_cfs_rq g cpu] else []) ++ l). rewrite Hl, Eo, app_assoc.
    split; [done|]. apply Forall_app. split; [|done]. destruct (throttled q); repeat constructor. eauto.
Qed.
(** ** How often the controller is in use *)

Definition usage_of (o : bw_op) : Z :=
  match o with cfs_bandwidth_usage_inc => 1 | cfs_bandwidth_usage_dec => -1 | _ => 0 end.
Definition usage (l : list bw_op) : Z := foldr (λ o n, usage_of o + n) 0 l.

Definition is_limited (x : Z * task_group) : Prop := quota (bandwidth x.2) ≠ RUNTIME_INF.
Definition count (m : gmap Z task_group) : Z := Z.of_nat (size (filter is_limited m)).
Definition one (b : bool) : Z := if b then 1 else 0.
Definition limited_tg (tg : task_group) : bool := negb (bool_decide (quota (bandwidth tg) = RUNTIME_INF)).

Lemma usage_app l1 l2 : usage (l1 ++ l2) = usage l1 + usage l2.
Proof. induction l1 as [|o l1 IH]; simpl; [done|]. unfold usage in *. lia. Qed.

Lemma usage_unthrottle g l : Forall (λ o, ∃ cpu, o = unthrottle_cfs_rq g cpu) l → usage l = 0.
Proof. by induction 1 as [|o l [cpu ->] _ IH]. Qed.

Lemma count_delete g m tg : m !! g = Some tg → count (delete g m) = count m - one (limited_tg tg).
Proof.
  intros Hg. unfold count, limited_tg, one. rewrite map_filter_delete.
  case_bool_decide as Hq; simpl.
  - rewrite delete_id; [lia|]. apply map_lookup_filter_None. right. intros x Hx Hl. simplify_eq. by apply Hl.
  - assert (filter is_limited m !! g = Some tg) as Hf by (by apply map_lookup_filter_Some).
    rewrite map_size_delete_Some by eauto.
    assert (size (filter is_limited m) ≠ 0%nat); [|lia].
    intros E%map_size_empty_inv. rewrite E in Hf. by rewrite lookup_empty in Hf.
Qed.

Lemma count_insert g m tg : m !! g = None → count (<[g := tg]> m) = count m + one (limited_tg tg).
Proof.
  intros Hg. unfold count, limited_tg, one. case_bool_decide as Hq; simpl.
  - rewrite map_filter_insert_False by (intros Hl; by apply Hl). rewrite delete_id by done. lia.
  - rewrite map_filter_insert_True by done. rewrite map_size_insert_None; [lia|].
    apply map_lookup_filter_None. by left.
Qed.

Lemma count_replace g m tg tg' :
  m !! g = Some tg → count (<[g := tg']> m) = count m + one (limited_tg tg') - one (limited_tg tg).
Proof.
  intros Hg. rewrite <- insert_delete_eq, count_insert by apply lookup_delete_eq.
  rewrite (count_delete g m tg) by done. lia.
Qed.

Lemma count_forget m : count (forget_tg <$> m) = count m.
Proof. unfold count. rewrite map_filter_fmap, map_size_fmap. done. Qed.
(** ** The invariant of the controller *)

Record group_ok (k : groups) : Prop := {
  ok_tree : is_tree k;
  ok_bandwidths : bandwidths_ok k;
  ok_nested : nested (limit k) k;
  ok_queues : ∀ g, is_Some (tgs k !! g) → g ≠ root_task_group →
    ∀ cpu, cpu ∈ online_cpus → is_Some (cfs_rqs k !! (g, cpu));
  ok_usage : count (tgs k) ≤ usage (ops k);
}.

(** What [tg_set_cfs_bandwidth] accepts. *)
Definition acceptable (g p q : Z) (k : groups) : Prop :=
  g ≠ root_task_group ∧ bandwidth_ok (Bw p q 0) ∧ nested (limit_with g p q k) k.

Lemma above_shape k k' a b : shape k = shape k' → above k a b ↔ above k' a b.
Proof. intros E. by rewrite !above_link, E. Qed.

Lemma nested_ext l l' k k' :
  shape k = shape k' → (∀ g, l g = l' g) → nested l k → nested l' k'.
Proof. intros E El Hn a b Hab. rewrite <- !El. apply Hn. by rewrite above_shape. Qed.

Lemma tree_shape k k' : shape k = shape k' → is_tree k → is_tree k'.
Proof.
  intros E (t & ? & ? & ? & Hout). exists t. rewrite <- E. repeat split; try done.
  intros g tg Hg Hn. assert (shape k' !! g = Some (parent tg, children tg)) as Hs.
  { unfold shape. by rewrite lookup_fmap, Hg. }
  rewrite <- E in Hs. apply shape_lookup in Hs as (tg0 & Hg0 & _ & <-). by eapply Hout.
Qed.

Lemma limit_limit_with k g tg : tgs k !! g = Some tg →
  ∀ h, limit_with g (period (bandwidth tg)) (quota (bandwidth tg)) k h = limit k h.
Proof. intros Hg h. unfold limit_with. case_decide as Eh; [|done]. subst h. unfold limit. by rewrite Hg. Qed.

Lemma limit_same k k' : same k k' → ∀ h, limit k h = limit k' h.
Proof.
  intros E h. apply (f_equal (λ m : gmap Z task_group, m !! h)) in E. rewrite !lookup_fmap in E.
  unfold limit. destruct (tgs k !! h) as [[? ? ? []]|], (tgs k' !! h) as [[? ? ? []]|]; simplify_eq/=; done.
Qed.

Lemma same_is_Some k k' g : same k k' → is_Some (tgs k !! g) ↔ is_Some (tgs k' !! g).
Proof.
  intros E. apply (f_equal (λ m : gmap Z task_group, m !! g)) in E. rewrite !lookup_fmap in E.
  destruct (tgs k !! g), (tgs k' !! g); naive_solver.
Qed.

Lemma same_group_ok k k' :
  same k k' → cfs_rqs k = cfs_rqs k' → ops k = ops k' → group_ok k → group_ok k'.
Proof.
  intros E Er Eo [Ht Hb Hn Hq Hu]. pose proof (forget_shape _ _ E) as Es. split.
  - by eapply tree_shape.
  - eapply (forget_ok _ k); [by symmetry|done].
  - eapply nested_ext; [done| |done]. by apply limit_same.
  - intros g Hg. rewrite <- Er. apply Hq. by rewrite same_is_Some.
  - rewrite <- Eo, <- (count_forget (tgs k')), <- E, count_forget. done.
Qed.

Lemma refused g p q k : 
  cgroup_subsys_on_dfl = false → group_ok k →
  (g = root_task_group ∨ ¬ bandwidth_ok (Bw p q 0)) →
  tg_set_cfs_bandwidth g p q k = Ok (- EINVAL, k).
Proof.
  intros Hv1 Hok Hr. unfold tg_set_cfs_bandwidth. destruct (decide (g = root_task_group)); [done|].
  destruct Hr as [|Hr]; [done|]. unfold min_cfs_quota_period, max_cfs_quota_period.
  repeat (destruct (decide _); [done|]). exfalso. apply Hr. split; simpl; [lia|].
  destruct (decide (q = RUNTIME_INF)); [by left|right; lia].
Qed.
Lemma within_bounds g p q k :
  g ≠ root_task_group → bandwidth_ok (Bw p q 0) →
  tg_set_cfs_bandwidth g p q k =
    ('(ret, k) ← __cfs_schedulable g p q k;
     if decide (ret ≠ 0) then Ok (ret, k)
     else
       tg ← get k g;
       let b := bandwidth tg in
       let enabled := negb (bool_decide (q = RUNTIME_INF)) in
       let was_enabled := negb (bool_decide (quota b = RUNTIME_INF)) in
       let k := if enabled && negb was_enabled then emit [cfs_bandwidth_usage_inc] k else k in
       let k := put g (set_bandwidth (Bw (wrap64 p) q (hierarchical_quota b)) tg) k in
       let k := emit (refill_cfs_bandwidth_runtime g ::
                      if enabled then [start_cfs_bandwidth g] else []) k in
       k ← for_each_cpu online_cpus (update_cfs_rq g enabled) k;
       Ok (0, if was_enabled && negb enabled then emit [cfs_bandwidth_usage_dec] k else k)).
Proof.
  intros Hg [Hp Hq]. simpl in Hp, Hq. unfold tg_set_cfs_bandwidth, min_cfs_quota_period, max_cfs_quota_period.
  rewrite (decide_False (P := g = root_task_group)) by done.
  rewrite decide_False; [|rewrite runtime_inf in Hq; unfold NSEC_PER_MSEC in *; lia].
  rewrite decide_False by lia. rewrite decide_False by lia. done.
Qed.

(** The state after an accepted bandwidth, from the state [k1] of the check. *)
Lemma take_bandwidth g p q k1 tg1 :
  bandwidth_ok (Bw p q 0) → tgs k1 !! g = Some tg1 →
  (∀ cpu, cpu ∈ online_cpus → is_Some (cfs_rqs k1 !! (g, cpu))) →
  let enabled := negb (bool_decide (q = RUNTIME_INF)) in
  let was_enabled := limited_tg tg1 in
  let k := if enabled && negb was_enabled then emit [cfs_bandwidth_usage_inc] k1 else k1 in
  let tg2 := set_bandwidth (Bw (wrap64 p) q (hierarchical_quota (bandwidth tg1))) tg1 in
  let k := put g tg2 k in
  let k := emit (refill_cfs_bandwidth_runtime g ::
                 if enabled then [start_cfs_bandwidth g] else []) k in
  ∃ k2, (k ← for_each_cpu online_cpus (update_cfs_rq g enabled) k;
         Ok (0, if was_enabled && negb enabled then emit [cfs_bandwidth_usage_dec] k else k)) = Ok (0, k2) ∧
    tgs k2 = <[g := tg2]> (tgs k1) ∧
    (∀ cpu, cpu ∈ online_cpus → ∃ b, cfs_rqs k2 !! (g, cpu) = Some (CfsRq enabled 0 b)) ∧
    (∀ x, is_Some (cfs_rqs k1 !! x) → is_Some (cfs_rqs k2 !! x)) ∧
    usage (ops k2) = usage (ops k1) + one enabled - one was_enabled.
Proof.
  intros Hpq Hg Hrq enabled was k tg2 k2 k3.
  destruct (for_each_cpu_spec g enabled online_cpus k3) as (k4 & E & Et & _ & Hset & Hsome & _ & _ & l & Hl & Hun).
  { intros cpu Hcpu. subst k3 k2 k. destruct (enabled && negb was); by apply Hrq. }
  rewrite E. simpl. eexists. split; [done|].
  assert (tgs k3 = <[g := tg2]> (tgs k1) ∧ cfs_rqs k3 = cfs_rqs k1 ∧
    usage (ops k3) = usage (ops k1) + one (enabled && negb was)) as (E3 & Er & Eu).
  { subst k3 k2 k. unfold emit, put. cbn [ops tgs cfs_rqs]. rewrite usage_app.
    assert (usage (refill_cfs_bandwidth_runtime g :: (if enabled then [start_cfs_bandwidth g] else [])) = 0) as ->
      by (by destruct enabled).
    destruct (enabled && negb was); cbn [ops tgs cfs_rqs one]; rewrite ?usage_app; cbn [usage foldr usage_of];
      (split; [done|split; [done|lia]]). }
  apply usage_unthrottle in Hun.
  assert (usage (ops k4) = usage (ops k1) + one (enabled && negb was)) as Eu4 by (rewrite Hl, usage_app; lia).
  split; [|split; [|split]].
  - destruct (was && negb enabled); simpl; congruence.
  - intros cpu Hcpu. destruct (was && negb enabled); simpl; by apply Hset.
  - intros x Hx. destruct (was && negb enabled); simpl; apply Hsome; by rewrite Er.
  - destruct enabled, was; simpl in *; rewrite ?usage_app; cbn [usage foldr usage_of]; lia.
Qed.

Lemma nested_update g p q k k2 tg h tg2 :
  tgs k !! g = Some tg → same k2 k → tgs k2 !! g = Some tg2 → bandwidth_ok (Bw p q 0) →
  ∀ k3, tgs k3 = <[g := set_bandwidth (Bw (wrap64 p) q h) tg2]> (tgs k2) →
  shape k3 = shape k ∧ (∀ x, limit k3 x = limit_with g p q k x) ∧
  forget_tg <$> tgs k3 = <[g := forget_tg (set_bandwidth (Bw p q 0) tg)]> (forget_tg <$> tgs k).
Proof.
  intros Hg Es Hg2 [Hp _] k3 E3. simpl in Hp.
  assert (wrap64 p = p) as Ew by (apply wrap64_small; unfold NSEC_PER_MSEC, NSEC_PER_SEC in Hp; lia).
  destruct (forget_lookup _ _ _ _ Es Hg2) as (tg' & Hg' & Ef).
  rewrite Hg in Hg'. injection Hg' as <-. assert (parent tg2 = parent tg ∧ children tg2 = children tg ∧ shares tg2 = shares tg) as (E1 & E2 & E3').
  { split; [|split]; [by apply (f_equal parent) in Ef|by apply (f_equal children) in Ef|by apply (f_equal shares) in Ef]. }
  split; [|split].
  - rewrite <- (forget_shape _ _ Es). unfold shape. rewrite E3, fmap_insert. apply insert_id.
    rewrite lookup_fmap, Hg2. done.
  - intros x. rewrite <- (forget_limit _ _ _ _ _ Es). unfold limit_with, limit. rewrite E3.
    destruct (decide (x = g)) as [->|]; [|by rewrite lookup_insert_ne].
    rewrite lookup_insert_eq, Hg2. simpl. by rewrite Ew.
  - rewrite E3, fmap_insert, Es. f_equal. unfold forget_tg. simpl. unfold set_bandwidth. simpl. congruence.
Qed.
Definition outcome (g p q : Z) (k : groups) (tg : task_group) (r : Z) (k' : groups) : Prop :=
  (r = 0 ∧ acceptable g p q k ∧
   forget_tg <$> tgs k' = <[g := forget_tg (set_bandwidth (Bw p q 0) tg)]> (forget_tg <$> tgs k) ∧
   ∀ cpu, cpu ∈ online_cpus → ∃ b, cfs_rqs k' !! (g, cpu) = Some (CfsRq (negb (bool_decide (q = RUNTIME_INF))) 0 b)) ∨
  (r = - EINVAL ∧ ¬ acceptable g p q k ∧ forget k' = forget k).

#[local] Instance bandwidth_ok_dec b : Decision (bandwidth_ok b).
Proof. unfold bandwidth_ok. apply _. Defined.

Lemma set_bandwidth_outcome g p q k tg :
  cgroup_subsys_on_dfl = false → group_ok k → tgs k !! g = Some tg →
  ∃ r k', tg_set_cfs_bandwidth g p q k = Ok (r, k') ∧ outcome g p q k tg r k' ∧ group_ok k'.
Proof.
  intros Hv1 Hok Hg.
  destruct (decide (g = root_task_group ∨ ¬ bandwidth_ok (Bw p q 0))) as [Hbad|Hgood].
  { exists (- EINVAL), k. split; [by apply refused|]. split; [right|done].
    split; [done|]. split; [|done]. intros (? & ? & _). naive_solver. }
  apply Decidable.not_or in Hgood as [Hroot Hpq%dec_stable].
  destruct (schedulable_verdict g p q k Hv1 (ok_tree _ Hok) (ok_bandwidths _ Hok) Hpq) as (b & k1 & E & Ek & Hb).
  rewrite within_bounds, E by done. cbn [mbind res_bind]. pose proof (forget_same _ _ Ek) as Es.
  assert (ops k1 = ops k ∧ cfs_rqs k1 = cfs_rqs k) as [Eo Er].
  { split; [by apply (f_equal ops) in Ek|by apply (f_equal cfs_rqs) in Ek]. }
  destruct b; simpl.
  - destruct (proj1 (same_is_Some k k1 g (eq_sym Es)) (ltac:(eauto))) as [tg1 Hg1].
    unfold get. rewrite Hg1. cbn [opt mbind res_bind].
    destruct (take_bandwidth g p q k1 tg1 Hpq Hg1) as (k2 & E2 & Et2 & Hset & Hsome & Hu).
    { intros cpu. rewrite Er. by apply (ok_queues _ Hok g). }
    destruct (nested_update g p q k k1 tg _ tg1 Hg Es Hg1 Hpq k2 Et2) as (Esh & El & Ef).
    exists 0, k2. split; [exact E2|]. assert (nested (limit_with g p q k) k) as Hn by by apply Hb.
    split; [left; split; [done|]; split; [by split; [|split]|by split]|]. split.
    + by eapply tree_shape; [|apply (ok_tree _ Hok)].
    + intros h tgh. rewrite Et2, lookup_insert_Some. intros [[<- <-]|[_ Hh]].
      * destruct Hpq as [Hp Hq]. simpl in Hp. split; simpl; [|done].
        rewrite wrap64_small; [done|unfold NSEC_PER_MSEC, NSEC_PER_SEC in Hp; lia].
      * by eapply (forget_ok k1 k Es (ok_bandwidths _ Hok)).
    + eapply nested_ext; [|intros x; symmetry; apply El|exact Hn]. done.
    + intros h Hh Hr cpu Hcpu. apply Hsome. rewrite Er. apply (ok_queues _ Hok); [|done..].
      rewrite Et2, lookup_insert_is_Some' in Hh. destruct Hh as [<-|Hh]; [by eauto|].
      by rewrite (same_is_Some k k1) by done.
    + rewrite Hu, Eo, Et2, (count_replace g _ tg1) by done.
      rewrite <- (count_forget (tgs k1)), Es, count_forget. unfold limited_tg at 1. simpl.
      pose proof (ok_usage _ Hok). lia.
  - exists (- EINVAL), k1. split; [done|]. split; [|by eapply same_group_ok; [..|exact Hok]].
    right. split; [done|]. split; [|done]. intros (_ & _ & Hn). by apply Hb in Hn.
Qed.
End limits.
