(* ===== verification/GroupsProofs.v ===== *)
(** The task groups: the walk of core.c is a traversal of a tree, the
    bandwidth controller keeps the limits of the groups nested, and what is
    written to the files of the control group is read back. *)
From Stdlib Require Import Sorted.
From S2P Require Import Prelude Sched Groups GroupsTree GroupsLimits.
Local Open Scope Z_scope.

Section limits.
Context `{sched_headers} `{group_headers} `{!group_headers_ok}.

(** ** Groups come and go *)

(** The tree with the leaf [g] as the first child of [p]. *)
Fixpoint add_leaf (p g : Z) (t : tree) : tree :=
  match t with
  | Node h subs => Node h ((if decide (h = p) then [Node g []] else []) ++ (add_leaf p g <$> subs))
  end.

(** The tree without the leaf [g]. *)
Fixpoint remove_leaf (g : Z) (t : tree) : tree :=
  match t with
  | Node h subs => Node h (foldr (λ t l, if decide (root_of t = g) then l else remove_leaf g t :: l) [] subs)
  end.

Lemma root_add p g t : root_of (add_leaf p g t) = root_of t.
Proof. by destruct t. Qed.

Lemma roots_add p g (l : list tree) : root_of <$> (add_leaf p g <$> l) = root_of <$> l.
Proof. rewrite <- list_fmap_compose. apply list_fmap_ext. intros. apply root_add. Qed.

Lemma holds_add m p g q t l qp :
  holds m q t → g ∉ nodes t → m !! p = Some (qp, l) → g ≠ p →
  holds (<[p := (qp, g :: l)]> (<[g := (Some p, [])]> m)) q (add_leaf p g t).
Proof.
  intros Ht Hg Hp Hgp. revert q Ht Hg. induction t as [h subs IH] using tree_ind'.
  intros q [Hh Hsubs] Hg. rewrite Forall_forall in IH. rewrite holds_Forall, Forall_forall in Hsubs.
  simpl in Hg. rewrite elem_of_cons, list_elem_of_bind in Hg. cbn [add_leaf holds].
  rewrite holds_Forall, Forall_app. split; [|split].
  - rewrite fmap_app, roots_add. destruct (decide (h = p)) as [->|Hne].
    + rewrite lookup_insert_eq. rewrite Hp in Hh. by injection Hh as -> ->.
    + by rewrite !lookup_insert_ne by naive_solver.
  - destruct (decide (h = p)) as [->|]; [|done]. constructor; [|done]. split; [|done].
    rewrite lookup_insert_ne, lookup_insert_eq by done. done.
  - apply Forall_fmap, Forall_forall. intros t Ht. simpl. apply IH; [done|by apply Hsubs|naive_solver].
Qed.

Lemma add_out p g t : p ∉ nodes t → add_leaf p g t = t.
Proof.
  induction t as [h subs IH] using tree_ind'. simpl. intros [Hh Hs]%not_elem_of_cons.
  rewrite decide_False by done. f_equal. simpl. induction IH as [|t l Ht _ IHl]; [done|].
  rewrite bind_cons in Hs. apply not_elem_of_app in Hs as [Ht' Hl]. csimpl. by rewrite Ht, IHl.
Qed.

Lemma add_out_list p g (l : list tree) : p ∉ l ≫= nodes → add_leaf p g <$> l = l.
Proof.
  induction l as [|t l IH]; [done|]. rewrite bind_cons. intros [Ht Hl]%not_elem_of_app. csimpl.
  by rewrite add_out, IH.
Qed.

Lemma nodes_add p g t :
  NoDup (nodes t) → p ∈ nodes t → nodes (add_leaf p g t) ≡ₚ g :: nodes t.
Proof.
  induction t as [h subs IH] using tree_ind'. simpl. intros [Hh Hn]%NoDup_cons Hp.
  destruct (decide (h = p)) as [->|Hne].
  - rewrite add_out_list by done. simpl. apply perm_swap.
  - simpl. apply elem_of_cons in Hp as [->|Hp]; [done|]. rewrite (perm_swap h g). apply perm_skip.
    clear Hh. induction IH as [|t l Ht _ IHl]; [by apply elem_of_nil in Hp|].
    rewrite bind_cons in Hn, Hp |- *. csimpl.
    apply NoDup_app in Hn as (Hn1 & Hn2 & Hn3). apply elem_of_app in Hp as [Hp|Hp].
    + rewrite Ht, add_out_list by (done || by apply Hn2). done.
    + rewrite add_out by (intros Hp'; by apply (Hn2 p)). rewrite IHl by done. symmetry. apply Permutation_middle.
Qed.
Lemma root_remove g t : root_of (remove_leaf g t) = root_of t.
Proof. by destruct t. Qed.

Definition remove_list (g : Z) (l : list tree) : list tree :=
  foldr (λ t l, if decide (root_of t = g) then l else remove_leaf g t :: l) [] l.

Lemma roots_remove g l : root_of <$> remove_list g l = filter (.≠ g) (root_of <$> l).
Proof.
  induction l as [|t l IH]; [done|]. simpl. destruct (decide (root_of t = g)) as [E|E].
  - by rewrite filter_cons_False by naive_solver.
  - rewrite filter_cons_True by done. csimpl. by rewrite root_remove, IH.
Qed.

Lemma filter_id (g : Z) (l : list Z) : g ∉ l → filter (.≠ g) l = l.
Proof.
  induction l as [|x l IH]; [done|]. intros [Hx Hl]%not_elem_of_cons.
  by rewrite filter_cons_True, IH by done.
Qed.

Lemma in_remove_list g l t : t ∈ remove_list g l → ∃ t', t' ∈ l ∧ root_of t' ≠ g ∧ t = remove_leaf g t'.
Proof.
  induction l as [|x l IH]; simpl; [by intros ?%elem_of_nil|].
  destruct (decide (root_of x = g)) as [E|E]; [set_solver|]. rewrite elem_of_cons. set_solver.
Qed.

Lemma holds_remove m p g q t l qp :
  holds m q t → m !! g = Some (Some p, []) → m !! p = Some (qp, l) →
  holds (<[p := (qp, filter (.≠ g) l)]> m) q (remove_leaf g t).
Proof.
  intros Ht Hg Hp. revert q Ht. induction t as [h subs IH] using tree_ind'. intros q [Hh Hsubs].
  rewrite Forall_forall in IH. rewrite holds_Forall, Forall_forall in Hsubs. cbn [remove_leaf holds].
  fold (remove_list g subs). rewrite holds_Forall, roots_remove. split.
  - destruct (decide (h = p)) as [->|Hne].
    + rewrite lookup_insert_eq. rewrite Hp in Hh. by injection Hh as -> ->.
    + rewrite lookup_insert_ne, filter_id; [done| |done].
      intros (t & Et & Ht)%list_elem_of_fmap. apply Hsubs, holds_root in Ht as [l' Hl'].
      rewrite <- Et in Hl'. simplify_eq.
  - apply Forall_forall. intros t (t' & Ht & _ & ->)%in_remove_list. apply IH; [done|by apply Hsubs].
Qed.

Lemma nodes_remove g t : sublist (nodes (remove_leaf g t)) (nodes t).
Proof.
  induction t as [h subs IH] using tree_ind'. simpl. apply sublist_skip. fold (remove_list g subs).
  induction IH as [|t l Ht _ IHl]; [done|]. rewrite bind_cons. simpl.
  destruct (decide (root_of t = g)); [by apply sublist_inserts_l|].
  rewrite bind_cons. by apply sublist_app.
Qed.

Lemma still_in m q t g h p :
  holds m q t → m !! g = Some (Some p, []) → h ∈ nodes t → h ≠ g → h ∈ nodes (remove_leaf g t).
Proof.
  intros Ht Hg. revert q Ht. induction t as [x subs IH] using tree_ind'. intros q [Hx Hsubs] Hh Hne.
  rewrite Forall_forall in IH. rewrite holds_Forall, Forall_forall in Hsubs. simpl in Hh |- *.
  apply elem_of_cons in Hh as [->|Hh]; [left|right]. fold (remove_list g subs).
  apply list_elem_of_bind in Hh as (t & Hh & Ht). apply list_elem_of_bind.
  destruct (decide (root_of t = g)) as [E|E].
  - specialize (Hsubs t Ht). destruct t as [y l]. simpl in E. subst y. destruct Hsubs as [Hy _].
    rewrite Hg in Hy. injection Hy as _ Hl. symmetry in Hl. apply fmap_nil_inv in Hl as ->. simpl in Hh. set_solver.
  - exists (remove_leaf g t). split; [by eapply IH; eauto|]. clear -Ht E.
    induction subs as [|y l IHl]; [by apply elem_of_nil in Ht|]. simpl.
    apply elem_of_cons in Ht as [->|Ht]; [rewrite decide_False by done; left|].
    destruct (decide _); [|right]; by apply IHl.
Qed.
(** ** The calls of the control group *)

Definition online (k : groups) (g : Z) : Prop := g = root_task_group ∨ above k root_task_group g.

Lemma online_nodes k t g :
  root_of t = root_task_group → holds (shape k) None t → online k g ↔ g ∈ nodes t.
Proof.
  intros Hr Ht. assert (root_task_group ∈ nodes t) as Hroot by (rewrite <- Hr; destruct t; left).
  unfold online. rewrite above_link. split.
  - intros [->|Hab]; [done|]. rewrite <- (pairs_iff _ _ t) in Hab by done. by eapply pairs_nodes.
  - intros [->|Hab]%nodes_root; [by left|right]. rewrite Hr in Hab. by eapply pairs_link.
Qed.

Lemma limit_alone k g tg : tgs k !! g = Some tg → parent tg = None ∨ quota (bandwidth tg) = RUNTIME_INF → limit k g = None.
Proof.
  intros Hg Hn. unfold limit. rewrite Hg. simpl. destruct Hn as [->|Hn]; [done|].
  destruct (parent tg); simpl; [|done]. unfold share. by rewrite decide_True.
Qed.

Lemma offline_links k t g a :
  holds (shape k) None t → (∀ g tg, tgs k !! g = Some tg → g ∉ nodes t → children tg = []) →
  g ∉ nodes t → ¬ is_child k a g ∧ ¬ is_child k g a.
Proof.
  intros Ht Hout Hg. split; intros (tg & Htg & Hin).
  - destruct (decide (a ∈ nodes t)) as [Ha|Ha]; [|rewrite (Hout a tg Htg Ha) in Hin; set_solver].
    apply Hg. apply (pairs_nodes t a). apply (pairs_iff (shape k) None); [done..|].
    apply tc_once. exists (parent tg), (children tg). split; [|done]. unfold shape. by rewrite lookup_fmap, Htg.
  - rewrite (Hout g tg Htg Hg) in Hin. set_solver.
Qed.

Lemma holds_frame m m' q t : (∀ h, h ∈ nodes t → m' !! h = m !! h) → holds m q t → holds m' q t.
Proof.
  revert q. induction t as [h subs IH] using tree_ind'. intros q Hsame [Hh Hsubs]. simpl in Hsame.
  rewrite Forall_forall in IH. rewrite holds_Forall, Forall_forall in Hsubs. simpl. rewrite holds_Forall.
  split; [rewrite Hsame by left; done|]. apply Forall_forall. intros t Ht. apply IH; [done| |by apply Hsubs].
  intros x Hx. apply Hsame. right. apply list_elem_of_bind. eauto.
Qed.

(** A new group that is not yet online. *)
Lemma create_ok k k1 g tg :
  group_ok k → tgs k !! g = None → tgs k1 = <[g := tg]> (tgs k) → ops k1 = ops k →
  (∀ cpu, cpu ∈ online_cpus → is_Some (cfs_rqs k1 !! (g, cpu))) →
  (∀ h cpu, h ≠ g → cfs_rqs k1 !! (h, cpu) = cfs_rqs k !! (h, cpu)) →
  parent tg = None → children tg = [] → bandwidth_ok (bandwidth tg) → quota (bandwidth tg) = RUNTIME_INF →
  group_ok k1.
Proof.
  intros [(t & Hr & Hn & Ht & Hout) Hb Hne Hq Hu] Hg Et Eo Hrq Hother Hpa Hch Hok Hinf.
  assert (g ∉ nodes t) as Hgt.
  { intros Hin. destruct (holds_nodes _ _ _ Ht g Hin) as [[q l] Hl].
    apply shape_lookup in Hl as (x & Hx & _). congruence. }
  assert (shape k1 = <[g := (None, [])]> (shape k)) as Es.
  { unfold shape. rewrite Et, fmap_insert, Hpa, Hch. done. }
  assert (∀ a b, above k1 a b → above k a b) as Hab.
  { intros a b Hab. assert (∀ x y, is_child k1 x y → is_child k x y) as Hc.
    { intros x y (tx & Hx & Hy). rewrite Et, lookup_insert_Some in Hx. destruct Hx as [[<- <-]|[? Hx]].
      - rewrite Hch in Hy. set_solver.
      - by exists tx. }
    induction Hab; [by apply tc_once, Hc|]. eapply tc_l; eauto. }
  split.
  - exists t. split; [done|]. split; [done|]. split.
    + eapply holds_frame; [|exact Ht]. intros h Hh. rewrite Es, lookup_insert_ne; [done|naive_solver].
    + intros h th. rewrite Et, lookup_insert_Some. intros [[<- <-]|[? Hh]]; [done|by eapply Hout].
  - intros h th. rewrite Et, lookup_insert_Some. intros [[<- <-]|[? Hh]]; [done|by eapply Hb].
  - intros a b Hab'%Hab. specialize (Hne a b Hab'). unfold limit in *. rewrite Et.
    destruct (decide (a = g)) as [->|]; [rewrite lookup_insert_eq; simpl; rewrite Hpa; apply within_none|].
    destruct (decide (b = g)) as [->|]; [rewrite lookup_insert_eq; simpl; by rewrite Hpa|].
    by rewrite !lookup_insert_ne.
  - intros h Hh Hr' cpu Hcpu. destruct (decide (h = g)) as [->|]; [by apply Hrq|].
    rewrite Hother by done. apply Hq; [|done..]. rewrite Et, lookup_insert_ne in Hh; done.
  - rewrite Eo, Et, count_insert by done. unfold limited_tg. rewrite Hinf, bool_decide_eq_true_2 by done. simpl. lia.
Qed.
Lemma online_ok g p k tg :
  group_ok k → tgs k !! g = Some tg → parent tg = None → g ≠ root_task_group →
  quota (bandwidth tg) = RUNTIME_INF → online k p →
  ∃ k', sched_online_group g p k = Ok k' ∧ group_ok k'.
Proof.
  intros [(t & Hr & Hn & Ht & Hout) Hb Hne Hq Hu] Hg Hpa Hgr Hinf Hp.
  apply (online_nodes k t) in Hp as Hpn; [|done..].
  destruct (holds_nodes _ _ _ Ht p Hpn) as [[q l] Hl].
  destruct (shape_lookup _ _ _ _ Hl) as (ptg & Hptg & Hq' & Hl').
  assert (g ∉ nodes t) as Hgt.
  { intros Hin. destruct (tree_parent _ _ _ _ Ht Hin) as [->|(x & y & _ & Hx)]; [done|].
    apply shape_lookup in Hx as (tg' & ? & ? & _). congruence. }
  assert (g ≠ p) as Hgp by (intros ->; done).
  unfold sched_online_group, get, put. rewrite Hg. cbn [opt mbind res_bind tgs].
  rewrite lookup_insert_ne, Hptg by done. cbn [opt mbind res_bind]. eexists. split; [done|].
  set (k1 := Groups _ _ _ _).
  assert (shape k1 = <[p := (q, g :: l)]> (<[g := (Some p, [])]> (shape k))) as Es.
  { unfold shape. subst k1. simpl. rewrite !fmap_insert. simpl. by rewrite Hq', Hl'. }
  assert (∀ h, h ≠ g → limit k1 h = limit k h) as El.
  { intros h Hh. unfold limit, k1. cbn [tgs]. destruct (decide (h = p)) as [->|].
    - by rewrite lookup_insert_eq, Hptg.
    - by rewrite !lookup_insert_ne. }
  assert (limit k1 g = None) as Elg.
  { apply (limit_alone _ _ (set_parent (Some p) tg)); [|by right].
    subst k1. cbn [tgs]. by rewrite lookup_insert_ne, lookup_insert_eq. }
  assert (∀ a b, above k1 a b → a ≠ g ∧ (b = g ∨ above k a b)) as Hab.
  { intros a b. rewrite !above_link, Es.
    assert (∀ x y, link (<[p := (q, g :: l)]> (<[g := (Some p, [])]> (shape k))) x y →
      x ≠ g ∧ (y = g ∨ link (shape k) x y)) as Hlink.
    { intros x y (q1 & l1 & Hx & Hy). apply lookup_insert_Some in Hx as [[<- [= <- <-]]|[_ Hx]].
      - split; [done|]. apply elem_of_cons in Hy as [->|Hy]; [by left|right]. unfold link. eauto.
      - apply lookup_insert_Some in Hx as [[<- [= <- <-]]|[? Hx]]; [set_solver|].
        split; [done|right]. unfold link. eauto. }
    induction 1 as [x y Hxy|x y z Hxy Hyz [Hy IH]]; apply Hlink in Hxy as [Hx Hxy];
      (split; [done|]).
    - destruct Hxy; [by left|right; by apply tc_once].
    - destruct Hxy as [|Hxy]; [done|]. destruct IH as [|IH]; [by left|right]. by eapply tc_l. }
  split.
  - exists (add_leaf p g t). rewrite root_add. split; [done|]. pose proof (nodes_add p g t Hn Hpn) as Hperm.
    split; [|split].
    + rewrite Hperm. by constructor.
    + rewrite Es. by apply holds_add.
    + intros h th Hh Hnot. rewrite Hperm in Hnot. apply not_elem_of_cons in Hnot as [Hhg Hnot].
      subst k1. cbn [tgs] in Hh. rewrite lookup_insert_ne in Hh by (intros ->; done).
      rewrite lookup_insert_ne in Hh by done. by eapply Hout.
  - intros h th Hh. subst k1. cbn [tgs] in Hh. apply lookup_insert_Some in Hh as [[<- <-]|[_ Hh]]; [exact (Hb p ptg Hptg)|].
    apply lookup_insert_Some in Hh as [[<- <-]|[_ Hh]]; [exact (Hb g tg Hg)|by eapply Hb].
  - intros a b [Ha Hb']%Hab. rewrite (El a) by done. destruct (decide (b = g)) as [->|Hbg]; [by rewrite Elg|].
    rewrite El by done. destruct Hb'; [done|]. by apply Hne.
  - intros h Hh. apply Hq. subst k1. cbn [tgs] in Hh. rewrite !lookup_insert_is_Some' in Hh. naive_solver.
  - subst k1. cbn [tgs ops]. rewrite (count_replace p _ ptg); [|by rewrite lookup_insert_ne].
    rewrite (count_replace g _ tg) by done. unfold limited_tg. simpl. lia.
Qed.

Lemma release_ok g k tg :
  group_ok k → tgs k !! g = Some tg → children tg = [] → g ≠ root_task_group → online k g →
  ∃ k', sched_offline_group g k = Ok k' ∧ group_ok k'.
Proof.
  intros [(t & Hr & Hn & Ht & Hout) Hb Hne Hq Hu] Hg Hch Hgr Hon.
  apply (online_nodes k t) in Hon as Hgt; [|done..].
  destruct (tree_parent _ _ _ _ Ht Hgt) as [->|(p & l' & Hpn & Hl)]; [done|].
  destruct (shape_lookup _ _ _ _ Hl) as (tg' & Hg' & Hpa & Hl'). rewrite Hg in Hg'. injection Hg' as <-.
  rewrite Hch in Hl'. subst l'. destruct (holds_nodes _ _ _ Ht p Hpn) as [[q l] Hpl].
  destruct (shape_lookup _ _ _ _ Hpl) as (ptg & Hptg & Hq' & Hl').
  unfold sched_offline_group, get. rewrite Hg. cbn [opt mbind res_bind]. rewrite Hpa. cbn [tgs].
  rewrite Hptg. cbn [opt mbind res_bind]. eexists. split; [done|]. unfold put. set (k1 := Groups _ _ _ _).
  assert (shape k1 = <[p := (q, filter (.≠ g) l)]> (shape k)) as Es.
  { unfold shape. subst k1. simpl. rewrite !fmap_insert. simpl. by rewrite Hq', Hl'. }
  assert (∀ h, limit k1 h = limit k h) as El.
  { intros h. unfold limit, k1. cbn [tgs]. destruct (decide (h = p)) as [->|].
    - by rewrite lookup_insert_eq, Hptg.
    - by rewrite !lookup_insert_ne. }
  assert (∀ a b, above k1 a b → above k a b) as Hab.
  { intros a b. rewrite !above_link, Es.
    assert (∀ x y, link (<[p := (q, filter (.≠ g) l)]> (shape k)) x y → link (shape k) x y) as Hlink.
    { intros x y (q1 & l1 & Hx & Hy). apply lookup_insert_Some in Hx as [[<- [= <- <-]]|[_ Hx]].
      - apply list_elem_of_filter in Hy as [_ Hy]. unfold link. eauto.
      - unfold link. eauto. }
    induction 1; [by apply tc_once, Hlink|]. eapply tc_l; [by apply Hlink|done]. }
  split.
  - exists (remove_leaf g t). rewrite root_remove. split; [done|]. split; [|split].
    + eapply sublist_NoDup; [done|apply nodes_remove].
    + rewrite Es. by apply holds_remove.
    + intros h th Hh Hnot. subst k1. cbn [tgs] in Hh.
      assert (h = g ∨ h ∉ nodes t) as Hcases.
      { destruct (decide (h = g)); [by left|right]. intros Hin. by eapply Hnot, still_in. }
      apply lookup_insert_Some in Hh as [[<- <-]|[Hph Hh]].
      * simpl. destruct Hcases as [->|]; [|done]. rewrite Hg in Hptg. injection Hptg as <-. by rewrite Hch.
      * destruct Hcases as [->|]; [|by eapply Hout]. rewrite Hg in Hh. by injection Hh as <-.
  - intros h th Hh. subst k1. cbn [tgs] in Hh. apply lookup_insert_Some in Hh as [[<- <-]|[_ Hh]]; [exact (Hb p ptg Hptg)|].
    by eapply Hb.
  - intros a b Hab'%Hab. rewrite !El. by apply Hne.
  - intros h Hh. apply Hq. subst k1. cbn [tgs] in Hh. rewrite !lookup_insert_is_Some' in Hh. naive_solver.
  - subst k1. cbn [tgs ops]. rewrite (count_replace p _ ptg) by done. unfold limited_tg. simpl. lia.
Qed.

Lemma free_ok g k tg :
  group_ok k → tgs k !! g = Some tg → ¬ online k g → group_ok (sched_free_group g k).
Proof.
  intros [(t & Hr & Hn & Ht & Hout) Hb Hne Hq Hu] Hg Hon. rewrite (online_nodes k t) in Hon by done.
  assert (∀ h th, tgs (sched_free_group g k) !! h = Some th → tgs k !! h = Some th) as Hdel.
  { intros h th Hh. simpl in Hh. by apply lookup_delete_Some in Hh as [_ Hh]. }
  assert (∀ a b, above (sched_free_group g k) a b → a ≠ g ∧ b ≠ g ∧ above k a b) as Hab.
  { assert (∀ x y, is_child (sched_free_group g k) x y → x ≠ g ∧ y ≠ g ∧ is_child k x y) as Hc.
    { intros x y (tx & Hx & Hy). assert (is_child k x y) as Hxy by (exists tx; auto).
      split; [|split; [|done]]; intros ->; by apply (offline_links k t g) in Hxy. }
    induction 1 as [x y Hxy|x y z Hxy Hyz IH]; apply Hc in Hxy as (? & ? & ?); [by split_and!; [..|apply tc_once]|].
    destruct IH as (? & ? & ?). split_and!; [done..|by eapply tc_l]. }
  split.
  - exists t. split; [done|]. split; [done|]. split; [|by eauto].
    eapply holds_frame; [|exact Ht]. intros h Hh. unfold shape. simpl.
    by rewrite fmap_delete, lookup_delete_ne by naive_solver.
  - intros h th Hh%Hdel. by eapply Hb.
  - intros a b (Ha & Hb' & Hab')%Hab. specialize (Hne a b Hab'). unfold limit in *. simpl.
    by rewrite !lookup_delete_ne.
  - intros h [th Hh%Hdel]. apply Hq. eauto.
  - simpl. rewrite (count_delete g _ tg) by done. unfold one. destruct (limited_tg tg); lia.
Qed.
(** ** What is read back *)

Lemma quota_usecs us :
  0 ≤ us → us ≤ U64_MAX / NSEC_PER_USEC → wrapu64 us = us ∧ wrapu64 (us * NSEC_PER_USEC) = us * NSEC_PER_USEC ∧
  us * NSEC_PER_USEC / NSEC_PER_USEC = us.
Proof.
  intros H0' H1'. assert (U64_MAX / NSEC_PER_USEC = 18446744073709551) as E by done. rewrite E in H1'.
  unfold NSEC_PER_USEC. rewrite !wrapu64_small by lia. split; [done|]. split; [done|]. by apply Z.div_mul.
Qed.

Lemma DIV_ROUND_CLOSEST_range x d :
  0 < d < 2^32 → 0 ≤ x < 2^63 → DIV_ROUND_CLOSEST_ULL x d = (x + d / 2) / d.
Proof.
  intros Hd Hx. unfold DIV_ROUND_CLOSEST_ULL. rewrite wrapu64_small; [done|].
  assert (0 ≤ d / 2 ≤ d); [|lia]. split; [apply Z.div_pos; lia|]. apply Z.div_le_upper_bound; lia.
Qed.

(** A cgroup weight as a weight of the scheduler, and back. *)
Lemma weight_conversion w :
  1 ≤ w ≤ 10000 →
  10 ≤ (w * 1024 + 50) / 100 ≤ 102400 ∧ ((w * 1024 + 50) / 100 * 100 + 512) / 1024 = w.
Proof.
  intros Hw. set (s := (w * 1024 + 50) / 100).
  assert (100 * s ≤ w * 1024 + 50 < 100 * s + 100) as Hs.
  { unfold s. pose proof (Z.div_mod (w * 1024 + 50) 100). pose proof (Z.mod_pos_bound (w * 1024 + 50) 100). lia. }
  split; [lia|]. symmetry. apply (Z.div_unique_pos _ _ _ (s * 100 + 512 - 1024 * w)); lia.
Qed.

Lemma clamp_in x lo hi : lo ≤ x ≤ hi → clamp x lo hi = x.
Proof. unfold clamp. lia. Qed.

(** Setting a weight that is in the range of the shares. *)
Lemma set_shares_in g w k tg :
  g ≠ root_task_group → tgs k !! g = Some tg → MIN_SHARES ≤ w ≤ MAX_SHARES →
  sched_group_set_shares g (scale_load w) k = (0, put g (set_shares (scale_load w) tg) k).
Proof.
  intros Hr Hg Hw. rewrite (shares_set g _ k tg) by done. pose proof shares_range. pose proof scale_load_mono as Hm.
  rewrite clamp_in; [done|]. split; apply Hm; lia.
Qed.

Lemma scale_down w : MIN_SHARES ≤ w ≤ MAX_SHARES → scale_load_down (scale_load w) = w.
Proof. intros Hw. pose proof shares_range. apply scale_loads. lia. Qed.

(** ** The closest nice value *)

Definition distance (w x : Z) : Z := Z.abs (x - w).

(** On a decreasing list the loop stops at an entry closest to [w]. *)
Lemma closest_spec l w prio last x0 :
  0 ≤ w < 2^31 → Forall (λ x, 0 ≤ x < 2^31) (x0 :: l) → StronglySorted (λ a b, b < a) (x0 :: l) →
  last = distance w x0 →
  ∃ i x, closest l w prio last = prio + Z.of_nat i ∧ (x0 :: l) !! i = Some x ∧
    ∀ y, y ∈ x0 :: l → distance w x ≤ distance w y.
Proof.
  revert prio last x0. induction l as [|y l IH]; intros prio last x0 Hw Hl Hs ->.
  { exists O, x0. simpl. split; [lia|]. split; [done|]. set_solver. }
  apply Forall_cons in Hl as [Hx0 Hl]. apply StronglySorted_inv in Hs as [Hs Hx]. simpl.
  pose proof Hl as Hl'. apply Forall_cons in Hl' as [Hy _]. pose proof Hx as Hx'. apply Forall_cons in Hx' as [Hyx _]. simpl in Hx0, Hy, Hyx.
  assert (wrap32 (Z.abs (wrap64 (y - w))) = distance w y) as ->.
  { rewrite wrap64_small by lia. apply wrap32_small. unfold int32, distance. lia. }
  destruct (decide (distance w x0 ≤ distance w y)) as [Hd|Hd].
  - exists O, x0. split; [lia|]. split; [done|]. intros z [->|Hz]%elem_of_cons; [done|].
    apply elem_of_cons in Hz as [->|Hz]; [done|]. apply StronglySorted_inv in Hs as [_ Hs].
    rewrite Forall_forall in Hs. specialize (Hs z Hz). simpl in Hs. unfold distance in *. lia.
  - destruct (IH (prio + 1) (distance w y) y) as (i & x & E & Hi & Hmin); [done..|].
    exists (S i), x. split; [lia|]. split; [done|]. intros z [->|Hz]%elem_of_cons; [|by apply Hmin].
    specialize (Hmin y ltac:(left)). lia.
Qed.
(** ** The calls *)

Inductive call : Set :=
  | Alloc (parent : Z) (alloc : option Z)
  | Online (g parent : Z)
  | Released (g : Z)
  | Free (g : Z)
  | WriteQuota (g us : Z)
  | WritePeriod (g us : Z)
  | WriteShares (g s : Z)
  | WriteWeight (g w : Z).

Definition run_call (c : call) (k : groups) : res groups :=
  match c with
  | Alloc p a => Ok (snd (cpu_cgroup_css_alloc (Some p) a k))
  | Online g p => cpu_cgroup_css_online g (Some p) k
  | Released g => cpu_cgroup_css_released g k
  | Free g => Ok (cpu_cgroup_css_free g k)
  | WriteQuota g us => '(_, k) ← cpu_cfs_quota_write_s64 g us k; Ok k
  | WritePeriod g us => '(_, k) ← cpu_cfs_period_write_u64 g us k; Ok k
  | WriteShares g s => Ok (snd (cpu_shares_write_u64 g s k))
  | WriteWeight g w => Ok (snd (cpu_weight_write_u64 g w k))
  end.

(** When the control groups make a call: memory is new, only a new group
    with a parent that is online goes online, only a group without children
    is released, and it is freed after that. *)
Definition possible (c : call) (k : groups) : Prop :=
  match c with
  | Alloc _ None => True
  | Alloc _ (Some g) => tgs k !! g = None
  | Online g p => online k p ∧ g ≠ root_task_group ∧
      ∃ tg, tgs k !! g = Some tg ∧ parent tg = None ∧ quota (bandwidth tg) = RUNTIME_INF
  | Released g => online k g ∧ g ≠ root_task_group ∧ ∃ tg, tgs k !! g = Some tg ∧ children tg = []
  | Free g => ¬ online k g ∧ is_Some (tgs k !! g)
  | WriteQuota g _ | WritePeriod g _ | WriteShares g _ | WriteWeight g _ => is_Some (tgs k !! g)
  end.

Definition boot (s : Z) (b : cfs_bandwidth) : groups :=
  Groups {[root_task_group := Tg None [] s b]} [root_task_group] ∅ [].

Lemma shares_ok g s k tg :
  group_ok k → tgs k !! g = Some tg → group_ok (put g (set_shares s tg) k).
Proof.
  intros [Ht Hb Hne Hq Hu] Hg.
  assert (shape (put g (set_shares s tg) k) = shape k) as Es.
  { unfold shape, put. simpl. rewrite fmap_insert. apply insert_id. by rewrite lookup_fmap, Hg. }
  split.
  - by eapply tree_shape.
  - intros h th Hh. simpl in Hh. apply lookup_insert_Some in Hh as [[<- <-]|[_ Hh]]; [exact (Hb g tg Hg)|by eapply Hb].
  - eapply nested_ext; [by symmetry| |exact Hne]. intros h. unfold limit, put. simpl.
    destruct (decide (h = g)) as [->|]; [by rewrite lookup_insert_eq, Hg|by rewrite lookup_insert_ne].
  - intros h Hh. apply Hq. simpl in Hh. rewrite lookup_insert_is_Some' in Hh. naive_solver.
  - simpl. rewrite (count_replace g _ tg) by done. unfold limited_tg. simpl. lia.
Qed.

Lemma set_shares_ok g s k : group_ok k → is_Some (tgs k !! g) → group_ok (snd (sched_group_set_shares g s k)).
Proof.
  intros Hok [tg Hg]. destruct (decide (g = root_task_group)) as [->|Hr]; [by rewrite shares_root|].
  rewrite (shares_set g s k tg) by done. by apply shares_ok.
Qed.

Lemma set_bandwidth_ok g p q k :
  cgroup_subsys_on_dfl = false → group_ok k → is_Some (tgs k !! g) →
  ∃ k', ('(_, k) ← tg_set_cfs_bandwidth g p q k; Ok k) = Ok k' ∧ group_ok k'.
Proof.
  intros Hv1 Hok [tg Hg]. destruct (set_bandwidth_outcome g p q k tg Hv1 Hok Hg) as (r & k' & -> & _ & ?).
  by exists k'.
Qed.

Lemma alloc_ok p a k :
  group_ok k → possible (Alloc p a) k → group_ok (snd (cpu_cgroup_css_alloc (Some p) a k)).
Proof.
  intros Hok Hp. destruct a as [g|]; [|done]. simpl in Hp.
  assert (sched_free_group g (put g (Tg None [] 0 (Bw 0 0 0)) k) = k) as Efree.
  { unfold sched_free_group, put. simpl. rewrite delete_insert_id by done. by destruct k. }
  unfold cpu_cgroup_css_alloc, css_tg, sched_create_group.
  destruct (alloc_fair_sched_group g p _) as [k1|] eqn:E; [|simpl; by rewrite Efree].
  destruct (new_group _ _ _ _ E) as ((s & b & Et & Hinf & Hper) & _ & Eo & Hrq & Hother).
  destruct alloc_rt_sched_group; simpl.
  - simpl in Et, Eo, Hother. rewrite insert_insert_eq in Et.
    eapply (create_ok k k1 g (Tg None [] s b)); try done. split; [done|by left].
  - assert (tgs (sched_free_group g k1) = tgs k) as Et'.
    { simpl. rewrite Et. simpl. by rewrite insert_insert_eq, delete_insert_id. }
    destruct Hok as [H1' H2' H3' H4' H5']. assert (same k (sched_free_group g k1)) as Es by (unfold same; by rewrite Et').
    split.
    + eapply tree_shape; [by apply forget_shape|done].
    + intros h th. rewrite Et'. apply H2'.
    + eapply nested_ext; [by apply forget_shape|by apply limit_same|done].
    + intros h. rewrite Et'. intros Hh Hr cpu Hcpu. simpl. rewrite Hother; [by apply H4'|].
      intros ->. rewrite Hp in Hh. by destruct Hh.
    + rewrite Et'. simpl. by rewrite Eo.
Qed.

Lemma call_ok c k :
  cgroup_subsys_on_dfl = false → group_ok k → possible c k →
  ∃ k', run_call c k = Ok k' ∧ group_ok k'.
Proof.
  intros Hv1 Hok Hp. destruct c as [p a|g p|g|g|g us|g us|g s|g w]; simpl in Hp |- *.
  - eexists. split; [done|]. by apply alloc_ok.
  - destruct Hp as (Hon & Hr & tg & Hg & Hpa & Hinf). by eapply online_ok.
  - destruct Hp as (Hon & Hr & tg & Hg & Hch). by eapply release_ok.
  - destruct Hp as [Hon [tg Hg]]. eexists. split; [done|]. by eapply free_ok.
  - destruct Hp as [tg Hg]. unfold cpu_cfs_quota_write_s64, tg_set_cfs_quota, get. rewrite Hg. simpl.
    repeat case_decide; try (apply set_bandwidth_ok; by eauto). by exists k.
  - destruct Hp as [tg Hg]. unfold cpu_cfs_period_write_u64, tg_set_cfs_period, get. rewrite Hg.
    case_decide; [by exists k|]. simpl. apply set_bandwidth_ok; by eauto.
  - eexists. split; [done|]. by apply set_shares_ok.
  - eexists. split; [done|]. unfold cpu_weight_write_u64. case_decide; [done|]. by apply set_shares_ok.
Qed.

Lemma boot_ok s b : bandwidth_ok b → quota b = RUNTIME_INF → group_ok (boot s b).
Proof.
  intros Hb Hinf.
  assert (∀ x y, ¬ is_child (boot s b) x y) as Hno.
  { intros x y (tg & Htg & Hin). simpl in Htg. apply lookup_singleton_Some in Htg as [_ <-]. simpl in Hin. set_solver. }
  split.
  - exists (Node root_task_group []). split; [done|]. split; [apply NoDup_singleton|]. split.
    + split; [|done]. unfold shape. simpl. by rewrite lookup_fmap, lookup_singleton_eq.
    + intros g tg Hg. simpl in Hg. by apply lookup_singleton_Some in Hg as [_ <-].
  - intros g tg Hg. simpl in Hg. by apply lookup_singleton_Some in Hg as [_ <-].
  - intros x y Hab. exfalso. destruct Hab; by eapply Hno.
  - intros g [tg Hg] Hr. simpl in Hg. by apply lookup_singleton_Some in Hg as [<- _].
  - simpl. unfold root_task_group. rewrite <- insert_empty, count_insert by apply lookup_empty.
    unfold limited_tg. simpl. rewrite Hinf, bool_decide_eq_true_2 by done. done.
Qed.
(** ** On cgroup2 *)

Section cgroup2.
Context (Hv2 : cgroup_subsys_on_dfl = true).
Context (g0 p0 q0 : Z) (Hok : bandwidth_ok (Bw p0 q0 0)).
Context (k0 : groups) (Hk0 : bandwidths_ok k0).

(** A visit that sets the hierarchical quotas of [l] to -1. *)
Definition unlimits (l : list Z) (r : res (Z * groups)) (k : groups) : Prop :=
  ∃ k', r = Ok (0, k') ∧ forget k' = forget k0 ∧ (∀ h, h ∉ l → tgs k' !! h = tgs k !! h) ∧
    ∀ h, h ∈ l → has_hq k' h None.

Lemma unlimit_step g k p :
  forget k = forget k0 → (∃ l, shape k !! g = Some (Some p, l)) → has_hq k p None →
  ∃ tg, tgs k !! g = Some tg ∧ check g0 p0 q0 g k = Ok (0, put g (with_hq (-1) tg) k).
Proof.
  intros Hk%forget_same [l Hg] (ptg & Hp & Hq).
  destruct (shape_lookup _ _ _ _ Hg) as (tg & Htg & Hpa & _). exists tg. split; [done|].
  unfold check, tg_cfs_schedulable_down, set_hierarchical, get. rewrite Htg. simpl. rewrite Hpa, Hp, Hv2. simpl.
  rewrite Hq. simpl. unfold with_hq. do 5 f_equal.
  pose proof (lim_range g0 p0 q0 Hok k0 Hk0 g) as Hr. unfold lim in Hr. rewrite <- (forget_limit _ _ _ _ _ Hk) in Hr.
  unfold limit_with, limit in Hr. rewrite Htg in Hr. simpl in Hr. rewrite Hpa in Hr. simpl in Hr.
  rewrite normalize_ok by (done || by eapply forget_ok).
  destruct (decide (g = g0)); (destruct (share _ _) as [x|]; simpl in *; [rewrite wrap64_small by lia; lia|]);
    by rewrite runtime_inf.
Qed.

Lemma unlimit_list p l k :
  Forall (λ t, ∀ k, holds (shape k0) (Some p) t → NoDup (nodes t) → p ∉ nodes t →
    forget k = forget k0 → has_hq k p None →
    unlimits (nodes t) (visit (check g0 p0 q0) tg_nop t k) k) l →
  Forall (holds (shape k0) (Some p)) l → NoDup (l ≫= nodes) → p ∉ l ≫= nodes →
  forget k = forget k0 → has_hq k p None →
  unlimits (l ≫= nodes) (visits (check g0 p0 q0) tg_nop l k) k.
Proof.
  intros Hl Hholds. revert k. induction Hl as [|t l Ht _ IH]; intros k Hn Hp Hk Hq.
  { exists k. split_and!; [done..|]. intros h Hh. simpl in Hh. set_solver. }
  apply Forall_cons in Hholds as [Ht' Hl]. rewrite bind_cons in Hn, Hp |- *.
  pose proof Hn as Hn'. apply NoDup_app in Hn' as (Hn1 & Hn3 & Hn2).
  destruct (Ht k) as (k' & E & Hk' & Hsame & Hset); [done|done|set_solver|done|done|].
  rewrite visit_cons, E. simpl.
  destruct (IH Hl k') as (k2 & E2 & Hk2 & Hsame2 & Hset2); [done|set_solver|done| |].
  { destruct Hq as (ptg & Hptg & Hhq). exists ptg. rewrite Hsame by set_solver. done. }
  exists k2. split; [done|]. split; [done|]. split.
  - intros h Hh. rewrite Hsame2, Hsame by set_solver. done.
  - intros h [Hh|Hh]%elem_of_app; [|by apply Hset2].
    destruct (Hset h Hh) as (tg & Htg & Hhq). exists tg. rewrite Hsame2; [done|by apply Hn3].
Qed.

Lemma unlimit_node g subs k k1 :
  Forall (λ t, ∀ p k, holds (shape k0) (Some p) t → NoDup (nodes t) → p ∉ nodes t →
    forget k = forget k0 → has_hq k p None →
    unlimits (nodes t) (visit (check g0 p0 q0) tg_nop t k) k) subs →
  Forall (holds (shape k0) (Some g)) subs → NoDup (g :: (subs ≫= nodes)) →
  (∃ tg, tgs k !! g = Some tg ∧ k1 = put g (with_hq (-1) tg) k) → forget k = forget k0 →
  check g0 p0 q0 g k = Ok (0, k1) →
  unlimits (g :: (subs ≫= nodes)) (visit (check g0 p0 q0) tg_nop (Node g subs) k) k.
Proof.
  intros IH Hsubs [Hgn Hn]%NoDup_cons (tg & Htg & ->) Hk E. rewrite visit_node, E. simpl.
  destruct (unlimit_list g subs (put g (with_hq (-1) tg) k)) as (k' & E' & Hk' & Hsame & Hset).
  - eapply Forall_impl; [exact IH|]. intros t Ht k2. apply Ht.
  - done.
  - done.
  - done.
  - by rewrite (forget_put _ _ _ _ Htg).
  - eexists. split; [apply lookup_insert_eq|done].
  - rewrite E'. simpl. exists k'. split; [done|]. split; [done|]. split.
    + intros h Hh. rewrite Hsame by set_solver. apply lookup_insert_ne. set_solver.
    + intros h [->|Hh]%elem_of_cons; [|by apply Hset].
      exists (with_hq (-1) tg). rewrite Hsame by done. split; [apply lookup_insert_eq|done].
Qed.

Lemma unlimit_tree t : ∀ p k,
  holds (shape k0) (Some p) t → NoDup (nodes t) → p ∉ nodes t →
  forget k = forget k0 → has_hq k p None →
  unlimits (nodes t) (visit (check g0 p0 q0) tg_nop t k) k.
Proof.
  induction t as [g subs IH] using tree_ind'. intros p k [Hg Hsubs] Hn Hp Hk Hq.
  rewrite holds_Forall in Hsubs. destruct (unlimit_step g k p) as (tg & Htg & E); [done| |done|].
  { rewrite (forget_shape _ _ (forget_same _ _ Hk)). eauto. }
  eapply unlimit_node; eauto.
Qed.

Lemma unlimit_root t :
  holds (shape k0) None t → NoDup (nodes t) → unlimits (nodes t) (visit (check g0 p0 q0) tg_nop t k0) k0.
Proof.
  destruct t as [g subs]. intros [Hg Hsubs] Hn. rewrite holds_Forall in Hsubs.
  destruct (shape_lookup _ _ _ _ Hg) as (tg & Htg & Hpa & _).
  eapply unlimit_node; [|done|done|eauto|done|].
  - apply Forall_forall. intros t Ht p k. apply unlimit_tree.
  - unfold check, tg_cfs_schedulable_down, set_hierarchical, get.
    rewrite Htg. simpl. rewrite Hpa. simpl. rewrite runtime_inf. done.
Qed.
End cgroup2.
End limits.

(** * Properties *)

(** The walk with its two labels ends, whatever the visitors return, and
    is the traversal of the tree below [from]: [down] on a group before its
    children in their order, [up] after them, up to the first visitor that
    does not return 0. *)
Theorem walk_is_traversal down up k p t :
  keeps_shape down → keeps_shape up → holds (shape k) p t → NoDup (nodes t) →
  walk_tg_tree_from down up (root_of t) k = visit down up t k.
Proof. intros. by eapply walk_tree. Qed.

Section properties.
Context `{sched_headers} `{group_headers} `{!group_headers_ok}.

(** C32: on cgroup1 a bandwidth is accepted exactly if the group is not the
    root, period and quota are in their ranges, and no group would get more
    than a group above it. Accepted, it is the bandwidth of the group and
    the limit of its run queues on all processors; otherwise the call
    returns [-EINVAL] and no bandwidth changes. *)
Theorem set_cfs_bandwidth_correct g p q k tg :
  cgroup_subsys_on_dfl = false → group_ok k → tgs k !! g = Some tg →
  ∃ r k', tg_set_cfs_bandwidth g p q k = Ok (r, k') ∧ outcome g p q k tg r k'.
Proof.
  intros Hv1 Hok Hg. destruct (set_bandwidth_outcome g p q k tg Hv1 Hok Hg) as (r & k' & E & Ho & _).
  by exists r, k'.
Qed.

(** C31: whatever groups are made, put online, released and freed and
    whatever is written to their files, on cgroup1 every call returns, the
    groups stay a tree, their quotas stay in range and nested, and the
    controller is in use as long as a group has a quota. *)
Theorem controller_invariant s b k :
  cgroup_subsys_on_dfl = false → bandwidth_ok b → quota b = RUNTIME_INF →
  rtc (λ k k', ∃ c, possible c k ∧ run_call c k = Ok k') (boot s b) k →
  group_ok k ∧ ∀ c, possible c k → ∃ k', run_call c k = Ok k'.
Proof.
  intros Hv1 Hb Hinf Hrun. assert (group_ok k) as Hok.
  { remember (boot s b) as k0 eqn:E0. assert (group_ok k0) as Hok0 by (subst; by apply boot_ok). clear E0.
    induction Hrun as [|k1 k2 k3 (c & Hp & E) _ IH]; [done|]. apply IH.
    destruct (call_ok c k1 Hv1 Hok0 Hp) as (k' & E' & ?). congruence. }
  split; [done|]. intros c Hp. destruct (call_ok c k Hv1 Hok Hp) as (k' & ? & _). by exists k'.
Qed.

(** On cgroup2 the check accepts every bandwidth and gives every group
    the hierarchical quota -1, "no limit", whatever limits there are: the
    minimum is taken with the -1 of the root. *)
Theorem cgroup2_has_no_hierarchy g p q k :
  cgroup_subsys_on_dfl = true → is_tree k → bandwidths_ok k → bandwidth_ok (Bw p q 0) →
  ∃ k', __cfs_schedulable g p q k = Ok (0, k') ∧ forget k' = forget k ∧
    ∀ h tg, online k h → tgs k' !! h = Some tg → hierarchical_quota (bandwidth tg) = -1.
Proof.
  intros Hv2 (t & Hroot & Hn & Ht & Hout) Hb Hpq.
  destruct (unlimit_root Hv2 g p q Hpq k Hb t Ht Hn) as (k' & E & Hk' & _ & Hset).
  exists k'. split; [|split; [done|]].
  - unfold __cfs_schedulable. rewrite walk_from_root, <- Hroot.
    change (walk_tg_tree_from (check g p q) tg_nop (root_of t) k = Ok (0, k')).
    assert (keeps_shape (check g p q)) as Hkeep by (by eapply check_keeps_shape).
    by rewrite (walk_tree _ _ Hkeep nop_keeps_shape k None t Ht Hn).
  - intros h tg Hh Htg. rewrite (online_nodes k t) in Hh by done. destruct (Hset h Hh) as (tg' & Htg' & Hq).
    rewrite Htg in Htg'. injection Htg' as <-. exact Hq.
Qed.

(** The quota that is read is the quota that was written and accepted,
    -1 for any negative one, and the period stays. *)
Theorem quota_roundtrip g us k k' tg tg' :
  cgroup_subsys_on_dfl = false → group_ok k → tgs k !! g = Some tg → - 2^63 ≤ us < 2^63 →
  cpu_cfs_quota_write_s64 g us k = Ok (0, k') → tgs k' !! g = Some tg' →
  cpu_cfs_quota_read_s64 tg' = Z.max us (-1) ∧ cpu_cfs_period_read_u64 tg' = cpu_cfs_period_read_u64 tg.
Proof.
  intros Hv1 Hok Hg Hus E Hg'. unfold cpu_cfs_quota_write_s64, tg_set_cfs_quota, get in E. rewrite Hg in E. simpl in E.
  destruct (ok_bandwidths _ Hok _ _ Hg) as [Hp _].
  rewrite (wrapu64_small (period _)) in E by (unfold NSEC_PER_MSEC, NSEC_PER_SEC in Hp; lia).
  assert (∀ q, tg_set_cfs_bandwidth g (period (bandwidth tg)) q k = Ok (0, k') →
    bandwidth_ok (Bw (period (bandwidth tg)) q 0) ∧
    ∃ h, tg' = set_bandwidth (Bw (period (bandwidth tg)) q h) tg) as Hset.
  { intros q Eq. destruct (set_bandwidth_outcome g (period (bandwidth tg)) q k tg Hv1 Hok Hg) as (r & k2 & E2 & Ho & _).
    rewrite Eq in E2. injection E2 as <- <-. destruct Ho as [(_ & (_ & Hb & _) & Ef & _)|(? & _)]; [|done].
    split; [done|]. apply (f_equal (λ m : gmap Z task_group, m !! g)) in Ef.
    rewrite lookup_fmap, Hg', lookup_insert_eq in Ef. apply (inj Some (forget_tg tg')) in Ef.
    destruct tg' as [? ? ? [? ? h]]. unfold forget_tg, set_bandwidth in Ef. simpl in Ef. injection Ef as -> -> -> -> ->.
    by exists h. }
  unfold cpu_cfs_quota_read_s64, cpu_cfs_period_read_u64. case_decide as Hneg; [|case_decide as Hle; [|done]].
  - destruct (Hset _ E) as (_ & h & ->). split; [|done]. unfold tg_get_cfs_quota. simpl. rewrite decide_True by done. lia.
  - rewrite (wrapu64_small us) in * by lia.
    assert (wrapu64 (us * NSEC_PER_USEC) = us * NSEC_PER_USEC) as Ew.
    { assert (U64_MAX / NSEC_PER_USEC = 18446744073709551) as Emax by done. rewrite Emax in Hle.
      apply wrapu64_small. unfold NSEC_PER_USEC. lia. }
    rewrite Ew in E. destruct (Hset _ E) as ([_ Hq] & h & ->). split; [|done]. simpl in Hq.
    assert (us * NSEC_PER_USEC ≠ RUNTIME_INF) as Hne.
    { rewrite runtime_inf. unfold NSEC_PER_USEC. lia. }
    destruct Hq as [|Hq]; [done|]. unfold set_bandwidth. rewrite get_quota by done. simpl.
    unfold NSEC_PER_USEC. rewrite Z.div_mul by done. lia.
Qed.
(** A cgroup weight from 1 to 10000 is accepted for every group but the
    root and read back unchanged, although it is kept as a weight of the
    scheduler; any other is refused. *)
Theorem weight_roundtrip g w k tg :
  g ≠ root_task_group → tgs k !! g = Some tg →
  if decide (1 ≤ w ≤ 10000)
  then ∃ tg', cpu_weight_write_u64 g w k = (0, put g tg' k) ∧ cpu_weight_read_u64 tg' = w
  else cpu_weight_write_u64 g w k = (- ERANGE, k).
Proof.
  intros Hr Hg. destruct cgroup_weights as (E1 & E2 & E3). unfold cpu_weight_write_u64. rewrite E1, E2, E3.
  destruct (decide (1 ≤ w ≤ 10000)) as [Hw|Hw]; [|by rewrite decide_True by lia].
  rewrite decide_False by lia. destruct (weight_conversion w Hw) as [Hs Hback]. pose proof shares_range.
  rewrite (wrapu64_small (w * 1024)), DIV_ROUND_CLOSEST_range by lia.
  change (100 / 2) with 50. rewrite (set_shares_in g _ k tg) by (done || lia).
  eexists. split; [done|]. unfold cpu_weight_read_u64. rewrite E2. simpl.
  rewrite scale_down, wrapu64_small, DIV_ROUND_CLOSEST_range by lia. exact Hback.
Qed.

Lemma table_sorted : StronglySorted (λ a b, b < a) sched_prio_to_weight.
Proof.
  apply Sorted_StronglySorted; [intros a b c; lia|]. unfold sched_prio_to_weight. repeat constructor.
Qed.

Lemma table_range : Forall (λ x, 15 ≤ x ≤ 88761) sched_prio_to_weight.
Proof. unfold sched_prio_to_weight. repeat (constructor; [lia|]). constructor. Qed.

(** The nice value that is read belongs to a weight closest to that of the
    group. *)
Lemma nice_read_closest tg :
  let w := scale_load_down (shares tg) in 0 ≤ w < 2^31 →
  ∃ i x, cpu_weight_nice_read_s64 tg = PRIO_TO_NICE (Z.of_nat i + MAX_RT_PRIO) ∧
    sched_prio_to_weight !! i = Some x ∧ ∀ y, y ∈ sched_prio_to_weight → distance w x ≤ distance w y.
Proof.
  intros w Hw. unfold cpu_weight_nice_read_s64. fold w.
  pose proof table_range as Hrange. pose proof table_sorted as Hsorted.
  destruct sched_prio_to_weight as [|x0 l] eqn:Et; [done|]. cbn [closest].
  pose proof Hrange as Hr. apply Forall_cons in Hr as [Hx0 _]. simpl in Hx0.
  assert (wrap32 (Z.abs (wrap64 (x0 - w))) = distance w x0) as ->.
  { rewrite wrap64_small by lia. apply wrap32_small. unfold int32, distance. lia. }
  rewrite decide_False by (unfold INT_MAX, distance; lia).
  destruct (closest_spec l w (0 + 1) (distance w x0) x0 Hw) as (i & x & E & Hi & Hmin); [|done|done|].
  { eapply Forall_impl; [exact Hrange|]. simpl. lia. }
  exists i, x. split; [|done]. rewrite E. f_equal. lia.
Qed.

Lemma sorted_unique (l : list Z) i j x :
  StronglySorted (λ a b, b < a) l → l !! i = Some x → l !! j = Some x → i = j.
Proof.
  intros Hs. revert i j. induction Hs as [|y l Hs IH Hy]; intros [|i] [|j]; simpl; try done.
  - intros [= <-] Hj. rewrite Forall_forall in Hy. specialize (Hy y (list_elem_of_lookup_2 _ _ _ Hj)). lia.
  - intros Hi [= <-]. rewrite Forall_forall in Hy. specialize (Hy y (list_elem_of_lookup_2 _ _ _ Hi)). lia.
  - intros Hi Hj. f_equal. by apply IH.
Qed.

(** A nice value from -20 to 19 written to a group other than the root
    is read back unchanged, by the search for the closest weight; any other
    is refused. *)
Theorem weight_nice_roundtrip `{!sched_headers_ok} g n k tg :
  g ≠ root_task_group → tgs k !! g = Some tg → 2^18 ≤ MAX_SHARES →
  if decide (MIN_NICE ≤ n ≤ MAX_NICE)
  then ∃ tg', cpu_weight_nice_write_s64 g n k = Ok (0, put g tg' k) ∧ cpu_weight_nice_read_s64 tg' = n
  else cpu_weight_nice_write_s64 g n k = Ok (- ERANGE, k).
Proof.
  intros Hr Hg Hmax. unfold cpu_weight_nice_write_s64.
  destruct (decide (MIN_NICE ≤ n ≤ MAX_NICE)) as [Hn|Hn]; [|by rewrite decide_True by lia].
  rewrite decide_False by lia. pose proof (nice_prio_range n Hn) as Hrange.
  assert (∃ i x, NICE_TO_PRIO n - MAX_RT_PRIO = Z.of_nat i ∧ sched_prio_to_weight !! i = Some x) as (i & x & Ei & Hx).
  { exists (Z.to_nat (NICE_TO_PRIO n - MAX_RT_PRIO)).
    destruct (lookup_lt_is_Some_2 sched_prio_to_weight (Z.to_nat (NICE_TO_PRIO n - MAX_RT_PRIO))) as [x Hx].
    - change (length sched_prio_to_weight) with 40%nat. unfold NICE_WIDTH in Hrange. lia.
    - exists x. split; [lia|done]. }
  rewrite Ei. assert (rd sched_prio_to_weight (Z.of_nat i) = Ok x) as -> by (by rewrite rd_ok_iff, getZ_of_nat).
  simpl. pose proof (Forall_lookup_1 _ _ _ _ table_range Hx) as Hxr. simpl in Hxr. pose proof shares_range.
  rewrite (set_shares_in g x k tg) by (done || lia). eexists. split; [done|].
  destruct (nice_read_closest (set_shares (scale_load x) tg)) as (j & y & -> & Hj & Hmin);
    simpl in *; rewrite scale_down in * by lia; [lia|].
  specialize (Hmin x (list_elem_of_lookup_2 _ _ _ Hx)). unfold distance in Hmin.
  assert (y = x) as -> by lia. rewrite (sorted_unique _ j i x table_sorted Hj Hx), <- Ei.
  rewrite Z.sub_add. apply nice_prio.
Qed.

Section cpu_max.
Context (scan_word : string → option (string * string)) (scan_llu : string → option Z).

(** The multiplication by 1000 wraps around in cpu.max, so that a period of
    585 years is taken as one of a millisecond; cpu.cfs_period_us refuses it. *)
Lemma cpu_max_period_wraps g k buf rest :
  scan_word buf = Some ("max"%string, rest) → scan_llu "max" = None →
  scan_llu rest = Some 18446744073710552 → is_Some (tgs k !! g) →
  cpu_max_write scan_word scan_llu g buf k =
    ('(r, k) ← tg_set_cfs_bandwidth g 1000384 RUNTIME_INF k;
     Ok (if decide (r = 0) then Z.of_nat (String.length buf) else r, k)) ∧
  cpu_cfs_period_write_u64 g 18446744073710552 k = Ok (- EINVAL, k).
Proof.
  intros Hw Hm Hr [tg Hg]. split; [|done]. unfold cpu_max_write, cpu_period_quota_parse, get.
  rewrite Hg. simpl. by rewrite Hw, Hm, Hr.
Qed.
End cpu_max.
End properties.

(** * Witnesses: the groups 1 and, under it, 2 *)

#[local] Instance cgroup1 : group_headers := linux_groups false.

Definition no_limit : cfs_bandwidth := Bw 100000000 (2^64 - 1) 0.

Definition setup : list call :=
  [Alloc 0 (Some 1); Online 1 0; Alloc 1 (Some 2); Online 2 1; WriteQuota 1 50000].

Definition run_calls (l : list call) (k : groups) : res groups :=
  foldl (λ r c, r ≫= run_call c) (Ok k) l.

Definition example : groups :=
  match run_calls setup (boot 1024 no_limit) with Ok k => k | _ => boot 1024 no_limit end.

Lemma example_groups :
  tgs example = {[0 := Tg None [1] 1024 (Bw 100000000 (2^64 - 1) (-1));
                  1 := Tg (Some 0) [2] (2^20) (Bw 100000000 50000000 524288);
                  2 := Tg (Some 1) [] (2^20) (Bw 100000000 (2^64 - 1) 524288)]}.
Proof. by vm_compute. Qed.

Definition state (n : nat) : groups :=
  match run_calls (take n setup) (boot 1024 no_limit) with Ok k => k | _ => boot 1024 no_limit end.

Lemma child_online k p g : online k p → is_child k p g → online k g.
Proof.
  intros [->|Hp] Hc; right; [by apply tc_once|]. eapply tc_rtc_r; [exact Hp|]. by apply rtc_once.
Qed.

Ltac child := eexists; split; [by vm_compute|set_solver].

Lemma example_reached :
  rtc (λ k k', ∃ c, possible c k ∧ run_call c k = Ok k') (boot 1024 no_limit) example.
Proof.
  assert (online (state 3) 1) as H1.
  { apply (child_online _ 0); [by left|child]. }
  apply (rtc_l _ _ (state 1)). { exists (Alloc 0 (Some 1)). split; by vm_compute. }
  apply (rtc_l _ _ (state 2)).
  { exists (Online 1 0). split; [|by vm_compute]. split; [by left|]. split; [done|].
    eexists. split; [by vm_compute|]. split; by vm_compute. }
  apply (rtc_l _ _ (state 3)). { exists (Alloc 1 (Some 2)). split; by vm_compute. }
  apply (rtc_l _ _ (state 4)).
  { exists (Online 2 1). split; [|by vm_compute]. split; [done|]. split; [done|].
    eexists. split; [by vm_compute|]. split; by vm_compute. }
  apply rtc_once. exists (WriteQuota 1 50000). split; [|by vm_compute]. eexists. by vm_compute.
Qed.

Lemma no_limit_ok : bandwidth_ok no_limit.
Proof. split; [|by left]. simpl. unfold NSEC_PER_MSEC, NSEC_PER_SEC. lia. Qed.

Lemma example_ok : group_ok example.
Proof.
  pose proof example_reached as Hrun. remember (boot 1024 no_limit) as k0 eqn:E0.
  assert (group_ok k0) as Hok0 by (subst; by apply boot_ok, eq_refl; apply no_limit_ok). clear E0.
  revert Hok0. induction Hrun as [|k1 k2 k3 (c & Hp & E) _ IH]; [done|]. intros Hok0. apply IH.
  destruct (call_ok c k1 ltac:(done) Hok0 Hp) as (k' & E' & ?). congruence.
Qed.

Lemma walk_is_traversal_witness :
  let down := λ g k, Ok (0, emit [start_cfs_bandwidth g] k) in
  let up := λ g k, Ok (if decide (g = 1) then 7 else 0, emit [refill_cfs_bandwidth_runtime g] k) in
  let t := Node 0 [Node 1 [Node 2 []]] in
  walk_tg_tree_from down up (root_of t) example = visit down up t example ∧
  match visit down up t example with
  | Ok (r, k) => r = 7 ∧ drop (length (ops example)) (ops k) =
      [start_cfs_bandwidth 0; start_cfs_bandwidth 1; start_cfs_bandwidth 2;
       refill_cfs_bandwidth_runtime 2; refill_cfs_bandwidth_runtime 1]
  | _ => False
  end.
Proof.
  split; [|by vm_compute]. apply (walk_is_traversal _ _ example None (Node 0 [Node 1 [Node 2 []]])).
  - by intros g k r k' [= _ <-].
  - by intros g k r k' [= _ <-].
  - by vm_compute.
  - by_decision.
Defined.

Lemma set_cfs_bandwidth_correct_witness :
  cgroup_subsys_on_dfl = false ∧
  ∃ tg r k', tg_set_cfs_bandwidth 2 100000000 70000000 example = Ok (r, k') ∧
    outcome 2 100000000 70000000 example tg r k'.
Proof.
  split; [done|]. eexists. apply set_cfs_bandwidth_correct; [done|exact example_ok|by vm_compute].
Defined.

Lemma controller_invariant_witness :
  group_ok example ∧ ∀ c, possible c example → ∃ k', run_call c example = Ok k'.
Proof.
  apply (controller_invariant 1024 no_limit); [done|exact no_limit_ok|done|exact example_reached].
Defined.

Lemma quota_roundtrip_witness :
  let k' := match cpu_cfs_quota_write_s64 2 30000 example with Ok (_, k) => k | _ => example end in
  ∃ tg tg', tgs example !! 2 = Some tg ∧ tgs k' !! 2 = Some tg' ∧
    cpu_cfs_quota_read_s64 tg' = Z.max 30000 (-1) ∧
    cpu_cfs_period_read_u64 tg' = cpu_cfs_period_read_u64 tg.
Proof.
  intros k'. eexists _, _. split; [by vm_compute|]. split; [by vm_compute|].
  apply (quota_roundtrip 2 30000 example k'); [done|exact example_ok|by vm_compute|lia|by vm_compute|by vm_compute].
Defined.

Lemma weight_roundtrip_witness :
  ∃ tg, tgs example !! 2 = Some tg ∧
  if decide (1 ≤ 10000 ≤ 10000)
  then ∃ tg', cpu_weight_write_u64 2 10000 example = (0, put 2 tg' example) ∧ cpu_weight_read_u64 tg' = 10000
  else cpu_weight_write_u64 2 10000 example = (- ERANGE, example).
Proof.
  eexists. split; [by vm_compute|]. apply weight_roundtrip with (tg := Tg (Some 1) [] (2^20) (Bw 100000000 (2^64 - 1) 524288));
    [done|by vm_compute].
Defined.

Lemma weight_nice_roundtrip_witness :
  ∃ tg, tgs example !! 2 = Some tg ∧
  if decide (MIN_NICE ≤ 19 ≤ MAX_NICE)
  then ∃ tg', cpu_weight_nice_write_s64 2 19 example = Ok (0, put 2 tg' example) ∧ cpu_weight_nice_read_s64 tg' = 19
  else cpu_weight_nice_write_s64 2 19 example = Ok (- ERANGE, example).
Proof.
  eexists. split; [by vm_compute|].
  apply weight_nice_roundtrip with (tg := Tg (Some 1) [] (2^20) (Bw 100000000 (2^64 - 1) 524288));
    [done|by vm_compute|done].
Defined.

Lemma cgroup2_has_no_hierarchy_witness :
  ∃ k', @__cfs_schedulable (linux_groups true) 2 100000000 70000000 example = Ok (0, k') ∧
    forget k' = forget example ∧
    ∀ h tg, online example h → tgs k' !! h = Some tg → hierarchical_quota (bandwidth tg) = -1.
Proof.
  apply (@cgroup2_has_no_hierarchy linux_5_11 (linux_groups true) _).
  - done.
  - exact (ok_tree _ example_ok).
  - exact (ok_bandwidths _ example_ok).
  - split; [|right]; by_decision.
Defined.
