(* ===== verification/Uclamp.v ===== *)
(** Utilisation clamping in the kernel of assignment 4
    (src/과제/OS과제/과제4/core.c and sched.h): the clamps of tasks, run
    queues and task groups, and the calls that set them. The configuration
    has CONFIG_UCLAMP_TASK and CONFIG_UCLAMP_TASK_GROUP. A region under the
    lock of a run queue or under uclamp_mutex is one step. *)
From S2P Require Import Prelude Sched Groups.
Local Open Scope Z_scope.

(** * Data *)

Inductive uclamp_id : Set := UCLAMP_MIN | UCLAMP_MAX.

#[global] Instance uclamp_id_eq_dec : EqDecision uclamp_id.
Proof. solve_decision. Defined.

(** An array indexed by [uclamp_id]. *)
Record clamps (A : Type) := Clamps { umin : A; umax : A }.
Arguments Clamps {A}.
Arguments umin {A}.
Arguments umax {A}.

Definition at_id {A} (id : uclamp_id) (c : clamps A) : A :=
  match id with UCLAMP_MIN => umin c | UCLAMP_MAX => umax c end.
Definition set_id {A} (id : uclamp_id) (a : A) (c : clamps A) : clamps A :=
  match id with UCLAMP_MIN => Clamps a (umax c) | UCLAMP_MAX => Clamps (umin c) a end.

(** [for_each_clamp_id]. *)
Definition for_each_clamp_id {S} (f : uclamp_id → S → res S) (s : S) : res S :=
  s ← f UCLAMP_MIN s; f UCLAMP_MAX s.

Record uclamp_se := Se { value : Z; bucket_id : Z; active : bool; user_defined : bool }.

Record uclamp_bucket := Bucket { b_value : Z; b_tasks : Z }.
Record uclamp_rq := URq { rq_value : Z; bucket : list uclamp_bucket }.
(** [idle_flag] is UCLAMP_FLAG_IDLE in [uclamp_flags]. *)
Record rq := Rq { clamp_of : clamps uclamp_rq; idle_flag : bool }.

Record task := Task {
  uclamp_req : clamps uclamp_se;
  uclamp : clamps uclamp_se;
  rt_task : bool;
  uclamp_enabled : bool;          (** of its scheduling class *)
  sched_reset_on_fork : bool;
  task_group : Z;
  in_autogroup : bool;
  task_cpu : Z;
}.

(** A task group: requested and effective clamps, and the percentage asked for. *)
Record tg_clamps := Tgc { tg_req : clamps uclamp_se; tg_eff : clamps uclamp_se; tg_pct : clamps Z }.

Record sysctl := Sysctl {
  uclamp_default : clamps uclamp_se;
  sysctl_sched_uclamp_util_min : Z;
  sysctl_sched_uclamp_util_max : Z;
  sysctl_sched_uclamp_util_min_rt_default : Z;
  sched_uclamp_used : bool;
}.

Record state := State {
  sys : sysctl;
  rqs : gmap Z rq;
  tasks : gmap Z task;
  tgcs : gmap Z tg_clamps;
  grp : groups;
}.

Definition set_req (r : clamps uclamp_se) (p : task) : task :=
  Task r (uclamp p) (rt_task p) (uclamp_enabled p) (sched_reset_on_fork p) (task_group p)
       (in_autogroup p) (task_cpu p).
Definition set_eff (e : clamps uclamp_se) (p : task) : task :=
  Task (uclamp_req p) e (rt_task p) (uclamp_enabled p) (sched_reset_on_fork p) (task_group p)
       (in_autogroup p) (task_cpu p).
Definition put_task (pid : Z) (p : task) (s : state) : state :=
  State (sys s) (rqs s) (<[pid := p]> (tasks s)) (tgcs s) (grp s).
Definition put_rq (cpu : Z) (q : rq) (s : state) : state :=
  State (sys s) (<[cpu := q]> (rqs s)) (tasks s) (tgcs s) (grp s).
Definition put_tgc (g : Z) (c : tg_clamps) (s : state) : state :=
  State (sys s) (rqs s) (tasks s) (<[g := c]> (tgcs s)) (grp s).
Definition put_sys (y : sysctl) (s : state) : state :=
  State y (rqs s) (tasks s) (tgcs s) (grp s).
Definition enable_uclamp (s : state) : state :=
  let y := sys s in
  put_sys (Sysctl (uclamp_default y) (sysctl_sched_uclamp_util_min y) (sysctl_sched_uclamp_util_max y)
             (sysctl_sched_uclamp_util_min_rt_default y) true) s.

(** The constants of other headers and of the configuration, and the
    functions of the control group core the code uses. *)
Class uclamp_headers := {
  SCHED_CAPACITY_SHIFT : Z;
  SCHED_CAPACITY_SCALE : Z;
  UCLAMP_BUCKETS : Z;                      (** CONFIG_UCLAMP_BUCKETS_COUNT *)
  bits_per : Z → Z;
  css_tasks : Z → list Z;                  (** [css_task_iter]: the tasks of a group *)
  css_next_descendant_pre : option Z → Z → option Z;
  css_rightmost_descendant : Z → Z;
  cgroup_parse_float : string → Z → Z + Z;
  strim : string → string;
}.

Class uclamp_headers_ok `{uclamp_headers} : Prop := {
  capacity_shift : SCHED_CAPACITY_SHIFT = 10;
  capacity_scale : SCHED_CAPACITY_SCALE = 1024;
  buckets_range : 5 ≤ UCLAMP_BUCKETS ≤ 20;
  bits_per_enough : ∀ n, 0 < n → n < 2 ^ bits_per n ∧ 0 ≤ bits_per n;
}.

Section uclamp.
Context `{uclamp_headers}.

(** * Clamps of one entity *)

Definition DIV_ROUND_CLOSEST (x d : Z) : Z := (x + d / 2) / d.
Definition UCLAMP_BUCKET_DELTA : Z := DIV_ROUND_CLOSEST SCHED_CAPACITY_SCALE UCLAMP_BUCKETS.

Definition uclamp_bucket_id (clamp_value : Z) : Z :=
  Z.min (clamp_value / UCLAMP_BUCKET_DELTA) (UCLAMP_BUCKETS - 1).

Definition uclamp_none (id : uclamp_id) : Z :=
  match id with UCLAMP_MIN => 0 | UCLAMP_MAX => SCHED_CAPACITY_SCALE end.

(** The fields have [bits_per] bits. *)
Definition uclamp_se_set (v : Z) (ud : bool) (se : uclamp_se) : uclamp_se :=
  Se (v mod 2 ^ bits_per SCHED_CAPACITY_SCALE) (uclamp_bucket_id v mod 2 ^ bits_per UCLAMP_BUCKETS)
     (active se) ud.

Definition set_active (b : bool) (se : uclamp_se) : uclamp_se :=
  Se (value se) (bucket_id se) b (user_defined se).

Definition uclamp_tg_restrict (s : state) (p : task) (id : uclamp_id) : res uclamp_se :=
  let uc_req := at_id id (uclamp_req p) in
  if in_autogroup p then Ok uc_req
  else if decide (task_group p = root_task_group) then Ok uc_req
  else
    c ← opt NullPointer (tgcs s !! task_group p);
    let uc_max := at_id id (tg_eff c) in
    Ok (if bool_decide (value uc_req > value uc_max) || negb (user_defined uc_req) then uc_max else uc_req).

Definition uclamp_eff_get (s : state) (p : task) (id : uclamp_id) : res uclamp_se :=
  uc_req ← uclamp_tg_restrict s p id;
  let uc_max := at_id id (uclamp_default (sys s)) in
  Ok (if decide (value uc_req > value uc_max) then uc_max else uc_req).

Definition uclamp_eff_value (s : state) (p : task) (id : uclamp_id) : res Z :=
  if active (at_id id (uclamp p)) then Ok (value (at_id id (uclamp p)))
  else uc_eff ← uclamp_eff_get s p id; Ok (value uc_eff).

(** * Run queues *)

Definition uclamp_idle_value (q : rq) (id : uclamp_id) (clamp_value : Z) : Z * rq :=
  match id with
  | UCLAMP_MAX => (clamp_value, Rq (clamp_of q) true)
  | UCLAMP_MIN => (uclamp_none UCLAMP_MIN, q)
  end.

Definition set_rq_value (id : uclamp_id) (v : Z) (q : rq) : rq :=
  Rq (set_id id (URq v (bucket (at_id id (clamp_of q)))) (clamp_of q)) (idle_flag q).
Definition set_buckets (id : uclamp_id) (l : list uclamp_bucket) (q : rq) : rq :=
  Rq (set_id id (URq (rq_value (at_id id (clamp_of q))) l) (clamp_of q)) (idle_flag q).

Definition uclamp_idle_reset (q : rq) (id : uclamp_id) (clamp_value : Z) : rq :=
  if idle_flag q then set_rq_value id clamp_value q else q.

(** The value of the last bucket of the list that has tasks. *)
Fixpoint top_bucket (l : list uclamp_bucket) : option Z :=
  match l with
  | [] => None
  | b :: l =>
      match top_bucket l with
      | Some v => Some v
      | None => if decide (b_tasks b = 0) then None else Some (b_value b)
      end
  end.

Definition uclamp_rq_max_value (q : rq) (id : uclamp_id) (clamp_value : Z) : Z * rq :=
  match top_bucket (bucket (at_id id (clamp_of q))) with
  | Some v => (v, q)
  | None => uclamp_idle_value q id clamp_value
  end.

Definition uclamp_rq_inc_id (s : state) (id : uclamp_id) (qp : rq * task) : res (rq * task) :=
  let '(q, p) := qp in
  eff ← uclamp_eff_get s p id;
  let l := bucket (at_id id (clamp_of q)) in
  b ← rd l (bucket_id eff);
  let tasks := b_tasks b + 1 in
  let se := set_active true eff in
  let p := set_eff (set_id id se (uclamp p)) p in
  let q := uclamp_idle_reset q id (value se) in
  let v := if decide (tasks = 1 ∨ value se > b_value b) then value se else b_value b in
  l ← wr l (bucket_id eff) (Bucket v tasks);
  let q := set_buckets id l q in
  Ok (if decide (value se > rq_value (at_id id (clamp_of q))) then set_rq_value id (value se) q else q, p).

Definition uclamp_rq_dec_id (id : uclamp_id) (qp : rq * task) : res (rq * task) :=
  let '(q, p) := qp in
  let se := at_id id (uclamp p) in
  if negb (active se) then Ok (q, p)
  else
    let l := bucket (at_id id (clamp_of q)) in
    b ← rd l (bucket_id se);
    let tasks := if decide (b_tasks b = 0) then 0 else b_tasks b - 1 in
    l ← wr l (bucket_id se) (Bucket (b_value b) tasks);
    let q := set_buckets id l q in
    let p := set_eff (set_id id (set_active false se) (uclamp p)) p in
    if decide (tasks ≠ 0) then Ok (q, p)
    else if decide (rq_value (at_id id (clamp_of q)) ≤ b_value b)
    then let '(v, q) := uclamp_rq_max_value q id (value se) in Ok (set_rq_value id v q, p)
    else Ok (q, p).

Definition uclamp_rq_inc (s : state) (qp : rq * task) : res (rq * task) :=
  if negb (sched_uclamp_used (sys s)) then Ok qp
  else if negb (uclamp_enabled (snd qp)) then Ok qp
  else
    '(q, p) ← for_each_clamp_id (uclamp_rq_inc_id s) qp;
    Ok (Rq (clamp_of q) false, p).

Definition uclamp_rq_dec (s : state) (qp : rq * task) : res (rq * task) :=
  if negb (sched_uclamp_used (sys s)) then Ok qp
  else if negb (uclamp_enabled (snd qp)) then Ok qp
  else for_each_clamp_id uclamp_rq_dec_id qp.

(** An operation on a task and its run queue. *)
Definition on_rq (pid : Z) (f : rq * task → res (rq * task)) (s : state) : res state :=
  p ← opt NullPointer (tasks s !! pid);
  q ← opt NullPointer (rqs s !! task_cpu p);
  '(q, p) ← f (q, p);
  Ok (put_task pid p (put_rq (task_cpu p) q s)).

(** What [enqueue_task] and [dequeue_task] do to the clamps. *)
Definition enqueue_task (pid : Z) (s : state) : res state := on_rq pid (uclamp_rq_inc s) s.
Definition dequeue_task (pid : Z) (s : state) : res state := on_rq pid (uclamp_rq_dec s) s.

Definition uclamp_update_active (id : uclamp_id) (pid : Z) (s : state) : res state :=
  on_rq pid (λ '(q, p),
    if active (at_id id (uclamp p))
    then qp ← uclamp_rq_dec_id id (q, p); uclamp_rq_inc_id s id qp
    else Ok (q, p)) s.

(** * Task groups *)

Fixpoint for_each {A} (l : list A) (f : A → state → res state) (s : state) : res state :=
  match l with [] => Ok s | x :: l => s ← f x s; for_each l f s end.

(** [clamps]: the bits of the clamps that changed. *)
Definition uclamp_update_active_tasks (css : Z) (changed : clamps bool) (s : state) : res state :=
  for_each (css_tasks css) (λ pid,
    for_each_clamp_id (λ id s, if at_id id changed then uclamp_update_active id pid s else Ok s)) s.

Definition alloc_uclamp_sched_group (g p : Z) (s : state) : res state :=
  c ← opt NullPointer (tgcs s !! p);
  let none id := uclamp_se_set (uclamp_none id) false (Se 0 0 false false) in
  Ok (put_tgc g (Tgc (Clamps (none UCLAMP_MIN) (none UCLAMP_MAX)) (tg_eff c) (Clamps 0 0)) s).

(** The effective clamps of [g] as the loop computes them. *)
Definition effective (g : Z) (s : state) : res (clamps Z) :=
  tg ← get (grp s) g;
  c ← opt NullPointer (tgcs s !! g);
  up ← (match parent tg with
        | None => Ok None
        | Some p => pc ← opt NullPointer (tgcs s !! p); Ok (Some (tg_eff pc))
        end);
  let capped id :=
    let v := value (at_id id (tg_req c)) in
    match up with Some e => Z.min v (value (at_id id e)) | None => v end in
  Ok (Clamps (Z.min (capped UCLAMP_MIN) (capped UCLAMP_MAX)) (capped UCLAMP_MAX)).

(** A new effective clamp: [bucket_id] is set with [value], no other field. *)
Definition set_value (v : Z) (se : uclamp_se) : uclamp_se :=
  Se (v mod 2 ^ bits_per SCHED_CAPACITY_SCALE) (uclamp_bucket_id v mod 2 ^ bits_per UCLAMP_BUCKETS)
     (active se) (user_defined se).

(** One group of the loop: the state, and whether a clamp changed. *)
Definition update_group (g : Z) (s : state) : res (state * bool) :=
  eff ← effective g s;
  c ← opt NullPointer (tgcs s !! g);
  let changed id := negb (bool_decide (at_id id eff = value (at_id id (tg_eff c)))) in
  let new id := if changed id then set_value (at_id id eff) (at_id id (tg_eff c)) else at_id id (tg_eff c) in
  let s := put_tgc g (Tgc (tg_req c) (Clamps (new UCLAMP_MIN) (new UCLAMP_MAX)) (tg_pct c)) s in
  if negb (changed UCLAMP_MIN) && negb (changed UCLAMP_MAX) then Ok (s, false)
  else
    s ← uclamp_update_active_tasks g (Clamps (changed UCLAMP_MIN) (changed UCLAMP_MAX)) s;
    Ok (s, true).

(** [css_for_each_descendant_pre], from [css] on: an unchanged group takes
    the groups under it out of the loop. *)
Fixpoint update_loop (fuel : nat) (css : option Z) (top : Z) (s : state) : res state :=
  match css, fuel with
  | None, _ => Ok s
  | Some g, O => Undef Diverges
  | Some g, S fuel =>
      '(s, changed) ← update_group g s;
      let g := if changed : bool then g else css_rightmost_descendant g in
      update_loop fuel (css_next_descendant_pre (Some g) top) top s
  end.

(** Every group is visited at most once. *)
Definition cpu_util_update_eff (css : Z) (s : state) : res state :=
  update_loop (size (tgcs s)) (css_next_descendant_pre None css) css s.

Definition uclamp_update_root_tg (s : state) : res state :=
  c ← opt NullPointer (tgcs s !! root_task_group);
  let req := Clamps (uclamp_se_set (sysctl_sched_uclamp_util_min (sys s)) false (umin (tg_req c)))
                    (uclamp_se_set (sysctl_sched_uclamp_util_max (sys s)) false (umax (tg_req c))) in
  cpu_util_update_eff root_task_group (put_tgc root_task_group (Tgc req (tg_eff c) (tg_pct c)) s).

(** ** The files cpu.uclamp.min and cpu.uclamp.max *)

Definition UCLAMP_PERCENT_SHIFT : Z := 2.
Definition UCLAMP_PERCENT_SCALE : Z := 100 * 10 ^ UCLAMP_PERCENT_SHIFT.

Record uclamp_request := Request { percent : Z; util : Z; ret : Z }.

(** [percent] is an s64 compared as a u64. *)
Definition capacity_from_percent (buf : string) : uclamp_request :=
  let buf := strim buf in
  if decide (buf = "max"%string) then Request UCLAMP_PERCENT_SCALE SCHED_CAPACITY_SCALE 0
  else
    match cgroup_parse_float buf UCLAMP_PERCENT_SHIFT with
    | inl e => Request UCLAMP_PERCENT_SCALE SCHED_CAPACITY_SCALE e
    | inr percent =>
        if decide (wrapu64 percent > UCLAMP_PERCENT_SCALE)
        then Request percent SCHED_CAPACITY_SCALE (- ERANGE)
        else
          Request percent
            (DIV_ROUND_CLOSEST_ULL (wrapu64 (Z.shiftl percent SCHED_CAPACITY_SHIFT)) UCLAMP_PERCENT_SCALE) 0
    end.

Definition cpu_uclamp_write (g : Z) (buf : string) (id : uclamp_id) (s : state) : res (Z * state) :=
  let req := capacity_from_percent buf in
  if decide (ret req ≠ 0) then Ok (ret req, s)
  else
    let s := enable_uclamp s in
    c ← opt NullPointer (tgcs s !! g);
    let old := at_id id (tg_req c) in
    let r := if decide (value old ≠ util req) then set_id id (uclamp_se_set (util req) false old) (tg_req c)
             else tg_req c in
    let s := put_tgc g (Tgc r (tg_eff c) (set_id id (percent req) (tg_pct c))) s in
    s ← cpu_util_update_eff g s;
    Ok (Z.of_nat (String.length buf), s).

Definition cpu_uclamp_min_write (g : Z) (buf : string) (s : state) : res (Z * state) :=
  cpu_uclamp_write g buf UCLAMP_MIN s.
Definition cpu_uclamp_max_write (g : Z) (buf : string) (s : state) : res (Z * state) :=
  cpu_uclamp_write g buf UCLAMP_MAX s.

Definition pad2 (n : Z) : string := if decide (n < 10) then ("0" +:+ pretty n)%string else pretty n.

Definition cpu_uclamp_print (c : tg_clamps) (id : uclamp_id) : string :=
  if decide (value (at_id id (tg_req c)) = SCHED_CAPACITY_SCALE) then "max
"%string
  else
    let percent := wrapu64 (at_id id (tg_pct c)) in
    (pretty (percent / 10 ^ UCLAMP_PERCENT_SHIFT) +:+ "." +:+ pad2 (percent mod 10 ^ UCLAMP_PERCENT_SHIFT) +:+ "
")%string.

Definition cpu_uclamp_min_show (c : tg_clamps) : string := cpu_uclamp_print c UCLAMP_MIN.
Definition cpu_uclamp_max_show (c : tg_clamps) : string := cpu_uclamp_print c UCLAMP_MAX.

(** * The calls of a task *)

Definition __uclamp_update_util_min_rt_default (y : sysctl) (p : task) : task :=
  let se := umin (uclamp_req p) in
  if user_defined se then p
  else set_req (set_id UCLAMP_MIN
                  (uclamp_se_set (sysctl_sched_uclamp_util_min_rt_default y) false se) (uclamp_req p)) p.

Definition uclamp_update_util_min_rt_default (y : sysctl) (p : task) : task :=
  if rt_task p then __uclamp_update_util_min_rt_default y p else p.

Definition uclamp_sync_util_min_rt_default (s : state) : state :=
  State (sys s) (rqs s) (uclamp_update_util_min_rt_default (sys s) <$> tasks s) (tgcs s) (grp s).

(** [sched_util_min] and [sched_util_max] are of type u32, [has_min] and
    [has_max] the flags SCHED_FLAG_UTIL_CLAMP_MIN and _MAX. *)
Record util_attr := Util { has_min : bool; has_max : bool; sched_util_min : Z; sched_util_max : Z }.
Definition has_clamp (a : util_attr) : bool := has_min a || has_max a.

(** The values are of type int and SCHED_CAPACITY_SCALE is a long. *)
Definition uclamp_validate (p : task) (a : util_attr) (s : state) : Z * state :=
  let util_min := if has_min a then wrap32 (sched_util_min a) else value (umin (uclamp_req p)) in
  let util_max := if has_max a then wrap32 (sched_util_max a) else value (umax (uclamp_req p)) in
  if has_min a && bool_decide (wrap32 (util_min + 1) > SCHED_CAPACITY_SCALE + 1) then (- EINVAL, s)
  else if has_max a && bool_decide (wrap32 (util_max + 1) > SCHED_CAPACITY_SCALE + 1) then (- EINVAL, s)
  else if decide (util_min ≠ -1 ∧ util_max ≠ -1 ∧ util_min > util_max) then (- EINVAL, s)
  else (0, enable_uclamp s).

Definition uclamp_reset (a : util_attr) (id : uclamp_id) (se : uclamp_se) : bool :=
  (negb (has_clamp a) && negb (user_defined se)) ||
  match id with
  | UCLAMP_MIN => has_min a && bool_decide (sched_util_min a = wrapu32 (-1))
  | UCLAMP_MAX => has_max a && bool_decide (sched_util_max a = wrapu32 (-1))
  end.

Definition __setscheduler_uclamp (y : sysctl) (a : util_attr) (p : task) : task :=
  let reset id p :=
    let se := at_id id (uclamp_req p) in
    if uclamp_reset a id se then
      let v := if rt_task p && bool_decide (id = UCLAMP_MIN)
               then sysctl_sched_uclamp_util_min_rt_default y else uclamp_none id in
      set_req (set_id id (uclamp_se_set v false se) (uclamp_req p)) p
    else p in
  let set id v (p : task) :=
    set_req (set_id id (uclamp_se_set v true (at_id id (uclamp_req p))) (uclamp_req p)) p in
  let p := reset UCLAMP_MAX (reset UCLAMP_MIN p) in
  if negb (has_clamp a) then p
  else
    let p := if has_min a && negb (bool_decide (sched_util_min a = wrapu32 (-1)))
             then set UCLAMP_MIN (sched_util_min a) p else p in
    if has_max a && negb (bool_decide (sched_util_max a = wrapu32 (-1)))
    then set UCLAMP_MAX (sched_util_max a) p else p.

Definition uclamp_fork (p : task) : task :=
  let off id := set_active false (at_id id (uclamp p)) in
  let p := set_eff (Clamps (off UCLAMP_MIN) (off UCLAMP_MAX)) p in
  if negb (sched_reset_on_fork p) then p
  else
    let none id := uclamp_se_set (uclamp_none id) false (at_id id (uclamp_req p)) in
    set_req (Clamps (none UCLAMP_MIN) (none UCLAMP_MAX)) p.

Definition uclamp_post_fork (y : sysctl) (p : task) : task := uclamp_update_util_min_rt_default y p.

(** * The sysctl files and the boot *)

(** [proc]: what [proc_dointvec] returns and the values it stores. *)
Definition sysctl_sched_uclamp_handler (write : bool) (proc : Z * (Z * Z * Z)) (s : state) : res (Z * state) :=
  let y := sys s in
  let '(result, (new_min, new_max, new_rt)) := proc in
  let with_values a b c (y : sysctl) := Sysctl (uclamp_default y) a b c (sched_uclamp_used y) in
  let old_min := sysctl_sched_uclamp_util_min y in
  let old_max := sysctl_sched_uclamp_util_max y in
  let old_rt := sysctl_sched_uclamp_util_min_rt_default y in
  if decide (result ≠ 0) then Ok (result, s)
  else if negb write then Ok (0, put_sys (with_values new_min new_max new_rt y) s)
  else if decide (new_min > new_max ∨ new_max > SCHED_CAPACITY_SCALE ∨ new_rt > SCHED_CAPACITY_SCALE)
  then Ok (- EINVAL, s)
  else
    let d := uclamp_default y in
    let d := if decide (old_min ≠ new_min) then set_id UCLAMP_MIN (uclamp_se_set new_min false (umin d)) d else d in
    let d := if decide (old_max ≠ new_max) then set_id UCLAMP_MAX (uclamp_se_set new_max false (umax d)) d else d in
    let s := put_sys (Sysctl d new_min new_max new_rt (sched_uclamp_used y)) s in
    s ← (if decide (old_min ≠ new_min ∨ old_max ≠ new_max)
         then uclamp_update_root_tg (enable_uclamp s) else Ok s);
    Ok (0, if decide (old_rt ≠ new_rt) then uclamp_sync_util_min_rt_default (enable_uclamp s) else s).

Definition init_uclamp_rq : rq :=
  let clear id := URq (uclamp_none id) (replicate (Z.to_nat UCLAMP_BUCKETS) (Bucket 0 0)) in
  Rq (Clamps (clear UCLAMP_MIN) (clear UCLAMP_MAX)) false.

(** The clamps of [init_task], the system defaults and the root group. *)
Definition init_uclamp (cpus : list Z) (init : Z) (p : task) (g : groups) : state :=
  let zero := Se 0 0 false false in
  let set id := uclamp_se_set (uclamp_none id) false (at_id id (uclamp_req p)) in
  let uc_max := uclamp_se_set (uclamp_none UCLAMP_MAX) false zero in
  State (Sysctl (Clamps uc_max uc_max) SCHED_CAPACITY_SCALE SCHED_CAPACITY_SCALE SCHED_CAPACITY_SCALE false)
        (list_to_map ((λ cpu, (cpu, init_uclamp_rq)) <$> cpus))
        {[init := set_req (Clamps (set UCLAMP_MIN) (set UCLAMP_MAX)) p]}
        {[root_task_group := Tgc (Clamps uc_max uc_max) (Clamps uc_max uc_max) (Clamps 0 0)]} g.
End uclamp.

(** * The values of Linux 5.11 with 5 buckets, and a small hierarchy

    The group 1 has the groups 2 and 3; task 10 is in group 2. *)

#[global] Instance linux_uclamp : uclamp_headers := {
  SCHED_CAPACITY_SHIFT := 10;
  SCHED_CAPACITY_SCALE := 1024;
  UCLAMP_BUCKETS := 5;
  bits_per := λ n, Z.log2 n + 1;
  css_tasks := λ g, if decide (g = 2) then [10] else [];
  css_next_descendant_pre := λ pos top,
    match pos with
    | None => Some top
    | Some g => if decide (g = 1) then Some 2 else if decide (g = 2) then Some 3 else None
    end;
  css_rightmost_descendant := λ g, if decide (g = 1) then 3 else g;
  cgroup_parse_float := λ s _,
    if decide (s = "50"%string) then inr 5000 else if decide (s = "99.98"%string) then inr 9998 else inl (- EINVAL);
  strim := λ s, s;
}.

#[global] Instance linux_uclamp_ok : uclamp_headers_ok.
Proof.
  split; [done|done|simpl; lia|]. intros n Hn. simpl. pose proof (Z.log2_spec n Hn). pose proof (Z.log2_nonneg n).
  rewrite <- Z.add_1_r in *. lia.
Qed.
