(* ===== verification/UclampProofs.v ===== *)
(** Utilisation clamping: a run queue is clamped at least as high as each of
    its tasks asks for, the effective clamps of the groups are those of the
    hierarchy, and what the calls accept. *)
From S2P Require Import Prelude Sched Groups GroupsTree Uclamp.
Local Open Scope Z_scope.

Section proofs.
Context `{!uclamp_headers} `{!uclamp_headers_ok}.

(** * Specification *)

(** A clamp value with its bucket. *)
Definition se_ok (se : uclamp_se) : Prop :=
  0 ≤ value se ≤ 1024 ∧ bucket_id se = uclamp_bucket_id (value se).

(** The run queue [u] of one clamp for the clamps [M] of its tasks: the
    buckets count the tasks and hold a value of their range that is at least
    that of each of their tasks, and the value of the run queue is at least
    that of each bucket with tasks. *)
Record queue_ok (M : list uclamp_se) (u : uclamp_rq) : Prop := {
  q_length : Z.of_nat (length (bucket u)) = UCLAMP_BUCKETS;
  q_range : 0 ≤ rq_value u ≤ 1024;
  q_count : ∀ i b, bucket u !! i = Some b →
    b_tasks b = Z.of_nat (length (filter (λ se, bucket_id se = Z.of_nat i) M));
  q_bucket : ∀ i b, bucket u !! i = Some b → b_tasks b ≠ 0 →
    0 ≤ b_value b ≤ rq_value u ∧ uclamp_bucket_id (b_value b) = Z.of_nat i;
  q_covers : ∀ se b, se ∈ M → getZ (bucket u) (bucket_id se) = Some b → value se ≤ b_value b;
  q_members : Forall se_ok M;
}.

(** The clamps of the tasks that are counted on a processor. *)
Definition entry (cpu : Z) (id : uclamp_id) (p : task) : list uclamp_se :=
  if decide (task_cpu p = cpu ∧ active (at_id id (uclamp p)) = true) then [at_id id (uclamp p)] else [].
Definition members (m : gmap Z task) (cpu : Z) (id : uclamp_id) : list uclamp_se :=
  map_to_list m ≫= λ x, entry cpu id x.2.

(** * Buckets *)

Lemma delta_range : 51 ≤ UCLAMP_BUCKET_DELTA ≤ 206.
Proof.
  unfold UCLAMP_BUCKET_DELTA, DIV_ROUND_CLOSEST. rewrite capacity_scale. pose proof buckets_range.
  assert (0 ≤ UCLAMP_BUCKETS / 2 ≤ 10).
  { split; [apply Z.div_pos; lia|apply Z.div_le_upper_bound; lia]. }
  split; [apply Z.div_le_lower_bound; lia|]. apply Z.div_le_upper_bound; [lia|].
  pose proof (Z.div_mod UCLAMP_BUCKETS 2). pose proof (Z.mod_pos_bound UCLAMP_BUCKETS 2). lia.
Qed.

Lemma bucket_id_range v : 0 ≤ v → 0 ≤ uclamp_bucket_id v < UCLAMP_BUCKETS.
Proof.
  intros Hv. unfold uclamp_bucket_id. pose proof delta_range. pose proof buckets_range.
  assert (0 ≤ v / UCLAMP_BUCKET_DELTA) by (apply Z.div_pos; lia). lia.
Qed.

Lemma bucket_id_mono v w : v ≤ w → uclamp_bucket_id v ≤ uclamp_bucket_id w.
Proof.
  intros Hvw. unfold uclamp_bucket_id. pose proof delta_range.
  assert (v / UCLAMP_BUCKET_DELTA ≤ w / UCLAMP_BUCKET_DELTA) by (apply Z.div_le_mono; lia). lia.
Qed.

Lemma se_set_eq v ud se :
  0 ≤ v ≤ 1024 → uclamp_se_set v ud se = Se v (uclamp_bucket_id v) (active se) ud.
Proof.
  intros Hv. unfold uclamp_se_set. rewrite capacity_scale.
  destruct (bits_per_enough 1024) as [Hb1 _]; [lia|].
  pose proof buckets_range. destruct (bits_per_enough UCLAMP_BUCKETS) as [Hb2 _]; [lia|].
  pose proof (bucket_id_range v ltac:(lia)). rewrite !Z.mod_small by lia. done.
Qed.

Lemma se_set_ok v ud se : 0 ≤ v ≤ 1024 → se_ok (uclamp_se_set v ud se).
Proof. intros Hv. rewrite se_set_eq by done. by split. Qed.

Lemma none_range id : 0 ≤ uclamp_none id ≤ 1024.
Proof. destruct id; simpl; rewrite ?capacity_scale; lia. Qed.

Lemma se_ok_active b se : se_ok (set_active b se) ↔ se_ok se.
Proof. done. Qed.

Lemma se_bucket se : se_ok se → 0 ≤ bucket_id se < UCLAMP_BUCKETS.
Proof. intros [Hv ->]. apply bucket_id_range. lia. Qed.

Lemma queue_ok_perm M M' u : M ≡ₚ M' → queue_ok M u → queue_ok M' u.
Proof.
  intros HM [Q1 Q2 Q3 Q4 Q5 Q6]. split; try done.
  - intros i b Hb. rewrite <- HM. by apply Q3.
  - intros se b Hse. apply Q5. by rewrite HM.
  - by rewrite <- HM.
Qed.

Lemma queue_covers M u se : queue_ok M u → se ∈ M → value se ≤ rq_value u.
Proof.
  intros [Q1 Q2 Q3 Q4 Q5 Q6] Hse. rewrite Forall_forall in Q6. specialize (Q6 se Hse).
  pose proof (se_bucket _ Q6) as Hr. destruct (getZ_is_Some (bucket u) (bucket_id se)) as [b Hb]; [lia|].
  pose proof (Q5 se b Hse Hb) as Hv. unfold getZ in Hb. rewrite decide_True in Hb by lia.
  assert (b_tasks b ≠ 0) as Hn.
  { rewrite (Q3 _ _ Hb), Z2Nat.id by lia. assert (se ∈ filter (λ s, bucket_id s = bucket_id se) M) as Hin.
    { by apply list_elem_of_filter. }
    destruct (filter _ M); [by apply elem_of_nil in Hin|done]. }
  destruct (Q4 _ _ Hb Hn). lia.
Qed.

Lemma top_bucket_none l : top_bucket l = None ↔ ∀ i b, l !! i = Some b → b_tasks b = 0.
Proof.
  induction l as [|b l IH]; simpl; [split; [by intros _ i c Hc|done]|].
  destruct (top_bucket l) eqn:E.
  - split; [done|]. intros Hall. apply IH. intros i c Hc. by apply (Hall (S i)).
  - case_decide as Hb.
    + split; [|done]. intros _ [|i] c Hc; [by injection Hc as <-|]. by apply (proj1 IH eq_refl i).
    + split; [done|]. intros Hall. by destruct Hb, (Hall O b).
Qed.

Lemma top_bucket_some l v : top_bucket l = Some v →
  ∃ i b, l !! i = Some b ∧ b_tasks b ≠ 0 ∧ b_value b = v ∧
    ∀ j c, l !! j = Some c → b_tasks c ≠ 0 → (j ≤ i)%nat.
Proof.
  revert v. induction l as [|b l IH]; intros v; simpl; [done|]. destruct (top_bucket l) as [w|] eqn:E.
  - intros [= ->]. destruct (IH v eq_refl) as (i & c & Hc & Hn & Hv & Hmax). exists (S i), c.
    split; [done|]. split; [done|]. split; [done|]. intros [|j] d Hd Hdn; [lia|].
    pose proof (Hmax j d Hd Hdn). lia.
  - case_decide as Hb; [done|]. intros [= <-]. exists O, b. split; [done|]. split; [done|]. split; [done|].
    intros [|j] d Hd Hdn; [lia|]. rewrite top_bucket_none in E. by destruct Hdn, (E j d).
Qed.

(** * One run queue *)

(** [uclamp_rq_inc_id] and [uclamp_rq_dec_id] on the run queue of one clamp. *)
Definition inc_u (idle : bool) (eff : uclamp_se) (u : uclamp_rq) : res uclamp_rq :=
  b ← rd (bucket u) (bucket_id eff);
  let tasks := b_tasks b + 1 in
  let base := if idle then value eff else rq_value u in
  let v := if decide (tasks = 1 ∨ value eff > b_value b) then value eff else b_value b in
  l ← wr (bucket u) (bucket_id eff) (Bucket v tasks);
  Ok (URq (if decide (value eff > base) then value eff else base) l).

Definition dec_u (id : uclamp_id) (se : uclamp_se) (u : uclamp_rq) : res (uclamp_rq * bool) :=
  b ← rd (bucket u) (bucket_id se);
  let tasks := if decide (b_tasks b = 0) then 0 else b_tasks b - 1 in
  l ← wr (bucket u) (bucket_id se) (Bucket (b_value b) tasks);
  if decide (tasks ≠ 0) then Ok (URq (rq_value u) l, false)
  else if decide (rq_value u ≤ b_value b) then
    match top_bucket l with
    | Some v => Ok (URq v l, false)
    | None => match id with
              | UCLAMP_MIN => Ok (URq 0 l, false)
              | UCLAMP_MAX => Ok (URq (value se) l, true)
              end
    end
  else Ok (URq (rq_value u) l, false).

Lemma at_set_id {A} id (a : A) c : at_id id (set_id id a c) = a.
Proof. by destruct id. Qed.

Lemma set_set_id {A} id (a b : A) c : set_id id a (set_id id b c) = set_id id a c.
Proof. by destruct id. Qed.

Lemma inc_id_eq s id q p :
  uclamp_rq_inc_id s id (q, p) =
    (eff ← uclamp_eff_get s p id;
     u ← inc_u (idle_flag q) eff (at_id id (clamp_of q));
     Ok (Rq (set_id id u (clamp_of q)) (idle_flag q), set_eff (set_id id (set_active true eff) (uclamp p)) p)).
Proof.
  unfold uclamp_rq_inc_id, inc_u. destruct (uclamp_eff_get s p id) as [eff| |]; [|done..]. simpl.
  destruct (rd _ (bucket_id eff)) as [b| |]; [|done..]. simpl.
  destruct (wr _ (bucket_id eff) _) as [l| |]; [|done..]. simpl. unfold uclamp_idle_reset.
  destruct (idle_flag q) eqn:Ei; unfold set_buckets, set_rq_value; cbn [clamp_of idle_flag];
    rewrite ?at_set_id, ?set_set_id; cbn [rq_value bucket]; rewrite ?at_set_id, ?set_set_id;
    cbn [rq_value bucket]; case_decide; rewrite ?at_set_id, ?set_set_id, Ei; done.
Qed.

Lemma dec_id_eq id q p :
  uclamp_rq_dec_id id (q, p) =
    (let se := at_id id (uclamp p) in
     if negb (active se) then Ok (q, p)
     else
       '(u, idle) ← dec_u id se (at_id id (clamp_of q));
       Ok (Rq (set_id id u (clamp_of q)) (idle || idle_flag q),
           set_eff (set_id id (set_active false se) (uclamp p)) p)).
Proof.
  unfold uclamp_rq_dec_id, dec_u. cbv zeta. destruct (negb _); [done|].
  destruct (rd _ _) as [b| |]; [|done..]. simpl. set (n := if decide (b_tasks b = 0) then 0 else _).
  destruct (wr _ _ _) as [l| |]; [|done..]. simpl.
  unfold set_buckets, uclamp_rq_max_value, uclamp_idle_value. destruct (decide (n ≠ 0)); [done|]. cbn [clamp_of idle_flag].
  rewrite !at_set_id. cbn [rq_value bucket]. case_decide; [|done].
  destruct (top_bucket l); [unfold set_rq_value; cbn [clamp_of idle_flag]; by rewrite at_set_id, set_set_id|].
  destruct id; done.
Qed.

Lemma count_others i j (M : list uclamp_se) se :
  bucket_id se = j → i ≠ j →
  filter (λ s, bucket_id s = i) (se :: M) = filter (λ s, bucket_id s = i) M.
Proof. intros Hj Hij. apply filter_cons_False. congruence. Qed.

Lemma inc_u_ok M idle eff u :
  queue_ok M u → se_ok eff → (idle = true → M = []) →
  ∃ u', inc_u idle eff u = Ok u' ∧ queue_ok (set_active true eff :: M) u'.
Proof.
  intros [Q1 Q2 Q3 Q4 Q5 Q6] Heff Hidle. pose proof (se_bucket _ Heff) as Hr. pose proof Heff as [Hv Hid].
  destruct (getZ_is_Some (bucket u) (bucket_id eff)) as [b Hb]; [lia|].
  unfold inc_u. rewrite (proj2 (rd_ok_iff _ _ _) Hb). simpl. rewrite wr_ok by lia. simpl.
  eexists. split; [done|]. unfold getZ in Hb. rewrite decide_True in Hb by lia.
  set (n := Z.to_nat (bucket_id eff)) in *. assert (Z.of_nat n = bucket_id eff) as Hn by lia.
  assert (n < length (bucket u))%nat as Hlt by lia.
  set (base := if idle then value eff else rq_value u).
  assert (∀ i c, bucket u !! i = Some c → b_tasks c ≠ 0 → b_value c ≤ base ∧ 0 ≤ b_value c ∧
    uclamp_bucket_id (b_value c) = Z.of_nat i) as Hold.
  { intros i c Hc Hnz. destruct (Q4 i c Hc Hnz) as [? ?]. subst base. destruct idle; [|lia].
    rewrite Hidle in Q3 by done. rewrite (Q3 _ _ Hc) in Hnz. done. }
  assert (b_tasks b + 1 ≠ 0) as Hnz by (rewrite (Q3 _ _ Hb); lia).
  split; cbn [bucket rq_value].
  - by rewrite length_insert.
  - subst base. destruct idle; case_decide; lia.
  - intros i c. rewrite list_lookup_insert_Some. intros [(<- & <- & _)|[Hni Hc]]; cbn [b_tasks].
    + rewrite filter_cons_True by (simpl; lia). rewrite (Q3 _ _ Hb). simpl. lia.
    + rewrite (count_others _ (bucket_id eff)); [by apply Q3|done|lia].
  - intros i c. rewrite list_lookup_insert_Some. intros [(<- & <- & _)|[Hni Hc]] Hcn; cbn [b_value b_tasks] in *.
    + destruct (decide (b_tasks b + 1 = 1 ∨ value eff > b_value b)) as [Hnew|Hkeep].
      * split; [case_decide; lia|]. rewrite Hn. done.
      * destruct (Hold _ _ Hb) as (? & ? & ?); [lia|]. split; [case_decide; lia|done].
    + destruct (Hold _ _ Hc Hcn) as (? & ? & ?). split; [case_decide; lia|done].
  - intros se c Hse. unfold getZ. case_decide as Hpos; [|done]. rewrite list_lookup_insert_Some.
    intros [(Hi & <- & _)|[Hni Hc]]; cbn [b_value].
    + apply elem_of_cons in Hse as [->|Hse]; [simpl; case_decide; lia|].
      assert (value se ≤ b_value b) as Hle.
      { apply (Q5 se b Hse). unfold getZ. by rewrite decide_True, <- Hi by done. }
      assert (b_tasks b ≠ 0) as Hbn.
      { rewrite (Q3 _ _ Hb). assert (se ∈ filter (λ s, bucket_id s = Z.of_nat n) M) as Hin.
        { apply list_elem_of_filter. split; [lia|done]. }
        destruct (filter _ M); [by apply elem_of_nil in Hin|done]. }
      case_decide; lia.
    + apply elem_of_cons in Hse as [->|Hse]; [done|]. apply (Q5 se c Hse). unfold getZ. by rewrite decide_True.
  - by constructor.
Qed.

(** Removing a task from its bucket, the value of the run queue apart. *)
Lemma drop_task M u se b n l v :
  queue_ok (se :: M) u → bucket u !! n = Some b → Z.of_nat n = bucket_id se →
  l = <[n := Bucket (b_value b) (b_tasks b - 1)]> (bucket u) →
  0 ≤ v ≤ 1024 → (∀ i c, l !! i = Some c → b_tasks c ≠ 0 → b_value c ≤ v) →
  queue_ok M (URq v l).
Proof.
  intros [Q1 Q2 Q3 Q4 Q5 Q6] Hb Hn -> Hv Hmax. pose proof (Q3 _ _ Hb) as Hcount.
  rewrite filter_cons_True in Hcount by done. simpl in Hcount.
  split; cbn [bucket rq_value]; [by rewrite length_insert|done| | | |by apply Forall_cons in Q6 as [_ ?]].
  - intros i c. rewrite list_lookup_insert_Some. intros [(<- & <- & _)|[Hni Hc]]; cbn [b_tasks].
    + rewrite Hcount. lia.
    + rewrite (Q3 _ _ Hc), (count_others _ (bucket_id se)); [done|done|lia].
  - intros i c Hc Hcn. pose proof (Hmax i c Hc Hcn) as Hle. apply list_lookup_insert_Some in Hc as [(<- & <- & _)|[Hni Hc]]; cbn [b_value b_tasks] in *.
    + destruct (Q4 _ _ Hb) as [? ?]; [rewrite Hcount; lia|]. split; [lia|done].
    + destruct (Q4 _ _ Hc Hcn) as [? ?]. split; [lia|done].
  - intros s c Hs. unfold getZ. case_decide as Hpos; [|done]. rewrite list_lookup_insert_Some.
    intros [(Hi & <- & _)|[Hni Hc]]; cbn [b_value]; apply Q5; try (by right); unfold getZ; rewrite decide_True by done;
      [by rewrite <- Hi|done].
Qed.

Lemma no_tasks M u : queue_ok M u → (∀ i b, bucket u !! i = Some b → b_tasks b = 0) → M = [].
Proof.
  intros [Q1 Q2 Q3 Q4 Q5 Q6] Hall. destruct M as [|x M]; [done|]. exfalso.
  apply Forall_cons in Q6 as [Hx _]. pose proof (se_bucket _ Hx).
  destruct (getZ_is_Some (bucket u) (bucket_id x)) as [b Hb]; [lia|].
  unfold getZ in Hb. rewrite decide_True in Hb by lia. pose proof (Hall _ _ Hb) as H0'.
  rewrite (Q3 _ _ Hb), filter_cons_True in H0' by lia. simpl in H0'. lia.
Qed.

Lemma dec_u_ok M id se u :
  queue_ok (se :: M) u →
  ∃ u' idle, dec_u id se u = Ok (u', idle) ∧ queue_ok M u' ∧ (idle = true → M = []).
Proof.
  intros Hq. pose proof Hq as [Q1 Q2 Q3 Q4 Q5 Q6]. apply Forall_cons in Q6 as [Hse _].
  pose proof (se_bucket _ Hse) as Hr.
  destruct (getZ_is_Some (bucket u) (bucket_id se)) as [b Hb]; [lia|].
  unfold dec_u. rewrite (proj2 (rd_ok_iff _ _ _) Hb). simpl.
  unfold getZ in Hb. rewrite decide_True in Hb by lia.
  set (n := Z.to_nat (bucket_id se)) in *. assert (Z.of_nat n = bucket_id se) as Hn by lia.
  pose proof (Q3 _ _ Hb) as Hcount. rewrite filter_cons_True in Hcount by done. simpl in Hcount.
  rewrite (decide_False (P := b_tasks b = 0)) by lia. rewrite wr_ok by lia. fold n. simpl.
  set (l := <[n := _]> (bucket u)).
  assert (∀ i c, l !! i = Some c → b_tasks c ≠ 0 →
    0 ≤ b_value c ≤ rq_value u ∧ uclamp_bucket_id (b_value c) = Z.of_nat i) as Hl.
  { intros i c Hc Hcn. apply list_lookup_insert_Some in Hc as [(<- & <- & _)|[_ Hc]]; [|by apply Q4].
    apply (Q4 _ _ Hb). lia. }
  assert (∀ v, 0 ≤ v ≤ 1024 → (∀ i c, l !! i = Some c → b_tasks c ≠ 0 → b_value c ≤ v) → queue_ok M (URq v l)) as Hdrop.
  { intros v Hv Hmax. by eapply drop_task. }
  assert (queue_ok M (URq (rq_value u) l)) as Hsame.
  { apply Hdrop; [done|]. intros i c Hc Hcn. destruct (Hl i c Hc Hcn). lia. }
  destruct (decide (b_tasks b - 1 ≠ 0)); [by eexists _, _|].
  destruct (decide (rq_value u ≤ b_value b)); [|by eexists _, _].
  destruct (top_bucket l) as [v|] eqn:Et.
  - apply top_bucket_some in Et as (i & c & Hc & Hcn & <- & Hmax). destruct (Hl i c Hc Hcn) as [Hcv Hci].
    eexists _, _. split; [done|]. split; [|done]. apply Hdrop; [lia|]. intros j d Hd Hdn.
    destruct (Hl j d Hd Hdn) as [_ Hdj]. pose proof (Hmax j d Hd Hdn).
    destruct (decide (j = i)) as [->|]; [naive_solver|].
    destruct (Z.le_gt_cases (b_value d) (b_value c)) as [|Hgt]; [done|].
    pose proof (bucket_id_mono (b_value c) (b_value d)). lia.
  - rewrite top_bucket_none in Et. destruct Hse as [Hv _].
    assert (∀ v, 0 ≤ v ≤ 1024 → queue_ok M (URq v l)) as Hempty.
    { intros v Hv'. apply Hdrop; [done|]. intros i c Hc Hcn. by destruct Hcn, (Et i c). }
    assert (M = []) as HM by (by apply (no_tasks M (URq 0 l)); [apply Hempty; lia|]).
    destruct id; eexists _, _; (split; [done|]); (split; [|done]); apply Hempty; lia.
Qed.

Lemma empty_ok v :
  0 ≤ v ≤ 1024 → queue_ok [] (URq v (replicate (Z.to_nat UCLAMP_BUCKETS) (Bucket 0 0))).
Proof.
  intros Hv. pose proof buckets_range. split; cbn [bucket rq_value]; try done.
  - rewrite length_replicate. lia.
  - intros i b [-> _]%lookup_replicate. done.
  - intros i b [-> _]%lookup_replicate. done.
  - by intros se b ?%elem_of_nil.
Qed.

(** * All run queues *)

Definition inactive (p : task) : Prop := ∀ id, active (at_id id (uclamp p)) = false.

(** The task asks for valid clamps and belongs to a processor and a group. *)
Definition task_ok (s : state) (p : task) : Prop :=
  (∀ id, se_ok (at_id id (uclamp_req p))) ∧ is_Some (rqs s !! task_cpu p) ∧ is_Some (tgcs s !! task_group p).

Record state_ok (s : state) : Prop := {
  ok_defaults : ∀ id, se_ok (at_id id (uclamp_default (sys s)));
  ok_groups : ∀ g c id, tgcs s !! g = Some c → se_ok (at_id id (tg_eff c));
  ok_task : ∀ pid p, tasks s !! pid = Some p → task_ok s p;
  ok_both : ∀ pid p, tasks s !! pid = Some p → active (umin (uclamp p)) = active (umax (uclamp p));
  ok_queue : ∀ cpu q id, rqs s !! cpu = Some q → queue_ok (members (tasks s) cpu id) (at_id id (clamp_of q));
  ok_idle : ∀ cpu q id, rqs s !! cpu = Some q → idle_flag q = true → members (tasks s) cpu id = [];
}.

(** What may happen to the clamps between two looks at them: tasks come and
    go on their run queues, a task that is on none is changed or moved, the
    requests of a task change, the defaults and the clamps of groups are set, and a task
    on its run queue follows such a change, the maximum of the only task there apart. *)
Inductive change (s : state) : state → Prop :=
  | change_enqueue pid p s' : tasks s !! pid = Some p → inactive p →
      enqueue_task pid s = Ok s' → change s s'
  | change_dequeue pid s' : is_Some (tasks s !! pid) → dequeue_task pid s = Ok s' → change s s'
  | change_task pid p : (∀ p0, tasks s !! pid = Some p0 → inactive p0) → inactive p → task_ok s p →
      change s (put_task pid p s)
  | change_sys y : (∀ id, se_ok (at_id id (uclamp_default y))) → change s (put_sys y s)
  | change_group g c : (∀ id, se_ok (at_id id (tg_eff c))) → change s (put_tgc g c s)
  | change_request pid p r : tasks s !! pid = Some p → (∀ id, se_ok (at_id id r)) → change s (put_task pid (set_req r p) s)
  | change_active id pid p s' : tasks s !! pid = Some p →
      id = UCLAMP_MIN ∨ members (delete pid (tasks s)) (task_cpu p) UCLAMP_MAX ≠ [] →
      uclamp_update_active id pid s = Ok s' → change s s'.

Lemma members_delete m pid p cpu id :
  m !! pid = Some p → members m cpu id ≡ₚ entry cpu id p ++ members (delete pid m) cpu id.
Proof.
  intros Hp. unfold members. rewrite <- (insert_delete_id m pid p Hp) at 1.
  rewrite map_to_list_insert by apply lookup_delete_eq. done.
Qed.

Lemma members_insert m pid p cpu id :
  members (<[pid := p]> m) cpu id ≡ₚ entry cpu id p ++ members (delete pid m) cpu id.
Proof.
  rewrite (members_delete _ pid p) by apply lookup_insert_eq. by rewrite delete_insert_eq.
Qed.

Lemma entry_inactive cpu id p : inactive p → entry cpu id p = [].
Proof. intros Hp. unfold entry. rewrite decide_False; [done|]. rewrite Hp. naive_solver. Qed.

Lemma entry_other cpu id p : task_cpu p ≠ cpu → entry cpu id p = [].
Proof. intros Hp. unfold entry. rewrite decide_False; [done|]. naive_solver. Qed.

Lemma entry_active cpu id p :
  task_cpu p = cpu → active (at_id id (uclamp p)) = true → entry cpu id p = [at_id id (uclamp p)].
Proof. intros. unfold entry. by rewrite decide_True. Qed.

Lemma entry_at id p cpu : task_cpu p = cpu → entry cpu id p = if active (at_id id (uclamp p)) then [at_id id (uclamp p)] else [].
Proof. intros Hx. unfold entry. destruct (active (at_id id (uclamp p))); case_decide; naive_solver. Qed.

Lemma members_nil m cpu id :
  members m cpu id = [] ↔
  ∀ pid p, m !! pid = Some p → task_cpu p = cpu → active (at_id id (uclamp p)) = false.
Proof.
  split.
  - intros Hm pid p Hp Hcpu. destruct (active (at_id id (uclamp p))) eqn:Ha; [|done].
    pose proof (members_delete m pid p cpu id Hp) as Hperm.
    rewrite Hm, entry_active in Hperm by done. by apply Permutation_nil_cons in Hperm.
  - intros Hall. unfold members. assert (∀ x, x ∈ map_to_list m → entry cpu id x.2 = []) as He.
    { intros [pid p] Hx%elem_of_map_to_list. unfold entry. rewrite decide_False; [done|].
      intros [Hc Ha]. simpl in *. rewrite (Hall pid p) in Ha; done. }
    induction (map_to_list m) as [|x l IH]; [done|]. rewrite bind_cons, He by left. apply IH. intros y Hy. apply He. by right.
Qed.

Lemma members_both m cpu id id' :
  (∀ pid p, m !! pid = Some p → active (umin (uclamp p)) = active (umax (uclamp p))) →
  members m cpu id = [] → members m cpu id' = [].
Proof.
  intros Hb. rewrite !members_nil. intros Hall pid p Hp Hc. specialize (Hall pid p Hp Hc). specialize (Hb pid p Hp).
  destruct id, id'; simpl in *; congruence.
Qed.

Lemma eff_get_ok s p id :
  state_ok s → task_ok s p → ∃ eff, uclamp_eff_get s p id = Ok eff ∧ se_ok eff.
Proof.
  intros Hs (Hreq & _ & [c Hc]). unfold uclamp_eff_get, uclamp_tg_restrict. rewrite Hc.
  pose proof (ok_defaults _ Hs id) as Hd. pose proof (ok_groups _ Hs _ _ id Hc) as Hg. specialize (Hreq id).
  destruct (in_autogroup p); simpl; [case_decide; eauto|].
  case_decide; simpl; [case_decide; eauto|]. destruct (_ || _); case_decide; eauto.
Qed.

(** The state with a task and its run queue replaced. *)
Lemma put_both_ok s pid p p' q' :
  state_ok s → tasks s !! pid = Some p → task_cpu p' = task_cpu p → task_ok s p' →
  active (umin (uclamp p')) = active (umax (uclamp p')) →
  (∀ id, queue_ok (entry (task_cpu p) id p' ++ members (delete pid (tasks s)) (task_cpu p) id)
           (at_id id (clamp_of q'))) →
  (idle_flag q' = true → ∀ id, entry (task_cpu p) id p' ++ members (delete pid (tasks s)) (task_cpu p) id = []) →
  state_ok (put_task pid p' (put_rq (task_cpu p) q' s)).
Proof.
  intros [Q1 Q2 Q3 Q4 Q5 Q6] Hp Hcpu Hok Hboth Hq Hidle.
  assert (∀ x, task_ok s x → task_ok (put_task pid p' (put_rq (task_cpu p) q' s)) x) as Hkeep.
  { intros x (? & ? & ?). split; [done|]. split; [|done]. simpl. apply lookup_insert_is_Some'. by right. }
  assert (∀ cpu id, cpu ≠ task_cpu p → members (<[pid := p']> (tasks s)) cpu id ≡ₚ members (tasks s) cpu id) as Hother.
  { intros cpu id Hne. rewrite members_insert, (members_delete (tasks s) pid p) by done.
    by rewrite !entry_other by congruence. }
  split; cbn [sys tgcs tasks rqs put_task put_rq]; try done.
  - intros x px. rewrite lookup_insert_Some. intros [[<- <-]|[_ Hx]]; apply Hkeep; [done|by eapply Q3].
  - intros x px. rewrite lookup_insert_Some. intros [[<- <-]|[_ Hx]]; [done|by eapply Q4].
  - intros cpu q id. rewrite lookup_insert_Some. intros [[<- <-]|[Hne Hx]].
    + eapply queue_ok_perm; [symmetry; apply members_insert|apply Hq].
    + eapply queue_ok_perm; [symmetry; by apply Hother|by apply Q5].
  - intros cpu q id. rewrite lookup_insert_Some. intros [[<- <-]|[Hne Hx]] Hi.
    + apply Permutation_nil_r. rewrite members_insert. by rewrite Hidle.
    + apply Permutation_nil_r. rewrite Hother by done. by erewrite Q6.
Qed.

Lemma put_same s pid p :
  tasks s !! pid = Some p → ∀ q, rqs s !! task_cpu p = Some q → put_task pid p (put_rq (task_cpu p) q s) = s.
Proof. intros Hp q Hq. unfold put_task, put_rq. simpl. rewrite !insert_id by done. by destruct s. Qed.

Lemma eff_get_set s e p id : uclamp_eff_get s (set_eff e p) id = uclamp_eff_get s p id.
Proof. done. Qed.

Lemma enqueue_ok s pid p :
  state_ok s → tasks s !! pid = Some p → inactive p → ∃ s', enqueue_task pid s = Ok s' ∧ state_ok s'.
Proof.
  intros Hs Hp Hin. pose proof (ok_task _ Hs _ _ Hp) as Hok. pose proof Hok as (_ & [q Hq] & _).
  unfold enqueue_task, on_rq. rewrite Hp. simpl. rewrite Hq. simpl. unfold uclamp_rq_inc. cbn [snd].
  destruct (sched_uclamp_used (sys s)); simpl; [|by rewrite put_same; eauto].
  destruct (uclamp_enabled p); simpl; [|by rewrite put_same; eauto].
  unfold for_each_clamp_id. rewrite inc_id_eq.
  destruct (eff_get_ok s p UCLAMP_MIN Hs Hok) as (e0 & -> & He0).
  destruct (eff_get_ok s p UCLAMP_MAX Hs Hok) as (e1 & E1 & He1). cbn [mbind res_bind].
  destruct (inc_u_ok (members (tasks s) (task_cpu p) UCLAMP_MIN) (idle_flag q) e0 (at_id UCLAMP_MIN (clamp_of q))) as (u0 & -> & Hu0);
    [by apply (ok_queue _ Hs _ q UCLAMP_MIN)|done|by apply (ok_idle _ Hs)|].
  cbn [mbind res_bind]. rewrite inc_id_eq, eff_get_set, E1. cbn [mbind res_bind idle_flag clamp_of at_id set_id umax].
  destruct (inc_u_ok (members (tasks s) (task_cpu p) UCLAMP_MAX) (idle_flag q) e1 (umax (clamp_of q))) as (u1 & -> & Hu1);
    [by apply (ok_queue _ Hs _ q UCLAMP_MAX)|done|by apply (ok_idle _ Hs)|].
  cbn [mbind res_bind]. eexists. split; [done|]. apply (put_both_ok s pid p); try done.
  intros id. assert (members (tasks s) (task_cpu p) id ≡ₚ members (delete pid (tasks s)) (task_cpu p) id) as Hm.
  { rewrite (members_delete (tasks s) pid p), entry_inactive by done. done. }
  rewrite entry_active by (done || by destruct id). destruct id; (eapply queue_ok_perm; [|eassumption]); simpl; by rewrite <- Hm.
Qed.

Lemma dequeue_ok s pid p :
  state_ok s → tasks s !! pid = Some p → ∃ s', dequeue_task pid s = Ok s' ∧ state_ok s'.
Proof.
  intros Hs Hp. pose proof (ok_task _ Hs _ _ Hp) as Hok. pose proof Hok as (_ & [q Hq] & _).
  pose proof (ok_both _ Hs _ _ Hp) as Hboth.
  unfold dequeue_task, on_rq. rewrite Hp. simpl. rewrite Hq. simpl. unfold uclamp_rq_dec. cbn [snd].
  destruct (sched_uclamp_used (sys s)); simpl; [|by rewrite put_same; eauto].
  destruct (uclamp_enabled p); simpl; [|by rewrite put_same; eauto].
  unfold for_each_clamp_id. rewrite dec_id_eq. cbn [at_id].
  destruct (active (umin (uclamp p))) eqn:Ea; cbn [negb].
  - assert (∀ id, queue_ok (at_id id (uclamp p) :: members (delete pid (tasks s)) (task_cpu p) id) (at_id id (clamp_of q))) as Hqs.
    { intros id. eapply queue_ok_perm; [|by apply (ok_queue _ Hs _ q id Hq)].
      rewrite (members_delete (tasks s) pid p), entry_active by (done || by destruct id). done. }
    destruct (dec_u_ok _ UCLAMP_MIN _ _ (Hqs UCLAMP_MIN)) as (u0 & i0 & E0 & Hu0 & Hi0). simpl in E0. rewrite E0.
    cbn [mbind res_bind]. rewrite dec_id_eq. cbn [at_id uclamp set_eff set_id umax clamp_of]. rewrite <- Hboth. cbn [negb].
    destruct (dec_u_ok _ UCLAMP_MAX _ _ (Hqs UCLAMP_MAX)) as (u1 & i1 & E1 & Hu1 & Hi1). simpl in E1. rewrite E1.
    cbn [mbind res_bind]. eexists. split; [done|].
    apply (put_both_ok s pid p); try done.
    + intros id. rewrite entry_at by done. destruct id; simpl; done.
    + intros Hi id. rewrite entry_at by done. cbn [idle_flag] in Hi.
      assert (members (delete pid (tasks s)) (task_cpu p) id = []) as Hnil.
      { destruct (idle_flag q) eqn:Eq.
        - pose proof (ok_idle _ Hs _ q UCLAMP_MIN Hq Eq) as Hm. rewrite members_nil in Hm.
          specialize (Hm pid p Hp eq_refl). simpl in Hm. congruence.
        - assert (∀ x px, delete pid (tasks s) !! x = Some px → active (umin (uclamp px)) = active (umax (uclamp px))) as Hb.
          { intros x px [_ Hx]%lookup_delete_Some. by eapply (ok_both _ Hs). }
          destruct i1; [by eapply members_both; [|apply Hi1]|]. destruct i0; [by eapply members_both; [|apply Hi0]|]. done. }
      rewrite Hnil. by destruct id.
  - cbn [mbind res_bind]. rewrite dec_id_eq. cbn [at_id]. rewrite <- Hboth. simpl. rewrite put_same by done. eauto.
Qed.

Lemma dec_u_min se u u' i : dec_u UCLAMP_MIN se u = Ok (u', i) → i = false.
Proof.
  unfold dec_u. destruct (rd _ _) as [b| |]; [|done..]. cbn [mbind res_bind]. destruct (wr _ _ _) as [l| |]; [|done..].
  cbn [mbind res_bind]. repeat case_match; congruence.
Qed.

Lemma update_active_covers id pid s p :
  state_ok s → tasks s !! pid = Some p → id = UCLAMP_MIN ∨ members (delete pid (tasks s)) (task_cpu p) UCLAMP_MAX ≠ [] →
  ∃ s', uclamp_update_active id pid s = Ok s' ∧ state_ok s'.
Proof.
  intros Hs Hp Hid. pose proof (ok_task _ Hs _ _ Hp) as Hok. pose proof Hok as (_ & [q Hq] & _).
  pose proof (ok_both _ Hs _ _ Hp) as Hboth.
  unfold uclamp_update_active, on_rq. rewrite Hp. cbn [opt mbind res_bind]. rewrite Hq. cbn [opt mbind res_bind].
  destruct (active (at_id id (uclamp p))) eqn:Ea; [|cbn [mbind res_bind]; rewrite put_same by done; eauto].
  assert (∀ id', active (at_id id' (uclamp p)) = true) as Hact by (intros []; destruct id; cbn [at_id] in *; congruence).
  set (M := members (delete pid (tasks s)) (task_cpu p)) in *.
  assert (∀ id', queue_ok (at_id id' (uclamp p) :: M id') (at_id id' (clamp_of q))) as Hqs.
  { intros id'. eapply queue_ok_perm; [|by apply (ok_queue _ Hs _ q id' Hq)].
    rewrite (members_delete (tasks s) pid p), entry_active by done. done. }
  assert (idle_flag q = false) as Hidle.
  { destruct (idle_flag q) eqn:Eq; [|done]. pose proof (ok_idle _ Hs _ q id Hq Eq) as Hm. rewrite members_nil in Hm.
    specialize (Hm pid p Hp eq_refl). congruence. }
  rewrite dec_id_eq. cbv zeta. rewrite Ea. cbn [negb].
  destruct (dec_u_ok _ id _ _ (Hqs id)) as (u & i & Ed & Hu & Hi). rewrite Ed.
  assert (i = false) as ->.
  { destruct id; [by eapply dec_u_min|]. destruct i; [|done]. destruct Hid as [?|Hne]; [done|]. by destruct Hne, Hi. }
  cbn [mbind res_bind]. rewrite inc_id_eq, eff_get_set.
  destruct (eff_get_ok s p id Hs Hok) as (eff & -> & Heff). cbn [mbind res_bind clamp_of idle_flag]. rewrite at_set_id, Hidle.
  destruct (inc_u_ok (M id) (false || false) eff u Hu Heff) as (u' & -> & Hu'); [done|].
  cbn [mbind res_bind uclamp set_eff]. rewrite !set_set_id. eexists. split; [done|].
  apply (put_both_ok s pid p); try done.
  - pose proof (Hact UCLAMP_MIN). pose proof (Hact UCLAMP_MAX). destruct id; simpl in *; congruence.
  - intros id'. rewrite entry_at by done. cbn [uclamp set_eff clamp_of]. pose proof (Hqs id') as Hq'. pose proof (Hact id') as Ha'.
    destruct id, id'; cbn [at_id set_id umin umax active set_active app] in *; rewrite ?Ha'; done.
Qed.

Lemma request_ok s pid p r : state_ok s → tasks s !! pid = Some p → (∀ id, se_ok (at_id id r)) → state_ok (put_task pid (set_req r p) s).
Proof.
  intros [Q1 Q2 Q3 Q4 Q5 Q6] Hp Hr.
  assert (∀ cpu id, members (<[pid := set_req r p]> (tasks s)) cpu id ≡ₚ members (tasks s) cpu id) as Hm
    by (intros; by rewrite members_insert, (members_delete (tasks s) pid p)).
  split; cbn [sys tgcs tasks rqs put_task]; try done.
  - intros x px. rewrite lookup_insert_Some. intros [[<- <-]|[_ Hx]]; [|by eapply Q3].
    destruct (Q3 _ _ Hp) as (_ & ? & ?). by split_and!.
  - intros x px. rewrite lookup_insert_Some. intros [[<- <-]|[_ Hx]]; [by apply (Q4 _ _ Hp)|by eapply Q4].
  - intros cpu q id Hq. eapply queue_ok_perm; [symmetry; apply Hm|by apply Q5].
  - intros cpu q id Hq Hi. apply Permutation_nil_r. rewrite Hm. by erewrite Q6.
Qed.

Lemma change_ok s s' : state_ok s → change s s' → state_ok s'.
Proof.
  intros Hs [pid p s1 Hp Hin E|pid s1 [p Hp] E|pid p Hold Hin Hok|y Hy|g c Hc|pid p r Hp Hreq|id pid p s1 Hp Hid E].
  6: by apply request_ok.
  6: { destruct (update_active_covers id pid s p Hs Hp Hid) as (s2 & E2 & ?). congruence. }
  - destruct (enqueue_ok s pid p Hs Hp Hin) as (s2 & E2 & ?). congruence.
  - destruct (dequeue_ok s pid p Hs Hp) as (s2 & E2 & ?). congruence.
  - assert (∀ cpu id, members (<[pid := p]> (tasks s)) cpu id ≡ₚ members (tasks s) cpu id) as Hm.
    { intros cpu id. rewrite members_insert, entry_inactive by done. destruct (tasks s !! pid) as [p0|] eqn:Ep.
      - rewrite (members_delete (tasks s) pid p0), entry_inactive by auto. done.
      - by rewrite delete_id. }
    destruct Hs as [Q1 Q2 Q3 Q4 Q5 Q6]. split; cbn [sys tgcs tasks rqs put_task]; try done.
    + intros x px. rewrite lookup_insert_Some. intros [[<- <-]|[_ Hx]]; [done|by eapply Q3].
    + intros x px. rewrite lookup_insert_Some. intros [[<- <-]|[_ Hx]]; [|by eapply Q4].
      pose proof (Hin UCLAMP_MIN). pose proof (Hin UCLAMP_MAX). simpl in *. congruence.
    + intros cpu q id Hq. eapply queue_ok_perm; [symmetry; apply Hm|by apply Q5].
    + intros cpu q id Hq Hi. apply Permutation_nil_r. rewrite Hm. by erewrite Q6.
  - destruct Hs as [Q1 Q2 Q3 Q4 Q5 Q6]. by split.
  - destruct Hs as [Q1 Q2 Q3 Q4 Q5 Q6]. split; cbn [sys tgcs tasks rqs put_tgc]; try done.
    + intros h d id. rewrite lookup_insert_Some. intros [[<- <-]|[_ Hx]]; [done|by eapply Q2].
    + intros x px Hx. destruct (Q3 x px Hx) as (? & ? & ?). split; [done|]. split; [done|].
      simpl. apply lookup_insert_is_Some'. by right.
Qed.

(** * The calls of a task *)

(** The values given are in the range of a capacity, or -1 for a reset. *)
Definition util_ok (a : util_attr) : Prop :=
  (has_min a = true → 0 ≤ sched_util_min a ≤ 1024 ∨ sched_util_min a = wrapu32 (-1)) ∧
  (has_max a = true → 0 ≤ sched_util_max a ≤ 1024 ∨ sched_util_max a = wrapu32 (-1)).

Lemma set_req_ok s id v ud p :
  0 ≤ v ≤ 1024 → task_ok s p →
  task_ok s (set_req (set_id id (uclamp_se_set v ud (at_id id (uclamp_req p))) (uclamp_req p)) p).
Proof.
  intros Hv (Hr & Hq & Hg). split; [|done]. intros id'. specialize (Hr id').
  destruct id, id'; simpl in *; try done; by apply se_set_ok.
Qed.

Lemma setscheduler_uclamp_ok s a p :
  util_ok a → 0 ≤ sysctl_sched_uclamp_util_min_rt_default (sys s) ≤ 1024 →
  task_ok s p → task_ok s (__setscheduler_uclamp (sys s) a p).
Proof.
  intros [Hmin Hmax] Hrt Hok. unfold __setscheduler_uclamp.
  assert (∀ id p, task_ok s p → task_ok s
    (if uclamp_reset a id (at_id id (uclamp_req p)) then
       set_req (set_id id (uclamp_se_set (if rt_task p && bool_decide (id = UCLAMP_MIN)
         then sysctl_sched_uclamp_util_min_rt_default (sys s) else uclamp_none id) false (at_id id (uclamp_req p)))
         (uclamp_req p)) p else p)) as Hreset.
  { intros id x Hx. destruct (uclamp_reset _ _ _); [|done]. apply set_req_ok; [|done].
    destruct (_ && _); [done|]. apply none_range. }
  set (p1 := if uclamp_reset a UCLAMP_MAX _ then _ else _).
  assert (task_ok s p1) as Hp1 by (by apply Hreset, Hreset). clearbody p1.
  destruct (negb (has_clamp a)); [done|].
  set (p2 := if has_min a && _ then _ else _). assert (task_ok s p2) as Hp2.
  { subst p2. destruct (has_min a); [|done]. simpl. case_bool_decide; [done|]. simpl.
    apply (set_req_ok s UCLAMP_MIN); [|done]. by destruct (Hmin eq_refl). }
  clearbody p2. destruct (has_max a); [|done]. simpl. case_bool_decide; [done|]. simpl.
  apply (set_req_ok s UCLAMP_MAX); [|done]. by destruct (Hmax eq_refl).
Qed.

Lemma fork_ok s p : task_ok s p → inactive (uclamp_fork p) ∧ task_ok s (uclamp_fork p).
Proof.
  intros Hok. unfold uclamp_fork. split; [by destruct (negb _); intros []|].
  destruct (negb _); [done|]. destruct Hok as (_ & Hq & Hg). split; [|done].
  intros id; destruct id; apply se_set_ok, none_range.
Qed.

(** * Nothing is undefined

    A weaker invariant, which also holds between the steps of an update of
    the active tasks. *)

Record bounded (s : state) : Prop := {
  b_defaults : ∀ id, se_ok (at_id id (uclamp_default (sys s)));
  b_groups : ∀ g c id, tgcs s !! g = Some c →
    se_ok (at_id id (tg_eff c)) ∧ 0 ≤ value (at_id id (tg_req c)) ≤ 1024;
  b_task : ∀ pid p, tasks s !! pid = Some p → task_ok s p;
  b_active : ∀ pid p id, tasks s !! pid = Some p → active (at_id id (uclamp p)) = true → se_ok (at_id id (uclamp p));
  b_buckets : ∀ cpu q id, rqs s !! cpu = Some q → Z.of_nat (length (bucket (at_id id (clamp_of q)))) = UCLAMP_BUCKETS;
}.

Lemma inc_u_total idle eff u :
  se_ok eff → Z.of_nat (length (bucket u)) = UCLAMP_BUCKETS →
  ∃ u', inc_u idle eff u = Ok u' ∧ length (bucket u') = length (bucket u).
Proof.
  intros Heff Hl. pose proof (se_bucket _ Heff). unfold inc_u.
  destruct (getZ_is_Some (bucket u) (bucket_id eff)) as [b Hb]; [lia|].
  rewrite (proj2 (rd_ok_iff _ _ _) Hb). simpl. rewrite wr_ok by lia. simpl. eexists. split; [done|].
  simpl. by rewrite length_insert.
Qed.

Lemma dec_u_total id se u :
  se_ok se → Z.of_nat (length (bucket u)) = UCLAMP_BUCKETS →
  ∃ u' i, dec_u id se u = Ok (u', i) ∧ length (bucket u') = length (bucket u).
Proof.
  intros Hse Hl. pose proof (se_bucket _ Hse). unfold dec_u.
  destruct (getZ_is_Some (bucket u) (bucket_id se)) as [b Hb]; [lia|].
  rewrite (proj2 (rd_ok_iff _ _ _) Hb). simpl. set (n := if decide (b_tasks b = 0) then 0 else _).
  rewrite wr_ok by lia. simpl.
  destruct (decide (n ≠ 0)); [eexists _, _; split; [done|]; simpl; by rewrite length_insert|].
  destruct (decide (rq_value u ≤ b_value b)); [|eexists _, _; split; [done|]; simpl; by rewrite length_insert].
  destruct (top_bucket _); [|destruct id]; eexists _, _; (split; [done|]); simpl; by rewrite length_insert.
Qed.

Definition keeps (s s' : state) : Prop :=
  bounded s' ∧ sys s' = sys s ∧ tgcs s' = tgcs s ∧ grp s' = grp s ∧
  ∀ pid, is_Some (tasks s !! pid) → is_Some (tasks s' !! pid).


Lemma update_active_ok id pid s :
  bounded s → is_Some (tasks s !! pid) → ∃ s', uclamp_update_active id pid s = Ok s' ∧ keeps s s'.
Proof.
  intros Hs [p Hp]. pose proof (b_task _ Hs _ _ Hp) as Hok. pose proof Hok as (Hreq & [q Hq] & [c Hc]).
  unfold uclamp_update_active, on_rq. rewrite Hp. cbn [opt mbind res_bind]. rewrite Hq. cbn [opt mbind res_bind].
  destruct (active (at_id id (uclamp p))) eqn:Ea.
  2: { eexists. split; [done|]. cbn [opt mbind res_bind]. rewrite put_same by done. by split_and!. }
  rewrite dec_id_eq. cbv zeta. rewrite Ea. cbn [negb].
  destruct (dec_u_total id (at_id id (uclamp p)) (at_id id (clamp_of q))) as (u & i & -> & Hu);
    [by eapply (b_active _ Hs)|by eapply (b_buckets _ Hs)|].
  cbn [mbind res_bind]. rewrite inc_id_eq, eff_get_set.
  assert (∃ eff, uclamp_eff_get s p id = Ok eff ∧ se_ok eff) as (eff & -> & Heff).
  { unfold uclamp_eff_get, uclamp_tg_restrict. rewrite Hc. specialize (Hreq id).
    pose proof (b_defaults _ Hs id) as Hd. destruct (b_groups _ Hs _ _ id Hc) as [Hg _].
    destruct (in_autogroup p); simpl; [case_decide; eauto|].
    case_decide; simpl; [case_decide; eauto|]. destruct (_ || _); case_decide; eauto. }
  cbn [mbind res_bind clamp_of idle_flag]. rewrite at_set_id.
  pose proof (b_buckets _ Hs _ _ id Hq) as Hlen.
  destruct (inc_u_total (i || idle_flag q) eff u Heff) as (u' & -> & Hu'); [congruence|].
  cbn [mbind res_bind]. rewrite set_set_id. eexists. split; [done|].
  set (p' := set_eff _ _). set (q' := Rq _ _).
  assert (∀ x, task_ok s x → task_ok (put_task pid p' (put_rq (task_cpu p') q' s)) x) as Hkeep.
  { intros x (? & ? & ?). split; [done|]. split; [|done]. simpl. apply lookup_insert_is_Some'. by right. }
  split; [|repeat split; try done; intros x Hx; simpl; apply lookup_insert_is_Some'; by right].
  split; cbn [sys tgcs tasks rqs put_task put_rq]; try apply Hs.
  - intros x px. rewrite lookup_insert_Some. intros [[<- <-]|[_ Hx]]; apply Hkeep; [done|by eapply (b_task _ Hs)].
  - intros x px id'. rewrite lookup_insert_Some. intros [[<- <-]|[_ Hx]]; [|by eapply (b_active _ Hs)].
    subst p'. cbn [uclamp set_eff]. pose proof (b_active _ Hs _ _ id' Hp).
    destruct id, id'; cbn [at_id set_id umin umax]; try done.
  - intros cpu q0 id'. rewrite lookup_insert_Some. intros [[<- <-]|[_ Hx]]; [|by eapply (b_buckets _ Hs)].
    subst q'. cbn [clamp_of]. pose proof (b_buckets _ Hs _ _ id' Hq).
    destruct id, id'; cbn [at_id set_id umin umax] in *; congruence.
Qed.

(** * The effective clamps of a hierarchy *)

(** The effective clamps of [g] are the requested ones, each at most that of
    the group above, and the minimum at most the maximum. *)
Definition consistent (s : state) (g : Z) : Prop :=
  ∃ eff c, effective g s = Ok eff ∧ tgcs s !! g = Some c ∧ ∀ id, value (at_id id (tg_eff c)) = at_id id eff.

Lemma for_each_keeps {A} (l : list A) f s :
  bounded s → (∀ x s', x ∈ l → keeps s s' → ∃ s'', f x s' = Ok s'' ∧ keeps s' s'') →
  ∃ s', for_each l f s = Ok s' ∧ keeps s s'.
Proof.
  intros Hs Hf. assert (∀ a b c, keeps a b → keeps b c → keeps a c) as Htrans.
  { intros a b c (? & ? & ? & ? & Ha) (? & ? & ? & ? & Hb). split_and!; try congruence; auto. }
  assert (keeps s s) as Hrefl by (by split_and!).
  enough (∀ s1, keeps s s1 → ∃ s', for_each l f s1 = Ok s' ∧ keeps s s') as Hall by by apply Hall.
  clear Hrefl. induction l as [|x l IH]; intros s1 H1'; [by eauto|]. simpl.
  destruct (Hf x s1) as (s2 & -> & H2'); [left|done|]. cbn [mbind res_bind].
  apply IH; [|by eapply Htrans]. intros y s' Hy. apply Hf. by right.
Qed.

Lemma update_active_tasks_ok g changed s :
  bounded s → Forall (λ pid, is_Some (tasks s !! pid)) (css_tasks g) →
  ∃ s', uclamp_update_active_tasks g changed s = Ok s' ∧ keeps s s'.
Proof.
  intros Hs Hall. rewrite Forall_forall in Hall. apply for_each_keeps; [done|].
  intros pid s1 Hpid (Hb1 & Es & Et & Eg & Hdom). unfold for_each_clamp_id.
  assert (∀ id s2, keeps s1 s2 → ∃ s3, (if at_id id changed then uclamp_update_active id pid s2 else Ok s2) = Ok s3 ∧ keeps s2 s3) as Hone.
  { intros id s2 (Hb2 & ? & ? & ? & Hd2). destruct (at_id id changed).
    - apply update_active_ok; [done|]. apply Hd2, Hdom. by apply Hall.
    - exists s2. split; [done|]. by split_and!. }
  destruct (Hone UCLAMP_MIN s1) as (s2 & -> & H2'); [by split_and!|]. cbn [mbind res_bind].
  destruct (Hone UCLAMP_MAX s2 H2') as (s3 & -> & H3'). exists s3. split; [done|].
  destruct H2' as (? & ? & ? & ? & Ha), H3' as (? & ? & ? & ? & Hb). split_and!; try congruence; auto.
Qed.

Lemma effective_ok s g p l :
  bounded s → shape (grp s) !! g = Some (p, l) → is_Some (tgcs s !! g) →
  (∀ x, p = Some x → is_Some (tgcs s !! x)) →
  ∃ eff, effective g s = Ok eff ∧ ∀ id, 0 ≤ at_id id eff ≤ 1024.
Proof.
  intros Hs Hg [c Hc] Hp. destruct (shape_lookup _ _ _ _ Hg) as (tg & Htg & Hpa & _).
  unfold effective, get. rewrite Htg. cbn [opt mbind res_bind]. rewrite Hc, Hpa. cbn [opt mbind res_bind].
  destruct (b_groups _ Hs _ _ UCLAMP_MIN Hc) as [_ Hmin]. destruct (b_groups _ Hs _ _ UCLAMP_MAX Hc) as [_ Hmax].
  simpl in Hmin, Hmax. destruct p as [x|].
  - destruct (Hp x eq_refl) as [cx Hx]. rewrite Hx. cbn [opt mbind res_bind]. eexists. split; [done|].
    destruct (b_groups _ Hs _ _ UCLAMP_MIN Hx) as [[Hxmin _] _]. destruct (b_groups _ Hs _ _ UCLAMP_MAX Hx) as [[Hxmax _] _].
    simpl in Hxmin, Hxmax. intros []; simpl; lia.
  - cbn [opt mbind res_bind]. eexists. split; [done|]. intros []; simpl; lia.
Qed.

Lemma effective_frame s s' g p l :
  shape (grp s) !! g = Some (p, l) → grp s' = grp s → tgcs s' !! g = tgcs s !! g →
  (∀ x, p = Some x → tgcs s' !! x = tgcs s !! x) → effective g s' = effective g s.
Proof.
  intros Hg Eg Ec Ep. destruct (shape_lookup _ _ _ _ Hg) as (tg & Htg & Hpa & _).
  unfold effective. rewrite Eg, Ec. unfold get. rewrite Htg. cbn [opt mbind res_bind]. rewrite Hpa.
  destruct p as [x|]; [|done]. by rewrite Ep.
Qed.

Lemma set_value_ok v se : 0 ≤ v ≤ 1024 → se_ok (set_value v se) ∧ value (set_value v se) = v.
Proof.
  intros Hv. pose proof (se_set_eq v (user_defined se) se Hv) as E. unfold uclamp_se_set in E.
  unfold set_value. rewrite E. by split.
Qed.

(** One group of the loop. *)
Lemma update_group_ok s g p l :
  bounded s → shape (grp s) !! g = Some (p, l) → p ≠ Some g → is_Some (tgcs s !! g) →
  (∀ x, p = Some x → is_Some (tgcs s !! x)) → Forall (λ pid, is_Some (tasks s !! pid)) (css_tasks g) →
  ∃ s' changed, update_group g s = Ok (s', changed) ∧ bounded s' ∧ grp s' = grp s ∧
    (∀ pid, is_Some (tasks s !! pid) → is_Some (tasks s' !! pid)) ∧
    (∀ h, h ≠ g → tgcs s' !! h = tgcs s !! h) ∧ is_Some (tgcs s' !! g) ∧
    consistent s' g ∧ (changed = false → tgcs s' = tgcs s).
Proof.
  intros Hs Hg Hpg Hgc Hp Ht. destruct (effective_ok s g p l Hs Hg Hgc Hp) as (eff & Eeff & Hrange).
  destruct Hgc as [c Hc]. unfold update_group. rewrite Eeff. cbn [mbind res_bind]. rewrite Hc. cbn [opt mbind res_bind].
  set (changed := λ id, negb (bool_decide (at_id id eff = value (at_id id (tg_eff c))))).
  set (new := λ id, if changed id then set_value (at_id id eff) (at_id id (tg_eff c)) else at_id id (tg_eff c)).
  change (if negb (bool_decide (at_id UCLAMP_MIN eff = _)) then _ else at_id UCLAMP_MIN (tg_eff c)) with (new UCLAMP_MIN).
  change (if negb (bool_decide (at_id UCLAMP_MAX eff = _)) then _ else at_id UCLAMP_MAX (tg_eff c)) with (new UCLAMP_MAX).
  fold (changed UCLAMP_MIN) (changed UCLAMP_MAX).
  set (c' := Tgc (tg_req c) (Clamps (new UCLAMP_MIN) (new UCLAMP_MAX)) (tg_pct c)).
  assert (∀ id, se_ok (new id) ∧ value (new id) = at_id id eff) as Hnew.
  { intros id. unfold new, changed. case_bool_decide as E; simpl; [|by apply set_value_ok].
    by destruct (b_groups _ Hs g c id Hc) as [? _]. }
  set (s1 := put_tgc g c' s). assert (bounded s1) as Hs1.
  { split; cbn [sys tgcs tasks rqs put_tgc s1]; try apply Hs.
    - intros h d id. rewrite lookup_insert_Some. intros [[<- <-]|[_ Hx]]; [|by apply (b_groups _ Hs h)].
      split; [destruct id; apply Hnew|]. by destruct (b_groups _ Hs g c id Hc) as [_ ?].
    - intros pid x Hx. destruct (b_task _ Hs _ _ Hx) as (? & ? & ?). split; [done|]. split; [done|].
      simpl. apply lookup_insert_is_Some'. by right. }
  assert (effective g s1 = Ok eff) as Eeff1.
  { unfold effective in Eeff |- *. cbn [grp tgcs put_tgc s1]. destruct (shape_lookup _ _ _ _ Hg) as (tg & Htg & Hpa & _).
    unfold get in *. rewrite Htg in *. cbn [opt mbind res_bind] in *. rewrite lookup_insert_eq. rewrite Hc in Eeff.
    cbn [opt mbind res_bind] in *. rewrite Hpa in *. destruct p as [x|]; [|done].
    rewrite lookup_insert_ne by congruence. done. }
  assert (∀ s', tgcs s' = tgcs s1 → grp s' = grp s1 → consistent s' g) as Hcons.
  { intros s' Et Eg'. exists eff, c'. split; [|split].
    - rewrite <- Eeff1. apply (effective_frame s1 s' g p l); [done|done|by rewrite Et|by rewrite Et].
    - rewrite Et. apply lookup_insert_eq.
    - intros []; apply Hnew. }
  destruct (negb (changed UCLAMP_MIN) && negb (changed UCLAMP_MAX)) eqn:Ech.
  - exists s1, false. split; [done|]. split; [done|]. split; [done|]. split; [done|].
    split; [intros h Hh; by apply lookup_insert_ne|]. split; [exists c'; apply lookup_insert_eq|].
    split; [by apply Hcons|]. intros _. cbn [tgcs put_tgc s1]. apply insert_id. rewrite Hc. f_equal.
    apply andb_true_iff in Ech as [E1 E2]. apply negb_true_iff in E1, E2. subst c'. unfold new. rewrite E1, E2.
    by destruct c as [? [? ?] ?].
  - destruct (update_active_tasks_ok g (Clamps (changed UCLAMP_MIN) (changed UCLAMP_MAX)) s1 Hs1 Ht)
      as (s2 & E2 & (Hb2 & _ & Et2 & Eg2 & Hd2)).
    rewrite E2. cbn [mbind res_bind]. exists s2, true. split; [done|]. split; [done|]. split; [done|].
    split; [done|]. rewrite Et2. split; [intros h Hh; by apply lookup_insert_ne|].
    split; [exists c'; apply lookup_insert_eq|]. split; [by apply Hcons|done].
Qed.

Fixpoint subtrees (t : tree) : list tree :=
  match t with Node g subs => Node g subs :: (subs ≫= subtrees) end.

Section hierarchy.
(** The functions of the control group core follow the tree [T]. *)
Context (T : tree) (Tnodup : NoDup (nodes T)).
Context (next_first : css_next_descendant_pre None (root_of T) = Some (root_of T)).
Context (next_rest : ∀ l1 x l2, nodes T = l1 ++ x :: l2 →
  css_next_descendant_pre (Some x) (root_of T) = head l2).
Context (rightmost : ∀ u, u ∈ subtrees T → last (nodes u) = Some (css_rightmost_descendant (root_of u))).
Context (above : option Z) (above_out : ∀ x, above = Some x → x ∉ nodes T).

(** All groups of the tree, and the one above it, exist, and so do their tasks. *)
Record ready (s : state) : Prop := {
  r_bounded : bounded s;
  r_groups : ∀ x, x ∈ nodes T → is_Some (tgcs s !! x);
  r_above : ∀ x, above = Some x → is_Some (tgcs s !! x);
  r_tasks : ∀ x, x ∈ nodes T → Forall (λ pid, is_Some (tasks s !! pid)) (css_tasks x);
}.

(** The loop from [css] on ends at [post], the groups [l] being done. *)
Definition done_to (l post : list Z) (n : nat) (css : option Z) (s : state) : Prop :=
  ∃ n' s', update_loop (length l + n) css (root_of T) s = update_loop n' (head post) (root_of T) s' ∧
    (n ≤ n')%nat ∧ ready s' ∧ grp s' = grp s ∧ (∀ x, x ∉ l → tgcs s' !! x = tgcs s !! x) ∧
    (∀ x, x ∈ l → consistent s' x).

Lemma consistent_frame s s' x p l :
  shape (grp s) !! x = Some (p, l) → grp s' = grp s → tgcs s' !! x = tgcs s !! x →
  (∀ y, p = Some y → tgcs s' !! y = tgcs s !! y) → consistent s x → consistent s' x.
Proof.
  intros Hx Eg Ex Ep (eff & c & E & Hc & Hv). exists eff, c. rewrite Ex. split; [|done].
  by rewrite (effective_frame s s' x p l).
Qed.

(** Groups strictly below the root of [u] do not notice changes outside [u]. *)
Lemma below_frame s s' q u x :
  holds (shape (grp s)) q u → x ∈ nodes u → x ≠ root_of u → grp s' = grp s →
  (∀ y, y ∈ nodes u → tgcs s' !! y = tgcs s !! y) → consistent s x → consistent s' x.
Proof.
  intros Hu Hx Hne Eg Hsame. destruct (tree_parent _ _ _ _ Hu Hx) as [|(p & l & Hp & Hl)]; [done|].
  apply (consistent_frame _ _ _ _ _ Hl); [done|by apply Hsame|]. intros y [= <-]. by apply Hsame.
Qed.

Lemma loop_forest h l : ∀ pre post s n,
  Forall (λ u, ∀ p pre post s n, nodes T = pre ++ nodes u ++ post → holds (shape (grp s)) p u →
    (∀ x, p = Some x → (x ∉ nodes u) ∧ is_Some (tgcs s !! x)) → ready s →
    (∀ x, x ∈ nodes u → x ≠ root_of u → consistent s x) →
    done_to (nodes u) post n (Some (root_of u)) s) l →
  nodes T = pre ++ (l ≫= nodes) ++ post → Forall (holds (shape (grp s)) (Some h)) l →
  h ∉ l ≫= nodes → is_Some (tgcs s !! h) → ready s →
  (∀ u x, u ∈ l → x ∈ nodes u → x ≠ root_of u → consistent s x) →
  done_to (l ≫= nodes) post n (head ((l ≫= nodes) ++ post)) s.
Proof.
  induction l as [|u l IH]; intros pre post s n Hall ET Hl Hh Hhc Hr Hc.
  { exists n, s. split; [done|]. split; [lia|]. split; [done|]. split; [done|]. split; [done|].
    intros x Hx. by apply elem_of_nil in Hx. }
  apply Forall_cons in Hall as [Hu Hall]. apply Forall_cons in Hl as [Hul Hl].
  rewrite bind_cons in *. rewrite <- app_assoc in ET. apply not_elem_of_app in Hh as [Hhu Hhl].
  assert (∀ x, x ∈ nodes u → x ∉ l ≫= nodes) as Hdisj.
  { rewrite ET in Tnodup. apply NoDup_app in Tnodup as (_ & _ & (_ & Hd & _)%NoDup_app).
    intros x Hx Hin. apply (Hd x Hx), elem_of_app. by left. }
  destruct (Hu (Some h) pre ((l ≫= nodes) ++ post) s (length (l ≫= nodes) + n)%nat)
    as (n1 & s1 & E1 & Hn1 & Hr1 & Eg1 & Hf1 & Hc1); [done|done|by intros x [= <-]|done|intros x; apply Hc; left|].
  destruct (IH (pre ++ nodes u) post s1 (n1 - length (l ≫= nodes))%nat) as (n2 & s2 & E2 & Hn2 & Hr2 & Eg2 & Hf2 & Hc2).
  - done.
  - by rewrite <- app_assoc.
  - by rewrite Eg1.
  - done.
  - by rewrite Hf1.
  - done.
  - intros v x Hv Hx Hne. rewrite Forall_forall in Hl. apply (below_frame s s1 (Some h) v); [by apply Hl|done|done|done| |by eapply Hc; [by right|..]].
    intros y Hy. apply Hf1. intros Hyu. apply (Hdisj y Hyu), list_elem_of_bind. eauto.
  - exists n2, s2. rewrite length_app. split.
    { replace (head ((nodes u ++ (l ≫= nodes)) ++ post)) with (Some (root_of u)) by (by destruct u).
      replace (length (nodes u) + length (l ≫= nodes) + n)%nat
        with (length (nodes u) + (length (l ≫= nodes) + n))%nat by lia. rewrite E1, <- E2. f_equal. lia. }
    split; [lia|]. split; [done|]. split; [congruence|]. split.
    + intros x [Hxu Hxl]%not_elem_of_app. by rewrite Hf2, Hf1.
    + intros x [Hx|Hx]%elem_of_app; [|by apply Hc2].
      destruct (decide (x = root_of u)) as [->|Hne].
      * destruct (holds_root _ _ _ Hul) as [lx Hlx]. rewrite <- Eg1 in Hlx.
        apply (consistent_frame s1 s2 _ _ _ Hlx); [done|by apply Hf2, Hdisj| |by apply Hc1].
        intros y [= <-]. by apply Hf2.
      * apply (below_frame s1 s2 (Some h) u); [by rewrite Eg1|done|done|done| |by apply Hc1].
        intros y Hy. by apply Hf2, Hdisj.
Qed.
Lemma loop_tree u : u ∈ subtrees T → ∀ p pre post s n,
  nodes T = pre ++ nodes u ++ post → holds (shape (grp s)) p u →
  (∀ x, p = Some x → (x ∉ nodes u) ∧ is_Some (tgcs s !! x)) → ready s →
  (∀ x, x ∈ nodes u → x ≠ root_of u → consistent s x) →
  done_to (nodes u) post n (Some (root_of u)) s.
Proof.
  induction u as [g subs IH] using tree_ind'. intros Hsub p pre post s n ET Hu Hp Hr Hc.
  pose proof Hu as [Hg Hsubs]. rewrite holds_Forall in Hsubs.
  assert (NoDup (nodes (Node g subs))) as Hnd.
  { rewrite ET in Tnodup. by apply NoDup_app in Tnodup as (_ & _ & (? & _)%NoDup_app). }
  simpl in Hnd. apply NoDup_cons in Hnd as [Hgs Hnd].
  assert (∀ x, x ∈ nodes (Node g subs) → x ∈ nodes T) as Hin by (intros x Hx; rewrite ET; set_solver).
  assert (g ∈ nodes T) as HgT by (apply Hin; left).
  destruct (update_group_ok s g p (root_of <$> subs)) as (s1 & ch & E1 & Hb1 & Eg1 & Hd1 & Hf1 & Hg1 & Hc1 & Hun);
    [by apply Hr|done| |by apply Hr|by intros x ->; apply Hp|by apply Hr|].
  { intros ->. destruct (Hp g eq_refl) as [Hn _]. apply Hn. left. }
  assert (ready s1) as Hr1.
  { split; [done| | |].
    - intros x Hx. destruct (decide (x = g)) as [->|]; [done|]. rewrite Hf1 by done. by apply Hr.
    - intros x Hx. rewrite Hf1 by (intros ->; exact (above_out g Hx HgT)). exact (r_above _ Hr x Hx).
    - intros x Hx. eapply Forall_impl; [by apply (r_tasks _ Hr)|]. done. }
  simpl length. change (S (length (subs ≫= nodes)) + n)%nat with (S (length (subs ≫= nodes) + n)).
  unfold done_to. cbn [nodes length root_of Nat.add update_loop]. rewrite E1. cbn [mbind res_bind].
  destruct ch.
  - rewrite (next_rest pre g ((subs ≫= nodes) ++ post)) by (rewrite ET; done).
    destruct (loop_forest g subs (pre ++ [g]) post s1 n) as (n2 & s2 & E2 & Hn2 & Hr2 & Eg2 & Hf2 & Hc2).
    + rewrite Forall_forall in IH. apply Forall_forall. intros t Ht. apply IH; [done|].
      clear -Hsub Ht. revert Hsub. induction T as [h l IHl] using tree_ind'. simpl.
      rewrite elem_of_cons. intros [[= <- <-]|Hin].
      * right. apply list_elem_of_bind. exists t. split; [|done]. destruct t. left.
      * right. apply list_elem_of_bind in Hin as (y & Hy & Hyl). apply list_elem_of_bind. exists y. split; [|done].
        rewrite Forall_forall in IHl. by apply IHl.
    + rewrite <- app_assoc. done.
    + by rewrite Eg1.
    + done.
    + done.
    + done.
    + intros v x Hv Hx Hne. rewrite Forall_forall in Hsubs.
      assert (∀ y, y ∈ nodes v → y ∈ subs ≫= nodes) as Hvs by (intros y Hy; apply list_elem_of_bind; eauto).
      apply (below_frame s s1 (Some g) v); [by apply Hsubs|done|done|done| |].
      * intros y Hy. apply Hf1. intros ->. by apply Hgs, Hvs.
      * apply Hc; [right; by apply Hvs|]. simpl. intros ->. by apply Hgs, Hvs.
    + exists n2, s2. split; [exact E2|]. split; [lia|]. split; [done|]. split; [congruence|]. split.
      * intros x [Hxg Hxs]%not_elem_of_cons. by rewrite Hf2, Hf1.
      * intros x [->|Hx]%elem_of_cons; [|by apply Hc2]. rewrite <- Eg1 in Hg.
        apply (consistent_frame s1 s2 _ _ _ Hg); [done|by apply Hf2| |done].
        intros y ->. apply Hf2. destruct (Hp y eq_refl) as [Hn _]. simpl in Hn. set_solver.
  - specialize (Hun eq_refl). pose proof (rightmost _ Hsub) as Hlast. simpl root_of in Hlast.
    apply last_Some in Hlast as [l' El].
    assert (nodes T = (pre ++ l') ++ css_rightmost_descendant g :: post) as ET'.
    { rewrite ET, El, <- !app_assoc. done. }
    rewrite (next_rest _ _ _ ET'). exists (length (subs ≫= nodes) + n)%nat, s1. split; [done|]. split; [lia|].
    split; [done|]. split; [done|]. rewrite Hun. split; [done|]. intros x Hx.
    destruct (decide (x = g)) as [->|Hne]; [done|].
    apply (below_frame s s1 p (Node g subs)); [done|done|done|done|by intros; rewrite Hun|by apply Hc].
Qed.

(** The whole loop. *)
Lemma update_eff_tree s :
  holds (shape (grp s)) above T → ready s → (∀ x, x ∈ nodes T → x ≠ root_of T → consistent s x) →
  ∃ s', cpu_util_update_eff (root_of T) s = Ok s' ∧ ready s' ∧ grp s' = grp s ∧
    (∀ x, x ∉ nodes T → tgcs s' !! x = tgcs s !! x) ∧ (∀ x, x ∈ nodes T → consistent s' x).
Proof.
  intros HT Hr Hc. unfold cpu_util_update_eff. rewrite next_first.
  assert (length (nodes T) ≤ size (tgcs s))%nat as Hlen.
  { rewrite <- size_dom, <- (size_list_to_set (C := gset Z)) by done. apply subseteq_size.
    intros x Hx. rewrite elem_of_list_to_set in Hx. apply elem_of_dom. by apply (r_groups _ Hr). }
  destruct (loop_tree T) with (p := above) (pre := @nil Z) (post := @nil Z) (s := s)
    (n := (size (tgcs s) - length (nodes T))%nat) as (n' & s' & E & Hn & Hr' & Eg & Hf & Hc').
  - destruct T. left.
  - by rewrite app_nil_r.
  - done.
  - intros x Hx. split; [by apply above_out|by apply (r_above _ Hr)].
  - done.
  - done.
  - exists s'. replace (size (tgcs s)) with (length (nodes T) + (size (tgcs s) - length (nodes T)))%nat by lia.
    rewrite E. split; [by destruct n'|done].
Qed.
End hierarchy.

(** ** Writing a clamp of a group *)

Lemma request_range buf r :
  capacity_from_percent buf = r → ret r = 0 → 0 ≤ util r ≤ 1024.
Proof.
  intros <-. unfold capacity_from_percent. case_decide; [rewrite capacity_scale; simpl; lia|].
  destruct (cgroup_parse_float _ _) as [e|pc]; [rewrite capacity_scale; simpl; lia|].
  case_decide as Hpc; [done|]. intros _. cbn [util]. unfold UCLAMP_PERCENT_SCALE, UCLAMP_PERCENT_SHIFT in *.
  change (100 * 10 ^ 2) with 10000 in *. unfold DIV_ROUND_CLOSEST_ULL. rewrite capacity_shift, Z.shiftl_mul_pow2 by lia.
  assert (wrapu64 (pc * 2^10) = wrapu64 pc * 1024) as ->.
  { unfold wrapu64 in *. pose proof (Z.mod_pos_bound pc (2^64) ltac:(lia)).
    rewrite <- Z.mul_mod_idemp_l by lia. rewrite Z.mod_small by lia. done. }
  unfold wrapu64 in *. pose proof (Z.mod_pos_bound pc (2^64) ltac:(lia)).
  change (10000 / 2) with 5000. rewrite (Z.mod_small (pc mod 2^64 * 1024 + 5000)) by lia.
  split; [apply Z.div_pos; lia|]. apply Z.lt_succ_r, Z.div_lt_upper_bound; lia.
Qed.

Definition after_write (s : state) (g : Z) (c : tg_clamps) (id : uclamp_id) (r : uclamp_request) : state :=
  put_tgc g (Tgc (if decide (value (at_id id (tg_req c)) ≠ util r)
                  then set_id id (uclamp_se_set (util r) false (at_id id (tg_req c))) (tg_req c)
                  else tg_req c) (tg_eff c) (set_id id (percent r) (tg_pct c))) (enable_uclamp s).

Lemma after_write_ready T a s g c id r :
  ready T a s → tgcs s !! g = Some c → 0 ≤ util r ≤ 1024 → ready T a (after_write s g c id r).
Proof.
  intros [Hb Hg Ha Ht] Hc Hr.
  assert (∀ x, is_Some (tgcs s !! x) → is_Some (tgcs (after_write s g c id r) !! x)) as Hdom.
  { intros x Hx. simpl. apply lookup_insert_is_Some'. by right. }
  split; [|by auto..]. split; cbn [sys tgcs tasks rqs after_write put_tgc enable_uclamp put_sys]; try apply Hb.
  - intros h d id'. rewrite lookup_insert_Some. intros [[<- <-]|[_ Hx]]; [|by apply (b_groups _ Hb h)].
    cbn [tg_eff tg_req]. destruct (b_groups _ Hb _ _ id' Hc) as [He Hreq]. split; [done|].
    case_decide; [|done]. destruct id, id'; cbn [at_id set_id umin umax] in *; try done;
      rewrite se_set_eq by done; done.
  - intros pid x Hx. destruct (b_task _ Hb _ _ Hx) as (? & ? & ?). split; [done|]. split; [done|]. by apply Hdom.
Qed.

Lemma write_run s g buf id c :
  ret (capacity_from_percent buf) = 0 → tgcs s !! g = Some c →
  cpu_uclamp_write g buf id s =
    (s ← cpu_util_update_eff g (after_write s g c id (capacity_from_percent buf));
     Ok (Z.of_nat (String.length buf), s)).
Proof.
  intros Hr Hc. unfold cpu_uclamp_write. rewrite decide_False by lia. simpl. rewrite Hc. done.
Qed.

(** What is asked for a group: the clamps and the percentages. The effective
    clamps are updated without a change of it. *)
Definition request_of (s : state) (g : Z) : option (clamps uclamp_se * clamps Z) := (λ c, (tg_req c, tg_pct c)) <$> tgcs s !! g.

Lemma on_rq_tgcs pid f s s' : on_rq pid f s = Ok s' → tgcs s' = tgcs s.
Proof.
  unfold on_rq. intros (p & _ & (q & _ & ([q' p'] & _ & [= <-])%res_bind_ok_inv)%res_bind_ok_inv)%res_bind_ok_inv. done.
Qed.

Lemma for_each_tgcs {A} (l : list A) f s s' : (∀ x s s', f x s = Ok s' → tgcs s' = tgcs s) → for_each l f s = Ok s' → tgcs s' = tgcs s.
Proof.
  intros Hf. revert s. induction l as [|x l IH]; intros s; cbn; [by intros [= ->]|].
  intros (s1 & H1 & H2)%res_bind_ok_inv. by rewrite (IH _ H2), (Hf _ _ _ H1).
Qed.

Lemma update_active_tasks_tgcs g changed s s' : uclamp_update_active_tasks g changed s = Ok s' → tgcs s' = tgcs s.
Proof.
  apply for_each_tgcs. intros pid s1 s2 (s3 & H1 & H2)%res_bind_ok_inv.
  assert (∀ id s s', (if at_id id changed then uclamp_update_active id pid s else Ok s) = Ok s' → tgcs s' = tgcs s) as Hid.
  { intros id t t'. destruct (at_id id changed); [apply on_rq_tgcs|by intros [= ->]]. }
  by rewrite (Hid _ _ _ H2), (Hid _ _ _ H1).
Qed.

Lemma update_group_request_of g s s' b x : update_group g s = Ok (s', b) → request_of s' x = request_of s x.
Proof.
  unfold update_group. intros (eff & _ & (c & Hc & Hrun)%res_bind_ok_inv)%res_bind_ok_inv. cbv zeta in Hrun.
  assert (∀ n, request_of (put_tgc g (Tgc (tg_req c) n (tg_pct c)) s) x = request_of s x) as Hput.
  { intros n. unfold request_of, put_tgc. cbn [tgcs]. destruct (tgcs s !! g) eqn:Eg; [|done]. injection Hc as ->.
    destruct (decide (x = g)) as [->|]; [by rewrite lookup_insert_eq, Eg|by rewrite lookup_insert_ne]. }
  destruct (_ && _); [injection Hrun as <- _; apply Hput|].
  apply res_bind_ok_inv in Hrun as (s1 & H1 & [= <- _]). unfold request_of. rewrite (update_active_tasks_tgcs _ _ _ _ H1). apply Hput.
Qed.

Lemma update_eff_request_of g s s' x : cpu_util_update_eff g s = Ok s' → request_of s' x = request_of s x.
Proof.
  unfold cpu_util_update_eff. generalize (size (tgcs s)) as fuel, (css_next_descendant_pre None g) as css. intros fuel.
  revert s. induction fuel as [|fuel IH]; intros s [h|]; cbn; try (intros [= ->]; done).
  intros ([s1 b] & H1 & H2)%res_bind_ok_inv. rewrite (IH _ _ H2). by eapply update_group_request_of.
Qed.

Lemma after_write_request_of s g c id r : tgcs s !! g = Some c → 0 ≤ util r ≤ 1024 →
  ∃ req pct, request_of (after_write s g c id r) g = Some (req, pct) ∧ value (at_id id req) = util r ∧ at_id id pct = percent r ∧
    ∀ other, other ≠ id → (λ a, (at_id other a.1, at_id other a.2)) <$> request_of s g = Some (at_id other req, at_id other pct).
Proof.
  intros Hc Hr. eexists _, _. unfold request_of, after_write. cbn [tgcs put_tgc enable_uclamp put_sys]. rewrite lookup_insert_eq, Hc.
  split; [done|]. cbn [tg_req tg_pct fmap option_fmap option_map fst snd]. rewrite at_set_id.
  assert (∀ A (a : A) x other, other ≠ id → at_id other (set_id id a x) = at_id other x) as Ho by (intros ? ? ? [] ?; by destruct id).
  split; [|split; [done|]].
  - case_decide as Hv; [rewrite at_set_id, se_set_eq by done; done|done].
  - intros other Hne. rewrite Ho by done. case_decide; [by rewrite Ho|done].
Qed.

Lemma after_write_consistent s T a g c id r x :
  holds (shape (grp s)) a T → x ∈ nodes T → x ≠ root_of T → root_of T = g → tgcs s !! g = Some c →
  consistent s x → consistent (after_write s g c id r) x.
Proof.
  intros HT Hx Hne Hroot Hc (eff & d & E & Hd & Hv). exists eff, d.
  assert (tgcs (after_write s g c id r) !! x = tgcs s !! x) as Ex by (apply lookup_insert_ne; congruence).
  rewrite Ex. split; [|done]. rewrite <- E.
  destruct (tree_parent _ _ _ _ HT Hx) as [|(p & l & Hp & Hl)]; [done|].
  destruct (shape_lookup _ _ _ _ Hl) as (tg & Htg & Hpa & _).
  unfold effective, get. cbn [grp after_write put_tgc enable_uclamp put_sys]. rewrite Htg. cbn [opt mbind res_bind].
  rewrite Ex, Hpa. destruct (tgcs s !! x); [|done]. cbn [opt mbind res_bind].
  destruct (decide (p = g)) as [->|Hpg].
  - cbn [tgcs after_write put_tgc enable_uclamp put_sys]. rewrite lookup_insert_eq, Hc. done.
  - cbn [tgcs after_write put_tgc enable_uclamp put_sys]. by rewrite lookup_insert_ne.
Qed.
End proofs.

(** * Properties *)

Section properties.
Context `{!uclamp_headers} `{!uclamp_headers_ok}.

(** C33: whatever tasks are enqueued, dequeued and moved, change their requests
    and follow a change of the clamps of their group, as long as all clamps are in
    range and the maximum of the only task of a run queue is not updated in place, a run queue
    is clamped at least as high as each task counted on it, the buckets
    count exactly these tasks, and no such step leaves an array. *)
Theorem clamp_covers_tasks s0 s cpu q pid p id :
  state_ok s0 → rtc change s0 s → rqs s !! cpu = Some q →
  tasks s !! pid = Some p → task_cpu p = cpu → active (at_id id (uclamp p)) = true →
  value (at_id id (uclamp p)) ≤ rq_value (at_id id (clamp_of q)) ∧
  (∀ i b, bucket (at_id id (clamp_of q)) !! i = Some b →
     b_tasks b = Z.of_nat (length (filter (λ se, bucket_id se = Z.of_nat i) (members (tasks s) cpu id)))) ∧
  (∀ x px, tasks s !! x = Some px → inactive px → ∃ s', enqueue_task x s = Ok s') ∧
  (∀ x px, tasks s !! x = Some px → ∃ s', dequeue_task x s = Ok s') ∧
  (∀ x px id', tasks s !! x = Some px → id' = UCLAMP_MIN ∨ members (delete x (tasks s)) (task_cpu px) UCLAMP_MAX ≠ [] →
     ∃ s', uclamp_update_active id' x s = Ok s').
Proof.
  intros H0' Hrun Hq Hp Hcpu Ha. assert (state_ok s) as Hs.
  { induction Hrun as [|s1 s2 s3 Hc _ IH]; [done|]. apply IH; try done. by eapply change_ok. }
  pose proof (ok_queue _ Hs _ _ id Hq) as Hqueue. split_and!.
  - eapply queue_covers; [exact Hqueue|]. rewrite (members_delete _ pid p) by done.
    rewrite entry_active by done. left.
  - apply Hqueue.
  - intros x px Hx Hin. destruct (enqueue_ok s x px Hs Hx Hin) as (s' & ? & _). by exists s'.
  - intros x px Hx. destruct (dequeue_ok s x px Hs Hx) as (s' & ? & _). by exists s'.
  - intros x px id' Hx Hid. destruct (update_active_covers id' x s px Hs Hx Hid) as (s' & ? & _). by exists s'.
Qed.

(** C34: a clamp written to a group is the one asked for that group from then
    on, with its percentage, and no other request changes. It makes the effective clamps of all groups
    under it those of the hierarchy again, the requested ones each at most
    that of the group above and the minimum at most the maximum, although
    the loop leaves out the groups under an unchanged one. No other group
    changes. *)
Theorem uclamp_write_updates_hierarchy T above s g buf id :
  root_of T = g → NoDup (nodes T) → holds (shape (grp s)) above T →
  css_next_descendant_pre None g = Some g →
  (∀ l1 x l2, nodes T = l1 ++ x :: l2 → css_next_descendant_pre (Some x) g = head l2) →
  (∀ u, u ∈ subtrees T → last (nodes u) = Some (css_rightmost_descendant (root_of u))) →
  (∀ x, above = Some x → x ∉ nodes T) → ready T above s →
  (∀ x, x ∈ nodes T → consistent s x) → ret (capacity_from_percent buf) = 0 →
  ∃ s', cpu_uclamp_write g buf id s = Ok (Z.of_nat (String.length buf), s') ∧
    (∃ req pct, request_of s' g = Some (req, pct) ∧ value (at_id id req) = util (capacity_from_percent buf) ∧
       at_id id pct = percent (capacity_from_percent buf) ∧
       ∀ other, other ≠ id → (λ a, (at_id other a.1, at_id other a.2)) <$> request_of s g = Some (at_id other req, at_id other pct)) ∧
    (∀ x, x ≠ g → request_of s' x = request_of s x) ∧
    (∀ x, x ∈ nodes T → consistent s' x) ∧ (∀ x, x ∉ nodes T → tgcs s' !! x = tgcs s !! x).
Proof.
  intros Hroot Hn HT Hfirst Hnext Hright Habove Hr Hc Hret.
  assert (g ∈ nodes T) as HgT by (rewrite <- Hroot; destruct T; left).
  destruct (r_groups _ _ _ Hr g HgT) as [c Hg]. pose proof (request_range buf _ eq_refl Hret) as Hu.
  rewrite (write_run s g buf id c Hret Hg). rewrite <- Hroot in Hfirst, Hnext.
  destruct (update_eff_tree T Hn Hfirst Hnext Hright above Habove
              (after_write s g c id (capacity_from_percent buf))) as (s' & E & Hr' & _ & Hf & Hc').
  - done.
  - by apply after_write_ready.
  - intros x Hx Hne. apply (after_write_consistent s T above); try done. by apply Hc.
  - rewrite Hroot in E. rewrite E. cbn [mbind res_bind]. exists s'. split; [done|]. split; [|split; [|split; [done|]]].
    + rewrite (update_eff_request_of _ _ _ g E). by apply after_write_request_of.
    + intros x Hx. rewrite (update_eff_request_of _ _ _ x E). unfold request_of, after_write. cbn. by rewrite lookup_insert_ne.
    + intros x Hx. rewrite Hf by done. apply lookup_insert_ne. intros <-. done.
Qed.

(** The percentage that is read is the one that was written, except that
    from 99.96 on it is read as "max". *)
Theorem percent_roundtrip buf pc c id :
  strim buf ≠ "max"%string → cgroup_parse_float (strim buf) UCLAMP_PERCENT_SHIFT = inr pc → 0 ≤ pc ≤ 10000 →
  ret (capacity_from_percent buf) = 0 ∧
  (value (at_id id (tg_req c)) = util (capacity_from_percent buf) →
   at_id id (tg_pct c) = percent (capacity_from_percent buf) →
   cpu_uclamp_print c id = if decide (9996 ≤ pc) then "max
"%string else (pretty (pc / 100) +:+ "." +:+ pad2 (pc mod 100) +:+ "
")%string).
Proof.
  intros Hmax Hparse Hpc.
  assert (capacity_from_percent buf = Request pc ((pc * 1024 + 5000) / 10000) 0) as ->.
  { unfold capacity_from_percent. rewrite decide_False, Hparse by done.
    unfold UCLAMP_PERCENT_SCALE, UCLAMP_PERCENT_SHIFT, wrapu64. change (100 * 10 ^ 2) with 10000.
    rewrite Z.mod_small, decide_False by lia. f_equal. unfold DIV_ROUND_CLOSEST_ULL, wrapu64.
    rewrite capacity_shift, Z.shiftl_mul_pow2 by lia.
    change (10000 / 2) with 5000. change (2^10) with 1024. rewrite (Z.mod_small (pc * 1024)) by lia.
    rewrite Z.mod_small by lia. done. }
  split; [done|]. cbn [util percent]. intros Hv Hp. unfold cpu_uclamp_print. rewrite Hv, Hp, capacity_scale.
  unfold UCLAMP_PERCENT_SHIFT, wrapu64. change (10 ^ 2) with 100. rewrite Z.mod_small by lia.
  pose proof (Z.div_mod (pc * 1024 + 5000) 10000). pose proof (Z.mod_pos_bound (pc * 1024 + 5000) 10000).
  destruct (decide (9996 ≤ pc)); [by rewrite decide_True by lia|by rewrite decide_False by lia].
Qed.
End properties.

(** * A system at boot *)

Lemma init_ok `{!uclamp_headers} `{!uclamp_headers_ok} cpus init p g :
  inactive p → task_group p = root_task_group → task_cpu p ∈ cpus → state_ok (init_uclamp cpus init p g).
Proof.
  intros Hin Hg Hcpu.
  assert (∀ cpu q, rqs (init_uclamp cpus init p g) !! cpu = Some q → q = init_uclamp_rq) as Hrq.
  { intros cpu q Hq%elem_of_list_to_map_2. apply list_elem_of_fmap in Hq as (x & [= _ ->] & _). done. }
  assert (∀ cpu id, members (tasks (init_uclamp cpus init p g)) cpu id = []) as Hm.
  { intros cpu id. apply members_nil. intros pid x Hx. simpl in Hx.
    apply lookup_singleton_Some in Hx as [_ <-]. intros _. apply (Hin id). }
  split.
  - intros id. simpl. destruct id; apply se_set_ok; rewrite capacity_scale; lia.
  - intros h c id Hc. simpl in Hc. apply lookup_singleton_Some in Hc as [_ <-].
    destruct id; apply se_set_ok; rewrite capacity_scale; lia.
  - intros pid x Hx. simpl in Hx. apply lookup_singleton_Some in Hx as [_ <-]. split; [|split].
    + intros []; cbn [at_id uclamp_req set_req umin umax]; apply se_set_ok; [lia|rewrite capacity_scale; lia].
    + cbn [task_cpu set_req]. apply elem_of_dom. simpl. rewrite dom_list_to_map. apply elem_of_list_to_set.
      apply list_elem_of_fmap. exists (task_cpu p, init_uclamp_rq). split; [done|].
      apply list_elem_of_fmap. eauto.
    + cbn [task_group set_req]. rewrite Hg. simpl. by rewrite lookup_singleton_eq.
  - intros pid x Hx. simpl in Hx. apply lookup_singleton_Some in Hx as [_ <-].
    pose proof (Hin UCLAMP_MIN). pose proof (Hin UCLAMP_MAX). simpl in *. congruence.
  - intros cpu q id Hq. rewrite Hm, (Hrq _ _ Hq). pose proof (none_range id). destruct id; apply empty_ok; simpl in *; lia.
  - intros cpu q id _ _. apply Hm.
Qed.

(** * Witnesses *)

Definition zero_se : uclamp_se := Se 0 0 false false.
Definition plain (g cpu : Z) (lo hi : Z) : task :=
  Task (Clamps (uclamp_se_set lo true zero_se) (uclamp_se_set hi true zero_se)) (Clamps zero_se zero_se)
       false true false g false cpu.

Definition no_groups : groups := Groups ∅ [] ∅ [].
Definition boot : state := init_uclamp [0; 1] 1 (plain 0 0 0 1024) no_groups.

Definition or_else (r : res state) (s : state) : state := match r with Ok s => s | _ => s end.

(** Uclamp is in use, and the tasks 10 and 11 are on processor 1. *)
Definition with_tasks : state := put_task 11 (plain 0 1 0 100) (put_task 10 (plain 0 1 200 600) (enable_uclamp boot)).
Definition both_queued : state :=
  or_else (enqueue_task 11 (or_else (enqueue_task 10 with_tasks) boot)) boot.

Ltac plain_ok := split; [intros []; apply se_set_ok; lia|split; (apply elem_of_dom; by_decision)].

Lemma both_queued_reached : rtc change boot both_queued.
Proof.
  apply (rtc_l _ _ (enable_uclamp boot)). { apply change_sys. intros []; (split; [by_decision|by vm_compute]). }
  apply (rtc_l _ _ (put_task 10 (plain 0 1 200 600) (enable_uclamp boot))).
  { apply change_task; [by vm_compute|by intros []|]. plain_ok. }
  apply (rtc_l _ _ with_tasks). { apply change_task; [by vm_compute|by intros []|]. plain_ok. }
  apply (rtc_l _ _ (or_else (enqueue_task 10 with_tasks) boot)).
  { apply (change_enqueue _ 10 (plain 0 1 200 600)); [by vm_compute|by intros []|by vm_compute]. }
  apply rtc_once. apply (change_enqueue _ 11 (plain 0 1 0 100)); [by vm_compute|by intros []|by vm_compute].
Qed.

Lemma clamp_covers_tasks_witness :
  ∃ q p, rqs both_queued !! 1 = Some q ∧ tasks both_queued !! 10 = Some p ∧ task_cpu p = 1 ∧
  active (at_id UCLAMP_MAX (uclamp p)) = true ∧ value (at_id UCLAMP_MAX (uclamp p)) = 600 ∧
  (value (at_id UCLAMP_MAX (uclamp p)) ≤ rq_value (at_id UCLAMP_MAX (clamp_of q)) ∧
  (∀ i b, bucket (at_id UCLAMP_MAX (clamp_of q)) !! i = Some b →
     b_tasks b = Z.of_nat (length (filter (λ se, bucket_id se = Z.of_nat i) (members (tasks both_queued) 1 UCLAMP_MAX)))) ∧
  (∀ x px, tasks both_queued !! x = Some px → inactive px → ∃ s', enqueue_task x both_queued = Ok s') ∧
  (∀ x px, tasks both_queued !! x = Some px → ∃ s', dequeue_task x both_queued = Ok s') ∧
  (∀ x px id', tasks both_queued !! x = Some px → id' = UCLAMP_MIN ∨ members (delete x (tasks both_queued)) (task_cpu px) UCLAMP_MAX ≠ [] →
     ∃ s', uclamp_update_active id' x both_queued = Ok s')).
Proof.
  eexists _, _. split; [by vm_compute|]. split; [by vm_compute|]. split; [by vm_compute|]. split; [by vm_compute|].
  split; [by vm_compute|].
  eapply (clamp_covers_tasks boot both_queued 1 _ 10 _ UCLAMP_MAX);
    [by apply init_ok; [intros []| |set_solver]|exact both_queued_reached|by vm_compute..].
Defined.

(** The groups 1, 2 and 3 of [linux_uclamp] below the root group. *)
Definition small_tree : tree := Node 1 [Node 2 []; Node 3 []].
Definition tg (p : option Z) (l : list Z) : Groups.task_group := Tg p l 1024 (Bw 100000000 0 0).
Definition small_groups : groups :=
  Groups {[0 := tg None [1]; 1 := tg (Some 0) [2; 3]; 2 := tg (Some 1) []; 3 := tg (Some 1) []]} [] ∅ [].
Definition se (v : Z) : uclamp_se := uclamp_se_set v false zero_se.
Definition group_clamps (lo hi elo ehi : Z) : tg_clamps :=
  Tgc (Clamps (se lo) (se hi)) (Clamps (se elo) (se ehi)) (Clamps 0 0).
Definition small_state : state :=
  State (sys boot) (rqs boot) {[10 := plain 2 1 0 1024]}
    {[0 := group_clamps 1024 1024 1024 1024; 1 := group_clamps 0 1024 0 1024;
      2 := group_clamps 300 800 0 800; 3 := group_clamps 0 1024 0 1024]} small_groups.

Lemma small_ready : ready small_tree (Some 0) small_state.
Proof.
  split.
  - split.
    + intros []; (split; [by_decision|by vm_compute]).
    + intros g c id Hc. unfold small_state in Hc. cbn [tgcs] in Hc.
      repeat (apply lookup_insert_Some in Hc as [[<- <-]|[_ Hc]];
        [destruct id; (split; [split; [by_decision|by vm_compute]|by_decision])|]).
      apply lookup_singleton_Some in Hc as [<- <-]. destruct id; (split; [split; [by_decision|by vm_compute]|by_decision]).
    + intros pid p Hp. unfold small_state in Hp. cbn [tasks] in Hp. apply lookup_singleton_Some in Hp as [<- <-]. plain_ok.
    + intros pid p id Hp Ha. unfold small_state in Hp. cbn [tasks] in Hp. apply lookup_singleton_Some in Hp as [<- <-].
      by destruct id.
    + intros cpu q id Hq. unfold small_state, boot in Hq. cbn [rqs init_uclamp] in Hq.
      apply elem_of_list_to_map_2, list_elem_of_fmap in Hq as (x & [= _ ->] & _). by destruct id.
  - intros x Hx. apply elem_of_dom. simpl in Hx. repeat (apply elem_of_cons in Hx as [->|Hx]; [by_decision|]).
    by apply elem_of_nil in Hx.
  - intros x [= <-]. apply elem_of_dom. by_decision.
  - intros x Hx. simpl in Hx. repeat (apply elem_of_cons in Hx as [->|Hx]; [repeat constructor; apply elem_of_dom; by_decision|]).
    by apply elem_of_nil in Hx.
Qed.

Ltac now_consistent := eexists _, _; split; [by vm_compute|]; split; [by vm_compute|]; intros []; by vm_compute.

Lemma uclamp_write_updates_hierarchy_witness :
  let buf := "50"%string in
  ret (capacity_from_percent buf) = 0 ∧
  ∃ s', cpu_uclamp_write 1 buf UCLAMP_MIN small_state = Ok (Z.of_nat (String.length buf), s') ∧
    (∃ req pct, request_of s' 1 = Some (req, pct) ∧ value (at_id UCLAMP_MIN req) = util (capacity_from_percent buf) ∧
       at_id UCLAMP_MIN pct = percent (capacity_from_percent buf) ∧
       ∀ other, other ≠ UCLAMP_MIN →
         (λ a, (at_id other a.1, at_id other a.2)) <$> request_of small_state 1 = Some (at_id other req, at_id other pct)) ∧
    (∀ x, x ≠ 1 → request_of s' x = request_of small_state x) ∧
    (∀ x, x ∈ nodes small_tree → consistent s' x) ∧
    (∀ x, x ∉ nodes small_tree → tgcs s' !! x = tgcs small_state !! x).
Proof.
  intros buf. split; [by vm_compute|].
  apply (uclamp_write_updates_hierarchy small_tree (Some 0) small_state 1 buf UCLAMP_MIN).
  - done.
  - by_decision.
  - by vm_compute.
  - done.
  - intros l1 x l2 E. simpl in E.
    destruct l1 as [|a [|b [|c l1]]]; simplify_eq/=; try done. by destruct l1.
  - intros u Hu. simpl in Hu. repeat (apply elem_of_cons in Hu as [->|Hu]; [done|]). by apply elem_of_nil in Hu.
  - intros x [= <-]. by_decision.
  - exact small_ready.
  - intros x Hx. simpl in Hx. repeat (apply elem_of_cons in Hx as [->|Hx]; [now_consistent|]). by apply elem_of_nil in Hx.
  - by vm_compute.
Defined.

Lemma percent_roundtrip_witness :
  let buf := "99.98"%string in
  ret (capacity_from_percent buf) = 0 ∧
  (value (at_id UCLAMP_MIN (tg_req (group_clamps 1024 0 0 0))) = util (capacity_from_percent buf) →
   at_id UCLAMP_MIN (tg_pct (Tgc (tg_req (group_clamps 1024 0 0 0)) (tg_eff (group_clamps 0 0 0 0)) (Clamps 9998 0))) =
     percent (capacity_from_percent buf) →
   cpu_uclamp_print (Tgc (tg_req (group_clamps 1024 0 0 0)) (tg_eff (group_clamps 0 0 0 0)) (Clamps 9998 0)) UCLAMP_MIN =
     if decide (9996 ≤ 9998) then "max
"%string else (pretty (9998 / 100) +:+ "." +:+ pad2 (9998 mod 100) +:+ "
")%string).
Proof.
  intros buf. apply (percent_roundtrip buf 9998 (Tgc (tg_req (group_clamps 1024 0 0 0)) (tg_eff (group_clamps 0 0 0 0)) (Clamps 9998 0))
    UCLAMP_MIN); [by_decision|by vm_compute|lia].
Defined.

(** * What does not hold *)

(** After [uclamp_update_active] on the only task of a run queue that was idle
    before, the idle flag stays set, and the next task that is enqueued lowers the clamp below that
    of the first. *)
Lemma update_active_uncovers :
  let s := put_task 12 (plain 0 1 0 1024) with_tasks in
  let s := or_else (dequeue_task 12 (or_else (enqueue_task 12 s) boot)) boot in
  let s := or_else (enqueue_task 10 s) boot in
  let s := or_else (uclamp_update_active UCLAMP_MAX 10 s) boot in
  let s := or_else (enqueue_task 11 s) boot in
  (λ q, rq_value (umax (clamp_of q))) <$> rqs s !! 1 = Some 100 ∧
  (λ p, (active (umax (uclamp p)), value (umax (uclamp p)))) <$> tasks s !! 10 = Some (true, 600).
Proof. split; by vm_compute. Qed.

(** The first task with a maximum on a processor does not limit it. *)
Lemma first_maximum_ignored :
  let s := or_else (enqueue_task 10 with_tasks) boot in
  (λ q, rq_value (umax (clamp_of q))) <$> rqs s !! 1 = Some 1024 ∧
  (λ p, value (umax (uclamp p))) <$> tasks s !! 10 = Some 600.
Proof. split; by vm_compute. Qed.

(** A negative value passes the check and is kept as a small one in the
    bucket of the largest. *)
Lemma negative_value_accepted :
  let a := Util true false (2^32 - 2043) 0 in
  let p := __setscheduler_uclamp (sys boot) a (plain 0 1 0 1024) in
  fst (uclamp_validate (plain 0 1 0 1024) a boot) = 0 ∧ value (umin (uclamp_req p)) = 5 ∧
  bucket_id (umin (uclamp_req p)) = 4 ∧ uclamp_bucket_id 5 = 0.
Proof. repeat split; by vm_compute. Qed.
