(* ===== verification/Wakeq.v ===== *)
(** The queues of delayed wake-ups of the kernel of assignment 4
    (src/과제/OS과제/과제4/core.c): tasks are added to the queues of several
    contexts and woken from them at the same time. The links of a queue are
    in the tasks; the exchange of a link, the linking, the unlinking and the
    wake-up are single steps, in any interleaving of the contexts. *)
From S2P Require Import Prelude.
Local Open Scope Z_scope.

(** * Data *)

(** A pointer to a [wake_q_node] that is not NULL, and a [wake_q_node **]. *)
Inductive node : Set := WAKE_Q_TAIL | Task (t : Z).
Inductive place : Set := First | NextOf (t : Z).

Record wake_q_head := Head { first : node; lastp : place }.

(** [DEFINE_WAKE_Q]. *)
Definition empty_head : wake_q_head := Head WAKE_Q_TAIL First.

(** Where a context is: outside both functions, in [__wake_q_add] after the
    exchange ([safe] in [wake_q_add_safe]), at the head of the loop of
    [wake_up_q], and before its call of [wake_up_process]. *)
Inductive context : Set :=
  | Queueing (h : wake_q_head)
  | Linking (h : wake_q_head) (t : Z) (safe : bool)
  | Waking (n : node)
  | Woken (t : Z) (n : node).

Inductive event : Set := Added (c t : Z) | Woke (c t : Z).

(** [next]: the [wake_q.next] that are not NULL; [refs]: the references to
    each task, [ext] those among them that callers hold. *)
Record state := State {
  next : gmap Z node;
  contexts : gmap Z context;
  refs : gmap Z Z;
  ext : gmap Z Z;
  log : list event;
}.

Definition count (m : gmap Z Z) (t : Z) : Z := default 0 (m !! t).
Definition get_task_struct (t : Z) (m : gmap Z Z) : gmap Z Z := <[t := count m t + 1]> m.
Definition put_task_struct (t : Z) (m : gmap Z Z) : gmap Z Z := <[t := count m t - 1]> m.

Definition set_context (c : Z) (x : context) (s : state) : state :=
  State (next s) (<[c := x]> (contexts s)) (refs s) (ext s) (log s).
Definition set_next (m : gmap Z node) (s : state) : state :=
  State m (contexts s) (refs s) (ext s) (log s).
Definition set_refs (m e : gmap Z Z) (s : state) : state :=
  State (next s) (contexts s) m e (log s).
Definition record (e : event) (s : state) : state :=
  State (next s) (contexts s) (refs s) (ext s) (log s ++ [e]).

(** * Operations *)

(** [cmpxchg_relaxed(&node->next, NULL, WAKE_Q_TAIL)]: whether it was NULL. *)
Definition exchange (t : Z) (s : state) : bool * state :=
  match next s !! t with
  | Some _ => (false, s)
  | None => (true, set_next (<[t := WAKE_Q_TAIL]> (next s)) s)
  end.

(** [*head->lastp = node; head->lastp = &node->next]. *)
Definition link (h : wake_q_head) (t : Z) (s : state) : wake_q_head * state :=
  match lastp h with
  | First => (Head (Task t) (NextOf t), s)
  | NextOf u => (Head (first h) (NextOf t), set_next (<[u := Task t]> (next s)) s)
  end.

(** The reference of the caller of [wake_q_add_safe] goes to the queue or is
    dropped. *)
Definition pass_or_drop (t : Z) (s : state) : state := set_refs (refs s) (put_task_struct t (ext s)) s.

Inductive action : Set :=
  | Add (c t : Z) (safe : bool)
  | Link (c : Z)
  | WakeUpQ (c : Z)
  | Unlink (c : Z)
  | WakeUp (c : Z)
  | Init (c : Z).

(** A step of a context, if it is at that point. *)
Definition do (a : action) (s : state) : option (res state) :=
  match a with
  | Add c t safe =>
      match contexts s !! c with
      | Some (Queueing h) =>
          if safe && bool_decide (count (ext s) t < 1) then None
          else
            let '(free, s) := exchange t s in
            Some (Ok (if free : bool then set_context c (Linking h t safe) s
                      else if safe then set_refs (put_task_struct t (refs s)) (put_task_struct t (ext s)) s else s))
      | _ => None
      end
  | Link c =>
      match contexts s !! c with
      | Some (Linking h t safe) =>
          let '(h, s) := link h t s in
          let s := if safe : bool then pass_or_drop t s else set_refs (get_task_struct t (refs s)) (ext s) s in
          Some (Ok (record (Added c t) (set_context c (Queueing h) s)))
      | _ => None
      end
  | WakeUpQ c =>
      match contexts s !! c with
      | Some (Queueing h) => Some (Ok (set_context c (Waking (first h)) s))
      | _ => None
      end
  | Unlink c =>
      match contexts s !! c with
      | Some (Waking (Task t)) =>
          Some (match next s !! t with
                | Some n => Ok (set_context c (Woken t n) (set_next (delete t (next s)) s))
                | None => Undef NullPointer
                end)
      | _ => None
      end
  | WakeUp c =>
      match contexts s !! c with
      | Some (Woken t n) =>
          Some (Ok (record (Woke c t)
                      (set_context c (Waking n) (set_refs (put_task_struct t (refs s)) (ext s) s))))
      | _ => None
      end
  | Init c =>
      match contexts s !! c with
      | None | Some (Waking WAKE_Q_TAIL) => Some (Ok (set_context c (Queueing empty_head) s))
      | _ => None
      end
  end.

Definition step (s s' : state) : Prop := ∃ a, do a s = Some (Ok s').

(** No queue yet; the callers hold all references. *)
Definition start (held : gmap Z Z) : state := State ∅ ∅ held held [].
