(* ===== verification/WakeqProofs.v ===== *)
(** The queues of delayed wake-ups: in any interleaving every task that is
    added to a queue is woken once by its context, in the order of the queue. *)
From S2P Require Import Prelude Wakeq.
Local Open Scope Z_scope.

(** * Specification *)

Fixpoint added (c : Z) (l : list event) : list Z :=
  match l with
  | [] => []
  | Added d t :: l => if decide (d = c) then t :: added c l else added c l
  | _ :: l => added c l
  end.
Fixpoint woke (c : Z) (l : list event) : list Z :=
  match l with
  | [] => []
  | Woke d t :: l => if decide (d = c) then t :: woke c l else woke c l
  | _ :: l => woke c l
  end.

(** How often [t] was added to a queue, and woken from one. *)
Fixpoint adds (t : Z) (l : list event) : Z :=
  match l with
  | [] => 0
  | Added _ u :: l => (if decide (u = t) then 1 else 0) + adds t l
  | _ :: l => adds t l
  end.
Fixpoint wakes (t : Z) (l : list event) : Z :=
  match l with
  | [] => 0
  | Woke _ u :: l => (if decide (u = t) then 1 else 0) + wakes t l
  | _ :: l => wakes t l
  end.

(** The links from [n] on are the list [l], and [p] is where its end is. *)
Fixpoint chain (m : gmap Z node) (n : node) (l : list Z) : Prop :=
  match l with
  | [] => n = WAKE_Q_TAIL
  | t :: l => n = Task t ∧ ∃ n', m !! t = Some n' ∧ chain m n' l
  end.

Definition end_of (l : list Z) : place := match last l with Some t => NextOf t | None => First end.

(** The queue of a context is [l]. *)
Definition queue (m : gmap Z node) (x : context) (l : list Z) : Prop :=
  match x with
  | Queueing h => chain m (first h) l ∧ lastp h = end_of l
  | Linking h t _ => chain m (first h) l ∧ lastp h = end_of l ∧ m !! t = Some WAKE_Q_TAIL
  | Waking n | Woken _ n => chain m n l
  end.

(** The tasks whose links are in use by a context with the queue [l], and the
    tasks it still has to wake. *)
Definition own (x : context) (l : list Z) : list Z :=
  match x with Linking _ t _ => t :: l | _ => l end.
Definition to_wake (x : context) (l : list Z) : list Z :=
  match x with Woken t _ => t :: l | _ => l end.

(** [Q]: the queue of each context. *)
Record queues_ok (s : state) (Q : Z → list Z) : Prop := {
  q_queue : ∀ c x, contexts s !! c = Some x → queue (next s) x (Q c);
  q_nodup : ∀ c x, contexts s !! c = Some x → NoDup (own x (Q c));
  q_disjoint : ∀ c x d y t, contexts s !! c = Some x → contexts s !! d = Some y →
    t ∈ own x (Q c) → t ∈ own y (Q d) → c = d;
  q_used : ∀ t, is_Some (next s !! t) → ∃ c x, contexts s !! c = Some x ∧ t ∈ own x (Q c);
  q_order : ∀ c x, contexts s !! c = Some x → added c (log s) = woke c (log s) ++ to_wake x (Q c);
  q_new : ∀ c, contexts s !! c = None → added c (log s) = [] ∧ woke c (log s) = [];
  q_refs : ∀ t, count (refs s) t = count (ext s) t + adds t (log s) - wakes t (log s);
}.

(** * Lists of events and chains *)

Lemma added_app c l1 l2 : added c (l1 ++ l2) = added c l1 ++ added c l2.
Proof. induction l1 as [|[]]; simpl; repeat case_decide; simpl; congruence. Qed.
Lemma woke_app c l1 l2 : woke c (l1 ++ l2) = woke c l1 ++ woke c l2.
Proof. induction l1 as [|[]]; simpl; repeat case_decide; simpl; congruence. Qed.
Lemma adds_app t l1 l2 : adds t (l1 ++ l2) = adds t l1 + adds t l2.
Proof. induction l1 as [|[]]; simpl; repeat case_decide; lia. Qed.
Lemma wakes_app t l1 l2 : wakes t (l1 ++ l2) = wakes t l1 + wakes t l2.
Proof. induction l1 as [|[]]; simpl; repeat case_decide; lia. Qed.

Lemma chain_frame m m' n l : (∀ t, t ∈ l → m' !! t = m !! t) → chain m n l → chain m' n l.
Proof.
  revert n. induction l as [|t l IH]; intros n Hm; [done|]. simpl. intros (-> & n' & Hn & Hl).
  split; [done|]. exists n'. rewrite Hm by left. split; [done|]. apply IH; [|done].
  intros u Hu. apply Hm. by right.
Qed.

(** Linking the task [t] at the end. *)
Lemma chain_snoc m n l t :
  chain m n l → NoDup l → t ∉ l → m !! t = Some WAKE_Q_TAIL →
  match end_of l with
  | First => chain m (Task t) [t]
  | NextOf u => chain (<[u := Task t]> m) n (l ++ [t])
  end.
Proof.
  intros Hc Hn Ht Hm. unfold end_of. destruct (last l) as [u|] eqn:El; [|simpl; eauto].
  apply last_Some in El as [l' ->]. apply NoDup_app in Hn as (_ & Hd & _).
  assert (u ∉ l') as Hu by (intros Hu; apply (Hd u Hu); left).
  clear Hd. revert n Hc. induction l' as [|x l' IH]; simpl; intros n (-> & n' & Hn' & Hc); (split; [done|]).
  - exists (Task t). rewrite lookup_insert_eq. split; [done|]. split; [done|].
    exists WAKE_Q_TAIL. rewrite lookup_insert_ne by set_solver. done.
  - exists n'. rewrite lookup_insert_ne by set_solver. split; [done|]. apply IH; set_solver.
Qed.

Lemma end_of_snoc l t : end_of (l ++ [t]) = NextOf t.
Proof. unfold end_of. by rewrite last_snoc. Qed.

Lemma end_of_first l : end_of l = First → l = [].
Proof. unfold end_of. destruct (last l) eqn:E; [done|]. intros _. by apply last_None. Qed.

Lemma end_of_next l u : end_of l = NextOf u → u ∈ l.
Proof. unfold end_of. destruct (last l) eqn:E; [|done]. intros [= <-]. by apply last_Some_elem_of. Qed.

Lemma queue_frame m m' x l :
  (∀ t, t ∈ own x l → m' !! t = m !! t) → queue m x l → queue m' x l.
Proof.
  intros Hm. destruct x as [h|h t b|n|t n]; simpl in *.
  - intros [? ?]. split; [by eapply chain_frame|done].
  - intros (? & ? & ?). split; [|split; [done|]]; [eapply chain_frame; [|done]; intros; apply Hm; by right|].
    by rewrite Hm by left.
  - by apply chain_frame.
  - by apply chain_frame.
Qed.

(** * One step *)

Definition set_queue (Q : Z → list Z) (c : Z) (l : list Z) : Z → list Z :=
  λ d, if decide (d = c) then l else Q d.

(** A context changes to [x] with the queue [l]. *)
Lemma update_ok s Q s' c x l :
  queues_ok s Q → contexts s' = <[c := x]> (contexts s) →
  queue (next s') x l → NoDup (own x l) →
  (∀ d y t, d ≠ c → contexts s !! d = Some y → t ∈ own y (Q d) → next s' !! t = next s !! t ∧ t ∉ own x l) →
  (∀ t, is_Some (next s' !! t) →
     t ∈ own x l ∨ ∃ d y, d ≠ c ∧ contexts s !! d = Some y ∧ t ∈ own y (Q d)) →
  added c (log s') = woke c (log s') ++ to_wake x l →
  (∀ d, d ≠ c → added d (log s') = added d (log s) ∧ woke d (log s') = woke d (log s)) →
  (∀ t, count (refs s') t = count (ext s') t + adds t (log s') - wakes t (log s')) →
  queues_ok s' (set_queue Q c l).
Proof.
  intros [Q1 Q2 Q3 Q4 Q5 Q6 Q7] Ec Hq Hn Hd Hu Ho Hlog Hrefs.
  assert (∀ d, d ≠ c → set_queue Q c l d = Q d) as Eo by (intros; by apply decide_False).
  assert (set_queue Q c l c = l) as El by by apply decide_True.
  assert (∀ d y, contexts s' !! d = Some y → (d = c ∧ y = x) ∨ (d ≠ c ∧ contexts s !! d = Some y)) as Hcases.
  { intros d y. rewrite Ec, lookup_insert_Some. naive_solver. }
  split.
  - intros d y [[-> ->]|[Hne Hy]]%Hcases; [by rewrite El|]. rewrite Eo by done.
    eapply queue_frame; [|by eapply Q1]. intros t Ht. by eapply Hd.
  - intros d y [[-> ->]|[Hne Hy]]%Hcases; [by rewrite El|]. rewrite Eo by done. by eapply Q2.
  - intros d y e z t [[-> ->]|[Hne Hy]]%Hcases [[-> ->]|[Hne' Hz]]%Hcases; rewrite ?El, ?Eo by done; try done.
    + intros Ht Ht'. by destruct (Hd e z t Hne' Hz Ht').
    + intros Ht Ht'. by destruct (Hd d y t Hne Hy Ht).
    + by eapply Q3.
  - intros t [Ht|(d & y & Hne & Hy & Ht)]%Hu.
    + exists c, x. rewrite Ec, lookup_insert_eq, El. done.
    + exists d, y. rewrite Ec, lookup_insert_ne, Eo by done. done.
  - intros d y [[-> ->]|[Hne Hy]]%Hcases; [by rewrite El|]. rewrite Eo by done.
    destruct (Hlog d Hne) as [-> ->]. by eapply Q5.
  - intros d. rewrite Ec, lookup_insert_None. intros [Hd' Hne]. destruct (Hlog d) as [-> ->]; [done|]. by apply Q6.
  - done.
Qed.

Lemma count_get t u m : count (get_task_struct t m) u = count m u + (if decide (t = u) then 1 else 0).
Proof.
  unfold count, get_task_struct. case_decide as E; [subst; by rewrite lookup_insert_eq|].
  rewrite lookup_insert_ne by done. lia.
Qed.
Lemma count_put t u m : count (put_task_struct t m) u = count m u - (if decide (t = u) then 1 else 0).
Proof.
  unfold count, put_task_struct. case_decide as E; [subst; by rewrite lookup_insert_eq|].
  rewrite lookup_insert_ne by done. lia.
Qed.

Lemma add_ok s Q c t safe r :
  queues_ok s Q → do (Add c t safe) s = Some r → ∃ s' Q', r = Ok s' ∧ queues_ok s' Q'.
Proof.
  intros HQ E. pose proof HQ as [Q1 Q2 Q3 Q4 Q5 Q6 Q7]. simpl in E.
  destruct (contexts s !! c) as [[h|h u b|n|u n]|] eqn:Ec; try done. destruct (safe && _); [done|].
  unfold exchange in E. destruct (next s !! t) as [n|] eqn:En; injection E as <-.
  { destruct safe; [|by exists s, Q]. eexists _, Q. split; [done|]. split; try done.
    intros u. cbn [refs ext log set_refs]. rewrite !count_put, Q7. lia. }
  destruct (Q1 c _ Ec) as [Hc Hl]. pose proof (Q2 c _ Ec) as Hn. simpl in Hn.
  assert (∀ d y, contexts s !! d = Some y → t ∉ own y (Q d)) as Hfree.
  { intros d y Hy Ht. pose proof (Q1 d y Hy) as Hq.
    assert (is_Some (next s !! t)) as [? ?]; [|congruence]. clear -Hq Ht.
    assert (∀ n l, chain (next s) n l → t ∈ l → is_Some (next s !! t)) as Hch.
    { intros n l. revert n. induction l as [|a l IH]; intros n; [by intros _ ?%elem_of_nil|].
      simpl. intros (-> & n' & Hn' & Hcl) [->|Hin]%elem_of_cons; eauto. }
    destruct y as [h|h u b|n|u n]; simpl in *; try (by eapply Hch; [apply Hq|]).
    apply elem_of_cons in Ht as [->|Ht]; [destruct Hq as (_ & _ & ->); eauto|]. eapply Hch; [apply Hq|done]. }
  eexists _, (set_queue Q c (Q c)). split; [done|].
  apply (update_ok s Q _ c (Linking h t safe) (Q c) HQ); cbn [contexts next log refs ext set_context set_next].
  - done.
  - split; [|split; [done|by rewrite lookup_insert_eq]]. eapply chain_frame; [|done].
    intros u Hu. apply lookup_insert_ne. intros ->. by apply (Hfree c _ Ec).
  - constructor; [by apply (Hfree c _ Ec)|done].
  - intros d y u Hne Hy Hu. split.
    + apply lookup_insert_ne. intros ->. by apply (Hfree d y Hy).
    + simpl. intros [->|Hin]%elem_of_cons; [by apply (Hfree d y Hy)|].
      apply Hne. by apply (Q3 d y c (Queueing h) u Hy Ec).
  - intros u [w Hw]. destruct (decide (u = t)) as [->|Hut]; [left; left|].
    rewrite lookup_insert_ne in Hw by done. destruct (Q4 u) as (d & y & Hy & Hu); [by eexists|].
    destruct (decide (d = c)) as [->|]; [|right; eauto]. left. simpl. rewrite Ec in Hy. injection Hy as <-. by right.
  - by apply (Q5 c _ Ec).
  - done.
  - done.
Qed.

Lemma link_ok s Q c r :
  queues_ok s Q → do (Link c) s = Some r → ∃ s' Q', r = Ok s' ∧ queues_ok s' Q'.
Proof.
  intros HQ E. pose proof HQ as [Q1 Q2 Q3 Q4 Q5 Q6 Q7]. simpl in E.
  destruct (contexts s !! c) as [[h|h t b|n|u n]|] eqn:Ec; try done.
  destruct (Q1 c _ Ec) as (Hc & Hl & Ht). pose proof (Q2 c _ Ec) as Hn. simpl in Hn. apply NoDup_cons in Hn as [Htn Hn].
  pose proof (chain_snoc _ _ _ _ Hc Hn Htn Ht) as Hsnoc. unfold link in E. rewrite Hl in E.
  set (m := match end_of (Q c) with First => next s | NextOf u => <[u := Task t]> (next s) end).
  set (h' := Head (match end_of (Q c) with First => Task t | NextOf _ => first h end) (NextOf t)).
  assert (chain m (first h') (Q c ++ [t])) as Hchain.
  { subst m h'. destruct (end_of (Q c)) as [|u] eqn:Ee; [|done]. by rewrite (end_of_first _ Ee). }
  assert (∀ u, m !! u = next s !! u ∨ u ∈ Q c) as Hm.
  { subst m. destruct (end_of (Q c)) as [|u] eqn:Ee; [by left|]. intros v.
    destruct (decide (v = u)) as [->|]; [right; by apply end_of_next|left; by apply lookup_insert_ne]. }
  assert (∃ s1, r = Ok s1 ∧ contexts s1 = <[c := Queueing h']> (contexts s) ∧ next s1 = m ∧
    log s1 = log s ++ [Added c t] ∧ ∀ u, count (refs s1) u - count (ext s1) u =
      count (refs s) u - count (ext s) u + (if decide (t = u) then 1 else 0)) as (s1 & -> & Es & Em & El & Hr).
  { subst m h'. destruct (end_of (Q c)); injection E as <-; destruct b; eexists; (split; [done|]);
      (split; [done|]); (split; [done|]); (split; [done|]); intros u;
      cbn [refs ext record set_context set_next set_refs pass_or_drop]; rewrite ?count_get, ?count_put; lia. }
  exists s1, (set_queue Q c (Q c ++ [t])). split; [done|].
  apply (update_ok s Q s1 c (Queueing h') (Q c ++ [t]) HQ Es); rewrite ?Em, ?El.
  - split; [exact Hchain|]. by rewrite end_of_snoc.
  - simpl. apply NoDup_app. split; [done|]. split; [|apply NoDup_singleton].
    intros u Hu ->%list_elem_of_singleton. done.
  - intros d y u Hne Hy Hu. assert (u ∉ own (Linking h t b) (Q c)) as Hnot.
    { intros Hin. apply Hne. by apply (Q3 d y c (Linking h t b) u Hy Ec). }
    simpl in Hnot |- *. apply not_elem_of_cons in Hnot as [Hut HuQ]. split.
    + by destruct (Hm u).
    + rewrite elem_of_app, list_elem_of_singleton. naive_solver.
  - intros u Hu. assert (is_Some (next s !! u) ∨ u ∈ Q c) as [Hu'|Hu'].
    { destruct (Hm u) as [<-|?]; [by left|by right]. }
    + destruct (Q4 u Hu') as (d & y & Hy & Hin). destruct (decide (d = c)) as [->|]; [|right; eauto].
      left. rewrite Ec in Hy. injection Hy as <-. simpl in *.
      rewrite elem_of_app, list_elem_of_singleton. apply elem_of_cons in Hin. tauto.
    + left. simpl. apply elem_of_app. by left.
  - rewrite added_app, woke_app. simpl. rewrite decide_True by done. rewrite (Q5 c _ Ec). simpl.
    by rewrite app_nil_r, app_assoc.
  - intros d Hne. rewrite added_app, woke_app. simpl. rewrite decide_False by done. by rewrite !app_nil_r.
  - intros u. rewrite adds_app, wakes_app. simpl. pose proof (Q7 u). pose proof (Hr u). case_decide; lia.
Qed.

Lemma wake_up_q_ok s Q c r :
  queues_ok s Q → do (WakeUpQ c) s = Some r → ∃ s' Q', r = Ok s' ∧ queues_ok s' Q'.
Proof.
  intros HQ E. pose proof HQ as [Q1 Q2 Q3 Q4 Q5 Q6 Q7]. simpl in E.
  destruct (contexts s !! c) as [[h|h t b|n|u n]|] eqn:Ec; try done. injection E as <-.
  eexists _, (set_queue Q c (Q c)). split; [done|].
  apply (update_ok s Q _ c (Waking (first h)) (Q c) HQ); try done.
  - apply (Q1 c _ Ec).
  - apply (Q2 c _ Ec).
  - intros d y t Hne Hy Ht. split; [done|]. intros Hin. apply Hne. by apply (Q3 d y c (Queueing h) t Hy Ec).
  - intros t Ht. destruct (Q4 t Ht) as (d & y & Hy & Hin). destruct (decide (d = c)) as [->|]; [|right; eauto].
    left. rewrite Ec in Hy. by injection Hy as <-.
  - apply (Q5 c _ Ec).
Qed.

Lemma unlink_ok s Q c r :
  queues_ok s Q → do (Unlink c) s = Some r → ∃ s' Q', r = Ok s' ∧ queues_ok s' Q'.
Proof.
  intros HQ E. pose proof HQ as [Q1 Q2 Q3 Q4 Q5 Q6 Q7]. simpl in E.
  destruct (contexts s !! c) as [[h|h t b|[|t]|u n]|] eqn:Ec; try done.
  pose proof (Q1 c _ Ec) as Hc. pose proof (Q2 c _ Ec) as Hn. pose proof (Q5 c _ Ec) as Ho. simpl in Hc, Hn, Ho.
  destruct (Q c) as [|t' l] eqn:El; [done|]. destruct Hc as ([= <-] & n & Hnx & Hc). rewrite Hnx in E.
  injection E as <-. apply NoDup_cons in Hn as [Htl Hn].
  eexists _, (set_queue Q c l). split; [done|].
  apply (update_ok s Q _ c (Woken t n) l HQ); cbn [contexts next log refs ext set_context set_next]; try done.
  - simpl. eapply chain_frame; [|done]. intros u Hu. apply lookup_delete_ne. by intros ->.
  - intros d y u Hne Hy Hu. assert (u ∉ Q c) as Hnot.
    { intros Hin. apply Hne. by apply (Q3 d y c (Waking (Task t)) u Hy Ec). }
    rewrite El in Hnot. apply not_elem_of_cons in Hnot as [Hut Hul]. split; [|done].
    by apply lookup_delete_ne.
  - intros u [w Hw]. apply lookup_delete_Some in Hw as [Hut Hw].
    destruct (Q4 u) as (d & y & Hy & Hin); [by eexists|]. destruct (decide (d = c)) as [->|]; [|right; eauto].
    left. rewrite Ec in Hy. injection Hy as <-. simpl in Hin |- *. rewrite El in Hin.
    apply elem_of_cons in Hin as [->|]; done.
Qed.

Lemma wake_up_ok s Q c r :
  queues_ok s Q → do (WakeUp c) s = Some r → ∃ s' Q', r = Ok s' ∧ queues_ok s' Q'.
Proof.
  intros HQ E. pose proof HQ as [Q1 Q2 Q3 Q4 Q5 Q6 Q7]. simpl in E.
  destruct (contexts s !! c) as [[h|h t b|n|t n]|] eqn:Ec; try done. injection E as <-.
  eexists _, (set_queue Q c (Q c)). split; [done|].
  apply (update_ok s Q _ c (Waking n) (Q c) HQ); cbn [contexts next log refs ext record set_context set_refs]; try done.
  - apply (Q1 c _ Ec).
  - apply (Q2 c _ Ec).
  - intros d y u Hne Hy Hu. split; [done|]. intros Hin. apply Hne. by apply (Q3 d y c (Woken t n) u Hy Ec).
  - intros u Hu. destruct (Q4 u Hu) as (d & y & Hy & Hin). destruct (decide (d = c)) as [->|]; [|right; eauto].
    left. rewrite Ec in Hy. by injection Hy as <-.
  - rewrite added_app, woke_app, (Q5 c _ Ec). simpl. rewrite decide_True, app_nil_r by done.
    by rewrite <- app_assoc.
  - intros d Hne. rewrite added_app, woke_app. simpl. rewrite decide_False by done. by rewrite !app_nil_r.
  - intros u. rewrite adds_app, wakes_app, count_put, Q7. simpl. case_decide; lia.
Qed.

Lemma wakeq_init_ok s Q c r :
  queues_ok s Q → do (Init c) s = Some r → ∃ s' Q', r = Ok s' ∧ queues_ok s' Q'.
Proof.
  intros HQ E. pose proof HQ as [Q1 Q2 Q3 Q4 Q5 Q6 Q7]. simpl in E.
  assert (added c (log s) = woke c (log s) ∧ (∀ y, contexts s !! c = Some y → own y (Q c) = []) ∧
    r = Ok (set_context c (Queueing empty_head) s)) as (Ho & Hown & ->).
  { destruct (contexts s !! c) as [[h|h t b|[|]|t n]|] eqn:Ec; try done; injection E as <-.
    - pose proof (Q1 c _ Ec) as Hc. pose proof (Q5 c _ Ec) as Ho. simpl in *.
      destruct (Q c); [|by destruct Hc]. rewrite app_nil_r in Ho. split; [done|]. split; [|done].
      by intros y [= <-].
    - destruct (Q6 c Ec) as [-> ->]. done. }
  eexists _, (set_queue Q c []). split; [done|].
  apply (update_ok s Q _ c (Queueing empty_head) [] HQ); cbn [contexts next log refs ext set_context]; try done.
  - constructor.
  - intros d y u Hne Hy Hu. split; [done|apply not_elem_of_nil].
  - intros u Hu. destruct (Q4 u Hu) as (d & y & Hy & Hin). destruct (decide (d = c)) as [->|]; [|right; eauto].
    rewrite (Hown y Hy) in Hin. by apply elem_of_nil in Hin.
  - by rewrite app_nil_r.
Qed.

Lemma wakeq_do_ok a s Q r : queues_ok s Q → do a s = Some r → ∃ s' Q', r = Ok s' ∧ queues_ok s' Q'.
Proof.
  destruct a; eauto using add_ok, link_ok, wake_up_q_ok, unlink_ok, wake_up_ok, wakeq_init_ok.
Qed.

Lemma wakeq_start_ok held : queues_ok (start held) (λ _, []).
Proof.
  assert (∀ A (a : A) c, (∅ : gmap Z A) !! c = Some a → False) as He by (intros A a c; by rewrite lookup_empty).
  split; cbn [contexts next log refs ext start].
  - intros c x Hx. destruct (He _ _ _ Hx).
  - intros c x Hx. destruct (He _ _ _ Hx).
  - intros c x d y t Hx. destruct (He _ _ _ Hx).
  - intros t [? Hx]. destruct (He _ _ _ Hx).
  - intros c x Hx. destruct (He _ _ _ Hx).
  - done.
  - intros t. simpl. lia.
Qed.

Lemma wakeq_reachable_ok held s : rtc step (start held) s → ∃ Q, queues_ok s Q.
Proof.
  intros H. remember (start held) as s0 eqn:E0. assert (∃ Q, queues_ok s0 Q) as HQ.
  { subst. eexists. apply wakeq_start_ok. }
  clear E0. induction H as [|s1 s2 s3 [a Ha] _ IH]; [done|]. destruct HQ as [Q HQ].
  destruct (wakeq_do_ok _ _ _ _ HQ Ha) as (s' & Q' & [= ->] & HQ'). eauto.
Qed.

(** * Counting *)

Fixpoint sum (f : Z → Z) (cs : list Z) : Z := match cs with [] => 0 | c :: cs => f c + sum f cs end.

Lemma sum_add f g cs : sum (λ c, f c + g c) cs = sum f cs + sum g cs.
Proof. induction cs; simpl; lia. Qed.
Lemma sum_mono f g cs : (∀ c, f c ≤ g c) → sum f cs ≤ sum g cs.
Proof. intros H. induction cs as [|c cs IH]; simpl; [lia|]. pose proof (H c). lia. Qed.
Lemma sum_zero cs : sum (λ _, 0) cs = 0.
Proof. induction cs; simpl; lia. Qed.
Lemma sum_ext f g cs : (∀ c, c ∈ cs → f c = g c) → sum f cs = sum g cs.
Proof.
  induction cs as [|c cs IH]; simpl; intros H; [done|]. rewrite (H c), IH; [done| |left].
  intros d Hd. apply H. by right.
Qed.
Lemma sum_single d k cs : NoDup cs → d ∈ cs → sum (λ c, if decide (d = c) then k else 0) cs = k.
Proof.
  intros Hn Hd. induction Hn as [|c cs Hc Hn IH]; [by apply elem_of_nil in Hd|].
  simpl. apply elem_of_cons in Hd as [->|Hd].
  - rewrite decide_True by done. rewrite (sum_ext _ (λ _, 0)), sum_zero; [lia|].
    intros e He. apply decide_False. by intros ->.
  - rewrite decide_False by (by intros ->). rewrite IH by done. lia.
Qed.

Definition occ (t : Z) (l : list Z) : Z := Z.of_nat (count_occ Z.eq_dec l t).
Lemma occ_cons t u l : occ t (u :: l) = (if decide (u = t) then 1 else 0) + occ t l.
Proof. unfold occ. simpl. destruct (Z.eq_dec u t), (decide (u = t)); lia. Qed.
Lemma wakeq_occ_app t l1 l2 : occ t (l1 ++ l2) = occ t l1 + occ t l2.
Proof. unfold occ. rewrite count_occ_app. lia. Qed.

Definition who (e : event) : Z := match e with Added c _ | Woke c _ => c end.

Lemma by_context t l cs : NoDup cs → (∀ e, e ∈ l → who e ∈ cs) →
  adds t l = sum (λ c, occ t (added c l)) cs ∧ wakes t l = sum (λ c, occ t (woke c l)) cs.
Proof.
  intros Hn. induction l as [|e l IH]; intros Hl; [simpl; unfold occ; simpl; by rewrite sum_zero|].
  destruct IH as [IHa IHw]; [intros; apply Hl; by right|]. pose proof (Hl e (list_elem_of_here e l)) as He.
  destruct e as [d u|d u]; simpl in He |- *; split; try done.
  - rewrite IHa, <- (sum_single d (if decide (u = t) then 1 else 0) cs Hn He), <- sum_add.
    apply sum_ext. intros c _. case_decide; [by rewrite occ_cons|lia].
  - rewrite IHw, <- (sum_single d (if decide (u = t) then 1 else 0) cs Hn He), <- sum_add.
    apply sum_ext. intros c _. case_decide; [by rewrite occ_cons|lia].
Qed.

Lemma wakes_adds t l :
  (∀ c, occ t (woke c l) ≤ occ t (added c l)) → wakes t l ≤ adds t l.
Proof.
  intros H. destruct (by_context t l (remove_dups (who <$> l))) as [-> ->].
  - apply NoDup_remove_dups.
  - intros e He. apply elem_of_remove_dups, list_elem_of_fmap. eauto.
  - by apply sum_mono.
Qed.

(** * Properties *)

(** C35: Delayed wake-ups are exact: in any interleaving of contexts that add
    tasks to their queues and wake them, no step dereferences a null link; a
    context that has reached the tail of its queue has woken exactly the tasks
    it added, as often and in the same order; a task that could not be added is
    at that moment in the queue of some context, which still has to wake it;
    and a task has a reference of its own for each of its pending wake-ups,
    that only its wake-up drops. *)
Theorem delayed_wakeups_exact held s a :
  rtc step (start held) s →
  (∀ r, do a s = Some r → ∃ s', r = Ok s') ∧
  (∀ c, contexts s !! c = Some (Waking WAKE_Q_TAIL) → woke c (log s) = added c (log s)) ∧
  (∀ t, (exchange t s).1 = false →
     ∃ d x, contexts s !! d = Some x ∧
       ((∃ h b, x = Linking h t b) ∨ occ t (woke d (log s)) < occ t (added d (log s)))) ∧
  (∀ t, count (refs s) t = count (ext s) t + adds t (log s) - wakes t (log s)) ∧
  (∀ t, wakes t (log s) ≤ adds t (log s)).
Proof.
  intros [Q HQ]%wakeq_reachable_ok. split; [|split; [|split; [|split]]].
  - intros r Hr. destruct (wakeq_do_ok _ _ _ _ HQ Hr) as (s' & _ & -> & _). eauto.
  - intros c Hc. pose proof (q_order _ _ HQ c _ Hc) as Ho. pose proof (q_queue _ _ HQ c _ Hc) as Hq. simpl in *.
    destruct (Q c); [by rewrite app_nil_r in Ho|by destruct Hq].
  - intros t Ht. unfold exchange in Ht. destruct (next s !! t) eqn:En; [|done].
    destruct (q_used _ _ HQ t) as (d & x & Hx & Hin); [by eexists|]. exists d, x. split; [done|].
    destruct (decide (t ∈ to_wake x (Q d))) as [Hw|Hw].
    + right. rewrite (q_order _ _ HQ d x Hx), wakeq_occ_app. apply (list_elem_of_In) in Hw.
      apply (count_occ_In Z.eq_dec) in Hw. unfold occ. lia.
    + left. destruct x as [h|h u b|w|u w]; simpl in Hin, Hw; try tauto.
      * apply elem_of_cons in Hin as [->|]; [eauto|done].
      * destruct Hw. by right.
  - apply (q_refs _ _ HQ).
  - intros t. apply wakes_adds. intros c. destruct (contexts s !! c) as [x|] eqn:Hx.
    + rewrite (q_order _ _ HQ c x Hx), wakeq_occ_app. unfold occ. lia.
    + by destruct (q_new _ _ HQ c Hx) as [-> ->].
Qed.

(** Two contexts add the same task: the second finds it queued, and the first
    wakes its two tasks in order. *)
Definition run (l : list action) (s : state) : option state :=
  foldl (λ o a, match o with Some s => match do a s with Some (Ok s) => Some s | _ => None end | None => None end) (Some s) l.

Definition example : list action :=
  [Init 1; Init 2; Add 1 7 false; Add 2 7 false; Link 1; Add 1 8 true; Link 1; WakeUpQ 2; WakeUpQ 1;
   Unlink 1; WakeUp 1; Unlink 1; WakeUp 1].

Lemma run_reachable l s s' : run l s = Some s' → rtc step s s'.
Proof.
  revert s. induction l as [|a l IH]; intros s; [by intros [= <-]|]. unfold run. simpl.
  destruct (do a s) as [[s1| |]|] eqn:E; [| | |];
    try (intros H; exfalso; clear -H; induction l; simpl in *; [done|auto]).
  intros H. eapply rtc_l; [by exists a|]. by apply IH.
Qed.

Lemma delayed_wakeups_exact_witness :
  ∃ s, run example (start {[8 := 1]}) = Some s ∧ contexts s !! 1 = Some (Waking WAKE_Q_TAIL) ∧
    added 1 (log s) = [7; 8] ∧ woke 1 (log s) = added 1 (log s).
Proof.
  destruct (run example (start {[8 := 1]})) as [s|] eqn:E; [|vm_compute in E; discriminate].
  pose proof (run_reachable _ _ _ E) as Hs. exists s. split; [done|].
  destruct (delayed_wakeups_exact {[8 := 1]} s (Init 3) Hs) as (_ & Hw & _).
  assert (contexts s !! 1 = Some (Waking WAKE_Q_TAIL) ∧ added 1 (log s) = [7; 8]) as [Hc Ha].
  { vm_compute in E. injection E as <-. by split; vm_compute. }
  split; [done|]. split; [done|]. by apply Hw.
Defined.
