(* ===== verification/Affinity.v ===== *)
(** The processor affinity of a task in the kernel of assignment 4
    (src/과제/OS과제/과제4/core.c and sched.h): any number of callers of
    __set_cpus_allowed_ptr for one task, the task itself with its regions in
    which it must not migrate, the stopper threads of the processors, and the
    choice of a processor for a wake-up. A region under the locks of the task
    and of its run queue is one step; what follows the unlocking is a list of
    operations that other threads interleave with. Processors do not come or
    go; the configuration has CONFIG_SMP and CONFIG_CPUSETS. *)
From S2P Require Import Prelude.
Local Open Scope Z_scope.

(** * Data *)

(** What other files of the kernel provide: the masks of the processors, the
    mask of the node of a processor (none for node -1), and the mask that
    cpuset_cpus_allowed_fallback gives the task. *)
Class topology := {
  nr_cpu_ids : Z;
  cpu_possible_mask : gset Z;
  cpu_online_mask : gset Z;
  cpu_active_mask : gset Z;
  balance_push : Z → bool;
  node_mask : Z → option (gset Z);
  cpuset_fallback : gset Z;
}.

(** A [const struct cpumask *]: the mask of the task itself, [cpumask_of(cpu)]
    or the mask of a caller. *)
Inductive mask_ptr : Set := CpusMask | CpumaskOf (c : Z) | Mask (m : gset Z).

#[global] Instance mask_ptr_eq_dec : EqDecision mask_ptr.
Proof. solve_decision. Defined.

Inductive sca : Set := SCA_NONE | SCA_CHECK | SCA_MIGRATE_DISABLE | SCA_MIGRATE_ENABLE.

#[global] Instance sca_eq_dec : EqDecision sca.
Proof. solve_decision. Defined.

(** Off the run queue, TASK_WAKING on the list of a processor, on the run
    queue, and on it with [on_cpu]. *)
Inductive run_state : Set := Asleep | Waking | Queued | Running.

#[global] Instance run_state_eq_dec : EqDecision run_state.
Proof. solve_decision. Defined.

(** The flags of a task that stay the same: PF_KTHREAD, PF_NO_SETAFFINITY and
    kthread_is_per_cpu. *)
Record identity := Identity { kthread : bool; no_setaffinity : bool; kthread_is_per_cpu : bool }.

Record task_struct := Task {
  task_cpu : Z;
  wake_cpu : Z;
  run : run_state;
  cpus_ptr : mask_ptr;
  cpus_mask : gset Z;
  nr_cpus_allowed : Z;
  migration_pending : option Z;
  migration_disabled : Z;
  mdf_push : bool;           (** MDF_PUSH in [migration_flags] *)
  usage : Z;
  who : identity;
}.

(** [set_affinity_pending]; the one of caller [k] has the name [k]. *)
Record set_affinity_pending := Pending { refs : Z; stop_pending : bool; done : bool }.

Record migration_arg := Arg { arg_pending : option Z; arg_dest_cpu : Z }.

#[global] Instance migration_arg_eq_dec : EqDecision migration_arg.
Proof. solve_decision. Defined.

(** What a thread does between two locked regions. *)
Inductive op : Set :=
  | StopOneCpuNowait (w : Z) (x : Z)      (** with the work and the argument of [x] *)
  | StopTaskCpuNowait (x : Z)             (** the same, on [task_cpu(p)] at that time *)
  | StopPushNowait (w : Z)
  | CompleteAll (x : Z)
  | WaitForCompletion (x : Z)
  | RefcountDecAndTest (x : Z)
  | WaitRefs (k : Z)
  | Return (ret : Z)
  | PutPinned                             (** the end of [migrate_enable] *)
  | FlushSmpCallFunction (w : Z)          (** the stopper of processor [w] *)
  | MigrationCpuStop (w : Z) (arg : migration_arg)
  | PushCpuStop (w : Z).

#[global] Instance op_eq_dec : EqDecision op.
Proof. solve_decision. Defined.

(** Callers (the task itself is caller 0) and stopper threads. *)
Notation thread := (Z + Z)%type.
Notation Caller := (@inl Z Z).
Notation Stopper := (@inr Z Z).
Definition self : thread := Caller 0.

Record state := State {
  task : task_struct;
  pendings : gmap Z set_affinity_pending;
  works : list (Z * migration_arg);       (** queued for the stoppers *)
  pushes : list Z;                        (** the queued [rq->push_work] *)
  push_busy : gset Z;
  nr_pinned : gmap Z Z;
  preempt_off : bool;                     (** of the task *)
  todo : gmap thread (list op);
}.

(** Assignments to one field. *)
Definition with_task_cpu (v : Z) (p : task_struct) : task_struct :=
  Task v (wake_cpu p) (run p) (cpus_ptr p) (cpus_mask p) (nr_cpus_allowed p) (migration_pending p) (migration_disabled p) (mdf_push p) (usage p) (who p).
Definition with_wake_cpu (v : Z) (p : task_struct) : task_struct :=
  Task (task_cpu p) v (run p) (cpus_ptr p) (cpus_mask p) (nr_cpus_allowed p) (migration_pending p) (migration_disabled p) (mdf_push p) (usage p) (who p).
Definition with_run (v : run_state) (p : task_struct) : task_struct :=
  Task (task_cpu p) (wake_cpu p) v (cpus_ptr p) (cpus_mask p) (nr_cpus_allowed p) (migration_pending p) (migration_disabled p) (mdf_push p) (usage p) (who p).
Definition with_cpus_ptr (v : mask_ptr) (p : task_struct) : task_struct :=
  Task (task_cpu p) (wake_cpu p) (run p) v (cpus_mask p) (nr_cpus_allowed p) (migration_pending p) (migration_disabled p) (mdf_push p) (usage p) (who p).
Definition with_cpus_mask (v : gset Z) (p : task_struct) : task_struct :=
  Task (task_cpu p) (wake_cpu p) (run p) (cpus_ptr p) v (nr_cpus_allowed p) (migration_pending p) (migration_disabled p) (mdf_push p) (usage p) (who p).
Definition with_nr_cpus_allowed (v : Z) (p : task_struct) : task_struct :=
  Task (task_cpu p) (wake_cpu p) (run p) (cpus_ptr p) (cpus_mask p) v (migration_pending p) (migration_disabled p) (mdf_push p) (usage p) (who p).
Definition with_migration_pending (v : option Z) (p : task_struct) : task_struct :=
  Task (task_cpu p) (wake_cpu p) (run p) (cpus_ptr p) (cpus_mask p) (nr_cpus_allowed p) v (migration_disabled p) (mdf_push p) (usage p) (who p).
Definition with_migration_disabled (v : Z) (p : task_struct) : task_struct :=
  Task (task_cpu p) (wake_cpu p) (run p) (cpus_ptr p) (cpus_mask p) (nr_cpus_allowed p) (migration_pending p) v (mdf_push p) (usage p) (who p).
Definition with_mdf_push (v : bool) (p : task_struct) : task_struct :=
  Task (task_cpu p) (wake_cpu p) (run p) (cpus_ptr p) (cpus_mask p) (nr_cpus_allowed p) (migration_pending p) (migration_disabled p) v (usage p) (who p).
Definition with_usage (v : Z) (p : task_struct) : task_struct :=
  Task (task_cpu p) (wake_cpu p) (run p) (cpus_ptr p) (cpus_mask p) (nr_cpus_allowed p) (migration_pending p) (migration_disabled p) (mdf_push p) v (who p).
Definition with_task (v : task_struct) (s : state) : state :=
  State v (pendings s) (works s) (pushes s) (push_busy s) (nr_pinned s) (preempt_off s) (todo s).
Definition with_pendings (v : gmap Z set_affinity_pending) (s : state) : state :=
  State (task s) v (works s) (pushes s) (push_busy s) (nr_pinned s) (preempt_off s) (todo s).
Definition with_works (v : list (Z * migration_arg)) (s : state) : state :=
  State (task s) (pendings s) v (pushes s) (push_busy s) (nr_pinned s) (preempt_off s) (todo s).
Definition with_pushes (v : list Z) (s : state) : state :=
  State (task s) (pendings s) (works s) v (push_busy s) (nr_pinned s) (preempt_off s) (todo s).
Definition with_push_busy (v : gset Z) (s : state) : state :=
  State (task s) (pendings s) (works s) (pushes s) v (nr_pinned s) (preempt_off s) (todo s).
Definition with_nr_pinned (v : gmap Z Z) (s : state) : state :=
  State (task s) (pendings s) (works s) (pushes s) (push_busy s) v (preempt_off s) (todo s).
Definition with_preempt_off (v : bool) (s : state) : state :=
  State (task s) (pendings s) (works s) (pushes s) (push_busy s) (nr_pinned s) v (todo s).
Definition with_todo (v : gmap thread (list op)) (s : state) : state :=
  State (task s) (pendings s) (works s) (pushes s) (push_busy s) (nr_pinned s) (preempt_off s) v.

Definition new_pending : set_affinity_pending := Pending 1 false false.
Definition with_refs (v : Z) (r : set_affinity_pending) : set_affinity_pending := Pending v (stop_pending r) (done r).
Definition with_stop_pending (v : bool) (r : set_affinity_pending) : set_affinity_pending := Pending (refs r) v (done r).
Definition with_done (v : bool) (r : set_affinity_pending) : set_affinity_pending := Pending (refs r) (stop_pending r) v.

(** An access to the [set_affinity_pending] of caller [x], on its stack. *)
Definition use (x : Z) (s : state) : res set_affinity_pending := opt UseAfterFree (pendings s !! x).
Definition update (x : Z) (r : set_affinity_pending) (s : state) : state :=
  with_pendings (<[x := r]> (pendings s)) s.

Definition list_of (m : gmap thread (list op)) (t : thread) : list op := default [] (m !! t).
Definition set_list (t : thread) (l : list op) (s : state) : state := with_todo (<[t := l]> (todo s)) s.

(** The list without the first [x], which must be in it. *)
Fixpoint remove1 {A} `{EqDecision A} (x : A) (l : list A) : option (list A) :=
  match l with
  | [] => None
  | y :: l => if decide (y = x) then Some l else (λ l, y :: l) <$> remove1 x l
  end.

(** * The mask of a task *)

Section affinity.
Context `{topology}.

Definition EINVAL : Z := 22.
Definition EBUSY : Z := 16.

Definition deref (p : task_struct) (m : mask_ptr) : gset Z :=
  match m with CpusMask => cpus_mask p | CpumaskOf c => {[c]} | Mask m => m end.

(** [for_each_cpu]: in ascending order. *)
Definition for_each_cpu (m : gset Z) : list Z := filter (λ c, c ∈ m) (seqZ 0 nr_cpu_ids).
Definition cpumask_weight (m : gset Z) : Z := Z.of_nat (length (for_each_cpu m)).

Definition on_rq_queued (p : task_struct) : bool :=
  match run p with Queued | Running => true | _ => false end.
Definition task_running (p : task_struct) : bool := bool_decide (run p = Running).
Definition is_migration_disabled (p : task_struct) : bool := bool_decide (migration_disabled p ≠ 0).

Definition is_cpu_allowed (p : task_struct) (c : Z) : bool :=
  if bool_decide (c ∉ deref p (cpus_ptr p)) then false
  else if is_migration_disabled p then bool_decide (c ∈ cpu_online_mask)
  else if negb (kthread (who p)) then bool_decide (c ∈ cpu_active_mask)
  else if kthread_is_per_cpu (who p) then bool_decide (c ∈ cpu_online_mask)
  else if balance_push c then false
  else bool_decide (c ∈ cpu_online_mask).

Definition set_cpus_allowed_common (new_mask : mask_ptr) (flags : sca) (p : task_struct) : task_struct :=
  if decide (flags = SCA_MIGRATE_ENABLE ∨ flags = SCA_MIGRATE_DISABLE) then with_cpus_ptr new_mask p
  else
    let m := deref p new_mask in
    with_nr_cpus_allowed (cpumask_weight m) (with_cpus_mask m p).

(** The task is taken off its queue and put back for the call of its class. *)
Definition __do_set_cpus_allowed (new_mask : mask_ptr) (flags : sca) (p : task_struct) : task_struct :=
  set_cpus_allowed_common new_mask flags p.
Definition do_set_cpus_allowed (new_mask : gset Z) (p : task_struct) : task_struct :=
  __do_set_cpus_allowed (Mask new_mask) SCA_NONE p.

Definition migrate_disable_switch (rq_cpu : Z) (p : task_struct) : task_struct :=
  if negb (is_migration_disabled p) then p
  else if decide (cpus_ptr p ≠ CpusMask) then p
  else __do_set_cpus_allowed (CpumaskOf rq_cpu) SCA_MIGRATE_DISABLE p.

(** * The choice of a processor *)

Inductive fallback_state : Set := cpuset | possible | fail.

Fixpoint fallback_loop (fuel : nat) (st : fallback_state) (p : task_struct) : res (Z * task_struct) :=
  match fuel with
  | O => Undef Diverges
  | S fuel =>
      match filter (λ c, is_cpu_allowed p c = true) (for_each_cpu (deref p (cpus_ptr p))) with
      | dest_cpu :: _ => Ok (dest_cpu, p)
      | [] =>
          match st with
          | cpuset => fallback_loop fuel possible (do_set_cpus_allowed cpuset_fallback p)
          | possible => fallback_loop fuel fail (do_set_cpus_allowed cpu_possible_mask p)
          | fail => Undef BugOn
          end
      end
  end.

Definition select_fallback_rq (c : Z) (p : task_struct) : res (Z * task_struct) :=
  match node_mask c with
  | Some nodemask =>
      match filter (λ d, d ∈ cpu_active_mask ∧ d ∈ deref p (cpus_ptr p)) (for_each_cpu nodemask) with
      | dest_cpu :: _ => Ok (dest_cpu, p)
      | [] => fallback_loop 3 cpuset p
      end
  | None => fallback_loop 3 cpuset p
  end.

(** [choice]: what the class of the task chooses; [any]: [cpumask_any]. *)
Definition select_task_rq (choice any : Z) (p : task_struct) : res (Z * task_struct) :=
  let c := if bool_decide (1 < nr_cpus_allowed p) && negb (is_migration_disabled p) then choice else any in
  if negb (is_cpu_allowed p c) then select_fallback_rq (task_cpu p) p else Ok (c, p).

(** * Moving a task *)

(** [__set_task_cpu] sets both fields. The counts of migrations and the calls
    for perf and rseq are left out. *)
Definition set_task_cpu (new_cpu : Z) (p : task_struct) : task_struct :=
  with_wake_cpu new_cpu (with_task_cpu new_cpu p).

(** The task is taken from one run queue and put on the other one. *)
Definition move_queued_task (new_cpu : Z) (p : task_struct) : task_struct := set_task_cpu new_cpu p.

Definition __migrate_task (dest_cpu : Z) (p : task_struct) : task_struct :=
  if negb (is_cpu_allowed p dest_cpu) then p else move_queued_task dest_cpu p.

(** [set_cpus_allowed_ptr] of caller [k], after the mask has been set: the
    operations that follow the unlocking, and the value returned after them. *)
Definition affine_move_task (k dest_cpu : Z) (flags : sca) (s : state) : res (state * list op * Z) :=
  let p := task s in
  let rq := task_cpu p in
  if decide (rq ∈ cpus_mask p) then
    let push := bool_decide (flags = SCA_MIGRATE_ENABLE) && mdf_push p && bool_decide (rq ∉ push_busy s) in
    let s := if push : bool then with_task (with_usage (usage p + 1) p) (with_push_busy ({[rq]} ∪ push_busy s) s) else s in
    let push_ops := if push : bool then [StopPushNowait rq] else [] in
    match migration_pending p with
    | None => Ok (s, push_ops, 0)
    | Some x =>
        r ← use x s;
        if stop_pending r then Ok (s, push_ops, 0)
        else Ok (with_task (with_migration_pending None (task s)) s, push_ops ++ [CompleteAll x], 0)
    end
  else
    s ← (if decide (flags = SCA_MIGRATE_ENABLE) then Ok s
         else match migration_pending p with
              | None => Ok (with_task (with_migration_pending (Some k) p) (update k new_pending s))
              | Some x => r ← use x s; Ok (update x (with_refs (refs r + 1) r) s)
              end);
    let p := task s in
    match migration_pending p with
    | None => Ok (s, [], - EINVAL)
    | Some x =>
        r ← use x s;
        let wait := [WaitForCompletion x; RefcountDecAndTest x; WaitRefs k] in
        if decide (run p = Running ∨ run p = Waking) then
          let s := update x (with_stop_pending true r) s in
          let s := if decide (flags = SCA_MIGRATE_ENABLE) then with_task (with_mdf_push false p) s else s in
          let stop := if stop_pending r then [] else [StopOneCpuNowait rq x] in
          Ok (s, stop ++ (if decide (flags = SCA_MIGRATE_ENABLE) then [] else wait), 0)
        else
          if is_migration_disabled p then Ok (s, wait, 0)
          else
            let p := if on_rq_queued p then move_queued_task dest_cpu p else p in
            if stop_pending r then Ok (with_task p s, wait, 0)
            else Ok (with_task (with_migration_pending None p) s, CompleteAll x :: wait, 0)
    end.

(** [dest]: what cpumask_any_and_distribute gives, [nr_cpu_ids] or more if the
    masks have no processor in common. *)
Definition __set_cpus_allowed_ptr (k : Z) (new_mask : mask_ptr) (flags : sca) (dest : Z) (s : state) :
    res (state * list op * Z) :=
  let p := task s in
  if bool_decide (flags = SCA_CHECK) && no_setaffinity (who p) then Ok (s, [], - EINVAL)
  else if decide (flags ≠ SCA_MIGRATE_ENABLE ∧ cpus_mask p = deref p new_mask) then Ok (s, [], 0)
  else if decide (flags ≠ SCA_MIGRATE_ENABLE ∧ k = 0 ∧ is_migration_disabled p = true ∧ task_cpu p ∉ deref p new_mask)
  then Ok (s, [], - EBUSY)
  else if decide (nr_cpu_ids ≤ dest) then Ok (s, [], - EINVAL)
  else affine_move_task k dest flags (with_task (__do_set_cpus_allowed new_mask flags p) s).

Definition cpu_valid_mask (p : task_struct) : gset Z :=
  if kthread (who p) || is_migration_disabled p then cpu_online_mask else cpu_active_mask.

(** The documented answers of cpumask_any_and_distribute. *)
Definition any_and (m1 m2 : gset Z) (dest : Z) : bool :=
  if decide (m1 ∩ m2 = ∅) then bool_decide (nr_cpu_ids ≤ dest)
  else bool_decide (dest ∈ m1 ∩ m2).

(** * The stopper threads *)

(** On processor [w]; [any]: what cpumask_any_distribute gives. *)
Definition migration_cpu_stop (w : Z) (arg : migration_arg) (any : Z) (s : state) : res (state * list op) :=
  let p := task s in
  _ ← match arg_pending arg with Some x => _ ← use x s; Ok () | None => Ok () end;
  let out complete s :=
    match arg_pending arg with
    | None => Ok (s, [])
    | Some x =>
        r ← use x s;
        Ok (update x (with_stop_pending false r) s, if complete : bool then [CompleteAll x] else [])
    end in
  let clear x (p : task_struct) :=
    if decide (migration_pending p = Some x) then with_migration_pending None p else p in
  if decide (task_cpu p = w) then
    if is_migration_disabled p then out false s
    else
      let '(complete, p) := match arg_pending arg with Some x => (true, clear x p) | None => (false, p) end in
      if decide (arg_dest_cpu arg < 0 ∧ task_cpu p ∈ cpus_mask p) then out complete (with_task p s)
      else
        let dest_cpu := if decide (arg_dest_cpu arg < 0) then any else arg_dest_cpu arg in
        let p := if on_rq_queued p then __migrate_task dest_cpu p else with_wake_cpu dest_cpu p in
        out complete (with_task p s)
  else
    match arg_pending arg with
    | None => out false s
    | Some x =>
        if decide (task_cpu p ∈ deref p (cpus_ptr p)) then out true (with_task (clear x p) s)
        else Ok (s, [StopTaskCpuNowait x])
    end.

(** [lowest]: the run queue that the [find_lock_rq] of the class finds. *)
Definition push_cpu_stop (w : Z) (lowest : option Z) (s : state) : state :=
  let p := task s in
  let p :=
    if decide (task_cpu p ≠ w) then p
    else if is_migration_disabled p then with_mdf_push true p
    else
      let p := with_mdf_push false p in
      match lowest with None => p | Some c => set_task_cpu c p end in
  with_task (with_usage (usage p - 1) p) (with_push_busy (push_busy s ∖ {[w]}) s).

Definition wrapu16 (x : Z) : Z := x `mod` 65536.
Definition count (m : gmap Z Z) (c : Z) : Z := default 0 (m !! c).

Definition migrate_disable (s : state) : state :=
  let p := task s in
  if is_migration_disabled p then with_task (with_migration_disabled (wrapu16 (migration_disabled p + 1)) p) s
  else
    with_task (with_migration_disabled 1 p)
      (with_nr_pinned (<[task_cpu p := count (nr_pinned s) (task_cpu p) + 1]> (nr_pinned s)) s).

(** Up to the end of the region, and what follows it. *)
Definition migrate_enable (dest : Z) (s : state) : res (state * list op) :=
  let p := task s in
  if decide (1 < migration_disabled p) then
    Ok (with_task (with_migration_disabled (migration_disabled p - 1) p) s, [])
  else
    let s := with_preempt_off true s in
    if decide (cpus_ptr p ≠ CpusMask) then
      '(s, l, _) ← __set_cpus_allowed_ptr 0 CpusMask SCA_MIGRATE_ENABLE dest s; Ok (s, l ++ [PutPinned])
    else Ok (s, [PutPinned]).

(** The wake-up of a task that is not on a run queue, without the accounting
    of I/O waits; [wakelist]: ttwu_queue leaves it to processor [c] to put the
    task there. A wake-up of a task that is just leaving its processor, without
    a choice, is [Block true]. *)
Definition try_to_wake_up (choice any : Z) (wakelist : bool) (p : task_struct) : res task_struct :=
  '(c, p) ← select_task_rq choice any p;
  let p := if decide (task_cpu p ≠ c) then set_task_cpu c p else p in
  Ok (with_run (if wakelist then Waking else Queued) p).

(** The list of processor [w] is worked off, as far as it has the task. *)
Definition sched_ttwu_pending (w : Z) (p : task_struct) : task_struct :=
  if decide (run p = Waking ∧ task_cpu p = w) then with_run Queued p else p.

(** The end of a turn on a processor, with or without leaving the queue. *)
Definition switch_out (r : run_state) (p : task_struct) : task_struct :=
  with_run r (migrate_disable_switch (task_cpu p) p).

(** execve and NUMA balancing: the processor to whose stopper a request goes,
    and the argument. [choice]: what the class chooses. *)
Definition sched_exec (choice : Z) (p : task_struct) : option (Z * migration_arg) :=
  if decide (choice = task_cpu p) then None
  else if decide (choice ∈ cpu_active_mask) then Some (task_cpu p, Arg None choice) else None.

Definition migrate_task_to (target_cpu : Z) (p : task_struct) : Z * option (Z * migration_arg) :=
  if decide (task_cpu p = target_cpu) then (0, None)
  else if decide (target_cpu ∉ deref p (cpus_ptr p)) then (- EINVAL, None)
  else (0, Some (task_cpu p, Arg None target_cpu)).

(** * Steps *)

Definition arg_of (x : Z) : migration_arg := Arg (Some x) (-1).

(** [stop_one_cpu_nowait] with the work of [x]. *)
Definition queue_work (w x : Z) (s : state) : res state :=
  _ ← use x s;
  if decide (Exists (λ y, y.2 = arg_of x) (works s)) then Undef QueuedTwice
  else Ok (with_works (works s ++ [(w, arg_of x)]) s).

(** The first operation [o] of a thread; no result if it has to wait. *)
Definition run_op (o : op) (any : Z) (lowest : option Z) (s : state) : option (res (state * list op)) :=
  match o with
  | StopOneCpuNowait w x => Some (s ← queue_work w x s; Ok (s, []))
  | StopTaskCpuNowait x => Some (s ← queue_work (task_cpu (task s)) x s; Ok (s, []))
  | StopPushNowait w =>
      Some (if decide (w ∈ pushes s) then Undef QueuedTwice else Ok (with_pushes (pushes s ++ [w]) s, []))
  | CompleteAll x => Some (r ← use x s; Ok (update x (with_done true r) s, []))
  | WaitForCompletion x =>
      match use x s with Ok r => if done r then Some (Ok (s, [])) else None | _ => Some (Undef UseAfterFree) end
  | RefcountDecAndTest x => Some (r ← use x s; Ok (update x (with_refs (refs r - 1) r) s, []))
  | WaitRefs k =>
      match pendings s !! k with
      | None => Some (Ok (s, []))
      | Some r => if decide (refs r = 0) then Some (Ok (with_pendings (delete k (pendings s)) s, [])) else None
      end
  | Return _ => Some (Ok (s, []))
  | PutPinned =>
      let p := task s in
      Some (Ok (with_preempt_off false (with_task (with_migration_disabled 0 p)
        (with_nr_pinned (<[task_cpu p := count (nr_pinned s) (task_cpu p) - 1]> (nr_pinned s)) s)), []))
  | FlushSmpCallFunction w => Some (Ok (with_task (sched_ttwu_pending w (task s)) s, []))
  | MigrationCpuStop w arg =>
      if any_and (cpus_mask (task s)) (cpus_mask (task s)) any then Some (migration_cpu_stop w arg any s) else None
  | PushCpuStop w =>
      let p := task s in
      if match lowest with
         | Some c => bool_decide (run p = Queued ∧ c ∈ deref p (cpus_ptr p))
         | None => true
         end then Some (Ok (push_cpu_stop w lowest s, [])) else None
  end.

(** Calls ([SetCpusAllowed] with SCA_CHECK from the system call), operations
    that are still to be done, the start of a stopper; then what other files
    do with the task: stop_one_cpu, pushing by the real-time class, running,
    sleeping, waking and balancing. *)
Inductive action : Set :=
  | SetCpusAllowed (k : Z) (new_mask : gset Z) (check : bool) (dest : Z)
  | MigrateDisable
  | MigrateEnable (dest : Z)
  | Go (t : thread) (any : Z) (lowest : option Z)
  | StopperStart (w : Z) (arg : migration_arg)
  | PushStart (w : Z)
  | StopOneCpu (w d : Z)
  | QueuePush (w : Z)
  | SwitchIn
  | SwitchOut
  | Block (woken : bool)
  | Wake (choice any : Z) (wakelist : bool)
  | TtwuPending
  | Balance (d : Z).

Definition running_on (w : Z) (p : task_struct) : bool := bool_decide (run p = Running ∧ task_cpu p = w).

Definition call (t : thread) (r : res (state * list op)) : res state :=
  '(s, l) ← r; Ok (set_list t l s).

Definition do (a : action) (s : state) : option (res state) :=
  let p := task s in
  match a with
  | SetCpusAllowed k new_mask check dest =>
      if decide (list_of (todo s) (Caller k) = [] ∧ (k = 0 → run p = Running)) then
        if any_and (cpu_valid_mask p) new_mask dest then
          Some (call (Caller k)
            ('(s, l, ret) ← __set_cpus_allowed_ptr k (Mask new_mask) (if check then SCA_CHECK else SCA_NONE) dest s;
             Ok (s, l ++ [Return ret])))
        else None
      else None
  | MigrateDisable =>
      if decide (list_of (todo s) self = [] ∧ run p = Running) then Some (Ok (migrate_disable s)) else None
  | MigrateEnable dest =>
      if decide (list_of (todo s) self = [] ∧ run p = Running ∧ migration_disabled p ≠ 0) then
        if any_and (cpu_valid_mask p) (cpus_mask p) dest then Some (call self (migrate_enable dest s)) else None
      else None
  | Go t any lowest =>
      if decide (t = self ∧ run p ≠ Running) then None
      else
        match list_of (todo s) t with
        | [] => None
        | o :: l =>
            match run_op o any lowest s with
            | None => None
            | Some r => Some ('(s, l') ← r; Ok (set_list t (l' ++ l) s))
            end
        end
  | StopperStart w arg =>
      if decide (list_of (todo s) (Stopper w) = [] ∧ running_on w p = false) then
        match remove1 (w, arg) (works s) with
        | Some l => Some (Ok (set_list (Stopper w) [FlushSmpCallFunction w; MigrationCpuStop w arg] (with_works l s)))
        | None => None
        end
      else None
  | PushStart w =>
      if decide (list_of (todo s) (Stopper w) = [] ∧ running_on w p = false) then
        match remove1 w (pushes s) with
        | Some l => Some (Ok (set_list (Stopper w) [PushCpuStop w] (with_pushes l s)))
        | None => None
        end
      else None
  | StopOneCpu w d =>
      if decide (0 ≤ d) then Some (Ok (with_works (works s ++ [(w, Arg None d)]) s)) else None
  | QueuePush w =>
      if decide (w ∉ push_busy s ∧ w ∉ pushes s) then
        Some (Ok (with_pushes (pushes s ++ [w]) (with_push_busy ({[w]} ∪ push_busy s) (with_task (with_usage (usage p + 1) p) s))))
      else None
  | SwitchIn =>
      if decide (run p = Queued ∧ list_of (todo s) (Stopper (task_cpu p)) = []) then
        Some (Ok (with_task (with_run Running p) s)) else None
  | SwitchOut =>
      if decide (run p = Running ∧ preempt_off s = false) then
        Some (Ok (with_task (switch_out Queued p) s)) else None
  | Block woken =>
      if decide (run p = Running ∧ preempt_off s = false) then
        Some (Ok (with_task (switch_out (if woken then Waking else Asleep) p) s)) else None
  | Wake choice any wakelist =>
      if decide (run p = Asleep) then
        if any_and (deref p (cpus_ptr p)) (deref p (cpus_ptr p)) any then
          Some (p ← try_to_wake_up choice any wakelist p; Ok (with_task p s))
        else None
      else None
  | TtwuPending =>
      if decide (run p = Waking) then Some (Ok (with_task (sched_ttwu_pending (task_cpu p) p) s)) else None
  | Balance d =>
      if decide (run p = Queued ∧ d ∈ deref p (cpus_ptr p)) then Some (Ok (with_task (set_task_cpu d p) s)) else None
  end.

(** Nesting of [migrate_disable] stays below what its 16 bits count. *)
Definition countable (a : action) (s : state) : Prop :=
  a = MigrateDisable → migration_disabled (task s) < 65535.

Definition step (s s' : state) : Prop := ∃ a, countable a s ∧ do a s = Some (Ok s').

(** A task that sleeps on processor [c]; nobody has a request. *)
Definition start (c : Z) (m : gset Z) (i : identity) (held : Z) : state :=
  State (Task c c Asleep CpusMask m (cpumask_weight m) None 0 false held i) ∅ [] [] ∅ ∅ false ∅.

End affinity.
