(* ===== verification/AffinityProtocol.v ===== *)
(** Processor affinity: the protocol of the requests of several callers for one
    task. Their shared records stay alive while they are used, the stop work of
    a request is queued once, and each request is completed once. *)
From S2P Require Import Prelude Affinity.
Local Open Scope Z_scope.

(** * Counting operations *)

Fixpoint occ (f : op → bool) (l : list op) : Z :=
  match l with [] => 0 | o :: l => (if f o then 1 else 0) + occ f l end.

Definition total (f : op → bool) (m : gmap thread (list op)) : Z := map_fold (λ _ l n, occ f l + n) 0 m.

Lemma occ_app f l1 l2 : occ f (l1 ++ l2) = occ f l1 + occ f l2.
Proof. induction l1; simpl; lia. Qed.
Lemma occ_nonneg f l : 0 ≤ occ f l.
Proof. induction l; simpl; [lia|]. destruct (f a); lia. Qed.
Lemma occ_in f o l : o ∈ l → f o = true → 1 ≤ occ f l.
Proof.
  induction l as [|a l IH]; simpl; intros Hin Hf; [by apply elem_of_nil in Hin|].
  pose proof (occ_nonneg f l). apply elem_of_cons in Hin as [<-|Hin]; [rewrite Hf; lia|].
  specialize (IH Hin Hf). destruct (f a); lia.
Qed.
Lemma occ_pos f l : 0 < occ f l → ∃ o, o ∈ l ∧ f o = true.
Proof.
  induction l as [|a l IH]; simpl; [lia|]. destruct (f a) eqn:E; [intros _; exists a; split; [left|done]|].
  intros (o & Hin & Ho)%IH. exists o. split; [by right|done].
Qed.

Lemma total_fresh f m t l : m !! t = None → total f (<[t := l]> m) = occ f l + total f m.
Proof. intros H. unfold total. rewrite (map_fold_insert_L (λ _ l n, occ f l + n)); [done|intros; lia|done]. Qed.

Lemma total_insert f m t l : total f (<[t := l]> m) = total f m - occ f (list_of m t) + occ f l.
Proof.
  unfold list_of. destruct (m !! t) as [l0|] eqn:E; simpl; [|rewrite total_fresh by done; lia].
  rewrite <- (insert_delete_id m t l0 E) at 2. rewrite <- (insert_delete_eq m t l).
  rewrite !total_fresh by apply lookup_delete_eq. lia.
Qed.

Lemma total_in f m t : occ f (list_of m t) ≤ total f m.
Proof.
  unfold list_of. induction m as [|u l m Hu IH] using map_ind; [by rewrite lookup_empty|].
  rewrite total_fresh by done. pose proof (occ_nonneg f l). destruct (decide (u = t)) as [->|Hne].
  - rewrite lookup_insert_eq. simpl. rewrite Hu in IH. simpl in IH. lia.
  - rewrite lookup_insert_ne by done. lia.
Qed.

Lemma total_pos f m : 0 < total f m → ∃ t o, o ∈ list_of m t ∧ f o = true.
Proof.
  induction m as [|u l m Hu IH] using map_ind; [done|]. rewrite total_fresh by done. intros Hp.
  destruct (decide (0 < occ f l)) as [(o & Hin & Ho)%occ_pos|Hn].
  - exists u, o. unfold list_of. by rewrite lookup_insert_eq.
  - destruct IH as (t & o & Hin & Ho); [lia|]. exists t, o. unfold list_of in *. rewrite lookup_insert_ne; [done|].
    intros ->. rewrite Hu in Hin. by apply elem_of_nil in Hin.
Qed.

Lemma list_of_set m t l u : list_of (<[t := l]> m) u = if decide (t = u) then l else list_of m u.
Proof. unfold list_of. case_decide as E; [subst; by rewrite lookup_insert_eq|by rewrite lookup_insert_ne]. Qed.

(** The operations that are about the stop work of [x], its completion and
    its references. *)
Definition stops (x : Z) (o : op) : bool :=
  match o with
  | StopOneCpuNowait _ y | StopTaskCpuNowait y => bool_decide (y = x)
  | MigrationCpuStop _ arg => bool_decide (arg_pending arg = Some x)
  | _ => false
  end.
Definition completes (x : Z) (o : op) : bool := match o with CompleteAll y => bool_decide (y = x) | _ => false end.
Definition decs (x : Z) (o : op) : bool := match o with RefcountDecAndTest y => bool_decide (y = x) | _ => false end.

Fixpoint queued (x : Z) (l : list (Z * migration_arg)) : Z :=
  match l with [] => 0 | (_, a) :: l => (if bool_decide (arg_pending a = Some x) then 1 else 0) + queued x l end.

Lemma queued_app x l1 l2 : queued x (l1 ++ l2) = queued x l1 + queued x l2.
Proof. induction l1 as [|[]]; simpl; lia. Qed.
Lemma queued_nonneg x l : 0 ≤ queued x l.
Proof. induction l as [|[]]; simpl; [lia|]. case_bool_decide; lia. Qed.
Lemma queued_remove x w a l l' : remove1 (w, a) l = Some l' →
  queued x l = (if bool_decide (arg_pending a = Some x) then 1 else 0) + queued x l'.
Proof.
  revert l'. induction l as [|[v b] l IH]; intros l'; simpl; [done|].
  destruct (decide ((v, b) = (w, a))) as [[= -> ->]|]; [by intros [= <-]|].
  destruct (remove1 (w, a) l) as [l0|]; [|done]. intros [= <-]. simpl. rewrite (IH l0) by done. lia.
Qed.
Lemma queued_exists x l : Exists (λ y, y.2 = arg_of x) l → 1 ≤ queued x l.
Proof.
  induction 1 as [[w a] l Ha|[w a] l _ IH]; simpl in *; [subst; simpl; rewrite bool_decide_true by done|].
  - pose proof (queued_nonneg x l). lia.
  - case_bool_decide; lia.
Qed.

Lemma queued_in x l : 0 < queued x l → ∃ w a, (w, a) ∈ l ∧ arg_pending a = Some x.
Proof.
  induction l as [|[w a] l IH]; simpl; [lia|]. case_bool_decide as Ha.
  - intros _. exists w, a. split; [left|done].
  - intros Hq. destruct IH as (v & b & Hin & Hb); [lia|]. exists v, b. split; [by right|done].
Qed.

(** The tasks that the real-time class pushes away from processor [w]. *)
Definition pushing (w : Z) (o : op) : bool :=
  match o with StopPushNowait v | PushCpuStop v => bool_decide (v = w) | _ => false end.

Fixpoint times (w : Z) (l : list Z) : Z :=
  match l with [] => 0 | v :: l => (if bool_decide (v = w) then 1 else 0) + times w l end.

Lemma times_app w l1 l2 : times w (l1 ++ l2) = times w l1 + times w l2.
Proof. induction l1; simpl; lia. Qed.
Lemma times_nonneg w l : 0 ≤ times w l.
Proof. induction l; simpl; [lia|]. case_bool_decide; lia. Qed.
Lemma times_remove w v l l' : remove1 v l = Some l' →
  times w l = (if bool_decide (v = w) then 1 else 0) + times w l'.
Proof.
  revert l'. induction l as [|u l IH]; intros l'; simpl; [done|].
  destruct (decide (u = v)) as [->|]; [by intros [= <-]|].
  destruct (remove1 v l) as [l0|]; [|done]. intros [= <-]. simpl. rewrite (IH l0) by done. lia.
Qed.
Lemma times_in w l : w ∈ l → 1 ≤ times w l.
Proof.
  induction l as [|v l IH]; simpl; intros Hin; [by apply elem_of_nil in Hin|].
  pose proof (times_nonneg w l). apply elem_of_cons in Hin as [->|Hin]; [rewrite bool_decide_true by done; lia|].
  specialize (IH Hin). case_bool_decide; lia.
Qed.

(** * The protocol of the requests *)

(** A request [o] that is installed in the task or not: its stop work is
    queued or run exactly while [stop_pending] is set, it is completed once,
    after it has been taken from the task, and each of its references belongs
    to a caller that still has to drop it. *)
Definition good (o : option set_affinity_pending) (installed : bool) (nS nC nD : Z) : Prop :=
  match o with
  | None => nS = 0 ∧ nC = 0 ∧ nD = 0 ∧ installed = false
  | Some r =>
      nS = Z.b2z (stop_pending r) ∧ nC = Z.b2z (negb (done r) && negb installed) ∧ nD = refs r ∧
      (stop_pending r = true → installed = true) ∧ (installed = true → done r = false)
  end.

Definition installed (s : state) (x : Z) : bool := bool_decide (migration_pending (task s) = Some x).

Record sync (s : state) (x : Z) : Prop := {
  sync_good : good (pendings s !! x) (installed s x)
    (total (stops x) (todo s) + queued x (works s)) (total (completes x) (todo s)) (total (decs x) (todo s));
  sync_owner : ∀ r, pendings s !! x = Some r → WaitRefs x ∈ list_of (todo s) (Caller x);
  sync_waits : ∀ r, pendings s !! x = Some r → done r = false →
    RefcountDecAndTest x ∈ list_of (todo s) (Caller x);
}.

(** The work of a request has its argument. *)
Definition ok_arg (a : migration_arg) : Prop := ∀ x, arg_pending a = Some x → a = arg_of x.

(** The shape of what a thread still has to do. *)
Fixpoint wf (t : thread) (l : list op) : Prop :=
  match l with
  | [] => True
  | WaitForCompletion x :: l =>
      match l with
      | RefcountDecAndTest y :: l => y = x ∧ (∃ k, t = Caller k ∧ WaitRefs k ∈ l) ∧ wf t l
      | _ => False
      end
  | RefcountDecAndTest _ :: _ => False
  | WaitRefs k :: l => t = Caller k ∧ wf t l
  | PutPinned :: l => t = self ∧ wf t l
  | MigrationCpuStop w a :: l => t = Stopper w ∧ ok_arg a ∧ wf t l
  | FlushSmpCallFunction w :: l | PushCpuStop w :: l => t = Stopper w ∧ wf t l
  | _ :: l => wf t l
  end.

Definition ok_list (s : state) (t : thread) (l : list op) : Prop :=
  match l with
  | RefcountDecAndTest x :: l =>
      (∃ r, pendings s !! x = Some r ∧ done r = true) ∧ (∃ k, t = Caller k ∧ WaitRefs k ∈ l) ∧ wf t l
  | _ => wf t l
  end.

Record inv (held : Z) (s : state) : Prop := {
  inv_sync : ∀ x, sync s x;
  inv_list : ∀ t, ok_list s t (list_of (todo s) t);
  inv_push : ∀ w, total (pushing w) (todo s) + times w (pushes s) = (if decide (w ∈ push_busy s) then 1 else 0);
  inv_usage : usage (task s) = held + Z.of_nat (size (push_busy s));
  inv_works : Forall (λ y, ok_arg y.2) (works s);
}.

Section protocol.
Context `{topology}.

Lemma list_of_none m t : m !! t = None → list_of m t = [].
Proof. unfold list_of. by intros ->. Qed.

Lemma in_total f s t o : o ∈ list_of (todo s) t → f o = true → 1 ≤ total f (todo s).
Proof. intros Hin Ho. pose proof (total_in f (todo s) t). pose proof (occ_in f o _ Hin Ho). lia. Qed.

(** A step changes the list of thread [t] to [l]. *)
Lemma rebuild held s s' t l :
  inv held s → todo s' = <[t := l]> (todo s) →
  (∀ x, good (pendings s' !! x) (installed s' x)
     (total (stops x) (todo s) - occ (stops x) (list_of (todo s) t) + occ (stops x) l + queued x (works s'))
     (total (completes x) (todo s) - occ (completes x) (list_of (todo s) t) + occ (completes x) l)
     (total (decs x) (todo s) - occ (decs x) (list_of (todo s) t) + occ (decs x) l)) →
  (∀ x r', pendings s' !! x = Some r' → t ≠ Caller x →
     ∃ r, pendings s !! x = Some r ∧ (done r' = false → done r = false)) →
  (∀ x r', pendings s' !! x = Some r' → t = Caller x →
     WaitRefs x ∈ l ∧ (done r' = false → RefcountDecAndTest x ∈ l)) →
  (∀ x r, pendings s !! x = Some r → done r = true → refs r ≠ 0 → ∃ r', pendings s' !! x = Some r' ∧ done r' = true) →
  ok_list s' t l →
  (∀ w, total (pushing w) (todo s) - occ (pushing w) (list_of (todo s) t) + occ (pushing w) l + times w (pushes s')
     = (if decide (w ∈ push_busy s') then 1 else 0)) →
  usage (task s') = held + Z.of_nat (size (push_busy s')) →
  Forall (λ y, ok_arg y.2) (works s') →
  inv held s'.
Proof.
  intros HI Et Hg Ho Hw Hd Hl Hp Hu Hworks. split; [| | |done|done].
  - intros x. split; rewrite Et.
    + rewrite !total_insert. apply Hg.
    + intros r' Hr'. rewrite list_of_set. case_decide as E; [by eapply Hw|].
      destruct (Ho x r' Hr' E) as (r & Hr & _). by eapply (sync_owner _ _ (inv_sync _ _ HI x)).
    + intros r' Hr' Hf. rewrite list_of_set. case_decide as E; [by eapply Hw|].
      destruct (Ho x r' Hr' E) as (r & Hr & Hf'). eapply (sync_waits _ _ (inv_sync _ _ HI x)); eauto.
  - intros u. rewrite Et, list_of_set. case_decide as E; [by subst|].
    pose proof (inv_list _ _ HI u) as Hok. unfold ok_list in *.
    destruct (list_of (todo s) u) as [|o l0] eqn:El; [done|]. destruct o; try done.
    destruct Hok as ((r & Hr & Hdone) & Hk & Hwf). split; [|done]. apply (Hd x r Hr Hdone).
    pose proof (sync_good _ _ (inv_sync _ _ HI x)) as Hgood. rewrite Hr in Hgood. destruct Hgood as (_ & _ & Hn & _).
    assert (1 ≤ total (decs x) (todo s)); [|lia].
    apply (in_total _ _ u (RefcountDecAndTest x)); [rewrite El; left|by apply bool_decide_true].
  - intros w. rewrite Et, total_insert. apply Hp.
Qed.

(** A step that changes none of this. *)
Lemma inv_frame held s s' :
  inv held s → pendings s' = pendings s → migration_pending (task s') = migration_pending (task s) →
  (∀ x, queued x (works s') = queued x (works s)) → todo s' = todo s →
  pushes s' = pushes s → push_busy s' = push_busy s → usage (task s') = usage (task s) →
  Forall (λ y, ok_arg y.2) (works s') → inv held s'.
Proof.
  intros [I1 I2 I3 I4 I5] E1 E2 E3 E4 E5 E6 E7 E8. split; [| | | |done].
  - intros x. destruct (I1 x) as [S1 S2 S3]. split; unfold installed; rewrite ?E1, ?E2, ?E3, ?E4; done.
  - intros t. specialize (I2 t). unfold ok_list in *. rewrite E4, E1. done.
  - intros w. by rewrite E4, E5, E6.
  - by rewrite E6, E7.
Qed.

(** The head of a list that is executed. *)
Lemma ok_tail s t o l : ok_list s t (o :: l) → (∀ x, o ≠ WaitForCompletion x) → wf t l.
Proof. destruct o; simpl; intros Hok Hne; try tauto. by destruct (Hne x). Qed.

Lemma wf_ok s t l : wf t l → ok_list s t l.
Proof. by destruct l as [|[]]. Qed.

Lemma go_rebuild held s s1 t o l l1 :
  inv held s → list_of (todo s) t = o :: l → todo s1 = todo s →
  (∀ x, good (pendings s1 !! x) (installed s1 x)
     (total (stops x) (todo s) - (if stops x o then 1 else 0) + occ (stops x) l1 + queued x (works s1))
     (total (completes x) (todo s) - (if completes x o then 1 else 0) + occ (completes x) l1)
     (total (decs x) (todo s) - (if decs x o then 1 else 0) + occ (decs x) l1)) →
  (∀ x r', pendings s1 !! x = Some r' → ∃ r, pendings s !! x = Some r ∧ (done r' = false → done r = false)) →
  (∀ x r', pendings s1 !! x = Some r' → o ≠ WaitRefs x ∧ (o = RefcountDecAndTest x → done r' = true)) →
  (∀ x r, pendings s !! x = Some r → done r = true → refs r ≠ 0 → ∃ r', pendings s1 !! x = Some r' ∧ done r' = true) →
  ok_list s1 t (l1 ++ l) →
  (∀ w, total (pushing w) (todo s) - (if pushing w o then 1 else 0) + occ (pushing w) l1 + times w (pushes s1)
     = (if decide (w ∈ push_busy s1) then 1 else 0)) →
  usage (task s1) = held + Z.of_nat (size (push_busy s1)) →
  Forall (λ y, ok_arg y.2) (works s1) →
  inv held (set_list t (l1 ++ l) s1).
Proof.
  intros HI El Et Hg Ho Hw Hd Hl Hp Hu Hworks.
  apply (rebuild held s _ t (l1 ++ l) HI); cbn [todo pendings works pushes push_busy task set_list with_todo].
  - by rewrite Et.
  - intros x. specialize (Hg x). rewrite El, !occ_app. simpl.
    replace (total (stops x) (todo s) - _ + _ + _) with (total (stops x) (todo s) - (if stops x o then 1 else 0) + occ (stops x) l1 + queued x (works s1)) by lia.
    replace (total (completes x) (todo s) - _ + _) with (total (completes x) (todo s) - (if completes x o then 1 else 0) + occ (completes x) l1) by lia.
    replace (total (decs x) (todo s) - _ + _) with (total (decs x) (todo s) - (if decs x o then 1 else 0) + occ (decs x) l1) by lia.
    done.
  - eauto.
  - intros x r' Hr' ->. destruct (Ho x r' Hr') as (r & Hr & Hf). destruct (Hw x r' Hr') as [Hne Hdec].
    pose proof (sync_owner _ _ (inv_sync _ _ HI x) r Hr) as H1.
    pose proof (sync_waits _ _ (inv_sync _ _ HI x) r Hr) as H2. rewrite El in H1, H2. split.
    + apply elem_of_cons in H1 as [Eo|]; [by destruct Hne|]. apply elem_of_app. by right.
    + intros Hf'. specialize (H2 (Hf Hf')). apply elem_of_cons in H2 as [Eo|]; [by rewrite Hdec in Hf'|].
      apply elem_of_app. by right.
  - done.
  - done.
  - intros w. specialize (Hp w). rewrite El, occ_app. simpl. lia.
  - done.
  - done.
Qed.

(** An operation that is not about requests. *)
Lemma go_quiet held s s1 t o l :
  inv held s → list_of (todo s) t = o :: l → todo s1 = todo s → pendings s1 = pendings s →
  migration_pending (task s1) = migration_pending (task s) →
  (∀ x, queued x (works s1) = (if stops x o then 1 else 0) + queued x (works s)) →
  (∀ x, completes x o = false ∧ decs x o = false) →
  (∀ x, is_Some (pendings s !! x) → o ≠ WaitRefs x) →
  ok_list s1 t l →
  (∀ w, total (pushing w) (todo s) - (if pushing w o then 1 else 0) + times w (pushes s1)
     = (if decide (w ∈ push_busy s1) then 1 else 0)) →
  usage (task s1) = held + Z.of_nat (size (push_busy s1)) →
  Forall (λ y, ok_arg y.2) (works s1) →
  inv held (set_list t l s1).
Proof.
  intros HI El Et Ep Em Hq Hc Hne Hl Hp Hu Hworks. apply (go_rebuild held s s1 t o l [] HI El Et).
  - intros x. destruct (Hc x) as [-> ->]. rewrite Hq, Ep. simpl.
    replace (_ - _ + 0 + _) with (total (stops x) (todo s) + queued x (works s)) by lia.
    replace (total (completes x) _ - _ + _) with (total (completes x) (todo s)) by lia.
    replace (total (decs x) _ - _ + _) with (total (decs x) (todo s)) by lia.
    unfold installed. rewrite Em. apply (sync_good _ _ (inv_sync _ _ HI x)).
  - rewrite Ep. eauto.
  - intros x r' Hr'. rewrite Ep in Hr'. split; [apply Hne; by eexists|]. intros ->.
    destruct (Hc x) as [_ Hx]. simpl in Hx. by rewrite bool_decide_true in Hx.
  - rewrite Ep. eauto.
  - done.
  - intros w. simpl. specialize (Hp w). lia.
  - done.
  - done.
Qed.

(** ** The operations *)

Lemma used held s t x f : inv held s → (∃ o, o ∈ list_of (todo s) t ∧ f x o = true) →
  f = stops ∨ f = completes ∨ f = decs → ∃ r, pendings s !! x = Some r.
Proof.
  intros HI (o & Hin & Ho) Hf. pose proof (sync_good _ _ (inv_sync _ _ HI x)) as Hg.
  pose proof (in_total (f x) s t o Hin Ho) as Hone. pose proof (queued_nonneg x (works s)) as Hq.
  destruct (pendings s !! x) as [r|]; [by exists r|]. destruct Hg as (G1 & G2 & G3 & _).
  assert (0 ≤ total (stops x) (todo s)) as Hs.
  { pose proof (total_in (stops x) (todo s) t). pose proof (occ_nonneg (stops x) (list_of (todo s) t)). lia. }
  destruct Hf as [->|[->| ->]]; lia.
Qed.

Ltac at_head El := eexists; split; [rewrite El; left|simpl; by rewrite ?bool_decide_true].

Lemma queue_work_ok held s t o l w x :
  inv held s → list_of (todo s) t = o :: l → wf t l →
  o = StopOneCpuNowait w x ∨ (o = StopTaskCpuNowait x) →
  ∃ s1, queue_work w x s = Ok s1 ∧ inv held (set_list t l s1).
Proof.
  intros HI El Hwf Ho. unfold queue_work, use.
  assert (stops x o = true) as Hs by (destruct Ho as [->| ->]; by apply bool_decide_true).
  destruct (used held s t x stops HI) as [r Hr]; [by exists o; rewrite El; split; [left|]|by left|].
  rewrite Hr. simpl. pose proof (sync_good _ _ (inv_sync _ _ HI x)) as Hg. rewrite Hr in Hg. destruct Hg as (G1 & _).
  assert (1 ≤ total (stops x) (todo s)) as Hone by (apply (in_total _ _ t o); [rewrite El; left|done]).
  rewrite decide_False.
  - eexists. split; [done|]. apply (go_quiet held s _ t o l HI El); cbn [todo pendings works pushes push_busy task with_works]; try done.
    + intros y. rewrite queued_app. simpl. destruct Ho as [->| ->]; simpl;
        repeat case_bool_decide; simplify_eq; lia.
    + intros y. by destruct Ho as [->| ->].
    + intros y _. by destruct Ho as [->| ->].
    + by apply wf_ok.
    + intros v. rewrite <- (inv_push _ _ HI v). destruct Ho as [->| ->]; simpl; lia.
    + apply HI.
    + apply Forall_app. split; [apply HI|]. repeat constructor. by intros y [= ->].
  - intros Hq%queued_exists. destruct (stop_pending r); simpl in G1; lia.
Qed.

Lemma complete_all_ok held s t l x :
  inv held s → list_of (todo s) t = CompleteAll x :: l → wf t l →
  ∃ r, use x s = Ok r ∧ inv held (set_list t l (update x (with_done true r) s)).
Proof.
  intros HI El Hwf. unfold use.
  destruct (used held s t x completes HI) as [r Hr]; [at_head El|auto|]. rewrite Hr. exists r. split; [done|].
  pose proof (sync_good _ _ (inv_sync _ _ HI x)) as Hg. rewrite Hr in Hg. destruct Hg as (G1 & G2 & G3 & G4 & G5).
  assert (1 ≤ total (completes x) (todo s)) as Hone.
  { apply (in_total _ _ t (CompleteAll x)); [rewrite El; left|by apply bool_decide_true]. }
  apply (go_rebuild held s _ t (CompleteAll x) l [] HI El); cbn [todo pendings works pushes push_busy task update with_pendings]; try done.
  - intros y. simpl. destruct (decide (y = x)) as [->|Hne].
    + rewrite lookup_insert_eq, bool_decide_true by done. unfold installed in *. simpl in *.
      destruct (done r), (bool_decide _) eqn:Ei; simpl in G2; try lia. destruct (stop_pending r); [by specialize (G4 eq_refl)|].
      simpl in *. repeat split; try done; lia.
    + rewrite lookup_insert_ne, bool_decide_false by done. pose proof (sync_good _ _ (inv_sync _ _ HI y)) as Hg.
      replace (_ - 0 + 0 + _) with (total (stops y) (todo s) + queued y (works s)) by lia.
      replace (_ - 0 + 0) with (total (completes y) (todo s)) by lia.
      replace (_ - 0 + 0) with (total (decs y) (todo s)) by lia. done.
  - intros y r' Hr'. apply lookup_insert_Some in Hr' as [[-> <-]|[_ Hr']]; [|eauto]. exists r. split; [done|]. by intros [=].
  - intros y r' Hr' Hd _. destruct (decide (y = x)) as [->|Hne].
    + rewrite lookup_insert_eq. eauto.
    + rewrite lookup_insert_ne by done. eauto.
  - by apply wf_ok.
  - intros w. simpl. rewrite <- (inv_push _ _ HI w). lia.
  - apply HI.
  - apply HI.
Qed.

Lemma wait_op_ok held s t l x :
  inv held s → list_of (todo s) t = WaitForCompletion x :: l →
  ∃ r, use x s = Ok r ∧ (done r = true → inv held (set_list t l s)).
Proof.
  intros HI El. pose proof (inv_list _ _ HI t) as Hok. rewrite El in Hok. simpl in Hok.
  destruct l as [|[] l]; try done. destruct Hok as (-> & Hk & Hwf). unfold use.
  destruct (used held s t x decs HI) as [r Hr]; [|auto|].
  { exists (RefcountDecAndTest x). rewrite El. split; [right; left|by apply bool_decide_true]. }
  rewrite Hr. exists r. split; [done|]. intros Hdone.
  apply (go_quiet held s s t _ _ HI El); try done.
  - simpl. eauto.
  - intros w. simpl. rewrite <- (inv_push _ _ HI w). lia.
  - apply HI.
  - apply HI.
Qed.

Lemma dec_ok held s t l x :
  inv held s → list_of (todo s) t = RefcountDecAndTest x :: l →
  ∃ r, use x s = Ok r ∧ inv held (set_list t l (update x (with_refs (refs r - 1) r) s)).
Proof.
  intros HI El. pose proof (inv_list _ _ HI t) as Hok. rewrite El in Hok. simpl in Hok.
  destruct Hok as ((r & Hr & Hdone) & Hk & Hwf). unfold use. rewrite Hr. exists r. split; [done|].
  pose proof (sync_good _ _ (inv_sync _ _ HI x)) as Hg. rewrite Hr in Hg. destruct Hg as (G1 & G2 & G3 & G4 & G5).
  apply (go_rebuild held s _ t _ l [] HI El); cbn [todo pendings works pushes push_busy task update with_pendings]; try done.
  - intros y. simpl. destruct (decide (y = x)) as [->|Hne].
    + rewrite lookup_insert_eq, bool_decide_true by done. unfold installed in *. simpl. repeat split; try done; lia.
    + rewrite lookup_insert_ne, bool_decide_false by done. pose proof (sync_good _ _ (inv_sync _ _ HI y)) as Hg.
      replace (_ - 0 + 0 + _) with (total (stops y) (todo s) + queued y (works s)) by lia.
      replace (_ - 0 + 0) with (total (completes y) (todo s)) by lia.
      replace (_ - 0 + 0) with (total (decs y) (todo s)) by lia. done.
  - intros y r' Hr'. apply lookup_insert_Some in Hr' as [[-> <-]|[_ Hr']]; [|eauto]. eauto.
  - intros y r' Hr'. split; [done|]. intros [= ->]. rewrite lookup_insert_eq in Hr'. by injection Hr' as <-.
  - intros y r' Hr' Hd _. destruct (decide (y = x)) as [->|Hne].
    + rewrite lookup_insert_eq. eexists. split; [done|]. simpl. congruence.
    + rewrite lookup_insert_ne by done. eauto.
  - by apply wf_ok.
  - intros w. simpl. rewrite <- (inv_push _ _ HI w). lia.
  - apply HI.
  - apply HI.
Qed.

(** The lifetime of a request ends: nobody has it any more. *)
Lemma wait_refs_ok held s t l k :
  inv held s → list_of (todo s) t = WaitRefs k :: l → wf t (WaitRefs k :: l) →
  match pendings s !! k with
  | None => inv held (set_list t l s)
  | Some r => refs r = 0 → stop_pending r = false ∧ inv held (set_list t l (with_pendings (delete k (pendings s)) s))
  end.
Proof.
  intros HI El [-> Hwf]. destruct (pendings s !! k) as [r|] eqn:Hr.
  - intros Hz. pose proof (sync_good _ _ (inv_sync _ _ HI k)) as Hg. rewrite Hr in Hg. destruct Hg as (G1 & G2 & G3 & G4 & G5).
    assert (done r = true) as Hdone.
    { destruct (done r) eqn:Ed; [done|]. pose proof (sync_waits _ _ (inv_sync _ _ HI k) r Hr Ed) as Hin.
      pose proof (in_total (decs k) s _ _ Hin) as Hone. simpl in Hone. rewrite bool_decide_true in Hone by done. specialize (Hone eq_refl). lia. }
    assert (installed s k = false) as Hi by (destruct (installed s k); [by rewrite G5 in Hdone|done]).
    assert (stop_pending r = false) as Hs by (destruct (stop_pending r); [by rewrite G4 in Hi|done]).
    split; [done|]. rewrite Hs, Hdone, Hz in *. simpl in *.
    apply (rebuild held s _ (Caller k) l HI); cbn [todo pendings works pushes push_busy task set_list with_todo with_pendings]; try done.
    + intros y. rewrite El. simpl.
      replace (_ - _ + _ + _) with (total (stops y) (todo s) + queued y (works s)) by lia.
      replace (_ - _ + _) with (total (completes y) (todo s)) by lia.
      replace (_ - _ + _) with (total (decs y) (todo s)) by lia.
      destruct (decide (y = k)) as [->|Hne].
      * rewrite lookup_delete_eq. unfold installed in *. simpl. repeat split; try lia. done.
      * rewrite lookup_delete_ne by done. apply (sync_good _ _ (inv_sync _ _ HI y)).
    + intros y r' Hr' Hne. apply lookup_delete_Some in Hr' as [_ Hr']. eauto.
    + intros y r' Hr' [= ->]. by rewrite lookup_delete_eq in Hr'.
    + intros y r' Hr' Hd Hnz. rewrite lookup_delete_ne; [eauto|]. intros ->. congruence.
    + by apply wf_ok.
    + intros w. rewrite El. simpl. rewrite <- (inv_push _ _ HI w). lia.
    + apply HI.
    + apply HI.
  - apply (go_quiet held s s _ _ l HI El); try done.
    + intros x [r Hx]. intros [= ->]. congruence.
    + by apply wf_ok.
    + intros w. simpl. rewrite <- (inv_push _ _ HI w). lia.
    + apply HI.
    + apply HI.
Qed.

(** An operation that only changes the task. *)
Lemma task_only_ok held s t o l s1 :
  inv held s → list_of (todo s) t = o :: l →
  (∃ x, o = Return x) ∨ o = PutPinned ∨ (∃ w, o = FlushSmpCallFunction w) →
  pendings s1 = pendings s → works s1 = works s → pushes s1 = pushes s → push_busy s1 = push_busy s →
  todo s1 = todo s → migration_pending (task s1) = migration_pending (task s) → usage (task s1) = usage (task s) →
  inv held (set_list t l s1).
Proof.
  intros HI El Ho E1 E2 E3 E4 E5 E6 E7. pose proof (inv_list _ _ HI t) as Hok. rewrite El in Hok.
  apply (go_quiet held s s1 t o l HI El); try done.
  - intros x. rewrite E2. by destruct Ho as [[? ->]|[->|[? ->]]].
  - intros x. by destruct Ho as [[? ->]|[->|[? ->]]].
  - intros x _. by destruct Ho as [[? ->]|[->|[? ->]]].
  - apply wf_ok. apply (ok_tail s t o l Hok). by destruct Ho as [[? ->]|[->|[? ->]]].
  - intros w. rewrite E3, E4, <- (inv_push _ _ HI w). destruct Ho as [[? ->]|[->|[? ->]]]; simpl; lia.
  - rewrite E4, E7. apply HI.
  - rewrite E2. apply HI.
Qed.

Lemma stop_push_ok held s t l w :
  inv held s → list_of (todo s) t = StopPushNowait w :: l → wf t l →
  (w ∉ pushes s) ∧ inv held (set_list t l (with_pushes (pushes s ++ [w]) s)).
Proof.
  intros HI El Hwf. pose proof (inv_push _ _ HI w) as Hp.
  assert (1 ≤ total (pushing w) (todo s)) as Hone.
  { apply (in_total _ _ t (StopPushNowait w)); [rewrite El; left|by apply bool_decide_true]. }
  split.
  - intros Hin%times_in. case_decide; lia.
  - apply (go_quiet held s _ t _ l HI El); cbn [todo pendings works pushes push_busy task with_pushes]; try done.
    + by apply wf_ok.
    + intros v. rewrite times_app, <- (inv_push _ _ HI v). simpl. case_bool_decide; lia.
    + apply HI.
    + apply HI.
Qed.

Lemma push_cpu_stop_ok held s t l w lowest :
  inv held s → list_of (todo s) t = PushCpuStop w :: l → wf t l → inv held (set_list t l (push_cpu_stop w lowest s)).
Proof.
  intros HI El Hwf. pose proof (inv_push _ _ HI w) as Hp. pose proof (inv_usage _ _ HI) as Hu.
  assert (1 ≤ total (pushing w) (todo s)) as Hone.
  { apply (in_total _ _ t (PushCpuStop w)); [rewrite El; left|by apply bool_decide_true]. }
  pose proof (times_nonneg w (pushes s)) as Hnn. destruct (decide (w ∈ push_busy s)) as [Hw|]; [|lia].
  assert (∃ p, push_cpu_stop w lowest s = with_task p (with_push_busy (push_busy s ∖ {[w]}) s) ∧
    migration_pending p = migration_pending (task s) ∧ usage p = usage (task s) - 1) as (p & -> & Em & Eu).
  { eexists. split; [reflexivity|]. repeat case_decide; [done|]. destruct (is_migration_disabled _); [done|].
    by destruct lowest. }
  apply (go_quiet held s _ t _ l HI El); cbn [todo pendings works pushes push_busy task with_task with_push_busy]; try done.
  - by apply wf_ok.
  - intros v. pose proof (inv_push _ _ HI v) as Hv. simpl. repeat case_decide; repeat case_bool_decide; first [lia|set_solver].
  - rewrite size_difference, size_singleton by set_solver.
    assert ({[w]} ⊆ push_busy s) as Hsub%subseteq_size by set_solver. rewrite size_singleton in Hsub. lia.
  - apply HI.
Qed.

(** What the stopper does with the task: the state of the task other than its
    place stays. *)
Definition kept (p p1 : task_struct) : Prop :=
  run p1 = run p ∧ cpus_ptr p1 = cpus_ptr p ∧ cpus_mask p1 = cpus_mask p ∧
  migration_disabled p1 = migration_disabled p ∧ usage p1 = usage p ∧ who p1 = who p.

Lemma kept_refl p : kept p p.
Proof. done. Qed.

Lemma kept_migrate d p : kept p (__migrate_task d p) ∧ migration_pending (__migrate_task d p) = migration_pending p.
Proof. unfold __migrate_task. by destruct (is_cpu_allowed p d). Qed.

(** A task that waits to be completed is where it may be, or not on a run
    queue, or may not migrate, or its mask has a processor where it may not be. *)
Definition placed (p : task_struct) : Prop :=
  task_cpu p ∈ cpus_mask p ∨ on_rq_queued p = false ∨ cpus_ptr p ≠ CpusMask ∨
  (∃ d, d ∈ cpus_mask p ∧ is_cpu_allowed p d = false) ∨ cpus_mask p = ∅.

Inductive stopped (w x : Z) (s s1 : state) : list op → Prop :=
  | stopped_disabled :
      task_cpu (task s) = w → is_migration_disabled (task s) = true → task s1 = task s → stopped w x s s1 []
  | stopped_complete :
      kept (task s) (task s1) → migration_pending (task s1) = None → placed (task s1) →
      (task_cpu (task s1) = task_cpu (task s) ∨ (task_cpu (task s) = w ∧ is_migration_disabled (task s) = false)) →
      stopped w x s s1 [CompleteAll x].

Lemma migration_cpu_stop_cases w x any s r :
  pendings s !! x = Some r → migration_pending (task s) = Some x →
  any_and (cpus_mask (task s)) (cpus_mask (task s)) any = true →
  migration_cpu_stop w (arg_of x) any s = Ok (s, [StopTaskCpuNowait x]) ∨
  ∃ s1 l, migration_cpu_stop w (arg_of x) any s = Ok (s1, l) ∧ stopped w x s s1 l ∧
    s1 = with_task (task s1) (update x (with_stop_pending false r) s).
Proof.
  intros Hr Hm Hany. unfold migration_cpu_stop, use. cbn [arg_pending arg_of arg_dest_cpu]. rewrite Hr. simpl.
  rewrite (decide_True (P:=migration_pending (task s) = Some x)) by done. case_decide as Ec.
  - destruct (is_migration_disabled (task s)) eqn:Ed.
    + right. eexists _, []. split; [done|]. split; [by constructor|]. by destruct s.
    + right. case_decide as Em.
      * eexists _, [CompleteAll x]. cbn [task pendings with_task]. rewrite ?Hr. split; [done|]. split; [|by destruct s].
        constructor; [done|done|left; apply Em|by left].
      * eexists _, [CompleteAll x]. cbn [task pendings with_task]. rewrite ?Hr.
        split; [done|]. split; [|by destruct s]. set (p := with_migration_pending None (task s)).
        replace (on_rq_queued (with_migration_pending None (task s))) with (on_rq_queued p) by done.
        assert (kept (task s) (if on_rq_queued p then __migrate_task any p else with_wake_cpu any p) ∧
          migration_pending (if on_rq_queued p then __migrate_task any p else with_wake_cpu any p) = None) as [Hk Hp].
        { destruct (on_rq_queued p); [|done]. destruct (kept_migrate any p) as [Hk ->]. done. }
        constructor; [done|done| |by right].
        destruct (on_rq_queued p) eqn:Eq; [|right; by left]. unfold any_and in Hany. case_decide as En.
        { do 4 right. cbn [task with_task update with_pendings]. destruct Hk as (_ & _ & Hk & _). rewrite Hk. set_solver. }
        apply bool_decide_eq_true in Hany. unfold __migrate_task. destruct (is_cpu_allowed p any) eqn:Ea; simpl.
        -- left. simpl. set_solver.
        -- do 3 right. left. exists any. split; [simpl; set_solver|done].
  - case_decide as Ep.
    + right. eexists _, [CompleteAll x]. cbn [task pendings with_task]. rewrite ?Hr. split; [done|]. split; [|by destruct s].
      constructor; [done|done| |by left]. destruct (decide (cpus_ptr (task s) = CpusMask)) as [E|]; [|right; right; by left].
      left. simpl. by rewrite E in Ep.
    + left. done.
Qed.

(** Outside the request [x] nothing changes. *)
Lemma good_other s s1 x y n1 n2 n3 r :
  y ≠ x → pendings s1 = <[x := r]> (pendings s) →
  migration_pending (task s1) = migration_pending (task s) ∨
    (migration_pending (task s) = Some x ∧ migration_pending (task s1) = None) ∨
    (migration_pending (task s) = None ∧ migration_pending (task s1) = Some x) →
  good (pendings s !! y) (installed s y) n1 n2 n3 → good (pendings s1 !! y) (installed s1 y) n1 n2 n3.
Proof.
  intros Hne -> Hm. rewrite lookup_insert_ne by done. unfold installed.
  replace (bool_decide (migration_pending (task s1) = Some y)) with (bool_decide (migration_pending (task s) = Some y)); [done|].
  apply bool_decide_ext. destruct Hm as [->|[[-> ->]|[-> ->]]]; naive_solver.
Qed.

Lemma none_pending_same w x any s : arg_pending x = None →
  any_and (cpus_mask (task s)) (cpus_mask (task s)) any = true →
  ∃ p, migration_cpu_stop w x any s = Ok (with_task p s, []) ∧ kept (task s) p ∧
    migration_pending p = migration_pending (task s) ∧
    (task_cpu p = task_cpu (task s) ∨ (task_cpu (task s) = w ∧ is_migration_disabled (task s) = false)).
Proof.
  intros Hx _. unfold migration_cpu_stop. rewrite Hx. simpl.
  assert (with_task (task s) s = s) as Es by by destruct s.
  case_decide; [|exists (task s); rewrite Es; auto using kept_refl].
  destruct (is_migration_disabled (task s)) eqn:Ed; [exists (task s); rewrite Es; auto using kept_refl|].
  case_decide; [exists (task s); auto using kept_refl|]. eexists. split; [done|].
  destruct (on_rq_queued (task s)); [|by repeat split; auto].
  destruct (kept_migrate (if decide (arg_dest_cpu x < 0) then any else arg_dest_cpu x) (task s)) as [Hk Hp]. auto.
Qed.

(** The stop work that runs is that of the request in the task. *)
Lemma stop_work_installed held s t w arg l x :
  inv held s → list_of (todo s) t = MigrationCpuStop w arg :: l → ok_arg arg → arg_pending arg = Some x →
  arg = arg_of x ∧ ∃ r, pendings s !! x = Some r ∧ stop_pending r = true ∧ done r = false ∧ migration_pending (task s) = Some x.
Proof.
  intros HI El Harg Ex. split; [by apply Harg|]. pose proof (sync_good _ _ (inv_sync _ _ HI x)) as Hg.
  assert (MigrationCpuStop w arg ∈ list_of (todo s) t) as Hin by (rewrite El; left).
  assert (stops x (MigrationCpuStop w arg) = true) as Hst by by apply bool_decide_true.
  pose proof (in_total (stops x) s t _ Hin Hst) as Hone. pose proof (queued_nonneg x (works s)) as Hq.
  destruct (used held s t x stops HI) as [r Hr]; [by eexists|by left|]. rewrite Hr in Hg.
  destruct Hg as (G1 & G2 & G3 & G4 & G5). exists r. split; [done|].
  destruct (stop_pending r); simpl in G1; [|lia]. specialize (G4 eq_refl). split; [done|].
  split; [auto|]. by apply bool_decide_eq_true in G4.
Qed.

Lemma migration_op_ok held s t w arg any l :
  inv held s → list_of (todo s) t = MigrationCpuStop w arg :: l → wf t (MigrationCpuStop w arg :: l) →
  any_and (cpus_mask (task s)) (cpus_mask (task s)) any = true →
  ∃ s1 l1, migration_cpu_stop w arg any s = Ok (s1, l1) ∧ inv held (set_list t (l1 ++ l) s1) ∧ todo s1 = todo s.
Proof.
  intros HI El (Et & Harg & Hwf) Hany. destruct (arg_pending arg) as [x|] eqn:Ex.
  2: { destruct (none_pending_same w arg any s Ex Hany) as (p & E & (_ & _ & _ & _ & Ku & _) & Km & _).
    eexists _, []. split; [done|]. split; [|done]. apply (go_quiet held s _ t _ l HI El); try done.
    - intros y. simpl. rewrite Ex. by rewrite bool_decide_false.
    - by apply wf_ok.
    - intros v. simpl. rewrite <- (inv_push _ _ HI v). lia.
    - simpl. rewrite Ku. apply HI.
    - apply HI. }
  destruct (stop_work_installed held s t w arg l x HI El Harg Ex) as (-> & r & Hr & Es & G5 & Hm).
  pose proof (sync_good _ _ (inv_sync _ _ HI x)) as Hg. rewrite Hr in Hg. unfold installed in Hg.
  rewrite Hm, bool_decide_true in Hg by done. destruct Hg as (G1 & G2 & G3 & _). rewrite Es in G1. rewrite G5 in G2. simpl in G1, G2.
  destruct (migration_cpu_stop_cases w x any s r Hr Hm Hany) as [E|(s1 & l1 & E & Hs & Es1)].
  - eexists _, _. split; [exact E|]. split; [|done].
    apply (go_rebuild held s s t _ l _ HI El); try done.
    + intros y. simpl. destruct (decide (y = x)) as [->|Hne].
      * rewrite !bool_decide_true by done. rewrite Hr. unfold installed. rewrite Hm, bool_decide_true by done.
        unfold good. rewrite Es, G5. simpl. repeat split; try done; lia.
      * rewrite !bool_decide_false by congruence. pose proof (sync_good _ _ (inv_sync _ _ HI y)) as Hgy.
        replace (_ - 0 + (0 + 0) + _) with (total (stops y) (todo s) + queued y (works s)) by lia.
        replace (total (completes y) _ - 0 + (0 + 0)) with (total (completes y) (todo s)) by lia.
        replace (total (decs y) _ - 0 + (0 + 0)) with (total (decs y) (todo s)) by lia. done.
    + eauto.
    + eauto.
    + intros v. simpl. rewrite <- (inv_push _ _ HI v). lia.
    + apply HI.
    + apply HI.
  - exists s1, l1. split; [exact E|]. split; [|by rewrite Es1].
    assert (pendings s1 = <[x := with_stop_pending false r]> (pendings s)) as Ep by by rewrite Es1.
    assert (todo s1 = todo s ∧ works s1 = works s ∧ pushes s1 = pushes s ∧ push_busy s1 = push_busy s)
      as (E1 & E2 & E3 & E4) by by rewrite Es1.
    assert (usage (task s1) = usage (task s)) as Eu by (destruct Hs as [? ? ->|(? & ? & ? & ? & ? & ?)]; done).
    apply (go_rebuild held s s1 t _ l l1 HI El E1).
    + intros y. rewrite E2. destruct (decide (y = x)) as [->|Hne].
      * rewrite Ep, lookup_insert_eq. unfold installed. simpl. rewrite bool_decide_true by done.
        destruct Hs as [? ? Et1|Hk Hm1 _ _]; [rewrite Et1, Hm, bool_decide_true by done|rewrite Hm1]; simpl;
          rewrite ?bool_decide_true by done; rewrite G5; simpl; repeat split; try done; lia.
      * apply (good_other s s1 x y _ _ _ _ Hne Ep).
        { destruct Hs as [? ? ->|]; [by left|by right; left]. }
        pose proof (sync_good _ _ (inv_sync _ _ HI y)) as Hgy. simpl. rewrite bool_decide_false by congruence.
        assert (occ (stops y) l1 = 0 ∧ occ (completes y) l1 = 0 ∧ occ (decs y) l1 = 0) as (-> & -> & ->).
        { destruct Hs; simpl; [done|]. by rewrite bool_decide_false by congruence. }
        replace (_ - 0 + 0 + _) with (total (stops y) (todo s) + queued y (works s)) by lia.
        replace (total (completes y) _ - 0 + 0) with (total (completes y) (todo s)) by lia.
        replace (total (decs y) _ - 0 + 0) with (total (decs y) (todo s)) by lia. done.
    + intros y r' Hr'. rewrite Ep in Hr'. apply lookup_insert_Some in Hr' as [[-> <-]|[_ Hr']]; eauto.
    + done.
    + intros y r' Hr' Hd _. rewrite Ep. destruct (decide (y = x)) as [->|]; [rewrite lookup_insert_eq|rewrite lookup_insert_ne by done]; [|eauto].
      eexists. split; [done|]. simpl. congruence.
    + apply wf_ok. by destruct Hs.
    + intros v. rewrite E3, E4, <- (inv_push _ _ HI v). simpl. destruct Hs; simpl; lia.
    + rewrite Eu, E4. apply HI.
    + rewrite E2. apply HI.
Qed.

(** ** The calls *)

Definition waits (k x : Z) : list op := [WaitForCompletion x; RefcountDecAndTest x; WaitRefs k].

(** Caller [k] installs its own request, or gets a reference to the one that
    is installed. *)
Definition joined (k x : Z) (s : state) (r : set_affinity_pending) : Prop :=
  (x = k ∧ migration_pending (task s) = None ∧ r = new_pending) ∨
  (∃ r0, migration_pending (task s) = Some x ∧ pendings s !! x = Some r0 ∧ r = with_refs (refs r0 + 1) r0).

Definition same_rest (s s1 : state) : Prop :=
  todo s1 = todo s ∧ works s1 = works s ∧ pushes s1 = pushes s ∧ nr_pinned s1 = nr_pinned s ∧ preempt_off s1 = preempt_off s.

(** The push of the task to another processor that follows, if any. *)
Definition pushed (s s1 : state) (l : list op) : Prop :=
  (l = [] ∧ push_busy s1 = push_busy s ∧ usage (task s1) = usage (task s)) ∨
  (∃ w, l = [StopPushNowait w] ∧ (w ∉ push_busy s) ∧ push_busy s1 = {[w]} ∪ push_busy s ∧ usage (task s1) = usage (task s) + 1).

Definition in_place (p p1 : task_struct) : Prop :=
  run p1 = run p ∧ cpus_ptr p1 = cpus_ptr p ∧ cpus_mask p1 = cpus_mask p ∧
  migration_disabled p1 = migration_disabled p ∧ who p1 = who p.

Inductive affined (k dest : Z) (flags : sca) (s s1 : state) : list op → Prop :=
  | affined_here l :
      task_cpu (task s) ∈ cpus_mask (task s) → in_place (task s) (task s1) → task_cpu (task s1) = task_cpu (task s) →
      pendings s1 = pendings s → pushed s s1 l → migration_pending (task s1) = migration_pending (task s) →
      (∀ x r, migration_pending (task s) = Some x → pendings s !! x = Some r → stop_pending r = true) →
      affined k dest flags s s1 l
  | affined_here_complete l x r :
      task_cpu (task s) ∈ cpus_mask (task s) → in_place (task s) (task s1) → task_cpu (task s1) = task_cpu (task s) →
      pendings s1 = pendings s → pushed s s1 l →
      migration_pending (task s) = Some x → pendings s !! x = Some r → stop_pending r = false →
      migration_pending (task s1) = None → affined k dest flags s s1 (l ++ [CompleteAll x])
  | affined_lost :
      flags = SCA_MIGRATE_ENABLE → task_cpu (task s) ∉ cpus_mask (task s) → migration_pending (task s) = None →
      s1 = s → affined k dest flags s s1 []
  | affined_stop x r :
      task_cpu (task s) ∉ cpus_mask (task s) → run (task s) = Running ∨ run (task s) = Waking →
      (flags ≠ SCA_MIGRATE_ENABLE → joined k x s r) →
      (flags = SCA_MIGRATE_ENABLE → migration_pending (task s) = Some x ∧ pendings s !! x = Some r) →
      kept (task s) (task s1) → task_cpu (task s1) = task_cpu (task s) → push_busy s1 = push_busy s →
      migration_pending (task s1) = Some x → pendings s1 = <[x := with_stop_pending true r]> (pendings s) →
      affined k dest flags s s1
        ((if stop_pending r then [] else [StopOneCpuNowait (task_cpu (task s)) x]) ++
         (if decide (flags = SCA_MIGRATE_ENABLE) then [] else waits k x))
  | affined_wait x r :
      task_cpu (task s) ∉ cpus_mask (task s) → flags ≠ SCA_MIGRATE_ENABLE → run (task s) ≠ Running → run (task s) ≠ Waking →
      joined k x s r → is_migration_disabled (task s) = true ∧ task_cpu (task s1) = task_cpu (task s) ∨ stop_pending r = true →
      kept (task s) (task s1) → push_busy s1 = push_busy s →
      migration_pending (task s1) = Some x → pendings s1 = <[x := r]> (pendings s) →
      affined k dest flags s s1 (waits k x)
  | affined_moved x r :
      task_cpu (task s) ∉ cpus_mask (task s) → flags ≠ SCA_MIGRATE_ENABLE → run (task s) ≠ Running → run (task s) ≠ Waking →
      joined k x s r → is_migration_disabled (task s) = false → stop_pending r = false →
      kept (task s) (task s1) → task_cpu (task s1) = dest ∨ on_rq_queued (task s1) = false → push_busy s1 = push_busy s →
      migration_pending (task s1) = None → pendings s1 = <[x := r]> (pendings s) →
      affined k dest flags s s1 (CompleteAll x :: waits k x).

Lemma join_cases k s :
  (∀ x, migration_pending (task s) = Some x → is_Some (pendings s !! x)) →
  ∃ x r s0,
    match migration_pending (task s) with
    | None => Ok (with_task (with_migration_pending (Some k) (task s)) (update k new_pending s))
    | Some x => r ← opt UseAfterFree (pendings s !! x); Ok (update x (with_refs (refs r + 1) r) s)
    end = Ok s0 ∧ joined k x s r ∧ migration_pending (task s0) = Some x ∧ kept (task s) (task s0) ∧
    task_cpu (task s0) = task_cpu (task s) ∧ pendings s0 = <[x := r]> (pendings s) ∧ push_busy s0 = push_busy s ∧ same_rest s s0.
Proof.
  intros Hinst. destruct (migration_pending (task s)) as [x|] eqn:Ex.
  - destruct (Hinst x eq_refl) as [r Hr]. rewrite Hr. eexists x, _, _. split; [done|].
    split; [right; exists r; done|]. done.
  - eexists k, _, _. split; [done|]. split; [by left|]. done.
Qed.

Lemma affine_move_task_cases k dest flags s :
  (∀ x, migration_pending (task s) = Some x → is_Some (pendings s !! x)) →
  (flags = SCA_MIGRATE_ENABLE → run (task s) = Running) →
  ∃ s1 l ret, affine_move_task k dest flags s = Ok (s1, l, ret) ∧ affined k dest flags s s1 l ∧ same_rest s s1.
Proof.
  intros Hinst Hrun. unfold affine_move_task, use. case_decide as Em.
  - match goal with |- context [bool_decide (flags = SCA_MIGRATE_ENABLE) && ?a && ?b] =>
      destruct (bool_decide (flags = SCA_MIGRATE_ENABLE) && a && b) eqn:Ep end.
    + apply andb_true_iff in Ep as [_ Ep]. apply bool_decide_eq_true in Ep.
      destruct (migration_pending (task s)) as [x|] eqn:Ex.
      * destruct (Hinst x eq_refl) as [r Hr]. cbn [pendings with_task with_push_busy]. rewrite Hr. simpl.
        destruct (stop_pending r) eqn:Es; eexists _, _, _; (split; [done|]); (split; [|done]).
        -- apply affined_here; try done; [right; eexists; by repeat split|]. naive_solver.
        -- apply (affined_here_complete k dest flags s _ [_] x r); try done. right; eexists; by repeat split.
      * eexists _, _, _. split; [done|]. split; [|done]. apply affined_here; try done; [|naive_solver].
        right; eexists; by repeat split.
    + destruct (migration_pending (task s)) as [x|] eqn:Ex.
      * destruct (Hinst x eq_refl) as [r Hr]. rewrite Hr. simpl.
        destruct (stop_pending r) eqn:Es; eexists _, _, _; (split; [done|]); (split; [|done]).
        -- apply affined_here; try done; [by left|]. naive_solver.
        -- apply (affined_here_complete k dest flags s _ [] x r); try done. by left.
      * eexists _, _, _. split; [done|]. split; [|done]. apply affined_here; try done; [by left|]. naive_solver.
  - destruct (decide (flags = SCA_MIGRATE_ENABLE)) as [Ef|Ef].
    + simpl. destruct (migration_pending (task s)) as [x|] eqn:Ex.
      * destruct (Hinst x eq_refl) as [r Hr]. rewrite Hr. simpl. rewrite decide_True by (left; auto).
        eexists _, _, _. split; [done|].
        split; [|by repeat split].
        epose proof (affined_stop k dest flags s _ x r Em (or_introl (Hrun Ef))) as Hs.
        rewrite (decide_True (P:=flags = SCA_MIGRATE_ENABLE)) in Hs by done. apply Hs; try done.
      * eexists _, _, _. split; [done|]. split; [by apply affined_lost|by repeat split].
    + destruct (join_cases k s Hinst) as (x & r & s0 & -> & Hj & Em0 & Hk & Ec0 & Ep0 & Eb0 & Hrest).
      simpl. rewrite Em0, Ep0, lookup_insert_eq. simpl.
      assert (run (task s0) = run (task s)) as Er by apply Hk. rewrite Er. case_decide as Ew.
      * eexists _, _, _. split; [done|]. split; [|by destruct Hrest as (? & ? & ? & ? & ?)].
        epose proof (affined_stop k dest flags s _ x r Em Ew) as Hs.
        rewrite (decide_False (P:=flags = SCA_MIGRATE_ENABLE)) in Hs by done. apply Hs; try done.
        simpl. by rewrite Ep0, insert_insert_eq.
      * assert (run (task s) ≠ Running ∧ run (task s) ≠ Waking) as [Hr1 Hr2] by tauto.
        assert (is_migration_disabled (task s0) = is_migration_disabled (task s)) as Ed.
        { unfold is_migration_disabled. by destruct Hk as (_ & _ & _ & -> & _). }
        rewrite Ed. destruct (is_migration_disabled (task s)) eqn:Ed'.
        { eexists _, _, _. split; [done|]. split; [|done]. apply (affined_wait k dest flags s _ x r); auto. }
        set (p := if on_rq_queued (task s0) then move_queued_task dest (task s0) else task s0).
        assert (kept (task s) p ∧ (task_cpu p = dest ∨ on_rq_queued p = false)) as [Hkp Hpp].
        { subst p. destruct (on_rq_queued (task s0)) eqn:Eq; [split; [apply Hk|by left]|split; [done|by right]]. }
        assert (migration_pending p = Some x) as Emp by (subst p; by destruct (on_rq_queued (task s0))).
        destruct (stop_pending r) eqn:Es; eexists _, _, _; (split; [done|]); (split; [|by destruct Hrest as (? & ? & ? & ? & ?)]).
        -- apply (affined_wait k dest flags s _ x r); auto.
        -- apply (affined_moved k dest flags s _ x r); auto.
Qed.

Definition final (k : Z) (l : list op) : Prop := l = [] ∨ (∃ z, l = [Return z]) ∨ (k = 0 ∧ l = [PutPinned]).

(** How the counts about each request change in a call. *)
Lemma call_rebuild held s s1 k l suf :
  inv held s → list_of (todo s) (Caller k) = [] → todo s1 = todo s → works s1 = works s → final k suf →
  (∀ x, good (pendings s1 !! x) (installed s1 x)
     (total (stops x) (todo s) + occ (stops x) l + queued x (works s))
     (total (completes x) (todo s) + occ (completes x) l)
     (total (decs x) (todo s) + occ (decs x) l)) →
  (∀ x r', pendings s1 !! x = Some r' → k ≠ x → ∃ r, pendings s !! x = Some r ∧ (done r' = false → done r = false)) →
  (∀ r', pendings s1 !! k = Some r' → WaitRefs k ∈ l ∧ (done r' = false → RefcountDecAndTest k ∈ l)) →
  (∀ x r, pendings s !! x = Some r → done r = true → ∃ r', pendings s1 !! x = Some r' ∧ done r' = true) →
  wf (Caller k) (l ++ suf) →
  (∀ w, total (pushing w) (todo s) + occ (pushing w) l + times w (pushes s1) = (if decide (w ∈ push_busy s1) then 1 else 0)) →
  usage (task s1) = held + Z.of_nat (size (push_busy s1)) →
  inv held (set_list (Caller k) (l ++ suf) s1).
Proof.
  intros HI El Et Ew Hsuf Hg Ho Hw Hd Hwf Hp Hu.
  assert (∀ f, (∀ z, f (Return z) = false) → f PutPinned = false → occ f (l ++ suf) = occ f l) as Hocc.
  { intros f H1 H2. rewrite occ_app. destruct Hsuf as [->|[[z ->]|[-> ->]]]; simpl; rewrite ?H1, ?H2; lia. }
  apply (rebuild held s _ (Caller k) (l ++ suf) HI); cbn [todo pendings works pushes push_busy task set_list with_todo].
  - by rewrite Et.
  - intros x. rewrite El, Ew, !Hocc by done. specialize (Hg x). simpl.
    replace (_ - 0 + occ (stops x) l + _) with (total (stops x) (todo s) + occ (stops x) l + queued x (works s)) by lia.
    replace (_ - 0 + occ (completes x) l) with (total (completes x) (todo s) + occ (completes x) l) by lia.
    replace (_ - 0 + occ (decs x) l) with (total (decs x) (todo s) + occ (decs x) l) by lia. done.
  - intros x r' Hr' Hne. apply (Ho x r' Hr'). congruence.
  - intros x r' Hr' [= ->]. destruct (Hw r' Hr') as [H1 H2].
    split; [apply elem_of_app; by left|intros Hf; apply elem_of_app; left; auto].
  - intros x r Hr Hx _. by apply (Hd x r).
  - by apply wf_ok.
  - intros w. rewrite El, Hocc by done. simpl. specialize (Hp w). lia.
  - done.
  - rewrite Ew. apply HI.
Qed.

Lemma idle_fresh held s k : inv held s → list_of (todo s) (Caller k) = [] → pendings s !! k = None.
Proof.
  intros HI El. destruct (pendings s !! k) as [r|] eqn:Hr; [|done].
  pose proof (sync_owner _ _ (inv_sync _ _ HI k) r Hr) as Hin. rewrite El in Hin. by apply elem_of_nil in Hin.
Qed.

Lemma final_wf k suf : final k suf → wf (Caller k) suf.
Proof. by intros [->|[[z ->]|[-> ->]]]. Qed.

(** A call that returns at once. *)
Lemma call_none held s k suf :
  inv held s → list_of (todo s) (Caller k) = [] → final k suf → inv held (set_list (Caller k) suf s).
Proof.
  intros HI El Hsuf. apply (call_rebuild held s s k [] suf HI El eq_refl eq_refl Hsuf); try done.
  - intros y. simpl. rewrite !Z.add_0_r. apply (sync_good _ _ (inv_sync _ _ HI y)).
  - eauto.
  - by rewrite (idle_fresh held s k HI El).
  - eauto.
  - simpl. by apply final_wf.
  - intros w. simpl. rewrite <- (inv_push _ _ HI w). lia.
  - apply HI.
Qed.

Lemma pushed_ok held s s1 l : inv held s → pushed s s1 l → pushes s1 = pushes s →
  (∀ w, total (pushing w) (todo s) + occ (pushing w) l + times w (pushes s1) = (if decide (w ∈ push_busy s1) then 1 else 0)) ∧
  usage (task s1) = held + Z.of_nat (size (push_busy s1)) ∧
  (∀ x, occ (stops x) l = 0 ∧ occ (completes x) l = 0 ∧ occ (decs x) l = 0) ∧ (∀ t l', wf t l' → wf t (l ++ l')).
Proof.
  intros HI [(-> & Eb & Eu)|(w & -> & Hw & Eb & Eu)] Ep; rewrite Ep, Eb, Eu, (inv_usage _ _ HI).
  - split; [|done]. intros v. rewrite <- (inv_push _ _ HI v). simpl. lia.
  - split; [|split; [|done]].
    + intros v. pose proof (inv_push _ _ HI v) as Hv. simpl. repeat case_decide; repeat case_bool_decide; first [lia|set_solver].
    + rewrite size_union, size_singleton by set_solver. lia.
Qed.

(** The request that a caller joins, before and after. *)
Lemma joined_good held s k x r : inv held s → list_of (todo s) (Caller k) = [] → joined k x s r →
  total (stops x) (todo s) + queued x (works s) = Z.b2z (stop_pending r) ∧ total (completes x) (todo s) = 0 ∧
  total (decs x) (todo s) = refs r - 1 ∧ done r = false ∧
  (x ≠ k → ∃ r0, pendings s !! x = Some r0 ∧ done r0 = false) ∧
  (∀ y, y ≠ x → migration_pending (task s) ≠ Some y).
Proof.
  intros HI El Hj. pose proof (idle_fresh held s k HI El) as Hk. pose proof (sync_good _ _ (inv_sync _ _ HI x)) as Hg.
  destruct Hj as [(-> & Hm & ->)|(r0 & Hm & Hr & ->)].
  - rewrite Hk in Hg. destruct Hg as (G1 & G2 & G3 & _). simpl. repeat split; try done; try lia. by rewrite Hm.
  - rewrite Hr in Hg. destruct Hg as (G1 & G2 & G3 & G4 & G5). unfold installed in *. rewrite Hm in *.
    rewrite bool_decide_true in * by done. specialize (G5 eq_refl). rewrite G5 in G2. simpl in *.
    repeat split; try done; try lia; [eauto|]. intros y Hne [= ->]. done.
Qed.

(** The stop work of the installed request [x] is queued for it, without waiting. *)
Lemma stop_only_ok held s s1 k x r w suf :
  inv held s → list_of (todo s) (Caller k) = [] → final k suf → same_rest s s1 →
  migration_pending (task s) = Some x → pendings s !! x = Some r →
  push_busy s1 = push_busy s → usage (task s1) = usage (task s) → migration_pending (task s1) = Some x →
  pendings s1 = <[x := with_stop_pending true r]> (pendings s) →
  inv held (set_list (Caller k) ((if stop_pending r then [] else [StopOneCpuNowait w x]) ++ suf) s1).
Proof.
  intros HI El Hsuf (E1 & E2 & E3 & _) Em Hr Eb Eu Em1 Ep.
  pose proof (sync_good _ _ (inv_sync _ _ HI x)) as Hg. rewrite Hr in Hg. destruct Hg as (G1 & G2 & G3 & G4 & G5).
  unfold installed in *. rewrite Em, bool_decide_true in * by done. specialize (G5 eq_refl). rewrite G5 in G2. simpl in G2.
  set (pre := if stop_pending r then [] else [StopOneCpuNowait w x]).
  assert (∀ y, occ (completes y) pre = 0 ∧ occ (decs y) pre = 0 ∧ occ (pushing y) pre = 0) as Hpre.
  { intros y. subst pre. by destruct (stop_pending r). }
  assert (∀ y, occ (stops y) pre = if decide (y = x) then 1 - Z.b2z (stop_pending r) else 0) as Hst.
  { intros y. subst pre. destruct (stop_pending r); simpl; case_decide; simpl;
      rewrite ?bool_decide_true, ?bool_decide_false by congruence; done. }
  apply (call_rebuild held s s1 k pre suf HI El E1 E2 Hsuf).
  - intros y. destruct (Hpre y) as (-> & -> & _). rewrite Hst. case_decide as Hyx.
    + subst y. rewrite Ep, lookup_insert_eq. unfold installed. rewrite Em1, bool_decide_true by done. unfold good. simpl.
      rewrite G5. simpl. repeat split; try done; lia.
    + apply (good_other s s1 x y _ _ _ _ Hyx Ep); [left; congruence|]. pose proof (sync_good _ _ (inv_sync _ _ HI y)) as Hgy.
      by rewrite !Z.add_0_r.
  - intros y r' Hr' Hne. rewrite Ep in Hr'. apply lookup_insert_Some in Hr' as [[<- <-]|[_ Hr']]; [|eauto]. eauto.
  - intros r' Hr'. rewrite Ep in Hr'. pose proof (idle_fresh held s k HI El) as Hk.
    apply lookup_insert_Some in Hr' as [[-> <-]|[_ Hr']]; congruence.
  - intros y r' Hr' Hd. rewrite Ep. destruct (decide (y = x)) as [->|Hne]; [congruence|rewrite lookup_insert_ne by done; eauto].
  - subst pre. destruct (stop_pending r); simpl; by destruct Hsuf as [->|[[z ->]|[-> ->]]].
  - intros v. destruct (Hpre v) as (_ & _ & ->). rewrite E3, Eb, <- (inv_push _ _ HI v). lia.
  - rewrite Eu, Eb. apply HI.
Qed.

(** A call that waits for [x] afterwards. *)
Lemma joined_ok held s s1 k x r r1 pre suf :
  inv held s → list_of (todo s) (Caller k) = [] → final k suf → joined k x s r → same_rest s s1 →
  push_busy s1 = push_busy s → usage (task s1) = usage (task s) →
  pendings s1 = <[x := r1]> (pendings s) → refs r1 = refs r → done r1 = false →
  migration_pending (task s1) = Some x ∨ migration_pending (task s1) = None →
  (∀ y, y ≠ x → occ (stops y) pre = 0 ∧ occ (completes y) pre = 0) →
  (∀ y, occ (decs y) pre = 0 ∧ occ (pushing y) pre = 0) →
  (∀ l, wf (Caller k) l → wf (Caller k) (pre ++ l)) →
  occ (stops x) pre = Z.b2z (stop_pending r1) - Z.b2z (stop_pending r) →
  occ (completes x) pre = Z.b2z (negb (installed s1 x)) →
  (stop_pending r1 = true → installed s1 x = true) →
  inv held (set_list (Caller k) ((pre ++ waits k x) ++ suf) s1).
Proof.
  intros HI El Hsuf Hj (E1 & E2 & E3 & _) Eb Eu Ep Er Ed Em Hpre Hdec Hwf Hs Hc Hsp.
  destruct (joined_good held s k x r HI El Hj) as (G1 & G2 & G3 & G4 & G5 & G6).
  assert (∀ f y, occ f (pre ++ waits k y) = occ f pre + occ f (waits k y)) as Happ by (intros; apply occ_app).
  apply (call_rebuild held s s1 k (pre ++ waits k x) suf HI El E1 E2 Hsuf).
  - intros y. rewrite !Happ. destruct (Hdec y) as [-> _]. destruct (decide (y = x)) as [->|Hne].
    + rewrite Ep, lookup_insert_eq. simpl. rewrite bool_decide_true by done. rewrite Ed. simpl.
      repeat split; try done; try lia.
    + destruct (Hpre y Hne) as [-> ->]. apply (good_other s s1 x y _ _ _ _ Hne Ep).
      { destruct Hj as [(_ & -> & _)|(r0 & -> & _)], Em as [->| ->]; auto. }
      simpl. rewrite bool_decide_false by congruence. pose proof (sync_good _ _ (inv_sync _ _ HI y)) as Hgy.
      replace (_ + (0 + _) + _) with (total (stops y) (todo s) + queued y (works s)) by lia.
      replace (total (completes y) _ + _) with (total (completes y) (todo s)) by lia.
      replace (total (decs y) _ + _) with (total (decs y) (todo s)) by lia. done.
  - intros y r' Hr' Hne. rewrite Ep in Hr'. apply lookup_insert_Some in Hr' as [[<- <-]|[_ Hr']]; [|eauto].
    destruct G5 as (r0 & Hr0 & Hd0); [congruence|]. eauto.
  - intros r' Hr'. rewrite Ep in Hr'. apply lookup_insert_Some in Hr' as [[-> <-]|[_ Hr']].
    + split; [apply elem_of_app; right; simpl; set_solver|]. intros _. apply elem_of_app; right; simpl; set_solver.
    + rewrite (idle_fresh held s k HI El) in Hr'. done.
  - intros y r' Hr' Hd. rewrite Ep. destruct (decide (y = x)) as [->|Hne]; [|rewrite lookup_insert_ne by done; eauto].
    destruct (decide (x = k)) as [->|Hk]; [by rewrite (idle_fresh held s k HI El) in Hr'|].
    destruct (G5 Hk) as (r0 & Hr0 & Hd0). congruence.
  - rewrite <- app_assoc. apply Hwf. simpl. split; [done|]. split; [exists k; split; [done|left]|].
    split; [done|]. by destruct Hsuf as [->|[[z ->]|[-> ->]]].
  - intros w. rewrite occ_app. destruct (Hdec w) as [_ ->]. simpl. rewrite E3, Eb, <- (inv_push _ _ HI w). lia.
  - rewrite Eu, Eb. apply HI.
Qed.

Lemma affined_ok held k dest flags s s1 l suf :
  inv held s → list_of (todo s) (Caller k) = [] → affined k dest flags s s1 l → same_rest s s1 → final k suf →
  inv held (set_list (Caller k) (l ++ suf) s1).
Proof.
  intros HI El Ha Hrest Hsuf. pose proof Hrest as (E1 & E2 & E3 & _).
  destruct Ha as [l _ _ _ Ep Hp Em _|l x r _ _ _ Ep Hp Em Hr Hs Em1|Hf _ Em ->|x r _ Hrun Hj He Hk _ Eb Em Ep|
    x r _ Hf _ _ Hj _ Hk Eb Em Ep|x r _ Hf _ _ Hj _ Hs Hk _ Eb Em Ep].
  - destruct (pushed_ok held s s1 l HI Hp E3) as (P1 & P2 & P3 & P4).
    apply (call_rebuild held s s1 k l suf HI El E1 E2 Hsuf); try done; [| | | |by apply P4, final_wf].
    + intros y. destruct (P3 y) as (-> & -> & ->). rewrite Ep, !Z.add_0_r. unfold installed. rewrite Em.
      apply (sync_good _ _ (inv_sync _ _ HI y)).
    + rewrite Ep. eauto.
    + rewrite Ep, (idle_fresh held s k HI El). done.
    + rewrite Ep. eauto.
  - destruct (pushed_ok held s s1 l HI Hp E3) as (P1 & P2 & P3 & P4).
    pose proof (sync_good _ _ (inv_sync _ _ HI x)) as Hg. rewrite Hr in Hg. destruct Hg as (G1 & G2 & G3 & G4 & G5).
    unfold installed in *. rewrite Em, bool_decide_true in * by done. specialize (G5 eq_refl). rewrite G5 in G2.
    apply (call_rebuild held s s1 k (l ++ [CompleteAll x]) suf HI El E1 E2 Hsuf); try done.
    + intros y. rewrite !occ_app. destruct (P3 y) as (-> & -> & ->). simpl. rewrite Ep. destruct (decide (y = x)) as [->|Hne].
      * rewrite Hr, bool_decide_true by done. unfold installed. rewrite Em1, bool_decide_false by done.
        unfold good. rewrite Hs, G5 in *. simpl in *. repeat split; try done; lia.
      * rewrite bool_decide_false by congruence. pose proof (sync_good _ _ (inv_sync _ _ HI y)) as Hgy.
        unfold installed in *. rewrite Em, Em1, !bool_decide_false in * by congruence.
        replace (_ + (0 + 0) + _) with (total (stops y) (todo s) + queued y (works s)) by lia.
        replace (total (completes y) _ + _) with (total (completes y) (todo s)) by lia.
        replace (total (decs y) _ + _) with (total (decs y) (todo s)) by lia. done.
    + rewrite Ep. eauto.
    + rewrite Ep, (idle_fresh held s k HI El). done.
    + rewrite Ep. eauto.
    + rewrite <- app_assoc. apply P4. simpl. by apply final_wf.
    + intros w. rewrite occ_app. simpl. specialize (P1 w). lia.
  - by apply (call_none held s k suf HI El).
  - case_decide as Ef.
    { destruct (He Ef) as [Hm Hr]. rewrite app_nil_r.
      by apply (stop_only_ok held s s1 k x r _ suf HI El Hsuf Hrest Hm Hr Eb); [apply Hk|..]. }
    assert (done r = false) as Hd by by apply (joined_good held s k x r HI El (Hj Ef)).
    apply (joined_ok held s s1 k x r (with_stop_pending true r) _ suf HI El Hsuf (Hj Ef) Hrest Eb); try done; [apply Hk|by left|..].
    + intros y Hne. destruct (stop_pending r); simpl; [done|]. by rewrite bool_decide_false by congruence.
    + intros y. by destruct (stop_pending r).
    + intros l Hl. by destruct (stop_pending r).
    + destruct (stop_pending r); simpl; [done|]. by rewrite bool_decide_true.
    + unfold installed. rewrite Em, bool_decide_true by done. by destruct (stop_pending r).
    + intros _. unfold installed. by rewrite Em, bool_decide_true.
  - apply (joined_ok held s s1 k x r r [] suf HI El Hsuf Hj Hrest Eb); try done; [apply Hk| |by left|..].
    + by apply (joined_good held s k x r HI El Hj).
    + simpl. lia.
    + unfold installed. by rewrite Em, bool_decide_true.
    + unfold installed. by rewrite Em, bool_decide_true.
  - apply (joined_ok held s s1 k x r r [CompleteAll x] suf HI El Hsuf Hj Hrest Eb); try done; [apply Hk| |by right|..].
    + by apply (joined_good held s k x r HI El Hj).
    + intros y Hne. simpl. by rewrite bool_decide_false by congruence.
    + simpl. lia.
    + unfold installed. rewrite Em, bool_decide_false by done. simpl. by rewrite bool_decide_true.
    + congruence.
Qed.

(** ** Every step *)

Definition same_request (p p1 : task_struct) : Prop :=
  migration_pending p1 = migration_pending p ∧ usage p1 = usage p.

Lemma set_common_same m f p : same_request p (set_cpus_allowed_common m f p).
Proof. unfold set_cpus_allowed_common. by case_decide. Qed.

Lemma switch_out_same r p : same_request p (switch_out r p).
Proof.
  unfold switch_out, migrate_disable_switch, __do_set_cpus_allowed.
  destruct (is_migration_disabled p); [|done]. simpl. case_decide; [done|].
  destruct (set_common_same (CpumaskOf (task_cpu p)) SCA_MIGRATE_DISABLE p) as [H1 H2]. done.
Qed.

Lemma fallback_same n st p c p1 : fallback_loop n st p = Ok (c, p1) → same_request p p1.
Proof.
  revert st p. induction n as [|n IH]; intros st p; [done|]. simpl.
  destruct (filter _ _); [|by intros [= _ <-]]. destruct st; [| |done]; intros Hl%IH;
    [destruct (set_common_same (Mask cpuset_fallback) SCA_NONE p) as [H1 H2]|
     destruct (set_common_same (Mask cpu_possible_mask) SCA_NONE p) as [H1 H2]];
    unfold same_request, do_set_cpus_allowed, __do_set_cpus_allowed in *; destruct Hl as [-> ->]; done.
Qed.

Lemma fallback_undef n st p u : fallback_loop n st p = Undef u → (2 < n)%nat ∨ st ≠ cpuset → (1 < n)%nat ∨ st = fail → (0 < n)%nat → u = BugOn.
Proof.
  revert st p. induction n as [|n IH]; intros st p; [lia|]. simpl.
  destruct (filter _ _); [|done]. destruct st; intros Hl Hn1 Hn2 Hn3; [| |by injection Hl].
  - eapply IH; [exact Hl|by right|left; naive_solver lia|naive_solver lia].
  - eapply IH; [exact Hl|by right|by right|naive_solver lia].
Qed.

Lemma fallback_allowed n st p c p1 : fallback_loop n st p = Ok (c, p1) → is_cpu_allowed p1 c = true.
Proof.
  revert st p. induction n as [|n IH]; intros st p; [done|]. simpl.
  destruct (filter _ _) as [|d l] eqn:Ef; [destruct st; [apply IH|apply IH|done]|]. intros [= -> ->].
  assert (c ∈ filter (λ c, is_cpu_allowed p1 c = true) (for_each_cpu (deref p1 (cpus_ptr p1)))) as Hc by (rewrite Ef; left).
  by apply list_elem_of_filter in Hc as [? _].
Qed.

Lemma fallback_exit n st p z : fallback_loop n st p ≠ Exit z.
Proof.
  revert st p. induction n as [|n IH]; intros st p; [done|]. simpl.
  destruct (filter _ _); [|done]. destruct st; [apply IH|apply IH|done].
Qed.

Lemma select_task_rq_cases choice any p :
  (∃ c p1, select_task_rq choice any p = Ok (c, p1) ∧ same_request p p1) ∨ select_task_rq choice any p = Undef BugOn.
Proof.
  unfold select_task_rq. destruct (is_cpu_allowed _ _); simpl; [left; by eexists _, _|].
  unfold select_fallback_rq.
  assert ((∃ c p1, fallback_loop 3 cpuset p = Ok (c, p1) ∧ same_request p p1) ∨ fallback_loop 3 cpuset p = Undef BugOn) as Hf.
  { destruct (fallback_loop 3 cpuset p) as [[c p1]|z|u] eqn:E.
    - left. exists c, p1. split; [done|]. by eapply fallback_same.
    - by apply fallback_exit in E.
    - right. f_equal. eapply fallback_undef; [exact E|left; lia..|lia]. }
  destruct (node_mask _); [|done]. destruct (filter _ _); [done|left; by eexists _, _].
Qed.

Lemma wake_cases choice any b p :
  (∃ p1, try_to_wake_up choice any b p = Ok p1 ∧ same_request p p1) ∨ try_to_wake_up choice any b p = Undef BugOn.
Proof.
  unfold try_to_wake_up. destruct (select_task_rq_cases choice any p) as [(c & p1 & -> & Hs)| ->]; [left|by right].
  eexists. split; [done|]. by case_decide.
Qed.

Lemma installed_alive held s : inv held s → ∀ x, migration_pending (task s) = Some x → is_Some (pendings s !! x).
Proof.
  intros HI x Hx. pose proof (sync_good _ _ (inv_sync _ _ HI x)) as Hg. unfold installed in Hg.
  rewrite Hx, bool_decide_true in Hg by done. destruct (pendings s !! x); [done|]. by destruct Hg as (_ & _ & _ & ?).
Qed.

Lemma set_cpus_allowed_ok held k m flags dest s suf :
  inv held s → list_of (todo s) (Caller k) = [] → (flags = SCA_MIGRATE_ENABLE → run (task s) = Running) → (∀ z, final k (suf z)) →
  ∃ s1 l ret, __set_cpus_allowed_ptr k m flags dest s = Ok (s1, l, ret) ∧ todo s1 = todo s ∧
    inv held (set_list (Caller k) (l ++ suf ret) s1).
Proof.
  intros HI El Hrun Hsuf. unfold __set_cpus_allowed_ptr.
  assert (∀ ret, ∃ s1 l ret', Ok (s, [], ret) = Ok (s1, l, ret') ∧ todo s1 = todo s ∧
    inv held (set_list (Caller k) (l ++ suf ret') s1)) as Hnone.
  { intros ret. eexists _, _, _. split; [done|]. split; [done|]. by apply (call_none held s k (suf ret) HI El). }
  destruct (_ && _); [apply Hnone|]. case_decide; [apply Hnone|]. case_decide; [apply Hnone|]. case_decide; [apply Hnone|].
  set (s0 := with_task (__do_set_cpus_allowed m flags (task s)) s).
  destruct (set_common_same m flags (task s)) as [Hm Hu].
  assert (inv held s0) as HI0 by (apply (inv_frame held s s0 HI); try done; apply HI).
  assert (flags = SCA_MIGRATE_ENABLE → run (task s0) = Running) as Hrun0.
  { intros Hf. subst s0. unfold __do_set_cpus_allowed, set_cpus_allowed_common. simpl. rewrite decide_True by auto. auto. }
  destruct (affine_move_task_cases k dest flags s0 (installed_alive held s0 HI0) Hrun0) as (s1 & l & ret & E & Ha & Hrest).
  eexists _, _, _. split; [exact E|]. split; [apply Hrest|]. by apply (affined_ok held k dest flags s0 s1 l (suf ret) HI0 El Ha Hrest).
Qed.

Lemma remove1_in {A} `{EqDecision A} (x : A) l l' : remove1 x l = Some l' → x ∈ l ∧ (∀ y, y ∈ l' → y ∈ l).
Proof.
  revert l'. induction l as [|y l IH]; intros l'; simpl; [done|]. case_decide as E.
  - intros [= <-]. subst. split; [left|by right].
  - destruct (remove1 x l) as [l0|]; [|done]. intros [= <-]. destruct (IH l0 eq_refl) as [Hx Hl].
    split; [by right|]. intros z [->|Hz]%elem_of_cons; [left|right; auto].
Qed.

Lemma stopper_start_ok held s w arg l :
  inv held s → list_of (todo s) (Stopper w) = [] → remove1 (w, arg) (works s) = Some l →
  inv held (set_list (Stopper w) [FlushSmpCallFunction w; MigrationCpuStop w arg] (with_works l s)).
Proof.
  intros HI El Erm. pose proof (inv_works _ _ HI) as Hworks. rewrite Forall_forall in Hworks.
  destruct (remove1_in _ _ _ Erm) as [Hin Hsub].
  apply (rebuild held s _ (Stopper w) [FlushSmpCallFunction w; MigrationCpuStop w arg] HI);
    cbn [todo pendings works pushes push_busy task set_list with_todo with_works]; try done.
  - intros x. rewrite El. simpl. pose proof (sync_good _ _ (inv_sync _ _ HI x)) as Hg.
    rewrite (queued_remove x w arg _ _ Erm) in Hg. unfold installed in *.
    replace (_ - 0 + (_ + _) + queued x l) with
      (total (stops x) (todo s) + ((if bool_decide (arg_pending arg = Some x) then 1 else 0) + queued x l)) by lia.
    replace (total (completes x) _ - 0 + _) with (total (completes x) (todo s)) by lia.
    replace (total (decs x) _ - 0 + _) with (total (decs x) (todo s)) by lia. done.
  - eauto.
  - eauto.
  - simpl. repeat split; try done. by apply (Hworks (w, arg)).
  - intros v. rewrite El. simpl. rewrite <- (inv_push _ _ HI v). lia.
  - apply HI.
  - apply Forall_forall. auto.
Qed.

Lemma push_start_ok held s w l :
  inv held s → list_of (todo s) (Stopper w) = [] → remove1 w (pushes s) = Some l →
  inv held (set_list (Stopper w) [PushCpuStop w] (with_pushes l s)).
Proof.
  intros HI El Erm.
  apply (rebuild held s _ (Stopper w) [PushCpuStop w] HI);
    cbn [todo pendings works pushes push_busy task set_list with_todo with_pushes]; try done.
  - intros x. rewrite El. simpl. pose proof (sync_good _ _ (inv_sync _ _ HI x)) as Hg. unfold installed in *.
    replace (_ - 0 + (0 + 0) + queued x _) with (total (stops x) (todo s) + queued x (works s)) by lia.
    replace (total (completes x) _ - 0 + _) with (total (completes x) (todo s)) by lia.
    replace (total (decs x) _ - 0 + _) with (total (decs x) (todo s)) by lia. done.
  - eauto.
  - eauto.
  - intros v. rewrite El. simpl. rewrite <- (inv_push _ _ HI v), (times_remove v w _ _ Erm). lia.
  - apply HI.
  - apply HI.
Qed.

Lemma queue_push_ok held s w :
  inv held s → w ∉ push_busy s → w ∉ pushes s →
  inv held (with_pushes (pushes s ++ [w]) (with_push_busy ({[w]} ∪ push_busy s) (with_task (with_usage (usage (task s) + 1) (task s)) s))).
Proof.
  intros [I1 I2 I3 I4 I5] Hb Hw. split; simpl; try done.
  - intros x. by destruct (I1 x) as [S1 S2 S3].
  - intros v. pose proof (I3 v) as Hv. rewrite times_app. simpl.
    repeat case_decide; repeat case_bool_decide; first [lia|set_solver].
  - rewrite I4, size_union, size_singleton by set_solver. lia.
Qed.

Lemma go_ok held s t o l any lowest r :
  inv held s → list_of (todo s) t = o :: l → run_op o any lowest s = Some r →
  ∃ s1 l1, r = Ok (s1, l1) ∧ inv held (set_list t (l1 ++ l) s1).
Proof.
  intros HI El Er. pose proof (inv_list _ _ HI t) as Hok. rewrite El in Hok.
  destruct o; simpl in Er.
  - injection Er as <-. destruct (queue_work_ok held s t _ l w x HI El Hok) as (s1 & -> & Hnew); [by left|]. by eexists _, [].
  - injection Er as <-. destruct (queue_work_ok held s t _ l (task_cpu (task s)) x HI El Hok) as (s1 & -> & Hnew); [by right|].
    by eexists _, [].
  - destruct (stop_push_ok held s t l w HI El Hok) as [Hw Hnew]. rewrite decide_False in Er by done. injection Er as <-. by eexists _, [].
  - injection Er as <-. destruct (complete_all_ok held s t l x HI El Hok) as (r0 & -> & Hnew). by eexists _, [].
  - destruct (wait_op_ok held s t l x HI El) as (r0 & Hu & Hnew). rewrite Hu in Er. destruct (done r0); [|done].
    injection Er as <-. eexists _, []. split; [done|]. by apply Hnew.
  - injection Er as <-. destruct (dec_ok held s t l x HI El) as (r0 & -> & Hnew). by eexists _, [].
  - pose proof (wait_refs_ok held s t l k HI El Hok) as Hnew. destruct (pendings s !! k) as [r0|].
    + case_decide; [|done]. injection Er as <-. eexists _, []. split; [done|]. by apply Hnew.
    + injection Er as <-. by eexists _, [].
  - injection Er as <-. eexists _, []. split; [done|]. apply (task_only_ok held s t _ l s HI El); eauto.
  - injection Er as <-. eexists _, []. split; [done|]. apply (task_only_ok held s t _ l _ HI El); eauto.
  - injection Er as <-. eexists _, []. split; [done|]. apply (task_only_ok held s t _ l _ HI El); eauto.
    + simpl. unfold sched_ttwu_pending. by case_decide.
    + simpl. unfold sched_ttwu_pending. by case_decide.
  - destruct (any_and _ _ _) eqn:Ea; [|done]. injection Er as <-.
    destruct (migration_op_ok held s t w arg any l HI El Hok Ea) as (s1 & l1 & -> & Hnew & _). eauto.
  - destruct Hok as [_ Hwf]. destruct (match lowest with Some _ => _ | None => _ end); [|done]. injection Er as <-.
    eexists _, []. split; [done|]. by apply push_cpu_stop_ok.
Qed.

Lemma do_ok held s a r : inv held s → do a s = Some r →
  (∃ s', r = Ok s' ∧ inv held s') ∨ (r = Undef BugOn ∧ ∃ choice any b, a = Wake choice any b).
Proof.
  intros HI Er. destruct a; simpl in Er.
  - case_decide as Hd; [|done]. destruct Hd as [El _]. destruct (any_and _ _ _); [|done]. injection Er as <-. left.
    destruct (set_cpus_allowed_ok held k (Mask new_mask) (if check then SCA_CHECK else SCA_NONE) dest s (λ ret, [Return ret]) HI El)
      as (s1 & l & ret & -> & _ & Hnew); [by destruct check|right; left; eauto|]. simpl. eauto.
  - case_decide as Hd; [|done]. injection Er as <-. left. eexists. split; [done|].
    apply (inv_frame held s _ HI); unfold migrate_disable; destruct (is_migration_disabled _); try done; apply HI.
  - case_decide as Hd; [|done]. destruct Hd as (El & Hrun & _). destruct (any_and _ _ _); [|done]. injection Er as <-. left.
    unfold migrate_enable. case_decide.
    { eexists. split; [done|]. apply (call_none held _ 0 []); [|done|by left].
      apply (inv_frame held s _ HI); try done; apply HI. }
    assert (inv held (with_preempt_off true s)) as HI0 by (apply (inv_frame held s _ HI); try done; apply HI).
    case_decide.
    + destruct (set_cpus_allowed_ok held 0 CpusMask SCA_MIGRATE_ENABLE dest _ (λ _, [PutPinned]) HI0 El)
        as (s1 & l & ret & -> & _ & Hnew); [done|right; by right|]. simpl. eauto.
    + eexists. split; [done|]. apply (call_none held _ 0 [PutPinned] HI0 El). right; by right.
  - case_decide; [done|]. destruct (list_of (todo s) t) as [|o l] eqn:El; [done|].
    destruct (run_op o any lowest s) as [r1|] eqn:Eo; [|done]. injection Er as <-. left.
    destruct (go_ok held s t o l any lowest r1 HI El Eo) as (s1 & l1 & -> & Hnew). simpl. eauto.
  - case_decide as Hd; [|done]. destruct Hd as [El _]. destruct (remove1 _ _) as [l|] eqn:Erm; [|done]. injection Er as <-.
    left. eexists. split; [done|]. by apply (stopper_start_ok held s w arg l HI El Erm).
  - case_decide as Hd; [|done]. destruct Hd as [El _]. destruct (remove1 _ _) as [l|] eqn:Erm; [|done]. injection Er as <-.
    left. eexists. split; [done|]. by apply (push_start_ok held s w l HI El Erm).
  - case_decide; [|done]. injection Er as <-. left. eexists. split; [done|].
    apply (inv_frame held s _ HI); try done.
    + intros x. simpl. rewrite queued_app. simpl. lia.
    + simpl. apply Forall_app. split; [apply HI|]. repeat constructor. by intros y [=].
  - case_decide as Hd; [|done]. destruct Hd as [Hb Hw]. injection Er as <-. left. eexists. split; [done|].
    by apply queue_push_ok.
  - case_decide; [|done]. injection Er as <-. left. eexists. split; [done|]. apply (inv_frame held s _ HI); try done; apply HI.
  - case_decide; [|done]. injection Er as <-. left. eexists. split; [done|].
    destruct (switch_out_same Queued (task s)). apply (inv_frame held s _ HI); try done; apply HI.
  - case_decide; [|done]. injection Er as <-. left. eexists. split; [done|].
    destruct (switch_out_same (if woken then Waking else Asleep) (task s)). apply (inv_frame held s _ HI); try done; apply HI.
  - case_decide; [|done]. destruct (any_and _ _ _); [|done]. injection Er as <-.
    destruct (wake_cases choice any wakelist (task s)) as [(p1 & -> & Hm & Hu)| ->]; [left|right; simpl; eauto].
    eexists. split; [done|]. apply (inv_frame held s _ HI); try done; apply HI.
  - case_decide; [|done]. injection Er as <-. left. eexists. split; [done|].
    apply (inv_frame held s _ HI); try done; try apply HI; simpl; unfold sched_ttwu_pending; by case_decide.
  - case_decide; [|done]. injection Er as <-. left. eexists. split; [done|]. apply (inv_frame held s _ HI); try done; apply HI.
Qed.

End protocol.
