(* ===== verification/AffinityPlaces.v ===== *)
(** Processor affinity: where the task is while requests are pending. *)
From S2P Require Import Prelude Affinity AffinityProtocol.
Local Open Scope Z_scope.

(** * Where the task is *)

(** What the other files and the comments of core.c say of the processors. *)
Class topology_ok `{topology} := {
  some_cpu : 0 < nr_cpu_ids;
  active_online : cpu_active_mask ⊆ cpu_online_mask;
  online_possible : cpu_online_mask ⊆ cpu_possible_mask;
  possible_bound : ∀ c, c ∈ cpu_possible_mask → 0 ≤ c < nr_cpu_ids;
}.

Definition puts (o : op) : bool := match o with PutPinned => true | _ => false end.

(** A task that must not migrate is bound to its processor once it has left
    it, and the processor is its own again before it may migrate; a request
    without stop work waits for this; a stopper runs instead of the task. *)
Record pin `{topology} (s : state) : Prop := {
  pin_range : 0 ≤ migration_disabled (task s) < 65536;
  pin_request : ∀ x r, migration_pending (task s) = Some x → pendings s !! x = Some r → stop_pending r = false →
    migration_disabled (task s) ≠ 0 ∧ cpus_ptr (task s) ≠ CpusMask;
  pin_off : migration_disabled (task s) ≠ 0 → run (task s) ≠ Running → cpus_ptr (task s) ≠ CpusMask;
  pin_none : migration_disabled (task s) = 0 → cpus_ptr (task s) = CpusMask;
  pin_enable : preempt_off s = true → run (task s) = Running ∧ cpus_ptr (task s) = CpusMask;
  pin_puts : total puts (todo s) = Z.b2z (preempt_off s);
  pin_stopper : ∀ w, list_of (todo s) (Stopper w) ≠ [] → running_on w (task s) = false;
  pin_mask : ∃ c, c ∈ cpus_mask (task s) ∧ c ∈ cpu_online_mask;
}.

Section places.
Context `{topology_ok}.

Lemma pin_frame s s1 :
  pin s → migration_disabled (task s1) = migration_disabled (task s) → cpus_ptr (task s1) = cpus_ptr (task s) →
  (run (task s1) = Running ↔ run (task s) = Running) →
  (run (task s) = Running → task_cpu (task s1) = task_cpu (task s)) →
  (∃ c, c ∈ cpus_mask (task s1) ∧ c ∈ cpu_online_mask) →
  (∀ x r, migration_pending (task s1) = Some x → pendings s1 !! x = Some r → stop_pending r = false →
    (∃ r0, migration_pending (task s) = Some x ∧ pendings s !! x = Some r0 ∧ stop_pending r0 = false) ∨
    (migration_disabled (task s) ≠ 0 ∧ cpus_ptr (task s) ≠ CpusMask)) →
  preempt_off s1 = preempt_off s → total puts (todo s1) = total puts (todo s) →
  (∀ w, list_of (todo s1) (Stopper w) ≠ [] → list_of (todo s) (Stopper w) ≠ [] ∨ running_on w (task s) = false) →
  pin s1.
Proof.
  intros [P1 P2 P3 P4 P5 P6 P7 P8] Em Ep Er Ec Hm Hx Eo Et Hw. split; rewrite ?Em, ?Ep, ?Eo, ?Et; try done.
  - intros x r H1 H2 H3. destruct (Hx x r H1 H2 H3) as [(r0 & ? & ? & ?)|]; eauto.
  - intros Hd Hr. apply P3; [done|]. by rewrite <- Er.
  - rewrite Er. done.
  - intros w Hl. assert (running_on w (task s) = false) as Hr by (destruct (Hw w Hl); auto).
    unfold running_on in *. apply bool_decide_eq_false in Hr. apply bool_decide_eq_false.
    intros [Hr1 Hc1]. apply Hr. apply Er in Hr1. rewrite Ec in Hc1; auto.
Qed.

Lemma switch_out_fields r p :
  migration_disabled (switch_out r p) = migration_disabled p ∧ run (switch_out r p) = r ∧
  cpus_mask (switch_out r p) = cpus_mask p ∧ task_cpu (switch_out r p) = task_cpu p ∧
  migration_pending (switch_out r p) = migration_pending p ∧
  (migration_disabled p = 0 → cpus_ptr (switch_out r p) = cpus_ptr p) ∧
  (migration_disabled p ≠ 0 → cpus_ptr (switch_out r p) ≠ CpusMask).
Proof.
  unfold switch_out, migrate_disable_switch, is_migration_disabled. case_bool_decide as Ed; simpl.
  - by case_decide.
  - done.
Qed.

Lemma switch_out_pin s r : pin s → run (task s) = Running → preempt_off s = false → r ≠ Running →
  pin (with_task (switch_out r (task s)) s).
Proof.
  intros [P1 P2 P3 P4 P5 P6 P7 P8] Hr Ho Hne.
  destruct (switch_out_fields r (task s)) as (Em & Er & Ek & Ec & Ex & E0 & E1).
  split; cbn [task with_task pendings preempt_off todo]; rewrite ?Em, ?Er, ?Ek, ?Ex, ?Ho; try done.
  - intros x q Q1 Q2 Q3. destruct (P2 x q Q1 Q2 Q3). auto.
  - auto.
  - intros Hz. rewrite E0; auto.
  - by rewrite P6, Ho.
  - intros w _. unfold running_on. rewrite Er. apply bool_decide_eq_false. by intros [].
Qed.

(** The processor that is allowed is one that is online. *)
Lemma allowed_online p c : is_cpu_allowed p c = true → c ∈ deref p (cpus_ptr p) ∧ c ∈ cpu_online_mask.
Proof.
  unfold is_cpu_allowed. case_bool_decide as Hc; [done|].
  pose proof active_online as Ha.
  destruct (is_migration_disabled p), (kthread (who p)), (kthread_is_per_cpu (who p)), (balance_push c); simpl;
    rewrite ?bool_decide_eq_true; set_solver.
Qed.

Definition same_pin (p p1 : task_struct) : Prop :=
  migration_disabled p1 = migration_disabled p ∧ cpus_ptr p1 = cpus_ptr p ∧ run p1 = run p.

Lemma do_set_same m p : same_pin p (do_set_cpus_allowed m p) ∧ who (do_set_cpus_allowed m p) = who p ∧
  (cpus_ptr p ≠ CpusMask → deref (do_set_cpus_allowed m p) (cpus_ptr (do_set_cpus_allowed m p)) = deref p (cpus_ptr p)).
Proof.
  unfold do_set_cpus_allowed, __do_set_cpus_allowed, set_cpus_allowed_common.
  rewrite decide_False by naive_solver. split; [done|]. split; [done|]. simpl. by destruct (cpus_ptr p).
Qed.

(** With a mask of one processor, where it may not run, there is none. *)
Lemma fallback_bound n st p : cpus_ptr p ≠ CpusMask →
  filter (λ c, is_cpu_allowed p c = true) (for_each_cpu (deref p (cpus_ptr p))) = [] →
  ∀ r, fallback_loop n st p ≠ Ok r.
Proof.
  revert st p. induction n as [|n IH]; intros st p Hp Hf r; [done|]. simpl. rewrite Hf.
  assert (∀ m, ∀ r, fallback_loop n (match st with cpuset => possible | _ => fail end) (do_set_cpus_allowed m p) ≠ Ok r) as Hrec.
  { intros m. destruct (do_set_same m p) as ((E1 & E2 & E3) & E4 & E5).
    apply IH; [by rewrite E2|]. rewrite E5 by done.
    rewrite <- Hf. apply list_filter_iff. intros c. unfold is_cpu_allowed, is_migration_disabled. by rewrite E5, E1, E4 by done. }
  destruct st; [apply Hrec|apply Hrec|done].
Qed.

Lemma fallback_pin n st p c p1 : fallback_loop n st p = Ok (c, p1) →
  same_pin p p1 ∧ (p1 = p ∨ (cpus_ptr p = CpusMask ∧ c ∈ cpus_mask p1 ∧ c ∈ cpu_online_mask)).
Proof.
  revert st p. induction n as [|n IH]; intros st p; [done|].
  destruct (decide (cpus_ptr p = CpusMask)) as [Hp|Hp].
  - simpl. destruct (filter _ _) as [|d l] eqn:Ef; [|intros [= -> ->]; split; [done|by left]].
    assert (∀ m st', fallback_loop n st' (do_set_cpus_allowed m p) = Ok (c, p1) →
      same_pin p p1 ∧ (p1 = p ∨ (cpus_ptr p = CpusMask ∧ c ∈ cpus_mask p1 ∧ c ∈ cpu_online_mask))) as Hrec.
    { intros m st' Hl. destruct (do_set_same m p) as ((E1 & E2 & E3) & _).
      pose proof (fallback_allowed _ _ _ _ _ Hl) as Ha. destruct (IH _ _ Hl) as [(F1 & F2 & F3) _].
      split; [split; [congruence|split; congruence]|]. right. split; [done|].
      apply allowed_online in Ha. rewrite F2, E2, Hp in Ha. done. }
    destruct st; [apply Hrec|apply Hrec|done].
  - intros Hl. simpl in Hl. destruct (filter _ _) as [|d l] eqn:Ef; [|injection Hl as -> ->; split; [done|by left]].
    exfalso. apply (fallback_bound (S n) st p Hp Ef (c, p1)). simpl. by rewrite Ef.
Qed.

Lemma wake_pin choice any b p p1 : try_to_wake_up choice any b p = Ok p1 →
  (∃ c, c ∈ cpus_mask p ∧ c ∈ cpu_online_mask) →
  migration_disabled p1 = migration_disabled p ∧ cpus_ptr p1 = cpus_ptr p ∧ run p1 ≠ Running ∧
  (∃ c, c ∈ cpus_mask p1 ∧ c ∈ cpu_online_mask).
Proof.
  unfold try_to_wake_up. intros E Hm.
  destruct (select_task_rq choice any p) as [[c p2]| |] eqn:Es; [|done|done]. simpl in E. injection E as <-.
  assert (same_pin p p2 ∧ ∃ c, c ∈ cpus_mask p2 ∧ c ∈ cpu_online_mask) as [(E1 & E2 & E3) Hm2].
  { unfold select_task_rq in Es. destruct (is_cpu_allowed p _); simpl in Es; [by injection Es as <- <-|].
    assert (∀ n st, fallback_loop n st p = Ok (c, p2) → same_pin p p2 ∧ ∃ c, c ∈ cpus_mask p2 ∧ c ∈ cpu_online_mask) as Hf.
    { intros n st Hl. destruct (fallback_pin _ _ _ _ _ Hl) as [Hs [->|(_ & H1 & H2)]]; [done|]. split; [done|]. by exists c. }
    unfold select_fallback_rq in Es. destruct (node_mask _); [|by eapply Hf].
    destruct (filter _ _); [by eapply Hf|by injection Es as <- <-]. }
  case_decide; simpl; (split; [done|]); (split; [done|]); (split; [by destruct b|done]).
Qed.

(** An operation that leaves the task alone. *)
Lemma pin_lists s s1 : pin s → task s1 = task s → preempt_off s1 = preempt_off s →
  total puts (todo s1) = total puts (todo s) →
  (∀ w, list_of (todo s1) (Stopper w) ≠ [] → list_of (todo s) (Stopper w) ≠ [] ∨ running_on w (task s) = false) →
  (∀ x r, migration_pending (task s) = Some x → pendings s1 !! x = Some r → stop_pending r = false →
    ∃ r0, pendings s !! x = Some r0 ∧ stop_pending r0 = false) → pin s1.
Proof.
  intros HP Et Eo Ep Hw Hx. apply (pin_frame s s1 HP); rewrite ?Et; try done; [apply HP|].
  intros x r Hm Hr Hs. left. destruct (Hx x r Hm Hr Hs) as (r0 & ? & ?). eauto.
Qed.

Lemma stopper_lists s t l l' w :
  list_of (todo s) t = l → (l' ≠ [] → l ≠ []) →
  list_of (<[t := l']> (todo s)) (Stopper w) ≠ [] → list_of (todo s) (Stopper w) ≠ [].
Proof. intros El Hl. rewrite list_of_set. case_decide as E; [subst t; rewrite El; done|done]. Qed.

Lemma push_cpu_stop_fields w lowest s :
  let p := task (push_cpu_stop w lowest s) in
  migration_disabled p = migration_disabled (task s) ∧ cpus_ptr p = cpus_ptr (task s) ∧ run p = run (task s) ∧
  cpus_mask p = cpus_mask (task s) ∧ migration_pending p = migration_pending (task s) ∧
  (task_cpu p = task_cpu (task s) ∨ is_Some lowest ∧ task_cpu (task s) = w).
Proof.
  unfold push_cpu_stop. simpl. case_decide; simpl; [by repeat split; auto|]. destruct (is_migration_disabled _); simpl; [by repeat split; auto|].
  destruct lowest; simpl; [|by repeat split; auto]. repeat split; try done. right. split; [by eexists|]. first [done|by apply dec_stable].
Qed.

Lemma go_pin held s t o l any lowest s1 l1 :
  inv held s → pin s → list_of (todo s) t = o :: l → (t = self → run (task s) = Running) →
  run_op o any lowest s = Some (Ok (s1, l1)) → pin (set_list t (l1 ++ l) s1).
Proof.
  intros HI HP El Hself Er. pose proof (inv_list _ _ HI t) as Hok. rewrite El in Hok.
  assert (∀ s1 l1, todo s1 = todo s → occ puts l1 = (if puts o then 1 else 0) →
    total puts (todo (set_list t (l1 ++ l) s1)) = total puts (todo s)) as Hputs.
  { intros s2 l2 E2 Hp. simpl. rewrite total_insert, E2, El, occ_app, Hp. simpl. lia. }
  assert (∀ s1 l1 w, todo s1 = todo s → list_of (todo (set_list t (l1 ++ l) s1)) (Stopper w) ≠ [] →
    list_of (todo s) (Stopper w) ≠ [] ∨ running_on w (task s) = false) as Hstop.
  { intros s2 l2 w E2. simpl. rewrite E2. intros Hl. left. by apply (stopper_lists s t (o :: l) (l2 ++ l) w El). }
  assert (∀ s1, task s1 = task s → todo s1 = todo s → preempt_off s1 = preempt_off s → puts o = false →
    (∀ x r, migration_pending (task s) = Some x → pendings s1 !! x = Some r → stop_pending r = false →
      ∃ r0, pendings s !! x = Some r0 ∧ stop_pending r0 = false) → pin (set_list t ([] ++ l) s1)) as Hlists.
  { intros s2 E1 E2 E3 Ho Hx. apply (pin_lists s _ HP); try done; [apply Hputs; [done|by rewrite Ho]|].
    intros w. by apply Hstop. }
  assert (∀ x r0 r1, pendings s !! x = Some r0 → stop_pending r1 = stop_pending r0 →
    ∀ y r, migration_pending (task s) = Some y → <[x := r1]> (pendings s) !! y = Some r → stop_pending r = false →
    ∃ r0, pendings s !! y = Some r0 ∧ stop_pending r0 = false) as Hins.
  { intros x r0 r1 Hr Hs y r _ Hy Hf. apply lookup_insert_Some in Hy as [[-> <-]|[_ Hy]]; [|eauto]. exists r0. by rewrite <- Hs. }
  assert (∀ s2, todo s2 = todo s → preempt_off s2 = preempt_off s → pendings s2 = pendings s → puts o = false →
    migration_disabled (task s2) = migration_disabled (task s) → cpus_ptr (task s2) = cpus_ptr (task s) →
    (run (task s2) = Running ↔ run (task s) = Running) → (run (task s) = Running → task_cpu (task s2) = task_cpu (task s)) →
    (∃ c, c ∈ cpus_mask (task s2) ∧ c ∈ cpu_online_mask) → migration_pending (task s2) = migration_pending (task s) →
    pin (set_list t ([] ++ l) s2)) as Htask.
  { intros s2 E1 E2 E3 Ho T1 T2 T3 T4 T5 T6. apply (pin_frame s _ HP); cbn [task set_list with_todo pendings preempt_off]; try done.
    - rewrite E3, T6. intros x r Hm Hr Hs. left. eauto.
    - apply Hputs; [done|by rewrite Ho].
    - intros w. by apply Hstop. }
  destruct o; simpl in Er.
  all: unfold queue_work, use in Er; simpl in Er.
  - destruct (pendings s !! x) as [r|]; simpl in Er; [|done]. case_decide; [done|]. injection Er as <- <-. apply Hlists; eauto.
  - destruct (pendings s !! x) as [r|]; simpl in Er; [|done]. case_decide; [done|]. injection Er as <- <-. apply Hlists; eauto.
  - case_decide; [done|]. injection Er as <- <-. apply Hlists; eauto.
  - destruct (pendings s !! x) as [r|] eqn:Hr; simpl in Er; [|done]. injection Er as <- <-. apply Hlists; try done. by apply (Hins x r).
  - destruct (pendings s !! x) as [r|]; simpl in Er; [|done]. destruct (done r); [|done]. injection Er as <- <-. apply Hlists; eauto.
  - destruct (pendings s !! x) as [r|] eqn:Hr; simpl in Er; [|done]. injection Er as <- <-. apply Hlists; try done. by apply (Hins x r).
  - destruct (pendings s !! k) as [r|]; [case_decide; [|done]|]; injection Er as <- <-; apply Hlists; eauto.
    intros y r' _ Hy. simpl in Hy. apply lookup_delete_Some in Hy as [_ Hy]. eauto.
  - injection Er as <- <-. apply Hlists; eauto.
  - injection Er as <- <-. destruct HP as [P1 P2 P3 P4 P5 P6 P7 P8].
    assert (preempt_off s = true) as Ho.
    { destruct (preempt_off s); [done|]. simpl in P6. assert (1 ≤ total puts (todo s)); [|lia].
      apply (in_total _ _ t PutPinned); [rewrite El; left|done]. }
    destruct (P5 Ho) as [Hrun Hptr]. rewrite Ho in P6. simpl in P6.
    split; simpl; try done. 
    + intros x r H1 H2 H3. destruct (P2 x r H1 H2 H3). done.
    + rewrite total_insert, El. simpl. lia.
    + intros w Hw. apply (P7 w). by apply (stopper_lists s t (PutPinned :: l) l w El).
  - injection Er as <- <-. apply Htask; try done; simpl; unfold sched_ttwu_pending; (case_decide as Hd; [|by try apply HP]);
      simpl; try done; [destruct Hd as [-> _]; done|apply HP].
  - destruct (any_and _ _ _) eqn:Hany; [|done]. injection Er as Er. destruct Hok as (-> & Harg & Hwf).
    assert (running_on w (task s) = false) as Hnr by (apply (pin_stopper s HP); by rewrite El).
    apply bool_decide_eq_false in Hnr.
    assert (∀ s2 l2, kept (task s) (task s2) → todo s2 = todo s → preempt_off s2 = preempt_off s → occ puts l2 = 0 →
      (task_cpu (task s2) = task_cpu (task s) ∨ task_cpu (task s) = w) →
      (∀ x r, migration_pending (task s2) = Some x → pendings s2 !! x = Some r → stop_pending r = false →
        (∃ r0, migration_pending (task s) = Some x ∧ pendings s !! x = Some r0 ∧ stop_pending r0 = false) ∨
        (migration_disabled (task s) ≠ 0 ∧ cpus_ptr (task s) ≠ CpusMask)) →
      pin (set_list (Stopper w) (l2 ++ l) s2)) as Hkept.
    { intros s2 l2 (K1 & K2 & K3 & K4 & K5 & K6) E1 E2 E3 Hc Hx. apply (pin_frame s _ HP); cbn [task set_list with_todo todo preempt_off pendings]; try done.
      - by rewrite K1.
      - intros Hr. destruct Hc; [done|tauto].
      - rewrite K3. apply HP.
      - rewrite <- (Hputs s2 l2 E1 E3). done.
      - intros v. by apply Hstop. }
    destruct (arg_pending arg) as [x|] eqn:Ex.
    + destruct (stop_work_installed held s (Stopper w) w arg l x HI El Harg Ex) as (-> & r & Hr & Es & Hd & Hm).
      destruct (migration_cpu_stop_cases w x any s r Hr Hm Hany) as [E|(s2 & l2 & E & Hs & Es2)]; rewrite E in Er; injection Er as <- <-.
      * apply Hkept; try done; [by left|]. intros y q Hy Hq Hf. left. eauto.
      * destruct Hs as [Hc Hmd Et|Hk Hm2 _ Hc].
        -- apply Hkept; rewrite ?Et; try done; [by rewrite Es2..|by right|].
           intros y q Hy Hq Hf. right. unfold is_migration_disabled in Hmd. apply bool_decide_eq_true in Hmd. split; [done|].
           apply (pin_off s HP Hmd). tauto.
        -- apply Hkept; try done; [by rewrite Es2..|destruct Hc as [|[]]; auto|congruence].
    + destruct (none_pending_same w arg any s Ex Hany) as (p & E & Hk & Hm & Hc). rewrite E in Er. injection Er as <- <-.
      apply Hkept; try done; [destruct Hc as [|[]]; auto|]. simpl. rewrite Hm. eauto.
  - destruct (match lowest with Some _ => _ | None => _ end) eqn:Elow; [|done]. injection Er as <- <-.
    destruct (push_cpu_stop_fields w lowest s) as (F1 & F2 & F3 & F4 & F5 & F6).
    apply Htask; try done; [by rewrite F3| |rewrite F4; apply HP].
    intros Hr. destruct F6 as [|[[c ->] _]]; [done|]. apply bool_decide_eq_true in Elow as [Eq _]. congruence.
Qed.

Lemma affined_summary k dest flags s s1 l : affined k dest flags s s1 l →
  in_place (task s) (task s1) ∧ (run (task s) = Running → task_cpu (task s1) = task_cpu (task s)) ∧ occ puts l = 0 ∧
  (∀ x r, migration_pending (task s1) = Some x → pendings s1 !! x = Some r → stop_pending r = false →
    flags ≠ SCA_MIGRATE_ENABLE ∧ migration_disabled (task s) ≠ 0 ∧ run (task s) ≠ Running).
Proof.
  assert (∀ p, kept (task s) p → in_place (task s) p) as Hkp by (intros p (? & ? & ? & ? & ? & ?); done).
  assert (∀ l, pushed s s1 l → occ puts l = 0) as Hpu by by intros l0 [(-> & _)|(w & -> & _)].
  destruct 1 as [l _ Hi Ec Ep Hp Em Hs|l x r _ Hi Ec Ep Hp Em Hr Hs Em1|_ _ Em ->|x r _ _ _ _ Hk Ec _ Em Ep|
    x r _ Hf Hr1 _ _ Hd Hk _ Em Ep|x r _ Hf Hr1 _ _ _ _ Hk _ _ Em _].
  - split; [done|]. split; [auto|]. split; [auto|]. intros x r Hm Hr Hz. rewrite Em in Hm. rewrite Ep in Hr.
    rewrite (Hs x r Hm Hr) in Hz. done.
  - split; [done|]. split; [auto|]. split; [rewrite occ_app, (Hpu l Hp); done|]. intros y q Hm. congruence.
  - split; [done|]. split; [auto|]. split; [done|]. intros y q Hm. congruence.
  - split; [auto|]. split; [auto|]. split.
    { destruct (stop_pending r); case_decide; done. }
    intros y q Hm Hq Hz. rewrite Em in Hm. injection Hm as <-. rewrite Ep, lookup_insert_eq in Hq. by injection Hq as <-.
  - split; [auto|]. split; [done|]. split; [done|]. intros y q Hm Hq Hz. rewrite Em in Hm. injection Hm as <-.
    rewrite Ep, lookup_insert_eq in Hq. injection Hq as <-. destruct Hd as [[Hd _]|Hd]; [|congruence].
    unfold is_migration_disabled in Hd. apply bool_decide_eq_true in Hd. done.
  - split; [auto|]. split; [done|]. split; [done|]. intros y q Hm. congruence.
Qed.

Lemma caller_lists s k l w : list_of (<[Caller k := l]> (todo s)) (Stopper w) = list_of (todo s) (Stopper w).
Proof. rewrite list_of_set. by rewrite decide_False. Qed.

(** What a call does when it changes the mask: the state in which the region
    of [affine_move_task] begins. *)
Lemma any_and_bound m1 m2 d : any_and m1 m2 d = true → nr_cpu_ids ≤ d ∨ (d ∈ m1 ∧ d ∈ m2).
Proof. unfold any_and. case_decide; intros Hd%bool_decide_eq_true; [by left|right; set_solver]. Qed.

Lemma valid_online p c : c ∈ cpu_valid_mask p → c ∈ cpu_online_mask.
Proof. unfold cpu_valid_mask. pose proof active_online. destruct (_ || _); set_solver. Qed.

Lemma put_is_self held s t : inv held s → PutPinned ∈ list_of (todo s) t → t = self.
Proof.
  intros HI Hin. pose proof (inv_list _ _ HI t) as Hok.
  assert (∀ l, wf t l → PutPinned ∈ l → t = self) as Hwf.
  { intros l. induction l as [l IH] using (well_founded_induction (well_founded_ltof _ length)). unfold ltof in IH.
    destruct l as [|o l]; [by intros _ ?%elem_of_nil|]. intros Hl [<-|Hl']%elem_of_cons; [by apply Hl|].
    assert (wf t l → t = self) as Hrec by (intros; apply (IH l); [simpl; lia|done|done]).
    destruct o; simpl in Hl; try tauto. destruct l as [|[] l]; try done. apply elem_of_cons in Hl' as [|Hl']; [done|].
    apply (IH l); [simpl; lia|tauto|done]. }
  unfold ok_list in Hok. destruct (list_of (todo s) t) as [|o l]; [by apply elem_of_nil in Hin|].
  destruct o; try (by apply (Hwf _ Hok Hin)). destruct Hok as (_ & _ & Hl). apply elem_of_cons in Hin as [|Hin]; [done|]. eauto.
Qed.

Lemma set_allowed_pin held k m flags dest s s1 l ret suf :
  inv held s → pin s → flags ≠ SCA_MIGRATE_ENABLE → flags ≠ SCA_MIGRATE_DISABLE → any_and (cpu_valid_mask (task s)) m dest = true →
  list_of (todo s) (Caller k) = [] → occ puts suf = 0 →
  __set_cpus_allowed_ptr k (Mask m) flags dest s = Ok (s1, l, ret) → pin (set_list (Caller k) (l ++ suf) s1).
Proof.
  intros HI HP Hf1 Hf2 Hany El Hsuf. unfold __set_cpus_allowed_ptr.
  assert (∀ z, Ok (s, [], z) = Ok (s1, l, ret) → pin (set_list (Caller k) (l ++ suf) s1)) as Hnone.
  { intros z [= <- <- _]. simpl. apply (pin_lists s _ HP); try done; [|intros w; simpl; rewrite caller_lists; auto|eauto].
    simpl. rewrite total_insert, El, Hsuf. simpl. lia. }
  destruct (_ && _); [apply Hnone|]. case_decide; [apply Hnone|]. case_decide; [apply Hnone|]. case_decide as Hd; [apply Hnone|].
  intros E. apply any_and_bound in Hany as [|[Hv Hm]]; [done|].
  set (s0 := with_task (__do_set_cpus_allowed (Mask m) flags (task s)) s) in E.
  assert (task s0 = with_nr_cpus_allowed (cpumask_weight m) (with_cpus_mask m (task s))) as E0.
  { subst s0. unfold __do_set_cpus_allowed, set_cpus_allowed_common. simpl. by rewrite decide_False by naive_solver. }
  assert (inv held s0) as HI0.
  { apply (inv_frame held s s0 HI); try done; rewrite ?E0; try done; apply HI. }
  destruct (affine_move_task_cases k dest flags s0) as (s2 & l2 & r2 & E2 & Ha & Hrest); [by apply (installed_alive held)|done|].
  rewrite E in E2. injection E2 as <- <- <-. destruct Hrest as (T1 & _ & _ & _ & T2).
  destruct (affined_summary _ _ _ _ _ _ Ha) as ((A1 & A2 & A3 & A4 & _) & A5 & A6 & A7).
  rewrite E0 in *. simpl in *. apply (pin_frame s _ HP); cbn [task set_list with_todo todo preempt_off pendings]; try done.
  - by rewrite A1.
  - rewrite A3. exists dest. split; [done|]. by apply valid_online in Hv.
  - intros x r Hx Hr Hs. right. destruct (A7 x r Hx Hr Hs) as (_ & B1 & B2). split; [done|]. by apply (pin_off s HP).
  - rewrite T1. rewrite total_insert, El, occ_app, A6, Hsuf. simpl. lia.
  - intros w. rewrite T1, caller_lists. auto.
Qed.

Lemma migrate_enable_pin held dest s s1 l :
  inv held s → pin s → any_and (cpu_valid_mask (task s)) (cpus_mask (task s)) dest = true → list_of (todo s) self = [] →
  run (task s) = Running → migration_disabled (task s) ≠ 0 → migrate_enable dest s = Ok (s1, l) → pin (set_list self l s1).
Proof.
  intros HI HP Hany El Hrun Hmd. unfold migrate_enable.
  assert (preempt_off s = false) as Ho.
  { pose proof (pin_puts s HP) as Hp. destruct (preempt_off s); [|done]. simpl in Hp.
    destruct (total_pos puts (todo s)) as (t & o & Hin & Ho); [lia|]. destruct o; try done.
    pose proof (put_is_self held s t HI Hin) as ->. rewrite El in Hin. by apply elem_of_nil in Hin. }
  pose proof (pin_puts s HP) as Hp. rewrite Ho in Hp. simpl in Hp. destruct HP as [P1 P2 P3 P4 P5 P6 P7 P8].
  case_decide as H1.
  { intros [= <- <-]. split; cbn [task set_list with_todo todo preempt_off pendings with_task with_migration_disabled migration_disabled
      cpus_ptr run cpus_mask migration_pending]; try done; try lia; eauto.
    - intros x r B1 B2 B3. destruct (P2 x r B1 B2 B3). split; [lia|done].
    - rewrite total_insert, El. simpl. lia.
    - intros w. unfold self. rewrite caller_lists. exact (P7 w). }
  set (s0 := with_preempt_off true s).
  assert (inv held s0) as HI0 by (apply (inv_frame held s s0 HI); try done; apply HI).
  case_decide as H2.
  - assert (dest ∈ cpu_online_mask ∧ dest ∈ cpus_mask (task s)) as [Hv Hm].
    { assert (cpu_valid_mask (task s) = cpu_online_mask) as Ev.
      { unfold cpu_valid_mask, is_migration_disabled. by rewrite bool_decide_true, orb_true_r. }
      unfold any_and in Hany. rewrite Ev in Hany. destruct P8 as (c & C1 & C2).
      case_decide as Hemp; [set_solver|]. apply bool_decide_eq_true in Hany. set_solver. }
    assert (dest < nr_cpu_ids) as Hb by (apply possible_bound, online_possible, Hv).
    unfold __set_cpus_allowed_ptr. rewrite bool_decide_false by done. simpl.
    rewrite decide_False by lia.
    set (s1' := with_task (__do_set_cpus_allowed CpusMask SCA_MIGRATE_ENABLE (task s)) s0).
    assert (task s1' = with_cpus_ptr CpusMask (task s)) as E1 by done.
    assert (inv held s1') as HI1 by (apply (inv_frame held s0 s1' HI0); try done; apply HI0).
    destruct (affine_move_task_cases 0 dest SCA_MIGRATE_ENABLE s1') as (s2 & l2 & r2 & E2 & Ha & Hrest);
      [by apply (installed_alive held)|done|].
    rewrite E2. simpl. intros [= <- <-]. destruct Hrest as (T1 & _ & _ & _ & T2).
    destruct (affined_summary _ _ _ _ _ _ Ha) as ((A1 & A2 & A3 & A4 & _) & A5 & A6 & A7). rewrite E1 in *. simpl in *.
    split; cbn [task set_list with_todo todo preempt_off pendings]; rewrite ?A1, ?A2, ?A3, ?A4; try done; try lia.
    + intros x r Hx Hr Hs. by destruct (A7 x r Hx Hr Hs).
    + rewrite T1. simpl. rewrite total_insert, El, occ_app, A6, T2. simpl. lia.
    + intros w. rewrite T1. unfold self; simpl. rewrite caller_lists. intros Hw. specialize (P7 w Hw). unfold running_on in *.
      rewrite A1, A5 by done. done.
  - intros [= <- <-].
    split; cbn [task set_list with_todo todo preempt_off pendings with_preempt_off s0]; try done.
    + rewrite total_insert, El. simpl. lia.
    + intros w. unfold self. rewrite caller_lists. exact (P7 w).
Qed.

Lemma start_total f : total f ∅ = 0.
Proof. done. Qed.

Lemma do_pin held s a s' : inv held s → pin s → countable a s → do a s = Some (Ok s') → pin s'.
Proof.
  intros HI HP Hcount E. pose proof (pin_mask s HP) as HM.
  assert (∀ p, migration_disabled p = migration_disabled (task s) → cpus_ptr p = cpus_ptr (task s) →
    (run p = Running ↔ run (task s) = Running) → (run (task s) = Running → task_cpu p = task_cpu (task s)) →
    (∃ c, c ∈ cpus_mask p ∧ c ∈ cpu_online_mask) → migration_pending p = migration_pending (task s) →
    pin (with_task p s)) as Htask.
  { intros p T1 T2 T3 T4 T5 T6. apply (pin_frame s _ HP); cbn [task with_task pendings preempt_off todo]; try done.
    - rewrite T6. eauto.
    - auto. }
  destruct a; simpl in E.
  - case_decide as Hd; [|done]. destruct Hd as [El _]. destruct (any_and _ _ _) eqn:Hany; [|done]. injection E as E.
    destruct (__set_cpus_allowed_ptr _ _ _ _ _) as [[[s1 l] ret]| |] eqn:Es; [|done|done]. injection E as <-.
    apply (set_allowed_pin held k new_mask (if check then SCA_CHECK else SCA_NONE) dest s s1 l ret [Return ret] HI HP); try done; by destruct check.
  - case_decide as Hd; [|done]. destruct Hd as [El Hrun]. injection E as <-. unfold countable in Hcount. specialize (Hcount eq_refl).
    destruct HP as [P1 P2 P3 P4 P5 P6 P7 P8]. unfold migrate_disable, is_migration_disabled. case_bool_decide as Hmd.
    + assert (wrapu16 (migration_disabled (task s) + 1) = migration_disabled (task s) + 1) as Ew by (apply Z.mod_small; lia).
      split; cbn [task with_task with_migration_disabled migration_disabled cpus_ptr run pendings migration_pending preempt_off todo cpus_mask];
        rewrite ?Ew; try done; try lia.
      intros x r B1 B2 B3. destruct (P2 x r B1 B2 B3). split; [lia|done].
    + split; simpl; try done. intros x r B1 B2 B3. by destruct (P2 x r B1 B2 B3).
  - case_decide as Hd; [|done]. destruct Hd as (El & Hrun & Hmd). destruct (any_and _ _ _) eqn:Hany; [|done]. injection E as E.
    destruct (migrate_enable dest s) as [[s1 l]| |] eqn:Es; [|done|done]. injection E as <-. by apply (migrate_enable_pin held dest s).
  - case_decide as Hd; [done|]. destruct (list_of (todo s) t) as [|o l] eqn:El; [done|].
    destruct (run_op o any lowest s) as [[[s1 l1]| |]|] eqn:Eo; [|done|done|done]. injection E as <-.
    apply (go_pin held s t o l any lowest s1 l1 HI HP El); [|done]. intros ->. apply dec_stable. tauto.
  - case_decide as Hd; [|done]. destruct Hd as [El Hr]. destruct (remove1 _ _) as [l|]; [|done]. injection E as <-.
    apply (pin_lists s _ HP); try done; [|intros v|eauto].
    + simpl. rewrite total_insert, El. simpl. lia.
    + simpl. rewrite list_of_set. case_decide as Ev; [injection Ev as <-; by right|by left].
  - case_decide as Hd; [|done]. destruct Hd as [El Hr]. destruct (remove1 _ _) as [l|]; [|done]. injection E as <-.
    apply (pin_lists s _ HP); try done; [|intros v|eauto].
    + simpl. rewrite total_insert, El. simpl. lia.
    + simpl. rewrite list_of_set. case_decide as Ev; [injection Ev as <-; by right|by left].
  - case_decide; [|done]. injection E as <-. apply (pin_lists s _ HP); try done; [auto|eauto].
  - case_decide; [|done]. injection E as <-. apply (pin_frame s _ HP); try done; [eauto|auto].
  - case_decide as Hd; [|done]. destruct Hd as [Hq Hs]. injection E as <-. destruct HP as [P1 P2 P3 P4 P5 P6 P7 P8].
    split; simpl; try done.
    + intros Ho. destruct (P5 Ho). congruence.
    + intros w Hw. unfold running_on. apply bool_decide_eq_false. intros [_ Hc]. simpl in Hc. congruence.
  - case_decide as Hd; [|done]. destruct Hd. injection E as <-. by apply switch_out_pin.
  - case_decide as Hd; [|done]. destruct Hd. injection E as <-. apply switch_out_pin; try done. by destruct woken.
  - case_decide as Hr; [|done]. destruct (any_and _ _ _); [|done]. injection E as E.
    destruct (try_to_wake_up choice any wakelist (task s)) as [p1| |] eqn:Ew; [|done|done]. injection E as <-.
    destruct (wake_pin _ _ _ _ _ Ew HM) as (W1 & W2 & W3 & W4).
    apply Htask; try done; [by rewrite Hr|by rewrite Hr|].
    destruct (wake_cases choice any wakelist (task s)) as [(p2 & E2 & W5 & _)|E2]; rewrite Ew in E2; [injection E2 as ->; done|done].
  - case_decide as Hr; [|done]. injection E as <-. unfold sched_ttwu_pending.
    apply Htask; case_decide; simpl; try done; by rewrite Hr.
  - case_decide as Hd; [|done]. destruct Hd as [Hq _]. injection E as <-. apply Htask; try done. by rewrite Hq.
Qed.

Lemma start_ok c m i held : (∃ d, d ∈ m ∧ d ∈ cpu_online_mask) → inv held (start c m i held) ∧ pin (start c m i held).
Proof.
  intros Hm. split; split; try done.
  cbn [usage task start push_busy]. rewrite size_empty. lia.
Qed.

Lemma reachable_ok c m i held s : (∃ d, d ∈ m ∧ d ∈ cpu_online_mask) → rtc step (start c m i held) s → inv held s ∧ pin s.
Proof.
  intros Hm Hs. destruct (start_ok c m i held Hm) as [HI HP]. revert HI HP. generalize (start c m i held) Hs. clear Hm.
  intros s0 Hs0. clear Hs. induction Hs0 as [|s1 s2 s3 (a & Hc & Ha) _ IH]; [done|].
  intros HI HP. apply IH; [|by apply (do_pin held s1 a)].
  destruct (do_ok held s1 a _ HI Ha) as [(s' & [= <-] & HI')|[[=] _]]. done.
Qed.

End places.
