(* ===== verification/AffinityProofs.v ===== *)
(** Processor affinity: no step uses a request after its end, no caller is
    forgotten, where the task is when a request is completed; and the three
    ways in which a task stays where it may not run. *)
From S2P Require Import Prelude Affinity AffinityProtocol AffinityPlaces.
Local Open Scope Z_scope.

Section properties.
Context `{topology_ok}.

(** The task as [select_fallback_rq] leaves it at its last look: with the mask
    of all possible processors. *)
Definition last_resort (p : task_struct) : task_struct := do_set_cpus_allowed cpu_possible_mask (do_set_cpus_allowed cpuset_fallback p).

Lemma fallback_fails n p : fallback_loop (S n) fail p = Undef BugOn → ∀ c, 0 ≤ c < nr_cpu_ids → is_cpu_allowed p c = false.
Proof.
  cbn [fallback_loop]. destruct (filter _ _) eqn:He; [|discriminate]. intros _ c Hc.
  destruct (is_cpu_allowed p c) eqn:Ea; [|reflexivity].
  assert (c ∈ deref p (cpus_ptr p)) as Hin.
  { unfold is_cpu_allowed in Ea. case_bool_decide as Hn; [discriminate|]. exact Hn. }
  exfalso. apply (not_elem_of_nil c). rewrite <-He. apply list_elem_of_filter. split; [exact Ea|].
  apply list_elem_of_filter. split; [exact Hin|]. by apply elem_of_seqZ.
Qed.

Lemma fallback_next n st p : fallback_loop (S n) st p = Undef BugOn → st ≠ fail →
  match st with
  | cpuset => fallback_loop n possible (do_set_cpus_allowed cpuset_fallback p)
  | _ => fallback_loop n fail (do_set_cpus_allowed cpu_possible_mask p)
  end = Undef BugOn.
Proof. cbn [fallback_loop]. destruct (filter _ _); [|discriminate]. by destruct st. Qed.

Lemma fallback_bug p : fallback_loop 3 cpuset p = Undef BugOn → ∀ c, 0 ≤ c < nr_cpu_ids → is_cpu_allowed (last_resort p) c = false.
Proof.
  intros H1. apply fallback_next in H1; [|discriminate]. apply fallback_next in H1; [|discriminate]. by apply (fallback_fails 0).
Qed.

Lemma wake_bug choice any b p : try_to_wake_up choice any b p = Undef BugOn → ∀ c, 0 ≤ c < nr_cpu_ids → is_cpu_allowed (last_resort p) c = false.
Proof.
  intros Hw. apply fallback_bug. revert Hw. unfold try_to_wake_up, select_task_rq.
  destruct (negb _); [|done]. unfold select_fallback_rq. destruct (node_mask _); [destruct (filter _ _); [|done]|];
    destruct (fallback_loop 3 cpuset p) as [[? ?]| |]; try done; by intros [= ->].
Qed.

(** C36: In any interleaving of calls, waits, stopper threads, turns, wake-ups
    and moves of the task, no step touches the record of a request after the
    caller on whose stack it is has returned, and no work is queued while it
    is queued: a step has a result, except a wake-up of the task when no processor is
    allowed for it even with the mask of all possible ones, which is a BUG. A caller leaves its record only without stop work pending, and the
    task is referenced once more for each push under way. *)
Theorem affinity_requests_safe c m i held s a r :
  (∃ d, d ∈ m ∧ d ∈ cpu_online_mask) → rtc step (start c m i held) s → do a s = Some r →
  ((∃ s', r = Ok s') ∨ (r = Undef BugOn ∧ (∃ choice any b, a = Wake choice any b) ∧
     ∀ d, 0 ≤ d < nr_cpu_ids → is_cpu_allowed (last_resort (task s)) d = false)) ∧
  (∀ k x l p, list_of (todo s) (Caller k) = WaitRefs x :: l → pendings s !! x = Some p → refs p = 0 →
    x = k ∧ stop_pending p = false) ∧
  usage (task s) = held + Z.of_nat (size (push_busy s)).
Proof.
  intros Hm Hs Ha. destruct (reachable_ok c m i held s Hm Hs) as [HI _]. split; [|split; [|apply HI]].
  - destruct (do_ok held s a r HI Ha) as [(s' & -> & _)|[-> (choice & any & b & ->)]]; [left; eauto|right].
    split; [done|]. split; [eauto|]. cbn [do] in Ha. case_decide; [|done]. destruct (any_and _ _ _); [|done]. injection Ha as Ha.
    apply (wake_bug choice any b). revert Ha. destruct (try_to_wake_up choice any b (task s)); cbn; congruence.
  - intros k x l p El Hp Hz. pose proof (inv_list _ _ HI (Caller k)) as Hok. rewrite El in Hok. destruct Hok as [[= ->] Hwf].
    split; [done|]. pose proof (wait_refs_ok held s (Caller x) l x HI El (conj eq_refl Hwf)) as Hw. rewrite Hp in Hw. by apply Hw.
Qed.

(** C38: Nobody waits in vain: whenever a caller waits for a request that is not
    completed, then either some thread is about to complete it, or its stop
    work is queued, about to be queued or running, or the task is in a region
    in which it must not migrate and is bound to its processor, so that its
    [migrate_enable] looks at the request. *)
Theorem no_request_forgotten c m i held s t x l :
  (∃ d, d ∈ m ∧ d ∈ cpu_online_mask) → rtc step (start c m i held) s →
  list_of (todo s) t = WaitForCompletion x :: l →
  ∃ r, pendings s !! x = Some r ∧
    (done r = true ∨ (∃ u, CompleteAll x ∈ list_of (todo s) u) ∨
     (∃ u o, o ∈ list_of (todo s) u ∧ stops x o = true) ∨ (∃ w, (w, arg_of x) ∈ works s) ∨
     (migration_pending (task s) = Some x ∧ migration_disabled (task s) ≠ 0 ∧ cpus_ptr (task s) ≠ CpusMask)).
Proof.
  intros Hm Hs El. destruct (reachable_ok c m i held s Hm Hs) as [HI HP].
  destruct (wait_op_ok held s t l x HI El) as (r & Hu & _). unfold use in Hu. destruct (pendings s !! x) as [r'|] eqn:Hr; [|done].
  injection Hu as ->. exists r. split; [done|]. destruct (done r) eqn:Hd; [by left|right].
  pose proof (sync_good _ _ (inv_sync _ _ HI x)) as Hg. rewrite Hr in Hg. destruct Hg as (G1 & G2 & _ & G4 & _).
  destruct (stop_pending r) eqn:Es.
  - simpl in G1. destruct (decide (0 < total (stops x) (todo s))) as [Ht|Ht].
    + right; left. destruct (total_pos _ _ Ht) as (u & o & ? & ?). eauto.
    + do 2 right. left. assert (0 < queued x (works s)) as Hq by lia.
      destruct (queued_in x (works s) Hq) as (w & a & Hin & Ha). exists w.
      pose proof (inv_works _ _ HI) as Hw. rewrite Forall_forall in Hw. by rewrite <- (Hw (w, a) Hin x Ha).
  - destruct (installed s x) eqn:Ei.
    + do 3 right. unfold installed in Ei. apply bool_decide_eq_true in Ei. split; [done|]. by apply (pin_request s HP x r).
    + left. rewrite Hd in G2. simpl in G2. destruct (total_pos (completes x) (todo s)) as (u & o & Hin & Ho); [lia|].
      exists u. destruct o; try done. by apply bool_decide_eq_true in Ho as ->.
Qed.

(** ** Completion *)

Lemma affined_placed k dest flags s s1 l x :
  affined k dest flags s s1 l → dest ∈ cpus_mask (task s) → CompleteAll x ∈ l →
  task_cpu (task s1) ∈ cpus_mask (task s1) ∨ on_rq_queued (task s1) = false.
Proof.
  intros Ha Hdest Hin. assert (∀ k y, CompleteAll x ∉ waits k y) as Hw.
  { intros k' y Hy. unfold waits in Hy. repeat (apply elem_of_cons in Hy as [Hy|Hy]; [done|]). by apply elem_of_nil in Hy. }
  destruct Ha as [l _ Hi Ec _ Hp _ _|l y r Hc Hi Ec _ _ _ _ _ _|_ _ _ _|y r _ _ _ _ _ _ _ _ _|y r _ _ _ _ _ _ _ _ _ _|
    y r _ _ _ _ _ _ _ Hk Hd _ _ _].
  - exfalso. destruct Hp as [(-> & _)|(w & -> & _)]; [by apply elem_of_nil in Hin|].
    apply list_elem_of_singleton in Hin. done.
  - left. destruct Hi as (_ & _ & -> & _). by rewrite Ec.
  - by apply elem_of_nil in Hin.
  - exfalso. apply elem_of_app in Hin as [Hin|Hin].
    + destruct (stop_pending r); [by apply elem_of_nil in Hin|]. apply list_elem_of_singleton in Hin. done.
    + case_decide; [by apply elem_of_nil in Hin|]. by apply Hw in Hin.
  - by apply Hw in Hin.
  - destruct Hd as [Hd|Hd]; [left|by right]. destruct Hk as (_ & _ & -> & _). by rewrite Hd.
Qed.

(** A region that a caller runs ends with the task in its place. *)
Lemma set_allowed_placed held k m flags dest s s1 l ret x :
  inv held s → flags = SCA_NONE ∨ flags = SCA_CHECK → any_and (cpu_valid_mask (task s)) m dest = true →
  __set_cpus_allowed_ptr k (Mask m) flags dest s = Ok (s1, l, ret) → CompleteAll x ∈ l →
  task_cpu (task s1) ∈ cpus_mask (task s1) ∨ on_rq_queued (task s1) = false.
Proof.
  intros HI Hf Hany E Hin. unfold __set_cpus_allowed_ptr in E.
  assert (∀ z : Z, Ok (s, [], z) = Ok (s1, l, ret) → False) as Hnone.
  { intros z [= _ <- _]. by apply elem_of_nil in Hin. }
  destruct (_ && _); [by apply Hnone in E|]. case_decide; [by apply Hnone in E|]. case_decide; [by apply Hnone in E|].
  case_decide as Hd; [by apply Hnone in E|]. apply any_and_bound in Hany as [|[_ Hm]]; [done|].
  set (s0 := with_task (__do_set_cpus_allowed (Mask m) flags (task s)) s) in E.
  assert (inv held s0) as HI0.
  { destruct (set_common_same (Mask m) flags (task s)). apply (inv_frame held s s0 HI); try done; apply HI. }
  destruct (affine_move_task_cases k dest flags s0 (installed_alive held s0 HI0)) as (s2 & l2 & r2 & E2 & Ha & _);
    [by destruct Hf as [->| ->]|].
  rewrite E in E2. injection E2 as <- <- <-. apply (affined_placed k dest flags s0 s1 l x Ha); [|done].
  subst s0. unfold __do_set_cpus_allowed, set_cpus_allowed_common. simpl. rewrite decide_False by (destruct Hf as [->| ->]; naive_solver). done.
Qed.

Lemma migrate_enable_placed held dest s s1 l x :
  inv held s → any_and (cpu_valid_mask (task s)) (cpus_mask (task s)) dest = true → run (task s) = Running →
  migrate_enable dest s = Ok (s1, l) → CompleteAll x ∈ l →
  task_cpu (task s1) ∈ cpus_mask (task s1) ∨ on_rq_queued (task s1) = false.
Proof.
  intros HI Hany Hrun E Hin. unfold migrate_enable in E. case_decide; [injection E as <- <-; by apply elem_of_nil in Hin|].
  case_decide; [|injection E as <- <-; apply list_elem_of_singleton in Hin; done].
  unfold __set_cpus_allowed_ptr in E. simpl in E. case_decide as Hd.
  { injection E as <- <-. apply list_elem_of_singleton in Hin. done. }
  apply any_and_bound in Hany as [|[_ Hm]]; [done|].
  set (s0 := with_task _ _) in E.
  assert (inv held s0) as HI0 by (apply (inv_frame held s s0 HI); try done; apply HI).
  destruct (affine_move_task_cases 0 dest SCA_MIGRATE_ENABLE s0 (installed_alive held s0 HI0)) as (s2 & l2 & r2 & E2 & Ha & _); [done|].
  rewrite E2 in E. injection E as <- <-. apply elem_of_app in Hin as [Hin|Hin%list_elem_of_singleton]; [|done].
  by apply (affined_placed 0 dest SCA_MIGRATE_ENABLE s0 s2 l2 x Ha).
Qed.

Ltac cases_of x Hr :=
  repeat (simpl; rewrite ?Hr, ?lookup_insert_eq; match goal with
    | |- context [if decide ?P then _ else _] => destruct (decide P)
    | |- context [if is_migration_disabled ?p then _ else _] => destruct (is_migration_disabled p)
    | |- context [if stop_pending ?p then _ else _] => destruct (stop_pending p)
    | |- context [opt _ ?o] => destruct o
    end); simpl; rewrite ?Hr.

Lemma migration_cpu_stop_todo w arg any s s1 l1 : migration_cpu_stop w arg any s = Ok (s1, l1) → todo s1 = todo s.
Proof.
  unfold migration_cpu_stop, use. destruct (arg_pending arg) as [x|]; simpl.
  - destruct (pendings s !! x) as [r|] eqn:Hr; simpl; [|done]. cases_of x Hr; by intros [= <- _].
  - cases_of w (eq_refl w); by intros [= <- _].
Qed.

Lemma affine_todo k dest flags s s1 l ret : affine_move_task k dest flags s = Ok (s1, l, ret) → todo s1 = todo s.
Proof.
  unfold affine_move_task, use. case_decide.
  - destruct (_ && _), (migration_pending (task s)) as [x|]; cases_of k (eq_refl k); by intros [= <- _ _].
  - destruct (migration_pending (task s)) as [x|] eqn:Em; cases_of k Em; by intros [= <- _ _].
Qed.

Lemma migrate_enable_todo dest s s1 l : migrate_enable dest s = Ok (s1, l) → todo s1 = todo s.
Proof.
  unfold migrate_enable. case_decide; [by intros [= <- _]|]. case_decide; [|by intros [= <- _]].
  destruct (__set_cpus_allowed_ptr _ _ _ _ _) as [[[s2 l2] r2]| |] eqn:E; [|done|done]. intros [= <- _].
  revert E. unfold __set_cpus_allowed_ptr. destruct (_ && _); [by intros [= <- _ _]|]. do 3 (case_decide; [by intros [= <- _ _]|]).
  intros E. by apply affine_todo in E.
Qed.

(** Only the stopper adds to what is to be done. *)
Lemma run_op_new o any lowest s s1 l1 : run_op o any lowest s = Some (Ok (s1, l1)) →
  todo s1 = todo s ∧ (l1 = [] ∨ ∃ w arg, o = MigrationCpuStop w arg).
Proof.
  destruct o; simpl; unfold queue_work.
  - destruct (use x s); simpl; [|done|done]. case_decide; [done|]. intros [= <- <-]. auto.
  - destruct (use x s); simpl; [|done|done]. case_decide; [done|]. intros [= <- <-]. auto.
  - case_decide; [done|]. intros [= <- <-]. auto.
  - destruct (use x s); simpl; [|done|done]. intros [= <- <-]. auto.
  - destruct (use x s) as [r| |]; [|done|done]. destruct (done r); [|done]. intros [= <- <-]. auto.
  - destruct (use x s); simpl; [|done|done]. intros [= <- <-]. auto.
  - destruct (pendings s !! k); [case_decide; [|done]|]; intros [= <- <-]; auto.
  - intros [= <- <-]. auto.
  - intros [= <- <-]. auto.
  - intros [= <- <-]. auto.
  - destruct (any_and _ _ _); [|done]. intros [= E]. split; [|eauto]. by apply migration_cpu_stop_todo in E.
  - destruct (match lowest with Some _ => _ | None => _ end); [|done]. intros [= <- <-]. auto.
Qed.

(** What holds of the task when a request is completed. *)
Definition settled (p : task_struct) : Prop :=
  task_cpu p ∈ cpus_mask p ∨ on_rq_queued p = false ∨ is_migration_disabled p = true ∨
  (∃ d, d ∈ cpus_mask p ∧ is_cpu_allowed p d = false).

Lemma op_settled held s s1 s' t o l l1 any lowest x : inv held s → pin s' → task s' = task s1 → list_of (todo s) t = o :: l →
  run_op o any lowest s = Some (Ok (s1, l1)) → CompleteAll x ∈ l1 → settled (task s1).
Proof.
  intros HI HP' Et El Eo Hl. destruct (run_op_new o any lowest s s1 l1 Eo) as (_ & Hl1).
  destruct Hl1 as [->|(w & arg & ->)]; [by apply elem_of_nil in Hl|].
  simpl in Eo. destruct (any_and _ _ _) eqn:Hany; [|done]. injection Eo as Eo.
  pose proof (inv_list _ _ HI t) as Hok. rewrite El in Hok. destruct Hok as (_ & Harg & _).
  destruct (arg_pending arg) as [y|] eqn:Ey.
  2: { destruct (none_pending_same w arg any s Ey Hany) as (p & E & _). rewrite E in Eo. injection Eo as <- <-. by apply elem_of_nil in Hl. }
  destruct (stop_work_installed held s t w arg l y HI El Harg Ey) as (-> & r & Hr & _ & _ & Hm').
  destruct (migration_cpu_stop_cases w y any s r Hr Hm' Hany) as [E|(s2 & l2 & E & Hst & _)]; rewrite E in Eo; injection Eo as <- <-.
  { apply list_elem_of_singleton in Hl. done. }
  destruct Hst as [|Hk _ Hp _]; [by apply elem_of_nil in Hl|]. unfold settled.
  destruct Hp as [Hp|[Hp|[Hp|[Hp|Hp]]]]; [auto|auto| |auto|].
  - do 2 right. left. unfold is_migration_disabled. apply bool_decide_eq_true. rewrite <-Et in *. intros Hz. by apply (pin_none _ HP') in Hz.
  - destruct (pin_mask _ HP') as (d & Hd & _). rewrite Et in Hd. set_solver.
Qed.

(** C37: When a thread decides that a request is completed, at the end of its
    region under the locks of the task, the task is on a processor of its
    mask, or on no run queue, so that its wake-up places it; unless it may not
    migrate, or the mask has a processor on which it may not run. *)
Theorem completed_where_allowed c m i held s a s' t x :
  (∃ d, d ∈ m ∧ d ∈ cpu_online_mask) → rtc step (start c m i held) s → countable a s → do a s = Some (Ok s') →
  CompleteAll x ∈ list_of (todo s') t → CompleteAll x ∉ list_of (todo s) t →
  let p := task s' in
  task_cpu p ∈ cpus_mask p ∨ on_rq_queued p = false ∨ is_migration_disabled p = true ∨
  (∃ d, d ∈ cpus_mask p ∧ is_cpu_allowed p d = false).
Proof.
  intros Hm Hs Hcount Ha Hnew Hold. destruct (reachable_ok c m i held s Hm Hs) as [HI HP].
  assert (pin s') as HP' by by apply (do_pin held s a).
  assert (∀ l u, todo s' = <[u := l]> (todo s) → CompleteAll x ∈ l) as Hin.
  { intros l u Et. rewrite Et, list_of_set in Hnew. by case_decide. }
  assert (todo s' = todo s → False) as Hsame by (intros Et; by rewrite Et in Hnew).
  destruct a; simpl in Ha; try (case_decide; [|done]; injection Ha as <-; by destruct Hsame).
  - case_decide as Hd; [|done]. destruct (any_and _ _ _) eqn:Hany; [|done]. injection Ha as Ha.
    destruct (__set_cpus_allowed_ptr _ _ _ _ _) as [[[s1 l] ret]| |] eqn:Es; [|done|done]. injection Ha as <-.
    destruct (set_cpus_allowed_ok held k (Mask new_mask) (if check then SCA_CHECK else SCA_NONE) dest s (λ _, []) HI (proj1 Hd))
      as (s2 & l2 & r2 & Es2 & Et & _); [by destruct check|by left|]. rewrite Es in Es2. injection Es2 as <- <- <-.
    assert (CompleteAll x ∈ l ++ [Return ret]) as Hl by (apply (Hin _ (Caller k)); simpl; by rewrite Et).
    apply elem_of_app in Hl as [Hl|Hl%list_elem_of_singleton]; [|done].
    destruct (set_allowed_placed held k new_mask (if check then SCA_CHECK else SCA_NONE) dest s s1 l ret x HI) as [|]; eauto.
    destruct check; auto.
  - case_decide; [|done]. injection Ha as <-. destruct Hsame. unfold migrate_disable. by destruct (is_migration_disabled _).
  - case_decide as Hd; [|done]. destruct Hd as (El & Hrun & Hmd). destruct (any_and _ _ _) eqn:Hany; [|done]. injection Ha as Ha.
    destruct (migrate_enable dest s) as [[s1 l]| |] eqn:Es; [|done|done]. injection Ha as <-.
    assert (CompleteAll x ∈ l) as Hl.
    { simpl in Hnew. rewrite list_of_set in Hnew. case_decide as Et; [done|].
      by rewrite (migrate_enable_todo dest s s1 l Es) in Hnew. }
    destruct (migrate_enable_placed held dest s s1 l x HI Hany Hrun Es Hl); auto.
  - case_decide; [done|]. destruct (list_of (todo s) t0) as [|o l] eqn:El; [done|].
    destruct (run_op o any lowest s) as [[[s1 l1]| |]|] eqn:Eo; [|done|done|done]. injection Ha as <-.
    destruct (run_op_new o any lowest s s1 l1 Eo) as (Et & _).
    assert (CompleteAll x ∈ l1) as Hl.
    { simpl in Hnew. rewrite list_of_set, Et in Hnew. case_decide as Et0; [|done]. subst t0.
      apply elem_of_app in Hnew as [|Hnew]; [done|]. destruct Hold. rewrite El. by right. }
    exact (op_settled held s s1 _ t0 o l l1 any lowest x HI HP' eq_refl El Eo Hl).
  - case_decide; [|done]. destruct (remove1 _ _); [|done]. injection Ha as <-. exfalso.
    specialize (Hin _ _ eq_refl). repeat (apply elem_of_cons in Hin as [Hin|Hin]; [done|]). by apply elem_of_nil in Hin.
  - case_decide; [|done]. destruct (remove1 _ _); [|done]. injection Ha as <-. exfalso.
    specialize (Hin _ _ eq_refl). repeat (apply elem_of_cons in Hin as [Hin|Hin]; [done|]). by apply elem_of_nil in Hin.
  - case_decide; [|done]. destruct (any_and _ _ _); [|done]. injection Ha as Ha.
    destruct (try_to_wake_up _ _ _ _); [|done|done]. injection Ha as <-. by destruct Hsame.
Qed.

End properties.

(** * Executions *)

Section runs.
Context `{topology}.

Fixpoint runs (l : list action) (s : state) : option state :=
  match l with
  | [] => Some s
  | a :: l =>
      if bool_decide (migration_disabled (task s) < 65535) then
        match do a s with Some (Ok s) => runs l s | _ => None end
      else None
  end.

Lemma runs_reachable l s s' : runs l s = Some s' → rtc step s s'.
Proof.
  revert s. induction l as [|a l IH]; intros s; simpl; [by intros [= <-]|].
  case_bool_decide as Hb; [|done]. destruct (do a s) as [[s1| |]|] eqn:E; [|done..].
  intros Hl. eapply rtc_l; [exists a; split; [by intros _|done]|]. by apply IH.
Qed.

(** All calls have returned, nothing is pending, the task may migrate and is
    on a run queue; but not on one of a processor of its mask. *)
Definition escaped (s : state) : Prop :=
  (∀ t, list_of (todo s) t = []) ∧ works s = [] ∧ pendings s = ∅ ∧ migration_pending (task s) = None ∧
  migration_disabled (task s) = 0 ∧ on_rq_queued (task s) = true ∧ task_cpu (task s) ∉ cpus_mask (task s).

Definition escapes (l : list action) (m : gset Z) (s : state) : bool :=
  match runs l s with
  | Some s =>
      bool_decide (map_Forall (λ _ l, l = []) (todo s) ∧ works s = [] ∧ pendings s = ∅ ∧ migration_pending (task s) = None ∧
        migration_disabled (task s) = 0 ∧ on_rq_queued (task s) = true ∧ (task_cpu (task s) ∉ cpus_mask (task s)) ∧ cpus_mask (task s) = m)
  | None => false
  end.

Lemma escapes_ok l m s : escapes l m s = true → ∃ s', rtc step s s' ∧ escaped s' ∧ cpus_mask (task s') = m.
Proof.
  unfold escapes. destruct (runs l s) as [s'|] eqn:E; [|done].
  intros (Hf & H1 & H2 & H3 & H4 & H5 & H6 & H7)%bool_decide_eq_true.
  exists s'. split; [by apply (runs_reachable l)|]. split; [|done]. split; [|done]. intros t. unfold list_of.
  destruct (todo s' !! t) as [l'|] eqn:Et; [|done]. by apply Hf in Et.
Qed.

End runs.

(** Four processors, of which the last is offline. *)
Definition three_of_four : topology := {|
  nr_cpu_ids := 4; cpu_possible_mask := {[0; 1; 2; 3]}; cpu_online_mask := {[0; 1; 2]}; cpu_active_mask := {[0; 1; 2]};
  balance_push := λ _, false; node_mask := λ _, None; cpuset_fallback := {[0; 1; 2; 3]} |}.

Lemma three_of_four_ok : @topology_ok three_of_four.
Proof.
  split.
  - done.
  - by apply (bool_decide_unpack _).
  - by apply (bool_decide_unpack _).
  - assert (set_Forall (λ c, 0 ≤ c < 4) ({[0; 1; 2; 3]} : gset Z)) as Hf by by apply (bool_decide_unpack _).
    exact Hf.
Qed.

Definition user : identity := Identity false false false.
Definition go (t : thread) : action := Go t 0 None.

(** The task runs on processor 0 and gets the mask of 1 and the offline 3; the
    stopper picks 3. *)
Definition offline_run : list action :=
  [Wake 0 0 false; SwitchIn; SetCpusAllowed 1 {[1; 3]} true 1; go (Caller 1); SwitchOut; StopperStart 0 (arg_of 1);
   go (Stopper 0); Go (Stopper 0) 3 None; go (Stopper 0); go (Caller 1); go (Caller 1); go (Caller 1); go (Caller 1)].

(** Balancing moves the task to processor 1, where it disables migration; the
    mask of a second call is 2 only, and the stopper of processor 0 takes the
    task as being where it may be. *)
Definition pinned_run : list action :=
  [Wake 0 0 false; SwitchIn; SetCpusAllowed 1 {[1]} true 1; go (Caller 1); SwitchOut; Balance 1; SwitchIn; MigrateDisable; SwitchOut;
   SetCpusAllowed 2 {[2]} true 2; StopperStart 0 (arg_of 1); go (Stopper 0); Go (Stopper 0) 2 None; go (Stopper 0);
   go (Caller 1); go (Caller 2); go (Caller 1); go (Caller 2); go (Caller 2); go (Caller 1); go (Caller 2); go (Caller 1);
   SwitchIn; MigrateEnable 2; go self].

(** The stopper has put the waiting tasks on the run queue; then the task is
    woken onto the list of the same processor, which its mask allows for a
    moment. *)
Definition waking_run : list action :=
  [Wake 0 0 false; SwitchIn; SetCpusAllowed 1 {[1]} true 1; go (Caller 1); Block false; StopperStart 0 (arg_of 1); go (Stopper 0);
   SetCpusAllowed 2 {[0; 1]} true 0; Wake 0 0 true; SetCpusAllowed 3 {[1]} true 1; Go (Stopper 0) 1 None; TtwuPending; go (Stopper 0);
   go (Caller 1); go (Caller 1); go (Caller 2); go (Caller 3); go (Caller 3); go (Caller 3); go (Caller 3); go (Caller 1); go (Caller 1)].

(** There are executions in which all calls return 0 and the task stays
    on a processor that its mask does not have: with a mask that has an
    offline processor, when the task moves and disables migration before the
    stopper runs, and when it is woken while the stopper takes the locks. The
    last two only use masks of active processors. *)
Theorem affinity_escapes :
  (∃ s, rtc (@step three_of_four) (@start three_of_four 0 {[0]} user 1) s ∧ @escaped s ∧ cpus_mask (task s) = {[1; 3]}) ∧
  (∃ s, rtc (@step three_of_four) (@start three_of_four 0 {[0; 1]} user 1) s ∧ @escaped s ∧ cpus_mask (task s) = {[2]}) ∧
  (∃ s, rtc (@step three_of_four) (@start three_of_four 0 {[0]} user 1) s ∧ @escaped s ∧ cpus_mask (task s) = {[1]}).
Proof.
  split; [|split].
  - apply (escapes_ok offline_run). by vm_compute.
  - apply (escapes_ok pinned_run). by vm_compute.
  - apply (escapes_ok waking_run). by vm_compute.
Qed.

Lemma zero_online : ∃ d, d ∈ ({[0]} : gset Z) ∧ d ∈ @cpu_online_mask three_of_four.
Proof. exists 0. by split; apply (bool_decide_unpack _). Qed.

Lemma affinity_requests_safe_witness : let H := three_of_four in
  ∃ s s', rtc step (start 0 {[0]} user 1) s ∧ do SwitchOut s = Some (Ok s') ∧ usage (task s) = 1 + Z.of_nat (size (push_busy s)).
Proof.
  intros H. destruct (runs (take 4 offline_run) (start 0 {[0]} user 1)) as [s|] eqn:E; [|vm_compute in E; discriminate].
  pose proof (runs_reachable _ _ _ E) as Hs. destruct (do SwitchOut s) as [r|] eqn:Ed.
  - destruct (@affinity_requests_safe three_of_four three_of_four_ok 0 {[0]} user 1 s SwitchOut r) as (Hr & _ & Hu); [|done|done|].
    + exact zero_online.
    + destruct Hr as [[s' ->]|(_ & (choice & any & b & [=]) & _)]. exists s, s'. done.
  - exfalso. vm_compute in E. injection E as <-. vm_compute in Ed. discriminate.
Defined.

Lemma no_request_forgotten_witness : let H := three_of_four in
  ∃ s l r, rtc step (start 0 {[0]} user 1) s ∧ list_of (todo s) (Caller 1) = WaitForCompletion 1 :: l ∧ pendings s !! 1 = Some r.
Proof.
  intros H. destruct (runs (take 4 offline_run) (start 0 {[0]} user 1)) as [s|] eqn:E; [|vm_compute in E; discriminate].
  pose proof (runs_reachable _ _ _ E) as Hs.
  assert (list_of (todo s) (Caller 1) = WaitForCompletion 1 :: [RefcountDecAndTest 1; WaitRefs 1; Return 0]) as El.
  { vm_compute in E. injection E as <-. reflexivity. }
  destruct (@no_request_forgotten three_of_four three_of_four_ok 0 {[0]} user 1 s (Caller 1) 1 _ zero_online Hs El)
    as (r & Hr & _). by exists s, [RefcountDecAndTest 1; WaitRefs 1; Return 0], r.
Defined.

Lemma completed_where_allowed_witness : let H := three_of_four in
  ∃ s s', rtc step (start 0 {[0]} user 1) s ∧ do (Go (Stopper 0) 1 None) s = Some (Ok s') ∧
    let p := task s' in
    task_cpu p ∈ cpus_mask p ∨ on_rq_queued p = false ∨ is_migration_disabled p = true ∨
    (∃ d, d ∈ cpus_mask p ∧ is_cpu_allowed p d = false).
Proof.
  intros H. destruct (runs (take 7 offline_run) (start 0 {[0]} user 1)) as [s|] eqn:E; [|vm_compute in E; discriminate].
  pose proof (runs_reachable _ _ _ E) as Hs.
  assert (∃ s', do (Go (Stopper 0) 1 None) s = Some (Ok s') ∧ CompleteAll 1 ∈ list_of (todo s') (Stopper 0) ∧
    CompleteAll 1 ∉ list_of (todo s) (Stopper 0)) as (s' & Ed & Hn & Ho).
  { vm_compute in E. injection E as <-. eexists. split; [vm_compute; reflexivity|]. split; by apply (bool_decide_unpack _). }
  exists s, s'. split; [done|]. split; [done|].
  apply (@completed_where_allowed three_of_four three_of_four_ok 0 {[0]} user 1 s (Go (Stopper 0) 1 None) s' (Stopper 0) 1); try done.
  exact zero_online.
Defined.
