(* ===== verification/AffinityCalls.v ===== *)
(** The system calls that set and read the processor affinity of a task
    (src/과제/OS과제/과제4/core.c): the bit masks in user memory, the checks, and
    the loop that starts again when the cpuset of the task has changed. *)
From S2P Require Import Prelude Affinity.
Local Open Scope Z_scope.

Definition EPERM : Z := 1.
Definition ESRCH : Z := 3.
Definition ENOMEM : Z := 12.
Definition EFAULT : Z := 14.

Section calls.
Context `{topology}.

(** [cpumask_size()]: the bytes of a [struct cpumask]. *)
Context (cpumask_size : Z).

(** The mask with the bits of a list of bytes, and its first [n] bytes. *)
Definition mask_of_bytes (bs : list Z) : gset Z :=
  list_to_set (filter (λ c, Z.testbit (default 0 (bs !! Z.to_nat (c / 8))) (c `mod` 8) = true)
    (seqZ 0 (8 * Z.of_nat (length bs)))).

Definition byte_of_mask (m : gset Z) (i : Z) : Z :=
  foldr (λ b acc, Z.lor (if decide (8 * i + b ∈ m) then 2 ^ b else 0) acc) 0 (seqZ 0 8).
Definition bytes_of_mask (n : Z) (m : gset Z) : list Z := byte_of_mask m <$> seqZ 0 n.

(** [mem]: the bytes at the address of the caller up to the first that faults. *)
Definition get_user_cpu_mask (mem : list Z) (len : Z) : Z * gset Z :=
  let len := if decide (len < cpumask_size) then len else if decide (cpumask_size < len) then cpumask_size else len in
  if decide (Z.of_nat (length mem) < len) then (- EFAULT, ∅)
  else (0, mask_of_bytes (take (Z.to_nat len) mem)).

(** What [sched_setaffinity] finds: the task, the allocations, the rights,
    the first answer of cpuset_cpus_allowed, and for each turn of its loop
    the value that __set_cpus_allowed_ptr returns and the next answer. *)
Record setting := Setting {
  found : option task_struct;
  alloc_cpus_allowed : bool;
  alloc_new_mask : bool;
  same_owner : bool;
  ns_capable : bool;
  security_task_setscheduler : Z;
  cpus_allowed : gset Z;
  dl_policy : bool;
  dl_bandwidth_enabled : bool;
  rd_span : gset Z;
  turns : list (Z * gset Z);
}.

(** From the label [again] on: the value returned, and the masks that
    __set_cpus_allowed_ptr gets; [Diverges] when the turns are used up. *)
Fixpoint again (turns : list (Z * gset Z)) (new_mask : gset Z) : res (Z * list (gset Z)) :=
  match turns with
  | [] => Undef Diverges
  | (retval, cpus_allowed) :: turns =>
      if decide (retval = 0) then
        if decide (new_mask ⊆ cpus_allowed) then Ok (0, [new_mask])
        else '(r, l) ← again turns cpus_allowed; Ok (r, new_mask :: l)
      else Ok (retval, [new_mask])
  end.

Definition sched_setaffinity (e : setting) (in_mask : gset Z) : res (Z * list (gset Z)) :=
  match found e with
  | None => Ok (- ESRCH, [])
  | Some p =>
      if no_setaffinity (who p) then Ok (- EINVAL, [])
      else if negb (alloc_cpus_allowed e) then Ok (- ENOMEM, [])
      else if negb (alloc_new_mask e) then Ok (- ENOMEM, [])
      else if negb (same_owner e) && negb (ns_capable e) then Ok (- EPERM, [])
      else if decide (security_task_setscheduler e ≠ 0) then Ok (security_task_setscheduler e, [])
      else
        let new_mask := in_mask ∩ cpus_allowed e in
        if dl_policy e && dl_bandwidth_enabled e && negb (bool_decide (rd_span e ⊆ new_mask)) then Ok (- EBUSY, [])
        else again (turns e) new_mask
  end.

Definition sys_sched_setaffinity (e : setting) (alloc : bool) (len : Z) (mem : list Z) : res (Z * list (gset Z)) :=
  if negb alloc then Ok (- ENOMEM, [])
  else
    let '(retval, new_mask) := get_user_cpu_mask mem len in
    if decide (retval = 0) then sched_setaffinity e new_mask else Ok (retval, []).

Definition sched_getaffinity (found : option task_struct) (security : Z) : Z * gset Z :=
  match found with
  | None => (- ESRCH, ∅)
  | Some p => if decide (security ≠ 0) then (security, ∅) else (0, cpus_mask p ∩ cpu_active_mask)
  end.

(** [room]: the bytes that can be written at the address of the caller. *)
Definition sys_sched_getaffinity (found : option task_struct) (security : Z) (alloc : bool) (len room : Z) : Z * list Z :=
  if decide (wrapu32 (len * 8) < nr_cpu_ids) then (- EINVAL, [])
  else if decide (Z.land len 7 ≠ 0) then (- EINVAL, [])
  else if negb alloc then (- ENOMEM, [])
  else
    let '(ret, mask) := sched_getaffinity found security in
    if decide (ret = 0) then
      let retlen := Z.min len cpumask_size in
      if decide (room < retlen) then (- EFAULT, []) else (retlen, bytes_of_mask retlen mask)
    else (ret, []).

End calls.
