(* ===== verification/AffinityCallsProofs.v ===== *)
(** The affinity system calls: which mask is set, that the loop ends, and that
    the mask that is read is the one that was set. *)
From S2P Require Import Prelude Affinity AffinityProtocol AffinityPlaces AffinityProofs AffinityCalls.
Local Open Scope Z_scope.

(** * Masks as bytes *)

Lemma byte_bit m i b : 0 ≤ b < 8 → Z.testbit (byte_of_mask m i) b = bool_decide (8 * i + b ∈ m).
Proof.
  intros Hb. unfold byte_of_mask.
  assert (∀ l, Forall (λ a, 0 ≤ a) l → NoDup l →
    Z.testbit (foldr (λ b acc, Z.lor (if decide (8 * i + b ∈ m) then 2 ^ b else 0) acc) 0 l) b =
    bool_decide (b ∈ l ∧ 8 * i + b ∈ m)) as Hl.
  { intros l. induction l as [|a l IH]; simpl; intros Hpos Hnd.
    - by rewrite Z.testbit_0_l.
    - inversion Hpos as [|? ? Ha Hpos']. subst. apply NoDup_cons in Hnd as [Hal Hnd].
      rewrite Z.lor_spec, IH by done.
      assert (Z.testbit (if decide (8 * i + a ∈ m) then 2 ^ a else 0) b = bool_decide (b = a ∧ 8 * i + a ∈ m)) as ->.
      { destruct (decide (8 * i + a ∈ m)) as [Hm|Hm].
        2: { rewrite Z.testbit_0_l. symmetry. apply bool_decide_false. tauto. }
        rewrite Z.pow2_bits_eqb by done. destruct (Z.eqb_spec a b) as [->|]; symmetry;
          [by apply bool_decide_true|apply bool_decide_false; naive_solver]. }
      rewrite <- bool_decide_or. apply bool_decide_ext. rewrite elem_of_cons. naive_solver. }
  rewrite Hl.
  - apply bool_decide_ext. rewrite elem_of_seqZ. naive_solver lia.
  - apply Forall_forall. intros a Ha%elem_of_seqZ. lia.
  - apply NoDup_seqZ.
Qed.

Lemma length_bytes_of_mask n m : length (bytes_of_mask n m) = Z.to_nat n.
Proof. unfold bytes_of_mask. by rewrite length_fmap, length_seqZ. Qed.

Lemma mask_bytes_roundtrip n m : 0 ≤ n → (∀ c, c ∈ m → 0 ≤ c < 8 * n) → mask_of_bytes (bytes_of_mask n m) = m.
Proof.
  intros Hn Hm. apply set_eq. intros c. unfold mask_of_bytes.
  rewrite elem_of_list_to_set, list_elem_of_filter, elem_of_seqZ, length_bytes_of_mask, Z2Nat.id by done.
  assert (0 ≤ c < 8 * n → default 0 (bytes_of_mask n m !! Z.to_nat (c / 8)) = byte_of_mask m (c / 8)) as Hlook.
  { intros Hc. unfold bytes_of_mask. assert (0 ≤ c / 8 < n) as Hd by (split; [apply Z.div_pos; lia|apply Z.div_lt_upper_bound; lia]).
    rewrite list_lookup_fmap, lookup_seqZ_lt by lia. simpl. f_equal. lia. }
  assert (8 * (c / 8) + c `mod` 8 = c) as Hdm by (symmetry; apply Z.div_mod; lia).
  split.
  - intros [Hbit Hc]. rewrite Hlook, byte_bit in Hbit by (try apply Z.mod_pos_bound; lia).
    apply bool_decide_eq_true in Hbit. by rewrite Hdm in Hbit.
  - intros Hc. specialize (Hm c Hc). split; [|lia]. rewrite Hlook, byte_bit by (try apply Z.mod_pos_bound; lia).
    apply bool_decide_eq_true. by rewrite Hdm.
Qed.

(** * The loop *)

Lemma again_ok turns m r l : again turns m = Ok (r, l) →
  ∃ m' l', l = l' ++ [m'] ∧ (l' = [] ∧ m' = m ∨ ∃ t, t ∈ turns ∧ m' = t.2) ∧
    (r = 0 → ∃ c, (0, c) ∈ turns ∧ m' ⊆ c).
Proof.
  revert m l. induction turns as [|[z c] turns IH]; intros m l; simpl; [done|].
  case_decide as Hz.
  - subst z. case_decide as Hs.
    + intros [= <- <-]. exists m, []. split; [done|]. split; [by left|]. intros _. exists c. split; [left|done].
    + destruct (again turns c) as [[r' l']| |] eqn:E; [|done|done]. simpl. intros [= <- <-].
      destruct (IH c l' E) as (m' & l0 & -> & Hm & Hr). exists m', (m :: l0). split; [done|]. split.
      * right. destruct Hm as [[_ ->]|(t & Ht & ->)]; [exists (0, c); split; [left|done]|exists t; split; [by right|done]].
      * intros Hr0. destruct (Hr Hr0) as (c' & Hc & Hs'). exists c'. split; [by right|done].
  - intros [= <- <-]. exists m, []. split; [done|]. split; [by left|]. by intros ->.
Qed.

Lemma again_cons z c turns m : again ((z, c) :: turns) m = Undef Diverges → z = 0 ∧ again turns c = Undef Diverges.
Proof.
  simpl. case_decide; [|done]. case_decide; [done|]. destruct (again turns c) as [[]| |u]; [done|done|].
  intros [= ->]. done.
Qed.

Lemma again_no_exit turns m z : again turns m ≠ Exit z.
Proof.
  revert m. induction turns as [|[r c] turns IH]; intros m; simpl; [done|].
  case_decide; [|done]. case_decide; [done|]. specialize (IH c). by destruct (again turns c) as [[]| |].
Qed.

Lemma again_undef turns m u : again turns m = Undef u → u = Diverges.
Proof.
  revert m. induction turns as [|[r c] turns IH]; intros m; simpl; [by intros [=]|].
  case_decide; [|done]. case_decide; [done|]. specialize (IH c). destruct (again turns c) as [[]| |]; naive_solver.
Qed.

(** The loop ends when a call fails, or as soon as two answers of the cpuset
    in a row do not take processors away. *)
Lemma again_stable i turns m z c :
  turns !! i = Some (z, c) →
  z ≠ 0 ∨ match i with O => m ⊆ c | S j => match turns !! j with Some (_, c') => c' ⊆ c | None => False end end →
  ∃ r l, again turns m = Ok (r, l).
Proof.
  intros Hi Hc. destruct (again turns m) as [[r l]|e|u] eqn:E; [eauto|by apply again_no_exit in E|].
  exfalso. pose proof (again_undef _ _ _ E) as ->. clear -Hi Hc E. revert turns m Hi Hc E.
  induction i as [|i IH]; intros [|[z0 c0] turns] m Hi Hc E; try done.
  - injection Hi as -> ->. simpl in E. destruct Hc as [Hz|Hs]; [by rewrite decide_False in E|].
    case_decide; [|done]. by rewrite decide_True in E.
  - apply again_cons in E as [-> E]. apply (IH turns c0 Hi); [|done]. destruct Hc as [|Hc]; [by left|right].
    by destruct i.
Qed.

(** * Properties *)

Section properties.
Context `{topology_ok}.

(** C39: After sched_setaffinity has returned 0, sched_getaffinity gives the
    bytes of the mask that was set last, without the processors that are not
    active, whatever the lengths of the two buffers; that mask lies in the
    cpuset as it was after the mask was set, and is the mask of the caller
    within the cpuset, or the cpuset itself when this had changed meanwhile. *)
Theorem affinity_roundtrip size e len mem l p len' room :
  0 ≤ len → nr_cpu_ids ≤ 8 * size → sys_sched_setaffinity size e true len mem = Ok (0, l) →
  nr_cpu_ids ≤ 8 * len' < 2 ^ 32 → Z.land len' 7 = 0 → Z.min len' size ≤ room →
  ∃ m l' bs, l = l' ++ [m] ∧
    sys_sched_getaffinity size (Some (do_set_cpus_allowed m p)) 0 true len' room = (Z.min len' size, bs) ∧
    mask_of_bytes bs = m ∩ cpu_active_mask ∧
    (∃ c, (0, c) ∈ turns e ∧ m ⊆ c) ∧
    (l' = [] ∧ m = mask_of_bytes (take (Z.to_nat (Z.min len size)) mem) ∩ cpus_allowed e ∨ ∃ t, t ∈ turns e ∧ m = t.2).
Proof.
  intros Hlen Hsize E Hlen' Hl7 Hroom. unfold sys_sched_setaffinity, get_user_cpu_mask in E. simpl in E.
  pose proof some_cpu as Hnr.
  case_decide as Hfault; [done|]. simpl in E. revert E.
  replace (if decide (len < size) then len else if decide (size < len) then size else len) with (Z.min len size)
    by (repeat case_decide; lia).
  set (m0 := mask_of_bytes _). unfold sched_setaffinity. destruct (found e) as [q|]; [|done].
  destruct (no_setaffinity _); [done|]. destruct (alloc_cpus_allowed e), (alloc_new_mask e); simpl; [|done..].
  destruct (negb _ && _); [done|]. destruct (decide (security_task_setscheduler e ≠ 0)) as [Hsec|_]; [intros Hz; injection Hz; intros; by destruct Hsec|]. destruct (_ && _); [done|]. intros E.
  destruct (again_ok _ _ _ _ E) as (m & l' & -> & Hm & Hr). destruct (Hr eq_refl) as (c & Hc & Hsub).
  exists m, l'. unfold sys_sched_getaffinity, wrapu32.
  rewrite Z.mod_small, decide_False by lia. rewrite decide_False by lia. simpl. rewrite decide_False by lia.
  eexists. split; [done|]. split; [done|]. split; [|split; [eauto|done]].
  unfold do_set_cpus_allowed, __do_set_cpus_allowed, set_cpus_allowed_common. simpl.
  apply mask_bytes_roundtrip; [lia|]. intros d [_ Hd]%elem_of_intersection.
  assert (0 ≤ d < nr_cpu_ids) by by apply possible_bound, online_possible, active_online. lia.
Qed.

End properties.

Lemma affinity_roundtrip_witness : let H := three_of_four in
  ∃ m l' bs, [{[0; 1]}] = l' ++ [m] ∧
    sys_sched_getaffinity 8 (Some (do_set_cpus_allowed m (task (start 0 {[0]} (Identity false false false) 1)))) 0 true 8 8 = (8, bs) ∧
    mask_of_bytes bs = m ∩ cpu_active_mask.
Proof.
  intros H.
  set (e := Setting (Some (task (start 0 {[0]} (Identity false false false) 1))) true true true false 0 {[0; 1; 2]} false false ∅
    [(0, {[0; 1; 2]})]).
  destruct (@affinity_roundtrip three_of_four three_of_four_ok 8 e 1 [3] [{[0; 1]}] (task (start 0 {[0]} (Identity false false false) 1)) 8 8)
    as (m & l' & bs & H1 & H2 & H3 & _).
  - lia.
  - simpl. lia.
  - by vm_compute.
  - simpl. lia.
  - done.
  - done.
  - by exists m, l', bs.
Defined.
