(* ===== verification/Switch.v ===== *)
(** Switching between tasks, sleeping and waking in the kernel of assignment 4
    (src/과제/OS과제/과제4/core.c and sched.h): [__schedule] with
    [context_switch] and [finish_task_switch], [try_to_wake_up] with the list
    of remote wake-ups, new tasks, dying tasks, and the moves of queued tasks,
    on any number of processors. A step is an access to a field that other
    processors read without the lock that protects it; everything a processor
    does under one lock and nobody else can see in parts is one step. Which
    task comes next, where a task is put and when interrupts arrive is chosen
    by the label of the step. The configuration has CONFIG_SMP. *)
From S2P Require Import Prelude.
Local Open Scope Z_scope.

(** * Data *)

Definition TASK_RUNNING : Z := 0x0.
Definition TASK_INTERRUPTIBLE : Z := 0x1.
Definition TASK_UNINTERRUPTIBLE : Z := 0x2.
Definition TASK_STOPPED_ : Z := 0x4.
Definition TASK_TRACED_ : Z := 0x8.
Definition TASK_PARKED : Z := 0x40.
Definition TASK_DEAD : Z := 0x80.
Definition TASK_WAKEKILL : Z := 0x100.
Definition TASK_WAKING : Z := 0x200.
Definition TASK_NOLOAD : Z := 0x400.
Definition TASK_NEW : Z := 0x800.

(** A task may wait for a condition: [Test] after
    [set_current_state(TASK_UNINTERRUPTIBLE)], [Sleep] when the condition was
    false, [Again] from the call of [schedule] on. *)
Inductive loop_place : Set := NoLoop | Test | Sleep | Again.

#[global] Instance loop_place_eq_dec : EqDecision loop_place.
Proof. solve_decision. Defined.

(** Where a processor is in [__schedule]: outside ([Run]), in [do_task_dead]
    before it ([Dying]), with the lock of its run queue taken ([Locked]), with
    [prev->state] loaded, before [pick_next_task], in it with the lock
    dropped, after [switch_to] in [finish_task_switch], with [prev_mm] and
    [prev->state] loaded, with [prev->on_cpu] cleared, and with the lock
    released. *)
Inductive place : Set :=
  | Run
  | Dying
  | Locked (preempt : bool)
  | Loaded (preempt : bool) (prev_state : Z)
  | Picking (voluntary : bool)
  | Balancing (voluntary : bool)
  | Switched (prev : Z)
  | Saved (prev prev_state : Z) (m : option Z)
  | Finished (prev prev_state : Z) (m : option Z)
  | Tail (prev prev_state : Z) (m : option Z).

(** What a processor does besides, with interrupts disabled: the places of
    [try_to_wake_up], of [wake_up_new_task], of [sched_ttwu_pending] and of a
    move to another run queue. *)
Inductive activity : Set :=
  | WakeEnter (p mask : Z)
  | WakeMatched (p : Z)                   (** before the load of [p->on_rq] *)
  | WakeRunnable (p : Z)                  (** in [ttwu_runnable] *)
  | WakeOff (p : Z)                       (** [p->on_rq] was 0 *)
  | WakeWaking (p : Z)                    (** TASK_WAKING is set *)
  | WakeOnCpu (p : Z)                     (** [p->on_cpu] was 1 *)
  | WakeSpin (p : Z)
  | WakeQueue (p : Z) (migrated : bool)   (** [ttwu_queue] *)
  | NewPlace (p : Z)
  | NewQueue (p : Z)
  | PendStart (l : list Z)
  | PendLocked (l : list Z)
  | Moving (p dest : Z).

#[global] Instance place_eq_dec : EqDecision place.
Proof. solve_decision. Defined.
#[global] Instance activity_eq_dec : EqDecision activity.
Proof. solve_decision. Defined.

Record task_struct := Task {
  st : Z;                    (** [state] *)
  on_rq : Z;
  on_cpu : bool;
  cpu : Z;                   (** [task_cpu] *)
  pi_lock : option Z;        (** the processor that holds it *)
  contributes : bool;        (** [sched_contributes_to_load] *)
  in_iowait : bool;
  frozen : bool;             (** PF_FROZEN *)
  remote_wakeup : bool;      (** [sched_remote_wakeup] *)
  nvcsw : Z;
  nivcsw : Z;
  mm : option Z;
  active_mm : option Z;
  current_ref : bool;        (** the reference for the use as current *)
  loop : loop_place;
  condition : bool;
}.

Record rq := Rq {
  curr : Z;
  nr_switches : Z;
  nr_uninterruptible : Z;
  nr_iowait : Z;
  prev_mm : option Z;
  ttwu_pending : bool;
  wake_list : list Z;
  at_ : place;
  doing : option activity;
}.

(** [mm_count] of a [mm_struct], [mm_users] the references among them that
    are not the scheduler's; [warned] when a WARN_ON_ONCE has fired. *)
Record state := State {
  tasks : Z → task_struct;
  rqs : Z → rq;
  tasklist : list Z;
  mm_users : Z → Z;
  mm_count : Z → Z;
  warned : bool;
}.

(** Assignments to one field. *)
Definition with_st (v : Z) (p : task_struct) : task_struct :=
  Task v (on_rq p) (on_cpu p) (cpu p) (pi_lock p) (contributes p) (in_iowait p) (frozen p) (remote_wakeup p) (nvcsw p) (nivcsw p) (mm p) (active_mm p) (current_ref p) (loop p) (condition p).
Definition with_on_rq (v : Z) (p : task_struct) : task_struct :=
  Task (st p) v (on_cpu p) (cpu p) (pi_lock p) (contributes p) (in_iowait p) (frozen p) (remote_wakeup p) (nvcsw p) (nivcsw p) (mm p) (active_mm p) (current_ref p) (loop p) (condition p).
Definition with_on_cpu (v : bool) (p : task_struct) : task_struct :=
  Task (st p) (on_rq p) v (cpu p) (pi_lock p) (contributes p) (in_iowait p) (frozen p) (remote_wakeup p) (nvcsw p) (nivcsw p) (mm p) (active_mm p) (current_ref p) (loop p) (condition p).
Definition with_cpu (v : Z) (p : task_struct) : task_struct :=
  Task (st p) (on_rq p) (on_cpu p) v (pi_lock p) (contributes p) (in_iowait p) (frozen p) (remote_wakeup p) (nvcsw p) (nivcsw p) (mm p) (active_mm p) (current_ref p) (loop p) (condition p).
Definition with_pi_lock (v : option Z) (p : task_struct) : task_struct :=
  Task (st p) (on_rq p) (on_cpu p) (cpu p) v (contributes p) (in_iowait p) (frozen p) (remote_wakeup p) (nvcsw p) (nivcsw p) (mm p) (active_mm p) (current_ref p) (loop p) (condition p).
Definition with_contributes (v : bool) (p : task_struct) : task_struct :=
  Task (st p) (on_rq p) (on_cpu p) (cpu p) (pi_lock p) v (in_iowait p) (frozen p) (remote_wakeup p) (nvcsw p) (nivcsw p) (mm p) (active_mm p) (current_ref p) (loop p) (condition p).
Definition with_in_iowait (v : bool) (p : task_struct) : task_struct :=
  Task (st p) (on_rq p) (on_cpu p) (cpu p) (pi_lock p) (contributes p) v (frozen p) (remote_wakeup p) (nvcsw p) (nivcsw p) (mm p) (active_mm p) (current_ref p) (loop p) (condition p).
Definition with_frozen (v : bool) (p : task_struct) : task_struct :=
  Task (st p) (on_rq p) (on_cpu p) (cpu p) (pi_lock p) (contributes p) (in_iowait p) v (remote_wakeup p) (nvcsw p) (nivcsw p) (mm p) (active_mm p) (current_ref p) (loop p) (condition p).
Definition with_remote_wakeup (v : bool) (p : task_struct) : task_struct :=
  Task (st p) (on_rq p) (on_cpu p) (cpu p) (pi_lock p) (contributes p) (in_iowait p) (frozen p) v (nvcsw p) (nivcsw p) (mm p) (active_mm p) (current_ref p) (loop p) (condition p).
Definition with_nvcsw (v : Z) (p : task_struct) : task_struct :=
  Task (st p) (on_rq p) (on_cpu p) (cpu p) (pi_lock p) (contributes p) (in_iowait p) (frozen p) (remote_wakeup p) v (nivcsw p) (mm p) (active_mm p) (current_ref p) (loop p) (condition p).
Definition with_nivcsw (v : Z) (p : task_struct) : task_struct :=
  Task (st p) (on_rq p) (on_cpu p) (cpu p) (pi_lock p) (contributes p) (in_iowait p) (frozen p) (remote_wakeup p) (nvcsw p) v (mm p) (active_mm p) (current_ref p) (loop p) (condition p).
Definition with_mm (v : option Z) (p : task_struct) : task_struct :=
  Task (st p) (on_rq p) (on_cpu p) (cpu p) (pi_lock p) (contributes p) (in_iowait p) (frozen p) (remote_wakeup p) (nvcsw p) (nivcsw p) v (active_mm p) (current_ref p) (loop p) (condition p).
Definition with_active_mm (v : option Z) (p : task_struct) : task_struct :=
  Task (st p) (on_rq p) (on_cpu p) (cpu p) (pi_lock p) (contributes p) (in_iowait p) (frozen p) (remote_wakeup p) (nvcsw p) (nivcsw p) (mm p) v (current_ref p) (loop p) (condition p).
Definition with_current_ref (v : bool) (p : task_struct) : task_struct :=
  Task (st p) (on_rq p) (on_cpu p) (cpu p) (pi_lock p) (contributes p) (in_iowait p) (frozen p) (remote_wakeup p) (nvcsw p) (nivcsw p) (mm p) (active_mm p) v (loop p) (condition p).
Definition with_loop (v : loop_place) (p : task_struct) : task_struct :=
  Task (st p) (on_rq p) (on_cpu p) (cpu p) (pi_lock p) (contributes p) (in_iowait p) (frozen p) (remote_wakeup p) (nvcsw p) (nivcsw p) (mm p) (active_mm p) (current_ref p) v (condition p).
Definition with_condition (v : bool) (p : task_struct) : task_struct :=
  Task (st p) (on_rq p) (on_cpu p) (cpu p) (pi_lock p) (contributes p) (in_iowait p) (frozen p) (remote_wakeup p) (nvcsw p) (nivcsw p) (mm p) (active_mm p) (current_ref p) (loop p) v.

Definition with_curr (v : Z) (r : rq) : rq :=
  Rq v (nr_switches r) (nr_uninterruptible r) (nr_iowait r) (prev_mm r) (ttwu_pending r) (wake_list r) (at_ r) (doing r).
Definition with_nr_switches (v : Z) (r : rq) : rq :=
  Rq (curr r) v (nr_uninterruptible r) (nr_iowait r) (prev_mm r) (ttwu_pending r) (wake_list r) (at_ r) (doing r).
Definition with_nr_uninterruptible (v : Z) (r : rq) : rq :=
  Rq (curr r) (nr_switches r) v (nr_iowait r) (prev_mm r) (ttwu_pending r) (wake_list r) (at_ r) (doing r).
Definition with_nr_iowait (v : Z) (r : rq) : rq :=
  Rq (curr r) (nr_switches r) (nr_uninterruptible r) v (prev_mm r) (ttwu_pending r) (wake_list r) (at_ r) (doing r).
Definition with_prev_mm (v : option Z) (r : rq) : rq :=
  Rq (curr r) (nr_switches r) (nr_uninterruptible r) (nr_iowait r) v (ttwu_pending r) (wake_list r) (at_ r) (doing r).
Definition with_ttwu_pending (v : bool) (r : rq) : rq :=
  Rq (curr r) (nr_switches r) (nr_uninterruptible r) (nr_iowait r) (prev_mm r) v (wake_list r) (at_ r) (doing r).
Definition with_wake_list (v : list Z) (r : rq) : rq :=
  Rq (curr r) (nr_switches r) (nr_uninterruptible r) (nr_iowait r) (prev_mm r) (ttwu_pending r) v (at_ r) (doing r).
Definition with_at_ (v : place) (r : rq) : rq :=
  Rq (curr r) (nr_switches r) (nr_uninterruptible r) (nr_iowait r) (prev_mm r) (ttwu_pending r) (wake_list r) v (doing r).
Definition with_doing (v : option activity) (r : rq) : rq :=
  Rq (curr r) (nr_switches r) (nr_uninterruptible r) (nr_iowait r) (prev_mm r) (ttwu_pending r) (wake_list r) (at_ r) v.

Definition with_tasks (v : Z → task_struct) (s : state) : state :=
  State v (rqs s) (tasklist s) (mm_users s) (mm_count s) (warned s).
Definition with_rqs (v : Z → rq) (s : state) : state :=
  State (tasks s) v (tasklist s) (mm_users s) (mm_count s) (warned s).
Definition with_tasklist (v : list Z) (s : state) : state :=
  State (tasks s) (rqs s) v (mm_users s) (mm_count s) (warned s).
Definition with_mm_users (v : Z → Z) (s : state) : state :=
  State (tasks s) (rqs s) (tasklist s) v (mm_count s) (warned s).
Definition with_mm_count (v : Z → Z) (s : state) : state :=
  State (tasks s) (rqs s) (tasklist s) (mm_users s) v (warned s).
Definition with_warned (v : bool) (s : state) : state :=
  State (tasks s) (rqs s) (tasklist s) (mm_users s) (mm_count s) v.

Definition upd_task (p : Z) (f : task_struct → task_struct) (s : state) : state :=
  with_tasks (<[p := f (tasks s p)]> (tasks s)) s.
Definition upd_rq (c : Z) (f : rq → rq) (s : state) : state :=
  with_rqs (<[c := f (rqs s c)]> (rqs s)) s.
Definition set_at (c : Z) (x : place) (s : state) : state := upd_rq c (with_at_ x) s.
Definition set_doing (c : Z) (x : option activity) (s : state) : state := upd_rq c (with_doing x) s.
Definition warn (s : state) : state := with_warned true s.

(** The sum of [f] over a list, as for_each_possible_cpu computes it. *)
Definition sum_over (f : Z → Z) (l : list Z) : Z := foldr (λ x n, f x + n) 0 l.

(** What the model takes from the machine and from other files of the kernel:
    the processors and their idle tasks, cpu_active, the identifier of the
    shared cache, the feature TTWU_QUEUE, [rq->nr_running] and
    vcpu_is_preempted. *)
Class machine := {
  cpus : list Z;
  idle : Z → Z;
  cpu_active : Z → bool;
  sd_llc_id : Z → Z;
  TTWU_QUEUE : bool;
  nr_running : state → Z → Z;
  vcpu_is_preempted : Z → bool;
}.

(** The changes of [mm] and [active_mm] that the rest of the kernel (exec,
    exit, kernel threads that borrow a memory) makes for the current task of a
    processor: the new fields, [mm_users] and [mm_count] of the [k]-th kind
    of change, none when it cannot happen. *)
Class mm_code := {
  change_mm : Z → Z → state → option (option Z * option Z * (Z → Z) * (Z → Z));
}.

(** * Locks and states *)

Section machine.
Context `{!machine}.

(** The lock of a run queue is held over several steps by [__schedule] and by
    [sched_ttwu_pending] of its own processor only. *)
Definition rq_locked (c : Z) (s : state) : bool :=
  match at_ (rqs s c) with
  | Locked _ | Loaded _ _ | Picking _ | Switched _ | Saved _ _ _ | Finished _ _ _ => true
  | Run | Dying | Balancing _ | Tail _ _ _ => false
  end ||
  match doing (rqs s c) with Some (PendLocked _) => true | _ => false end.

Definition interrupts_on (x : place) : bool :=
  match x with Run | Dying | Tail _ _ _ => true | _ => false end.

(** The current task of [c] executes its own code. *)
Definition executes (c : Z) (s : state) : bool :=
  bool_decide (c ∈ cpus) && bool_decide (at_ (rqs s c) = Run) && bool_decide (doing (rqs s c) = None).

(** [state & mask] *)
Definition matches (state mask : Z) : bool := negb (Z.land state mask =? 0).

Definition is_special_task_state (v : Z) : bool :=
  matches v (Z.lor (Z.lor TASK_STOPPED_ TASK_TRACED_) (Z.lor TASK_PARKED TASK_DEAD)).

(** The states that only the scheduler sets are not in [v]. *)
Definition plain (v : Z) : bool := negb (matches v (Z.lor (Z.lor TASK_DEAD TASK_WAKING) TASK_NEW)).

Definition is_idle (p : Z) : bool := bool_decide (Exists (λ c, idle c = p) cpus).

Definition pi_free (p : Z) (s : state) : bool := bool_decide (pi_lock (tasks s p) = None).

Definition set_current_state (c v : Z) (s : state) : state := upd_task (curr (rqs s c)) (with_st v) s.

(** [raw_spin_lock(&current->pi_lock)] spins while somebody holds it. *)
Definition set_special_state (c v : Z) (s : state) : option state :=
  if pi_free (curr (rqs s c)) s then Some (set_current_state c v s) else None.

(** * References to memories and tasks *)

Definition mmgrab (m : Z) (s : state) : state := with_mm_count (<[m := mm_count s m + 1]> (mm_count s)) s.
Definition mmdrop (m : Z) (s : state) : res state :=
  if decide (1 ≤ mm_count s m) then Ok (with_mm_count (<[m := mm_count s m - 1]> (mm_count s)) s)
  else Undef UseAfterFree.

Definition put_task_struct_rcu_user (p : Z) (s : state) : res state :=
  if current_ref (tasks s p) then Ok (upd_task p (with_current_ref false) s) else Undef UseAfterFree.

(** * Run queues *)

Definition TASK_ON_RQ_QUEUED : Z := 1.
Definition TASK_ON_RQ_MIGRATING : Z := 2.
Definition task_on_rq_queued (p : task_struct) : bool := on_rq p =? TASK_ON_RQ_QUEUED.
Definition task_on_rq_migrating (p : task_struct) : bool := on_rq p =? TASK_ON_RQ_MIGRATING.

Definition activate_task (p : Z) (s : state) : state := upd_task p (with_on_rq TASK_ON_RQ_QUEUED) s.
Definition deactivate_task (p : Z) (sleep : bool) (s : state) : state :=
  upd_task p (with_on_rq (if sleep then 0 else TASK_ON_RQ_MIGRATING)) s.

Definition add_iowait (c n : Z) (s : state) : state := upd_rq c (λ r, with_nr_iowait (nr_iowait r + n) r) s.
Definition add_uninterruptible (c n : Z) (s : state) : state :=
  upd_rq c (λ r, with_nr_uninterruptible (wrapu64 (nr_uninterruptible r + n)) r) s.

(** * Waking *)

(** Without the wake-up preemption and the statistics. *)
Definition ttwu_do_wakeup (p : Z) (s : state) : state := upd_task p (with_st TASK_RUNNING) s.

Definition ttwu_do_activate (c p : Z) (migrated : bool) (s : state) : state :=
  let s := if contributes (tasks s p) then add_uninterruptible c (-1) s else s in
  let s := if negb migrated && in_iowait (tasks s p) then add_iowait (cpu (tasks s p)) (-1) s else s in
  ttwu_do_wakeup p (activate_task p s).

Definition cpus_share_cache (this_cpu that_cpu : Z) : bool := sd_llc_id this_cpu =? sd_llc_id that_cpu.

Definition ttwu_queue_cond (w c : Z) (on_cpu_flag : bool) (s : state) : bool :=
  if negb (cpu_active c) then false
  else if negb (cpus_share_cache w c) then true
  else on_cpu_flag && (nr_running s c <=? 1).

Definition __ttwu_queue_wakelist (p c : Z) (migrated : bool) (s : state) : state :=
  let s := upd_task p (with_remote_wakeup migrated) s in
  let s := upd_rq c (with_ttwu_pending true) s in
  upd_rq c (λ r, with_wake_list (wake_list r ++ [p]) r) s.

Definition ttwu_queue_wakelist (w p c : Z) (migrated on_cpu_flag : bool) (s : state) : bool * state :=
  if TTWU_QUEUE && ttwu_queue_cond w c on_cpu_flag s then
    if c =? w then (false, warn s) else (true, __ttwu_queue_wakelist p c migrated s)
  else (false, s).

(** None while another processor holds the lock or moves the task. *)
Definition ttwu_runnable (p : Z) (s : state) : option (bool * state) :=
  if rq_locked (cpu (tasks s p)) s || task_on_rq_migrating (tasks s p) then None
  else if task_on_rq_queued (tasks s p) then Some (true, ttwu_do_wakeup p s)
  else Some (false, s).

Definition ttwu_queue (w p c : Z) (migrated : bool) (s : state) : option state :=
  let '(queued, s) := ttwu_queue_wakelist w p c migrated false s in
  if queued : bool then Some s
  else if rq_locked c s then None
  else Some (ttwu_do_activate c p migrated s).

(** The warnings of [set_task_cpu]. The second one is for fair tasks; here it is for all.
    The steps hold the locks that the third one asks for, and no task disables its migration. *)
Definition set_task_cpu_warns (t : task_struct) (dest : Z) : bool :=
  negb (st t =? TASK_RUNNING) && negb (st t =? TASK_WAKING) && (on_rq t =? 0)
  || (st t =? TASK_RUNNING) && negb (on_rq t =? 0) && negb (task_on_rq_migrating t)
  || negb (bool_decide (dest ∈ cpus)).
Definition set_task_cpu (p dest : Z) (s : state) : state :=
  upd_task p (with_cpu dest) (with_warned (warned s || set_task_cpu_warns (tasks s p) dest) s).

(** [raw_spin_unlock(&p->pi_lock)] and the end of [try_to_wake_up]. *)
Definition unlock_pi (w p : Z) (s : state) : state := set_doing w None (upd_task p (with_pi_lock None) s).

(** The next step of [try_to_wake_up] on processor [w]; [dest] is the answer
    of select_task_rq. None while it spins. *)
Definition try_to_wake_up (w dest : Z) (a : activity) (s : state) : option state :=
  match a with
  | WakeEnter p mask =>
      let t := tasks s p in
      if p =? curr (rqs s w) then
        let s := set_doing w None s in
        Some (if matches (st t) mask then upd_task p (with_st TASK_RUNNING) s else s)
      else if pi_free p s then
        Some (if matches (st t) mask
              then set_doing w (Some (WakeMatched p)) (upd_task p (with_pi_lock (Some w)) s)
              else set_doing w None s)
      else None
  | WakeMatched p =>
      Some (set_doing w (Some (if on_rq (tasks s p) =? 0 then WakeOff p else WakeRunnable p)) s)
  | WakeRunnable p =>
      '(ret, s) ← ttwu_runnable p s;
      Some (if ret : bool then unlock_pi w p s else set_doing w (Some (WakeOff p)) s)
  | WakeOff p => Some (set_doing w (Some (WakeWaking p)) (upd_task p (with_st TASK_WAKING) s))
  | WakeWaking p => Some (set_doing w (Some (if on_cpu (tasks s p) then WakeOnCpu p else WakeSpin p)) s)
  | WakeOnCpu p =>
      let '(queued, s) := ttwu_queue_wakelist w p (cpu (tasks s p)) false true s in
      Some (if queued : bool then unlock_pi w p s else set_doing w (Some (WakeSpin p)) s)
  | WakeSpin p =>
      let t := tasks s p in
      if on_cpu t then None
      else if decide (dest ∈ cpus) then
        if cpu t =? dest then Some (set_doing w (Some (WakeQueue p false)) s)
        else
          let s := if in_iowait t then add_iowait (cpu t) (-1) s else s in
          Some (set_doing w (Some (WakeQueue p true)) (set_task_cpu p dest s))
      else None
  | WakeQueue p migrated => unlock_pi w p <$> ttwu_queue w p (cpu (tasks s p)) migrated s
  | _ => None
  end.

(** [wake_up_new_task]. *)
Definition wake_up_new_task (w dest : Z) (a : activity) (s : state) : option state :=
  match a with
  | NewPlace p =>
      if pi_free p s && bool_decide (dest ∈ cpus) then
        let s := upd_task p (λ t, with_cpu dest (with_st TASK_RUNNING (with_pi_lock (Some w) t))) s in
        Some (set_doing w (Some (NewQueue p)) s)
      else None
  | NewQueue p =>
      if rq_locked (cpu (tasks s p)) s then None else Some (unlock_pi w p (activate_task p s))
  | _ => None
  end.

Definition sched_ttwu_pending (c : Z) (a : activity) (s : state) : option state :=
  match a with
  | PendStart l => Some (set_doing c (Some (PendLocked l)) (upd_rq c (with_ttwu_pending false) s))
  | PendLocked [] => Some (set_doing c None s)
  | PendLocked (p :: l) =>
      if on_cpu (tasks s p) then Some (warn s)
      else
        let s := if cpu (tasks s p) =? c then s else set_task_cpu p c (warn s) in
        let s := ttwu_do_activate c p (remote_wakeup (tasks s p)) s in
        Some (set_doing c (Some (PendLocked l)) s)
  | _ => None
  end.

(** The second half of [move_queued_task], on the new run queue. *)
Definition move_queued_task_end (w p dest : Z) (s : state) : option (res state) :=
  if rq_locked (cpu (tasks s p)) s then None
  else if cpu (tasks s p) =? dest then Some (Ok (set_doing w None (activate_task p s)))
  else Some (Undef BugOn).

(** * Switching *)

(** [__schedule] between the load of [prev->state] and [pick_next_task];
    [signal] is the answer of signal_pending_state. *)
Definition deactivate_prev (c : Z) (preempt : bool) (prev_state : Z) (signal : bool) (s : state) : state :=
  let prev := curr (rqs s c) in
  if preempt || (prev_state =? 0) then set_at c (Picking false) s
  else
    let s :=
      if signal then upd_task prev (with_st TASK_RUNNING) s
      else
        let load := matches prev_state TASK_UNINTERRUPTIBLE && negb (matches prev_state TASK_NOLOAD) &&
                    negb (frozen (tasks s prev)) in
        let s := upd_task prev (with_contributes load) s in
        let s := if load then add_uninterruptible c 1 s else s in
        let s := deactivate_task prev true s in
        if in_iowait (tasks s prev) then add_iowait c 1 s else s in
    set_at c (Picking true) s.

(** The memories of the tasks in [context_switch]. *)
Definition switch_memory (c prev next : Z) (s : state) : res state :=
  let active := active_mm (tasks s prev) in
  match mm (tasks s next) with
  | None =>
      let s := upd_task next (with_active_mm active) s in
      match mm (tasks s prev) with
      | Some _ => m ← opt NullPointer active; Ok (mmgrab m s)
      | None => Ok (upd_task prev (with_active_mm None) s)
      end
  | Some _ =>
      _ ← opt NullPointer active;
      match mm (tasks s prev) with
      | Some _ => Ok s
      | None => Ok (upd_task prev (with_active_mm None) (upd_rq c (with_prev_mm active) s))
      end
  end.

Definition prepare_task (next : Z) (s : state) : state := upd_task next (with_on_cpu true) s.

(** [context_switch] up to [switch_to]; [prepare_task_switch] is
    [prepare_task(next)]. *)
Definition context_switch (c prev next : Z) (s : state) : res state :=
  s ← switch_memory c prev next (prepare_task next s);
  Ok (set_at c (Switched prev) s).

(** The return into [next]; a dead task reaches the BUG() of [do_task_dead]. *)
Definition resume (c : Z) (s : state) : res state :=
  if decide (st (tasks s (curr (rqs s c))) = TASK_DEAD) then Undef BugOn else Ok (set_at c Run s).

(** [__schedule] from the result of [pick_next_task] on. *)
Definition switch_to_next (c : Z) (voluntary : bool) (next : Z) (s : state) : res state :=
  let prev := curr (rqs s c) in
  if prev =? next then resume c s
  else
    let s := upd_rq c (λ r, with_curr next (with_nr_switches (wrapu64 (nr_switches r + 1)) r)) s in
    let s := upd_task prev (λ t, if voluntary then with_nvcsw (wrapu64 (nvcsw t + 1)) t
                                 else with_nivcsw (wrapu64 (nivcsw t + 1)) t) s in
    context_switch c prev next s.

(** [finish_task_switch] up to the load of [prev->state]. *)
Definition save_prev (c prev : Z) (s : state) : state :=
  let m := prev_mm (rqs s c) in
  set_at c (Saved prev (st (tasks s prev)) m) (upd_rq c (with_prev_mm None) s).

Definition finish_task (prev : Z) (s : state) : state := upd_task prev (with_on_cpu false) s.

Definition finish_lock_switch (c prev prev_state : Z) (m : option Z) (s : state) : state :=
  set_at c (Tail prev prev_state m) s.

(** The rest of [finish_task_switch], after the unlocking. *)
Definition drop_prev (c prev prev_state : Z) (m : option Z) (s : state) : res state :=
  s ← match m with Some m => mmdrop m s | None => Ok s end;
  s ← if prev_state =? TASK_DEAD then put_task_struct_rcu_user prev s else Ok s;
  resume c s.

(** * New tasks *)

(** The fields [sched_fork] sets in the copy of the current task; its memory
    [m] comes from copy_mm. *)
Definition sched_fork (c : Z) (m : option Z) (t : task_struct) : task_struct :=
  Task TASK_NEW 0 false c None (contributes t) (in_iowait t) false (remote_wakeup t) 0 0 m m true NoLoop false.

(** * Steps *)

Inductive label : Set :=
  | SetState (c v : Z)
  | SetIowait (c : Z) (b : bool)
  | SetFrozen (c : Z) (b : bool)
  | ClearCondition (c : Z)
  | LoopEnter (c : Z)
  | LoopTest (c : Z)
  | DoTaskDead (c : Z)
  | ChangeMm (c k : Z)
  | Fork (c p : Z) (m : option Z)
  | Schedule (c : Z)
  | Preempt (c : Z)
  | LoadState (c : Z)
  | Deactivate (c : Z) (signal : bool)
  | Balance (c : Z)
  | Balanced (c : Z)
  | Pick (c next : Z)
  | SavePrev (c : Z)
  | FinishTask (c : Z)
  | FinishLockSwitch (c : Z)
  | DropPrev (c : Z)
  | TryToWakeUp (c p mask : Z)
  | SetCondition (c p : Z)
  | Interrupt (c : Z) (l : list Z)
  | MoveQueued (c p dest : Z)
  | Continue (c dest : Z).

(** What the current task of [c] does itself. *)
Definition do_task (l : label) (s : state) : option (res state) :=
  match l with
  | SetState c v =>
      if executes c s && plain v && negb (is_idle (curr (rqs s c))) &&
         bool_decide (loop (tasks s (curr (rqs s c))) = NoLoop)
      then Ok <$> (if is_special_task_state v then set_special_state c v s else Some (set_current_state c v s))
      else None
  | SetIowait c b =>
      if executes c s then Some (Ok (upd_task (curr (rqs s c)) (with_in_iowait b) s)) else None
  | SetFrozen c b =>
      if executes c s then Some (Ok (upd_task (curr (rqs s c)) (with_frozen b) s)) else None
  | ClearCondition c =>
      if executes c s && bool_decide (loop (tasks s (curr (rqs s c))) = NoLoop)
      then Some (Ok (upd_task (curr (rqs s c)) (with_condition false) s)) else None
  | LoopEnter c =>
      let p := curr (rqs s c) in
      if executes c s && negb (is_idle p) && bool_decide (loop (tasks s p) = NoLoop ∨ loop (tasks s p) = Again)
      then Some (Ok (upd_task p (with_loop Test) (set_current_state c TASK_UNINTERRUPTIBLE s))) else None
  | LoopTest c =>
      let p := curr (rqs s c) in
      if executes c s && bool_decide (loop (tasks s p) = Test)
      then Some (Ok (if condition (tasks s p)
                     then upd_task p (with_loop NoLoop) (set_current_state c TASK_RUNNING s)
                     else upd_task p (with_loop Sleep) s))
      else None
  | DoTaskDead c =>
      if executes c s && negb (is_idle (curr (rqs s c))) && bool_decide (loop (tasks s (curr (rqs s c))) = NoLoop)
      then (λ s, Ok (set_at c Dying s)) <$> set_special_state c TASK_DEAD s
      else None
  | Schedule c =>
      let p := curr (rqs s c) in
      let locked := upd_task p (λ t, if decide (loop t = Sleep) then with_loop Again t else t)
                      (set_at c (Locked false) s) in
      if executes c s && bool_decide (loop (tasks s p) = NoLoop ∨ loop (tasks s p) = Sleep) then Some (Ok locked)
      else if bool_decide (c ∈ cpus) && bool_decide (at_ (rqs s c) = Dying) && bool_decide (doing (rqs s c) = None)
      then Some (Ok locked) else None
  | Preempt c => if executes c s then Some (Ok (set_at c (Locked true) s)) else None
  | _ => None
  end.

(** The steps of [__schedule] with the lock of the run queue. *)
Definition do_schedule (l : label) (s : state) : option (res state) :=
  match l with
  | LoadState c =>
      match at_ (rqs s c) with
      | Locked b => Some (Ok (set_at c (Loaded b (st (tasks s (curr (rqs s c))))) s))
      | _ => None
      end
  | Deactivate c signal =>
      match at_ (rqs s c) with
      | Loaded b v =>
          if negb signal || matches v (Z.lor TASK_INTERRUPTIBLE TASK_WAKEKILL)
          then Some (Ok (deactivate_prev c b v signal s)) else None
      | _ => None
      end
  | Balance c => match at_ (rqs s c) with Picking b => Some (Ok (set_at c (Balancing b) s)) | _ => None end
  | Balanced c =>
      match at_ (rqs s c), doing (rqs s c) with
      | Balancing b, None => Some (Ok (set_at c (Picking b) s))
      | _, _ => None
      end
  | Pick c next =>
      match at_ (rqs s c) with
      | Picking b =>
          if task_on_rq_queued (tasks s next) && (cpu (tasks s next) =? c)
          then Some (switch_to_next c b next s) else None
      | _ => None
      end
  | SavePrev c => match at_ (rqs s c) with Switched prev => Some (Ok (save_prev c prev s)) | _ => None end
  | FinishTask c =>
      match at_ (rqs s c) with
      | Saved prev v m => Some (Ok (set_at c (Finished prev v m) (finish_task prev s)))
      | _ => None
      end
  | FinishLockSwitch c =>
      match at_ (rqs s c) with
      | Finished prev v m => Some (Ok (finish_lock_switch c prev v m s))
      | _ => None
      end
  | DropPrev c =>
      match at_ (rqs s c), doing (rqs s c) with
      | Tail prev v m, None => Some (drop_prev c prev v m s)
      | _, _ => None
      end
  | _ => None
  end.

(** The start of an activity and its continuation. *)
Definition can_start (c : Z) (s : state) : bool :=
  bool_decide (c ∈ cpus) && interrupts_on (at_ (rqs s c)) && bool_decide (doing (rqs s c) = None).

Definition do_activity (l : label) (s : state) : option (res state) :=
  match l with
  | TryToWakeUp c p mask =>
      if can_start c s && bool_decide (p ∈ tasklist s) && plain mask
      then Some (Ok (set_doing c (Some (WakeEnter p mask)) s)) else None
  | SetCondition c p =>
      if can_start c s && bool_decide (p ∈ tasklist s)
      then Some (Ok (set_doing c (Some (WakeEnter p TASK_UNINTERRUPTIBLE)) (upd_task p (with_condition true) s)))
      else None
  | Interrupt c l =>
      if can_start c s && bool_decide (l ≡ₚ wake_list (rqs s c)) && negb (bool_decide (l = []))
      then Some (Ok (set_doing c (Some (PendStart l)) (upd_rq c (with_wake_list []) s))) else None
  | MoveQueued c p dest =>
      let t := tasks s p in
      if bool_decide (c ∈ cpus) && bool_decide (doing (rqs s c) = None) &&
         (interrupts_on (at_ (rqs s c)) || match at_ (rqs s c) with Balancing _ => true | _ => false end) &&
         task_on_rq_queued t && negb (on_cpu t) && negb (is_idle p) && negb (rq_locked (cpu t) s) &&
         bool_decide (dest ∈ cpus)
      then Some (Ok (set_doing c (Some (Moving p dest)) (set_task_cpu p dest (deactivate_task p false s))))
      else None
  | Continue c dest =>
      match doing (rqs s c) with
      | Some (Moving p d) => move_queued_task_end c p d s
      | Some ((NewPlace _ | NewQueue _) as a) => Ok <$> wake_up_new_task c dest a s
      | Some ((PendStart _ | PendLocked _) as a) => Ok <$> sched_ttwu_pending c a s
      | Some a => Ok <$> try_to_wake_up c dest a s
      | None => None
      end
  | Fork c p m =>
      if executes c s && negb (bool_decide (p ∈ tasklist s)) &&
         match m with Some m => bool_decide (1 ≤ mm_users s m) | None => true end
      then
        let s := upd_task p (λ _, sched_fork c m (tasks s (curr (rqs s c)))) (with_tasklist (p :: tasklist s) s) in
        Some (Ok (set_doing c (Some (NewPlace p)) s))
      else None
  | _ => None
  end.

Context `{!mm_code}.

Definition do_mm (l : label) (s : state) : option (res state) :=
  match l with
  | ChangeMm c k =>
      if executes c s then
        '(m, active, users, count) ← change_mm k c s;
        Some (Ok (with_mm_count count (with_mm_users users
                   (upd_task (curr (rqs s c)) (λ t, with_active_mm active (with_mm m t)) s))))
      else None
  | _ => None
  end.

Definition do (l : label) (s : state) : option (res state) :=
  match l with
  | SetState _ _ | SetIowait _ _ | SetFrozen _ _ | ClearCondition _ | LoopEnter _ | LoopTest _ | DoTaskDead _
  | Schedule _ | Preempt _ => do_task l s
  | LoadState _ | Deactivate _ _ | Balance _ | Balanced _ | Pick _ _ | SavePrev _ | FinishTask _
  | FinishLockSwitch _ | DropPrev _ => do_schedule l s
  | ChangeMm _ _ => do_mm l s
  | _ => do_activity l s
  end.

Definition step (s s' : state) : Prop := ∃ l, do l s = Some (Ok s').

(** * Statistics and queries *)

Definition sum_cpus (f : Z → Z) : Z := sum_over f cpus.
Definition nr_context_switches (s : state) : Z := wrapu64 (sum_cpus (λ c, nr_switches (rqs s c))).
Definition nr_iowait_cpu (c : Z) (s : state) : Z := nr_iowait (rqs s c).
Definition nr_iowait_all (s : state) : Z := sum_cpus (λ c, nr_iowait_cpu c s).
Definition idle_cpu (c : Z) (s : state) : bool :=
  bool_decide (curr (rqs s c) = idle c) && (nr_running s c =? 0) && negb (ttwu_pending (rqs s c)).
Definition available_idle_cpu (c : Z) (s : state) : bool := idle_cpu c s && negb (vcpu_is_preempted c).

(** After [sched_init]: every processor runs its idle task, which
    [init_idle] has set up with the memory [init_mm]. *)
Definition init_idle (c init_mm : Z) : task_struct :=
  Task TASK_RUNNING TASK_ON_RQ_QUEUED true c None false false false false 0 0 None (Some init_mm) true NoLoop false.
Definition unborn : task_struct := Task TASK_NEW 0 false 0 None false false false false 0 0 None None false NoLoop false.
Definition sched_init (init_mm : Z) : state :=
  State (λ p, match filter (λ c, idle c = p) cpus with c :: _ => init_idle c init_mm | [] => unborn end)
        (λ c, Rq (idle c) 0 0 0 None false [] Run None)
        (idle <$> cpus) (λ m, if decide (m = init_mm) then 1 else 0)
        (λ m, if decide (m = init_mm) then 1 + Z.of_nat (length cpus) else 0) false.
End machine.
