(* ===== verification/SwitchInv.v ===== *)
(** The invariant of Switch: every task is in one place (current, previous,
    queued, moving, new, on a list of remote wake-ups, or asleep), and each
    activity of a processor finds the tasks as it expects them. Every step
    preserves it and has a result. *)
From S2P Require Import Prelude Switch.
Local Open Scope Z_scope.

(** The processors are different and have different idle tasks. *)
Class machine_ok `{!machine} : Prop := {
  cpus_nodup : NoDup cpus;
  idle_inj : ∀ c d, c ∈ cpus → d ∈ cpus → idle c = idle d → c = d;
}.

(** * The invariant *)

Definition prev_of (x : place) : option Z :=
  match x with Switched p | Saved p _ _ => Some p | _ => None end.

(** The current task may have left the run queue. *)
Definition picking (x : place) : bool :=
  match x with Picking _ | Balancing _ => true | _ => false end.

(** A dead task has not left its run queue yet. *)
Definition dying (x : place) : bool :=
  match x with Dying | Locked false | Loaded false _ => true | _ => false end.

(** The task whose death [finish_task_switch] has still to account for. *)
Definition burying (x : place) : option Z :=
  match x with
  | Saved p v _ | Finished p v _ | Tail p v _ => if v =? TASK_DEAD then Some p else None
  | _ => None
  end.
Definition buried_off (x : place) : option Z :=
  match x with
  | Finished p v _ | Tail p v _ => if v =? TASK_DEAD then Some p else None
  | _ => None
  end.

Definition awake (v : Z) : Prop := v ≠ TASK_WAKING ∧ v ≠ TASK_NEW ∧ v ≠ TASK_DEAD.

Definition holds (a : activity) : option Z :=
  match a with
  | WakeMatched p | WakeRunnable p | WakeOff p | WakeWaking p | WakeOnCpu p | WakeSpin p
  | WakeQueue p _ | NewQueue p => Some p
  | _ => None
  end.

Definition late (a : activity) : option Z :=
  match a with WakeWaking p | WakeOnCpu p | WakeSpin p | WakeQueue p _ => Some p | _ => None end.

Definition in_hand (a : option activity) : list Z :=
  match a with Some (PendStart l | PendLocked l) => l | _ => [] end.

Definition pending (s : state) (c : Z) : list Z := wake_list (rqs s c) ++ in_hand (doing (rqs s c)).

Definition compatible (x : place) (a : activity) : bool :=
  interrupts_on x || match x, a with Balancing _, Moving _ _ => true | _, _ => false end.

Section inv.
Context `{M : machine}.

Definition activity_ok (s : state) (c : Z) (a : activity) : Prop :=
  match a with
  | WakeEnter p mask => p ∈ tasklist s ∧ plain mask = true
  | WakeMatched p | WakeRunnable p => p ∈ tasklist s ∧ p ≠ curr (rqs s c) ∧ awake (st (tasks s p))
  | WakeOff p =>
      p ∈ tasklist s ∧ p ≠ curr (rqs s c) ∧ awake (st (tasks s p)) ∧ on_rq (tasks s p) = 0
  | WakeWaking p | WakeSpin p =>
      p ∈ tasklist s ∧ p ≠ curr (rqs s c) ∧ st (tasks s p) = TASK_WAKING ∧ on_rq (tasks s p) = 0
  | WakeOnCpu p =>
      p ∈ tasklist s ∧ p ≠ curr (rqs s c) ∧ st (tasks s p) = TASK_WAKING ∧ on_rq (tasks s p) = 0 ∧
      cpu (tasks s p) ≠ c
  | WakeQueue p _ =>
      p ∈ tasklist s ∧ st (tasks s p) = TASK_WAKING ∧ on_rq (tasks s p) = 0 ∧ on_cpu (tasks s p) = false
  | NewPlace p =>
      p ∈ tasklist s ∧ st (tasks s p) = TASK_NEW ∧ on_rq (tasks s p) = 0 ∧ on_cpu (tasks s p) = false
  | NewQueue p =>
      p ∈ tasklist s ∧ st (tasks s p) = TASK_RUNNING ∧ on_rq (tasks s p) = 0 ∧ on_cpu (tasks s p) = false
  | PendStart _ | PendLocked _ => True
  | Moving p dest =>
      p ∈ tasklist s ∧ on_rq (tasks s p) = 2 ∧ on_cpu (tasks s p) = false ∧ cpu (tasks s p) = dest ∧
      is_idle p = false
  end.

(** Which task is where. *)
Record places_ok (s : state) : Prop := {
  p_curr c : c ∈ cpus →
    on_cpu (tasks s (curr (rqs s c))) = true ∧ cpu (tasks s (curr (rqs s c))) = c ∧
    curr (rqs s c) ∈ tasklist s ∧
    (on_rq (tasks s (curr (rqs s c))) = 1 ∨
     on_rq (tasks s (curr (rqs s c))) = 0 ∧ picking (at_ (rqs s c)) = true);
  p_prev c q : prev_of (at_ (rqs s c)) = Some q →
    on_cpu (tasks s q) = true ∧ cpu (tasks s q) = c ∧ q ≠ curr (rqs s c) ∧ q ∈ tasklist s ∧
    on_rq (tasks s q) ≠ 2;
  p_on_cpu p : on_cpu (tasks s p) = true →
    curr (rqs s (cpu (tasks s p))) = p ∨ prev_of (at_ (rqs s (cpu (tasks s p)))) = Some p;
  p_at c : at_ (rqs s c) ≠ Run → c ∈ cpus;
  p_cpu p : p ∈ tasklist s → cpu (tasks s p) ∈ cpus;
  p_unborn p : p ∉ tasklist s →
    st (tasks s p) = TASK_NEW ∧ on_rq (tasks s p) = 0 ∧ on_cpu (tasks s p) = false ∧ pi_lock (tasks s p) = None;
  p_on_rq p : on_rq (tasks s p) = 0 ∨ on_rq (tasks s p) = 1 ∨ on_rq (tasks s p) = 2;
  p_loaded c b v : at_ (rqs s c) = Loaded b v → st (tasks s (curr (rqs s c))) = v;
  p_idle c : c ∈ cpus →
    idle c ∈ tasklist s ∧ on_rq (tasks s (idle c)) = 1 ∧ cpu (tasks s (idle c)) = c ∧
    st (tasks s (idle c)) = TASK_RUNNING;
}.

(** Which activity works on which task. *)
Record activities_ok (s : state) : Prop := {
  a_doing c a : doing (rqs s c) = Some a →
    c ∈ cpus ∧ compatible (at_ (rqs s c)) a = true ∧ activity_ok s c a;
  a_pi p c : pi_lock (tasks s p) = Some c → doing (rqs s c) ≫= holds = Some p;
  a_holds p c : doing (rqs s c) ≫= holds = Some p → pi_lock (tasks s p) = Some c;
  a_moving p : on_rq (tasks s p) = 2 → ∃ c, doing (rqs s c) = Some (Moving p (cpu (tasks s p)));
  a_moving_one p x y c d : doing (rqs s c) = Some (Moving p x) → doing (rqs s d) = Some (Moving p y) → c = d;
  a_new p : p ∈ tasklist s → st (tasks s p) = TASK_NEW → ∃ c, doing (rqs s c) = Some (NewPlace p);
  a_new_one p c d : doing (rqs s c) = Some (NewPlace p) → doing (rqs s d) = Some (NewPlace p) → c = d;
  a_off p : on_rq (tasks s p) = 0 → st (tasks s p) = TASK_RUNNING → ∃ c, doing (rqs s c) = Some (NewQueue p);
  a_pending c p : p ∈ pending s c →
    p ∈ tasklist s ∧ on_rq (tasks s p) = 0 ∧ st (tasks s p) = TASK_WAKING ∧ cpu (tasks s p) = c;
  a_late c p d : p ∈ pending s c → doing (rqs s d) ≫= late ≠ Some p;
  a_nodup c : NoDup (pending s c);
  a_waking p : st (tasks s p) = TASK_WAKING →
    p ∈ pending s (cpu (tasks s p)) ∨ ∃ c, doing (rqs s c) ≫= late = Some p;
  a_warned : warned s = false;
}.

(** The end of tasks: the reference for the use as current is given back once. *)
Record deaths_ok (s : state) : Prop := {
  d_dead p : st (tasks s p) = TASK_DEAD →
    on_rq (tasks s p) = 0 ∨
    curr (rqs s (cpu (tasks s p))) = p ∧ dying (at_ (rqs s (cpu (tasks s p)))) = true;
  d_dying c : at_ (rqs s c) = Dying → st (tasks s (curr (rqs s c))) = TASK_DEAD;
  d_saved c p v m : at_ (rqs s c) = Saved p v m → st (tasks s p) = TASK_DEAD → v = TASK_DEAD;
  d_burying c p : burying (at_ (rqs s c)) = Some p →
    p ∈ tasklist s ∧ st (tasks s p) = TASK_DEAD ∧ on_rq (tasks s p) = 0 ∧ current_ref (tasks s p) = true;
  d_off c p : buried_off (at_ (rqs s c)) = Some p → on_cpu (tasks s p) = false;
  d_once c d p : buried_off (at_ (rqs s c)) = Some p → buried_off (at_ (rqs s d)) = Some p → c = d;
  d_ref p : p ∈ tasklist s → current_ref (tasks s p) = false →
    st (tasks s p) = TASK_DEAD ∧ on_rq (tasks s p) = 0 ∧ on_cpu (tasks s p) = false;
  d_left p : st (tasks s p) = TASK_DEAD → current_ref (tasks s p) = true →
    on_cpu (tasks s p) = true ∨ ∃ c, buried_off (at_ (rqs s c)) = Some p;
}.

Record inv (s : state) : Prop := {
  i_places : places_ok s;
  i_activities : activities_ok s;
  i_deaths : deaths_ok s;
}.
(** The current task of a processor that is not choosing another one. *)
Record running s p c : Prop := {
  r_on_rq : on_rq (tasks s p) = 1;
  r_on_cpu : on_cpu (tasks s p) = true;
  r_cpu : cpu (tasks s p) = c;
  r_known : p ∈ tasklist s;
  r_new : st (tasks s p) ≠ TASK_NEW;
  r_waking : st (tasks s p) ≠ TASK_WAKING;
  r_dead : dying (at_ (rqs s c)) = false → st (tasks s p) ≠ TASK_DEAD;
  r_pending d : p ∉ pending s d;
  r_prev d : prev_of (at_ (rqs s d)) ≠ Some p;
  r_saved d v m : at_ (rqs s d) ≠ Saved p v m;
  r_curr d : d ∈ cpus → curr (rqs s d) = p → d = c;
  r_burying d : burying (at_ (rqs s d)) ≠ Some p;
  r_ref : current_ref (tasks s p) = true;
  r_at d : curr (rqs s d) = p → d = c ∨ at_ (rqs s d) = Run;
}.

End inv.

(** * Lookups in updated states *)

Section updates.
Context `{M : machine}.
Implicit Types (s : state) (p q c d : Z).

(** A field [g] of a task or run queue after an update that keeps it, and after any. *)
Lemma task_kept {A} (g : task_struct → A) p f s q :
  (∀ t, g (f t) = g t) → g (tasks (upd_task p f s) q) = g (tasks s q).
Proof.
  intros E. cbn. destruct (decide (q = p)) as [->|]; [by rewrite fn_lookup_insert|].
  by rewrite fn_lookup_insert_ne.
Qed.
Lemma task_set {A} (g : task_struct → A) p f s q :
  g (tasks (upd_task p f s) q) = if decide (q = p) then g (f (tasks s p)) else g (tasks s q).
Proof. cbn. case_decide; subst; [by rewrite fn_lookup_insert|by rewrite fn_lookup_insert_ne]. Qed.
Lemma rq_kept {A} (g : rq → A) c f s d :
  (∀ r, g (f r) = g r) → g (rqs (upd_rq c f s) d) = g (rqs s d).
Proof.
  intros E. cbn. destruct (decide (d = c)) as [->|]; [by rewrite fn_lookup_insert|].
  by rewrite fn_lookup_insert_ne.
Qed.
Lemma rq_set {A} (g : rq → A) c f s d :
  g (rqs (upd_rq c f s) d) = if decide (d = c) then g (f (rqs s c)) else g (rqs s d).
Proof. cbn. case_decide; subst; [by rewrite fn_lookup_insert|by rewrite fn_lookup_insert_ne]. Qed.

Lemma pending_kept c f s d :
  (∀ r, wake_list (f r) = wake_list r) → (∀ r, in_hand (doing (f r)) = in_hand (doing r)) →
  pending (upd_rq c f s) d = pending s d.
Proof.
  intros E F. unfold pending. rewrite (rq_kept wake_list) by done.
  by rewrite (rq_kept (λ r, in_hand (doing r))) by done.
Qed.
Lemma pending_set c f s d :
  pending (upd_rq c f s) d =
  if decide (d = c) then wake_list (f (rqs s c)) ++ in_hand (doing (f (rqs s c))) else pending s d.
Proof. unfold pending. rewrite (rq_set wake_list), (rq_set doing). by case_decide. Qed.

Lemma pending_doing c o s d : in_hand (doing (rqs s c)) = in_hand o →
  pending (upd_rq c (with_doing o) s) d = pending s d.
Proof.
  intros E. rewrite pending_set. case_decide; [|done]. subst d. unfold pending. cbn [wake_list doing with_doing].
  by rewrite E.
Qed.

Lemma activity_rq c f s d a : (∀ r, curr (f r) = curr r) → activity_ok (upd_rq c f s) d a = activity_ok s d a.
Proof. intros E. destruct a; cbn [activity_ok]; rewrite ?(rq_kept curr) by done; done. Qed.

(** The fields the invariant speaks of. *)
Definition same_task (t u : task_struct) : Prop :=
  st t = st u ∧ on_rq t = on_rq u ∧ on_cpu t = on_cpu u ∧ cpu t = cpu u ∧ pi_lock t = pi_lock u ∧
  current_ref t = current_ref u.
Definition same_rq (r u : rq) : Prop :=
  curr r = curr u ∧ wake_list r = wake_list u ∧ at_ r = at_ u ∧ doing r = doing u.
Definition same (s s' : state) : Prop :=
  (∀ p, same_task (tasks s p) (tasks s' p)) ∧ (∀ c, same_rq (rqs s c) (rqs s' c)) ∧
  tasklist s = tasklist s' ∧ warned s = warned s'.

Lemma same_inv s s' : same s s' → inv s → inv s'.
Proof.
  intros (Ht & Hr & El & Ew) [[] [] []].
  assert (∀ p, st (tasks s p) = st (tasks s' p)) as E1 by apply Ht.
  assert (∀ p, on_rq (tasks s p) = on_rq (tasks s' p)) as E2 by apply Ht.
  assert (∀ p, on_cpu (tasks s p) = on_cpu (tasks s' p)) as E3 by apply Ht.
  assert (∀ p, cpu (tasks s p) = cpu (tasks s' p)) as E4 by apply Ht.
  assert (∀ p, pi_lock (tasks s p) = pi_lock (tasks s' p)) as E5 by apply Ht.
  assert (∀ p, current_ref (tasks s p) = current_ref (tasks s' p)) as E6 by apply Ht.
  assert (∀ c, curr (rqs s c) = curr (rqs s' c)) as F1 by apply Hr.
  assert (∀ c, at_ (rqs s c) = at_ (rqs s' c)) as F2 by apply Hr.
  assert (∀ c, doing (rqs s c) = doing (rqs s' c)) as F3 by apply Hr.
  assert (∀ c, pending s c = pending s' c) as F4.
  { intros c. unfold pending. destruct (Hr c) as (_ & -> & _ & ->). done. }
  assert (∀ c a, activity_ok s c a → activity_ok s' c a) as F5.
  { intros c a. destruct a; simpl; rewrite ?El, ?E1, ?E2, ?E3, ?E4, ?F1; done. }
  split; split; intros *; rewrite <- ?Ew; setoid_rewrite <- E1 || idtac; setoid_rewrite <- E2 || idtac;
    setoid_rewrite <- E3 || idtac; setoid_rewrite <- E4 || idtac; setoid_rewrite <- E5 || idtac;
    setoid_rewrite <- E6 || idtac; setoid_rewrite <- F1 || idtac; setoid_rewrite <- F2 || idtac;
    setoid_rewrite <- F3 || idtac; setoid_rewrite <- F4 || idtac; rewrite <- ?El; eauto.
  intros Ha. destruct (a_doing0 _ _ Ha) as (? & ? & ?). auto.
Qed.
End updates.

(** Simplify the lookups in an updated state. *)
Ltac look_task g :=
  repeat match goal with
  | |- context [g (tasks (upd_task ?p ?f ?s) ?q)] =>
      first [rewrite (task_kept g p f s q) by reflexivity | rewrite (task_set g p f s q)]
  | H : context [g (tasks (upd_task ?p ?f ?s) ?q)] |- _ =>
      first [rewrite (task_kept g p f s q) in H by reflexivity | rewrite (task_set g p f s q) in H]
  end.
Ltac look_rq g :=
  repeat match goal with
  | |- context [g (rqs (upd_rq ?c ?f ?s) ?d)] =>
      first [rewrite (rq_kept g c f s d) by reflexivity | rewrite (rq_set g c f s d)]
  | H : context [g (rqs (upd_rq ?c ?f ?s) ?d)] |- _ =>
      first [rewrite (rq_kept g c f s d) in H by reflexivity | rewrite (rq_set g c f s d) in H]
  end.
(** The wake-ups a processor has in hand do not change. *)
Ltac same_hand :=
  unfold upd_task; cbn [rqs with_tasks with_tasklist]; rewrite ?(rq_kept doing) by reflexivity;
  match goal with E : doing (rqs _ _) = _ |- _ => rewrite E; reflexivity | E : in_hand _ = _ |- _ => rewrite E; reflexivity
  | E : _ = in_hand _ |- _ => rewrite <- E; reflexivity end.
Ltac look_frame :=
  repeat match goal with
  | |- context [tasks (upd_rq ?c ?f ?s)] => change (tasks (upd_rq c f s)) with (tasks s)
  | |- context [rqs (upd_task ?c ?f ?s)] => change (rqs (upd_task c f s)) with (rqs s)
  | |- context [pending (upd_task ?c ?f ?s)] => change (pending (upd_task c f s)) with (pending s)
  | |- context [tasklist (upd_rq ?c ?f ?s)] => change (tasklist (upd_rq c f s)) with (tasklist s)
  | |- context [tasklist (upd_task ?c ?f ?s)] => change (tasklist (upd_task c f s)) with (tasklist s)
  | |- context [warned (upd_rq ?c ?f ?s)] => change (warned (upd_rq c f s)) with (warned s)
  | |- context [warned (upd_task ?c ?f ?s)] => change (warned (upd_task c f s)) with (warned s)
  | |- context [tasks (with_warned ?b ?s)] => change (tasks (with_warned b s)) with (tasks s)
  | |- context [rqs (with_warned ?b ?s)] => change (rqs (with_warned b s)) with (rqs s)
  | |- context [pending (with_warned ?b ?s)] => change (pending (with_warned b s)) with (pending s)
  | |- context [tasklist (with_warned ?b ?s)] => change (tasklist (with_warned b s)) with (tasklist s)
  | |- context [tasks (with_tasklist ?l ?s)] => change (tasks (with_tasklist l s)) with (tasks s)
  | |- context [rqs (with_tasklist ?l ?s)] => change (rqs (with_tasklist l s)) with (rqs s)
  | |- context [tasklist (with_tasklist ?l ?s)] => change (tasklist (with_tasklist l s)) with l
  | |- context [warned (with_tasklist ?l ?s)] => change (warned (with_tasklist l s)) with (warned s)
  | |- context [pending (with_tasklist ?l ?s)] => change (pending (with_tasklist l s)) with (pending s)
  | |- context [tasks (with_mm_count ?l ?s)] => change (tasks (with_mm_count l s)) with (tasks s)
  | |- context [rqs (with_mm_count ?l ?s)] => change (rqs (with_mm_count l s)) with (rqs s)
  | |- context [pending (with_mm_count ?l ?s)] => change (pending (with_mm_count l s)) with (pending s)
  | |- context [tasklist (with_mm_count ?l ?s)] => change (tasklist (with_mm_count l s)) with (tasklist s)
  | |- context [warned (with_mm_count ?l ?s)] => change (warned (with_mm_count l s)) with (warned s)
  | |- context [tasks (with_mm_users ?l ?s)] => change (tasks (with_mm_users l s)) with (tasks s)
  | |- context [rqs (with_mm_users ?l ?s)] => change (rqs (with_mm_users l s)) with (rqs s)
  | |- context [pending (with_mm_users ?l ?s)] => change (pending (with_mm_users l s)) with (pending s)
  | |- context [tasklist (with_mm_users ?l ?s)] => change (tasklist (with_mm_users l s)) with (tasklist s)
  | |- context [warned (with_mm_users ?l ?s)] => change (warned (with_mm_users l s)) with (warned s)
  | H : context [tasks (with_tasklist ?l ?s)] |- _ => change (tasks (with_tasklist l s)) with (tasks s) in H
  | H : context [rqs (with_tasklist ?l ?s)] |- _ => change (rqs (with_tasklist l s)) with (rqs s) in H
  | H : context [tasklist (with_tasklist ?l ?s)] |- _ => change (tasklist (with_tasklist l s)) with l in H
  | H : context [pending (with_tasklist ?l ?s)] |- _ => change (pending (with_tasklist l s)) with (pending s) in H
  | |- context [pending (upd_rq ?c (with_doing ?o) ?s) ?d] => rewrite (pending_doing c o s d) by same_hand
  | |- context [pending (upd_rq ?c ?f ?s) ?d] =>
      first [rewrite (pending_kept c f s d) by reflexivity | rewrite (pending_set c f s d)]
  | |- context [activity_ok (upd_rq ?c ?f ?s) ?d ?a] => rewrite (activity_rq c f s d a) by reflexivity
  | H : context [tasks (upd_rq ?c ?f ?s)] |- _ => change (tasks (upd_rq c f s)) with (tasks s) in H
  | H : context [rqs (upd_task ?c ?f ?s)] |- _ => change (rqs (upd_task c f s)) with (rqs s) in H
  | H : context [pending (upd_task ?c ?f ?s)] |- _ => change (pending (upd_task c f s)) with (pending s) in H
  | H : context [tasklist (upd_rq ?c ?f ?s)] |- _ => change (tasklist (upd_rq c f s)) with (tasklist s) in H
  | H : context [tasklist (upd_task ?c ?f ?s)] |- _ => change (tasklist (upd_task c f s)) with (tasklist s) in H
  | H : context [pending (upd_rq ?c (with_doing ?o) ?s) ?d] |- _ => rewrite (pending_doing c o s d) in H by same_hand
  | H : context [pending (upd_rq ?c ?f ?s) ?d] |- _ =>
      first [rewrite (pending_kept c f s d) in H by reflexivity | rewrite (pending_set c f s d) in H]
  end.
Ltac look_bound g :=
  repeat match goal with
  | |- context [rqs (upd_rq ?c ?f ?s)] =>
      progress setoid_rewrite (λ d, rq_kept g c f s d (λ r, eq_refl))
  end.
Ltac look :=
  unfold set_at, set_doing in *;
  repeat progress (look_frame; look_task st; look_task on_rq; look_task on_cpu; look_task cpu; look_task pi_lock;
    look_task current_ref; look_rq curr; look_rq at_; look_rq doing; look_rq wake_list; look_bound doing; look_bound at_);
  cbn [st on_rq on_cpu cpu pi_lock current_ref curr at_ doing wake_list with_st with_on_rq with_on_cpu with_cpu
       with_pi_lock with_current_ref with_curr with_at_ with_doing with_wake_list] in *.
(** The processor of a task that is woken or moved is set without a warning. *)
Lemma set_task_cpu_quiet `{M : machine} p dest s : dest ∈ cpus → st (tasks s p) = TASK_WAKING ∨ on_rq (tasks s p) = 2 →
  set_task_cpu p dest s = upd_task p (with_cpu dest) s.
Proof.
  intros Hd Hs. unfold set_task_cpu.
  assert (set_task_cpu_warns (tasks s p) dest = false) as ->.
  { unfold set_task_cpu_warns, task_on_rq_migrating. rewrite bool_decide_eq_true_2 by done.
    destruct Hs as [-> | ->]; cbn; by rewrite ?andb_false_r. }
  rewrite orb_false_r. by destruct s.
Qed.

Lemma migrates_at `{M : machine} p s : on_rq (tasks (deactivate_task p false s) p) = 2.
Proof. unfold deactivate_task. look. by rewrite decide_True. Qed.

(** Unfold the steps of Switch. *)
Ltac unfold_steps :=
  unfold executes, can_start, set_special_state, set_current_state, deactivate_prev, save_prev, finish_task, finish_lock_switch,
    prepare_task, try_to_wake_up, ttwu_runnable, ttwu_queue, wake_up_new_task,
    sched_ttwu_pending, move_queued_task_end, set_task_cpu, ttwu_queue_wakelist, __ttwu_queue_wakelist, ttwu_do_activate,
    ttwu_do_wakeup, unlock_pi, activate_task, deactivate_task, add_iowait, add_uninterruptible, warn, set_at, set_doing in *.
(** The results of the tests in a step. *)
Lemma some_bind {A B} (x : A) (f : A → option B) : (Some x ≫= f) = f x.
Proof. done. Qed.
Lemma none_bind {A B} (f : A → option B) : (None ≫= f) = None.
Proof. done. Qed.
Ltac step_cases H :=
  repeat (case_match; try discriminate H; rewrite ?some_bind, ?none_bind in H; try discriminate H);
  cbn [fmap option_fmap option_map] in H.
