(* ===== verification/SwitchFacts.v ===== *)
(** Tactics for the clauses of the invariant of SwitchInv, and what the
    invariant says of a current task. *)
From S2P Require Import Prelude Switch SwitchInv.
Local Open Scope Z_scope.

(** An activity that neither moves a task nor brings a new one. *)
Definition quiet (o : option activity) : Prop :=
  match o with Some (Moving _ _ | NewPlace _ | NewQueue _) => False | _ => True end.

(** The clauses for one step: those the automation proves are gone. *)
Ltac break :=
  repeat match goal with
  | H : _ ∧ _ |- _ => destruct H
  | H : ∃ _, _ |- _ => destruct H
  | |- _ ∧ _ => split
  end.
Ltac close := first [done | congruence | eauto 3; fail | split; close | left; close | right; close].
Ltac crush :=
  break; subst; first [close | match goal with H : _ ∨ _ |- _ => destruct H; break; subst; close end].
(** What the place of a processor says. *)
Ltac place_facts H :=
  match type of H with
  | at_ (rqs ?s ?c) = ?x =>
      let f g := (let y := eval cbn in (g x) in let F := fresh "At" in
        assert (g (at_ (rqs s c)) = y) as F by (by rewrite H)) in
      f prev_of; f picking; f dying; f burying; f buried_off; f interrupts_on
  end.
Ltac doing_facts H :=
  match type of H with
  | doing (rqs ?s ?c) = ?x =>
      let f g := (let y := eval cbn in (g x) in let F := fresh "Do" in
        assert (g (doing (rqs s c)) = y) as F by (by rewrite H)) in
      f in_hand; f (mbind (M := option) holds); f (mbind (M := option) late)
  end.
Ltac not_late H d :=
  match goal with
  | L : ∀ d, doing _ ≫= late = Some _ → False |- _ => exfalso; apply (L d); rewrite H; reflexivity
  end.
Ltac activity_cases :=
  match goal with
  | H : doing (rqs ?s ?d) = Some ?a, D : ∀ c a, doing _ = Some a → _ ∧ _,
    P : ∀ p c, doing _ ≫= holds = Some p → _ |- _ ∧ _ ∧ activity_ok _ _ _ =>
      destruct (D _ _ H) as (? & ? & ?); split_and!; [done..|];
      destruct a; try pose proof (P _ d ltac:(rewrite H; reflexivity)); cbn [activity_ok] in *; unfold awake in *;
      look; repeat case_decide; subst; try not_late H d;
      try first [done | crush]
  end.
Ltac same_processor :=
  match goal with
  | H : curr (rqs ?s ?d) = curr (rqs ?s ?c), R : ∀ d, curr (rqs ?s d) = _ → @?Q d |- _ =>
      destruct (R d H); [subst d|]; congruence
  end.
Ltac on_cpu_cases :=
  match goal with
  | H : on_cpu (tasks ?s ?p) = true, P : ∀ p, on_cpu (tasks ?s p) = true → @?Q p |- _ =>
      destruct (P p H); crush
  end.
Ltac death_cases :=
  match goal with
  | H : st (tasks ?s ?p) = TASK_DEAD, P : ∀ p, st (tasks ?s p) = TASK_DEAD → @?Q p ∨ @?R p |- _ =>
      destruct (P p H); crush
  | H : st (tasks ?s ?p) = TASK_DEAD, R : current_ref (tasks ?s ?p) = true,
    P : ∀ p, st (tasks ?s p) = TASK_DEAD → current_ref (tasks ?s p) = true → @?Q p |- _ =>
      let d := fresh "d" in
      destruct (P p H R) as [|[d ?]]; [by left|right; exists d; look; repeat case_decide; subst; congruence]
  end.
(** The activity that a clause promises is the old one. *)
Ltac not_quiet :=
  match goal with Q : quiet (doing (rqs ?s ?c)), E : doing (rqs ?s ?c) = _ |- _ => rewrite E in Q; destruct Q end.
Ltac same_activity P :=
  let d := fresh "d" in
  destruct P as [d ?]; exists d; look; repeat case_decide; subst; first [close | exfalso; not_quiet].
Ltac witness_cases :=
  match goal with
  | H : on_rq (tasks ?s ?p) = 2, P : ∀ p, on_rq (tasks ?s p) = 2 → @?Q p |- ∃ _, _ => same_activity (P p H)
  | H : st (tasks ?s ?p) = TASK_NEW, K : ?p ∈ tasklist ?s,
    P : ∀ p, p ∈ tasklist ?s → st (tasks ?s p) = TASK_NEW → @?Q p |- ∃ _, _ => same_activity (P p K H)
  | H : on_rq (tasks ?s ?p) = 0, K : st (tasks ?s ?p) = TASK_RUNNING,
    P : ∀ p, on_rq (tasks ?s p) = 0 → st (tasks ?s p) = TASK_RUNNING → @?Q p |- ∃ _, _ => same_activity (P p H K)
  | H : st (tasks ?s ?p) = TASK_WAKING, P : ∀ p, st (tasks ?s p) = TASK_WAKING → @?Q p ∨ @?R p |- _ ∨ _ =>
      let E := fresh in destruct (P p H) as [|E]; [left; close|right; same_activity E]
  end.
(** One clause of the old state decides the case. *)
Ltac old_cases :=
  match goal with
  | H : pi_lock (tasks ?s ?p) = Some ?c, P : ∀ p c, pi_lock (tasks ?s p) = Some c → @?Q p c |- _ =>
      pose proof (P _ _ H); crush
  | H : doing (rqs ?s ?c) ≫= holds = Some ?p, P : ∀ p c, doing (rqs ?s c) ≫= holds = Some p → @?Q p c |- _ =>
      pose proof (P _ _ H); crush
  | H : ?p ∈ pending ?s ?c, P : ∀ c p, p ∈ pending ?s c → @?Q c p |- _ => destruct (P _ _ H) as (? & ? & ? & ?); crush
  | H : burying (at_ (rqs ?s ?c)) = Some ?p, P : ∀ c p, burying (at_ (rqs ?s c)) = Some p → @?Q c p |- _ =>
      destruct (P _ _ H) as (? & ? & ? & ?); crush
  | H : current_ref (tasks ?s ?p) = false, K : ?p ∈ tasklist ?s,
    P : ∀ p, p ∈ tasklist ?s → current_ref (tasks ?s p) = false → @?Q p |- _ => destruct (P p K H) as (? & ? & ?); crush
  | H : prev_of (at_ (rqs ?s ?c)) = Some ?p, P : ∀ c p, prev_of (at_ (rqs ?s c)) = Some p → @?Q c p |- _ =>
      destruct (P _ _ H) as (? & ? & ? & ? & ?); crush
  | H : ?c ∈ cpus, P : ∀ c, c ∈ cpus → idle c ∈ _ ∧ _ |- idle ?c ∈ _ ∧ _ =>
      destruct (P _ H) as (? & ? & ? & ?); crush
  end.
Ltac finish :=
  first [ eauto 3; fail | crush | exfalso; unfold not in *; eauto 4; fail
        | same_processor | old_cases | witness_cases | on_cpu_cases | death_cases | activity_cases ].
Lemma constants_differ :
  TASK_RUNNING ≠ TASK_WAKING ∧ TASK_RUNNING ≠ TASK_NEW ∧ TASK_RUNNING ≠ TASK_DEAD ∧
  TASK_WAKING ≠ TASK_NEW ∧ TASK_WAKING ≠ TASK_DEAD ∧ TASK_NEW ≠ TASK_DEAD ∧
  TASK_ON_RQ_MIGRATING = 2 ∧ TASK_ON_RQ_MIGRATING ≠ 0 ∧ TASK_ON_RQ_MIGRATING ≠ 1 ∧
  TASK_ON_RQ_QUEUED = 1 ∧ TASK_ON_RQ_QUEUED ≠ 0 ∧ TASK_ON_RQ_QUEUED ≠ 2.
Proof. done. Qed.
Ltac constants :=
  destruct constants_differ as (Cs1 & Cs2 & Cs3 & Cs4 & Cs5 & Cs6 & Cs7 & Cs8 & Cs9 & Csa & Csb & Csc).
(** [simplify_eq] for the equations that the clauses have. *)
Ltac equations :=
  repeat match goal with
  | H : Some _ = Some _ |- _ => first [discriminate H | injection H; clear H; intros]
  | H : None = Some _ |- _ => discriminate H
  | H : Some _ = None |- _ => discriminate H
  | H : @eq place (_ _) (_ _) |- _ => first [discriminate H | injection H; clear H; intros]
  | H : @eq place _ _ |- _ => discriminate H
  | H : ?x = ?x |- _ => clear H
  | H : ?x ≠ ?x |- _ => by destruct H
  end; subst.
Ltac clauses :=
  split; split; intros *; look; eauto 3; intros; repeat case_decide;
  cbn [prev_of picking dying burying buried_off interrupts_on mbind option_bind holds late in_hand] in *;
  equations; constants; try finish.

Section facts.
Context `{M : machine} {MO : machine_ok}.
Implicit Types (s : state) (p q c d : Z).

Lemma not_idle p : is_idle p = false → ∀ c, c ∈ cpus → idle c ≠ p.
Proof.
  intros H%bool_decide_eq_false c Hc E. apply H, Exists_exists. eauto.
Qed.

Lemma plain_matches v mask : plain mask = true → matches v mask = true → awake v.
Proof.
  unfold plain, matches. rewrite negb_involutive, Z.eqb_eq, negb_true_iff, Z.eqb_neq. intros Hp Hm.
  assert (∀ b, Z.land b (Z.lor (Z.lor TASK_DEAD TASK_WAKING) TASK_NEW) = b → v ≠ b) as H.
  { intros b E ->. apply Hm. by rewrite <- E, <- Z.land_assoc, (Z.land_comm _ mask), Hp, Z.land_0_r. }
  split_and!; by apply H.
Qed.

Lemma plain_awake v : plain v = true → awake v.
Proof. intros H. split_and!; intros ->; discriminate H. Qed.

Lemma inv_running s c : inv s → c ∈ cpus → picking (at_ (rqs s c)) = false → running s (curr (rqs s c)) c.
Proof.
  intros I Hc Hp. destruct I as [[] [] []].
  destruct (p_curr c Hc) as (C1 & C2 & C3 & [C4|[_ C5]]); [|congruence].
  assert (∀ d, d ∈ cpus → curr (rqs s d) = curr (rqs s c) → d = c) as Hone.
  { intros d Hd E. destruct (p_curr d Hd) as (_ & D & _). rewrite E in D. congruence. }
  split; try done.
  - intros E. destruct (a_new _ C3 E) as (d & Hd). apply a_doing in Hd as (_ & _ & Hd). simpl in Hd.
    destruct Hd as (_ & _ & ? & _). congruence.
  - intros E. destruct (a_waking _ E) as [Hp'|(d & Hd)].
    + apply a_pending in Hp' as (_ & ? & _). congruence.
    + apply bind_Some in Hd as (a & Hd & Ha).
      apply a_doing in Hd as (_ & _ & Hd). destruct a; simplify_eq/=; naive_solver congruence.
  - intros Hdy E. destruct (d_dead _ E) as [|[_ D]]; [congruence|]. rewrite C2 in D. congruence.
  - intros d Hd. apply a_pending in Hd as (_ & ? & _). congruence.
  - intros d Hd. apply p_prev in Hd as (_ & D & Hn & _). rewrite C2 in D. by subst d.
  - intros d v m Hd. destruct (p_prev d (curr (rqs s c))) as (_ & D & Hn & _); [by rewrite Hd|].
    rewrite C2 in D. by subst d.
  - intros d Hd. apply d_burying in Hd as (_ & _ & ? & _). congruence.
  - destruct (current_ref (tasks s (curr (rqs s c)))) eqn:E; [done|].
    destruct (d_ref _ C3 E) as (_ & ? & _). congruence.
  - intros d E. destruct (decide (at_ (rqs s d) = Run)); [by right|left; eauto].
Qed.

Lemma not_doing s c : inv s → interrupts_on (at_ (rqs s c)) = false → picking (at_ (rqs s c)) = false →
  doing (rqs s c) = None.
Proof.
  intros I Hi Hp. destruct (doing (rqs s c)) as [a|] eqn:E; [|done]. exfalso.
  destruct (a_doing _ (i_activities _ I) _ _ E) as (_ & Hc & _). unfold compatible in Hc. rewrite Hi in Hc.
  by destruct (at_ (rqs s c)).
Qed.

Lemma buried_burying x p : buried_off x = Some p → burying x = Some p.
Proof. by destruct x. Qed.
Lemma burying_cases x p : burying x = Some p → prev_of x = Some p ∨ buried_off x = Some p.
Proof. destruct x; simpl; auto. case_match; auto. Qed.

Lemma late_holds o p : o ≫= late = Some p → o ≫= holds = Some p.
Proof. destruct o as [[]|]; done. Qed.
End facts.
