(* ===== verification/SwitchSchedule.v ===== *)
(** The steps of [__schedule] and of the current tasks keep the invariant of
    SwitchInv. *)
From S2P Require Import Prelude Switch SwitchInv SwitchFacts.
Local Open Scope Z_scope.

Section steps.
Context `{M : machine} {MO : machine_ok}.
Implicit Types (s : state) (p q c d : Z).

(** The state of a current task changes; it was not dead. *)
Lemma inv_set_st s c v : inv s → c ∈ cpus → picking (at_ (rqs s c)) = false →
  (∀ b u, at_ (rqs s c) ≠ Loaded b u) → st (tasks s (curr (rqs s c))) ≠ TASK_DEAD →
  awake v → (∀ d, d ∈ cpus → idle d = curr (rqs s c) → v = TASK_RUNNING) →
  inv (upd_task (curr (rqs s c)) (with_st v) s).
Proof.
  intros I Hc Hp Hl Hnd Hv Hni. pose proof Hv as (V1 & V2 & V3).
  assert (running s (curr (rqs s c)) c) as [] by (by apply inv_running).
  destruct I as [[] [] []].
  clauses.
  destruct (r_at c0) as [->|F]; [done| |congruence]. specialize (d_dying _ H). done.
Qed.

(** A processor goes on in [__schedule] without a change of the tasks. *)
Lemma inv_set_at s c x : inv s → c ∈ cpus →
  prev_of x = prev_of (at_ (rqs s c)) → burying x = burying (at_ (rqs s c)) →
  buried_off x = buried_off (at_ (rqs s c)) →
  on_rq (tasks s (curr (rqs s c))) = 1 ∨ picking x = true →
  (st (tasks s (curr (rqs s c))) = TASK_DEAD → on_rq (tasks s (curr (rqs s c))) = 0 ∨ dying x = true) →
  match x with
  | Dying => st (tasks s (curr (rqs s c))) = TASK_DEAD
  | Loaded _ v => st (tasks s (curr (rqs s c))) = v
  | Saved _ _ _ => False
  | _ => True
  end →
  (∀ a, doing (rqs s c) = Some a → compatible x a = true) →
  inv (set_at c x s).
Proof.
  intros I Hc Hp Hb Ho Hq Hd Hx Ha. destruct I as [[] [] []].
  destruct (p_curr c Hc) as (C1 & C2 & C3 & C4).
  clauses. all: rewrite ?Hp, ?Hb, ?Ho in *; try finish.
  - split_and!; try done. destruct C4 as [|[]], Hq; auto.
  - destruct (a_doing _ _ H) as (? & ? & ?). auto.
  - destruct (d_dead p H) as [|[E ?]]; [by left|]. rewrite E in Hd. destruct (Hd H); auto.
Qed.

Lemma inv_die s c : inv s → c ∈ cpus → at_ (rqs s c) = Run → doing (rqs s c) = None →
  pi_lock (tasks s (curr (rqs s c))) = None → is_idle (curr (rqs s c)) = false →
  inv (set_at c Dying (upd_task (curr (rqs s c)) (with_st TASK_DEAD) s)).
Proof.
  intros I Hc Hat Hd Hpi Hi. pose proof (not_idle _ Hi) as Hni.
  assert (running s (curr (rqs s c)) c) as [] by (apply inv_running; [done..|by rewrite Hat]).
  destruct I as [[] [] []]. place_facts Hat. specialize (r_dead ltac:(done)).
  clauses.
Qed.

(** The current task leaves the run queue, or does not because of a signal. *)
Lemma inv_deactivate s c v : inv s → at_ (rqs s c) = Loaded false v → v ≠ TASK_RUNNING →
  inv (set_at c (Picking true) (upd_task (curr (rqs s c)) (with_on_rq 0) s)).
Proof.
  intros I Hat Hv. assert (c ∈ cpus) as Hc by (apply (p_at _ (i_places _ I)); congruence).
  assert (running s (curr (rqs s c)) c) as [] by (apply inv_running; [done..|by rewrite Hat]).
  assert (doing (rqs s c) = None) as Hd by (apply not_doing; [done|by rewrite Hat..]).
  destruct I as [[] [] []]. place_facts Hat. pose proof (p_loaded _ _ _ Hat) as Hst.
  assert (∀ d, d ∈ cpus → idle d ≠ curr (rqs s c)) as Hni.
  { intros d Hd' E. destruct (p_idle d Hd') as (_ & _ & _ & F). congruence. }
  clauses.
Qed.

Lemma inv_signal s c v : inv s → at_ (rqs s c) = Loaded false v → v ≠ TASK_RUNNING → v ≠ TASK_DEAD →
  inv (set_at c (Picking true) (upd_task (curr (rqs s c)) (with_st TASK_RUNNING) s)).
Proof.
  intros I Hat Hv Hv2. assert (c ∈ cpus) as Hc by (apply (p_at _ (i_places _ I)); congruence).
  assert (running s (curr (rqs s c)) c) as [] by (apply inv_running; [done..|by rewrite Hat]).
  assert (doing (rqs s c) = None) as Hd by (apply not_doing; [done|by rewrite Hat..]).
  destruct I as [[] [] []]. place_facts Hat. pose proof (p_loaded _ _ _ Hat) as Hst.
  assert (∀ d, d ∈ cpus → idle d ≠ curr (rqs s c)) as Hni.
  { intros d Hd' E. destruct (p_idle d Hd') as (_ & _ & _ & F). congruence. }
  clauses.
Qed.

(** Another task becomes the current one. *)
Lemma inv_pick s c b next : inv s → at_ (rqs s c) = Picking b → next ≠ curr (rqs s c) →
  on_rq (tasks s next) = 1 → cpu (tasks s next) = c →
  inv (set_at c (Switched (curr (rqs s c))) (upd_rq c (with_curr next) (upd_task next (with_on_cpu true) s))).
Proof.
  intros I Hat Hne Hq Hcpu. assert (c ∈ cpus) as Hc by (apply (p_at _ (i_places _ I)); congruence).
  assert (on_cpu (tasks s next) = false) as Hoff.
  { destruct (on_cpu (tasks s next)) eqn:E; [|done]. destruct (p_on_cpu _ (i_places _ I) next E) as [F|F];
      rewrite Hcpu in F; [congruence|]. by rewrite Hat in F. }
  assert (doing (rqs s c) = None) as Hd.
  { destruct (doing (rqs s c)) as [a|] eqn:E; [|done].
    destruct (a_doing _ (i_activities _ I) _ _ E) as (_ & F & _). by rewrite Hat in F. }
  destruct I as [[] [] []]. place_facts Hat. destruct (p_curr c Hc) as (C1 & C2 & C3 & C4).
  assert (next ∈ tasklist s) as Hk.
  { destruct (decide (next ∈ tasklist s)) as [|Hn]; [done|]. apply p_unborn in Hn as (_ & ? & _). congruence. }
  assert (st (tasks s next) ≠ TASK_DEAD) as Hnd.
  { intros E. destruct (d_dead _ E) as [|[F _]]; congruence. }
  clauses.
  - destruct (p_curr c0 H) as (? & _). congruence.
  - apply buried_burying, d_burying in H as (_ & _ & ? & _). congruence.
Qed.

Lemma inv_save s c prev : inv s → at_ (rqs s c) = Switched prev →
  inv (set_at c (Saved prev (st (tasks s prev)) (prev_mm (rqs s c))) s).
Proof.
  intros I Hat. assert (c ∈ cpus) as Hc by (apply (p_at _ (i_places _ I)); congruence).
  assert (doing (rqs s c) = None) as Hd by (apply not_doing; [done|by rewrite Hat..]).
  destruct I as [[] [] []]. place_facts Hat. destruct (p_curr c Hc) as (C1 & C2 & C3 & C4).
  destruct (p_prev c prev) as (D1 & D2 & D3 & D4 & D5); [by rewrite Hat|].
  clauses.
  destruct (Z.eqb_spec (st (tasks s prev)) TASK_DEAD) as [E|]; [|done]. injection H as <-. split_and!; [done..| |].
  - destruct (d_dead _ E) as [|[F _]]; [done|]. congruence.
  - destruct (current_ref (tasks s prev)) eqn:F; [done|]. destruct (d_ref _ D4 F) as (_ & _ & ?). congruence.
Qed.

Lemma inv_finish s c prev v m : inv s → at_ (rqs s c) = Saved prev v m →
  inv (set_at c (Finished prev v m) (upd_task prev (with_on_cpu false) s)).
Proof.
  intros I Hat. assert (c ∈ cpus) as Hc by (apply (p_at _ (i_places _ I)); congruence).
  assert (doing (rqs s c) = None) as Hd by (apply not_doing; [done|by rewrite Hat..]).
  destruct I as [[] [] []]. place_facts Hat. destruct (p_curr c Hc) as (C1 & C2 & C3 & C4).
  destruct (p_prev c prev) as (D1 & D2 & D3 & D4 & D5); [by rewrite Hat|].
  assert (∀ d, d ∈ cpus → curr (rqs s d) = prev → False) as Hnc.
  { intros d Hd' E. destruct (p_curr d Hd') as (_ & F & _). congruence. }
  assert (∀ d, prev_of (at_ (rqs s d)) = Some prev → d = c) as Hnp.
  { intros d E. destruct (p_prev _ _ E) as (_ & F & _). congruence. }
  assert (∀ d, buried_off (at_ (rqs s d)) = Some prev → False) as Hnb.
  { intros d E. specialize (d_off _ _ E). congruence. }
  clauses.
  - eapply d_burying. etrans; [eassumption|done].
  - destruct (v =? TASK_DEAD); simplify_eq.
  - destruct (v =? TASK_DEAD); simplify_eq. destruct (Hnb _ H).
  - destruct (v =? TASK_DEAD); simplify_eq. destruct (Hnb _ H0).
  - right. exists (cpu (tasks s prev)). look. rewrite decide_True by done. simpl.
    by rewrite (proj2 (Z.eqb_eq _ _) (d_saved _ _ _ _ Hat H)).
Qed.

Lemma inv_bury s c prev m : inv s → at_ (rqs s c) = Tail prev TASK_DEAD m → doing (rqs s c) = None →
  inv (set_at c Run (upd_task prev (with_current_ref false) s)).
Proof.
  intros I Hat Hd. assert (c ∈ cpus) as Hc by (apply (p_at _ (i_places _ I)); congruence).
  destruct I as [[] [] []]. place_facts Hat. destruct (p_curr c Hc) as (C1 & C2 & C3 & C4).
  destruct (d_burying c prev) as (D1 & D2 & D3 & D4); [by rewrite Hat|].
  specialize (d_off c prev ltac:(by rewrite Hat)) as D5.
  clauses.
  destruct (burying_cases _ _ H) as [F|F].
  - destruct (p_prev _ _ F) as (? & _). congruence.
  - assert (c0 = c) by (apply (d_once c0 c prev); [done|by rewrite Hat]). done.
Qed.

End steps.
