(* ===== verification/SwitchWaking.v ===== *)
(** The steps of wake-ups, new tasks and moves keep the invariant of
    SwitchInv. *)
From S2P Require Import Prelude Switch SwitchInv SwitchFacts.
Local Open Scope Z_scope.

Section steps.
Context `{M : machine} {MO : machine_ok}.
Implicit Types (s : state) (p q c d : Z).

(** The activity of a processor goes on without a change of the tasks. *)
Lemma inv_set_doing s c o : inv s → c ∈ cpus →
  in_hand o = in_hand (doing (rqs s c)) → o ≫= holds = doing (rqs s c) ≫= holds →
  o ≫= late = doing (rqs s c) ≫= late → quiet o → quiet (doing (rqs s c)) →
  (∀ a, o = Some a → compatible (at_ (rqs s c)) a = true ∧ activity_ok s c a) →
  inv (set_doing c o s).
Proof.
  intros I Hc Hh Hp Hl Q1 Q2 Ha. destruct I as [[] [] []].
  clauses. all: rewrite ?Hp, ?Hl, ?Hh in *; try finish.
Qed.
Lemma held s c p : inv s → doing (rqs s c) ≫= holds = Some p → ∀ d, doing (rqs s d) ≫= late = Some p → d = c.
Proof.
  intros [_ A _] H d Hd%late_holds. apply (a_holds _ A) in H, Hd. congruence.
Qed.

Lemma inv_lock s c p mask : inv s → doing (rqs s c) = Some (WakeEnter p mask) → p ≠ curr (rqs s c) →
  pi_lock (tasks s p) = None → awake (st (tasks s p)) →
  inv (set_doing c (Some (WakeMatched p)) (upd_task p (with_pi_lock (Some c)) s)).
Proof.
  intros I Hd Hne Hpi Hv. destruct I as [[] [] []]. doing_facts Hd.
  destruct (a_doing _ _ Hd) as (Hc & Hcomp & Ha). cbn in Ha. destruct Ha as (Hk & _).
  clauses.
Qed.

Lemma inv_wake_runnable s c p : inv s → doing (rqs s c) = Some (WakeRunnable p) →
  rq_locked (cpu (tasks s p)) s = false → on_rq (tasks s p) = 1 →
  inv (unlock_pi c p (ttwu_do_wakeup p s)).
Proof.
  intros I Hd Hl Hq. unfold unlock_pi, ttwu_do_wakeup. destruct I as [[] [] []]. doing_facts Hd.
  destruct (a_doing _ _ Hd) as (Hc & Hcomp & Ha). cbn in Ha. destruct Ha as (Hk & Hne & V1 & V2 & V3).
  pose proof (a_holds p c ltac:(done)) as Hpi.
  assert (∀ d b v, at_ (rqs s d) = Loaded b v → curr (rqs s d) = p → False) as Hload.
  { intros d b v Hat E. assert (d ∈ cpus) as Hd' by (apply p_at; congruence).
    destruct (p_curr d Hd') as (_ & F & _). rewrite E in F. unfold rq_locked in Hl. rewrite F, Hat in Hl. done. }
  clauses.
Qed.

Lemma inv_set_waking s c p : inv s → doing (rqs s c) = Some (WakeOff p) →
  inv (set_doing c (Some (WakeWaking p)) (upd_task p (with_st TASK_WAKING) s)).
Proof.
  intros I Hd. assert (∀ d, doing (rqs s d) ≫= late = Some p → d = c) as Hl by (apply held; [done|by rewrite Hd]).
  destruct I as [[] [] []]. doing_facts Hd.
  destruct (a_doing _ _ Hd) as (Hc & Hcomp & Ha). cbn in Ha. destruct Ha as (Hk & Hne & (V1 & V2 & V3) & Hq).
  pose proof (a_holds p c ltac:(done)) as Hpi.
  assert (∀ d b v, at_ (rqs s d) = Loaded b v → curr (rqs s d) = p → False) as Hload.
  { intros d b v Hat E. assert (d ∈ cpus) as Hd' by (apply p_at; congruence).
    destruct (p_curr d Hd') as (_ & _ & _ & [F|[_ F]]); [congruence|]. by rewrite Hat in F. }
  clauses.
  right. exists c. look. by rewrite decide_True.
Qed.
(** The task goes to the list of its processor. *)
Lemma inv_push s c p a m : inv s → doing (rqs s c) = Some a → a = WakeOnCpu p ∨ a = WakeQueue p m →
  inv (unlock_pi c p (upd_rq (cpu (tasks s p)) (λ r, with_wake_list (wake_list r ++ [p]) r) s)).
Proof.
  intros I Hd Ha. unfold unlock_pi. 
  assert (∀ d, doing (rqs s d) ≫= late = Some p → d = c) as Hl
    by (apply held; [done|rewrite Hd; by destruct Ha as [->| ->]]).
  destruct I as [[] [] []].
  destruct (a_doing _ _ Hd) as (Hc & Hcomp & Hok).
  assert (p ∈ tasklist s ∧ st (tasks s p) = TASK_WAKING ∧ on_rq (tasks s p) = 0) as (Hk & Hst & Hq).
  { destruct Ha as [->| ->]; cbn in Hok; naive_solver. }
  assert (doing (rqs s c) ≫= holds = Some p ∧ doing (rqs s c) ≫= late = Some p ∧ in_hand (doing (rqs s c)) = [])
    as (Do & Do1 & Do2) by (rewrite Hd; by destruct Ha as [->| ->]).
  assert (quiet (doing (rqs s c))) as Hquiet by (rewrite Hd; by destruct Ha as [->| ->]).
  pose proof (a_holds p c ltac:(done)) as Hpi.
  assert (∀ d, p ∈ pending s d → False) as Hnp by (intros d F; by apply (a_late _ _ c) in F).
  remember (cpu (tasks s p)) as w eqn:Ew.
  assert ((wake_list (rqs s w) ++ [p]) ++ in_hand (doing (rqs s w)) ≡ₚ p :: pending s w) as Hperm.
  { unfold pending. rewrite <- (assoc_L (++)). symmetry. apply Permutation_middle. }
  assert (∀ q, q ∈ (wake_list (rqs s w) ++ [p]) ++ in_hand (doing (rqs s w)) → q = p ∨ q ∈ pending s w) as Hsup.
  { intros q. by rewrite Hperm, elem_of_cons. }
  assert (∀ q, q ∈ pending s w → q ∈ (wake_list (rqs s w) ++ [p]) ++ in_hand (doing (rqs s w))) as Hsub.
  { intros q F. rewrite Hperm. by right. }
  assert (p ∈ (wake_list (rqs s w) ++ [p]) ++ in_hand (doing (rqs s w))) as Hin by (rewrite Hperm; by left).
  clauses.
  - destruct (Hsup _ H) as [->|F]; [done|]. apply a_pending in F. done.
  - intros E. destruct (Hsup _ H) as [->|F]; [by apply Hl in E|]. by apply (a_late _ _ d) in F.
  - rewrite Hperm. apply NoDup_cons. eauto.
  - destruct (decide (p0 = p)) as [->|Hne]; [by left|].
    destruct (a_waking _ H) as [F|[d F]]; [left; apply Hsub; congruence|right].
    exists d. look. case_decide; congruence.
Qed.

Lemma not_current s p : inv s → on_cpu (tasks s p) = false → ∀ c, c ∈ cpus → curr (rqs s c) ≠ p.
Proof. intros [P _ _] Hoff c Hc E. destruct (p_curr _ P c Hc) as (? & _). congruence. Qed.

Lemma not_loaded s p : inv s → on_cpu (tasks s p) = false → ∀ c b v, at_ (rqs s c) = Loaded b v → curr (rqs s c) ≠ p.
Proof. intros I Hoff c b v Hat. apply not_current; [done..|]. apply (p_at _ (i_places _ I)). congruence. Qed.

Lemma not_dying s p : inv s → on_cpu (tasks s p) = false → ∀ c, at_ (rqs s c) = Dying → curr (rqs s c) ≠ p.
Proof. intros I Hoff c Hat. apply not_current; [done..|]. apply (p_at _ (i_places _ I)). congruence. Qed.

(** The processor of a task is chosen. *)
Lemma inv_place s c p dest m : inv s → doing (rqs s c) = Some (WakeSpin p) → on_cpu (tasks s p) = false →
  dest ∈ cpus →
  inv (set_doing c (Some (WakeQueue p m)) (upd_task p (with_cpu dest) s)).
Proof.
  intros I Hd Hoff Hdest. pose proof (not_current _ _ I Hoff) as Hnc.
  assert (∀ d, doing (rqs s d) ≫= late = Some p → d = c) as Hl by (apply held; [done|by rewrite Hd]).
  destruct I as [[] [] []]. doing_facts Hd.
  destruct (a_doing _ _ Hd) as (Hc & Hcomp & Ha). cbn in Ha. destruct Ha as (Hk & Hne & Hst & Hq).
  pose proof (a_holds p c ltac:(done)) as Hpi.
  assert (∀ d, p ∈ pending s d → False) as Hnp by (intros d F; by apply (a_late _ _ c) in F).
  clauses.
  - intros [= <-]. eauto.
  - right. exists c. look. by rewrite decide_True.
Qed.

(** The waker puts the task on its run queue. *)
Lemma inv_wake_queue s c p m : inv s → doing (rqs s c) = Some (WakeQueue p m) →
  inv (unlock_pi c p (ttwu_do_wakeup p (activate_task p s))).
Proof.
  intros I Hd. assert (on_cpu (tasks s p) = false) as Hoff by (apply (a_doing _ (i_activities _ I)) in Hd as (_ & _ & Hd); apply Hd).
  pose proof (not_current _ _ I Hoff) as Hnc. pose proof (not_loaded _ _ I Hoff) as Hnl.
  pose proof (not_dying _ _ I Hoff) as Hny. unfold unlock_pi, ttwu_do_wakeup, activate_task.
  assert (∀ d, doing (rqs s d) ≫= late = Some p → d = c) as Hl by (apply held; [done|by rewrite Hd]).
  destruct I as [[] [] []]. doing_facts Hd.
  destruct (a_doing _ _ Hd) as (Hc & Hcomp & Ha). cbn in Ha. destruct Ha as (Hk & Hst & Hq & _).
  pose proof (a_holds p c ltac:(done)) as Hpi.
  assert (∀ d, p ∈ pending s d → False) as Hnp by (intros d F; by apply (a_late _ _ c) in F).
  clauses.
Qed.

(** The processor of the list puts it there. *)
Lemma inv_pending s c p l : inv s → doing (rqs s c) = Some (PendLocked (p :: l)) → on_cpu (tasks s p) = false →
  inv (set_doing c (Some (PendLocked l)) (ttwu_do_wakeup p (activate_task p s))).
Proof.
  intros I Hd Hoff. pose proof (not_current _ _ I Hoff) as Hnc. pose proof (not_loaded _ _ I Hoff) as Hnl.
  pose proof (not_dying _ _ I Hoff) as Hny. unfold ttwu_do_wakeup, activate_task.
  destruct I as [[] [] []]. doing_facts Hd.
  destruct (a_doing _ _ Hd) as (Hc & Hcomp & _).
  assert (p ∈ pending s c) as Hp by (unfold pending; rewrite Hd; set_solver).
  destruct (a_pending _ _ Hp) as (Hk & Hq & Hst & Hcpu).
  assert (∀ d, doing (rqs s d) ≫= late = Some p → False) as Hl by (intros d F; by apply (a_late _ _ d) in Hp).
  assert (pending s c ≡ₚ p :: wake_list (rqs s c) ++ l) as Hperm.
  { unfold pending. rewrite Hd. symmetry. apply Permutation_middle. }
  assert (∀ q, q ∈ wake_list (rqs s c) ++ l → q ∈ pending s c) as Hsub by (intros q F; rewrite Hperm; by right).
  assert (∀ q, q ∈ pending s c → q = p ∨ q ∈ wake_list (rqs s c) ++ l) as Hsup.
  { intros q. by rewrite Hperm, elem_of_cons. }
  pose proof (a_nodup c) as Hnd. rewrite Hperm in Hnd. apply NoDup_cons in Hnd as [Hnotin Hnd].
  clauses.
  - destruct (a_waking _ H) as [F|[d F]]; [left|right].
    + destruct (Hsup p0); congruence.
    + exists d. look. case_decide; congruence.
Qed.
(** The list of a processor comes into its hands. *)
Lemma inv_interrupt s c l : inv s → c ∈ cpus → doing (rqs s c) = None → interrupts_on (at_ (rqs s c)) = true →
  l ≡ₚ wake_list (rqs s c) →
  inv (upd_rq c (λ r, with_doing (Some (PendStart l)) (with_wake_list [] r)) s).
Proof.
  intros I Hc Hd Hi Hp. destruct I as [[] [] []]. doing_facts Hd.
  assert (quiet (doing (rqs s c))) as Hquiet by by rewrite Hd.
  assert (l ≡ₚ pending s c) as Hperm by (unfold pending; rewrite Hd; cbn [in_hand]; by rewrite app_nil_r).
  assert (compatible (at_ (rqs s c)) (PendStart l) = true) as Hcomp by (unfold compatible; by rewrite Hi).
  assert (∀ q, q ∈ [] ++ l → q ∈ pending s c) as Hsub by (intros q; simpl; by rewrite Hperm).
  assert (∀ q, q ∈ pending s c → q ∈ [] ++ l) as Hsup by (intros q; simpl; by rewrite Hperm).
  assert (NoDup ([] ++ l)) as Hnd by (simpl; rewrite Hperm; done).
  clauses.
Qed.

(** A new task. *)
Lemma inv_fork s c p m t : inv s → c ∈ cpus → doing (rqs s c) = None → interrupts_on (at_ (rqs s c)) = true →
  p ∉ tasklist s →
  inv (set_doing c (Some (NewPlace p)) (upd_task p (λ _, sched_fork c m t) (with_tasklist (p :: tasklist s) s))).
Proof.
  intros I Hc Hd Hi Hp. destruct (p_unborn _ (i_places _ I) _ Hp) as (U1 & U2 & U3 & U4).
  pose proof (not_current _ _ I U3) as Hnc. pose proof (not_loaded _ _ I U3) as Hnl.
  pose proof (not_dying _ _ I U3) as Hny.
  destruct I as [[] [] []]. doing_facts Hd.
  assert (quiet (doing (rqs s c))) as Hquiet by by rewrite Hd.
  assert (compatible (at_ (rqs s c)) (NewPlace p) = true) as Hcomp by (unfold compatible; by rewrite Hi).
  assert (∀ q, q ∈ tasklist s → q ∈ p :: tasklist s) as Hin by (intros; by right).
  assert (p ∈ p :: tasklist s) as Hin2 by (by left).
  assert (∀ q, q ∉ p :: tasklist s → q ∉ tasklist s) as Hin3 by (intros q Hq ?; apply Hq; by right).
  assert (∀ q, q ∈ p :: tasklist s → q ≠ p → q ∈ tasklist s) as Hin4 by (intros q [->|]%elem_of_cons; done).
  assert (∀ d, doing (rqs s d) = Some (NewPlace p) → False) as Hnn.
  { intros d F. apply a_doing in F as (_ & _ & F). by destruct F. }
  clauses.
  - destruct (p_curr c0 H) as (? & ? & ? & ?). split_and!; auto.
  - split_and!; [done..|]. cbn [activity_ok]. look. rewrite !decide_True by done. done.
  - exists c. look. by rewrite decide_True.
  - destruct (a_new p0) as [d ?]; [auto..|]. exists d. look. case_decide; congruence.
Qed.

Lemma inv_new_place s c p dest : inv s → doing (rqs s c) = Some (NewPlace p) → dest ∈ cpus →
  pi_lock (tasks s p) = None →
  inv (set_doing c (Some (NewQueue p))
         (upd_task p (λ t, with_cpu dest (with_st TASK_RUNNING (with_pi_lock (Some c) t))) s)).
Proof.
  intros I Hd Hdest Hpi.
  assert (on_cpu (tasks s p) = false) as Hoff by (apply (a_doing _ (i_activities _ I)) in Hd as (_ & _ & Hd); apply Hd).
  pose proof (not_current _ _ I Hoff) as Hnc. pose proof (not_loaded _ _ I Hoff) as Hnl.
  pose proof (not_dying _ _ I Hoff) as Hny.
  destruct I as [[] [] []]. doing_facts Hd.
  destruct (a_doing _ _ Hd) as (Hc & Hcomp & Ha). cbn in Ha. destruct Ha as (Hk & Hst & Hq & _).
  assert (∀ d, doing (rqs s d) = Some (NewPlace p) → d = c) as Hone by (intros d F; by apply (a_new_one p)).
  clauses.
  - by apply Hone in H.
  - exists c. look. by rewrite decide_True.
Qed.

Lemma inv_new_queue s c p : inv s → doing (rqs s c) = Some (NewQueue p) → inv (unlock_pi c p (activate_task p s)).
Proof.
  intros I Hd. unfold unlock_pi, activate_task.
  assert (on_cpu (tasks s p) = false) as Hoff by (apply (a_doing _ (i_activities _ I)) in Hd as (_ & _ & Hd); apply Hd).
  pose proof (not_current _ _ I Hoff) as Hnc. pose proof (not_loaded _ _ I Hoff) as Hnl.
  pose proof (not_dying _ _ I Hoff) as Hny.
  destruct I as [[] [] []]. doing_facts Hd.
  destruct (a_doing _ _ Hd) as (Hc & Hcomp & Ha). cbn in Ha. destruct Ha as (Hk & Hst & Hq & _).
  pose proof (a_holds p c ltac:(done)) as Hpi.
  clauses.
Qed.

(** A queued task moves to another run queue. *)
Lemma inv_move s c p dest : inv s → c ∈ cpus → doing (rqs s c) = None →
  compatible (at_ (rqs s c)) (Moving p dest) = true → on_rq (tasks s p) = 1 → on_cpu (tasks s p) = false →
  is_idle p = false → dest ∈ cpus →
  inv (set_doing c (Some (Moving p dest)) (upd_task p (with_cpu dest) (deactivate_task p false s))).
Proof.
  intros I Hc Hd Hcomp Hq Hoff Hi Hdest. unfold deactivate_task.
  pose proof (not_idle _ Hi) as Hni. pose proof (not_current _ _ I Hoff) as Hnc.
  pose proof (not_loaded _ _ I Hoff) as Hnl. pose proof (not_dying _ _ I Hoff) as Hny.
  destruct I as [[] [] []]. doing_facts Hd.
  assert (quiet (doing (rqs s c))) as Hquiet by by rewrite Hd.
  assert (p ∈ tasklist s) as Hk.
  { destruct (decide (p ∈ tasklist s)) as [|Hn]; [done|]. apply p_unborn in Hn as (_ & ? & _). congruence. }
  assert (st (tasks s p) ≠ TASK_DEAD) as Hnd.
  { intros E. destruct (d_dead _ E) as [|[F _]]; [congruence|]. apply Hnc in F; auto. }
  assert (st (tasks s p) ≠ TASK_WAKING) as Hnw.
  { intros E. destruct (a_waking _ E) as [F|[d F]]; [apply a_pending in F as (_ & ? & _); congruence|].
    destruct (doing (rqs s d)) as [a|] eqn:Ed; [|done]. apply a_doing in Ed as (_ & _ & Ha).
    destruct a; simplify_eq/=; naive_solver congruence. }
  assert (∀ d x, doing (rqs s d) = Some (Moving p x) → False) as Hnm.
  { intros d x F. apply a_doing in F as (_ & _ & _ & ? & _). congruence. }
  clauses.
  - split_and!; [done..|]. cbn [activity_ok]. look. rewrite !decide_True by done. done.
  - exists c. look. by rewrite decide_True.
Qed.

Lemma inv_moved s c p dest : inv s → doing (rqs s c) = Some (Moving p dest) →
  inv (set_doing c None (activate_task p s)).
Proof.
  intros I Hd. unfold activate_task.
  assert (on_cpu (tasks s p) = false) as Hoff by (apply (a_doing _ (i_activities _ I)) in Hd as (_ & _ & Hd); apply Hd).
  pose proof (not_current _ _ I Hoff) as Hnc. pose proof (not_loaded _ _ I Hoff) as Hnl.
  destruct I as [[] [] []]. doing_facts Hd.
  destruct (a_doing _ _ Hd) as (Hc & Hcomp & Ha). cbn in Ha. destruct Ha as (Hk & Hq & _ & Hcpu & Hi).
  assert (∀ d x, doing (rqs s d) = Some (Moving p x) → d = c) as Hone by (intros d x F; by eapply a_moving_one).
  clauses.
  by apply Hone in H.
Qed.
End steps.
