(* ===== verification/SwitchKeeps.v ===== *)
(** Every step of Switch keeps the invariant of SwitchInv. *)
From S2P Require Import Prelude Switch SwitchInv SwitchFacts SwitchSchedule SwitchWaking.
Local Open Scope Z_scope.

Section keeps.
Context `{M : machine} {MO : machine_ok}.
Implicit Types (s : state) (p q c d : Z).

(** Two states that differ in other fields only. *)
Ltac same_fields :=
  unfold deactivate_task, activate_task, add_uninterruptible, add_iowait, ttwu_do_wakeup, unlock_pi,
    set_current_state, __ttwu_queue_wakelist, prepare_task, finish_lock_switch;
  split_and!; [intros ?; unfold same_task; look; repeat case_decide; subst; done
              |intros ?; unfold same_rq; look; repeat case_decide; subst; done|done|done].

Lemma same_refl s : same s s.
Proof. by repeat split. Qed.
Lemma same_trans s1 s2 s3 : same s1 s2 → same s2 s3 → same s1 s3.
Proof.
  intros (A1 & A2 & A3 & A4) (B1 & B2 & B3 & B4). split_and!; [| |congruence..]; intros x.
  - destruct (A1 x) as (? & ? & ? & ? & ? & ?), (B1 x) as (? & ? & ? & ? & ? & ?). split_and!; congruence.
  - destruct (A2 x) as (? & ? & ? & ?), (B2 x) as (? & ? & ? & ?). split_and!; congruence.
Qed.

Lemma executes_spec c s : executes c s = true → c ∈ cpus ∧ at_ (rqs s c) = Run ∧ doing (rqs s c) = None.
Proof.
  unfold executes. rewrite !andb_true_iff, !bool_decide_eq_true. tauto.
Qed.

Lemma executing s c : inv s → c ∈ cpus → at_ (rqs s c) = Run → running s (curr (rqs s c)) c ∧ st (tasks s (curr (rqs s c))) ≠ TASK_DEAD.
Proof.
  intros I Hc Hat. assert (running s (curr (rqs s c)) c) as R by (apply inv_running; [done..|by rewrite Hat]).
  split; [done|]. apply (r_dead _ _ _ R). by rewrite Hat.
Qed.

Lemma set_state_inv s c v : inv s → c ∈ cpus → at_ (rqs s c) = Run → awake v →
  is_idle (curr (rqs s c)) = false ∨ v = TASK_RUNNING → inv (set_current_state c v s).
Proof.
  intros I Hc Hat Hv Hi. destruct (executing s c) as [_ Hd]; [done..|].
  apply inv_set_st; [done|done|by rewrite Hat|by intros ??; rewrite Hat|done|done|].
  intros d Hd' E. destruct Hi as [Hi|]; [|done]. by apply (not_idle _ Hi) in E.
Qed.

Ltac guards H :=
  repeat match type of H with
  | (if ?b then _ else _) = Some _ => destruct b eqn:?; [|discriminate H]
  end;
  repeat match goal with
  | G : (_ && _) = true |- _ => apply andb_true_iff in G as [? ?]
  | G : executes _ _ = true |- _ => apply executes_spec in G as (? & ? & ?)
  | G : negb _ = true |- _ => apply negb_true_iff in G
  | G : bool_decide _ = true |- _ => apply bool_decide_eq_true in G
  | G : bool_decide _ = false |- _ => apply bool_decide_eq_false in G
  | G : pi_free _ _ = true |- _ => unfold pi_free in G
  end.
Ltac result H := injection H as H; rewrite <- H.

Lemma uninterruptible_awake : awake TASK_UNINTERRUPTIBLE ∧ awake TASK_RUNNING.
Proof. done. Qed.

Lemma do_task_inv l s s' : inv s → do_task l s = Some (Ok s') → inv s'.
Proof.
  intros I. pose proof uninterruptible_awake as [Hu Hr].
  destruct l; simpl; intros H; try discriminate H.
  - guards H. destruct (is_special_task_state v).
    + unfold set_special_state in H. destruct (pi_free _ s); [|discriminate H]. result H.
      apply set_state_inv; [done..|by apply plain_awake|by left].
    + result H. apply set_state_inv; [done..|by apply plain_awake|by left].
  - guards H. result H. eapply same_inv; [|done]. same_fields.
  - guards H. result H. eapply same_inv; [|done]. same_fields.
  - guards H. result H. eapply same_inv; [|done]. same_fields.
  - guards H. result H. eapply same_inv; [|apply (set_state_inv s c TASK_UNINTERRUPTIBLE); [done..|by left]].
    unfold set_current_state. same_fields.
  - guards H. result H. case_match.
    + eapply same_inv; [|apply (set_state_inv s c TASK_RUNNING); [done..|by right]]. unfold set_current_state. same_fields.
    + eapply same_inv; [|done]. same_fields.
  - guards H. unfold set_special_state in H. destruct (pi_free _ s) eqn:Hpi; [|discriminate H]. result H.
    apply bool_decide_eq_true in Hpi. by apply inv_die.
  - assert (inv (set_at c (Locked false) s)) as I2.
    { destruct (executes c s && _) eqn:G.
      - guards H. destruct (executing s c I) as [[] ?]; [done..|].
        apply inv_set_at; try done; match goal with E : at_ _ = _ |- _ => rewrite ?E; try done end; auto.
        congruence.
      - destruct (_ && _ && _) eqn:G2; [|discriminate H]. clear G. guards H.
        assert (running s (curr (rqs s c)) c) as [] by (apply inv_running; [done..|by match goal with E : at_ _ = _ |- _ => rewrite E end]).
        apply inv_set_at; try done; match goal with E : at_ _ = _ |- _ => rewrite ?E; try done end; auto.
        congruence. }
    assert (s' = upd_task (curr (rqs s c)) (λ t, if decide (loop t = Sleep) then with_loop Again t else t) (set_at c (Locked false) s)) as ->.
    { repeat case_match; simplify_eq; done. }
    eapply same_inv; [|exact I2]. same_fields.
  - guards H. result H. destruct (executing s c I) as [[] ?]; [done..|].
    apply inv_set_at; try done; match goal with E : at_ _ = _ |- _ => rewrite ?E; try done end; auto.
    congruence.
Qed.
Lemma switch_memory_same c prev next s s' : switch_memory c prev next s = Ok s' → same s s'.
Proof.
  unfold switch_memory, mmgrab. intros H. repeat case_match; simplify_eq/=; bind_inv; simplify_eq. all: first [apply same_refl|same_fields].
Qed.

(** The current task of [c], which has left nothing to do there, goes on. *)
Lemma resume_inv s c s' : inv s → c ∈ cpus → prev_of (at_ (rqs s c)) = None → burying (at_ (rqs s c)) = None →
  on_rq (tasks s (curr (rqs s c))) = 1 → resume c s = Ok s' → inv s'.
Proof.
  unfold resume. intros I Hc Hp Hb Hq H. case_decide as Hd; [done|]. injection H as <-.
  apply inv_set_at; try done; [|by left].
  destruct (buried_off (at_ (rqs s c))) eqn:E; [|done]. apply buried_burying in E. congruence.
Qed.

Lemma same_set_at c x s t : same s t → same (set_at c x s) (set_at c x t).
Proof.
  intros (A1 & A2 & A3 & A4). split_and!; [exact A1| |done..]. intros d. destruct (A2 d) as (? & ? & ? & ?).
  unfold same_rq. look. case_decide; subst; done.
Qed.

(** The counters of a switch. *)
Lemma counters_same c p b s : same s (upd_task p (λ t, if b : bool then with_nvcsw (wrapu64 (nvcsw t + 1)) t
                                                  else with_nivcsw (wrapu64 (nivcsw t + 1)) t)
                                (upd_rq c (λ r, with_nr_switches (wrapu64 (nr_switches r + 1)) r) s)).
Proof. destruct b; same_fields. Qed.

Lemma switch_to_next_inv s c b next s' : inv s → at_ (rqs s c) = Picking b → on_rq (tasks s next) = 1 →
  cpu (tasks s next) = c → switch_to_next c b next s = Ok s' → inv s'.
Proof.
  intros I Hat Hq Hcpu H. assert (c ∈ cpus) as Hc by (apply (p_at _ (i_places _ I)); congruence).
  unfold switch_to_next in H. destruct (Z.eqb_spec (curr (rqs s c)) next) as [E|E].
  - apply (resume_inv s c); [done|done|by rewrite Hat..|congruence|done].
  - unfold context_switch in H. apply res_bind_ok_inv in H as (t & H & [= <-]). apply switch_memory_same in H.
    pose proof (same_inv _ _ (counters_same c (curr (rqs s c)) b s) I) as I2.
    set (s2 := upd_task _ _ _) in I2.
    assert (inv (set_at c (Switched (curr (rqs s2 c))) (upd_rq c (with_curr next) (upd_task next (with_on_cpu true) s2)))) as I3.
    { apply (inv_pick s2 c b); subst s2; [done| | | |]; destruct b; look; congruence. }
    eapply same_inv; [|exact I3]. eapply same_trans; [|apply same_set_at, H]. subst s2. destruct b; same_fields.
Qed.

Lemma deactivate_inv s c b v signal : inv s → at_ (rqs s c) = Loaded b v →
  negb signal || matches v (Z.lor TASK_INTERRUPTIBLE TASK_WAKEKILL) = true → inv (deactivate_prev c b v signal s).
Proof.
  intros I Hat Hs. assert (c ∈ cpus) as Hc by (apply (p_at _ (i_places _ I)); congruence).
  assert (doing (rqs s c) = None) as Hd by (apply not_doing; [done|by rewrite Hat..]).
  assert (running s (curr (rqs s c)) c) as [] by (apply inv_running; [done..|by rewrite Hat]).
  unfold deactivate_prev. destruct (b || (v =? 0)) eqn:Hb.
  - apply inv_set_at; try done; rewrite ?Hat; auto; [|by rewrite Hd].
    intros E. destruct b; [by rewrite Hat in r_dead; specialize (r_dead eq_refl)|]. apply Z.eqb_eq in Hb as ->.
    pose proof (p_loaded _ (i_places _ I) _ _ _ Hat) as F. rewrite E in F. discriminate F.
  - apply orb_false_iff in Hb as [-> Hv%Z.eqb_neq]. destruct signal.
    + apply (inv_signal s c v); [done..|]. intros ->. discriminate Hs.
    + eapply same_inv; [|by apply (inv_deactivate s c v)]. set (load := _ && negb (frozen _)). destruct load, (in_iowait _); same_fields.
Qed.

Lemma drop_prev_inv s c prev v m s' : inv s → at_ (rqs s c) = Tail prev v m → doing (rqs s c) = None →
  drop_prev c prev v m s = Ok s' → inv s'.
Proof.
  intros I Hat Hd H. assert (c ∈ cpus) as Hc by (apply (p_at _ (i_places _ I)); congruence).
  unfold drop_prev in H. apply res_bind_ok_inv in H as (s1 & H1 & H).
  assert (same s s1) as Hs.
  { destruct m; [|injection H1 as <-; apply same_refl]. unfold mmdrop in H1. case_decide; simplify_eq. same_fields. }
  pose proof (same_inv _ _ Hs I) as I1. destruct (Hs) as (_ & Hr & _). destruct (Hr c) as (_ & _ & E1 & E2).
  rewrite Hat in E1. rewrite Hd in E2. clear I. apply res_bind_ok_inv in H as (s2 & H2 & H).
  destruct (Z.eqb_spec v TASK_DEAD) as [->|Hv].
  - unfold put_task_struct_rcu_user in H2. destruct (current_ref _); [|done]. injection H2 as <-.
    unfold resume in H. case_decide; [done|]. injection H as <-. by apply (inv_bury s1 c prev m).
  - injection H2 as <-. apply (resume_inv s1 c); [done|done|by rewrite <- E1| | |done].
    + rewrite <- E1. simpl. by destruct (Z.eqb_spec v TASK_DEAD).
    + destruct (inv_running s1 c) as []; [done|done|by rewrite <- E1|done].
Qed.

Lemma dead_current s c : inv s → c ∈ cpus → dying (at_ (rqs s c)) = false →
  st (tasks s (curr (rqs s c))) = TASK_DEAD → on_rq (tasks s (curr (rqs s c))) = 0.
Proof.
  intros I Hc Hd E. destruct (d_dead _ (i_deaths _ I) _ E) as [|[_ F]]; [done|].
  destruct (p_curr _ (i_places _ I) c Hc) as (_ & G & _). congruence.
Qed.

Lemma do_schedule_inv l s s' : inv s → do_schedule l s = Some (Ok s') → inv s'.
Proof.
  intros I. destruct l; simpl; intros H; try discriminate H; destruct (at_ (rqs s c)) eqn:Hat; try discriminate H.
  all: assert (c ∈ cpus) as Hc by (apply (p_at _ (i_places _ I)); congruence).
  - assert (running s (curr (rqs s c)) c) as [] by (apply inv_running; [done..|by rewrite Hat]).
    result H. apply inv_set_at; try done; rewrite ?Hat; auto.
    + intros E. right. rewrite Hat in r_dead. destruct preempt; [by specialize (r_dead eq_refl)|done].
    + intros a Ha. pose proof (not_doing s c I) as E. rewrite Hat in E. rewrite E in Ha; done.
  - guards H. result H. by apply deactivate_inv.
  - result H. apply inv_set_at; try done; rewrite ?Hat; auto.
    + by intros E; left; apply dead_current; rewrite ?Hat.
    + intros a Ha. destruct (a_doing _ (i_activities _ I) _ _ Ha) as (_ & F & _). by rewrite Hat in F.
  - destruct (doing (rqs s c)) eqn:Hd; [discriminate H|]. result H. apply inv_set_at; try done; rewrite ?Hat; auto.
    + by intros E; left; apply dead_current; rewrite ?Hat.
    + by rewrite Hd.
  - guards H. injection H as H. apply Z.eqb_eq in H0, H1. by apply (switch_to_next_inv s c voluntary next).
  - result H. eapply same_inv; [|by apply (inv_save s c prev)]. unfold save_prev. same_fields.
  - result H. by apply (inv_finish s c prev prev_state m).
  - result H. apply inv_set_at; try done; rewrite ?Hat; auto.
    + left. by apply inv_running; rewrite ?Hat.
    + by intros E; left; apply dead_current; rewrite ?Hat.
  - destruct (doing (rqs s c)) eqn:Hd; [discriminate H|]. injection H as H. by apply (drop_prev_inv s c prev prev_state m).
Qed.

Lemma do_mm_inv {MC : mm_code} l s s' : inv s → do_mm l s = Some (Ok s') → inv s'.
Proof.
  intros I H. destruct l; simpl in H; try discriminate H. guards H.
  destruct (change_mm k c s) as [[[[m a] u] n]|]; [|discriminate H]. result H. eapply same_inv; [|done]. same_fields.
Qed.
(** * Activities *)

Lemma can_start_spec c s : can_start c s = true → c ∈ cpus ∧ interrupts_on (at_ (rqs s c)) = true ∧ doing (rqs s c) = None.
Proof. unfold can_start. rewrite !andb_true_iff, !bool_decide_eq_true. tauto. Qed.

(** A processor queues no wake-up for itself. *)
Lemma own_queue_cond c s : ttwu_queue_cond c c false s = false.
Proof. unfold ttwu_queue_cond, cpus_share_cache. rewrite Z.eqb_refl. by destruct (cpu_active c). Qed.

Lemma try_to_wake_up_inv c dest s a s' : inv s → doing (rqs s c) = Some a → try_to_wake_up c dest a s = Some s' → inv s'.
Proof.
  intros I Hd H. pose proof (a_doing _ (i_activities _ I) _ _ Hd) as (Hc & Hcomp & Ha).
  destruct a; simpl in H, Ha; try discriminate H.
  - destruct Ha as [Hk Hm]. destruct (Z.eqb_spec p (curr (rqs s c))) as [->|Hp].
    + destruct (matches _ _) eqn:E; result H; [|by apply inv_set_doing; rewrite ?Hd].
      apply (plain_matches _ _ Hm) in E as Hv. assert (interrupts_on (at_ (rqs s c)) = true) as Hi.
      { unfold compatible in Hcomp. apply orb_true_iff in Hcomp as [|F]; [done|]. by destruct (at_ _). }
      change (upd_task (curr (rqs s c)) (with_st TASK_RUNNING) (set_doing c None s))
        with (set_doing c None (upd_task (curr (rqs s c)) (with_st TASK_RUNNING) s)).
      assert (inv (upd_task (curr (rqs s c)) (with_st TASK_RUNNING) s)) as I2.
      { apply inv_set_st; try done; [by destruct (at_ _)|by intros ?? F; rewrite F in Hi|apply Hv]. }
      apply inv_set_doing; look; rewrite ?Hd; done.
    + destruct (pi_free p s) eqn:Hpi; [|discriminate H]. apply bool_decide_eq_true in Hpi. destruct (matches _ _) eqn:E; result H.
      * apply (inv_lock _ _ _ mask0); [done..|]. by eapply plain_matches.
      * by apply inv_set_doing; rewrite ?Hd.
  - result H. destruct Ha as (? & ? & ?). destruct (Z.eqb_spec (on_rq (tasks s p)) 0); apply inv_set_doing; rewrite ?Hd; try done.
    all: intros ? [= <-]; done.
  - destruct Ha as (? & ? & ?). unfold ttwu_runnable in H. destruct (rq_locked _ _ || _) eqn:E; [discriminate H|]. apply orb_false_iff in E as [E1 E2].
    destruct (task_on_rq_queued _) eqn:E3; result H.
    + apply inv_wake_runnable; [done..|]. by apply Z.eqb_eq.
    + apply inv_set_doing; rewrite ?Hd; try done. intros ? [= <-]. split; [done|]. split_and!; [done..|].
      apply Z.eqb_neq in E2, E3. by destruct (p_on_rq _ (i_places _ I) p) as [|[|]].
  - result H. by apply inv_set_waking.
  - result H. destruct Ha as (? & ? & ? & ?). destruct (on_cpu _) eqn:E; apply inv_set_doing; rewrite ?Hd; try done; intros ? [= <-]; [|done].
    split; [done|]. split_and!; try done. intros F.
    destruct (p_on_cpu _ (i_places _ I) p E) as [G|G]; rewrite F in G; [done|].
    destruct (at_ _); discriminate Hcomp || discriminate G.
  - unfold ttwu_queue_wakelist in H. destruct (_ && _).
    + destruct (Z.eqb_spec (cpu (tasks s p)) c) as [E|E]; [by destruct Ha as (_ & _ & _ & _ & []); exact E|]. 
      result H. eapply same_inv; [|apply (inv_push s c p (WakeOnCpu p) false); auto]. same_fields.
    + result H. destruct Ha as (? & ? & ? & ? & ?). apply inv_set_doing; rewrite ?Hd; try done. by intros ? [= <-].
  - destruct (on_cpu _) eqn:E; [discriminate H|]. case_decide; [|discriminate H]. destruct Ha as (? & ? & ? & ?).
    destruct (Z.eqb_spec (cpu (tasks s p)) dest); [|rewrite set_task_cpu_quiet in H by (done || (left; by destruct (in_iowait _)))]; result H.
    + apply inv_set_doing; rewrite ?Hd; try done. intros ? [= <-]. done.
    + eapply same_inv; [|by apply (inv_place s c p dest true)]. destruct (in_iowait _); same_fields.
  - unfold ttwu_queue, ttwu_queue_wakelist in H. destruct (_ && _) eqn:Hq.
    + destruct (Z.eqb_spec (cpu (tasks s p)) c) as [E|E].
      * apply andb_true_iff in Hq as [_ Hq]. rewrite E in Hq. by rewrite own_queue_cond in Hq.
      * result H. eapply same_inv; [|apply (inv_push s c p (WakeQueue p migrated) migrated); auto]. same_fields.
    + destruct (rq_locked _ _); [discriminate H|]. result H. eapply same_inv; [|by apply (inv_wake_queue s c p migrated)].
      unfold ttwu_do_activate. destruct (contributes _), (negb migrated && _); same_fields.
Qed.

Lemma wake_up_new_task_inv c dest s a s' : inv s → doing (rqs s c) = Some a → wake_up_new_task c dest a s = Some s' → inv s'.
Proof.
  intros I Hd H. destruct a; simpl in H; try discriminate H.
  - guards H. result H. by apply inv_new_place.
  - destruct (rq_locked _ _); [discriminate H|]. result H. by apply inv_new_queue.
Qed.

Lemma sched_ttwu_pending_inv c s a s' : inv s → doing (rqs s c) = Some a → sched_ttwu_pending c a s = Some s' → inv s'.
Proof.
  intros I Hd H. pose proof (a_doing _ (i_activities _ I) _ _ Hd) as (Hc & Hcomp & Ha).
  destruct a; simpl in H; try discriminate H.
  - result H. eapply same_inv; [|apply (inv_set_doing s c (Some (PendLocked l))); rewrite ?Hd; try done; by intros ? [= <-]].
    same_fields.
  - destruct l as [|p l]; [result H; by apply inv_set_doing; rewrite ?Hd|].
    destruct (a_pending _ (i_activities _ I) c p) as (P1 & P2 & P3 & P4).
    { unfold pending. rewrite Hd. simpl. set_solver. }
    destruct (on_cpu (tasks s p)) eqn:E; result H.
    + exfalso. assert (interrupts_on (at_ (rqs s c)) = true) as Hi.
      { unfold compatible in Hcomp. apply orb_true_iff in Hcomp as [|F]; [done|]. by destruct (at_ _). }
      destruct (p_on_cpu _ (i_places _ I) p E) as [G|G]; rewrite P4 in G; [|by destruct (at_ _)].
      destruct (p_curr _ (i_places _ I) c Hc) as (_ & _ & _ & [F|[_ F]]); [congruence|]. by destruct (at_ _).
    + rewrite P4, Z.eqb_refl. eapply same_inv; [|by apply (inv_pending s c p l)].
      unfold ttwu_do_activate. destruct (contributes _), (negb (remote_wakeup _) && _); same_fields.
Qed.

Lemma move_end_inv c p dest s s' : inv s → doing (rqs s c) = Some (Moving p dest) →
  move_queued_task_end c p dest s = Some (Ok s') → inv s'.
Proof.
  unfold move_queued_task_end. intros I Hd H. destruct (rq_locked _ _); [discriminate H|].
  destruct (_ =? _); [|discriminate H]. result H. by apply (inv_moved s c p dest).
Qed.

Lemma do_activity_inv l s s' : inv s → do_activity l s = Some (Ok s') → inv s'.
Proof.
  intros I. destruct l; simpl; intros H; try discriminate H.
  - guards H. result H. apply inv_fork; try done. by match goal with E : at_ _ = _ |- _ => rewrite E end.
  - guards H. result H. apply can_start_spec in H0 as (? & ? & E). apply inv_set_doing; rewrite ?E; try done.
    intros ? [= <-]. unfold compatible. split; [by apply orb_true_iff; left|done].
  - guards H. result H. apply can_start_spec in H0 as (? & ? & E).
    eapply same_inv; [|apply (inv_set_doing s c (Some (WakeEnter p TASK_UNINTERRUPTIBLE))); rewrite ?E; try done;
      intros ? [= <-]; unfold compatible; split; [by apply orb_true_iff; left|done]].
    same_fields.
  - guards H. result H. apply can_start_spec in H0 as (? & ? & E).
    eapply same_inv; [|by apply (inv_interrupt s c l)]. same_fields.
  - guards H. result H. rewrite set_task_cpu_quiet by (done || (right; by apply migrates_at)). apply inv_move; try done.
    by apply Z.eqb_eq.
  - destruct (doing (rqs s c)) as [a|] eqn:Hd; [|discriminate H].
    destruct a; (apply fmap_Some in H as (t & H & [= ->]); first [by eapply try_to_wake_up_inv|by eapply wake_up_new_task_inv|by eapply sched_ttwu_pending_inv]) || by eapply move_end_inv.
Qed.

Lemma do_inv {MC : mm_code} l s s' : inv s → do l s = Some (Ok s') → inv s'.
Proof.
  intros I. destruct l; (by apply do_task_inv) || (by apply do_schedule_inv) || (by apply do_mm_inv) || (by apply do_activity_inv).
Qed.
End keeps.
