(* ===== verification/SwitchStart.v ===== *)
(** At the start of the machine the invariant of SwitchInv holds. *)
From S2P Require Import Prelude Switch SwitchInv SwitchFacts SwitchSchedule SwitchWaking SwitchKeeps.
Local Open Scope Z_scope.

Section init.
Context `{M : machine} {MO : machine_ok}.

Lemma init_task m p : (∃ c, (c ∈ cpus) ∧ p = idle c ∧ tasks (sched_init m) p = init_idle c m) ∨
  ((p ∉ idle <$> cpus) ∧ tasks (sched_init m) p = unborn).
Proof.
  cbn. destruct (filter (λ c, idle c = p) cpus) as [|c l] eqn:E.
  - right. split; [|done]. intros (c & -> & Hc)%list_elem_of_fmap.
    assert (c ∈ filter (λ d, idle d = idle c) cpus) as H by (by apply list_elem_of_filter). rewrite E in H.
    by apply not_elem_of_nil in H.
  - left. exists c. assert (c ∈ filter (λ c, idle c = p) cpus) as H by (rewrite E; set_solver).
    apply list_elem_of_filter in H as [<- ?]. done.
Qed.

Lemma init_idle_task m c : c ∈ cpus → tasks (sched_init m) (idle c) = init_idle c m.
Proof.
  intros Hc. destruct (init_task m (idle c)) as [(d & Hd & E & ->)|[F _]].
  - by rewrite (idle_inj c d).
  - destruct F. set_solver.
Qed.

Lemma inv_init m : inv (sched_init m).
Proof.
  assert (∀ P : Z → task_struct → Prop, (∀ c, (c ∈ cpus) → P (idle c) (init_idle c m)) → (∀ p, (p ∉ idle <$> cpus) → P p unborn) →
    ∀ p, P p (tasks (sched_init m) p)) as Ht.
  { intros P P1 P2 p. destruct (init_task m p) as [(c & Hc & -> & ->)|(Hn & ->)]; auto. }
  split; split; intros *; change (tasklist (sched_init m)) with (idle <$> cpus).
  - intros Hc. change (curr (rqs (sched_init m) c)) with (idle c). rewrite init_idle_task by done. cbn. set_solver.
  - done.
  - apply (Ht (λ p t, on_cpu t = true → curr (rqs (sched_init m) (cpu t)) = p ∨ _)); [by left|done].
  - done.
  - apply (Ht (λ p t, p ∈ idle <$> cpus → cpu t ∈ cpus)); [done|by intros].
  - apply (Ht (λ p t, p ∉ idle <$> cpus → st t = TASK_NEW ∧ on_rq t = 0 ∧ on_cpu t = false ∧ pi_lock t = None)); [|done].
    intros c Hc []. by apply list_elem_of_fmap_2.
  - apply (Ht (λ p t, on_rq t = 0 ∨ on_rq t = 1 ∨ on_rq t = 2)); [by right; left|by left].
  - done.
  - intros Hc. rewrite init_idle_task by done. cbn. set_solver.
  - done.
  - apply (Ht (λ p t, pi_lock t = Some c → _)); done.
  - done.
  - apply (Ht (λ p t, on_rq t = 2 → ∃ d, doing _ = Some (Moving p (cpu t)))); done.
  - done.
  - apply (Ht (λ p t, p ∈ idle <$> cpus → st t = TASK_NEW → ∃ d, doing _ = Some (NewPlace p))); [done|by intros].
  - done.
  - apply (Ht (λ p t, on_rq t = 0 → st t = TASK_RUNNING → ∃ d, doing _ = Some (NewQueue p))); done.
  - by intros ?%not_elem_of_nil.
  - done.
  - apply NoDup_nil_2.
  - apply (Ht (λ p t, st t = TASK_WAKING → p ∈ pending _ (cpu t) ∨ _)); done.
  - done.
  - apply (Ht (λ p t, st t = TASK_DEAD → on_rq t = 0 ∨ curr _ = p ∧ dying (at_ (rqs _ (cpu t))) = _)); done.
  - done.
  - done.
  - done.
  - done.
  - done.
  - apply (Ht (λ p t, p ∈ idle <$> cpus → current_ref t = false → st t = TASK_DEAD ∧ on_rq t = 0 ∧ on_cpu t = false)); [done|by intros].
  - apply (Ht (λ p t, st t = TASK_DEAD → current_ref t = true → on_cpu t = true ∨ _)); done.
Qed.
End init.
