(* ===== verification/SwitchMemory.v ===== *)
(** The references to memories in Switch: [mm_count] of every memory is the
    number of its users and of the kernel threads that borrow it, and of the
    borrowed references that [finish_task_switch] has still to drop. With it
    and the invariant of SwitchInv no step of the model is undefined. *)
From S2P Require Import Prelude Switch SwitchInv SwitchFacts SwitchSchedule SwitchWaking SwitchKeeps SwitchStart.
Local Open Scope Z_scope.

(** * Sums *)

Lemma sum_over_ext f g l : (∀ x, x ∈ l → f x = g x) → sum_over f l = sum_over g l.
Proof.
  induction l as [|x l IH]; simpl; intros H; [done|]. rewrite IH by set_solver. rewrite (H x) by set_solver. done.
Qed.

(** One summand changes. *)
Lemma sum_over_change x f g l : NoDup l → x ∈ l → (∀ y, y ∈ l → y ≠ x → f y = g y) →
  sum_over f l = sum_over g l + (f x - g x).
Proof.
  induction 1 as [|y l Hy Hl IH]; intros Hx H; [by apply not_elem_of_nil in Hx|]. simpl.
  apply elem_of_cons in Hx as [->|Hx].
  - rewrite (sum_over_ext f g l); [lia|]. intros z Hz. apply H; [set_solver|]. by intros ->.
  - rewrite IH by (try done; set_solver). rewrite (H y); [lia|set_solver|]. by intros ->.
Qed.

Lemma sum_over_change2 x y f g l : NoDup l → x ∈ l → y ∈ l → x ≠ y → (∀ z, z ∈ l → z ≠ x → z ≠ y → f z = g z) →
  sum_over f l = sum_over g l + (f x - g x) + (f y - g y).
Proof.
  intros Hl Hx Hy Hn H. pose (h := <[x := g x]> f).
  rewrite (sum_over_change x f h), (sum_over_change y h g); try done; unfold h.
  - rewrite fn_lookup_insert, fn_lookup_insert_ne by done. lia.
  - intros z Hz Hzy. destruct (decide (z = x)) as [->|]; [by rewrite fn_lookup_insert|].
    rewrite fn_lookup_insert_ne by done. auto.
  - intros z Hz Hzx. by rewrite fn_lookup_insert_ne.
Qed.

Lemma sum_over_nonneg f l : (∀ x, 0 ≤ f x) → 0 ≤ sum_over f l.
Proof. intros Hf. induction l as [|x l IH]; simpl; [lia|]. specialize (Hf x). lia. Qed.
Lemma sum_over_member x f l : (∀ y, 0 ≤ f y) → x ∈ l → f x ≤ sum_over f l.
Proof.
  intros Hf. induction l as [|y l IH]; intros Hx; [by apply not_elem_of_nil in Hx|]. simpl.
  pose proof (sum_over_nonneg f l Hf). apply elem_of_cons in Hx as [->|Hx]; [lia|]. specialize (Hf y). specialize (IH Hx). lia.
Qed.

(** * References *)

(** A kernel thread with the memory [m]. *)
Definition lazy (m : Z) (t : task_struct) : Z :=
  if decide (mm t = None ∧ active_mm t = Some m) then 1 else 0.
(** The reference that a processor has to drop at the end of a switch. *)
Definition owes (r : rq) : option Z :=
  match at_ r with
  | Switched _ => prev_mm r
  | Saved _ _ m | Finished _ _ m | Tail _ _ m => m
  | _ => None
  end.
Definition owed (m : Z) (r : rq) : Z := if decide (owes r = Some m) then 1 else 0.

(** What exec, exit and the other code that changes the memory of the current
    task promise: a user task has its memory as [active_mm] and a reference
    among [mm_users], and [mm_count] changes by as much as [mm_users] and the
    borrowed reference of the task do. *)
Definition mm_change_ok (s : state) (p : Z) (m a : option Z) (users count : Z → Z) : Prop :=
  a ≠ None ∧ (∀ x, m = Some x → a = Some x ∧ 1 ≤ users x) ∧ (∀ x, 0 ≤ users x) ∧
  (∀ q x, q ≠ p → mm (tasks s q) = Some x → 1 ≤ users x) ∧
  ∀ x, count x = mm_count s x + (users x - mm_users s x) +
    (lazy x (with_active_mm a (with_mm m (tasks s p))) - lazy x (tasks s p)).

Section memory.
Context `{M : machine}.

Record memory_ok (s : state) : Prop := {
  m_nodup : NoDup (tasklist s);
  m_unborn p : p ∉ tasklist s → mm (tasks s p) = None ∧ active_mm (tasks s p) = None;
  m_user p m : mm (tasks s p) = Some m → active_mm (tasks s p) = Some m ∧ 1 ≤ mm_users s m;
  m_current c : c ∈ cpus → active_mm (tasks s (curr (rqs s c))) ≠ None;
  m_idle p m : mm (tasks s p) = None → active_mm (tasks s p) = Some m → ∃ c, c ∈ cpus ∧ curr (rqs s c) = p;
  m_prev c m : prev_mm (rqs s c) = Some m → ∃ q, at_ (rqs s c) = Switched q;
  m_users m : 0 ≤ mm_users s m;
  m_count m : mm_count s m =
    mm_users s m + sum_over (λ p, lazy m (tasks s p)) (tasklist s) + sum_cpus (λ c, owed m (rqs s c));
}.

Class mm_code_ok {MC : mm_code} : Prop :=
  change_mm_ok k c s m a users count : c ∈ cpus → memory_ok s → change_mm k c s = Some (m, a, users, count) →
    mm_change_ok s (curr (rqs s c)) m a users count.

Lemma lazy_nonneg m t : 0 ≤ lazy m t.
Proof. unfold lazy. case_decide; lia. Qed.
Lemma owed_nonneg m r : 0 ≤ owed m r.
Proof. unfold owed. case_decide; lia. Qed.

(** The fields these clauses speak of. *)
Definition same_memory (s s' : state) : Prop :=
  (∀ p, mm (tasks s p) = mm (tasks s' p)) ∧ (∀ p, active_mm (tasks s p) = active_mm (tasks s' p)) ∧
  (∀ c, curr (rqs s c) = curr (rqs s' c)) ∧ (∀ c, owes (rqs s c) = owes (rqs s' c)) ∧
  (∀ c m, (prev_mm (rqs s c) = Some m → ∃ q, at_ (rqs s c) = Switched q) →
     prev_mm (rqs s' c) = Some m → ∃ q, at_ (rqs s' c) = Switched q) ∧
  tasklist s = tasklist s' ∧ (∀ m, mm_users s m = mm_users s' m) ∧ (∀ m, mm_count s m = mm_count s' m).

Lemma memory_same s s' : same_memory s s' → memory_ok s → memory_ok s'.
Proof.
  intros (E1 & E2 & E3 & E5 & E6 & E7 & E8 & E9) [].
  assert (∀ m p, lazy m (tasks s p) = lazy m (tasks s' p)) as F1 by (intros; unfold lazy; by rewrite E1, E2).
  assert (∀ m c, owed m (rqs s c) = owed m (rqs s' c)) as F2 by (intros; unfold owed; by rewrite E5).
  split; intros *; rewrite <- ?E1, <- ?E2, <- ?E3, <- ?E7, <- ?E8, <- ?E9; eauto.
  - setoid_rewrite <- E3. eauto.
  - rewrite m_count0. f_equal; [f_equal|]; by apply sum_over_ext.
Qed.

Ltac look_memory :=
  repeat progress (look_frame; look_task mm; look_task active_mm; look_rq prev_mm; look_rq curr; look_rq at_);
  cbn [mm active_mm prev_mm curr at_ with_mm with_active_mm with_prev_mm with_curr with_at_] in *.
Ltac same_fields :=
  split_and!; try done; intros ?; unfold owes; look_memory; repeat case_decide; subst;
  repeat match goal with H : at_ _ = _ |- _ => rewrite H end; try done;
  let H := fresh in intros ? H ?; first [by apply H | destruct H as [? H]; congruence].

Lemma do_same_memory {MC : mm_code} l s s' : do l s = Some (Ok s') →
  match l with ChangeMm _ _ | Fork _ _ _ | Pick _ _ | DropPrev _ => True | _ => same_memory s s' end.
Proof.
  intros H. destruct l; try done; simpl in H; unfold_steps; unfold same_memory.
  all: step_cases H; simplify_eq.
  all: repeat match goal with
       | G : (_ && _) = true |- _ => apply andb_true_iff in G as [? ?]
       | G : bool_decide _ = true |- _ => apply bool_decide_eq_true in G
       end.
  all: try (solve [same_fields]).
Qed.

Lemma not_current_elsewhere s c p : inv s → c ∈ cpus → cpu (tasks s p) = c → p ≠ curr (rqs s c) → ∀ d, d ∈ cpus → curr (rqs s d) ≠ p.
Proof. intros I Hc Hp Hn d Hd E. destruct (p_curr _ (i_places _ I) d Hd) as (_ & F & _). congruence. Qed.

(** The memories after a switch. *)
Record switched (s s' : state) (c prev next : Z) : Prop := {
  v_tasklist : tasklist s' = tasklist s;
  v_users m : mm_users s' m = mm_users s m;
  v_mm q : mm (tasks s' q) = mm (tasks s q);
  v_next : active_mm (tasks s' next) =
    match mm (tasks s next) with None => active_mm (tasks s prev) | Some _ => active_mm (tasks s next) end;
  v_prev : active_mm (tasks s' prev) = match mm (tasks s prev) with None => None | Some _ => active_mm (tasks s prev) end;
  v_other q : q ≠ prev → q ≠ next → active_mm (tasks s' q) = active_mm (tasks s q);
  v_curr d : curr (rqs s' d) = if decide (d = c) then next else curr (rqs s d);
  v_at : at_ (rqs s' c) = Switched prev;
  v_prev_mm : prev_mm (rqs s' c) =
    match mm (tasks s prev), mm (tasks s next) with None, Some _ => active_mm (tasks s prev) | _, _ => prev_mm (rqs s c) end;
  v_rq d : d ≠ c → at_ (rqs s' d) = at_ (rqs s d) ∧ prev_mm (rqs s' d) = prev_mm (rqs s d);
  v_count m : mm_count s' m = mm_count s m +
    match mm (tasks s prev), mm (tasks s next) with
    | Some _, None => if decide (active_mm (tasks s prev) = Some m) then 1 else 0
    | _, _ => 0
    end;
}.

Lemma switch_to_next_view s c b next s' : curr (rqs s c) ≠ next →
  switch_to_next c b next s = Ok s' → switched s s' c (curr (rqs s c)) next.
Proof.
  intros Hne H. unfold switch_to_next in H. rewrite (proj2 (Z.eqb_neq _ _) Hne) in H. unfold context_switch, prepare_task in H.
  apply res_bind_ok_inv in H as (t & H & [= <-]). unfold switch_memory in H.
  set (s2 := upd_task next _ _) in H.
  assert (mm (tasks s2 next) = mm (tasks s next)) as E1 by (subst s2; destruct b; by look_memory).
  assert (mm (tasks s2 (curr (rqs s c))) = mm (tasks s (curr (rqs s c)))) as E2 by (subst s2; destruct b; by look_memory).
  assert (active_mm (tasks s2 (curr (rqs s c))) = active_mm (tasks s (curr (rqs s c)))) as E3 by (subst s2; destruct b; by look_memory).
  rewrite E1, E3 in H.
  destruct (mm (tasks s next)) as [mn|] eqn:En, (mm (tasks s (curr (rqs s c)))) as [mp|] eqn:Ep.
  all: rewrite ?(task_kept mm next (with_active_mm _) s2), ?E2 in H by reflexivity.
  all: repeat (apply res_bind_ok_inv in H as (? & ?%opt_ok_inv & H)); injection H as <-; clear E1 E2 E3; unfold s2, set_at.
  all: split; intros; try (unfold mmgrab; cbn [mm_count tasklist mm_users upd_task upd_rq with_mm_count with_tasks with_rqs]).
  all: try match goal with |- _ ∧ _ => split end.
  all: destruct b; look_memory; rewrite ?En, ?Ep; repeat case_decide; subst; try done; try congruence; try lia.
  all: first [rewrite fn_lookup_insert_ne by congruence; lia|assert (m = x) as -> by congruence; by rewrite fn_lookup_insert].
Qed.

Lemma lazy_user m t x : mm t = Some x → lazy m t = 0.
Proof. unfold lazy. intros E. rewrite decide_False; [done|]. intros [F _]. congruence. Qed.
Lemma lazy_kernel m t : mm t = None → lazy m t = if decide (active_mm t = Some m) then 1 else 0.
Proof. unfold lazy. intros E. repeat case_decide; tauto. Qed.

Lemma switched_ok {MO : machine_ok} s c b next s' : inv s → memory_ok s → at_ (rqs s c) = Picking b → on_rq (tasks s next) = 1 →
  cpu (tasks s next) = c → curr (rqs s c) ≠ next → switched s s' c (curr (rqs s c)) next → memory_ok s'.
Proof.
  intros I [] Hat Hq Hcpu Hne []. assert (c ∈ cpus) as Hc by (apply (p_at _ (i_places _ I)); congruence).
  pose proof (not_current_elsewhere s c next I Hc Hcpu ltac:(done)) as Hnc.
  destruct (p_curr _ (i_places _ I) c Hc) as (_ & Hcc & Hk & _).
  assert (next ∈ tasklist s) as Hk2.
  { destruct (decide (next ∈ tasklist s)) as [|Hn]; [done|].
    apply (p_unborn _ (i_places _ I)) in Hn as (_ & ? & _). congruence. }
  assert (∀ d, d ∈ cpus → curr (rqs s d) = curr (rqs s c) → d = c) as Hone.
  { intros d Hd E. destruct (p_curr _ (i_places _ I) d Hd) as (_ & F & _). congruence. }
  assert (prev_mm (rqs s c) = None) as Hp0.
  { destruct (prev_mm (rqs s c)) eqn:E; [|done]. destruct (m_prev0 _ _ E) as [? F]. congruence. }
  set (prev := curr (rqs s c)) in *.
  assert (active_mm (tasks s next) = mm (tasks s next)) as Hn.
  { destruct (mm (tasks s next)) eqn:E; [by apply m_user0|]. destruct (active_mm (tasks s next)) eqn:F; [|done].
    destruct (m_idle0 _ _ E F) as (d & Hd & G). by destruct (Hnc d). }
  split.
  - by rewrite v_tasklist0.
  - intros p Hp. rewrite v_tasklist0 in Hp. rewrite v_mm0, v_other0; [by apply m_unborn0|set_solver..].
  - intros p m. rewrite v_mm0, v_users0. intros E. destruct (m_user0 _ _ E) as [F ?]. split; [|done].
    destruct (decide (p = next)) as [->|]; [by rewrite v_next0, E|].
    destruct (decide (p = prev)) as [->|]; [by rewrite v_prev0, E|]. by rewrite v_other0.
  - intros d Hd. rewrite v_curr0. case_decide as E; subst.
    + rewrite v_next0. destruct (mm (tasks s next)) eqn:E; [congruence|]. by apply m_current0.
    + rewrite v_other0; [by apply m_current0| |by apply Hnc]. intros F. by apply Hone in F.
  - intros p m. rewrite v_mm0. intros E F.
    destruct (decide (p = next)) as [->|]; [exists c; by rewrite v_curr0, decide_True|].
    destruct (decide (p = prev)) as [->|]; [by rewrite v_prev0, E in F|].
    rewrite v_other0 in F by done. destruct (m_idle0 _ _ E F) as (d & Hd & G). exists d. split; [done|].
    rewrite v_curr0, decide_False; [done|]. intros ->. by subst prev.
  - intros d m. destruct (decide (d = c)) as [->|Hdc]; [by eauto|]. destruct (v_rq0 d Hdc) as [-> ->]. apply m_prev0.
  - intros m. rewrite v_users0. apply m_users0.
  - intros m. rewrite v_count0, v_users0, v_tasklist0, m_count0.
    rewrite (sum_over_change2 prev next (λ p, lazy m (tasks s' p)) (λ p, lazy m (tasks s p))); try done.
    2:{ intros p _ H1 H2. unfold lazy. by rewrite v_mm0, v_other0. }
    unfold sum_cpus. rewrite (sum_over_change c (λ c, owed m (rqs s' c)) (λ c, owed m (rqs s c))); [|apply cpus_nodup|done|].
    2:{ intros d _ Hd. unfold owed, owes. by destruct (v_rq0 d Hd) as [-> ->]. }
    assert (owed m (rqs s c) = 0) as -> by (unfold owed, owes; by rewrite Hat, decide_False).
    assert (owed m (rqs s' c) = if decide (prev_mm (rqs s' c) = Some m) then 1 else 0) as ->
      by (unfold owed, owes; by rewrite v_at0).
    destruct (mm (tasks s next)) as [mn|] eqn:En, (mm (tasks s prev)) as [mp|] eqn:Ep;
      repeat match goal with
         | |- context [lazy m (tasks s ?p)] =>
             (rewrite (lazy_kernel m (tasks s p)) by done) || erewrite (lazy_user m (tasks s p)) by done
         | |- context [lazy m (tasks s' ?p)] =>
             (rewrite (lazy_kernel m (tasks s' p)) by (by rewrite v_mm0)) || erewrite (lazy_user m (tasks s' p)) by (by rewrite v_mm0)
         end; rewrite v_prev_mm0, ?v_next0, ?v_prev0, ?Hp0, ?Hn, ?En, ?Ep; repeat case_decide; try done; try lia.
Qed.
Lemma switch_memory_ok {MO : machine_ok} s c b next s' : inv s → memory_ok s → at_ (rqs s c) = Picking b →
  on_rq (tasks s next) = 1 → cpu (tasks s next) = c → switch_to_next c b next s = Ok s' → memory_ok s'.
Proof.
  intros I Mo Hat Hq Hcpu H. destruct (decide (curr (rqs s c) = next)) as [E|E].
  - unfold switch_to_next in H. rewrite (proj2 (Z.eqb_eq _ _) E) in H. unfold resume in H.
    case_decide; [done|]. injection H as <-. eapply memory_same; [|done]. unfold same_memory, set_at. same_fields.
  - by eapply switched_ok, switch_to_next_view.
Qed.

(** Dropping what the end of a switch owes. *)
Lemma drop_memory_ok {MO : machine_ok} s c prev v m s' : c ∈ cpus → memory_ok s → at_ (rqs s c) = Tail prev v m →
  drop_prev c prev v m s = Ok s' → memory_ok s'.
Proof.
  intros Hc Mo Hat H. unfold drop_prev in H. apply res_bind_ok_inv in H as (s1 & H1 & H).
  apply res_bind_ok_inv in H as (s2 & H2 & H).
  assert (memory_ok (set_at c Run s1)) as Mo1.
  { destruct m as [m|].
    - unfold mmdrop in H1. case_decide; [|done]. injection H1 as <-. destruct Mo. split; try done.
      + intros d. unfold set_at. look_memory. apply m_current0.
      + intros p x. unfold set_at. look_memory. intros E F. destruct (m_idle0 _ _ E F) as (d & ? & ?).
        exists d. by look_memory.
      + intros d x. unfold set_at. look_memory. case_decide as E; [subst|apply m_prev0].
        intros F. destruct (m_prev0 _ _ F). congruence.
      + intros x. unfold set_at. cbn [mm_count upd_rq with_rqs with_mm_count]. cbn [mm_users tasklist tasks].
        unfold sum_cpus. rewrite (sum_over_change c _ (λ c, owed x (rqs s c)) cpus); [|apply cpus_nodup|done|].
        2:{ intros d _ Hd. unfold owed, owes. look_memory. by destruct (decide (d = c)). }
        unfold owed at 2 3, owes. look_memory. rewrite (decide_True (P := c = c)) by done. rewrite Hat.
        change (tasks (upd_rq _ _ _)) with (tasks s). change (tasklist (upd_rq _ _ _)) with (tasklist s).
        change (mm_users (upd_rq _ _ _)) with (mm_users s).
        destruct (decide (Some m = Some x)) as [E|E].
        * injection E as ->. rewrite fn_lookup_insert, m_count0. unfold sum_cpus. rewrite decide_False by done. lia.
        * rewrite fn_lookup_insert_ne by congruence. rewrite m_count0, decide_False by done. unfold sum_cpus. lia.
    - injection H1 as <-. eapply memory_same; [|done]. unfold same_memory, set_at. same_fields. }
  assert (s' = set_at c Run s2) as -> by (unfold resume in H; case_decide; simplify_eq; done).
  unfold put_task_struct_rcu_user in H2. clear H. destruct (v =? TASK_DEAD); [|by injection H2 as <-].
  destruct (current_ref _); [|done]. injection H2 as <-.
  eapply memory_same; [|exact Mo1]. unfold same_memory, set_at. same_fields.
Qed.

Lemma fork_memory_ok s c p m : inv s → memory_ok s → p ∉ tasklist s → match m with Some m => 1 ≤ mm_users s m | None => True end →
  memory_ok (set_doing c (Some (NewPlace p))
    (upd_task p (λ _, sched_fork c m (tasks s (curr (rqs s c)))) (with_tasklist (p :: tasklist s) s))).
Proof.
  intros I [] Hp Hm. unfold set_doing.
  assert (∀ d, d ∈ cpus → curr (rqs s d) ≠ p) as Hnc.
  { intros d Hd E. destruct (p_curr _ (i_places _ I) d Hd) as (_ & _ & F & _). by rewrite E in F. }
  destruct (m_unborn0 _ Hp) as [U1 U2].
  split; cbn [tasklist mm_users mm_count upd_rq upd_task with_rqs with_tasks with_tasklist].
  - by constructor.
  - intros q [Hq Hq2]%not_elem_of_cons. look_memory. rewrite !decide_False by done. by apply m_unborn0.
  - intros q x. look_memory. case_decide; [|apply m_user0]. cbn. intros ->. done.
  - intros d Hd. look_memory. rewrite decide_False by (by apply Hnc). by apply m_current0.
  - intros q x. look_memory. case_decide; [cbn; congruence|]. intros E F. destruct (m_idle0 _ _ E F) as (d & ? & ?).
    exists d. by look_memory.
  - intros d x. look_memory. apply m_prev0.
  - done.
  - intros x. unfold sum_cpus in *. rewrite m_count0. simpl sum_over. unfold lazy at 2. look_memory. rewrite !fn_lookup_insert.
    rewrite (decide_False (P := _ ∧ _)) by (cbn; intros [-> ?]; done).
    match goal with |- _ = _ + (_ + sum_over ?f _) + sum_over ?g _ => rewrite (sum_over_ext f (λ p, lazy x (tasks s p)) (tasklist s)), (sum_over_ext g (λ c, owed x (rqs s c)) cpus); [lia| |] end.
    2:{ intros q Hq. rewrite fn_lookup_insert_ne; [done|]. by intros ->. }
    intros d _. unfold owed, owes. cbn [rqs with_rqs]. by destruct (decide (d = c)) as [->|];
      rewrite ?fn_lookup_insert, ?fn_lookup_insert_ne by done.
Qed.

Lemma change_memory_ok {MC : mm_code} {MCO : mm_code_ok} {MO : machine_ok} s c k s' : inv s → memory_ok s → c ∈ cpus →
  do_mm (ChangeMm c k) s = Some (Ok s') → memory_ok s'.
Proof.
  intros I Mo Hc H. simpl in H. case_match; [|done].
  destruct (change_mm k c s) as [[[[m a] users] count]|] eqn:E; [|done]. injection H as <-.
  destruct (change_mm_ok _ _ _ _ _ _ _ Hc Mo E) as (A1 & A2 & A3 & A4 & A5).
  destruct (p_curr _ (i_places _ I) c Hc) as (_ & Hcc & Hk & _). destruct Mo.
  set (p := curr (rqs s c)) in *.
  split; cbn [tasklist mm_users mm_count upd_rq upd_task with_rqs with_tasks with_tasklist with_mm_users with_mm_count].
  - done.
  - intros q Hq. look_memory. rewrite !decide_False by set_solver. by apply m_unborn0.
  - intros q x. look_memory. case_decide; [apply A2|]. intros F. split; [by apply m_user0|by eapply A4].
  - intros d Hd. look_memory. case_decide; [done|]. by apply m_current0.
  - intros q x. look_memory. case_decide; [intros _ _; exists c; by look_memory|]. intros E1 F.
    destruct (m_idle0 _ _ E1 F) as (d & ? & ?). exists d. by look_memory.
  - intros d x. look_memory. apply m_prev0.
  - done.
  - intros x. rewrite A5, m_count0. unfold sum_cpus. match goal with |- _ = _ + sum_over ?f _ + sum_over ?g _ =>
      rewrite (sum_over_change p f (λ p, lazy x (tasks s p)) (tasklist s)); [change g with (λ c, owed x (rqs s c))|done..|] end.
    2:{ intros q _ Hq. unfold lazy. look_memory. by rewrite !(decide_False (P := q = p)). }
    match goal with |- _ = _ + (_ + (lazy x ?t - _)) + _ =>
      assert (lazy x t = lazy x (with_active_mm a (with_mm m (tasks s p)))) as -> end; [|lia].
    unfold lazy. look_memory. by rewrite !(decide_True (P := p = p)).
Qed.

(** Every step keeps the counts. *)
Lemma do_memory_ok {MC : mm_code} {MCO : mm_code_ok} {MO : machine_ok} l s s' : inv s → memory_ok s → do l s = Some (Ok s') → memory_ok s'.
Proof.
  intros I Mo H. pose proof (do_same_memory l s s' H) as Hs.
  destruct l; try (by eapply memory_same).
  - apply (change_memory_ok s c k); try done. simpl in H. destruct (executes c s) eqn:G; [|done].
    by apply executes_spec in G as (? & _).
  - simpl in H. case_match eqn:G; [|done]. injection H as <-. rewrite !andb_true_iff in G. destruct G as ((G1 & G2) & G3).
    apply negb_true_iff, bool_decide_eq_false in G2.
    apply fork_memory_ok; try done. destruct m; [|done]. by apply bool_decide_eq_true in G3.
  - simpl in H. destruct (at_ (rqs s c)) eqn:Hat; try done. case_match eqn:G; [|done]. apply andb_true_iff in G as [G1%Z.eqb_eq G2%Z.eqb_eq].
    injection H as H. by eapply switch_memory_ok.
  - simpl in H. destruct (at_ (rqs s c)) eqn:Hat; try done. destruct (doing _); [done|]. injection H as H.
    eapply drop_memory_ok; [|done..]. apply (p_at _ (i_places _ I)). congruence.
Qed.

Lemma switch_memory_defined s c prev next : active_mm (tasks s prev) ≠ None → ∃ t, switch_memory c prev next s = Ok t.
Proof.
  unfold switch_memory. intros H. destruct (active_mm (tasks s prev)); [|done]. repeat case_match; eauto.
Qed.

Lemma drop_prev_defined {MO : machine_ok} s c prev v m : inv s → memory_ok s → c ∈ cpus → at_ (rqs s c) = Tail prev v m →
  is_ok (drop_prev c prev v m s) = true.
Proof.
  intros I Mo Hc Hat. unfold drop_prev.
  assert (running s (curr (rqs s c)) c) as R by (apply inv_running; [done..|by rewrite Hat]).
  assert (∃ t, match m with Some m => mmdrop m s | None => Ok s end = Ok t ∧ tasks t = tasks s ∧ rqs t = rqs s) as (t & Et & Et1 & Et2).
  { destruct m as [m|]; [|by eauto]. unfold mmdrop. rewrite decide_True; [by eauto|].
    rewrite (m_count _ Mo). pose proof (m_users _ Mo m).
    assert (1 ≤ sum_cpus (λ c, owed m (rqs s c))).
    { unfold sum_cpus. etrans; [|apply (sum_over_member c); [intros; apply owed_nonneg|done]].
      unfold owed, owes. by rewrite Hat, decide_True. }
    pose proof (sum_over_nonneg (λ p, lazy m (tasks s p)) (tasklist s) (λ p, lazy_nonneg _ _)). lia. }
  rewrite Et, res_bind_ok.
  assert (∃ t2, (if v =? TASK_DEAD then put_task_struct_rcu_user prev t else Ok t) = Ok t2 ∧ rqs t2 = rqs s ∧
    ∀ q, st (tasks t2 q) = st (tasks s q)) as (t2 & E2 & E3 & E4).
  { destruct (Z.eqb_spec v TASK_DEAD) as [->|]; [|exists t; by rewrite Et1].
    unfold put_task_struct_rcu_user. rewrite Et1.
    destruct (d_burying _ (i_deaths _ I) c prev) as (_ & _ & _ & ->); [by rewrite Hat|].
    eexists. split; [done|]. split; [done|]. intros q. look_task st. by rewrite Et1. }
  rewrite E2, res_bind_ok. unfold resume. case_decide as F; [|done].
  rewrite E3, E4 in F. destruct R. apply r_dead in F; [done|by rewrite Hat].
Qed.

(** No step is undefined: no BUG, no reference used after it was given back. *)
Lemma do_defined {MC : mm_code} {MO : machine_ok} l s r : inv s → memory_ok s → do l s = Some r → is_ok r = true.
Proof.
  intros I Mo H. assert (∀ c b next, at_ (rqs s c) = Picking b → on_rq (tasks s next) = 1 → cpu (tasks s next) = c →
    is_ok (switch_to_next c b next s) = true) as Hswitch.
  { clear H. intros c b next Hat Hq Hcpu. assert (c ∈ cpus) as Hc by (apply (p_at _ (i_places _ I)); congruence).
    unfold switch_to_next. destruct (Z.eqb_spec (curr (rqs s c)) next) as [E|E].
    - unfold resume. case_decide as F; [|done]. apply dead_current in F; [congruence|done|done|by rewrite Hat].
    - unfold context_switch, prepare_task. destruct (switch_memory_defined (upd_task next (with_on_cpu true) (upd_task (curr (rqs s c)) (λ t, if b
            then with_nvcsw (wrapu64 (nvcsw t + 1)) t else with_nivcsw (wrapu64 (nivcsw t + 1)) t)
         (upd_rq c (λ r, with_curr next (with_nr_switches (wrapu64 (nr_switches r + 1)) r)) s))) c (curr (rqs s c)) next) as [t Ht].
      + pose proof (m_current _ Mo c Hc). destruct b; by look_memory.
      + by rewrite Ht. }
  destruct l; simpl in H.
  all: try (unfold_steps; step_cases H; simplify_eq; done).
  - case_match; [|done]. destruct (change_mm k c s) as [[[[]]]|]; [|done]. by injection H as <-.
  - destruct (at_ (rqs s c)) eqn:Hat; try done. case_match eqn:G; [|done].
    apply andb_true_iff in G as [G1%Z.eqb_eq G2%Z.eqb_eq]. injection H as <-. by apply (Hswitch c voluntary).
  - destruct (at_ (rqs s c)) eqn:Hat; try done. destruct (doing _); [done|]. injection H as <-.
    apply drop_prev_defined; try done. apply (p_at _ (i_places _ I)). congruence.
  - destruct (doing (rqs s c)) as [a|] eqn:Hd; [|done].
    destruct (a_doing _ (i_activities _ I) _ _ Hd) as (_ & _ & Ha).
    destruct a; try (by apply fmap_Some in H as (? & _ & ->)). simpl in Ha. unfold move_queued_task_end in H.
    destruct (rq_locked _ _); [done|]. destruct Ha as (_ & _ & _ & E & _). rewrite E, Z.eqb_refl in H. by injection H as <-.
Qed.

(** At the start the idle tasks borrow the first memory. *)
Lemma memory_init {MO : machine_ok} m : memory_ok (sched_init m).
Proof.
  pose proof init_idle_task. assert (∀ c, c ∈ cpus → active_mm (tasks (sched_init m) (idle c)) = Some m ∧ mm (tasks (sched_init m) (idle c)) = None) as Hi.
  { intros c Hc. by rewrite init_idle_task. }
  split; try done.
  - apply NoDup_fmap_2_strong; [|apply cpus_nodup]. intros c d Hc Hd. by apply idle_inj.
  - intros p Hp. destruct (init_task m p) as [(c & Hc & -> & E)|[_ ->]]; [|done]. destruct Hp. by apply list_elem_of_fmap_2.
  - intros p x. destruct (init_task m p) as [(c & Hc & -> & ->)|[_ ->]]; done.
  - intros c Hc. change (curr (rqs (sched_init m) c)) with (idle c). by rewrite init_idle_task.
  - intros p x. destruct (init_task m p) as [(c & Hc & -> & ->)|[_ ->]]; [|done]. intros _ _. by exists c.
  - intros x. cbn. case_decide; lia.
  - intros x. change (mm_count (sched_init m) x) with (if decide (x = m) then 1 + Z.of_nat (length cpus) else 0).
    change (mm_users (sched_init m) x) with (if decide (x = m) then 1 else 0).
    change (tasklist (sched_init m)) with (idle <$> cpus).
    assert (sum_cpus (λ c, owed x (rqs (sched_init m) c)) = 0) as ->.
    { assert (∀ l, sum_over (λ c, owed x (rqs (sched_init m) c)) l = 0) as Hl; [|apply Hl].
      induction l as [|c l IH]; [done|]. cbn [sum_over foldr]. unfold sum_over in IH. by rewrite IH. }
    assert (sum_over (λ p, lazy x (tasks (sched_init m) p)) (idle <$> cpus) = if decide (x = m) then Z.of_nat (length cpus) else 0) as ->.
    { assert (∀ l, (∀ c, c ∈ l → c ∈ cpus) → sum_over (λ p, lazy x (tasks (sched_init m) p)) (idle <$> l) = if decide (x = m) then Z.of_nat (length l) else 0) as Hl; [|by apply Hl].
      induction l as [|c l IH]; intros Hl; [by case_decide|]. rewrite fmap_cons. cbn [sum_over foldr length].
      unfold sum_over in IH. rewrite IH by set_solver. rewrite (init_idle_task m c) by set_solver.
      unfold lazy. cbn [mm active_mm init_idle]. repeat case_decide; try lia; naive_solver. }
    case_decide; lia.
Qed.
End memory.
