(* ===== verification/SwitchCounts.v ===== *)
(** The statistics of Switch: the switches of the processors and of the tasks,
    the tasks that wait for I/O on a processor, and the sleeping tasks that
    contribute to the load. *)
From S2P Require Import Prelude Switch SwitchInv SwitchFacts SwitchSchedule SwitchWaking SwitchKeeps SwitchStart SwitchMemory.
Local Open Scope Z_scope.

(** A task that is neither runnable nor new. *)
Definition sleeping (t : task_struct) : bool :=
  (on_rq t =? 0) && negb (st t =? TASK_RUNNING) && negb (st t =? TASK_NEW).

(** A sleeping task that counts for the load. *)
Definition loads (t : task_struct) : Z := Z.b2z (sleeping t && contributes t).

Section counts.
Context `{M : machine}.

(** The waking of [p] has already taken it out of the I/O count of its processor. *)
Definition moved (s : state) (p : Z) : bool :=
  existsb (λ c, bool_decide (doing (rqs s c) = Some (WakeQueue p true))) cpus ||
  bool_decide (p ∈ pending s (cpu (tasks s p))) && remote_wakeup (tasks s p).

(** [p] waits for I/O on [c]. *)
Definition waits_io (s : state) (c p : Z) : Z :=
  Z.b2z (sleeping (tasks s p) && in_iowait (tasks s p) && (cpu (tasks s p) =? c) && negb (moved s p)).

Record counts_ok (s : state) : Prop := {
  k_iowait c : nr_iowait (rqs s c) = sum_over (waits_io s c) (tasklist s);
  k_load : ∃ k, sum_cpus (λ c, nr_uninterruptible (rqs s c)) =
    sum_over (λ p, loads (tasks s p)) (tasklist s) + k * 2 ^ 64;
  k_switches : ∃ k, sum_cpus (λ c, nr_switches (rqs s c)) =
    sum_over (λ p, nvcsw (tasks s p) + nivcsw (tasks s p)) (tasklist s) + k * 2 ^ 64;
}.

Lemma moved_spec s p : inv s → moved s p = true ↔
  (∃ c, doing (rqs s c) = Some (WakeQueue p true)) ∨ (p ∈ pending s (cpu (tasks s p)) ∧ remote_wakeup (tasks s p) = true).
Proof.
  intros I. unfold moved. rewrite orb_true_iff, andb_true_iff, bool_decide_eq_true, existsb_exists.
  split; (intros [(c & H)|H]; [left; exists c|by right]).
  - destruct H as [_ H]. by apply bool_decide_eq_true in H.
  - split; [|by apply bool_decide_eq_true]. apply list_elem_of_In. by apply (a_doing _ (i_activities _ I) _ _ H).
Qed.

(** The fields of [p] that the counts use do not change, or [p] sleeps neither before nor after. *)
Definition steady (s s' : state) (p : Z) : Prop :=
  (sleeping (tasks s p) = false ∧ sleeping (tasks s' p) = false) ∨
  (sleeping (tasks s' p) = sleeping (tasks s p) ∧ in_iowait (tasks s' p) = in_iowait (tasks s p) ∧
   cpu (tasks s' p) = cpu (tasks s p) ∧ contributes (tasks s' p) = contributes (tasks s p) ∧ moved s' p = moved s p).

Lemma steady_waits s s' p c : steady s s' p → waits_io s' c p = waits_io s c p.
Proof. unfold waits_io. by intros [[-> ->]|(-> & -> & -> & _ & ->)]. Qed.
Lemma steady_loads s s' p : steady s s' p → loads (tasks s' p) = loads (tasks s p).
Proof. unfold loads. by intros [[-> ->]|(-> & _ & _ & -> & _)]. Qed.
Definition same_switches (s s' : state) : Prop :=
  tasklist s' = tasklist s ∧ (∀ c, nr_switches (rqs s' c) = nr_switches (rqs s c)) ∧
  (∀ p, nvcsw (tasks s' p) = nvcsw (tasks s p)) ∧ (∀ p, nivcsw (tasks s' p) = nivcsw (tasks s p)).

(** One task changes, and the counts with it. *)
Lemma counts_one s s' p : NoDup (tasklist s) → p ∈ tasklist s → same_switches s s' → (∀ q, q ≠ p → steady s s' q) →
  (∀ c, nr_iowait (rqs s' c) = nr_iowait (rqs s c) + (waits_io s' c p - waits_io s c p)) →
  (∃ k, sum_cpus (λ c, nr_uninterruptible (rqs s' c)) =
     sum_cpus (λ c, nr_uninterruptible (rqs s c)) + (loads (tasks s' p) - loads (tasks s p)) + k * 2 ^ 64) →
  counts_ok s → counts_ok s'.
Proof.
  intros Hn Hp (E1 & E2 & E3 & E4) Hq Hi [k Hl] [K1 [k2 K2] [k3 K3]]. split.
  - intros c. rewrite E1, Hi, K1, (sum_over_change p (waits_io s' c) (waits_io s c)); [lia|done|done|].
    intros q _ Hqp. by apply steady_waits, Hq.
  - exists (k + k2). rewrite Hl, K2, E1.
    rewrite (sum_over_change p (λ p, loads (tasks s' p)) (λ p, loads (tasks s p))); [lia|done|done|].
    intros q _ Hqp. by apply steady_loads, Hq.
  - exists k3. rewrite E1. unfold sum_cpus. rewrite (sum_over_ext _ (λ c, nr_switches (rqs s c)) cpus) by (intros; apply E2).
    unfold sum_cpus in K3. rewrite K3. f_equal. apply sum_over_ext. intros. by rewrite E3, E4.
Qed.

(** None changes. *)
Lemma counts_same s s' : same_switches s s' → (∀ q, steady s s' q) →
  (∀ c, nr_iowait (rqs s' c) = nr_iowait (rqs s c)) → (∀ c, nr_uninterruptible (rqs s' c) = nr_uninterruptible (rqs s c)) →
  counts_ok s → counts_ok s'.
Proof.
  intros (E1 & E2 & E3 & E4) Hq Hi Hl [K1 [k2 K2] [k3 K3]]. unfold sum_cpus in *. split.
  - intros c. rewrite E1, Hi, K1. apply sum_over_ext. intros q _. by rewrite (steady_waits s s').
  - exists k2. unfold sum_cpus. rewrite (sum_over_ext _ (λ c, nr_uninterruptible (rqs s c)) cpus) by (intros; apply Hl).
    rewrite E1, K2. f_equal. apply sum_over_ext. intros q _. by rewrite (steady_loads s s').
  - exists k3. unfold sum_cpus. rewrite E1, (sum_over_ext _ (λ c, nr_switches (rqs s c)) cpus) by (intros; apply E2).
    rewrite K3. f_equal. apply sum_over_ext. intros. by rewrite E3, E4.
Qed.

(** The steps of a current task and most of those of [__schedule] leave the counts alone. *)
Definition same_counts (s s' : state) : Prop :=
  tasklist s' = tasklist s ∧ (∀ c, nr_switches (rqs s' c) = nr_switches (rqs s c)) ∧
  (∀ p, nvcsw (tasks s' p) = nvcsw (tasks s p)) ∧ (∀ p, nivcsw (tasks s' p) = nivcsw (tasks s p)) ∧
  (∀ c, nr_iowait (rqs s' c) = nr_iowait (rqs s c)) ∧ (∀ c, nr_uninterruptible (rqs s' c) = nr_uninterruptible (rqs s c)) ∧
  (∀ c, wake_list (rqs s' c) = wake_list (rqs s c)) ∧ (∀ c, doing (rqs s' c) = doing (rqs s c)) ∧
  (∀ p, on_rq (tasks s' p) = on_rq (tasks s p)) ∧ (∀ p, cpu (tasks s' p) = cpu (tasks s p)) ∧
  (∀ p, remote_wakeup (tasks s' p) = remote_wakeup (tasks s p)) ∧ (∀ p, contributes (tasks s' p) = contributes (tasks s p)) ∧
  (∀ p, st (tasks s' p) = st (tasks s p) ∧ in_iowait (tasks s' p) = in_iowait (tasks s p) ∨
    ∃ c, c ∈ cpus ∧ p = curr (rqs s c) ∧ picking (at_ (rqs s c)) = false).

Lemma moved_same s s' p : (∀ c, wake_list (rqs s' c) = wake_list (rqs s c)) → (∀ c, doing (rqs s' c) = doing (rqs s c)) →
  cpu (tasks s' p) = cpu (tasks s p) → remote_wakeup (tasks s' p) = remote_wakeup (tasks s p) → moved s' p = moved s p.
Proof.
  intros E1 E2 E3 E4. unfold moved, pending. rewrite E1, !E2, E3, E4. f_equal. induction cpus as [|c l IH]; simpl; [done|].
  by rewrite IH, E2.
Qed.

Lemma counts_kept {MO : machine_ok} s s' : inv s → same_counts s s' → counts_ok s → counts_ok s'.
Proof.
  intros I (E1 & E2 & E3 & E4 & E5 & E6 & E7 & E8 & E9 & E10 & E11 & E12 & E13). apply counts_same; try done.
  intros q. destruct (E13 q) as [[F1 F2]|(c & Hc & -> & Hat)].
  - right. unfold sleeping. rewrite E9, F1. split_and!; try done. by apply moved_same.
  - left. destruct (inv_running s c I Hc Hat). unfold sleeping. by rewrite E9, r_on_rq.
Qed.

Ltac look_counts :=
  repeat progress (look_frame; look_task st; look_task in_iowait; look_task on_rq; look_task cpu; look_task remote_wakeup;
    look_task contributes; look_task nvcsw; look_task nivcsw; look_rq nr_switches; look_rq nr_iowait;
    look_rq nr_uninterruptible; look_rq wake_list; look_rq doing; look_rq curr; look_rq at_);
  cbn [st in_iowait on_rq cpu remote_wakeup contributes nvcsw nivcsw nr_switches nr_iowait nr_uninterruptible wake_list doing
       curr at_ with_st with_in_iowait with_on_rq with_cpu with_remote_wakeup with_contributes with_nvcsw with_nivcsw
       with_nr_switches with_nr_iowait with_nr_uninterruptible with_wake_list with_doing with_curr with_at_] in *.

Lemma do_same_counts {MC : mm_code} l s s' : inv s → do l s = Some (Ok s') →
  match l with
  | SetState _ _ | SetIowait _ _ | SetFrozen _ _ | ClearCondition _ | LoopEnter _ | LoopTest _ | DoTaskDead _ | ChangeMm _ _ | Schedule _
  | Preempt _ | LoadState _ | Balance _ | Balanced _ | SavePrev _ | FinishTask _ | FinishLockSwitch _ | DropPrev _ =>
      same_counts s s'
  | _ => True
  end.
Proof.
  intros I H. destruct l; try done; simpl in H; unfold drop_prev, mmdrop, put_task_struct_rcu_user, resume, same_counts in *; unfold_steps.
  all: step_cases H;
    try (apply bind_Some in H as ([[[??]?]?] & _ & H)); simplify_eq; bind_inv; simplify_eq; repeat (case_match; simplify_eq).
  all: repeat match goal with
       | G : (_ && _) = true |- _ => apply andb_true_iff in G as [? ?]
       | G : bool_decide _ = true |- _ => apply bool_decide_eq_true in G
       end.
  all: split_and!; try intros ?; look_counts; repeat case_decide; subst; try done; auto.
  all: try (right; eexists; split_and!; [eassumption|done|]; match goal with G : at_ _ = _ |- _ => by rewrite G end).
Qed.

(** * Steps that change a count *)

Lemma wrapu64_eq x : wrapu64 x = x - x / 2 ^ 64 * 2 ^ 64.
Proof. unfold wrapu64. pose proof (Z.div_mod x (2 ^ 64) ltac:(done)). lia. Qed.

Lemma sum_uninterruptible {MO : machine_ok} c n s : c ∈ cpus → ∃ k,
  sum_cpus (λ d, nr_uninterruptible (rqs (add_uninterruptible c n s) d)) = sum_cpus (λ d, nr_uninterruptible (rqs s d)) + n + k * 2 ^ 64.
Proof.
  intros Hc. exists (- ((nr_uninterruptible (rqs s c) + n) / 2 ^ 64)). unfold sum_cpus.
  rewrite (sum_over_change c _ (λ d, nr_uninterruptible (rqs s d)) cpus); [|apply cpus_nodup|done|].
  - unfold add_uninterruptible. look_rq nr_uninterruptible. rewrite decide_True by done. cbn [nr_uninterruptible with_nr_uninterruptible].
    rewrite wrapu64_eq. lia.
  - intros d _ Hd. unfold add_uninterruptible. look_rq nr_uninterruptible. by rewrite decide_False.
Qed.

(** A step of processor [c] that does not wake [q]. *)
Lemma steady_sleeping s s' c q : inv s → inv s' → sleeping (tasks s' q) = sleeping (tasks s q) →
  in_iowait (tasks s' q) = in_iowait (tasks s q) → cpu (tasks s' q) = cpu (tasks s q) →
  remote_wakeup (tasks s' q) = remote_wakeup (tasks s q) → contributes (tasks s' q) = contributes (tasks s q) →
  (∀ d, d ≠ c → doing (rqs s' d) = doing (rqs s d)) →
  doing (rqs s c) ≠ Some (WakeQueue q true) → doing (rqs s' c) ≠ Some (WakeQueue q true) →
  (∀ d, q ∈ pending s' d ↔ q ∈ pending s d) → steady s s' q.
Proof.
  intros I I' E1 E3 E4 E5 E6 E7 D1 D2 P. right. split_and!; try done.
  apply eq_true_iff_eq. rewrite !moved_spec by done. rewrite E4, E5, P. f_equiv. split; intros [d H]; exists d.
  - destruct (decide (d = c)) as [->|]; [done|]. by rewrite <- E7.
  - destruct (decide (d = c)) as [->|]; [done|]. by rewrite E7.
Qed.
Lemma others_steady s s' c q : inv s → inv s' →
  st (tasks s' q) = st (tasks s q) → on_rq (tasks s' q) = on_rq (tasks s q) → in_iowait (tasks s' q) = in_iowait (tasks s q) →
  cpu (tasks s' q) = cpu (tasks s q) → remote_wakeup (tasks s' q) = remote_wakeup (tasks s q) →
  contributes (tasks s' q) = contributes (tasks s q) → (∀ d, d ≠ c → doing (rqs s' d) = doing (rqs s d)) →
  doing (rqs s c) ≠ Some (WakeQueue q true) → doing (rqs s' c) ≠ Some (WakeQueue q true) →
  (∀ d, q ∈ pending s' d ↔ q ∈ pending s d) → steady s s' q.
Proof. intros I I' E1 E2. intros. apply (steady_sleeping s s' c); try done. unfold sleeping. by rewrite E1, E2. Qed.

(** A task whose wake-up is pending on its processor. *)
Lemma pending_moved s p : inv s → p ∈ pending s (cpu (tasks s p)) → moved s p = remote_wakeup (tasks s p).
Proof.
  intros I Hp. apply eq_true_iff_eq. rewrite moved_spec by done. split; [|auto]. intros [[d H]|]; [|tauto].
  destruct (a_late _ (i_activities _ I) _ _ d Hp). by rewrite H.
Qed.
(** A task in the last steps of [try_to_wake_up]. *)
Lemma late_moved s p c : inv s → doing (rqs s c) ≫= late = Some p →
  moved s p = bool_decide (doing (rqs s c) = Some (WakeQueue p true)).
Proof.
  intros I Hd. apply eq_true_iff_eq. rewrite moved_spec, bool_decide_eq_true by done. split; [|eauto]. intros [[d H]|[H _]].
  - assert (d = c) as ->; [|done]. pose proof (a_holds _ (i_activities _ I) p c (late_holds _ _ Hd)).
    pose proof (a_holds _ (i_activities _ I) p d) as F. rewrite H in F. specialize (F eq_refl). congruence.
  - by destruct (a_late _ (i_activities _ I) _ _ c H).
Qed.

(** A task that no waking has moved. *)
Lemma running_not_moved s p : inv s → on_rq (tasks s p) ≠ 0 → moved s p = false.
Proof.
  intros I Hq. destruct (moved s p) eqn:E; [|done]. apply moved_spec in E as [[d H]|[H _]]; [| |done].
  - apply (a_doing _ (i_activities _ I)) in H as (_ & _ & H). simpl in H. tauto.
  - apply (a_pending _ (i_activities _ I)) in H. tauto.
Qed.
Lemma asleep s p : inv s → on_rq (tasks s p) = 0 → st (tasks s p) ≠ TASK_RUNNING → st (tasks s p) ≠ TASK_NEW →
  sleeping (tasks s p) = true.
Proof. intros I H1 H2 H3. unfold sleeping. rewrite H1. by rewrite (proj2 (Z.eqb_neq _ _) H2), (proj2 (Z.eqb_neq _ _) H3). Qed.

(** The current task goes to sleep. *)
Lemma deactivate_counts {MO : machine_ok} s c b v signal : inv s → NoDup (tasklist s) → at_ (rqs s c) = Loaded b v →
  inv (deactivate_prev c b v signal s) → counts_ok s → counts_ok (deactivate_prev c b v signal s).
Proof.
  intros I Hn Hat I' K. assert (c ∈ cpus) as Hc by (apply (p_at _ (i_places _ I)); congruence).
  assert (running s (curr (rqs s c)) c) as [] by (apply inv_running; [done..|by rewrite Hat]).
  pose proof (p_loaded _ (i_places _ I) _ _ _ Hat) as Hv.
  assert (doing (rqs s c) = None) as Hd by (apply not_doing; [done|by rewrite Hat..]).
  unfold deactivate_prev in *. destruct (b || (v =? 0)) eqn:Hb.
  { apply (counts_kept s); [done| |done]. unfold same_counts. split_and!; try intros ?; unfold set_at; look_counts; auto. }
  apply orb_false_iff in Hb as [-> Hv0%Z.eqb_neq]. destruct signal.
  { apply (counts_kept s); [done| |done]. unfold same_counts. split_and!; try intros ?; unfold set_at; look_counts; auto.
    case_decide; subst; auto. right. exists c. by rewrite Hat. }
  set (p := curr (rqs s c)) in *. set (load := _ && negb (frozen _)) in *.
  pose proof (running_not_moved s p I ltac:(by rewrite r_on_rq)) as Hm.
  match type of I' with context [in_iowait (tasks ?t p)] =>
    assert (in_iowait (tasks t p) = in_iowait (tasks s p)) as Ei by (unfold deactivate_task, add_uninterruptible; destruct load; by look_counts)
  end.
  rewrite Ei in *. set (s' := set_at _ _ _) in *.
  assert (same_switches s s' ∧ (∀ d, wake_list (rqs s' d) = wake_list (rqs s d)) ∧ (∀ d, doing (rqs s' d) = doing (rqs s d)) ∧
    (∀ q, st (tasks s' q) = st (tasks s q)) ∧ (∀ q, cpu (tasks s' q) = cpu (tasks s q)) ∧
    (∀ q, in_iowait (tasks s' q) = in_iowait (tasks s q)) ∧ (∀ q, remote_wakeup (tasks s' q) = remote_wakeup (tasks s q)) ∧
    (∀ q, q ≠ p → on_rq (tasks s' q) = on_rq (tasks s q)) ∧ (∀ q, q ≠ p → contributes (tasks s' q) = contributes (tasks s q)) ∧
    on_rq (tasks s' p) = 0 ∧ contributes (tasks s' p) = load ∧
    (∀ d, nr_iowait (rqs s' d) = nr_iowait (rqs s d) + Z.b2z (in_iowait (tasks s p) && (c =? d))) ∧
    (∀ d, nr_uninterruptible (rqs s' d) = if load then nr_uninterruptible (rqs (add_uninterruptible c 1 s) d) else nr_uninterruptible (rqs s d)))
    as (V1 & V2 & V3 & V4 & V5 & V6 & V7 & V8 & V9 & V10 & V11 & V12 & V13).
  { subst s'. unfold same_switches, set_at, deactivate_task, add_uninterruptible, add_iowait. clear -Ei. clear Ei.
    destruct load, (in_iowait (tasks s p)) eqn:E; split_and!; try intros ?; look_counts; repeat case_decide; subst; try done; try congruence; cbn;
      rewrite ?Z.eqb_refl, ?(λ d H, proj2 (Z.eqb_neq c d) (not_eq_sym H)) by eassumption; cbn; lia. }
  assert (moved s' p = false) as Hm' by (rewrite <- Hm; by apply moved_same).
  assert (sleeping (tasks s' p) = true) as Hs by (apply (asleep s' p I' V10); rewrite V4; [by rewrite Hv|done]).
  apply (counts_one s s' p); try done.
  - intros q Hq. apply (others_steady s s' c q); try done; auto; try (by rewrite Hd); try (by rewrite V3, Hd).
    intros d. unfold pending. by rewrite V2, V3.
  - intros d. rewrite V12. unfold waits_io. rewrite Hs, Hm', V5, V6, r_cpu. unfold sleeping. rewrite r_on_rq. cbn.
    rewrite andb_true_r. lia.
  - unfold loads, sum_cpus in *. rewrite Hs, V11. unfold sleeping. rewrite r_on_rq. cbn.
    rewrite (sum_over_ext _ _ cpus (λ d _, V13 d)). destruct load.
    + destruct (sum_uninterruptible c 1 s Hc) as [k Hk]. unfold sum_cpus in Hk. exists k. rewrite Hk. cbn. lia.
    + exists 0. cbn. lia.
Qed.

(** Two states that differ in locks and activities only. *)
Definition same_fields (s s' : state) : Prop :=
  same_switches s s' ∧ (∀ c, nr_iowait (rqs s' c) = nr_iowait (rqs s c)) ∧
  (∀ c, nr_uninterruptible (rqs s' c) = nr_uninterruptible (rqs s c)) ∧
  (∀ q, st (tasks s' q) = st (tasks s q)) ∧ (∀ q, cpu (tasks s' q) = cpu (tasks s q)) ∧
  (∀ q, in_iowait (tasks s' q) = in_iowait (tasks s q)) ∧ (∀ q, remote_wakeup (tasks s' q) = remote_wakeup (tasks s q)) ∧
  (∀ q, on_rq (tasks s' q) = on_rq (tasks s q)) ∧ (∀ q, contributes (tasks s' q) = contributes (tasks s q)).

Lemma ttwu_do_activate_rqs cc p m s d : doing (rqs (ttwu_do_activate cc p m s) d) = doing (rqs s d) ∧
  wake_list (rqs (ttwu_do_activate cc p m s) d) = wake_list (rqs s d).
Proof.
  unfold ttwu_do_activate, ttwu_do_wakeup, activate_task, add_uninterruptible, add_iowait.
  destruct (contributes _), (negb m && _); by look_counts.
Qed.

Lemma ttwu_do_activate_view cc p m s s' : same_fields (ttwu_do_activate cc p m s) s' →
  same_switches s s' ∧
  (∀ q, q ≠ p → st (tasks s' q) = st (tasks s q) ∧ on_rq (tasks s' q) = on_rq (tasks s q) ∧
    in_iowait (tasks s' q) = in_iowait (tasks s q) ∧ cpu (tasks s' q) = cpu (tasks s q) ∧
    remote_wakeup (tasks s' q) = remote_wakeup (tasks s q) ∧ contributes (tasks s' q) = contributes (tasks s q)) ∧
  on_rq (tasks s' p) = 1 ∧
  (∀ d, nr_iowait (rqs s' d) = nr_iowait (rqs s d) - Z.b2z (negb m && in_iowait (tasks s p) && (cpu (tasks s p) =? d))) ∧
  (∀ d, nr_uninterruptible (rqs s' d) =
     nr_uninterruptible (rqs (if contributes (tasks s p) then add_uninterruptible cc (-1) s else s) d)).
Proof.
  intros ((E1 & E2 & E3 & E4) & E5 & E6 & E7 & E8 & E9 & E10 & E11 & E12).
  unfold same_switches. setoid_rewrite E1. setoid_rewrite E2. setoid_rewrite E3. setoid_rewrite E4. setoid_rewrite E5.
  setoid_rewrite E6. setoid_rewrite E7. setoid_rewrite E8. setoid_rewrite E9. setoid_rewrite E10. setoid_rewrite E11.
  setoid_rewrite E12. clear. unfold ttwu_do_activate.
  set (s1 := if contributes _ then _ else s).
  assert (in_iowait (tasks s1 p) = in_iowait (tasks s p)) as -> by (subst s1; unfold add_uninterruptible; destruct (contributes _); by look_counts).
  assert (cpu (tasks s1 p) = cpu (tasks s p)) as -> by (subst s1; unfold add_uninterruptible; destruct (contributes _); by look_counts).
  subst s1. unfold ttwu_do_wakeup, activate_task, add_uninterruptible, add_iowait.
  destruct (contributes (tasks s p)), m, (in_iowait (tasks s p)) eqn:E; cbn [negb andb]; split_and!; try intros ?; try intros ?; split_and?; look_counts;
    repeat case_decide; subst; try done; try congruence; cbn.
  all: rewrite ?Z.eqb_refl, ?(λ d H, proj2 (Z.eqb_neq (cpu (tasks s p)) d) (not_eq_sym H)) by eassumption; cbn; lia.
Qed.

(** A sleeping task becomes runnable: the effect of [ttwu_do_activate] and the end of the activity. *)
Lemma activate_counts {MO : machine_ok} s s' c cc p m : inv s → inv s' → NoDup (tasklist s) → p ∈ tasklist s → cc ∈ cpus →
  sleeping (tasks s p) = true → moved s p = m → same_fields (ttwu_do_activate cc p m s) s' →
  (∀ q, q ≠ p → doing (rqs s c) ≠ Some (WakeQueue q true)) → (∀ q, doing (rqs s' c) ≠ Some (WakeQueue q true)) →
  (∀ d, d ≠ c → doing (rqs s' d) = doing (rqs s d)) →
  (∀ q d, q ≠ p → q ∈ pending s' d ↔ q ∈ pending s d) → counts_ok s → counts_ok s'.
Proof.
  intros I I' Hn Hp Hcc Hs Hm V D1 D2 D3 P K. apply ttwu_do_activate_view in V as (V1 & V2 & V3 & V4 & V5).
  apply (counts_one s s' p); try done.
  - intros q Hq. destruct (V2 q Hq) as (? & ? & ? & ? & ? & ?). apply (others_steady s s' c q); auto.
  - intros d. rewrite V4. unfold waits_io. rewrite Hs, Hm. unfold sleeping. rewrite V3. cbn.
    destruct m, (in_iowait _), (cpu _ =? d); cbn; lia.
  - unfold loads, sum_cpus in *. rewrite Hs. unfold sleeping. rewrite V3. cbn.
    rewrite (sum_over_ext _ _ cpus (λ d _, V5 d)). destruct (contributes _).
    + destruct (sum_uninterruptible cc (-1) s Hcc) as [k Hk]. unfold sum_cpus in Hk. exists k. rewrite Hk. cbn. lia.
    + exists 0. cbn. lia.
Qed.

(** A step of [c] that changes no count of [p] and nothing of the others. *)
Lemma activity_counts s s' c p : inv s → inv s' → same_switches s s' → steady s s' p →
  (∀ d, nr_iowait (rqs s' d) = nr_iowait (rqs s d)) → (∀ d, nr_uninterruptible (rqs s' d) = nr_uninterruptible (rqs s d)) →
  (∀ q, q ≠ p → st (tasks s' q) = st (tasks s q) ∧ on_rq (tasks s' q) = on_rq (tasks s q) ∧
    in_iowait (tasks s' q) = in_iowait (tasks s q) ∧ cpu (tasks s' q) = cpu (tasks s q) ∧
    remote_wakeup (tasks s' q) = remote_wakeup (tasks s q) ∧ contributes (tasks s' q) = contributes (tasks s q)) →
  (∀ d, d ≠ c → doing (rqs s' d) = doing (rqs s d)) →
  (∀ q, q ≠ p → doing (rqs s c) ≠ Some (WakeQueue q true)) → (∀ q, q ≠ p → doing (rqs s' c) ≠ Some (WakeQueue q true)) →
  (∀ q d, q ≠ p → q ∈ pending s' d ↔ q ∈ pending s d) → counts_ok s → counts_ok s'.
Proof.
  intros I I' V1 Hp Hi Hl V2 D1 D2 D3 P. apply counts_same; try done. intros q. destruct (decide (q = p)) as [->|Hq]; [done|].
  destruct (V2 q Hq) as (? & ? & ? & ? & ? & ?). apply (others_steady s s' c q); auto.
Qed.

(** The conditions of these lemmas on the other tasks and processors. *)
Ltac others Hd :=
  repeat split; intros *; try intros ?; try intros ?; try (rewrite Hd; congruence);
  unfold_steps; look_counts; rewrite ?Hd; repeat case_decide; subst; try done; try congruence; try tauto.

Lemma interrupts_running {MO : machine_ok} s c : inv s → c ∈ cpus → interrupts_on (at_ (rqs s c)) = true → running s (curr (rqs s c)) c.
Proof. intros I Hc Hi. apply inv_running; [done..|]. by destruct (at_ _). Qed.

(** A wake-up that is queued for another processor. *)
Lemma push_pending s c p a m q d : doing (rqs s c) = Some a → in_hand (Some a) = [] →
  q ∈ pending (unlock_pi c p (__ttwu_queue_wakelist p (cpu (tasks s p)) m s)) d ↔
  q ∈ pending s d ∨ q = p ∧ d = cpu (tasks s p).
Proof.
  intros Hd Ha. unfold unlock_pi, __ttwu_queue_wakelist, set_doing, pending. look_counts.
  destruct a; try discriminate Ha; repeat case_decide; subst; rewrite ?Hd; cbn [in_hand]; set_solver.
Qed.

Lemma push_counts {MO : machine_ok} s c p a m : inv s → NoDup (tasklist s) → doing (rqs s c) = Some a →
  a = WakeOnCpu p ∧ m = false ∨ a = WakeQueue p m → sleeping (tasks s p) = true →
  let s' := unlock_pi c p (__ttwu_queue_wakelist p (cpu (tasks s p)) m s) in inv s' → counts_ok s → counts_ok s'.
Proof.
  intros I Hn Hd Ha Hs s' I' K. assert (in_hand (Some a) = []) as Hh by (by destruct Ha as [[-> _]| ->]).
  pose proof (λ q d, push_pending s c p a m q d Hd Hh) as P. fold s' in P.
  assert (cpu (tasks s' p) = cpu (tasks s p)) as Ec by (subst s'; unfold unlock_pi, __ttwu_queue_wakelist; by others Hd).
  apply (activity_counts s _ c p); try done; try (subst s'; by others Hd).
  - right. split_and!; try done; try (subst s'; unfold sleeping; by others Hd).
    rewrite (pending_moved s'), (late_moved s p c); try done.
    + subst s'. unfold unlock_pi, __ttwu_queue_wakelist, set_doing. look_counts. rewrite decide_True by done. rewrite Hd.
      destruct Ha as [[-> ->]| ->]; [by rewrite bool_decide_eq_false_2|]. destruct m; [by rewrite bool_decide_eq_true_2|].
      rewrite bool_decide_eq_false_2; [done|congruence].
    + rewrite Hd. by destruct Ha as [[-> _]| ->].
    + rewrite Ec, P. auto.
  - intros q Hq E. rewrite Hd in E. destruct Ha as [[-> _]| ->]; congruence.
  - intros q d Hq. rewrite P. tauto.
Qed.

(** The processor of a waking task changes. *)
Lemma move_counts {MO : machine_ok} s c p dest : inv s → NoDup (tasklist s) → p ∈ tasklist s →
  doing (rqs s c) = Some (WakeSpin p) → sleeping (tasks s p) = true →
  let s' := set_doing c (Some (WakeQueue p true)) (upd_task p (with_cpu dest)
              (if in_iowait (tasks s p) then add_iowait (cpu (tasks s p)) (-1) s else s)) in
  inv s' → counts_ok s → counts_ok s'.
Proof.
  intros I Hn Hk Hd Hs s' I' K.
  assert (moved s p = false) as Hm by (rewrite (late_moved s p c), Hd by (try done; by rewrite Hd); done).
  assert (sleeping (tasks s' p) = true ∧ contributes (tasks s' p) = contributes (tasks s p) ∧ doing (rqs s' c) = Some (WakeQueue p true)) as (Hs' & Hl & Hd').
  { subst s'. unfold sleeping, set_doing, add_iowait in *. destruct (in_iowait _); look_counts; by rewrite decide_True. }
  assert (moved s' p = true) as Hm'.
  { rewrite (late_moved s' p c), Hd' by (try done; by rewrite Hd'). by apply bool_decide_eq_true. }
  apply (counts_one s s' p); try done; try (subst s'; destruct (in_iowait (tasks s p)); by others Hd).
  - intros q Hq. apply (others_steady s s' c q); try done; try (subst s'; destruct (in_iowait (tasks s p)); by others Hd).
  - intros d. unfold waits_io. rewrite Hs, Hm, Hs', Hm'. rewrite (andb_false_r (_ && _)), andb_true_r. cbn [Z.b2z andb].
    subst s'. unfold set_doing, add_iowait. destruct (in_iowait (tasks s p)); look_counts; cbn [Z.b2z andb]; [|lia].
    destruct (Z.eqb_spec (cpu (tasks s p)) d) as [<-|E]; [rewrite decide_True by done|rewrite decide_False by congruence]; cbn; lia.
  - exists 0. unfold loads. rewrite Hs, Hs', Hl. unfold sum_cpus.
    rewrite (sum_over_ext _ (λ d, nr_uninterruptible (rqs s d)) cpus); [lia|]. intros d _. subst s'. destruct (in_iowait (tasks s p)); by others Hd.
Qed.
Lemma wake_step_counts {MO : machine_ok} s s' c dest a : inv s → inv s' → NoDup (tasklist s) → doing (rqs s c) = Some a →
  try_to_wake_up c dest a s = Some s' → counts_ok s → counts_ok s'.
Proof.
  intros I I' Hn Hd H K. pose proof (a_doing _ (i_activities _ I) _ _ Hd) as (Hc & Hcomp & Ha).
  destruct a; simpl in H, Ha; try discriminate H.
  - destruct (Z.eqb_spec p (curr (rqs s c))) as [->|Hp].
    + assert (interrupts_on (at_ (rqs s c)) = true) as Hi.
      { unfold compatible in Hcomp. apply orb_true_iff in Hcomp as [|F]; [done|]. by destruct (at_ _). }
      destruct (interrupts_running s c I Hc Hi).
      destruct (matches _ _); injection H as <-; apply (activity_counts s _ c (curr (rqs s c))); try done; try (by others Hd).
      all: left; unfold sleeping, set_doing; look_counts; by rewrite r_on_rq.
    + destruct (pi_free p s) eqn:Hpi; [|discriminate H].
      destruct (matches _ _); injection H as <-; apply (activity_counts s _ c p); try done; try (by others Hd).
      all: apply (others_steady s _ c p); try done; by others Hd.
  - injection H as <-. destruct (on_rq (tasks s p) =? 0); apply (activity_counts s _ c p); try done; try (by others Hd).
    all: apply (others_steady s _ c p); try done; by others Hd.
  - unfold ttwu_runnable in H. destruct (rq_locked _ _ || _) eqn:E; [discriminate H|]. destruct (task_on_rq_queued _) eqn:Hq; injection H as <-;
      apply (activity_counts s _ c p); try done; try (by others Hd).
    + left. unfold sleeping, unlock_pi, ttwu_do_wakeup, set_doing. look_counts. apply Z.eqb_eq in Hq. rewrite Hq. done.
    + apply (others_steady s _ c p); try done; by others Hd.
  - injection H as <-. destruct Ha as (Hk & Hne & (A1 & A2 & A3) & Hq).
    assert (st (tasks s p) ≠ TASK_RUNNING) as A4.
    { intros E. destruct (a_off _ (i_activities _ I) _ Hq E) as [d Hd2]. pose proof (a_holds _ (i_activities _ I) p d) as F1.
      pose proof (a_holds _ (i_activities _ I) p c) as F2. rewrite Hd in F2. rewrite Hd2 in F1.
      specialize (F1 eq_refl). specialize (F2 eq_refl). congruence. }
    apply (activity_counts s _ c p); try done; try (by others Hd).
    apply (steady_sleeping s _ c p); try done; try (by others Hd). rewrite (asleep s p), (asleep _ p); try done; unfold set_doing; look_counts; by rewrite ?decide_True.
  - injection H as <-. destruct (on_cpu (tasks s p)); apply (activity_counts s _ c p); try done; try (by others Hd).
    all: apply (others_steady s _ c p); try done; by others Hd.
  - unfold ttwu_queue_wakelist in H. destruct (_ && _).
    + destruct (Z.eqb_spec (cpu (tasks s p)) c) as [E|E]; [by destruct Ha as (_ & _ & _ & _ & [])|]. injection H as <-.
      destruct Ha as (? & ? & E1 & ? & ?). eapply push_counts; try done; [by left|]. apply asleep; rewrite ?E1; done.
    + injection H as <-. apply (activity_counts s _ c p); try done; try (by others Hd).
      apply (others_steady s _ c p); try done; by others Hd.
  - destruct (on_cpu _) eqn:E; [discriminate H|]. case_decide; [|discriminate H]. destruct Ha as (Hk & ? & E1 & E2).
    assert (sleeping (tasks s p) = true) as Hs by (apply asleep; rewrite ?E1; done).
    destruct (Z.eqb_spec (cpu (tasks s p)) dest); [|rewrite set_task_cpu_quiet in H by (done || (left; by destruct (in_iowait _)))]; injection H as <-.
    + apply (activity_counts s _ c p); try done; try (by others Hd). apply (others_steady s _ c p); try done; by others Hd.
    + by apply move_counts.
  - destruct Ha as (Hk & E1 & E2 & E3). unfold ttwu_queue, ttwu_queue_wakelist in H.
    assert (sleeping (tasks s p) = true) as Hs by (apply asleep; rewrite ?E1; done).
    destruct (_ && _) eqn:Hq.
    + destruct (Z.eqb_spec (cpu (tasks s p)) c) as [E|E].
      * apply andb_true_iff in Hq as [_ Hq]. rewrite E in Hq. by rewrite own_queue_cond in Hq.
      * injection H as <-. eapply push_counts; try done. by right.
    + destruct (rq_locked _ _); [discriminate H|]. injection H as <-.
      apply (activate_counts s _ c (cpu (tasks s p)) p migrated); try done.
      * by apply (p_cpu _ (i_places _ I)).
      * rewrite (late_moved s p c), Hd by (try done; by rewrite Hd). destruct migrated; [by rewrite bool_decide_eq_true_2|].
        by rewrite bool_decide_eq_false_2.
      * unfold same_fields. by others Hd.
      * intros q Hqp. rewrite Hd. congruence.
      * intros q. unfold unlock_pi, set_doing. look_counts. by rewrite decide_True.
      * intros d Hdc. unfold unlock_pi, set_doing. look_counts. rewrite decide_False by done. apply ttwu_do_activate_rqs.
      * intros q d Hqp. unfold pending, unlock_pi, set_doing. look_counts. destruct (ttwu_do_activate_rqs (cpu (tasks s p)) p migrated s d) as [-> ->].
        case_decide; subst; by rewrite ?Hd.
Qed.

Lemma new_task_counts {MO : machine_ok} s s' c dest a : inv s → inv s' → doing (rqs s c) = Some a →
  wake_up_new_task c dest a s = Some s' → counts_ok s → counts_ok s'.
Proof.
  intros I I' Hd H K. pose proof (a_doing _ (i_activities _ I) _ _ Hd) as (Hc & Hcomp & Ha).
  destruct a; simpl in H, Ha; try discriminate H; destruct Ha as (Hk & E1 & E2 & E3).
  - destruct (_ && _); [|discriminate H]. injection H as <-. apply (activity_counts s _ c p); try done; try (by others Hd).
    left. unfold sleeping, set_doing. look_counts. rewrite decide_True by done. by rewrite E1, E2.
  - destruct (rq_locked _ _); [discriminate H|]. injection H as <-. apply (activity_counts s _ c p); try done; try (by others Hd).
    left. unfold sleeping, unlock_pi, activate_task, set_doing. look_counts. rewrite decide_True by done. by rewrite E1, E2.
Qed.

Lemma pending_counts {MO : machine_ok} s s' c a : inv s → inv s' → NoDup (tasklist s) → doing (rqs s c) = Some a →
  sched_ttwu_pending c a s = Some s' → counts_ok s → counts_ok s'.
Proof.
  intros I I' Hn Hd H K. pose proof (a_doing _ (i_activities _ I) _ _ Hd) as (Hc & Hcomp & Ha).
  destruct a; simpl in H, Ha; try discriminate H.
  - injection H as <-. apply (activity_counts s _ c c); try done; try (by others Hd).
    apply (others_steady s _ c c); try done; by others Hd.
  - destruct l as [|p l].
    + injection H as <-. apply (activity_counts s _ c c); try done; try (by others Hd).
      apply (others_steady s _ c c); try done; by others Hd.
    + destruct (on_cpu (tasks s p)) eqn:E.
      { injection H as <-. discriminate (a_warned _ (i_activities _ I')). }
      destruct (a_pending _ (i_activities _ I) c p) as (P1 & P2 & P3 & P4).
      { unfold pending. rewrite Hd. simpl. set_solver. }
      rewrite P4, Z.eqb_refl in H. injection H as <-.
      apply (activate_counts s _ c c p (remote_wakeup (tasks s p))); try done.
      * by apply asleep; rewrite ?P3.
      * apply pending_moved; [done|]. rewrite P4. unfold pending. rewrite Hd. simpl. set_solver.
      * unfold same_fields. by others Hd.
      * intros q Hqp. rewrite Hd. congruence.
      * intros q. unfold unlock_pi, set_doing. look_counts. by rewrite decide_True.
      * intros d Hdc. unfold unlock_pi, set_doing. look_counts. rewrite decide_False by done. apply ttwu_do_activate_rqs.
      * intros q d Hqp. unfold pending, unlock_pi, set_doing. look_counts.
        destruct (ttwu_do_activate_rqs c p (remote_wakeup (tasks s p)) s d) as [-> ->].
        case_decide; subst; rewrite ?Hd; cbn [in_hand]; set_solver.
Qed.

(** A new task is in no count. *)
Lemma fork_counts {MO : machine_ok} s c p m t : inv s → p ∉ tasklist s → doing (rqs s c) = None →
  let s' := set_doing c (Some (NewPlace p)) (upd_task p (λ _, sched_fork c m t) (with_tasklist (p :: tasklist s) s)) in
  inv s' → counts_ok s → counts_ok s'.
Proof.
  intros I Hp Hd s' I' [K1 [k2 K2] [k3 K3]].
  assert (∀ q, q ≠ p → steady s s' q) as Hq.
  { intros q Hq. apply (others_steady s s' c q); try done; subst s'; by others Hd. }
  assert (sleeping (tasks s' p) = false ∧ nvcsw (tasks s' p) = 0 ∧ nivcsw (tasks s' p) = 0) as (F1 & F2 & F3).
  { subst s'. unfold sleeping, set_doing. look_counts. by rewrite !(decide_True (P := p = p)). }
  assert (∀ q, q ≠ p → nvcsw (tasks s' q) = nvcsw (tasks s q) ∧ nivcsw (tasks s' q) = nivcsw (tasks s q)) as F4
    by (intros q Hqp; subst s'; by others Hd).
  assert (∀ q, q ∈ tasklist s → q ≠ p) as F5 by (intros q Hqp ->; done).
  assert (∀ f, sum_over f (tasklist s') = f p + sum_over f (tasklist s)) as F6 by done.
  split; [intros d|exists k2|exists k3]; rewrite F6.
  - unfold waits_io at 1. rewrite F1. cbn [Z.b2z andb]. rewrite (sum_over_ext _ (waits_io s d)) by (intros; apply steady_waits; auto).
    rewrite <- K1. subst s'. by others Hd.
  - unfold loads at 1. rewrite F1. cbn [Z.b2z andb]. rewrite (sum_over_ext _ (λ q, loads (tasks s q)) (tasklist s)) by (intros; apply (steady_loads s s'); auto).
    rewrite Z.add_0_l, <- K2. unfold sum_cpus. apply sum_over_ext. intros d _. subst s'. by others Hd.
  - rewrite F2, F3. rewrite (sum_over_ext _ (λ q, nvcsw (tasks s q) + nivcsw (tasks s q)) (tasklist s)).
    + rewrite Z.add_0_l, <- K3. unfold sum_cpus. apply sum_over_ext. intros d _. subst s'. by others Hd.
    + intros q Hql. by destruct (F4 q (F5 q Hql)) as [-> ->].
Qed.

Lemma switch_memory_fields c prev next s s' : switch_memory c prev next s = Ok s' →
  same_fields s s' ∧ (∀ d, doing (rqs s' d) = doing (rqs s d)) ∧ (∀ d, wake_list (rqs s' d) = wake_list (rqs s d)).
Proof.
  unfold switch_memory, mmgrab. intros H. repeat case_match; simplify_eq/=; bind_inv; simplify_eq.
  all: unfold same_fields, same_switches; split_and!; try intros ?; by look_counts.
Qed.

(** A switch counts once on the processor and once for the task. *)
Lemma switch_counts {MO : machine_ok} s c b next s' : inv s → NoDup (tasklist s) → at_ (rqs s c) = Picking b →
  switch_to_next c b next s = Ok s' → counts_ok s → counts_ok s'.
Proof.
  intros I Hn Hat H K. assert (c ∈ cpus) as Hc by (apply (p_at _ (i_places _ I)); congruence).
  unfold switch_to_next in H. destruct (Z.eqb_spec (curr (rqs s c)) next) as [E|E].
  - unfold resume in H. case_decide; [done|]. injection H as <-. apply (counts_kept s); [done| |done].
    unfold same_counts. split_and!; try intros ?; unfold set_at; look_counts; auto.
  - unfold context_switch, prepare_task in H. apply res_bind_ok_inv in H as (t & H & [= <-]). set (prev := curr (rqs s c)) in *.
    apply switch_memory_fields in H as (((E1 & E2 & E3 & E4) & E5 & E6 & E7 & E8 & E9 & E10 & E11 & E12) & E13 & E14).
    destruct (p_curr _ (i_places _ I) c Hc) as (_ & _ & Hk & _). destruct K as [K1 [k2 K2] [k3 K3]].
    assert (∀ q, steady s (set_at c (Switched prev) t) q) as Hq.
    { intros q. right. unfold sleeping, set_at. look_counts. rewrite E7, E8, E9, E11, E12.
      split_and!; try (destruct b; by look_counts). apply moved_same; try intros ?; look_counts; rewrite ?E13, ?E14, ?E8, ?E10; destruct b; by look_counts. }
    split; [intros d|exists k2|]; change (tasklist (set_at _ _ _)) with (tasklist t); rewrite E1; change (tasklist (upd_task _ _ _)) with (tasklist s).
    + rewrite (sum_over_ext _ (waits_io s d)) by (intros; by apply steady_waits). rewrite <- K1. unfold set_at. look_counts. rewrite E5. by look_counts.
    + rewrite (sum_over_ext _ (λ q, loads (tasks s q)) (tasklist s)) by (intros; by apply steady_loads).
      rewrite <- K2. unfold sum_cpus. apply sum_over_ext. intros d _. unfold set_at. look_counts. rewrite E6. by look_counts.
    + assert (∀ d, nr_switches (rqs (set_at c (Switched prev) t) d) =
        if decide (d = c) then wrapu64 (nr_switches (rqs s d) + 1) else nr_switches (rqs s d)) as N1.
      { intros d. unfold set_at. look_counts. rewrite E2. look_counts. by case_decide; subst. }
      assert (∀ q, nvcsw (tasks (set_at c (Switched prev) t) q) + nivcsw (tasks (set_at c (Switched prev) t) q) =
        if decide (q = prev) then (if b then wrapu64 (nvcsw (tasks s q) + 1) + nivcsw (tasks s q)
                                   else nvcsw (tasks s q) + wrapu64 (nivcsw (tasks s q) + 1))
        else nvcsw (tasks s q) + nivcsw (tasks s q)) as N2.
      { intros q. unfold set_at. look_counts. rewrite E3, E4. destruct b; look_counts; case_decide; congruence. }
      unfold sum_cpus in *. rewrite (sum_over_ext _ _ _ (λ d _, N1 d)), (sum_over_ext _ _ _ (λ q _, N2 q)).
      rewrite (sum_over_change c _ (λ d, nr_switches (rqs s d)) cpus); [|apply cpus_nodup|done|intros; by rewrite decide_False].
      rewrite (sum_over_change prev _ (λ q, nvcsw (tasks s q) + nivcsw (tasks s q)) (tasklist s)); [|done|done|intros; by rewrite decide_False].
      rewrite !decide_True by done. rewrite K3, !wrapu64_eq.
      exists (k3 - (nr_switches (rqs s c) + 1) / 2 ^ 64 + (if b then (nvcsw (tasks s prev) + 1) / 2 ^ 64 else (nivcsw (tasks s prev) + 1) / 2 ^ 64)).
      destruct b; lia.
Qed.

(** Every step keeps the counts. *)
Lemma do_counts_ok {MC : mm_code} {MO : machine_ok} l s s' : inv s → NoDup (tasklist s) → do l s = Some (Ok s') →
  counts_ok s → counts_ok s'.
Proof.
  intros I Hn H K. pose proof (do_inv l s s' I H) as I'. pose proof (do_same_counts l s s' I H) as Hs.
  destruct l; try (by apply (counts_kept s)); clear Hs; simpl in H.
  - case_match eqn:G; [|done]. injection H as <-. rewrite !andb_true_iff in G. destruct G as ((G1 & G2) & G3).
    apply negb_true_iff, bool_decide_eq_false in G2. apply executes_spec in G1 as (? & ? & ?). by apply fork_counts.
  - destruct (at_ (rqs s c)) eqn:Hat; try done. case_match; [|done]. injection H as <-. by apply deactivate_counts with (b := preempt).
  - destruct (at_ (rqs s c)) eqn:Hat; try done. case_match; [|done]. injection H as H. by apply (switch_counts s c voluntary next).
  - case_match eqn:G; [|done]. injection H as <-. rewrite !andb_true_iff in G. destruct G as ((G1 & _) & _).
    apply can_start_spec in G1 as (? & ? & Hd). apply (activity_counts s _ c c); try done; try (by others Hd).
    apply (others_steady s _ c c); try done; by others Hd.
  - case_match eqn:G; [|done]. injection H as <-. rewrite !andb_true_iff in G. destruct G as (G1 & _).
    apply can_start_spec in G1 as (? & ? & Hd). apply (activity_counts s _ c c); try done; try (by others Hd).
    apply (others_steady s _ c c); try done; by others Hd.
  - case_match eqn:G; [|done]. injection H as <-. rewrite !andb_true_iff in G. destruct G as ((G1 & G2) & _).
    apply bool_decide_eq_true in G2. apply can_start_spec in G1 as (? & ? & Hd).
    assert (∀ q d, q ∈ pending (set_doing c (Some (PendStart l)) (upd_rq c (with_wake_list []) s)) d ↔ q ∈ pending s d) as P.
    { intros q d. unfold pending, set_doing. look_counts. case_decide; subst; [|done]. rewrite Hd, app_nil_r. cbn. by rewrite G2. }
    apply (activity_counts s _ c c); try done; try (by others Hd). apply (others_steady s _ c c); try done; by others Hd.
  - case_match eqn:G; [|done]. injection H as <-. rewrite !andb_true_iff in G.
    destruct G as (((((((G1 & G2) & G3) & G4) & G5) & G6) & G7) & G8).
    apply bool_decide_eq_true in G2 as Hd. apply bool_decide_eq_true in G8.
    rewrite set_task_cpu_quiet in * by (done || (right; by apply migrates_at)). apply (activity_counts s _ c p); try done; try (by others Hd).
    left. unfold sleeping, set_doing, deactivate_task. look_counts. rewrite decide_True by done. apply Z.eqb_eq in G4. by rewrite G4.
  - destruct (doing (rqs s c)) as [a|] eqn:Hd; [|done].
    destruct a; try (apply fmap_Some in H as (t & H & [= ->]);
      first [exact (wake_step_counts s _ c dest _ I I' Hn Hd H K) | exact (new_task_counts s _ c dest _ I I' Hd H K)
        | exact (pending_counts s _ c _ I I' Hn Hd H K)]).
    unfold move_queued_task_end in H. destruct (rq_locked _ _); [done|]. destruct (_ =? _); [|done]. injection H as <-.
    pose proof (a_doing _ (i_activities _ I) _ _ Hd) as (_ & _ & Hk & Hq & _).
    apply (activity_counts s _ c p); try done; try (by others Hd).
    left. unfold sleeping, set_doing, activate_task. look_counts. rewrite decide_True by done. by rewrite Hq.
Qed.

Lemma counts_init {MO : machine_ok} m : counts_ok (sched_init m).
Proof.
  assert (∀ f l, (∀ x, f x = 0) → sum_over f l = 0) as Hz.
  { intros f l Hf. induction l as [|x l IH]; [done|]. unfold sum_over in *. simpl. by rewrite Hf, IH. }
  assert (∀ p, sleeping (tasks (sched_init m) p) = false ∧ nvcsw (tasks (sched_init m) p) = 0 ∧ nivcsw (tasks (sched_init m) p) = 0) as Ht.
  { intros p. by destruct (init_task m p) as [(c & _ & _ & ->)|[_ ->]]. }
  split; [intros c|exists 0|exists 0]; unfold sum_cpus; rewrite !Hz; try done.
  - intros p. unfold waits_io. by destruct (Ht p) as [-> _].
  - intros p. unfold loads. by destruct (Ht p) as [-> _].
  - intros p. by destruct (Ht p) as (_ & -> & ->).
Qed.
End counts.
