(* ===== verification/SwitchWakeups.v ===== *)
(** No wake-up of Switch is lost: a task that goes to sleep because its
    condition was false is runnable, or on the way to be, once the condition
    has become true. *)
From S2P Require Import Prelude Switch SwitchInv SwitchFacts SwitchSchedule SwitchWaking SwitchKeeps SwitchStart.
Local Open Scope Z_scope.

(** An activity that has not yet passed the point where it changes the state of [p]. *)
Definition wakes (p : Z) (a : activity) : Prop :=
  a = WakeEnter p TASK_UNINTERRUPTIBLE ∨ a = WakeMatched p ∨ a = WakeRunnable p ∨ a = WakeOff p.

Section wakeups.
Context `{M : machine} {MO : machine_ok}.

Record waits_ok (s : state) : Prop := {
  w_state p : loop (tasks s p) ≠ NoLoop →
    st (tasks s p) = TASK_RUNNING ∨ st (tasks s p) = TASK_UNINTERRUPTIBLE ∨ st (tasks s p) = TASK_WAKING;
  w_woken p : loop (tasks s p) = Sleep ∨ loop (tasks s p) = Again → condition (tasks s p) = true →
    st (tasks s p) = TASK_UNINTERRUPTIBLE → ∃ c a, doing (rqs s c) = Some a ∧ wakes p a;
  w_new p c : doing (rqs s c) = Some (NewPlace p) ∨ doing (rqs s c) = Some (NewQueue p) → loop (tasks s p) = NoLoop;
}.

Definition same_waits (s s' : state) : Prop :=
  (∀ p, st (tasks s' p) = st (tasks s p)) ∧ (∀ p, loop (tasks s' p) = loop (tasks s p)) ∧
  (∀ p, condition (tasks s' p) = condition (tasks s p)) ∧ (∀ c, doing (rqs s' c) = doing (rqs s c)).

Lemma waits_same s s' : same_waits s s' → waits_ok s → waits_ok s'.
Proof.
  intros (E1 & E2 & E3 & E4) [W1 W2 W3]. split; intros *; rewrite ?E1, ?E2, ?E3, ?E4; eauto.
  setoid_rewrite E4. eauto.
Qed.

Ltac look_waits :=
  repeat progress (look_frame; look_task st; look_task loop; look_task condition; look_rq doing);
  cbn [st loop condition doing with_st with_loop with_condition with_doing] in *.

Lemma do_same_waits {MC : mm_code} l s s' : do l s = Some (Ok s') →
  match l with
  | SetIowait _ _ | SetFrozen _ _ | ChangeMm _ _ | Preempt _ | LoadState _ | Balance _ | Balanced _ | Pick _ _ | SavePrev _ | FinishTask _
  | FinishLockSwitch _ | DropPrev _ => same_waits s s'
  | _ => True
  end.
Proof.
  intros H. destruct l; try done; simpl in H;
    unfold drop_prev, mmdrop, put_task_struct_rcu_user, switch_to_next, context_switch, switch_memory, resume, mmgrab, same_waits in *; unfold_steps.
  all: step_cases H;
    try (apply bind_Some in H as ([[[??]?]?] & _ & H)); simplify_eq; bind_inv; simplify_eq; repeat (case_match; simplify_eq); bind_inv; simplify_eq.
  all: split_and!; try intros ?; look_waits; repeat case_decide; subst; try done; auto.
Qed.

Ltac split_guards :=
  repeat match goal with
  | G : (_ && _) = true |- _ => apply andb_true_iff in G as [? ?]
  | G : bool_decide _ = true |- _ => apply bool_decide_eq_true in G
  | G : executes _ _ = true |- _ => apply executes_spec in G as (? & ? & ?)
  | G : can_start _ _ = true |- _ => apply can_start_spec in G as (? & ? & ?)
  | G : negb _ = true |- _ => apply negb_true_iff in G
  end.
(** The activity that was under way is still the same. *)
Ltac same_waker W :=
  let d := fresh "d" in let a := fresh "a" in
  destruct W as (d & a & ? & ?); [by auto..|]; exists d, a; look_waits; case_decide; subst; congruence || by auto.

(** A step by which the current task, which is not waking, changes its state or its place in the loop. *)
Lemma task_waits s c f : (∀ d, doing (rqs s d) = Some (NewPlace (curr (rqs s c))) ∨ doing (rqs s d) = Some (NewQueue (curr (rqs s c))) → False) →
  let t := f (tasks s (curr (rqs s c))) in
  (loop t ≠ NoLoop → st t = TASK_RUNNING ∨ st t = TASK_UNINTERRUPTIBLE ∨ st t = TASK_WAKING) →
  (loop t = Sleep ∨ loop t = Again → condition t = true → st t = TASK_UNINTERRUPTIBLE →
   ∃ d a, doing (rqs s d) = Some a ∧ wakes (curr (rqs s c)) a) →
  waits_ok s → waits_ok (upd_task (curr (rqs s c)) f s).
Proof.
  intros Hn t H1 H2 [W1 W2 W3]. split.
  - intros p. look_waits. case_decide; subst; auto.
  - intros p. look_waits. case_decide; subst; auto.
  - intros p d. look_waits. case_decide; subst; [|apply W3]. by intros ?%Hn.
Qed.

Lemma running_not_new s c : inv s → c ∈ cpus →
  ∀ d, doing (rqs s d) = Some (NewPlace (curr (rqs s c))) ∨ doing (rqs s d) = Some (NewQueue (curr (rqs s c))) → False.
Proof.
  intros I Hc d H. destruct (p_curr _ (i_places _ I) c Hc) as (Hon & _).
  destruct H as [H|H]; apply (a_doing _ (i_activities _ I)) in H as (_ & _ & _ & _ & _ & H); congruence.
Qed.

Lemma upd_twice p f g s : same_waits (upd_task p (λ t, g (f t)) s) (upd_task p g (upd_task p f s)).
Proof. split_and!; [| | |done]; intros q; cbn; destruct (decide (q = p)) as [->|]; by rewrite ?fn_lookup_insert, ?fn_lookup_insert_ne by done. Qed.

Lemma do_task_waits l s s' : inv s → do_task l s = Some (Ok s') → waits_ok s → waits_ok s'.
Proof.
  intros I H W. destruct l; simpl in H; try discriminate H.
  - unfold set_special_state, set_current_state in H. step_cases H; simplify_eq; split_guards.
    all: apply task_waits; [by apply running_not_new|cbn; congruence|cbn; intuition congruence|done].
  - case_match; [|done]. injection H as <-. split_guards. destruct W. apply task_waits; [by apply running_not_new|by apply w_state0|by apply w_woken0|done].
  - case_match; [|done]. injection H as <-. split_guards. destruct W. apply task_waits; [by apply running_not_new|by apply w_state0|by apply w_woken0|done].
  - case_match; [|done]. injection H as <-. split_guards. destruct W. apply task_waits; [by apply running_not_new|by apply w_state0|done|done].
  - case_match; [|done]. injection H as <-. split_guards. unfold set_current_state.
    eapply waits_same; [apply upd_twice|]. apply task_waits; [by apply running_not_new|cbn; auto|cbn; intuition congruence|done].
  - case_match eqn:G; [|done]. split_guards. unfold set_current_state in H. destruct (condition _) eqn:E; injection H as <-.
    + eapply waits_same; [apply upd_twice|]. apply task_waits; [by apply running_not_new|cbn; auto|cbn; intuition congruence|done].
    + destruct W. apply task_waits; [by apply running_not_new| |cbn; congruence|done]. cbn. intros _. apply w_state0. congruence.
  - unfold set_special_state, set_at in H. step_cases H; simplify_eq; split_guards.
    apply (waits_same (upd_task (curr (rqs s c)) (with_st TASK_DEAD) s)).
    { unfold set_current_state. split_and!; try intros ?; by look_waits. }
    apply task_waits; [by apply running_not_new|cbn; congruence|cbn; intuition congruence|done].
  - assert (c ∈ cpus) as Hc by (repeat (case_match; try discriminate H); split_guards; done).
    assert (s' = upd_task (curr (rqs s c)) (λ t, if decide (loop t = Sleep) then with_loop Again t else t) (set_at c (Locked false) s)) as ->
      by (repeat case_match; simplify_eq; done).
    apply (waits_same (upd_task (curr (rqs s c)) (λ t, if decide (loop t = Sleep) then with_loop Again t else t) s)).
    { unfold set_at. split_and!; try intros ?; by look_waits. }
    clear H. destruct W. apply task_waits; [by apply running_not_new|..|done]; cbv beta; destruct (decide _) as [E|E]; cbn; auto.
    intros _. apply w_state0. congruence.
  - case_match; [|done]. injection H as <-. eapply waits_same; [|done]. unfold set_at. split_and!; try intros ?; by look_waits.
Qed.

(** A step of processor [c] that does not touch the wait of [q]. *)
Definition untouched (s s' : state) (q : Z) : Prop :=
  st (tasks s' q) = st (tasks s q) ∧ loop (tasks s' q) = loop (tasks s q) ∧ condition (tasks s' q) = condition (tasks s q).

(** A step of an activity that works on [p]. *)
Lemma activity_waits s s' c p : (∀ q, q ≠ p → untouched s s' q) → (∀ d, d ≠ c → doing (rqs s' d) = doing (rqs s d)) →
  (∀ q a, q ≠ p → doing (rqs s c) = Some a → ¬ wakes q a) →
  (∀ q, q ≠ p → doing (rqs s' c) ≠ Some (NewPlace q) ∧ doing (rqs s' c) ≠ Some (NewQueue q)) →
  (loop (tasks s' p) ≠ NoLoop → loop (tasks s p) ≠ NoLoop) →
  (loop (tasks s' p) ≠ NoLoop → st (tasks s' p) = st (tasks s p) ∨ st (tasks s' p) = TASK_RUNNING ∨ st (tasks s' p) = TASK_WAKING) →
  (loop (tasks s' p) = Sleep ∨ loop (tasks s' p) = Again → condition (tasks s' p) = true → st (tasks s' p) = TASK_UNINTERRUPTIBLE →
   (∃ a, doing (rqs s' c) = Some a ∧ wakes p a) ∨
   (loop (tasks s' p) = loop (tasks s p) ∧ condition (tasks s p) = true ∧ st (tasks s p) = TASK_UNINTERRUPTIBLE ∧
    ∀ a, doing (rqs s c) = Some a → ¬ wakes p a)) →
  (doing (rqs s' c) = Some (NewPlace p) ∨ doing (rqs s' c) = Some (NewQueue p) → loop (tasks s' p) = NoLoop) →
  waits_ok s → waits_ok s'.
Proof.
  intros Hq Hd Hc Hn L1 L2 L3 L4 [W1 W2 W3]. split.
  - intros q Hl. destruct (decide (q = p)) as [->|Hqp]; [|destruct (Hq q Hqp) as (E1 & E2 & _); rewrite E1; rewrite E2 in Hl; auto].
    destruct (L2 Hl) as [->|[->| ->]]; auto.
  - intros q Hl C S. destruct (decide (q = p)) as [->|Hqp].
    + destruct (L3 Hl C S) as [(a & ? & ?)|(E1 & E2 & E3 & E4)]; [by exists c, a|]. rewrite E1 in Hl.
      destruct (W2 p Hl E2 E3) as (d & a & Hda & Hw). exists d, a. split; [|done]. rewrite Hd; [done|]. intros ->. by destruct (E4 a).
    + destruct (Hq q Hqp) as (E1 & E2 & E3). rewrite E1 in S. rewrite E2 in Hl. rewrite E3 in C.
      destruct (W2 q Hl C S) as (d & a & Hda & Hw). exists d, a. split; [|done]. rewrite Hd; [done|]. intros ->. by destruct (Hc q a Hqp).
  - intros q d H. destruct (decide (q = p)) as [->|Hqp].
    { destruct (decide (d = c)) as [->|Hdc]; [by apply L4|]. rewrite Hd in H by done. apply W3 in H.
      destruct (loop (tasks s' p)); [done|..]; by destruct L1. }
    destruct (Hq q Hqp) as (_ & -> & _).
    apply (W3 q d). destruct (decide (d = c)) as [->|]; [destruct (Hn q Hqp); tauto|]. by rewrite Hd in H.
Qed.

Ltac sides Hd :=
  unfold untouched; intros *; try intros ?; try intros ?; unfold_steps; unfold wakes in *; look_waits; rewrite ?Hd in *; repeat case_decide; subst; cbn in *;
  intuition (congruence || auto).

Lemma wake_waits s s' c dest a : inv s → inv s' → doing (rqs s c) = Some a →
  try_to_wake_up c dest a s = Some s' → waits_ok s → waits_ok s'.
Proof.
  intros I I' Hd H K. pose proof (a_doing _ (i_activities _ I) _ _ Hd) as (Hc & Hcomp & Ha).
  destruct a; simpl in H, Ha; try discriminate H.
  all: unfold ttwu_runnable, ttwu_queue, ttwu_queue_wakelist, ttwu_do_activate in H; step_cases H; simplify_eq.
  all: match goal with K : waits_ok ?s |- _ => apply (activity_waits s _ c p); try done end.
  all: try (by sides Hd).
  all: try (intros _ _ _; left; eexists; unfold set_doing, wakes; look_waits; rewrite decide_True by done; eauto; fail).
  all: intros Hl C S; right; unfold set_doing in *; look_waits; split_and!; try done; rewrite Hd; intros a [= <-] Hw;
    destruct Hw as [[= ->]|[?|[?|?]]]; try done; by rewrite S in *.
Qed.

Lemma do_activity_waits l s s' : inv s → inv s' → do_activity l s = Some (Ok s') → waits_ok s → waits_ok s'.
Proof.
  intros I I' H K. destruct l; simpl in H; try discriminate H.
  - case_match; [|done]. injection H as <-. split_guards. apply (activity_waits s _ c p); try done; try (by sides H3).
  - case_match; [|done]. injection H as <-. split_guards. apply (activity_waits s _ c p); try done; try (by sides H3).
  - case_match; [|done]. injection H as <-. split_guards. apply (activity_waits s _ c p); try done; try (by sides H3).
    all: try (intros _ _ _; left; eexists; unfold set_doing, wakes; look_waits; rewrite decide_True by done; eauto; fail).
  - case_match; [|done]. injection H as <-. split_guards. apply (activity_waits s _ c c); try done; try (by sides H3).
  - case_match; [|done]. injection H as <-. split_guards. rewrite set_task_cpu_quiet in * by (done || (right; by apply migrates_at)).
    apply (activity_waits s _ c p); try done; try (by sides H3).
  - destruct (doing (rqs s c)) as [a|] eqn:Hd; [|done].
    destruct a; try (apply fmap_Some in H as (t & H & [= ->])); try (by eapply (wake_waits s _ c dest)).
    + pose proof (w_new _ K p c (or_introl Hd)) as Hl. simpl in H. case_match; [|done]. injection H as <-.
      apply (activity_waits s _ c p); try done; try (by sides Hd).
    + pose proof (w_new _ K p c (or_intror Hd)) as Hl. simpl in H. case_match; [done|]. injection H as <-.
      apply (activity_waits s _ c p); try done; try (by sides Hd).
    + simpl in H. injection H as <-. apply (activity_waits s _ c c); try done; try (by sides Hd).
    + simpl in H. unfold ttwu_do_activate in H. destruct l as [|p l].
      * injection H as <-. apply (activity_waits s _ c c); try done; try (by sides Hd).
      * destruct (on_cpu (tasks s p)).
        { injection H as <-. discriminate (a_warned _ (i_activities _ I')). }
        destruct (a_pending _ (i_activities _ I) c p) as (P1 & P2 & P3 & P4).
        { unfold pending. rewrite Hd. simpl. set_solver. }
        rewrite P4, Z.eqb_refl in H. step_cases H; simplify_eq.
        all: apply (activity_waits s _ (cpu (tasks s p)) p); try done; try (by sides Hd).
    + unfold move_queued_task_end in H. destruct (rq_locked _ _); [done|]. destruct (_ =? _); [|done]. injection H as <-.
      apply (activity_waits s _ c p); try done; try (by sides Hd).
Qed.

Lemma do_waits {MC : mm_code} l s s' : inv s → do l s = Some (Ok s') → waits_ok s → waits_ok s'.
Proof.
  intros I H W. pose proof (do_same_waits l s s' H) as Hs. pose proof (do_inv l s s' I H) as I'.
  destruct l; try (exact (waits_same s s' Hs W)); clear Hs; try (exact (do_task_waits _ s s' I H W)); try (exact (do_activity_waits _ s s' I I' H W)).
  simpl in H. destruct (at_ (rqs s c)) eqn:Hat; try done. case_match; [|done]. injection H as <-.
  assert (c ∈ cpus) as Hc by (apply (p_at _ (i_places _ I)); congruence).
  unfold deactivate_prev. destruct (preempt || _).
  { eapply waits_same; [|done]. unfold set_at. split_and!; try intros ?; by look_waits. }
  destruct signal.
  - apply (waits_same (upd_task (curr (rqs s c)) (with_st TASK_RUNNING) s)).
    { unfold set_at. split_and!; try intros ?; by look_waits. }
    apply task_waits; [by apply running_not_new|cbn; auto|done|done].
  - eapply waits_same; [|done]. set (load := _ && negb (frozen _)). unfold set_at, deactivate_task, add_uninterruptible, add_iowait.
    destruct load, (in_iowait _); split_and!; try intros ?; by look_waits.
Qed.

Lemma waits_init m : waits_ok (sched_init m).
Proof.
  assert (∀ p, loop (tasks (sched_init m) p) = NoLoop) as Hl by (intros p; by destruct (init_task m p) as [(c & _ & _ & ->)|[_ ->]]).
  split; [intros p []; by rewrite Hl|intros p []; congruence|by intros p c []].
Qed.
End wakeups.
