(* ===== verification/SwitchProgress.v ===== *)
(** Switch does not stop: a processor in [__schedule] or in a wake-up takes a
    step, or waits for a lock, a move or a switch of another processor that
    does. *)
From S2P Require Import Prelude Switch SwitchInv SwitchFacts SwitchSchedule SwitchWaking SwitchKeeps SwitchStart SwitchMemory.
Local Open Scope Z_scope.

(** The processor whose code a step continues; None for the steps that begin something. *)
Definition continues (l : label) : option Z :=
  match l with
  | Schedule c | LoadState c | Deactivate c _ | Balanced c | Pick c _ | SavePrev c | FinishTask c | FinishLockSwitch c
  | DropPrev c | Continue c _ => Some c
  | _ => None
  end.

Section progress.
Context `{M : machine} {MC : mm_code} {MO : machine_ok}.

(** [c] is in the middle of something. *)
Definition busy (s : state) (c : Z) : Prop := at_ (rqs s c) ≠ Run ∨ doing (rqs s c) ≠ None.
Definition advances (s : state) (c : Z) : Prop := ∃ l s', continues l = Some c ∧ do l s = Some (Ok s').

(** [c] spins until [d] releases a lock, ends a move or leaves a task. *)
Inductive waits_for (s : state) (c : Z) : Z → Prop :=
  | waits_pi p mask d : doing (rqs s c) = Some (WakeEnter p mask) → pi_lock (tasks s p) = Some d → waits_for s c d
  | waits_rq a p : doing (rqs s c) = Some a →
      match a with WakeRunnable q | WakeQueue q _ | NewQueue q | Moving q _ => q = p | _ => False end →
      rq_locked (cpu (tasks s p)) s = true → waits_for s c (cpu (tasks s p))
  | waits_move p d x : doing (rqs s c) = Some (WakeRunnable p) → doing (rqs s d) = Some (Moving p x) → waits_for s c d
  | waits_cpu p : doing (rqs s c) = Some (WakeSpin p) → on_cpu (tasks s p) = true → waits_for s c (cpu (tasks s p)).

Lemma advance s c l : inv s → memory_ok s → continues l = Some c → do l s ≠ None → advances s c.
Proof.
  intros I Mo Hl H. destruct (do l s) as [r|] eqn:E; [|done]. pose proof (do_defined l s r I Mo E) as Hr.
  destruct r as [s'| |]; [by exists l, s'|discriminate Hr..].
Qed.

(** A processor with the lock of its run queue is not stopped. *)
Lemma locked_advances s c : inv s → memory_ok s → rq_locked c s = true → advances s c.
Proof.
  intros I Mo H. unfold rq_locked in H. apply orb_true_iff in H as [H|H].
  - assert (c ∈ cpus) as Hc by (apply (p_at _ (i_places _ I)); intros E; by rewrite E in H).
    destruct (p_idle _ (i_places _ I) c Hc) as (_ & I1 & I2 & _).
    destruct (at_ (rqs s c)) eqn:Hat; try discriminate H.
    + apply (advance s c (LoadState c)); try done. simpl. by rewrite Hat.
    + apply (advance s c (Deactivate c false)); try done. simpl. by rewrite Hat.
    + apply (advance s c (Pick c (idle c))); try done. simpl. rewrite Hat. unfold task_on_rq_queued. rewrite I1, I2, !Z.eqb_refl. done.
    + apply (advance s c (SavePrev c)); try done. simpl. by rewrite Hat.
    + apply (advance s c (FinishTask c)); try done. simpl. by rewrite Hat.
    + apply (advance s c (FinishLockSwitch c)); try done. simpl. by rewrite Hat.
  - destruct (doing (rqs s c)) as [[]|] eqn:Hd; try discriminate H.
    apply (advance s c (Continue c c)); try done. simpl. rewrite Hd. simpl. destruct l as [|p l]; [done|].
    by destruct (on_cpu _).
Qed.

Lemma moving_advances s c p x : inv s → memory_ok s → doing (rqs s c) = Some (Moving p x) →
  ∃ d, rtc (waits_for s) c d ∧ advances s d.
Proof.
  intros I Mo Hd. destruct (rq_locked (cpu (tasks s p)) s) eqn:E.
  - exists (cpu (tasks s p)). split; [|by apply locked_advances]. apply rtc_once. by eapply waits_rq.
  - exists c. split; [done|]. apply (advance s c (Continue c c)); try done. simpl. rewrite Hd.
    unfold move_queued_task_end. rewrite E. by case_match.
Qed.

(** A processor that does not choose a task and works on none. *)
Lemma place_advances s c : inv s → memory_ok s → at_ (rqs s c) ≠ Run → doing (rqs s c) = None → advances s c.
Proof.
  intros I Mo Hr Hd. assert (c ∈ cpus) as Hc by (by apply (p_at _ (i_places _ I))).
  destruct (rq_locked c s) eqn:E; [by apply locked_advances|]. unfold rq_locked in E. apply orb_false_iff in E as [E _].
  destruct (at_ (rqs s c)) eqn:Hat; try discriminate E; [done|..].
  - apply (advance s c (Schedule c)); try done. simpl. unfold executes. rewrite Hat, Hd. rewrite (bool_decide_eq_true_2 (c ∈ cpus)) by done.
    by case_match.
  - apply (advance s c (Balanced c)); try done. simpl. by rewrite Hat, Hd.
  - apply (advance s c (DropPrev c)); try done. simpl. by rewrite Hat, Hd.
Qed.

(** The holder of a [pi_lock] is not stopped for ever. *)
Lemma holder_advances s c p a : inv s → memory_ok s → doing (rqs s c) = Some a → holds a = Some p →
  ∃ d, rtc (waits_for s) c d ∧ advances s d.
Proof.
  intros I Mo Hd Ha. pose proof (a_doing _ (i_activities _ I) _ _ Hd) as (Hc & _ & Hok).
  assert (do (Continue c (cpu (tasks s p))) s ≠ None → ∃ d, rtc (waits_for s) c d ∧ advances s d) as Hmove.
  { intros H. exists c. split; [done|]. by apply (advance s c (Continue c (cpu (tasks s p)))). }
  assert (∀ d, waits_for s c d → rq_locked d s = true → ∃ d, rtc (waits_for s) c d ∧ advances s d) as Hlock.
  { intros d Hw Hl. exists d. split; [by apply rtc_once|by apply locked_advances]. }
  cbn [do do_activity] in Hmove. rewrite Hd in Hmove.
  destruct a; try discriminate Ha; injection Ha as ->; simpl in Hok.
  - by apply Hmove.
  - destruct (rq_locked (cpu (tasks s p)) s) eqn:E; [eapply Hlock, E; by eapply waits_rq|].
    destruct (task_on_rq_migrating (tasks s p)) eqn:Em.
    + apply Z.eqb_eq in Em. destruct (a_moving _ (i_activities _ I) p Em) as [e He].
      destruct (moving_advances s e p _ I Mo He) as (d & ? & ?). exists d. split; [|done].
      eapply rtc_l; [|done]. by eapply waits_move.
    + apply Hmove. simpl. unfold ttwu_runnable. rewrite E, Em. simpl. by case_match.
  - by apply Hmove.
  - by apply Hmove.
  - apply Hmove. simpl. by destruct (ttwu_queue_wakelist _ _ _ _ _ _).
  - destruct (on_cpu (tasks s p)) eqn:E.
    + assert (waits_for s c (cpu (tasks s p))) as Hw by (by eapply waits_cpu).
      destruct (p_on_cpu _ (i_places _ I) p E) as [F|F].
      * assert (cpu (tasks s p) ∈ cpus) as Hc2 by (apply (p_cpu _ (i_places _ I)); tauto).
        assert (picking (at_ (rqs s (cpu (tasks s p)))) = true) as Hp.
        { destruct (p_curr _ (i_places _ I) _ Hc2) as (_ & _ & _ & [G|[_ G]]); [|done]. rewrite F in G. destruct Hok as (_ & _ & _ & ?). congruence. }
        destruct (doing (rqs s (cpu (tasks s p)))) as [a|] eqn:Hd2.
        -- destruct (a_doing _ (i_activities _ I) _ _ Hd2) as (_ & Hcomp & _).
           destruct (at_ (rqs s (cpu (tasks s p)))) eqn:Hat; try discriminate Hp; [by destruct a|].
           destruct a; try discriminate Hcomp. destruct (moving_advances _ _ _ _ I Mo Hd2) as (d & ? & ?).
           exists d. split; [|done]. by eapply rtc_l.
        -- exists (cpu (tasks s p)). split; [by apply rtc_once|]. apply place_advances; try done. intros G. by rewrite G in Hp.
      * apply (Hlock _ Hw). unfold rq_locked. by destruct (at_ _).
    + apply Hmove. simpl. rewrite E. rewrite decide_True by (apply (p_cpu _ (i_places _ I)); tauto). by rewrite Z.eqb_refl.
  - destruct (rq_locked (cpu (tasks s p)) s) eqn:E; [eapply Hlock, E; by eapply waits_rq|].
    apply Hmove. simpl. unfold ttwu_queue, ttwu_queue_wakelist. destruct (_ && _); [|by rewrite E].
    destruct (_ =? c); [|done]. by rewrite (E : rq_locked (cpu (tasks s p)) (warn s) = false).
  - destruct (rq_locked (cpu (tasks s p)) s) eqn:E; [eapply Hlock, E; by eapply waits_rq|].
    apply Hmove. simpl. by rewrite E.
Qed.

Lemma busy_advances s c : inv s → memory_ok s → busy s c → ∃ d, rtc (waits_for s) c d ∧ advances s d.
Proof.
  intros I Mo Hb. destruct (doing (rqs s c)) as [a|] eqn:Hd.
  2:{ exists c. split; [done|]. apply place_advances; try done. destruct Hb; congruence. }
  pose proof (a_doing _ (i_activities _ I) _ _ Hd) as (Hc & _ & Hok).
  destruct (holds a) as [p|] eqn:Ha; [by eapply holder_advances|].
  assert (∀ x, do (Continue c x) s ≠ None → ∃ d, rtc (waits_for s) c d ∧ advances s d) as Hmove.
  { intros x H. exists c. split; [done|]. by apply (advance s c (Continue c x)). }
  cbn [do do_activity] in Hmove. rewrite Hd in Hmove.
  destruct a; try discriminate Ha; simpl in Hok.
  - destruct (pi_lock (tasks s p)) as [d|] eqn:Hpi.
    + apply (a_pi _ (i_activities _ I)) in Hpi as Hh. apply bind_Some in Hh as (b & Hb2 & Hh).
      destruct (holder_advances s d p b I Mo Hb2 Hh) as (e & ? & ?). exists e. split; [|done]. eapply rtc_l; [|done]. by eapply waits_pi.
    + apply (Hmove c). simpl. unfold pi_free. rewrite Hpi. by destruct (_ =? _).
  - apply (Hmove c). simpl. unfold pi_free. destruct (pi_lock (tasks s p)) as [d|] eqn:Hpi; [|by rewrite !bool_decide_eq_true_2].
    exfalso. apply (a_pi _ (i_activities _ I)) in Hpi. apply bind_Some in Hpi as (b & Hb2 & Hh).
    apply (a_doing _ (i_activities _ I)) in Hb2 as (_ & _ & Hb2). destruct Hok as (_ & Hn & _).
    destruct b; try discriminate Hh; injection Hh as ->; simpl in Hb2; unfold awake in Hb2; rewrite Hn in Hb2; naive_solver.
  - by apply (Hmove c).
  - apply (Hmove c). simpl. destruct l; [done|]. by destruct (on_cpu _).
  - by eapply moving_advances.
Qed.
End progress.
