(* ===== verification/SwitchProofs.v ===== *)
(** What Switch promises in every state that the machine can reach from its
    start, and a machine with two processors on which it runs. *)
From S2P Require Import Prelude Switch SwitchInv SwitchFacts SwitchSchedule SwitchWaking SwitchKeeps SwitchStart SwitchMemory SwitchCounts SwitchWakeups SwitchProgress.
Local Open Scope Z_scope.

Section reachable.
Context `{M : machine} {MC : mm_code} {MO : machine_ok} {MCO : mm_code_ok}.

(** The states after [sched_init] with the memory [m]. *)
Definition reachable (m : Z) (s : state) : Prop := rtc step (sched_init m) s.

Record good (s : state) : Prop := {
  g_inv : inv s;
  g_memory : memory_ok s;
  g_counts : counts_ok s;
  g_waits : waits_ok s;
}.

Lemma reachable_good m s : reachable m s → good s.
Proof.
  intros H. refine (rtc_ind_r good (sched_init m) _ _ s H); clear s H.
  - split; [apply inv_init|apply memory_init|apply counts_init|apply waits_init].
  - intros s t _ [l H] []. split; [by eapply do_inv|by eapply do_memory_ok| |by eapply do_waits].
    apply (do_counts_ok l s t); try done. by apply m_nodup.
Qed.

Definition found {A} (o : option A) : bool := match o with Some _ => true | None => false end.

(** A run of the machine. *)
Fixpoint run (ls : list label) (s : state) : option state :=
  match ls with
  | [] => Some s
  | l :: ls => match do l s with Some (Ok s') => run ls s' | _ => None end
  end.
Definition after (ls : list label) (m : Z) : state := default (sched_init m) (run ls (sched_init m)).

Lemma run_rtc ls s s' : run ls s = Some s' → rtc step s s'.
Proof.
  revert s. induction ls as [|l ls IH]; simpl; intros s H; [by injection H as <-|].
  destruct (do l s) as [[t| |]|] eqn:E; try done. eapply rtc_l; [by exists l|auto].
Qed.
Lemma after_reachable ls m : found (run ls (sched_init m)) = true → reachable m (after ls m).
Proof.
  unfold after. destruct (run ls (sched_init m)) as [s|] eqn:E; [|done]. intros _. by apply (run_rtc ls).
Qed.

(** * Safety *)

(** C1: whatever the processors do, no step of the scheduler has an undefined
    result: no BUG() is reached, no reference to a memory or to a task is used
    after it was given back, no pointer of context_switch is null; and no
    WARN_ON_ONCE of the code fires. *)
Theorem every_step_defined m s l r : reachable m s → do l s = Some r → (∃ s', r = Ok s') ∧ warned s = false.
Proof.
  intros [I Mo _ _]%reachable_good H. split; [|apply I]. pose proof (do_defined l s r I Mo H). destruct r; [eauto|done..].
Qed.

(** C2: a task is on one processor at most: [on_cpu] is set exactly for the
    task that a processor runs and for the one it is just leaving, no two
    processors have the same, and a processor takes only a queued task that
    no processor is still leaving. *)
Theorem one_processor m s : reachable m s →
  (∀ p, on_cpu (tasks s p) = true ↔ ∃ c, c ∈ cpus ∧ (curr (rqs s c) = p ∨ prev_of (at_ (rqs s c)) = Some p)) ∧
  (∀ p c d, c ∈ cpus → d ∈ cpus → (curr (rqs s c) = p ∨ prev_of (at_ (rqs s c)) = Some p) →
     (curr (rqs s d) = p ∨ prev_of (at_ (rqs s d)) = Some p) → c = d) ∧
  (∀ c next r, do (Pick c next) s = Some r → next ≠ curr (rqs s c) →
     on_rq (tasks s next) = TASK_ON_RQ_QUEUED ∧ on_cpu (tasks s next) = false).
Proof.
  intros [I Mo _ _]%reachable_good. destruct I as [[] _ _].
  assert (∀ p c, c ∈ cpus → curr (rqs s c) = p ∨ prev_of (at_ (rqs s c)) = Some p → on_cpu (tasks s p) = true ∧ cpu (tasks s p) = c) as Hon.
  { intros p c Hc [<-|Hp]; [destruct (p_curr c Hc) as (? & ? & _)|destruct (p_prev c p Hp) as (? & ? & _)]; done. }
  split_and!.
  - intros p. split; [|intros (c & Hc & H); by destruct (Hon p c Hc H)]. intros H. exists (cpu (tasks s p)).
    split; [|by apply p_on_cpu]. destruct (decide (p ∈ tasklist s)) as [|Hn]; [by apply p_cpu|].
    apply p_unborn in Hn as (_ & _ & ? & _). congruence.
  - intros p c d Hc Hd H1 H2. destruct (Hon p c Hc H1), (Hon p d Hd H2). congruence.
  - intros c next r H Hne. simpl in H. destruct (at_ (rqs s c)) eqn:Hat; try done. case_match eqn:G; [|done].
    apply andb_true_iff in G as [G1%Z.eqb_eq G2%Z.eqb_eq]. split; [done|]. destruct (on_cpu (tasks s next)) eqn:E; [|done].
    destruct (p_on_cpu next E) as [F|F]; rewrite G2 in F; [congruence|]. by rewrite Hat in F.
Qed.

(** A task that has died gives its reference back once: while it is on a
    processor, or the processor that left it is in finish_task_switch, the
    reference is there, afterwards it is gone; only one processor gives it
    back, and the dead task is on no run queue that could choose it. A task
    that is not dead keeps its reference. *)
Theorem death_accounted m s p : reachable m s → p ∈ tasklist s →
  (st (tasks s p) = TASK_DEAD → on_cpu (tasks s p) = false →
     on_rq (tasks s p) = 0 ∧
     (current_ref (tasks s p) = true ↔ ∃ c, buried_off (at_ (rqs s c)) = Some p) ∧
     (∀ c d, buried_off (at_ (rqs s c)) = Some p → buried_off (at_ (rqs s d)) = Some p → c = d)) ∧
  (st (tasks s p) ≠ TASK_DEAD → current_ref (tasks s p) = true).
Proof.
  intros [I _ _ _]%reachable_good Hk. destruct I as [[] _ []]. split.
  - intros Hd Hoff. split_and!.
    + destruct (d_dead p Hd) as [|[E F]]; [done|]. destruct (p_curr (cpu (tasks s p)) (p_cpu p Hk)) as (G & _). congruence.
    + split; [|intros [c Hc]; by destruct (d_burying c p (buried_burying _ _ Hc)) as (_ & _ & _ & ?)].
      intros Hr. destruct (d_left p Hd Hr); [congruence|done].
    + intros c d. apply d_once.
  - intros Hd. destruct (current_ref (tasks s p)) eqn:E; [done|]. destruct (d_ref p Hk E) as [? _]. done.
Qed.

(** * Liveness *)

(** C3: no wake-up is lost: a task that found its condition false after it had
    set its state, and whose condition is true now, is runnable, or some
    processor is waking it, or its wake-up is on the list of its processor. *)
Theorem wakeup_not_lost m s p : reachable m s →
  loop (tasks s p) = Sleep ∨ loop (tasks s p) = Again → condition (tasks s p) = true →
  (st (tasks s p) = TASK_RUNNING ∧ on_rq (tasks s p) ≠ 0) ∨
  (∃ c a, c ∈ cpus ∧ doing (rqs s c) = Some a ∧ (wakes p a ∨ late a = Some p)) ∨
  p ∈ pending s (cpu (tasks s p)).
Proof.
  intros [I _ _ W]%reachable_good Hl Hc. destruct I as [_ A _].
  assert (loop (tasks s p) ≠ NoLoop) as Hn by (destruct Hl; congruence).
  destruct (w_state _ W p Hn) as [E|[E|E]].
  - left. split; [done|]. intros F. destruct (a_off _ A p F E) as [c Hd]. by rewrite (w_new _ W p c (or_intror Hd)) in Hn.
  - right. left. destruct (w_woken _ W p Hl Hc E) as (c & a & Hd & Hw). exists c, a. destruct (a_doing _ A _ _ Hd) as (? & _). auto.
  - right. destruct (a_waking _ A p E) as [?|(c & H)]; [by right|]. left. apply bind_Some in H as (a & Hd & H).
    exists c, a. destruct (a_doing _ A _ _ Hd) as (? & _). auto.
Qed.

(** C4: the processors never deadlock: a processor that is in __schedule, or in
    a wake-up or move, takes its next step, or there is a chain of processors,
    each waiting for a lock, a move or a switch of the next, at whose end one
    takes its next step. *)
Theorem some_processor_advances m s c : reachable m s → busy s c → ∃ d, rtc (waits_for s) c d ∧ advances s d.
Proof. intros [I Mo _ _]%reachable_good. by apply busy_advances. Qed.

(** * Counts *)

(** C5: the statistics are exact: nr_iowait_cpu is the number of tasks that
    sleep for I/O on a processor and have not been taken from it, the
    context switches of the processors are those of the tasks, and the sum of
    nr_uninterruptible is the number of sleeping tasks that contribute to the
    load, modulo 2^64 although one processor alone may be negative. *)
Theorem statistics_exact m s : reachable m s →
  (∀ c, nr_iowait_cpu c s = sum_over (waits_io s c) (tasklist s)) ∧
  nr_context_switches s = wrapu64 (sum_over (λ p, nvcsw (tasks s p) + nivcsw (tasks s p)) (tasklist s)) ∧
  wrapu64 (sum_cpus (λ c, nr_uninterruptible (rqs s c))) = wrapu64 (sum_over (λ p, loads (tasks s p)) (tasklist s)).
Proof.
  intros [_ _ [K1 [k2 K2] [k3 K3]] _]%reachable_good. split_and!; [done| |].
  - unfold nr_context_switches. rewrite K3. unfold wrapu64. by rewrite Z.mod_add.
  - rewrite K2. unfold wrapu64. by rewrite Z.mod_add.
Qed.

(** [mm_count] of every memory is the number of its users, of the kernel
    threads that borrow it and of the references that a switch has still to
    drop; so the memory that a processor uses always has a reference. *)
Theorem memories_counted m s : reachable m s →
  (∀ x, mm_count s x = mm_users s x + sum_over (λ p, lazy x (tasks s p)) (tasklist s) + sum_cpus (λ c, owed x (rqs s c))) ∧
  (∀ c, c ∈ cpus → ∃ x, active_mm (tasks s (curr (rqs s c))) = Some x ∧ 1 ≤ mm_count s x).
Proof.
  intros [I Mo _ _]%reachable_good. split; [apply Mo|]. intros c Hc.
  destruct (active_mm (tasks s (curr (rqs s c)))) as [x|] eqn:E; [|by destruct (m_current _ Mo c Hc)].
  exists x. split; [done|]. rewrite (m_count _ Mo). pose proof (m_users _ Mo x).
  pose proof (sum_over_nonneg (λ p, lazy x (tasks s p)) (tasklist s) (λ p, lazy_nonneg _ _)).
  pose proof (sum_over_nonneg (λ c, owed x (rqs s c)) cpus (λ c, owed_nonneg _ _)). unfold sum_cpus.
  destruct (mm (tasks s (curr (rqs s c)))) as [y|] eqn:F.
  - destruct (m_user _ Mo _ _ F) as [G ?]. assert (y = x) as -> by congruence. lia.
  - destruct (p_curr _ (i_places _ I) c Hc) as (_ & _ & Hk & _).
    pose proof (sum_over_member (curr (rqs s c)) (λ p, lazy x (tasks s p)) (tasklist s) (λ p, lazy_nonneg _ _) Hk) as G.
    cbv beta in G. rewrite (lazy_kernel x _ F), decide_True in G by done. lia.
Qed.
End reachable.

(** * A machine with two processors *)

(** Processors 0 and 1 with the idle tasks 100 and 101 and different caches. *)
#[global] Instance two_processors : machine := {|
  cpus := [0; 1];
  idle c := 100 + c;
  cpu_active _ := true;
  sd_llc_id c := c;
  TTWU_QUEUE := true;
  nr_running s c := Z.of_nat (length (filter (λ p, on_rq (tasks s p) = 1 ∧ cpu (tasks s p) = c ∧ p < 100) (tasklist s)));
  vcpu_is_preempted _ := false;
|}.

(** Change 0: a user task gives up its memory as exit_mm does and keeps
    borrowing it; change [k]: a kernel thread takes the new memory [k]. *)
Definition others_use (s : state) (p m : Z) : bool :=
  existsb (λ q, negb (q =? p) && bool_decide (mm (tasks s q) = Some m)) (tasklist s).
#[global] Instance exit_and_exec : mm_code := {|
  change_mm k c s :=
    let p := curr (rqs s c) in let t := tasks s p in
    let result m a users :=
      Some (m, a, users, λ x, mm_count s x + (users x - mm_users s x) + (lazy x (with_active_mm a (with_mm m t)) - lazy x t)) in
    match mm t with
    | Some m =>
        if k =? 0 then result None (Some m) (if others_use s p m then mm_users s else <[m := mm_users s m - 1]> (mm_users s))
        else None
    | None => if k =? 0 then None else result (Some k) (Some k) (<[k := mm_users s k + 1]> (mm_users s))
    end;
|}.

#[global] Instance two_processors_ok : machine_ok.
Proof. split; [by apply (bool_decide_unpack _); vm_compute|]. intros c d _ _ H. cbn in H. lia. Qed.

#[global] Instance exit_and_exec_ok : mm_code_ok.
Proof.
  intros k c s m a users count Hc Mo H. cbn in H. set (p := curr (rqs s c)) in *.
  destruct (mm (tasks s p)) as [y|] eqn:E.
  - destruct (k =? 0); [|done]. injection H as <- <- <- <-. split_and!; try done.
    + intros x. case_match; [apply (m_users _ Mo)|]. destruct (m_user _ Mo _ _ E) as [_ ?].
      destruct (decide (x = y)) as [->|]; [rewrite fn_lookup_insert; lia|]. rewrite fn_lookup_insert_ne by done. apply (m_users _ Mo).
    + intros q x Hq F. destruct (m_user _ Mo _ _ F) as [_ ?]. destruct (others_use s p y) eqn:O; [done|].
      rewrite fn_lookup_insert_ne; [done|]. intros ->. unfold others_use in O. apply not_true_iff_false in O. apply O.
      apply existsb_exists. exists q. rewrite andb_true_iff, negb_true_iff, Z.eqb_neq, bool_decide_eq_true. split; [|done].
      apply list_elem_of_In. destruct (decide (q ∈ tasklist s)) as [|Hn]; [done|]. apply (m_unborn _ Mo) in Hn as [? _]. congruence.
  - destruct (k =? 0); [done|]. injection H as <- <- <- <-. pose proof (m_users _ Mo) as Hu. split_and!; try done.
    + intros x [= <-]. rewrite fn_lookup_insert. split; [done|]. specialize (Hu k). lia.
    + intros x. destruct (decide (x = k)) as [->|]; [rewrite fn_lookup_insert; specialize (Hu k); lia|]. by rewrite fn_lookup_insert_ne.
    + intros q x Hq F. destruct (m_user _ Mo _ _ F) as [_ ?].
      destruct (decide (x = k)) as [->|]; [rewrite fn_lookup_insert; lia|]. by rewrite fn_lookup_insert_ne.
Qed.

(** Task 1 is forked by the idle task of processor 0 and runs there with the
    memory 3; it sets its state, finds its condition false, and sleeps. *)
Definition schedule_to (p : Z) : list label := [Schedule 0; LoadState 0; Deactivate 0 false; Pick 0 p].
Definition finish_switch : list label := [SavePrev 0; FinishTask 0; FinishLockSwitch 0; DropPrev 0].
Definition task_runs : list label :=
  [Fork 0 1 None; Continue 0 0; Continue 0 0] ++ schedule_to 1 ++ finish_switch ++ [ChangeMm 0 3; SetIowait 0 true].
Definition task_sleeps : list label := task_runs ++ [LoopEnter 0; LoopTest 0] ++ schedule_to 100.
(** Processor 1 wakes it before it has left its run queue. *)
Definition task_woken : list label :=
  task_runs ++ [LoopEnter 0; LoopTest 0; Schedule 0; LoadState 0; SetCondition 1 1; Continue 1 1; Continue 1 1].
Definition task_dies : list label := task_runs ++ [DoTaskDead 0] ++ schedule_to 100 ++ [SavePrev 0; FinishTask 0].

Definition result (l : label) (s : state) : res state := default (Exit 0) (do l s).
Lemma result_some l s : found (do l s) = true → do l s = Some (result l s).
Proof. unfold result. by destruct (do l s). Qed.

Lemma every_step_defined_witness :
  (∃ s', result (SavePrev 0) (after task_sleeps 7) = Ok s') ∧ warned (after task_sleeps 7) = false.
Proof.
  apply (every_step_defined 7 (after task_sleeps 7) (SavePrev 0)).
  - apply after_reachable. vm_compute. reflexivity.
  - apply result_some. vm_compute. reflexivity.
Defined.

Lemma one_processor_witness :
  ∃ c, c ∈ cpus ∧ (curr (rqs (after task_sleeps 7) c) = 1 ∨ prev_of (at_ (rqs (after task_sleeps 7) c)) = Some 1).
Proof.
  assert (reachable 7 (after task_sleeps 7)) as H by (apply after_reachable; vm_compute; reflexivity).
  destruct (one_processor 7 (after task_sleeps 7) H) as (Hon & _). refine (proj1 (Hon 1) _). vm_compute. reflexivity.
Defined.

Lemma death_accounted_witness :
  current_ref (tasks (after task_dies 7) 1) = true ↔ ∃ c, buried_off (at_ (rqs (after task_dies 7) c)) = Some 1.
Proof.
  assert (reachable 7 (after task_dies 7)) as H by (apply after_reachable; vm_compute; reflexivity).
  assert (1 ∈ tasklist (after task_dies 7)) as Hk by (apply (bool_decide_unpack _); vm_compute; exact I).
  destruct (death_accounted 7 (after task_dies 7) 1 H Hk) as (Hd & _).
  refine (proj1 (proj2 (Hd _ _))); vm_compute; reflexivity.
Defined.

Lemma wakeup_not_lost_witness :
  let s := after task_woken 7 in
  (st (tasks s 1) = TASK_RUNNING ∧ on_rq (tasks s 1) ≠ 0) ∨
  (∃ c a, c ∈ cpus ∧ doing (rqs s c) = Some a ∧ (wakes 1 a ∨ late a = Some 1)) ∨ 1 ∈ pending s (cpu (tasks s 1)).
Proof.
  apply (wakeup_not_lost 7 (after task_woken 7) 1).
  - apply after_reachable. vm_compute. reflexivity.
  - right. vm_compute. reflexivity.
  - vm_compute. reflexivity.
Defined.

Lemma some_processor_advances_witness :
  ∃ d, rtc (waits_for (after task_woken 7)) 1 d ∧ advances (after task_woken 7) d.
Proof.
  apply (some_processor_advances 7 (after task_woken 7) 1).
  - apply after_reachable. vm_compute. reflexivity.
  - right. vm_compute. discriminate.
Defined.

Lemma statistics_exact_witness :
  nr_iowait_cpu 0 (after task_sleeps 7) = sum_over (waits_io (after task_sleeps 7) 0) (tasklist (after task_sleeps 7)) ∧
  nr_iowait_cpu 0 (after task_sleeps 7) = 1.
Proof.
  assert (reachable 7 (after task_sleeps 7)) as H by (apply after_reachable; vm_compute; reflexivity).
  split; [exact (proj1 (statistics_exact 7 (after task_sleeps 7) H) 0)|vm_compute; reflexivity].
Defined.

Lemma memories_counted_witness :
  ∃ x, active_mm (tasks (after task_sleeps 7) (curr (rqs (after task_sleeps 7) 0))) = Some x ∧ 1 ≤ mm_count (after task_sleeps 7) x.
Proof.
  assert (reachable 7 (after task_sleeps 7)) as H by (apply after_reachable; vm_compute; reflexivity).
  refine (proj2 (memories_counted 7 (after task_sleeps 7) H) 0 _). apply (bool_decide_unpack _). vm_compute. exact I.
Defined.
