(* ===== verification/Hotplug.v ===== *)
(** Processors that come and go in the kernel of assignment 4
    (src/과제/OS과제/과제4/core.c): [sched_cpu_starting], [sched_cpu_activate],
    [sched_cpu_deactivate], [sched_cpu_wait_empty] and [sched_cpu_dying], the
    balance callbacks with [balance_push], which drives the tasks off a
    processor that goes, and the remote tick of processors without a tick. A
    thread takes one processor up or down at a time, as kernel/cpu.c does, and
    its regions under a lock are interleaved with what the processors and the
    work queue do. The configuration has CONFIG_SMP, CONFIG_HOTPLUG_CPU,
    CONFIG_SCHED_SMT and CONFIG_NO_HZ_FULL. *)
From S2P Require Import Prelude.
Local Open Scope Z_scope.

(** * Data *)

Definition EBUSY : Z := 16.
Definition TICK_SCHED_REMOTE_OFFLINE : Z := 0.
Definition TICK_SCHED_REMOTE_OFFLINING : Z := 1.
Definition TICK_SCHED_REMOTE_RUNNING : Z := 2.
Definition NSEC_PER_SEC : Z := 1000000000.

(** The callbacks of a run queue: the one for a processor that goes, and the
    others, of the scheduling classes. *)
Inductive callback : Set := balance_push_callback | Callback (k : Z).
#[global] Instance callback_eq_dec : EqDecision callback.
Proof. solve_decision. Defined.

(** How far a processor is up: [Started] after [sched_cpu_starting],
    [Inactive] after [sched_cpu_deactivate]. *)
Inductive phase : Set := Offline | Started | Active | Inactive.
#[global] Instance phase_eq_dec : EqDecision phase.
Proof. solve_decision. Defined.

(** The last request to the code that builds the scheduling domains. *)
Inductive domains : Set := InitDomains | OneDomain | CpusetDomains.
#[global] Instance domains_eq_dec : EqDecision domains.
Proof. solve_decision. Defined.

(** Where [sched_tick_remote] is. *)
Inductive remote_place : Set := Ticking | Ticked | Requeue.

(** [struct tick_work]: [queued] counts how often its work is in the queue. *)
Record tick_work := TickWork {
  tick_state : Z;
  queued : Z;
  remote : option remote_place;
  handled : Z;              (** ticks that were handled *)
}.

Record rq := Rq {
  nr_running : Z;
  nr_pinned : Z;
  curr : Z;
  curr_disabled : bool;     (** [is_migration_disabled(rq->curr)] *)
  balance_push_on : bool;   (** [rq->balance_push] *)
  balance_callback : list callback;
  hotplug_wait : bool;      (** somebody sleeps in [rq->hotplug_wait] *)
}.

(** The root domain of each run queue, [rq->online], and [span] and [online]
    of each root domain. *)
Record roots := Roots {
  rd : Z → option Z;
  online : Z → bool;
  rd_span : Z → Z → bool;
  rd_online : Z → Z → bool;
}.

(** What only the thread that takes processors up and down changes. *)
Record core := Core {
  at_phase : Z → phase;
  cpu_active : Z → bool;
  root : roots;
  sched_smt_present : Z;
  num_cpus_frozen : Z;
  asked : domains;
  sched_smp_initialized : bool;
  cpuhp_tasks_frozen : bool;
  frozen_cpus : list Z;
  busy : option Z;
  ret : Z;
}.

(** The regions that the thread still has to go through. *)
Inductive action : Set :=
  | BalancePushSet (c : Z) (on : bool)
  | SmtPresent (c : Z) (up : bool)
  | SetCpuActive (c : Z) (on : bool)
  | CpusetCpuActive
  | CpusetCpuInactive (c : Z)
  | SetRqOnline (c : Z)
  | SetRqOffline (c : Z)
  | SynchronizeRcu
  | RcuDone
  | SchedTickStart (c : Z)
  | SchedTickStop (c : Z)
  | BalanceHotplugWait (c : Z)
  | CheckVacated (c : Z)
  | CalcLoadMigrate (c : Z)
  | Finish (c : Z) (x : phase).
#[global] Instance action_eq_dec : EqDecision action.
Proof. solve_decision. Defined.

(** [held]: the callbacks that a processor has spliced from a run queue;
    [push_work]: the run queue and the task of the [push_work] of a processor;
    [refs]: references to tasks; [ran]: the callbacks of the classes that were
    called; [warned]: a WARN has fired. *)
Record state := State {
  hot : core;
  todo : list action;
  rqs : Z → rq;
  ticks : Z → tick_work;
  held : Z → option (Z * list callback);
  rcu_waits : list Z;
  push_work : Z → option (Z * Z);
  refs : Z → Z;
  calc_load_tasks : Z;
  ran : list (Z * Z);
  warned : bool;
}.

Definition with_hot (v : core) (s : state) : state :=
  State v (todo s) (rqs s) (ticks s) (held s) (rcu_waits s) (push_work s) (refs s) (calc_load_tasks s) (ran s) (warned s).
Definition with_todo (v : list action) (s : state) : state :=
  State (hot s) v (rqs s) (ticks s) (held s) (rcu_waits s) (push_work s) (refs s) (calc_load_tasks s) (ran s) (warned s).
Definition with_rqs (v : Z → rq) (s : state) : state :=
  State (hot s) (todo s) v (ticks s) (held s) (rcu_waits s) (push_work s) (refs s) (calc_load_tasks s) (ran s) (warned s).
Definition with_ticks (v : Z → tick_work) (s : state) : state :=
  State (hot s) (todo s) (rqs s) v (held s) (rcu_waits s) (push_work s) (refs s) (calc_load_tasks s) (ran s) (warned s).
Definition with_held (v : Z → option (Z * list callback)) (s : state) : state :=
  State (hot s) (todo s) (rqs s) (ticks s) v (rcu_waits s) (push_work s) (refs s) (calc_load_tasks s) (ran s) (warned s).
Definition with_rcu_waits (v : list Z) (s : state) : state :=
  State (hot s) (todo s) (rqs s) (ticks s) (held s) v (push_work s) (refs s) (calc_load_tasks s) (ran s) (warned s).
Definition with_push_work (v : Z → option (Z * Z)) (s : state) : state :=
  State (hot s) (todo s) (rqs s) (ticks s) (held s) (rcu_waits s) v (refs s) (calc_load_tasks s) (ran s) (warned s).
Definition with_refs (v : Z → Z) (s : state) : state :=
  State (hot s) (todo s) (rqs s) (ticks s) (held s) (rcu_waits s) (push_work s) v (calc_load_tasks s) (ran s) (warned s).
Definition with_calc_load_tasks (v : Z) (s : state) : state :=
  State (hot s) (todo s) (rqs s) (ticks s) (held s) (rcu_waits s) (push_work s) (refs s) v (ran s) (warned s).
Definition with_ran (v : list (Z * Z)) (s : state) : state :=
  State (hot s) (todo s) (rqs s) (ticks s) (held s) (rcu_waits s) (push_work s) (refs s) (calc_load_tasks s) v (warned s).
Definition warn (s : state) : state :=
  State (hot s) (todo s) (rqs s) (ticks s) (held s) (rcu_waits s) (push_work s) (refs s) (calc_load_tasks s) (ran s) true.

Definition upd_rq (c : Z) (f : rq → rq) (s : state) : state := with_rqs (<[c := f (rqs s c)]> (rqs s)) s.
Definition upd_tick (c : Z) (f : tick_work → tick_work) (s : state) : state := with_ticks (<[c := f (ticks s c)]> (ticks s)) s.

Definition with_callbacks (l : list callback) (r : rq) : rq :=
  Rq (nr_running r) (nr_pinned r) (curr r) (curr_disabled r) (balance_push_on r) l (hotplug_wait r).
Definition with_push (on : bool) (r : rq) : rq :=
  Rq (nr_running r) (nr_pinned r) (curr r) (curr_disabled r) on (balance_callback r) (hotplug_wait r).
Definition with_wait (b : bool) (r : rq) : rq :=
  Rq (nr_running r) (nr_pinned r) (curr r) (curr_disabled r) (balance_push_on r) (balance_callback r) b.
Definition with_counts (n k : Z) (r : rq) : rq :=
  Rq n k (curr r) (curr_disabled r) (balance_push_on r) (balance_callback r) (hotplug_wait r).
Definition with_curr (p : Z) (b : bool) (r : rq) : rq :=
  Rq (nr_running r) (nr_pinned r) p b (balance_push_on r) (balance_callback r) (hotplug_wait r).

Definition with_tick_state (v : Z) (t : tick_work) : tick_work := TickWork v (queued t) (remote t) (handled t).
Definition with_remote (v : option remote_place) (t : tick_work) : tick_work := TickWork (tick_state t) (queued t) v (handled t).
Definition with_queued (n : Z) (t : tick_work) : tick_work := TickWork (tick_state t) n (remote t) (handled t).
Definition with_handled (n : Z) (t : tick_work) : tick_work := TickWork (tick_state t) (queued t) (remote t) n.

Definition set_phase (c : Z) (x : phase) (h : core) : core :=
  Core (<[c := x]> (at_phase h)) (cpu_active h) (root h) (sched_smt_present h) (num_cpus_frozen h) (asked h)
    (sched_smp_initialized h) (cpuhp_tasks_frozen h) (frozen_cpus h) (busy h) (ret h).
Definition set_cpu_active (c : Z) (on : bool) (h : core) : core :=
  Core (at_phase h) (<[c := on]> (cpu_active h)) (root h) (sched_smt_present h) (num_cpus_frozen h) (asked h)
    (sched_smp_initialized h) (cpuhp_tasks_frozen h) (frozen_cpus h) (busy h) (ret h).
Definition with_root (r : roots) (h : core) : core :=
  Core (at_phase h) (cpu_active h) r (sched_smt_present h) (num_cpus_frozen h) (asked h)
    (sched_smp_initialized h) (cpuhp_tasks_frozen h) (frozen_cpus h) (busy h) (ret h).
Definition with_smt (n : Z) (h : core) : core :=
  Core (at_phase h) (cpu_active h) (root h) n (num_cpus_frozen h) (asked h)
    (sched_smp_initialized h) (cpuhp_tasks_frozen h) (frozen_cpus h) (busy h) (ret h).
Definition with_num_frozen (n : Z) (h : core) : core :=
  Core (at_phase h) (cpu_active h) (root h) (sched_smt_present h) n (asked h)
    (sched_smp_initialized h) (cpuhp_tasks_frozen h) (frozen_cpus h) (busy h) (ret h).
Definition with_asked (x : domains) (h : core) : core :=
  Core (at_phase h) (cpu_active h) (root h) (sched_smt_present h) (num_cpus_frozen h) x
    (sched_smp_initialized h) (cpuhp_tasks_frozen h) (frozen_cpus h) (busy h) (ret h).
Definition with_smp (h : core) : core :=
  Core (at_phase h) (cpu_active h) (root h) (sched_smt_present h) (num_cpus_frozen h) (asked h)
    true (cpuhp_tasks_frozen h) (frozen_cpus h) (busy h) (ret h).
Definition with_tasks_frozen (b : bool) (h : core) : core :=
  Core (at_phase h) (cpu_active h) (root h) (sched_smt_present h) (num_cpus_frozen h) (asked h)
    (sched_smp_initialized h) b (frozen_cpus h) (busy h) (ret h).
Definition with_frozen (l : list Z) (h : core) : core :=
  Core (at_phase h) (cpu_active h) (root h) (sched_smt_present h) (num_cpus_frozen h) (asked h)
    (sched_smp_initialized h) (cpuhp_tasks_frozen h) l (busy h) (ret h).
Definition with_busy (o : option Z) (h : core) : core :=
  Core (at_phase h) (cpu_active h) (root h) (sched_smt_present h) (num_cpus_frozen h) (asked h)
    (sched_smp_initialized h) (cpuhp_tasks_frozen h) (frozen_cpus h) o (ret h).
Definition with_ret (n : Z) (h : core) : core :=
  Core (at_phase h) (cpu_active h) (root h) (sched_smt_present h) (num_cpus_frozen h) (asked h)
    (sched_smp_initialized h) (cpuhp_tasks_frozen h) (frozen_cpus h) (busy h) n.

(** * What the model takes from the machine and from other files *)

(** The processors, their cores, the processors that keep their tick, the idle
    and stopper tasks; the code of topology.c and cpuset.c that puts the run
    queues into root domains, and the one of loadavg.c and of
    queue_balance_callback. *)
Class platform := {
  possible : list Z;
  boot_cpu : Z;
  core_of : Z → Z;
  housekeeping_cpu : Z → bool;
  idle : Z → Z;
  stopper : Z → Z;
  kthread_is_per_cpu : Z → bool;
  boot_roots : roots;
  build_domains : domains → (Z → bool) → roots → roots;
  calc_load_fold_active : state → Z → Z → Z;
  queue_balance_callback : bool → Z → list callback → list callback;
}.

Section platform.
Context `{!platform}.

Implicit Types (s : state) (h : core) (c w p k n : Z).

(** * Balance callbacks *)

Definition rq_has_pinned_tasks (r : rq) : bool := negb (nr_pinned r =? 0).
Definition put_task_struct p s : state := with_refs (<[p := refs s p - 1]> (refs s)) s.
Definition get_task_struct p s : state := with_refs (<[p := refs s p + 1]> (refs s)) s.

(** [stop_one_cpu_nowait(c, __balance_push_cpu_stop, p, this_cpu_ptr(&push_work))]
    on processor [w]: the work of [w] must not be in a queue. *)
Definition stop_one_cpu_nowait w c p s : res state :=
  match push_work s w with
  | Some _ => Undef QueuedTwice
  | None => Ok (with_push_work (<[w := Some (c, p)]> (push_work s)) s)
  end.

(** The work of [w] will run on [c]. *)
Definition work_for c w s : bool :=
  match push_work s w with Some (d, _) => d =? c | None => false end.
Definition stop_pending c s : bool := existsb (λ w, work_for c w s) possible.

(** [balance_push] of the run queue of [c] on processor [w]. *)
Definition balance_push w c s : res state :=
  let r := rqs s c in
  let push_task := curr r in
  let s := if c =? w then s else warn s in
  let s := upd_rq c (with_callbacks [balance_push_callback]) s in
  if (idle c =? push_task) || kthread_is_per_cpu push_task || curr_disabled r then
    if (nr_running r =? 0) && negb (rq_has_pinned_tasks r) && hotplug_wait r
    then Ok (upd_rq c (with_wait false) s)
    else Ok s
  else stop_one_cpu_nowait w c push_task (get_task_struct push_task s).

Definition run_callback w c (cb : callback) s : res state :=
  match cb with
  | balance_push_callback => balance_push w c s
  | Callback k => Ok (with_ran (ran s ++ [(c, k)]) s)
  end.

Fixpoint do_balance_callbacks w c (head : list callback) s : res state :=
  match head with
  | [] => Ok s
  | cb :: next => s ← run_callback w c cb s; do_balance_callbacks w c next s
  end.

Definition splice_balance_callbacks c s : list callback * state :=
  let head := balance_callback (rqs s c) in
  (head, match head with [] => s | _ :: _ => upd_rq c (with_callbacks []) s end).

Definition __balance_callbacks w c s : res state :=
  let '(head, s) := splice_balance_callbacks c s in do_balance_callbacks w c head s.

Definition balance_callbacks w c (head : list callback) s : res state :=
  match head with [] => Ok s | _ :: _ => do_balance_callbacks w c head s end.

(** The scheduling classes queue the callbacks [ks]. *)
Definition queue_all c (ks : list Z) s : state :=
  let r := rqs s c in
  upd_rq c (with_callbacks (foldl (λ l k, queue_balance_callback (balance_push_on r) k l) (balance_callback r) ks)) s.

(** [__balance_push_cpu_stop] for the work of [w], which is about a task on
    the run queue of [c] or not, and moves it to [dest]. *)
Definition __balance_push_cpu_stop w (on_this_rq : bool) (dest : Z) s : state :=
  match push_work s w with
  | None => s
  | Some (c, p) =>
      let s := with_push_work (<[w := None]> (push_work s)) s in
      let s :=
        if on_this_rq then
          let s := upd_rq c (λ r, with_counts (nr_running r - 1) (nr_pinned r) r) s in
          upd_rq dest (λ r, with_counts (nr_running r + 1) (nr_pinned r) r) s
        else s in
      put_task_struct p s
  end.

Definition balance_push_set c (on : bool) s : state :=
  let s := upd_rq c (with_push on) s in
  if on then
    let s := match balance_callback (rqs s c) with [] => s | _ :: _ => warn s end in
    upd_rq c (with_callbacks [balance_push_callback]) s
  else if decide (head (balance_callback (rqs s c)) = Some balance_push_callback)
  then upd_rq c (with_callbacks []) s
  else s.

(** * The remote tick *)

(** INIT_DELAYED_WORK must not hit a work that is queued or runs. *)
Definition init_and_queue c s : res state :=
  let t := ticks s c in
  if decide (queued t = 0 ∧ remote t = None) then Ok (upd_tick c (with_queued 1) s) else Undef QueuedTwice.

Definition sched_tick_start c s : res state :=
  if housekeeping_cpu c then Ok s
  else
    let os := tick_state (ticks s c) in
    let s := upd_tick c (with_tick_state TICK_SCHED_REMOTE_RUNNING) s in
    let s := if os =? TICK_SCHED_REMOTE_RUNNING then warn s else s in
    if os =? TICK_SCHED_REMOTE_OFFLINE then init_and_queue c s else Ok s.

Definition sched_tick_stop c s : state :=
  if housekeeping_cpu c then s
  else
    let os := tick_state (ticks s c) in
    let s := upd_tick c (with_tick_state TICK_SCHED_REMOTE_OFFLINING) s in
    if os =? TICK_SCHED_REMOTE_RUNNING then s else warn s.

(** The work queue starts the work of [c]. *)
Definition work_starts c s : option (res state) :=
  let t := ticks s c in
  if decide (1 ≤ queued t) then
    Some (match remote t with
          | None => Ok (upd_tick c (λ t, with_remote (Some Ticking) (with_queued (queued t - 1) t)) s)
          | Some _ => Undef QueuedTwice
          end)
  else None.

(** The next step of [sched_tick_remote]; [stopped] is the answer of
    tick_nohz_tick_stopped_cpu, [delta] the time for which the current task
    has run without a tick. *)
Definition sched_tick_remote c (stopped : bool) (delta : Z) s : option state :=
  let t := ticks s c in
  match remote t with
  | None => None
  | Some Ticking =>
      let s := if stopped && negb (bool_decide (at_phase (hot s) c = Offline))
               then
                 let s := if negb (curr (rqs s c) =? idle c) && (NSEC_PER_SEC * 3 <? delta) then warn s else s in
                 upd_tick c (λ t, with_handled (handled t + 1) t) s
               else s in
      Some (upd_tick c (with_remote (Some Ticked)) s)
  | Some Ticked =>
      let os := tick_state t in
      let s := if os =? TICK_SCHED_REMOTE_RUNNING then s else upd_tick c (with_tick_state (os - 1)) s in
      let s := if os =? TICK_SCHED_REMOTE_OFFLINE then warn s else s in
      Some (upd_tick c (with_remote (if os =? TICK_SCHED_REMOTE_RUNNING then Some Requeue else None)) s)
  | Some Requeue =>
      Some (upd_tick c (λ t, with_remote None (with_queued (if queued t =? 0 then 1 else queued t) t)) s)
  end.

(** * Root domains, scheduling domains and the other masks *)

Definition set_rq_online c (r : roots) : res roots :=
  if online r c then Ok r
  else d ← opt NullPointer (rd r c);
       Ok (Roots (rd r) (<[c := true]> (online r)) (rd_span r) (<[d := <[c := true]> (rd_online r d)]> (rd_online r))).
Definition set_rq_offline c (r : roots) : res roots :=
  if online r c then
    d ← opt NullPointer (rd r c);
    Ok (Roots (rd r) (<[c := false]> (online r)) (rd_span r) (<[d := <[c := false]> (rd_online r d)]> (rd_online r)))
  else Ok r.

(** The regions of [sched_cpu_activate] and [sched_cpu_deactivate] that call
    them. *)
Definition in_root_domain c (f : roots → res roots) h : res core :=
  match rd (root h) c with
  | None => Ok h
  | Some d => if rd_span (root h) d c then r ← f (root h); Ok (with_root r h) else Undef BugOn
  end.

Definition request (x : domains) h : core :=
  with_asked x (with_root (build_domains x (cpu_active h) (root h)) h).

Definition cpuset_cpu_active h : core :=
  if cpuhp_tasks_frozen h then
    let h := request OneDomain h in
    let h := with_num_frozen (num_cpus_frozen h - 1) h in
    if negb (num_cpus_frozen h =? 0) then h else request CpusetDomains h
  else request CpusetDomains h.

(** The answer is the error, or 0. *)
Definition cpuset_cpu_inactive (dl_cpu_busy : bool) h : Z * core :=
  if negb (cpuhp_tasks_frozen h) then
    if dl_cpu_busy then (- EBUSY, h) else (0, request CpusetDomains h)
  else (0, request OneDomain (with_num_frozen (num_cpus_frozen h + 1) h)).

(** [cpumask_weight(cpu_smt_mask(c))]: the processors of the core that are up. *)
Definition smt_weight c h : Z :=
  Z.of_nat (length (filter (λ d, core_of d = core_of c ∧ at_phase h d ≠ Offline) possible)).

Definition smt_present c (up : bool) h : core :=
  if smt_weight c h =? 2
  then with_smt (sched_smt_present h + (if up then 1 else -1)) h
  else h.

(** * Up and down *)

(** The parts after the test of [sched_smp_initialized]. *)
Definition activate_domains h : core := if sched_smp_initialized h then cpuset_cpu_active h else h.
Definition deactivate_domains (dl_cpu_busy : bool) h : Z * core :=
  if sched_smp_initialized h then cpuset_cpu_inactive dl_cpu_busy h else (0, h).

Definition sched_cpu_starting c : list action := [SchedTickStart c].
Definition sched_cpu_activate c : list action :=
  [BalancePushSet c false; SmtPresent c true; SetCpuActive c true; CpusetCpuActive; SetRqOnline c].
Definition sched_cpu_deactivate c : list action :=
  [SetCpuActive c false; BalancePushSet c true; SynchronizeRcu; RcuDone; SetRqOffline c; SmtPresent c false; CpusetCpuInactive c].
Definition sched_cpu_wait_empty c : list action := [BalanceHotplugWait c].
Definition sched_cpu_dying c : list action := [SchedTickStop c; CheckVacated c; BalancePushSet c false; CalcLoadMigrate c].

(** The end of [sched_cpu_deactivate] when [cpuset_cpu_inactive] has failed. *)
Definition deactivate_failed c : list action := [BalancePushSet c false; SetCpuActive c true; Finish c Active].

(** The thread has brought [c] to [x]. *)
Definition finish c (x : phase) h : core :=
  let h := set_phase c x h in
  let h := if cpuhp_tasks_frozen h then
             match x with
             | Inactive => with_frozen (c :: frozen_cpus h) h
             | Active => with_frozen (filter (λ d, d ≠ c) (frozen_cpus h)) h
             | _ => h
             end
           else h in
  match x with Active | Offline => with_busy None h | _ => h end.

Definition lift (r : res core) s : res state := h ← r; Ok (with_hot h s).

(** One region; None while it waits. *)
Definition act (dl_cpu_busy : bool) (a : action) s : option (res state) :=
  match a with
  | BalancePushSet c on => Some (Ok (balance_push_set c on s))
  | SmtPresent c up => Some (Ok (with_hot (smt_present c up (hot s)) s))
  | SetCpuActive c on => Some (Ok (with_hot (set_cpu_active c on (hot s)) s))
  | CpusetCpuActive => Some (Ok (with_hot (activate_domains (hot s)) s))
  | CpusetCpuInactive c =>
      let '(e, h) := deactivate_domains dl_cpu_busy (hot s) in
      let s := with_hot (with_ret e h) s in
      Some (Ok (if e =? 0 then s else with_todo (deactivate_failed c) s))
  | SetRqOnline c => Some (lift (in_root_domain c (set_rq_online c) (hot s)) s)
  | SetRqOffline c => Some (lift (in_root_domain c (set_rq_offline c) (hot s)) s)
  | SynchronizeRcu => Some (Ok (with_rcu_waits (filter (λ w, held s w ≠ None) possible) s))
  | RcuDone => match rcu_waits s with [] => Some (Ok s) | _ :: _ => None end
  | SchedTickStart c => Some (sched_tick_start c s)
  | SchedTickStop c => Some (Ok (sched_tick_stop c s))
  | BalanceHotplugWait c =>
      let r := rqs s c in
      if hotplug_wait r then None
      else if (nr_running r =? 1) && negb (rq_has_pinned_tasks r) then Some (Ok s)
      else Some (Ok (with_todo (BalanceHotplugWait c :: todo s) (upd_rq c (with_wait true) s)))
  | CheckVacated c =>
      let r := rqs s c in
      Some (Ok (if negb (nr_running r =? 1) || rq_has_pinned_tasks r then warn s else s))
  | CalcLoadMigrate c =>
      let delta := calc_load_fold_active s c 1 in
      Some (Ok (if delta =? 0 then s else with_calc_load_tasks (calc_load_tasks s + delta) s))
  | Finish c x => Some (Ok (with_hot (finish c x (hot s)) s))
  end.

Definition begin (c : Z) (tasks_frozen : bool) (l : list action) s : state :=
  with_todo l (with_hot (with_ret 0 (with_tasks_frozen tasks_frozen (with_busy (Some c) (hot s)))) s).

(** * The machine *)

(** [Up] and [Down] begin to take a processor up or down, with the tasks
    frozen when it is part of a suspend or resume; [Activate], [Die]: the
    next half, or the way back when a callback of another subsystem has
    failed; [Hot]: the thread's next region, with the answer of dl_cpu_busy.
    [Pick]: [__schedule] of a processor puts a task on it, which leaves [n]
    tasks runnable and [k] pinned, and runs the callbacks; [SetPrio]: a
    region of [rt_mutex_setprio]; [Splice] and [RunSpliced]: the two halves
    of [__sched_setscheduler]; [PushStop]: the stopper of a processor;
    [Counts]: tasks wake up or leave, or the current task disables or enables
    its migration; [WorkStarts] and [Remote]: the remote tick. *)
Inductive label : Set :=
  | SchedInitSmp
  | Up (c : Z) (tasks_frozen : bool)
  | Activate (c : Z)
  | Down (c : Z) (tasks_frozen : bool)
  | Die (c : Z)
  | Hot (dl_cpu_busy : bool)
  | Pick (c p : Z) (disabled : bool) (n k : Z) (ks : list Z)
  | SetPrio (w c : Z) (ks : list Z)
  | Splice (w c : Z) (ks : list Z)
  | RunSpliced (w : Z)
  | PushStop (w : Z) (on_this_rq : bool) (dest : Z)
  | Counts (c : Z) (disabled : bool) (n k : Z)
  | WorkStarts (c : Z)
  | Remote (c : Z) (stopped : bool) (delta : Z).

(** The conditions under which kernel/cpu.c begins: one processor at a time,
    and only suspend and resume while processors are down for a suspend. *)
Definition may_begin c (tasks_frozen : bool) (x : phase) s : Prop :=
  c ∈ possible ∧ busy (hot s) = None ∧ todo s = [] ∧ at_phase (hot s) c = x ∧
  (if tasks_frozen then sched_smp_initialized (hot s) = true ∧ (x = Offline → c ∈ frozen_cpus (hot s))
   else frozen_cpus (hot s) = []).
#[export] Instance may_begin_dec c b x s : Decision (may_begin c b x s).
Proof. unfold may_begin. destruct b; apply _. Defined.

Definition may_continue c s : Prop :=
  busy (hot s) = Some c ∧ todo s = [] ∧ (at_phase (hot s) c = Started ∨ at_phase (hot s) c = Inactive).

Definition sched_init_smp s : state :=
  with_hot (with_smp (request InitDomains (hot s))) s.

Definition do_hot (l : label) s : option (res state) :=
  match l with
  | SchedInitSmp =>
      if decide (busy (hot s) = None ∧ todo s = [] ∧ sched_smp_initialized (hot s) = false) then Some (Ok (sched_init_smp s)) else None
  | Up c fr => if decide (may_begin c fr Offline s) then Some (Ok (begin c fr (sched_cpu_starting c ++ [Finish c Started]) s)) else None
  | Down c fr => if decide (may_begin c fr Active s) then Some (Ok (begin c fr (sched_cpu_deactivate c ++ [Finish c Inactive]) s)) else None
  | Activate c =>
      if decide (may_continue c s) then Some (Ok (with_todo (sched_cpu_activate c ++ [Finish c Active]) s)) else None
  | Die c =>
      if decide (may_continue c s)
      then Some (Ok (with_todo (sched_cpu_wait_empty c ++ sched_cpu_dying c ++ [Finish c Offline]) s)) else None
  | Hot b => match todo s with [] => None | a :: l => act b a (with_todo l s) end
  | _ => None
  end.

(** While a push work for [c] is pending its stopper comes next. *)
Definition do_callbacks (l : label) s : option (res state) :=
  match l with
  | Pick c p b n k ks =>
      if decide (c ∈ possible ∧ (stop_pending c s = true → p = stopper c)) then
        let s := upd_rq c (λ r, with_counts n k (with_curr p b r)) s in
        Some (__balance_callbacks c c (queue_all c ks s))
      else None
  | SetPrio w c ks =>
      if decide (w ∈ possible ∧ c ∈ possible ∧ stop_pending w s = false) then Some (__balance_callbacks w c (queue_all c ks s)) else None
  | Splice w c ks =>
      if decide (w ∈ possible ∧ c ∈ possible ∧ held s w = None) then
        let '(head, s) := splice_balance_callbacks c (queue_all c ks s) in
        Some (Ok (with_held (<[w := Some (c, head)]> (held s)) s))
      else None
  | RunSpliced w =>
      match held s w with
      | None => None
      | Some (c, head) =>
          let s := with_held (<[w := None]> (held s)) s in
          let s := with_rcu_waits (filter (λ v, v ≠ w) (rcu_waits s)) s in
          Some (balance_callbacks w c head s)
      end
  | PushStop w on_this_rq dest =>
      match push_work s w with
      | Some (c, _) => if curr (rqs s c) =? stopper c then Some (Ok (__balance_push_cpu_stop w on_this_rq dest s)) else None
      | None => None
      end
  | Counts c b n k => Some (Ok (upd_rq c (λ r, with_counts n k (with_curr (curr r) b r)) s))
  | _ => None
  end.

Definition do (l : label) s : option (res state) :=
  match l with
  | SchedInitSmp | Up _ _ | Down _ _ | Activate _ | Die _ | Hot _ => do_hot l s
  | WorkStarts c => work_starts c s
  | Remote c stopped delta => Ok <$> sched_tick_remote c stopped delta s
  | _ => do_callbacks l s
  end.

Definition step s s' : Prop := ∃ l, do l s = Some (Ok s').

(** The machine after [migration_init], which calls [sched_cpu_starting] for
    the processor that boots. *)
Definition boot_core : core := {|
  at_phase c := if c =? boot_cpu then Active else Offline;
  cpu_active c := c =? boot_cpu;
  root := boot_roots;
  sched_smt_present := 0;
  num_cpus_frozen := 0;
  asked := InitDomains;
  sched_smp_initialized := false;
  cpuhp_tasks_frozen := false;
  frozen_cpus := [];
  busy := None;
  ret := 0;
|}.
Definition boot : state := {|
  hot := boot_core;
  todo := [];
  rqs c := Rq 0 0 (idle c) false false [] false;
  ticks c := TickWork TICK_SCHED_REMOTE_OFFLINE 0 None 0;
  held _ := None;
  rcu_waits := [];
  push_work _ := None;
  refs _ := 0;
  calc_load_tasks := 0;
  ran := [];
  warned := false;
|}.
Definition migration_init : state := match sched_tick_start boot_cpu boot with Ok s => s | _ => boot end.
End platform.
