(* ===== verification/HotplugInv.v ===== *)
(** The invariants of Hotplug: what the thread that takes processors up and
    down still has to do leads to a state in which every processor is as its
    phase says, whatever the other processors do meanwhile. *)
From S2P Require Import Prelude Hotplug.
Local Open Scope Z_scope.

(** * The promises of the other files *)

(** Every run queue is in a root domain, whose mask says which are online. *)
Definition roots_ok `{!platform} (r : roots) : Prop :=
  ∀ c, c ∈ possible → ∃ d, rd r c = Some d ∧ rd_span r d c = true ∧ rd_online r d c = online r c.
Definition online_active (act : Z → bool) (r : roots) : Prop := ∀ c, online r c = true → act c = true.

(** New domains keep the run queues of active processors online and put no
    other online; a callback is queued in front unless the processor goes. *)
Class platform_ok `{!platform} : Prop := {
  possible_nodup : NoDup possible;
  boot_possible : boot_cpu ∈ possible;
  stopper_per_cpu c : c ∈ possible → kthread_is_per_cpu (stopper c) = true;
  boot_roots_ok : roots_ok boot_roots;
  boot_online c : online boot_roots c = (c =? boot_cpu);
  build_roots x act r : roots_ok r → online_active act r → roots_ok (build_domains x act r);
  build_active x act r : roots_ok r → online_active act r → online_active act (build_domains x act r);
  build_online x act r c : online r c = true → act c = true → online (build_domains x act r) c = true;
  queue_pushing k l : queue_balance_callback true k l = l;
  queue_normal k l : queue_balance_callback false k l = l ∨ queue_balance_callback false k l = Callback k :: l;
}.

Section invariants.
Context `{P : platform} {PO : platform_ok}.
Implicit Types (s t : state) (h : core) (c w p k n : Z).

(** * What the other processors leave alone *)

Definition pushing s c : bool := balance_push_on (rqs s c).
Definition ticking s c : bool := tick_state (ticks s c) =? TICK_SCHED_REMOTE_RUNNING.

Record frame s t : Prop := Frame {
  f_hot : hot t = hot s;
  f_todo : todo t = todo s;
  f_push c : pushing t c = pushing s c;
  f_tick c : ticking t c = ticking s c;
}.

Lemma frame_refl s : frame s s.
Proof. by split. Qed.
Lemma frame_trans s t u : frame s t → frame t u → frame s u.
Proof. intros [] []. split; congruence. Qed.

(** A change of a run queue that keeps [balance_push]. *)
Lemma frame_upd_rq c f s : balance_push_on (f (rqs s c)) = balance_push_on (rqs s c) → frame s (upd_rq c f s).
Proof.
  intros H. split; try done. intros d. unfold pushing. simpl.
  destruct (decide (d = c)) as [->|]; [by rewrite fn_lookup_insert|by rewrite fn_lookup_insert_ne].
Qed.
Lemma frame_upd_tick c f s :
  (tick_state (f (ticks s c)) =? TICK_SCHED_REMOTE_RUNNING) = (tick_state (ticks s c) =? TICK_SCHED_REMOTE_RUNNING) →
  frame s (upd_tick c f s).
Proof.
  intros H. split; try done. intros d. unfold ticking. simpl.
  destruct (decide (d = c)) as [->|]; [by rewrite fn_lookup_insert|by rewrite fn_lookup_insert_ne].
Qed.

(** [balance_push] changes the callbacks, the waiter and the push works. *)
Lemma balance_push_frame w c s t : balance_push w c s = Ok t → frame s t ∧ ticks t = ticks s ∧ held t = held s.
Proof.
  unfold balance_push, stop_one_cpu_nowait. set (s1 := if c =? w then s else warn s).
  set (s2 := upd_rq c (with_callbacks [balance_push_callback]) s1).
  assert (frame s s2 ∧ ticks s2 = ticks s ∧ held s2 = held s) as (F & E1 & E2).
  { split_and!; [|subst s2 s1; by destruct (c =? w)..]. eapply (frame_trans _ s1); [|by apply frame_upd_rq].
    subst s1. by destruct (c =? w). }
  intros H. repeat case_match; simplify_eq; split_and!; try done; (eapply frame_trans; [exact F|]);
    [by apply frame_upd_rq|by split].
Qed.

Lemma do_balance_callbacks_frame w c l s t :
  do_balance_callbacks w c l s = Ok t → frame s t ∧ ticks t = ticks s ∧ held t = held s.
Proof.
  revert s. induction l as [|cb l IH]; simpl; intros s H; [by injection H as <-|].
  apply res_bind_ok_inv in H as (s1 & Hb & H). destruct cb as [|k]; simpl in *.
  - apply balance_push_frame in Hb as (F & E1 & E2). apply IH in H as (G & E3 & E4).
    split_and!; [by eapply frame_trans|congruence..].
  - simplify_eq. apply IH in H as (G & E3 & E4). split_and!; [|done..]. eapply frame_trans; [|exact G]. by split.
Qed.

Lemma queue_all_frame c ks s : frame s (queue_all c ks s).
Proof. by apply frame_upd_rq. Qed.
Lemma splice_frame c s : frame s (snd (splice_balance_callbacks c s)).
Proof. unfold splice_balance_callbacks. simpl. case_match; [apply frame_refl|by apply frame_upd_rq]. Qed.
Lemma splice_ticks c s : ticks (snd (splice_balance_callbacks c s)) = ticks s ∧ held (snd (splice_balance_callbacks c s)) = held s.
Proof. unfold splice_balance_callbacks. simpl. by case_match. Qed.

Lemma __balance_callbacks_frame w c s t : __balance_callbacks w c s = Ok t → frame s t ∧ ticks t = ticks s.
Proof.
  unfold __balance_callbacks. pose proof (splice_frame c s) as F. pose proof (splice_ticks c s) as [E _].
  destruct (splice_balance_callbacks c s) as [l u]. simpl in *. intros (G & E2 & _)%do_balance_callbacks_frame.
  split; [by eapply frame_trans|congruence].
Qed.

Lemma do_callbacks_frame l s t : do_callbacks l s = Some (Ok t) → frame s t ∧ ticks t = ticks s.
Proof.
  destruct l; cbn [do_callbacks]; try done.
  - case_decide; [|done]. intros [= HB]. apply __balance_callbacks_frame in HB as (F & E). split; [|done].
    eapply frame_trans; [|exact F]. eapply frame_trans; [|apply queue_all_frame]. by apply frame_upd_rq.
  - case_decide; [|done]. intros [= HB]. apply __balance_callbacks_frame in HB as (F & E). split; [|done].
    eapply frame_trans; [apply queue_all_frame|exact F].
  - case_decide; [|done]. pose proof (splice_frame c (queue_all c ks s)) as F. pose proof (splice_ticks c (queue_all c ks s)) as [E _].
    destruct (splice_balance_callbacks c (queue_all c ks s)) as [l u]. simpl in *. intros [= <-]. split; [|exact E].
    eapply frame_trans; [apply queue_all_frame|]. eapply frame_trans; [exact F|by split].
  - destruct (held s w) as [[c l]|]; [|done]. unfold balance_callbacks. intros HB. injection HB as H.
    set (u := with_rcu_waits _ _) in H. assert (do_balance_callbacks w c l u = Ok t) as (G & E & _)%do_balance_callbacks_frame by by destruct l.
    split; [|done]. eapply frame_trans; [|exact G]. by split.
  - destruct (push_work s w) as [[c p]|] eqn:E; [|done]. case_match; [|done]. unfold __balance_push_cpu_stop. rewrite E.
    destruct on_this_rq; intros [= <-]; (split; [|done]); [|by split].
    set (s1 := with_push_work _ s). set (s2 := upd_rq c _ s1).
    eapply (frame_trans _ s1); [by split|]. eapply (frame_trans _ s2); [by apply frame_upd_rq|].
    set (s3 := upd_rq dest _ s2). eapply (frame_trans _ s3); [by apply frame_upd_rq|by split].
  - intros [= <-]. split; [by apply frame_upd_rq|done].
Qed.

(** * The remote tick *)

(** The work of a processor is queued or under way exactly once, unless the
    state is OFFLINE. *)
Record tick_ok (x : tick_work) : Prop := {
  k_state : tick_state x = 0 ∨ tick_state x = 1 ∨ tick_state x = 2;
  k_queued : 0 ≤ queued x;
  k_once : queued x + Z.b2z (bool_decide (remote x ≠ None)) = Z.b2z (negb (tick_state x =? TICK_SCHED_REMOTE_OFFLINE));
}.
Definition ticks_ok s : Prop := ∀ c, tick_ok (ticks s c).

Lemma ticks_ok_upd c f s : ticks_ok s → tick_ok (f (ticks s c)) → ticks_ok (upd_tick c f s).
Proof.
  intros K H d. simpl. destruct (decide (d = c)) as [->|]; [by rewrite fn_lookup_insert|rewrite fn_lookup_insert_ne by done; apply K].
Qed.

Lemma ticks_ok_upd2 c f g s : ticks_ok s → tick_ok (g (f (ticks s c))) → ticks_ok (upd_tick c g (upd_tick c f s)).
Proof.
  intros K H d. simpl. rewrite fn_lookup_insert. destruct (decide (d = c)) as [->|]; [by rewrite fn_lookup_insert|].
  rewrite !fn_lookup_insert_ne by done. apply K.
Qed.

Lemma work_starts_ok c s : ticks_ok s → work_starts c s = None ∨
  ∃ t, work_starts c s = Some (Ok t) ∧ frame s t ∧ ticks_ok t ∧ warned t = warned s.
Proof.
  intros K. unfold work_starts. case_decide as Hq; [|by left]. right. destruct (K c) as [K1 K2 K3].
  destruct (remote (ticks s c)) eqn:E; simpl in *; [exfalso; destruct (negb _) in K3; simpl in K3; lia|].
  eexists. split; [done|]. split; [by apply frame_upd_tick|]. split; [|done].
  apply ticks_ok_upd; [done|]. split; simpl; [done|lia|]. destruct (negb _) in *; simpl in *; lia.
Qed.

Lemma sched_tick_remote_ok c b delta s t : ticks_ok s → sched_tick_remote c b delta s = Some t →
  frame s t ∧ ticks_ok t ∧ (delta ≤ NSEC_PER_SEC * 3 → warned t = warned s).
Proof.
  intros K H. destruct (K c) as [K1 K2 K3]. unfold sched_tick_remote in H.
  destruct (remote (ticks s c)) as [[]|] eqn:E; simpl in *; [| | |done].
  - injection H as <-. destruct (b && _).
    + set (s1 := if _ && _ then warn s else s).
      assert (frame s s1 ∧ ticks s1 = ticks s ∧ (delta ≤ NSEC_PER_SEC * 3 → warned s1 = warned s)) as (F & E1 & W).
      { subst s1. destruct (NSEC_PER_SEC * 3 <? delta) eqn:D; [|by rewrite andb_false_r].
        apply Z.ltb_lt in D. rewrite andb_true_r. split_and!; [by case_match..|lia]. }
      split; [|split; [|done]]; [eapply frame_trans; [exact F|]; eapply frame_trans; by apply frame_upd_tick|].
      apply ticks_ok_upd2; [unfold ticks_ok; by rewrite E1|]. rewrite E1. by split.
    + split; [by apply frame_upd_tick|]. split; [|done]. apply ticks_ok_upd; [done|]. by split.
  - change TICK_SCHED_REMOTE_OFFLINE with 0 in *. unfold TICK_SCHED_REMOTE_RUNNING in *.
    destruct (tick_state (ticks s c) =? 2) eqn:E2; simpl in H.
    + apply Z.eqb_eq in E2. rewrite E2 in *. simpl in *. injection H as <-. split; [by apply frame_upd_tick|]. split; [|done].
      apply ticks_ok_upd; [done|]. split; simpl; rewrite ?E2; auto.
    + apply Z.eqb_neq in E2. destruct K1 as [K1|[K1|K1]]; rewrite K1 in *; simpl in *; [lia| |done].
      injection H as <-. split; [|split; [|done]].
      * eapply frame_trans; apply frame_upd_tick; simpl; [by rewrite K1|by rewrite fn_lookup_insert].
      * apply ticks_ok_upd2; [done|]. split; simpl; rewrite ?K1; [auto|lia|simpl; lia].
  - injection H as <-. split; [by apply frame_upd_tick|]. split; [|done]. apply ticks_ok_upd; [done|].
    assert (queued (ticks s c) = 0) as Hq by (destruct (negb _) in K3; simpl in K3; lia).
    split; simpl; rewrite ?Hq; simpl; [done|lia|]. rewrite <-K3, Hq. done.
Qed.

(** * The plan of the thread *)

(** What [balance_push], the ticks and the phases of the processors are. *)
Record sketch := Sketch {
  sk_push : Z → bool;
  sk_tick : Z → bool;
  sk_phase : Z → phase;
}.
Definition sketch_of s : sketch := Sketch (pushing s) (ticking s) (at_phase (hot s)).

#[global] Instance sketch_equiv : Equiv sketch := λ x y,
  (∀ c, sk_push x c = sk_push y c) ∧ (∀ c, sk_tick x c = sk_tick y c) ∧ (∀ c, sk_phase x c = sk_phase y c).
#[global] Instance sketch_equivalence : Equivalence (≡@{sketch}).
Proof.
  split.
  - intros x. by split_and!.
  - intros x y (H1 & H2 & H3). by split_and!.
  - intros x y z (H1 & H2 & H3) (G1 & G2 & G3). split_and!; intros c; congruence.
Qed.

(** What an action needs, and what it does to the sketch. *)
Definition before (a : action) (x : sketch) : Prop :=
  match a with
  | BalancePushSet c true => sk_push x c = false
  | SchedTickStart c => housekeeping_cpu c = true ∨ sk_tick x c = false
  | SchedTickStop c => housekeeping_cpu c = true ∨ sk_tick x c = true
  | _ => True
  end.
Definition after (a : action) (x : sketch) : sketch :=
  match a with
  | BalancePushSet c on => Sketch (<[c := on]> (sk_push x)) (sk_tick x) (sk_phase x)
  | SchedTickStart c => if housekeeping_cpu c then x else Sketch (sk_push x) (<[c := true]> (sk_tick x)) (sk_phase x)
  | SchedTickStop c => if housekeeping_cpu c then x else Sketch (sk_push x) (<[c := false]> (sk_tick x)) (sk_phase x)
  | Finish c ph => Sketch (sk_push x) (sk_tick x) (<[c := ph]> (sk_phase x))
  | _ => x
  end.

(** The actions [l] lead from [x] to a sketch with [Q], also when
    [cpuset_cpu_inactive] fails. *)
Fixpoint leads (Q : sketch → Prop) (l : list action) (x : sketch) : Prop :=
  match l with
  | [] => Q x
  | a :: l =>
      before a x ∧ leads Q l (after a x) ∧
      match a with
      | CpusetCpuInactive c => Q (after (Finish c Active) (after (BalancePushSet c false) x))
      | _ => True
      end
  end.

Lemma fn_ext_insert {A} (c : Z) (v : A) (f g : Z → A) : (∀ d, f d = g d) → ∀ d, <[c := v]> f d = <[c := v]> g d.
Proof.
  intros H d. destruct (decide (d = c)) as [->|]; [by rewrite !fn_lookup_insert|by rewrite !fn_lookup_insert_ne].
Qed.

#[global] Instance after_proper a : Proper ((≡) ==> (≡)) (after a).
Proof.
  intros x y (H1 & H2 & H3). destruct a; simpl; try done; try (destruct (housekeeping_cpu c); [done|]);
    split_and!; simpl; try done; by apply fn_ext_insert.
Qed.
#[global] Instance before_proper a : Proper ((≡) ==> iff) (before a).
Proof. intros x y (H1 & H2 & H3). destruct a as [c []| | | | | | | | | | | | | |]; simpl; rewrite ?H1, ?H2; done. Qed.
#[global] Instance leads_proper Q l : Proper ((≡) ==> iff) Q → Proper ((≡) ==> iff) (leads Q l).
Proof.
  intros HQ. induction l as [|a l IH]; [done|]. intros x y H. cbn [leads].
  rewrite (before_proper a _ _ H), (IH _ _ (after_proper a _ _ H)).
  destruct a; try done. by rewrite (HQ _ _ (after_proper (Finish c Active) _ _ (after_proper (BalancePushSet c false) _ _ H))).
Qed.

(** When the thread rests: only tasks on inactive processors are pushed away,
    and the remote ticks of all processors that are up run. *)
Definition rests (x : sketch) : Prop := ∀ c,
  sk_push x c = bool_decide (sk_phase x c = Inactive) ∧
  sk_tick x c = negb (housekeeping_cpu c) && negb (bool_decide (sk_phase x c = Offline)).
#[global] Instance rests_proper : Proper ((≡) ==> iff) rests.
Proof. intros x y (H1 & H2 & H3). unfold rests. split; intros H c; specialize (H c); rewrite ?H1, ?H2, ?H3 in *; done. Qed.

(** Compute the sketch of processor [d] after actions on [c]. *)
Ltac each_processor c :=
  let d := fresh "d" in intros d; simpl; destruct (decide (d = c)) as [->|];
  rewrite ?fn_lookup_insert, ?fn_lookup_insert_ne by done.

Lemma starting_leads c x : rests x → sk_phase x c = Offline → leads rests (sched_cpu_starting c ++ [Finish c Started]) x.
Proof.
  intros R E. destruct (R c) as [R1 R2]. rewrite E in *. simpl.
  destruct (housekeeping_cpu c) eqn:Hk; split_and!; auto; try (each_processor c; try apply R);
    rewrite ?R1, ?R2, ?Hk; done.
Qed.
Lemma activate_leads c x : rests x → sk_phase x c = Started ∨ sk_phase x c = Inactive →
  leads rests (sched_cpu_activate c ++ [Finish c Active]) x.
Proof.
  intros R E. destruct (R c) as [R1 R2]. simpl. split_and!; auto. each_processor c; [|apply R].
  rewrite R2. by destruct E as [-> | ->].
Qed.
Lemma deactivate_leads c x : rests x → sk_phase x c = Active → leads rests (sched_cpu_deactivate c ++ [Finish c Inactive]) x.
Proof.
  intros R E. destruct (R c) as [R1 R2]. rewrite E in *. simpl. split_and!; auto; each_processor c; try apply R; rewrite ?R2; done.
Qed.
Lemma die_leads c x : rests x → sk_phase x c = Started ∨ sk_phase x c = Inactive →
  leads rests (sched_cpu_wait_empty c ++ sched_cpu_dying c ++ [Finish c Offline]) x.
Proof.
  intros R E. destruct (R c) as [R1 R2]. simpl. assert (sk_phase x c ≠ Offline) as Hn by (destruct E; congruence).
  rewrite bool_decide_false in R2 by done. destruct (housekeeping_cpu c) eqn:Hk; simpl in *;
    split_and!; auto; each_processor c; try apply R; rewrite ?R2, ?Hk; done.
Qed.

(** * The regions of the thread *)

Lemma sketch_upd_rq c f s : balance_push_on (f (rqs s c)) = balance_push_on (rqs s c) → sketch_of (upd_rq c f s) ≡ sketch_of s.
Proof. intros H. destruct (frame_upd_rq c f s H) as [? ? ? ?]. by split_and!. Qed.

Lemma balance_push_set_sketch c on s : sketch_of (balance_push_set c on s) ≡ after (BalancePushSet c on) (sketch_of s).
Proof.
  assert (sketch_of (upd_rq c (with_push on) s) ≡ after (BalancePushSet c on) (sketch_of s)) as E.
  { split_and!; try done. intros d. unfold sketch_of, pushing. simpl.
    destruct (decide (d = c)) as [->|]; [by rewrite !fn_lookup_insert|by rewrite !fn_lookup_insert_ne]. }
  unfold balance_push_set. set (u := upd_rq c (with_push on) s) in *. destruct on.
  - rewrite <-E, sketch_upd_rq by done. by case_match.
  - case_decide; [|done]. by rewrite <-E, sketch_upd_rq.
Qed.
Lemma balance_push_set_rest c on s :
  todo (balance_push_set c on s) = todo s ∧ ticks (balance_push_set c on s) = ticks s ∧ hot (balance_push_set c on s) = hot s.
Proof. unfold balance_push_set. destruct on; simpl; [by case_match|by case_decide]. Qed.
Lemma sketch_upd_tick c f (v : bool) s : (tick_state (f (ticks s c)) =? TICK_SCHED_REMOTE_RUNNING) = v →
  sketch_of (upd_tick c f s) ≡ Sketch (pushing s) (<[c := v]> (ticking s)) (at_phase (hot s)).
Proof.
  intros H. split_and!; try done. intros d. unfold sketch_of, ticking. simpl.
  destruct (decide (d = c)) as [->|]; [by rewrite !fn_lookup_insert|by rewrite !fn_lookup_insert_ne].
Qed.

(** No second work is queued and no WARN fires when the tick is started... *)
Lemma sched_tick_start_ok c s : ticks_ok s → before (SchedTickStart c) (sketch_of s) →
  ∃ t, sched_tick_start c s = Ok t ∧ sketch_of t ≡ after (SchedTickStart c) (sketch_of s) ∧ ticks_ok t ∧
    hot t = hot s ∧ todo t = todo s ∧ warned t = warned s.
Proof.
  intros K B. unfold sched_tick_start. simpl in B. cbn [after]. destruct (housekeeping_cpu c); [by exists s|].
  destruct B as [|B]; [done|]. unfold ticking in B. rewrite B. destruct (K c) as [K1 K2 K3].
  unfold TICK_SCHED_REMOTE_OFFLINE, TICK_SCHED_REMOTE_RUNNING in *. apply Z.eqb_neq in B.
  destruct K1 as [E|[E|E]]; rewrite E in *; simpl in *; [| |lia].
  - unfold init_and_queue. simpl. rewrite fn_lookup_insert. simpl.
    destruct (remote (ticks s c)) eqn:Er; simpl in K3; [lia|].
    rewrite decide_True by (split; [lia|done]).
    eexists. split; [done|]. split; [|split; [|done]].
    + rewrite sketch_upd_tick by (simpl; by rewrite fn_lookup_insert). split_and!; try done. intros d. unfold ticking. simpl.
      destruct (decide (d = c)) as [->|]; [by rewrite !fn_lookup_insert|by rewrite !fn_lookup_insert_ne].
    + apply ticks_ok_upd2; [done|]. split; simpl; rewrite ?Er; [auto|lia|done].
  - eexists. split; [done|]. split; [by apply sketch_upd_tick|]. split; [|done]. apply ticks_ok_upd; [done|].
    by split; simpl; auto.
Qed.

(** ... or stopped. *)
Lemma sched_tick_stop_ok c s : ticks_ok s → before (SchedTickStop c) (sketch_of s) →
  sketch_of (sched_tick_stop c s) ≡ after (SchedTickStop c) (sketch_of s) ∧ ticks_ok (sched_tick_stop c s) ∧
    hot (sched_tick_stop c s) = hot s ∧ todo (sched_tick_stop c s) = todo s ∧ warned (sched_tick_stop c s) = warned s.
Proof.
  intros K B. unfold sched_tick_stop. simpl in B. cbn [after]. destruct (housekeeping_cpu c); [done|].
  destruct B as [|B]; [done|]. unfold ticking in B. rewrite B. split; [by apply sketch_upd_tick|]. split; [|done].
  destruct (K c) as [K1 K2 K3]. apply ticks_ok_upd; [done|]. apply Z.eqb_eq in B. rewrite B in K3. split; simpl; auto.
Qed.

Definition thread_ok s : Prop := leads rests (todo s) (sketch_of s).

Lemma lift_inv r s t : lift r s = Ok t → ∃ h, r = Ok h ∧ t = with_hot h s.
Proof. unfold lift. intros (h & -> & E)%res_bind_ok_inv. injection E as <-. eauto. Qed.
Lemma in_root_domain_phase c f h h' : in_root_domain c f h = Ok h' → at_phase h' = at_phase h.
Proof.
  unfold in_root_domain. repeat case_match; try done; intros E; [|by injection E as <-].
  apply res_bind_ok_inv in E as (r & _ & E). by injection E as <-.
Qed.
Lemma cpuset_active_phase h : at_phase (activate_domains h) = at_phase h.
Proof. unfold activate_domains, cpuset_cpu_active. by repeat case_match. Qed.
Lemma cpuset_inactive_phase b h e h' : deactivate_domains b h = (e, h') → at_phase h' = at_phase h.
Proof. unfold deactivate_domains, cpuset_cpu_inactive. repeat case_match; intros; by simplify_eq. Qed.

(** The thread keeps its plan. *)
Lemma act_thread b a l s t : ticks_ok s → leads rests (a :: l) (sketch_of s) → act b a (with_todo l s) = Some (Ok t) →
  thread_ok t ∧ ticks_ok t.
Proof.
  intros K (Hb & Hl & He) H. unfold thread_ok.
  assert (∀ u, todo u = l → sketch_of u ≡ after a (sketch_of s) → leads rests (todo u) (sketch_of u)) as go.
  { intros u -> ->. exact Hl. }
  destruct a; cbn [act] in H.
  - injection H as <-. destruct (balance_push_set_rest c on (with_todo l s)) as (E1 & E2 & _).
    split; [apply go; [done|exact (balance_push_set_sketch c on (with_todo l s))]|]. unfold ticks_ok; by rewrite E2.
  - injection H as <-. split; [apply go; [done|]|done]. unfold smt_present. by case_match.
  - injection H as <-. split; [by apply go|done].
  - injection H as <-. split; [apply go; [done|]|done]. split_and!; try done. intros d. simpl. by rewrite cpuset_active_phase.
  - destruct (deactivate_domains b _) as [e h] eqn:E. injection H as <-. apply cpuset_inactive_phase in E. simpl in E.
    assert (sketch_of (with_hot (with_ret e h) (with_todo l s)) ≡ sketch_of s) as Es.
    { split_and!; try done. intros d. simpl. by rewrite E. }
    case_match; split; [by apply go|by auto| |done]. cbn [todo with_todo]. unfold deactivate_failed.
    change (sketch_of (with_todo _ ?u)) with (sketch_of u). rewrite Es. simpl. by split_and!.
  - injection H as (h & E%in_root_domain_phase & ->)%lift_inv. split; [apply go; [done|]|done].
    split_and!; try done. intros d. simpl in *. by rewrite E.
  - injection H as (h & E%in_root_domain_phase & ->)%lift_inv. split; [apply go; [done|]|done].
    split_and!; try done. intros d. simpl in *. by rewrite E.
  - injection H as <-. split; [by apply go|done].
  - case_match; [|done]. injection H as <-. split; [by apply go|done].
  - destruct (sched_tick_start_ok c (with_todo l s)) as (u & Eu & ? & ? & ? & ? & ?); [done..|].
    rewrite Eu in H. injection H as <-. split; [by apply go|done].
  - destruct (sched_tick_stop_ok c (with_todo l s)) as (? & ? & ? & ? & ?); [done..|]. injection H as <-. split; [by apply go|done].
  - repeat case_match; try done; injection H as <-; [split; [by apply go|by auto]|]. split; [|done].
    cbn [todo with_todo]. change (sketch_of (with_todo _ ?u)) with (sketch_of u). rewrite sketch_upd_rq by done. by split_and!.
  - injection H as <-. case_match; (split; [by apply go|by auto]).
  - injection H as <-. case_match; (split; [by apply go|by auto]).
  - injection H as <-. split; [apply go; [done|]|done]. unfold finish. split_and!; try done.
    intros d. simpl. by repeat case_match.
Qed.

Lemma frame_sketch s t : frame s t → sketch_of t ≡ sketch_of s.
Proof. intros [F1 F2 F3 F4]. split_and!; [done..|]. intros c. simpl. by rewrite F1. Qed.
Lemma thread_frame s t : frame s t → thread_ok s → thread_ok t.
Proof. intros F. unfold thread_ok. by rewrite (frame_sketch s t F), (f_todo _ _ F). Qed.

Lemma begin_ok c fr l s : todo s = [] → thread_ok s → (rests (sketch_of s) → leads rests l (sketch_of s)) → thread_ok (begin c fr l s).
Proof. unfold thread_ok. intros -> T H. by apply H. Qed.

Lemma do_thread l s t : ticks_ok s → thread_ok s → do l s = Some (Ok t) → thread_ok t ∧ ticks_ok t.
Proof.
  intros K T H.
  assert (do_callbacks l s = Some (Ok t) → thread_ok t ∧ ticks_ok t) as Hcb.
  { intros (F & E)%do_callbacks_frame. split; [by eapply thread_frame|]. unfold ticks_ok. by rewrite E. }
  destruct l; cbn [do] in H; try (by apply Hcb); cbn [do_hot] in H.
  - case_decide as G; [|done]. injection H as <-. by split.
  - case_decide as G; [|done]. injection H as <-. split; [|done]. destruct G as (_ & _ & Ht & E & _).
    apply begin_ok; [done..|]. intros R. by apply starting_leads.
  - case_decide as G; [|done]. injection H as <-. split; [|done]. destruct G as (_ & Ht & E).
    unfold thread_ok in *. rewrite Ht in T. by apply activate_leads.
  - case_decide as G; [|done]. injection H as <-. split; [|done]. destruct G as (_ & _ & Ht & E & _).
    apply begin_ok; [done..|]. intros R. by apply deactivate_leads.
  - case_decide as G; [|done]. injection H as <-. split; [|done]. destruct G as (_ & Ht & E).
    unfold thread_ok in *. rewrite Ht in T. by apply die_leads.
  - destruct (todo s) as [|a l] eqn:Ht; [done|]. unfold thread_ok in T. rewrite Ht in T.
    by apply (act_thread dl_cpu_busy a l s t K T H).
  - destruct (work_starts_ok c s K) as [E|(u & E & F & Ku & _)]; rewrite E in H; [done|]. injection H as <-.
    split; [by eapply thread_frame|done].
  - destruct (sched_tick_remote c stopped delta s) as [u|] eqn:E; [|done]. injection H as <-.
    destruct (sched_tick_remote_ok c stopped delta s u K E) as (F & Ku & _). split; [by eapply thread_frame|done].
Qed.
End invariants.
