(* ===== verification/HotplugCores.v ===== *)
(** What the thread of Hotplug leaves behind when it rests: the masks, the
    root domains, the number of cores with several active processors and the
    count of processors that a suspend has taken down. *)
From S2P Require Import Prelude Hotplug HotplugInv.
Local Open Scope Z_scope.

(** * Counting *)

Definition count (f : Z → bool) (l : list Z) : Z := foldr (λ x n, Z.b2z (f x) + n) 0 l.

Lemma count_ext f g l : (∀ x, x ∈ l → f x = g x) → count f l = count g l.
Proof.
  induction l as [|x l IH]; simpl; intros H; [done|]. rewrite (H x) by set_solver. rewrite IH by set_solver. done.
Qed.
Lemma count_change x f g l : NoDup l → x ∈ l → (∀ y, y ≠ x → f y = g y) → count f l = count g l + Z.b2z (f x) - Z.b2z (g x).
Proof.
  intros Hnd Hx H. induction l as [|y l IH]; simpl; [by apply elem_of_nil in Hx|].
  apply NoDup_cons in Hnd as [Hy Hnd]. destruct (decide (y = x)) as [->|Hne].
  - rewrite (count_ext f g l); [lia|]. intros z Hz. apply H. by intros ->.
  - rewrite IH by set_solver. rewrite (H y) by done. lia.
Qed.
Lemma count_filter (Q : Z → Prop) `{∀ x, Decision (Q x)} l : Z.of_nat (length (filter Q l)) = count (λ x, bool_decide (Q x)) l.
Proof.
  induction l as [|x l IH]; [done|]. rewrite filter_cons. simpl. case_decide as D.
  - rewrite bool_decide_true by done. simpl. lia.
  - rewrite bool_decide_false by done. simpl. lia.
Qed.

Section cores.
Context `{P : platform} {PO : platform_ok}.
Implicit Types (s t : state) (h : core) (c w p k n : Z) (r : roots).

(** The active processors of a core, and the cores with two or more. *)
Definition siblings (act : Z → bool) (k : Z) : Z := count (λ d, (core_of d =? k) && act d) possible.
Definition smt_cores (act : Z → bool) : Z := count (λ k, 2 <=? siblings act k) (remove_dups (core_of <$> possible)).

Lemma siblings_set c b act k : c ∈ possible → act c = negb b →
  siblings (<[c := b]> act) k = siblings act k + (if k =? core_of c then (if b then 1 else -1) else 0).
Proof.
  intros Hc Ha. unfold siblings. rewrite (count_change c _ (λ d, (core_of d =? k) && act d)); [|apply possible_nodup|done|].
  - cbv beta. rewrite fn_lookup_insert, Ha, (Z.eqb_sym (core_of c)). destruct (k =? core_of c), b; simpl. all: try lia.
  - intros d Hd. by rewrite fn_lookup_insert_ne.
Qed.
Lemma smt_cores_set c b act : c ∈ possible → act c = negb b →
  smt_cores (<[c := b]> act) = smt_cores act + (if siblings act (core_of c) + (if b then 1 else 0) =? 2 then (if b then 1 else -1) else 0).
Proof.
  intros Hc Ha. unfold smt_cores.
  rewrite (count_change (core_of c) _ (λ k, 2 <=? siblings act k)); [|apply NoDup_remove_dups| |].
  - cbv beta. rewrite siblings_set, Z.eqb_refl by done. set (n := siblings act (core_of c)). destruct b;
      [destruct (Z.leb_spec 2 (n + 1)), (Z.leb_spec 2 n), (Z.eqb_spec (n + 1) 2)|destruct (Z.leb_spec 2 (n + -1)), (Z.leb_spec 2 n), (Z.eqb_spec (n + 0) 2)]; cbn [Z.b2z]; lia.
  - apply elem_of_remove_dups, list_elem_of_fmap. by exists c.
  - intros k Hk. rewrite siblings_set by done. destruct (Z.eqb_spec k (core_of c)); [done|]. by rewrite Z.add_0_r.
Qed.

(** * What holds when the thread rests *)

(** Also after a refused deactivation. *)
Record weak h : Prop := {
  w_roots : roots_ok (root h);
  w_online : online_active (cpu_active h) (root h);
  w_phase c : cpu_active h c = bool_decide (at_phase h c = Active);
}.

(** Unless a deactivation was refused. *)
Record exact h : Prop := {
  e_online c : c ∈ possible → cpu_active h c = true → online (root h) c = true;
  e_smt : sched_smt_present h = smt_cores (cpu_active h);
  e_num : num_cpus_frozen h = Z.of_nat (length (frozen_cpus h));
  e_nodup : NoDup (frozen_cpus h);
  e_frozen c : c ∈ frozen_cpus h → at_phase h c ≠ Active;
  e_asked : asked h = OneDomain ↔ frozen_cpus h ≠ [];
  e_awake : cpuhp_tasks_frozen h = false → frozen_cpus h = [];
  e_smp : cpuhp_tasks_frozen h = true → sched_smp_initialized h = true;
}.

(** The processor that is on its way. *)
Record on_way h : Prop := {
  o_others c : at_phase h c = Started ∨ at_phase h c = Inactive → busy h = Some c;
  o_busy c : busy h = Some c → c ∈ possible ∧ (at_phase h c = Started ∨ at_phase h c = Inactive) ∧
    (cpuhp_tasks_frozen h = true → c ∈ frozen_cpus h);
}.

(** [refusals]: deactivations may be refused. *)
Definition settled (refusals : bool) h : Prop := weak h ∧ on_way h ∧ (refusals = false → exact h).

Definition core_act (a : action) h : res core :=
  match a with
  | SmtPresent c up => Ok (smt_present c up h)
  | SetCpuActive c on => Ok (set_cpu_active c on h)
  | CpusetCpuActive => Ok (activate_domains h)
  | CpusetCpuInactive c => let '(e, h) := deactivate_domains false h in Ok (with_ret e h)
  | SetRqOnline c => in_root_domain c (set_rq_online c) h
  | SetRqOffline c => in_root_domain c (set_rq_offline c) h
  | Finish c x => Ok (finish c x h)
  | _ => Ok h
  end.

Fixpoint goes (refusals : bool) (l : list action) h : Prop :=
  match l with
  | [] => settled refusals h
  | a :: l =>
      (∃ h', core_act a h = Ok h' ∧ goes refusals l h') ∧
      match a with
      | CpusetCpuInactive c =>
          refusals = true → cpuhp_tasks_frozen h = false →
          settled refusals (finish c Active (set_cpu_active c true (with_ret (- EBUSY) h)))
      | _ => True
      end
  end.

(** * The root domains *)

Definition rooted h : Prop := roots_ok (root h) ∧ online_active (cpu_active h) (root h).

Lemma request_rooted x h : rooted h → rooted (request x h).
Proof. intros [R A]. split; [by apply build_roots|by apply build_active]. Qed.
Lemma request_online x h c : rooted h → online (root h) c = true → online (root (request x h)) c = true.
Proof. intros [R A] H. by apply build_online, A. Qed.

(** All that [activate_domains] changes. *)
Lemma activate_domains_spec h : rooted h → ∃ r,
  activate_domains h =
    with_asked (if sched_smp_initialized h
                then (if cpuhp_tasks_frozen h && negb (num_cpus_frozen h - 1 =? 0) then OneDomain else CpusetDomains)
                else asked h)
      (with_num_frozen (if sched_smp_initialized h && cpuhp_tasks_frozen h then num_cpus_frozen h - 1 else num_cpus_frozen h)
        (with_root r h)) ∧
  roots_ok r ∧ online_active (cpu_active h) r ∧ (∀ c, online (root h) c = true → online r c = true).
Proof.
  intros R. unfold activate_domains, cpuset_cpu_active. destruct (sched_smp_initialized h); simpl.
  - pose proof (request_rooted OneDomain h R) as R1. pose proof (request_online OneDomain h) as O1.
    destruct (cpuhp_tasks_frozen h); simpl; [destruct (num_cpus_frozen h - 1 =? 0); simpl|].
    + set (h1 := with_num_frozen _ (request OneDomain h)) in *. assert (rooted h1) as R2 by exact R1.
      destruct (request_rooted CpusetDomains h1 R2). exists (root (request CpusetDomains h1)). split; [done|]. split_and!; [done..|].
      intros c Hc. apply (request_online CpusetDomains h1); [done|]. by apply O1.
    + destruct R1. exists (root (request OneDomain h)). split; [done|]. split_and!; [done..|]. intros c Hc. by apply O1.
    + destruct (request_rooted CpusetDomains h R). exists (root (request CpusetDomains h)). split; [done|]. split_and!; [done..|].
      intros c Hc. by apply (request_online CpusetDomains h).
  - exists (root h). destruct R. split; [by destruct h|]. by split_and!.
Qed.

Lemma deactivate_domains_spec h : rooted h → ∃ r,
  deactivate_domains false h = (0,
    with_asked (if sched_smp_initialized h then (if cpuhp_tasks_frozen h then OneDomain else CpusetDomains) else asked h)
      (with_num_frozen (if sched_smp_initialized h && cpuhp_tasks_frozen h then num_cpus_frozen h + 1 else num_cpus_frozen h)
        (with_root r h))) ∧
  roots_ok r ∧ online_active (cpu_active h) r ∧ (∀ c, online (root h) c = true → online r c = true).
Proof.
  intros R. unfold deactivate_domains, cpuset_cpu_inactive. destruct (sched_smp_initialized h); simpl.
  - destruct (cpuhp_tasks_frozen h); simpl.
    + set (h1 := with_num_frozen _ h) in *. assert (rooted h1) as R1 by exact R. destruct (request_rooted OneDomain h1 R1).
      exists (root (request OneDomain h1)). split; [done|]. split_and!; [done..|]. intros c Hc. by apply (request_online OneDomain h1).
    + destruct (request_rooted CpusetDomains h R). exists (root (request CpusetDomains h)). split; [done|]. split_and!; [done..|].
      intros c Hc. by apply (request_online CpusetDomains h).
  - exists (root h). destruct R. split; [by destruct h|]. by split_and!.
Qed.

(** No BUG_ON is reached. *)
Lemma online_spec c h : c ∈ possible → cpu_active h c = true → rooted h → ∃ r,
  in_root_domain c (set_rq_online c) h = Ok (with_root r h) ∧ roots_ok r ∧ online_active (cpu_active h) r ∧
  online r c = true ∧ (∀ d, d ≠ c → online r d = online (root h) d).
Proof.
  intros Hc Ha [R A]. unfold in_root_domain, set_rq_online. destruct (R c Hc) as (d & Ed & Es & Eo). rewrite Ed, Es.
  destruct (online (root h) c) eqn:E; simpl; [by exists (root h)|]. eexists. split; [done|]. simpl. split_and!.
  - intros c' Hc'. destruct (R c' Hc') as (d' & E1 & E2 & E3). exists d'. simpl. split_and!; [done..|].
    destruct (decide (d' = d)) as [->|]; [rewrite fn_lookup_insert|rewrite fn_lookup_insert_ne by done];
      (destruct (decide (c' = c)) as [->|]; [rewrite ?fn_lookup_insert|rewrite ?fn_lookup_insert_ne by done]); congruence.
  - intros d'. destruct (decide (d' = c)) as [->|]; [done|]. simpl. rewrite fn_lookup_insert_ne by done. apply A.
  - by rewrite fn_lookup_insert.
  - intros d' Hd. by rewrite fn_lookup_insert_ne.
Qed.
Lemma offline_spec c h : c ∈ possible → roots_ok (root h) → ∃ r,
  in_root_domain c (set_rq_offline c) h = Ok (with_root r h) ∧ roots_ok r ∧
  online r c = false ∧ (∀ d, d ≠ c → online r d = online (root h) d).
Proof.
  intros Hc R. unfold in_root_domain, set_rq_offline. destruct (R c Hc) as (d & Ed & Es & Eo). rewrite Ed, Es.
  destruct (online (root h) c) eqn:E; simpl; [|by exists (root h)]. eexists. split; [done|]. simpl. split_and!.
  - intros c' Hc'. destruct (R c' Hc') as (d' & E1 & E2 & E3). exists d'. simpl. split_and!; [done..|].
    destruct (decide (d' = d)) as [->|]; [rewrite fn_lookup_insert|rewrite fn_lookup_insert_ne by done];
      (destruct (decide (c' = c)) as [->|]; [rewrite ?fn_lookup_insert|rewrite ?fn_lookup_insert_ne by done]); congruence.
  - by rewrite fn_lookup_insert.
  - intros d' Hd. by rewrite fn_lookup_insert_ne.
Qed.

(** * The plans *)

Lemma smt_weight_siblings c h (act : Z → bool) : (∀ d, act d = negb (bool_decide (at_phase h d = Offline))) →
  smt_weight c h = siblings act (core_of c).
Proof.
  intros H. unfold smt_weight, siblings. rewrite count_filter. apply count_ext. intros d _. rewrite H.
  destruct (Z.eqb_spec (core_of d) (core_of c)); simpl; repeat case_bool_decide; naive_solver.
Qed.

(** The processors that are up, as far as the mask of the active ones says. *)
Lemma up_on_way c h d : weak h → on_way h → busy h = Some c → d ≠ c →
  cpu_active h d = negb (bool_decide (at_phase h d = Offline)).
Proof.
  intros W O Hb Hd. rewrite (w_phase _ W). pose proof (o_others _ O d). destruct (at_phase h d) eqn:E; try done;
    exfalso; apply Hd; assert (busy h = Some d) by auto; congruence.
Qed.
Lemma up_at_rest h d : weak h → on_way h → busy h = None → cpu_active h d = negb (bool_decide (at_phase h d = Offline)).
Proof.
  intros W O Hb. rewrite (w_phase _ W). pose proof (o_others _ O d). destruct (at_phase h d) eqn:E; try done;
    exfalso; assert (busy h = Some d) by auto; congruence.
Qed.

Lemma count_all f l : (∀ x, x ∈ l → f x = true) → count f l = Z.of_nat (length l).
Proof. induction l as [|x l IH]; simpl; intros H; [done|]. rewrite (H x), IH by set_solver. simpl. lia. Qed.

Lemma no_longer_frozen c (l : list Z) : NoDup l → c ∈ l →
  Z.of_nat (length (filter (λ d, d ≠ c) l)) = Z.of_nat (length l) - 1.
Proof.
  intros Hnd Hc. rewrite count_filter, (count_change c _ (λ _, true)), (count_all (λ _, true)) by
    (try done; intros; by rewrite bool_decide_true).
  rewrite bool_decide_false by naive_solver. simpl. lia.
Qed.

(** The changes that [begin] makes. *)
Definition begun c (fr : bool) h : core := with_ret 0 (with_tasks_frozen fr (with_busy (Some c) h)).

(** The frozen processors after [finish]. *)
Definition frozen_after c (x : phase) h : list Z :=
  if cpuhp_tasks_frozen h then
    match x with Inactive => c :: frozen_cpus h | Active => filter (λ d, d ≠ c) (frozen_cpus h) | _ => frozen_cpus h end
  else frozen_cpus h.

Lemma finish_eq c x h : finish c x h =
  Core (<[c := x]> (at_phase h)) (cpu_active h) (root h) (sched_smt_present h) (num_cpus_frozen h) (asked h)
    (sched_smp_initialized h) (cpuhp_tasks_frozen h) (frozen_after c x h)
    (match x with Active | Offline => None | _ => busy h end) (ret h).
Proof. unfold finish, frozen_after. by destruct h as [? ? ? ? ? ? ? []], x. Qed.

Lemma finish_settled ref c x h :
  c ∈ possible → busy h = Some c → rooted h →
  (∀ d, cpu_active h d = bool_decide (<[c := x]> (at_phase h) d = Active)) →
  (∀ d, d ≠ c → at_phase h d = Active ∨ at_phase h d = Offline) →
  (cpuhp_tasks_frozen h = true → x = Started → c ∈ frozen_cpus h) →
  (ref = false →
    (∀ d, d ∈ possible → cpu_active h d = true → online (root h) d = true) ∧
    sched_smt_present h = smt_cores (cpu_active h) ∧
    num_cpus_frozen h = Z.of_nat (length (frozen_after c x h)) ∧
    (asked h = OneDomain ↔ frozen_after c x h ≠ []) ∧
    NoDup (frozen_cpus h) ∧ (x = Inactive → c ∉ frozen_cpus h) ∧
    (∀ d, d ≠ c → d ∈ frozen_cpus h → at_phase h d ≠ Active) ∧
    (cpuhp_tasks_frozen h = false → frozen_cpus h = []) ∧
    (cpuhp_tasks_frozen h = true → sched_smp_initialized h = true)) →
  settled ref (finish c x h).
Proof.
  intros Hc Hb [R A] Hph Hoth Hst X. rewrite finish_eq. split; [by split|]. split.
  - split; simpl.
    + intros d. destruct (decide (d = c)) as [->|Hne]; [rewrite fn_lookup_insert; destruct x; naive_solver|].
      rewrite fn_lookup_insert_ne by done. destruct (Hoth d Hne) as [-> | ->]; naive_solver.
    + intros d Hd. assert (d = c ∧ (x = Started ∨ x = Inactive)) as [-> Hx] by (destruct x; try discriminate Hd; (split; [congruence|auto])).
      rewrite fn_lookup_insert. split_and!; [done..|]. unfold frozen_after. intros E. rewrite E. destruct Hx as [-> | ->]; [by apply Hst|by left].
  - intros (X1 & X2 & X3 & X4 & X5 & X6 & X7 & X8 & X9)%X. split; simpl; try done.
    + unfold frozen_after. destruct (cpuhp_tasks_frozen h); [|done]. destruct x; try done; [by apply NoDup_filter|].
      apply NoDup_cons. auto.
    + intros d Hd. unfold frozen_after in Hd. destruct (decide (d = c)) as [->|Hne].
      * rewrite fn_lookup_insert. intros ->. destruct (cpuhp_tasks_frozen h); [|rewrite X8 in Hd by done; by apply elem_of_nil in Hd].
        apply list_elem_of_filter in Hd. naive_solver.
      * rewrite fn_lookup_insert_ne by done. apply X7; [done|]. destruct (cpuhp_tasks_frozen h); [|done].
        destruct x; try done; [by apply list_elem_of_filter in Hd as [_ ?]|set_solver].
    + unfold frozen_after. intros E. rewrite E. auto.
Qed.

Lemma others_rest c h : on_way h → busy h = Some c → ∀ d, d ≠ c → at_phase h d = Active ∨ at_phase h d = Offline.
Proof.
  intros O Hb d Hd. pose proof (o_others _ O d). destruct (at_phase h d); auto; assert (busy h = Some d) by auto; congruence.
Qed.
Lemma all_rest h : on_way h → busy h = None → ∀ d, at_phase h d = Active ∨ at_phase h d = Offline.
Proof.
  intros O Hb d. pose proof (o_others _ O d). destruct (at_phase h d); auto; assert (busy h = Some d) by auto; congruence.
Qed.

Lemma starting_goes ref c (fr : bool) h : settled ref h → c ∈ possible → busy h = None → at_phase h c = Offline →
  (if fr then sched_smp_initialized h = true ∧ (Offline = Offline → c ∈ frozen_cpus h) else frozen_cpus h = []) →
  goes ref (sched_cpu_starting c ++ [Finish c Started]) (begun c fr h).
Proof.
  intros (W & O & X) Hc Hb Hp Hf. split; [|done]. eexists. split; [done|]. split; [|done]. eexists. split; [done|].
  apply finish_settled; simpl; [done..| | | | |].
  - split; apply W.
  - intros d. rewrite (w_phase _ W). destruct (decide (d = c)) as [->|]; [by rewrite fn_lookup_insert, Hp|by rewrite fn_lookup_insert_ne].
  - intros d _. by apply all_rest.
  - destruct fr; naive_solver.
  - intros Hr. destruct (X Hr) as []. unfold frozen_after; simpl. destruct fr; split_and!; naive_solver.
Qed.

Lemma die_goes ref c h : settled ref h → busy h = Some c →
  goes ref (sched_cpu_wait_empty c ++ sched_cpu_dying c ++ [Finish c Offline]) h.
Proof.
  intros (W & O & X) Hb. destruct (o_busy _ O c Hb) as (Hc & Hp & Hf).
  do 6 (split; [|done]; eexists; split; [done|]). apply finish_settled; [done..| | | |done|].
  - split; apply W.
  - intros d. rewrite (w_phase _ W). destruct (decide (d = c)) as [->|]; [rewrite fn_lookup_insert|by rewrite fn_lookup_insert_ne].
    by destruct Hp as [-> | ->].
  - by apply others_rest.
  - intros Hr. destruct (X Hr) as []. unfold frozen_after. destruct (cpuhp_tasks_frozen h); split_and!; naive_solver.
Qed.

Lemma activate_goes ref c h : settled ref h → busy h = Some c → goes ref (sched_cpu_activate c ++ [Finish c Active]) h.
Proof.
  intros (W & O & X) Hb. destruct (o_busy _ O c Hb) as (Hc & Hp & Hf).
  assert (cpu_active h c = false) as Hoff by (rewrite (w_phase _ W); by destruct Hp as [-> | ->]).
  assert (smt_weight c h = siblings (cpu_active h) (core_of c) + 1) as Hw.
  { rewrite (smt_weight_siblings c h (<[c := true]> (cpu_active h))).
    - by rewrite siblings_set, Z.eqb_refl.
    - intros d. destruct (decide (d = c)) as [->|]; [rewrite fn_lookup_insert; by destruct Hp as [-> | ->]|].
      rewrite fn_lookup_insert_ne by done. by apply (up_on_way c). }
  set (h1 := set_cpu_active c true (smt_present c true h)).
  assert (h1 = with_smt (sched_smt_present h + (if siblings (cpu_active h) (core_of c) + 1 =? 2 then 1 else 0)) (set_cpu_active c true h)) as E1.
  { subst h1. unfold smt_present. rewrite Hw. case_match; [done|]. rewrite Z.add_0_r. by destruct h. }
  assert (rooted h1) as R1.
  { rewrite E1. split; [apply W|]. intros d. simpl. destruct (decide (d = c)) as [->|]; [by rewrite fn_lookup_insert|].
    rewrite fn_lookup_insert_ne by done. apply W. }
  destruct (activate_domains_spec h1 R1) as (r & E2 & R2 & A2 & M2).
  set (h2 := activate_domains h1) in *.
  destruct (online_spec c h2 Hc) as (r' & E3 & R3 & A3 & M3 & M4).
  { rewrite E2, E1. simpl. apply fn_lookup_insert. }
  { rewrite E2. by split. }
  do 3 (split; [|done]; eexists; split; [done|]). fold h1. split; [|done]. eexists. split; [done|]. fold h2.
  split; [|done]. eexists. split; [exact E3|]. split; [|done]. eexists. split; [done|].
  rewrite E1 in E2. simpl in E2. rewrite E2. rewrite E2 in A3, M4. apply finish_settled; simpl; [done..| | | | |].
  - by split.
  - intros d. destruct (decide (d = c)) as [->|]; [by rewrite !fn_lookup_insert|]. rewrite !fn_lookup_insert_ne by done. apply W.
  - by apply others_rest.
  - done.
  - intros Hr. destruct (X Hr) as []. rewrite smt_cores_set by done. split_and!; try done.
    + intros d Hd. destruct (decide (d = c)) as [->|]; [done|]. rewrite fn_lookup_insert_ne by done. intros Hact.
      rewrite M4 by done. apply M2. rewrite E1. simpl. auto.
    + rewrite e_smt0. done.
    + unfold frozen_after. simpl. destruct (cpuhp_tasks_frozen h) eqn:Ef; [|by rewrite andb_false_r].
      rewrite e_smp0 by done. simpl. rewrite e_num0. symmetry. by apply no_longer_frozen, Hf.
    + unfold frozen_after. simpl. destruct (cpuhp_tasks_frozen h) eqn:Ef; simpl.
      * rewrite e_smp0 by done. pose proof (no_longer_frozen c (frozen_cpus h) e_nodup0 (Hf eq_refl)) as L.
        rewrite e_num0, <-L. destruct (filter _ (frozen_cpus h)); simpl; [done|]. destruct (Z.eqb_spec (Z.of_nat (S (length l))) 0); [lia|done].
      * rewrite e_awake0 in * by done. by case_match.
    + auto.
Qed.

Lemma deactivate_goes ref c (fr : bool) h : settled ref h → c ∈ possible → busy h = None → at_phase h c = Active →
  (if fr then sched_smp_initialized h = true else frozen_cpus h = []) →
  goes ref (sched_cpu_deactivate c ++ [Finish c Inactive]) (begun c fr h).
Proof.
  intros (W & O & X) Hc Hb Hp Hf.
  assert (cpu_active h c = true) as Hon by (by rewrite (w_phase _ W), Hp).
  set (h1 := set_cpu_active c false (begun c fr h)).
  destruct (offline_spec c h1 Hc) as (r & E1 & R1 & N1 & M1); [apply W|].
  assert (online_active (cpu_active h1) r) as A1.
  { intros d Hd. simpl. destruct (decide (d = c)) as [->|]; [congruence|]. rewrite fn_lookup_insert_ne by done.
    apply W. by rewrite M1 in Hd. }
  set (h2 := smt_present c false (with_root r h1)).
  assert (smt_weight c (with_root r h1) = siblings (cpu_active h) (core_of c)) as Hw.
  { apply smt_weight_siblings. intros d. exact (up_at_rest h d W O Hb). }
  assert (h2 = with_smt (sched_smt_present h + (if siblings (cpu_active h) (core_of c) =? 2 then -1 else 0)) (with_root r h1)) as E2.
  { subst h2. unfold smt_present. rewrite Hw. destruct (_ =? 2); [done|]. by rewrite Z.add_0_r. }
  assert (rooted h2) as R2 by (by rewrite E2).
  destruct (deactivate_domains_spec h2 R2) as (r' & E3 & R3 & A3 & M3).
  do 2 (split; [|done]; eexists; split; [done|]). do 2 (split; [|done]; eexists; split; [done|]).
  split; [|done]. eexists. split; [exact E1|]. split; [|done]. eexists. split; [done|]. fold h2. split.
  - eexists. split; [unfold core_act; by rewrite E3|]. split; [|done]. eexists. split; [done|].
    rewrite E2 in M3, A3 |- *. simpl in M3, M1, A3. apply finish_settled; simpl; [done..| | |done|].
    + intros d. destruct (decide (d = c)) as [->|]; [by rewrite !fn_lookup_insert|]. rewrite !fn_lookup_insert_ne by done. apply W.
    + intros d _. by apply all_rest.
    + intros Hr. destruct (X Hr) as []. rewrite smt_cores_set, Z.add_0_r by done. split_and!; try done.
      * intros d Hd. destruct (decide (d = c)) as [->|]; [by rewrite fn_lookup_insert|]. rewrite fn_lookup_insert_ne by done.
        intros Hact. apply M3. rewrite M1 by done. simpl. auto.
      * by rewrite e_smt0.
      * unfold frozen_after. simpl. destruct fr; [|by rewrite andb_false_r]. rewrite Hf. simpl. lia.
      * unfold frozen_after. simpl. destruct fr; [by rewrite Hf|]. rewrite Hf. destruct (sched_smp_initialized h); [done|]. by rewrite e_asked0, Hf.
      * intros _ Hin. by apply (e_frozen0 c Hin).
      * auto.
      * by intros ->.
      * by intros ->.
  - intros Hr Htf. rewrite E2. simpl in A1. apply finish_settled; simpl; [done..| | | |done|by rewrite Hr].
    + split; simpl; [done|]. intros d Hd. destruct (decide (d = c)) as [->|]; [by rewrite fn_lookup_insert|].
      rewrite fn_lookup_insert_ne by done. by apply A1.
    + intros d. destruct (decide (d = c)) as [->|]; [by rewrite !fn_lookup_insert|]. rewrite !fn_lookup_insert_ne by done. apply W.
    + intros d _. by apply all_rest.
Qed.

(** * The thread *)

Definition planned (refusals : bool) s : Prop := goes refusals (todo s) (hot s).

Lemma deactivate_domains_answer b h :
  (deactivate_domains b h = (- EBUSY, h) ∧ b = true ∧ cpuhp_tasks_frozen h = false) ∨
  (deactivate_domains b h = deactivate_domains false h ∧ fst (deactivate_domains false h) = 0).
Proof.
  unfold deactivate_domains, cpuset_cpu_inactive. destruct (sched_smp_initialized h); [|by right].
  destruct (cpuhp_tasks_frozen h), b; simpl; auto.
Qed.

Lemma lift_ok (x : res core) s h : x = Ok h → lift x s = Ok (with_hot h s).
Proof. by intros ->. Qed.

Lemma act_goes b ref a l s : (b = true → ref = true) → ticks_ok s → before a (sketch_of s) → goes ref (a :: l) (hot s) →
  act b a (with_todo l s) = None ∨ ∃ t, act b a (with_todo l s) = Some (Ok t) ∧ planned ref t.
Proof.
  intros Hb K B ((h & E & G) & F). unfold planned.
  destruct a; cbn [act core_act] in *; try (injection E as <-).
  - right. eexists. split; [done|]. destruct (balance_push_set_rest c on (with_todo l s)) as (-> & _ & ->). exact G.
  - right. eexists. by split.
  - right. eexists. by split.
  - right. eexists. by split.
  - right. destruct (deactivate_domains_answer b (hot (with_todo l s))) as [(Ea & -> & Ef)|[Ea E0]]; rewrite Ea.
    + eexists. split; [done|]. do 2 (split; [|done]; eexists; split; [done|]). split; [|done]. eexists. split; [done|]. by apply F; auto.
    + simpl in *. destruct (deactivate_domains false (hot s)) as [e h']. simpl in E0. subst e. injection E as <-. eexists. by split.
  - right. eexists. split; [by erewrite lift_ok|]. exact G.
  - right. eexists. split; [by erewrite lift_ok|]. exact G.
  - right. eexists. by split.
  - case_match; [right; eexists; by split|by left].
  - right. destruct (sched_tick_start_ok c (with_todo l s) K B) as (t & Et & _ & _ & Eh & El & _).
    exists t. rewrite Et, Eh, El. by split.
  - right. destruct (sched_tick_stop_ok c (with_todo l s) K B) as (_ & _ & Eh & El & _). eexists. split; [done|]. rewrite Eh, El. exact G.
  - repeat case_match; [by left|right; eexists; by split|]. right. eexists. split; [done|]. simpl. split; [|done]. eexists. by split.
  - right. eexists. split; [done|]. by case_match.
  - right. eexists. split; [done|]. by case_match.
  - right. eexists. by split.
Qed.

Lemma init_smp_settled ref h : settled ref h → busy h = None → sched_smp_initialized h = false →
  settled ref (with_smp (request InitDomains h)).
Proof.
  intros (W & O & X) Hb Hs. assert (rooted h) as R by (split; apply W). destruct (request_rooted InitDomains h R) as [R1 A1].
  split; [|split].
  - split; [done..|apply W].
  - split; apply O.
  - intros Hr. destruct (X Hr) as []. split; simpl; try done.
    + intros c Hc Ha. apply (request_online InitDomains h c R). auto.
    + rewrite e_awake0; [done|]. destruct (cpuhp_tasks_frozen h); [|done]. by rewrite e_smp0 in Hs.
Qed.

Lemma may_continue_phase c s : may_continue c s → busy (hot s) = Some c ∧ todo s = [].
Proof. by intros (? & ? & _). Qed.

Lemma do_planned l s t ref : (l = Hot true → ref = true) → ticks_ok s → thread_ok s → planned ref s →
  do l s = Some (Ok t) → planned ref t.
Proof.
  intros Hl K T G H.
  assert (frame s t → planned ref t) as Hframe.
  { intros [E1 E2 _ _]. unfold planned. by rewrite E1, E2. }
  assert (do_callbacks l s = Some (Ok t) → planned ref t) as Hcb.
  { intros [F _]%do_callbacks_frame. auto. }
  unfold planned in *.
  destruct l; cbn [do] in H; try (by apply Hcb); cbn [do_hot] in H.
  - case_decide as D; [|done]. injection H as <-. destruct D as (D1 & D2 & D3). rewrite D2 in G. simpl. rewrite D2.
    by apply init_smp_settled.
  - case_decide as D; [|done]. injection H as <-. destruct D as (D1 & D2 & D3 & D4 & D5). rewrite D3 in G. by apply starting_goes.
  - case_decide as D; [|done]. injection H as <-. apply may_continue_phase in D as [D1 D2]. rewrite D2 in G. by apply activate_goes.
  - case_decide as D; [|done]. injection H as <-. destruct D as (D1 & D2 & D3 & D4 & D5). rewrite D3 in G.
    apply deactivate_goes; try done. by destruct tasks_frozen as []; [destruct D5|].
  - case_decide as D; [|done]. injection H as <-. apply may_continue_phase in D as [D1 D2]. rewrite D2 in G. by apply die_goes.
  - destruct (todo s) as [|a l] eqn:Ht; [done|]. unfold thread_ok in T. rewrite Ht in T. destruct T as (Hb & _).
    destruct (act_goes dl_cpu_busy ref a l s) as [E|(u & E & Gu)]; try done; [by intros ->; apply Hl|congruence|].
    rewrite E in H. by injection H as <-.
  - destruct (work_starts_ok c s K) as [E|(u & E & F & _)]; rewrite E in H; [done|]. injection H as <-. auto.
  - destruct (sched_tick_remote c stopped delta s) as [u|] eqn:E; [|done]. injection H as <-.
    destruct (sched_tick_remote_ok c stopped delta s u K E) as (F & _). auto.
Qed.

(** * The start *)

Lemma boot_siblings k : siblings (cpu_active boot_core) k ≤ 1.
Proof.
  assert (∀ l, NoDup l → count (λ d, (core_of d =? k) && (d =? boot_cpu)) l ≤ Z.b2z (bool_decide (boot_cpu ∈ l))) as H.
  { induction l as [|x l IH]; intros Hnd; [done|]. apply NoDup_cons in Hnd as [Hx Hnd]. specialize (IH Hnd). simpl.
    destruct (Z.eqb_spec x boot_cpu) as [->|Hne].
    - rewrite bool_decide_false in IH by done. rewrite bool_decide_true by by left.
      destruct (core_of boot_cpu =? k); simpl in *; lia.
    - rewrite andb_false_r. simpl. repeat case_bool_decide; simpl in *; try lia. exfalso. set_solver. }
  specialize (H possible possible_nodup). unfold siblings. simpl. destruct (bool_decide _); simpl in *; lia.
Qed.
Lemma boot_settled ref : settled ref boot_core.
Proof.
  split; [|split; [|intros _]].
  - split; simpl; [apply boot_roots_ok| |].
    + intros c. by rewrite boot_online.
    + intros c. by destruct (c =? boot_cpu).
  - split; simpl; [|done]. intros c. destruct (c =? boot_cpu); naive_solver.
  - split; simpl; try done; [| |constructor|intros c Hc; by apply elem_of_nil in Hc].
    + intros c _ Hc. by rewrite boot_online.
    + symmetry. change (smt_cores (cpu_active boot_core) = 0). unfold smt_cores.
      assert (∀ l, count (λ k, 2 <=? siblings (cpu_active boot_core) k) l = 0) as H; [|apply H].
      intros l. rewrite (count_ext _ (λ _, false)); [by induction l|]. intros k _. apply Z.leb_gt.
      pose proof (boot_siblings k). lia.
Qed.

Lemma boot_holds : ticks_ok migration_init ∧ thread_ok migration_init ∧ (∀ ref, planned ref migration_init) ∧ warned migration_init = false.
Proof.
  assert (ticks_ok boot) as K by (intros c; by split; simpl; auto).
  destruct (sched_tick_start_ok boot_cpu boot) as (t & E & Es & Kt & Eh & El & Ew); [done|by right|].
  unfold migration_init. rewrite E. split_and!; [done| | |done].
  - unfold thread_ok. rewrite El, Es. cbn [leads todo boot]. intros c. cbn [after]. unfold pushing, ticking.
    destruct (housekeeping_cpu boot_cpu) eqn:Hk; simpl; destruct (decide (c = boot_cpu)) as [->|Hne];
      rewrite ?fn_lookup_insert, ?fn_lookup_insert_ne, ?Z.eqb_refl, ?Hk by done; try done;
      apply Z.eqb_neq in Hne; rewrite Hne; by destruct (housekeeping_cpu c).
  - intros ref. unfold planned. rewrite El, Eh. apply boot_settled.
Qed.
End cores.
