(* ===== verification/HotplugProofs.v ===== *)
(** What Hotplug promises in every state that the machine can reach, what goes
    wrong, and a machine with two cores on which it runs. *)
From S2P Require Import Prelude Hotplug HotplugInv HotplugCores.
Local Open Scope Z_scope.

Section push.
Context `{P : platform} {PO : platform_ok}.
Implicit Types (s t : state) (h : core) (c w p k n : Z).

(** * The callback that pushes tasks off a processor *)

(** A push work of [w] is about the task [p]. *)
Definition work_about p s w : bool := match push_work s w with Some (_, q) => q =? p | None => false end.

Record push_ok s : Prop := {
  p_callbacks c : balance_callback (rqs s c) = (if balance_push_on (rqs s c) then [balance_push_callback] else []);
  p_held w c l : held s w = Some (c, l) → (balance_push_callback ∉ l) ∧ w ∈ possible;
  p_work w c p : push_work s w = Some (c, p) → c = w ∧ w ∈ possible;
  p_refs p : refs s p = count (work_about p s) possible;
}.

(** The tasks that must leave. *)
Definition ordinary c p (disabled : bool) : bool := negb ((idle c =? p) || kthread_is_per_cpu p || disabled).

(** No other processor handles the callbacks of a processor whose tasks are
    pushed off. *)
Definition at_home (l : label) s : Prop :=
  match l with
  | SetPrio w c _ => w = c ∨ balance_push_on (rqs s c) = false
  | Splice _ c _ => balance_push_on (rqs s c) = false
  | _ => True
  end.

(** States that differ in fields that [push_ok] does not read. *)
Record same_push s t : Prop := {
  sp_push c : balance_push_on (rqs t c) = balance_push_on (rqs s c);
  sp_callbacks c : balance_callback (rqs t c) = balance_callback (rqs s c);
  sp_held : held t = held s;
  sp_work : push_work t = push_work s;
  sp_refs : refs t = refs s;
}.
Lemma same_push_refl s : same_push s s.
Proof. by split. Qed.
Lemma same_push_trans s t u : same_push s t → same_push t u → same_push s u.
Proof. intros [] []. split; intros; congruence. Qed.
Lemma same_push_ok s t : same_push s t → push_ok s → push_ok t.
Proof.
  intros [E1 E2 E3 E4 E5] []. split.
  - intros c. by rewrite E1, E2.
  - rewrite E3. auto.
  - rewrite E4. auto.
  - intros p. unfold work_about. rewrite E4, E5. apply p_refs0.
Qed.
Lemma same_push_upd c f s : balance_push_on (f (rqs s c)) = balance_push_on (rqs s c) →
  balance_callback (f (rqs s c)) = balance_callback (rqs s c) → same_push s (upd_rq c f s).
Proof.
  intros E1 E2. split; try done; intros d; simpl;
    (destruct (decide (d = c)) as [->|]; [by rewrite fn_lookup_insert|by rewrite fn_lookup_insert_ne]).
Qed.

Lemma upd_rq_at c f s : rqs (upd_rq c f s) c = f (rqs s c).
Proof. apply fn_lookup_insert. Qed.

Lemma queue_normal_all l ks : balance_push_callback ∉ l →
  balance_push_callback ∉ foldl (λ l k, queue_balance_callback false k l) l ks.
Proof.
  revert l. induction ks as [|k ks IH]; simpl; intros l Hl; [done|]. apply IH.
  destruct (queue_normal k l) as [-> | ->]; [done|]. by apply not_elem_of_cons.
Qed.
Lemma queue_pushing_all l ks : foldl (λ l k, queue_balance_callback true k l) l ks = l.
Proof. revert l. induction ks as [|k ks IH]; simpl; intros l; [done|]. by rewrite queue_pushing. Qed.

Lemma run_normal w c l s : balance_push_callback ∉ l → ∃ rn, do_balance_callbacks w c l s = Ok (with_ran rn s).
Proof.
  revert s. induction l as [|[|k] l IH]; simpl; intros s Hl; [exists (ran s); by destruct s|set_solver|].
  destruct (IH (with_ran (ran s ++ [(c, k)]) s)) as [rn E]; [set_solver|]. rewrite E. by exists rn.
Qed.

Lemma stop_pending_work c s : push_ok s → c ∈ possible → stop_pending c s = negb (bool_decide (push_work s c = None)).
Proof.
  intros [] Hc. unfold stop_pending, work_for. destruct (push_work s c) as [[d p]|] eqn:E.
  - rewrite bool_decide_false by done. apply existsb_exists. exists c. rewrite E. destruct (p_work0 c d p E) as [-> _].
    split; [by apply list_elem_of_In|apply Z.eqb_refl].
  - rewrite bool_decide_true by done. simpl. apply not_true_iff_false. rewrite existsb_exists. intros (w & _ & H).
    destruct (push_work s w) as [[d p]|] eqn:Ew; [|done]. apply Z.eqb_eq in H as ->. destruct (p_work0 w c p Ew) as [-> _]. congruence.
Qed.

(** [balance_push] on its own processor: the callback is there again, and an
    ordinary task will be pushed away. *)
Lemma balance_push_ok c s : push_ok s → c ∈ possible → balance_push_on (rqs s c) = true →
  (ordinary c (curr (rqs s c)) (curr_disabled (rqs s c)) = true → push_work s c = None) →
  ∃ t, balance_push c c (upd_rq c (with_callbacks []) s) = Ok t ∧ push_ok t ∧ warned t = warned s ∧
    balance_push_on (rqs t c) = true ∧
    (if ordinary c (curr (rqs s c)) (curr_disabled (rqs s c))
     then push_work t c = Some (c, curr (rqs s c))
     else nr_running (rqs s c) = 0 → nr_pinned (rqs s c) = 0 → hotplug_wait (rqs t c) = false).
Proof.
  intros Pk Hc Hon Hord. unfold balance_push. rewrite Z.eqb_refl. simpl. rewrite !fn_lookup_insert. simpl.
  set (s1 := upd_rq c (with_callbacks [balance_push_callback]) (upd_rq c (with_callbacks []) s)).
  assert (same_push s s1) as S1.
  { split; try done; intros d; simpl; (destruct (decide (d = c)) as [->|]; [rewrite !fn_lookup_insert|by rewrite !fn_lookup_insert_ne]); [done|].
    simpl. by rewrite (p_callbacks _ Pk), Hon. }
  pose proof (same_push_ok _ _ S1 Pk) as P1.
  assert (rqs s1 c = with_callbacks [balance_push_callback] (with_callbacks [] (rqs s c))) as Er by (simpl; by rewrite !fn_lookup_insert).
  unfold ordinary in *. destruct ((idle c =? curr (rqs s c)) || kthread_is_per_cpu (curr (rqs s c)) || curr_disabled (rqs s c)); cbn [negb] in *.
  - unfold rq_has_pinned_tasks. cbn [nr_running nr_pinned hotplug_wait with_callbacks].
    assert (∃ b t, t = (if b : bool then upd_rq c (with_wait false) s1 else s1) ∧
      (if (nr_running (rqs s c) =? 0) && negb (negb (nr_pinned (rqs s c) =? 0)) && hotplug_wait (rqs s c)
       then Ok (upd_rq c (with_wait false) s1) else Ok s1) = Ok t ∧
      (b = false → nr_running (rqs s c) = 0 → nr_pinned (rqs s c) = 0 → hotplug_wait (rqs s c) = false)) as (b & t & Et & -> & Hw).
    { destruct (nr_running (rqs s c) =? 0) eqn:E1, (nr_pinned (rqs s c) =? 0) eqn:E2, (hotplug_wait (rqs s c)) eqn:E3; simpl;
        first [by exists true; eexists|exists false; eexists; split_and!; [done..|intros; try done; lia]]. }
    exists t. split; [done|]. destruct b; subst t.
    + split; [by eapply same_push_ok; [by apply same_push_upd|]|]. split; [done|].
      by rewrite upd_rq_at, Er.
    + split_and!; [done..|by rewrite Er|rewrite Er; auto].
  - unfold stop_one_cpu_nowait. cbn [push_work with_refs get_task_struct s1 upd_rq with_rqs]. rewrite Hord by done. eexists. split; [done|]. split_and!.
    + split; simpl.
      * apply P1.
      * apply P1.
      * intros w d p. destruct (decide (w = c)) as [->|]; [rewrite fn_lookup_insert; by intros [= <- <-]|].
        rewrite fn_lookup_insert_ne by done. apply Pk.
      * intros p. rewrite (count_change c _ (work_about p s)); [|apply possible_nodup|done|].
        -- unfold work_about at 2 3. simpl. rewrite fn_lookup_insert, Hord by done. simpl.
           destruct (Z.eqb_spec (curr (rqs s c)) p) as [<-|]; simpl.
           ++ rewrite fn_lookup_insert, (p_refs _ Pk). lia.
           ++ rewrite fn_lookup_insert_ne by done. rewrite (p_refs _ Pk). lia.
        -- intros w Hw. unfold work_about. simpl. by rewrite fn_lookup_insert_ne.
    + done.
    + change (balance_push_on (rqs s1 c) = true). by rewrite Er.
    + apply fn_lookup_insert.
Qed.

(** [__balance_callbacks] of [c] by [w], after the classes queued [ks]. *)
Lemma callbacks_ok w c ks s : push_ok s → w ∈ possible → c ∈ possible → w = c ∨ balance_push_on (rqs s c) = false →
  (balance_push_on (rqs s c) = true → ordinary c (curr (rqs s c)) (curr_disabled (rqs s c)) = true → push_work s c = None) →
  ∃ t, __balance_callbacks w c (queue_all c ks s) = Ok t ∧ push_ok t ∧ warned t = warned s ∧
    (balance_push_on (rqs s c) = true → balance_push_on (rqs t c) = true ∧
      if ordinary c (curr (rqs s c)) (curr_disabled (rqs s c))
      then push_work t c = Some (c, curr (rqs s c))
      else nr_running (rqs s c) = 0 → nr_pinned (rqs s c) = 0 → hotplug_wait (rqs t c) = false).
Proof.
  intros Pk Hw Hc Hhome Hord. unfold __balance_callbacks, splice_balance_callbacks, queue_all.
  pose proof (p_callbacks _ Pk c) as Hl. set (l := foldl _ _ ks). set (u := upd_rq c (with_callbacks l) s).
  assert (balance_callback (rqs u c) = l) as El by by (subst u; rewrite upd_rq_at). rewrite El. subst l.
  destruct (balance_push_on (rqs s c)) eqn:Hon.
  - rewrite queue_pushing_all, Hl in *. destruct Hhome as [->|]; [|done].
    assert (same_push s u) as S.
    { apply same_push_upd; [done|]. simpl. by rewrite queue_pushing_all. }
    destruct (balance_push_ok c u) as (t & E & P1 & W1 & B1 & C1).
    { by apply (same_push_ok s). } { done. } { by rewrite (sp_push _ _ S). }
    { subst u. rewrite upd_rq_at. intros Ho. by apply Hord. }
    exists t. simpl. cbn [run_callback]. rewrite E. simpl. subst u. rewrite upd_rq_at in C1. split_and!; auto.
  - assert (balance_push_callback ∉ foldl (λ l k, queue_balance_callback false k l) (balance_callback (rqs s c)) ks) as Hn.
    { apply queue_normal_all. rewrite Hl. by apply not_elem_of_nil. }
    set (l := foldl _ _ ks) in *.
    assert (∀ v, v = match l with [] => u | _ :: _ => upd_rq c (with_callbacks []) u end →
      same_push s v ∧ warned v = warned s) as Hv.
    { intros v ->. subst u. destruct l; (split; [|done]).
      - apply same_push_upd; [done|]. by rewrite Hl.
      - split; try done; intros d; simpl; (destruct (decide (d = c)) as [->|];
          [rewrite !fn_lookup_insert|by rewrite !fn_lookup_insert_ne]); [done|by rewrite Hl]. }
    destruct (Hv _ eq_refl) as [S W]. destruct (run_normal w c l (match l with [] => u | _ :: _ => upd_rq c (with_callbacks []) u end) Hn) as [rn E].
    rewrite E. eexists. split; [done|]. split_and!; [|exact W|done]. apply (same_push_ok s); [|done].
    eapply same_push_trans; [exact S|by split].
Qed.

Lemma push_stop_ok w c p b dest s : push_ok s → push_work s w = Some (c, p) →
  push_ok (__balance_push_cpu_stop w b dest s) ∧ warned (__balance_push_cpu_stop w b dest s) = warned s.
Proof.
  intros Pk E. destruct (p_work _ Pk _ _ _ E) as [-> Hw]. unfold __balance_push_cpu_stop. rewrite E.
  set (u := put_task_struct p (with_push_work (<[w := None]> (push_work s)) s)).
  assert (push_ok u) as Pu.
  { split; [apply Pk|apply Pk| |].
    - intros v d q. simpl. destruct (decide (v = w)) as [->|]; [by rewrite fn_lookup_insert|rewrite fn_lookup_insert_ne by done; apply Pk].
    - intros q. simpl. rewrite (count_change w _ (work_about q s)); [|apply possible_nodup|done|].
      + unfold work_about at 2 3. simpl. rewrite fn_lookup_insert, E. simpl.
        destruct (Z.eqb_spec p q) as [<-|]; simpl; [rewrite fn_lookup_insert|rewrite fn_lookup_insert_ne by done];
          rewrite (p_refs _ Pk); lia.
      + intros v Hv. unfold work_about. simpl. by rewrite fn_lookup_insert_ne. }
  destruct b; [|by split]. split; [|done]. apply (same_push_ok u); [|done].
  apply (same_push_trans _ (upd_rq w (λ r, with_counts (nr_running r - 1) (nr_pinned r) r) u)); [by apply same_push_upd|].
  set (u1 := upd_rq w _ u). eapply (same_push_trans _ (upd_rq dest (λ r, with_counts (nr_running r + 1) (nr_pinned r) r) u1)); [|by split].
  by apply same_push_upd.
Qed.

(** The steps of the processors and of their callbacks. *)
Lemma do_callbacks_ok l s r : push_ok s → at_home l s → do_callbacks l s = Some r →
  ∃ t, r = Ok t ∧ push_ok t ∧ warned t = warned s.
Proof.
  intros Pk Hh H. destruct l; cbn [do_callbacks] in H; try done.
  - case_decide as D; [|done]. destruct D as [Hc Hs]. injection H as <-.
    set (u := upd_rq c (λ r, with_counts n k (with_curr p disabled r)) s).
    assert (push_ok u) as Pu by (eapply same_push_ok; [by apply same_push_upd|done]).
    destruct (callbacks_ok c c ks u) as (t & E & Pt & Wt & _); [done..|by left| |by exists t].
    intros _ Ho. subst u. rewrite upd_rq_at in Ho. simpl in *. rewrite stop_pending_work in Hs by done.
    destruct (push_work s c) as [[d q]|]; [|done]. rewrite Hs in Ho by (by rewrite bool_decide_false).
    unfold ordinary in Ho. rewrite stopper_per_cpu, orb_true_r in Ho by done. done.
  - case_decide as D; [|done]. destruct D as (Hw & Hc & Hs). injection H as <-.
    destruct (callbacks_ok w c ks s) as (t & E & Pt & Wt & _); [done..| |by exists t].
    intros Hon _. destruct Hh as [<-|]; [|congruence]. rewrite stop_pending_work in Hs by done.
    case_bool_decide; done.
  - case_decide as D; [|done]. destruct D as (Hw & Hc & Hs). simpl in Hh. unfold splice_balance_callbacks in H.
    injection H as <-. eexists. split; [done|]. pose proof (p_callbacks _ Pk c) as Hl. rewrite Hh in Hl.
    assert (balance_push_callback ∉ balance_callback (rqs (queue_all c ks s) c)) as Hn.
    { unfold queue_all. rewrite upd_rq_at. simpl. rewrite Hh. apply queue_normal_all. rewrite Hl. by apply not_elem_of_nil. }
    set (l := balance_callback (rqs (queue_all c ks s) c)) in *.
    set (u := match l with [] => queue_all c ks s | _ :: _ => upd_rq c (with_callbacks []) (queue_all c ks s) end).
    assert (balance_callback (rqs u c) = []) as Eu.
    { subst u. destruct l eqn:El; [exact El|by rewrite upd_rq_at]. }
    assert (same_push s u) as S.
    { split; try (subst u; by destruct l); intros d; (destruct (decide (d = c)) as [->|Hd]; [try congruence|]);
        subst u; destruct l; simpl; rewrite ?fn_lookup_insert, ?fn_lookup_insert_ne by done; done. }
    assert (warned u = warned s) as W by (subst u; by destruct l). split; [|done].
    apply (same_push_ok _ _ S) in Pk as []. split; simpl; [done| |done|done].
    intros v d x. destruct (decide (v = w)) as [->|]; [rewrite fn_lookup_insert; by intros [= <- <-]|].
    rewrite fn_lookup_insert_ne by done. apply p_held0.
  - destruct (held s w) as [[c l]|] eqn:E; [|done]. injection H as <-. destruct (p_held _ Pk w c l E) as [Hn Hw].
    set (u := with_rcu_waits _ _). assert (push_ok u) as Pu.
    { destruct Pk. split; simpl; [done| |done|done]. intros v d x.
      destruct (decide (v = w)) as [->|]; [by rewrite fn_lookup_insert|rewrite fn_lookup_insert_ne by done; apply p_held0]. }
    destruct (run_normal w c l u Hn) as [rn En]. exists (with_ran rn u). split; [|by split; [eapply same_push_ok; [|done]|]].
    destruct l; [|exact En]. simpl in En. by injection En as <-.
  - destruct (push_work s w) as [[c p]|] eqn:E; [|done]. case_match; [|done]. injection H as <-.
    eexists. split; [done|]. by apply (push_stop_ok w c p).
  - injection H as <-. eexists. split; [done|]. split; [|done]. eapply same_push_ok; [by apply same_push_upd|done].
Qed.

Lemma balance_push_set_push_ok c on s : push_ok s → (on = true → balance_push_on (rqs s c) = false) →
  push_ok (balance_push_set c on s) ∧ warned (balance_push_set c on s) = warned s.
Proof.
  intros Pk Hon. pose proof (p_callbacks _ Pk c) as Hl.
  assert (∃ t, balance_push_set c on s = t ∧ (∀ d, balance_push_on (rqs t d) = if decide (d = c) then on else balance_push_on (rqs s d)) ∧
    (∀ d, balance_callback (rqs t d) = if decide (d = c) then (if on then [balance_push_callback] else []) else balance_callback (rqs s d)) ∧
    held t = held s ∧ push_work t = push_work s ∧ refs t = refs s ∧ warned t = warned s) as (t & -> & B & C & E1 & E2 & E3 & E4).
  { eexists. split; [done|]. unfold balance_push_set. rewrite upd_rq_at. cbn [balance_callback with_push]. destruct on.
    - rewrite Hon in Hl by done. rewrite Hl. split_and!; try done; intros d; simpl; case_decide as D; try subst d;
        rewrite ?fn_lookup_insert, ?fn_lookup_insert_ne by done; done.
    - destruct (balance_push_on (rqs s c)); rewrite Hl; simpl; split_and!; try done; intros d; simpl; case_decide as D; try subst d;
        rewrite ?fn_lookup_insert, ?fn_lookup_insert_ne by done; done. }
  split; [|done]. destruct Pk. split.
  - intros d. rewrite B, C. case_decide; [done|apply p_callbacks0].
  - rewrite E1. apply p_held0.
  - rewrite E2. apply p_work0.
  - intros p. rewrite E3, p_refs0. unfold work_about. by rewrite E2.
Qed.

(** Only the task of the hot-plug thread is on the processor. *)
Definition alone s c : Prop := nr_running (rqs s c) = 1 ∧ nr_pinned (rqs s c) = 0.

Lemma act_push b a l s t : push_ok s → ticks_ok s → before a (sketch_of s) → act b a (with_todo l s) = Some (Ok t) →
  push_ok t ∧ ((∀ c, a = CheckVacated c → alone s c) → warned t = warned s).
Proof.
  intros Pk K B H.
  assert (∀ u, same_push s u → warned u = warned s → push_ok u ∧ ((∀ c, a = CheckVacated c → alone s c) → warned u = warned s)) as go.
  { intros u S W. split; [by eapply same_push_ok|done]. }
  destruct a; cbn [act] in H.
  - injection H as <-. destruct (balance_push_set_push_ok c on (with_todo l s)) as [Pt Wt]; [by apply (same_push_ok s)|by intros ->|by split].
  - injection H as <-. by apply go.
  - injection H as <-. by apply go.
  - injection H as <-. by apply go.
  - destruct (deactivate_domains b _) as [e h]. injection H as <-. case_match; by apply go.
  - injection H as (h & _ & ->)%lift_inv. by apply go.
  - injection H as (h & _ & ->)%lift_inv. by apply go.
  - injection H as <-. by apply go.
  - case_match; [|done]. injection H as <-. by apply go.
  - destruct (sched_tick_start_ok c (with_todo l s) K B) as (u & E & _ & _ & _ & _ & W). rewrite E in H. injection H as <-.
    apply go; [|done]. unfold sched_tick_start, init_and_queue in E. repeat (case_match || case_decide); by simplify_eq.
  - destruct (sched_tick_stop_ok c (with_todo l s) K B) as (_ & _ & _ & _ & W). injection H as <-.
    apply go; [|done]. unfold sched_tick_stop. by repeat case_match.
  - repeat case_match; try done; injection H as <-; [by apply go|]. apply go; [|done].
    apply (same_push_trans _ (upd_rq c (with_wait true) s)); [by apply same_push_upd|by split].
  - injection H as <-. split; [eapply same_push_ok; [|done]; by case_match|]. intros Ha. destruct (Ha c eq_refl) as [A1 A2].
    unfold rq_has_pinned_tasks. cbn [rqs with_todo]. by rewrite A1, A2.
  - injection H as <-. case_match; by apply go.
  - injection H as <-. by apply go.
Qed.

(** * The processor that goes is empty *)

Definition same_counts s t : Prop :=
  ∀ c, nr_running (rqs t c) = nr_running (rqs s c) ∧ nr_pinned (rqs t c) = nr_pinned (rqs s c).
#[local] Instance same_counts_trans : Transitive same_counts.
Proof. intros s t u H G c. destruct (H c), (G c). split; congruence. Qed.
Lemma same_counts_upd c f s : nr_running (f (rqs s c)) = nr_running (rqs s c) →
  nr_pinned (f (rqs s c)) = nr_pinned (rqs s c) → same_counts s (upd_rq c f s).
Proof.
  intros E1 E2 d. simpl. destruct (decide (d = c)) as [->|]; [by rewrite fn_lookup_insert|by rewrite fn_lookup_insert_ne].
Qed.
Lemma alone_same s t c : same_counts s t → alone s c → alone t c.
Proof. intros H [A1 A2]. destruct (H c). split; congruence. Qed.

Lemma balance_push_counts w c s t : balance_push w c s = Ok t → same_counts s t.
Proof.
  unfold balance_push, stop_one_cpu_nowait. set (s1 := if c =? w then s else warn s).
  set (s2 := upd_rq c (with_callbacks [balance_push_callback]) s1).
  assert (same_counts s s2) as S.
  { transitivity s1; [subst s1; by case_match|by apply same_counts_upd]. }
  intros H. repeat case_match; simplify_eq; try done. transitivity s2; [done|by apply same_counts_upd].
Qed.
Lemma do_balance_callbacks_counts w c l s t : do_balance_callbacks w c l s = Ok t → same_counts s t.
Proof.
  revert s. induction l as [|cb l IH]; simpl; intros s H; [by injection H as <-|].
  apply res_bind_ok_inv in H as (s1 & Hb & H). transitivity s1; [|by apply IH].
  destruct cb; simpl in Hb; [by eapply balance_push_counts|by injection Hb as <-].
Qed.
Lemma splice_counts c s : same_counts s (snd (splice_balance_callbacks c s)).
Proof. unfold splice_balance_callbacks. simpl. case_match; [done|by apply same_counts_upd]. Qed.
Lemma callbacks_counts w c ks s t : __balance_callbacks w c (queue_all c ks s) = Ok t → same_counts s t.
Proof.
  unfold __balance_callbacks. pose proof (splice_counts c (queue_all c ks s)) as F.
  destruct (splice_balance_callbacks _ _) as [l u]. intros G%do_balance_callbacks_counts.
  transitivity (queue_all c ks s); [by apply same_counts_upd|by transitivity u].
Qed.

(** [sched_cpu_wait_empty] of [c] has returned and [sched_cpu_dying] has not
    looked yet whether the processor is empty. *)
Definition emptied c (l : list action) : Prop := CheckVacated c ∈ l ∧ head l ≠ Some (BalanceHotplugWait c).

(** No task is put on such a processor or leaves it. *)
Definition stays_empty (l : label) s : Prop := ∀ c, emptied c (todo s) →
  match l with
  | Pick d _ _ n k _ | Counts d _ n k => d = c → n = 1 ∧ k = 0
  | PushStop w on_this_rq dest => on_this_rq = true → dest ≠ c ∧ ∀ d p, push_work s w = Some (d, p) → d ≠ c
  | _ => True
  end.

Definition vacated_ok s : Prop := ∀ c, emptied c (todo s) → alone s c.

Lemma counts_alone c d b (p : rq → Z) n k s : (d = c → n = 1 ∧ k = 0) → alone s c →
  alone (upd_rq d (λ r, with_counts n k (with_curr (p r) b r)) s) c.
Proof.
  intros Hd A. unfold alone. simpl. destruct (decide (c = d)) as [->|Hne];
    [rewrite fn_lookup_insert; by apply Hd|by rewrite fn_lookup_insert_ne].
Qed.

Lemma do_callbacks_alone l s t c : stays_empty l s → emptied c (todo s) → alone s c →
  do_callbacks l s = Some (Ok t) → alone t c.
Proof.
  intros Hl Hc A. specialize (Hl c Hc). destruct l; cbn [do_callbacks]; try done.
  - case_decide; [|done]. intros [= HB]. eapply alone_same; [by eapply callbacks_counts|]. by apply (counts_alone c c0 disabled (λ _, p)).
  - case_decide; [|done]. intros [= HB]. eapply alone_same; [by eapply callbacks_counts|done].
  - case_decide; [|done]. pose proof (splice_counts c0 (queue_all c0 ks s)) as F.
    destruct (splice_balance_callbacks _ _) as [l u]. intros [= <-]. apply (alone_same s); [|done].
    transitivity (queue_all c0 ks s); [by apply same_counts_upd|]. exact F.
  - destruct (held s w) as [[d l]|]; [|done]. unfold balance_callbacks. intros HB. injection HB as H.
    set (u := with_rcu_waits _ _) in H. assert (do_balance_callbacks w d l u = Ok t) as G%do_balance_callbacks_counts by by destruct l.
    by apply (alone_same s).
  - destruct (push_work s w) as [[d p]|] eqn:E; [|done]. case_match; [|done]. unfold __balance_push_cpu_stop. rewrite E.
    destruct on_this_rq; intros [= <-]; [|done]. destruct Hl as [H1 H2]; [done|]. specialize (H2 d p eq_refl).
    unfold alone. simpl. by rewrite !fn_lookup_insert_ne by done.
  - intros [= <-]. by apply (counts_alone c c0 disabled curr).
Qed.

Lemma balance_push_set_counts c on s : same_counts s (balance_push_set c on s).
Proof.
  unfold balance_push_set. set (u := upd_rq c (with_push on) s).
  assert (same_counts s u) by by apply same_counts_upd.
  destruct on; [|case_decide; [|done]]; (transitivity u; [done|]).
  - case_match; [by apply same_counts_upd|by apply (same_counts_upd c _ (warn u))].
  - by apply same_counts_upd.
Qed.
Lemma act_counts b a l s t : act b a (with_todo l s) = Some (Ok t) →
  same_counts s t ∧ (todo t = l ∧ (∀ c, a = BalanceHotplugWait c → alone s c) ∨ todo t = a :: l ∨ ∃ c, todo t = deactivate_failed c).
Proof.
  intros H. destruct a; cbn [act] in H;
    try (injection H as <-; split; [done|by left]); try (injection H as (h & _ & ->)%lift_inv; split; [done|by left]).
  - injection H as <-. destruct (balance_push_set_rest c on (with_todo l s)) as (E & _). split; [|by left].
    apply (balance_push_set_counts c on (with_todo l s)).
  - destruct (deactivate_domains b _) as [e h]. injection H as <-. split; [by case_match|]. case_match; [by left|right; right; by exists c].
  - case_match; [|done]. injection H as <-. split; [done|by left].
  - unfold sched_tick_start, init_and_queue in H. repeat (case_match || case_decide); simplify_eq; (split; [done|by left]).
  - injection H as <-. unfold sched_tick_stop. repeat case_match; (split; [done|by left]).
  - destruct (hotplug_wait _); [done|]. destruct (_ && _) eqn:E; injection H as <-.
    + split; [done|]. left. split; [done|]. intros c' [= <-]. apply andb_true_iff in E as [E1 E2].
      apply Z.eqb_eq in E1. apply negb_true_iff, negb_false_iff, Z.eqb_eq in E2. by split.
    + split; [|by right; left]. transitivity (upd_rq c (with_wait true) s); [by apply same_counts_upd|done].
  - injection H as <-. case_match; (split; [done|by left]).
  - injection H as <-. case_match; (split; [done|by left]).
Qed.
Lemma act_vacated b a l s t : vacated_ok s → todo s = a :: l → act b a (with_todo l s) = Some (Ok t) → vacated_ok t.
Proof.
  intros V Ht H c Hc. destruct (act_counts b a l s t H) as [S [[E Ha]|[E|[d E]]]]; rewrite E in Hc; apply (alone_same s); try done.
  - destruct (decide (a = BalanceHotplugWait c)) as [->|Hne]; [by apply Ha|]. apply V. rewrite Ht. destruct Hc.
    split; [by right|]. simpl. congruence.
  - apply V. by rewrite Ht.
  - destruct Hc as [Hc _]. unfold deactivate_failed in Hc. set_solver.
Qed.

(** * Reachable states *)

(** The states that the machine reaches by steps that [allowed] admits. *)
Definition reach (allowed : label → state → Prop) : state → Prop :=
  rtc (λ s t, ∃ l, allowed l s ∧ do l s = Some (Ok t)) migration_init.
Definition any (l : label) s : Prop := True.
Definition accepted (l : label) s : Prop := l ≠ Hot true.

Lemma reach_ind (allowed : label → state → Prop) (Q : state → Prop) :
  Q migration_init → (∀ l s t, Q s → allowed l s → do l s = Some (Ok t) → Q t) → ∀ s, reach allowed s → Q s.
Proof. intros H0 HS s H. refine (rtc_ind_r Q migration_init H0 _ s H). intros t u _ (l & Ha & Hd) Ht. by apply (HS l t u). Qed.

Lemma reach_thread allowed s : reach allowed s → ticks_ok s ∧ thread_ok s ∧ planned true s.
Proof.
  revert s. apply reach_ind; [destruct boot_holds as (? & ? & ? & _); auto|]. intros l s t (K & T & G) _ H.
  destruct (do_thread l s t K T H). split_and!; [done..|]. by apply (do_planned l s t).
Qed.
Lemma reach_accepted s : reach accepted s → planned false s.
Proof.
  intros H. refine (proj2 (reach_ind accepted (λ s, reach accepted s ∧ planned false s) _ _ s H)).
  - split; [apply rtc_refl|]. by destruct boot_holds as (_ & _ & ? & _).
  - intros l u t [R G] Ha Hd. split; [eapply rtc_r; [exact R|by exists l]|]. destruct (reach_thread _ _ R) as (K & T & _).
    apply (do_planned l u t); [|done..]. by intros ->.
Qed.

(** A remote tick finds the current task with less than three seconds since
    the last tick. *)
Definition in_time (l : label) : Prop := match l with Remote _ _ delta => delta ≤ NSEC_PER_SEC * 3 | _ => True end.

(** What the scheduler expects of its surroundings. *)
Definition orderly (l : label) s : Prop := at_home l s ∧ stays_empty l s ∧ in_time l.

(** The next step of the scheduler's own machinery. *)
Lemma region_defined l s r : ticks_ok s → thread_ok s → planned true s → push_ok s → at_home l s → do l s = Some r →
  ∃ t, r = Ok t ∧ push_ok t ∧ (vacated_ok s → in_time l → warned t = warned s).
Proof.
  intros K T G Pk Hh H.
  assert (∀ u, same_push s u → (in_time l → warned u = warned s) →
    ∃ t, Ok u = Ok t ∧ push_ok t ∧ (vacated_ok s → in_time l → warned t = warned s)) as go.
  { intros u S W. exists u. split_and!; [done|by eapply same_push_ok|auto]. }
  assert (do_callbacks l s = Some r → ∃ t, r = Ok t ∧ push_ok t ∧ (vacated_ok s → in_time l → warned t = warned s)) as Hcb.
  { intros (t & -> & Pt & W)%do_callbacks_ok; [|done..]. by exists t. }
  destruct l; cbn [do] in H; try (by apply Hcb); cbn [do_hot] in H;
    try (case_decide; [|done]; injection H as <-; by apply go).
  - destruct (todo s) as [|a l] eqn:Ht; [done|]. unfold thread_ok in T. rewrite Ht in T. destruct T as (B & _).
    unfold planned in G. rewrite Ht in G.
    destruct (act_goes dl_cpu_busy true a l s) as [E|(t & E & _)]; try done; [congruence|]. rewrite H in E. injection E as ->.
    exists t. split; [done|]. destruct (act_push dl_cpu_busy a l s t) as [Pt Wt]; [done..|]. split; [done|].
    intros V _. apply Wt. intros c ->. apply V. rewrite Ht. by split; [left|].
  - destruct (work_starts_ok c s K) as [E|(t & E & _ & _ & W)]; rewrite E in H; [done|]. injection H as <-.
    apply go; [|done]. unfold work_starts in E. repeat (case_match || case_decide); by simplify_eq.
  - destruct (sched_tick_remote c stopped delta s) as [t|] eqn:E; [|done]. injection H as <-.
    destruct (sched_tick_remote_ok c stopped delta s t K E) as (_ & _ & W). apply go; [|done].
    unfold sched_tick_remote in E. repeat case_match; by simplify_eq.
Qed.

(** An action list in which no processor is checked. *)
Lemma unchecked_vacated s : (∀ c, ¬ emptied c (todo s)) → vacated_ok s.
Proof. intros H c Hc. by destruct (H c). Qed.

Lemma do_vacated l s t : stays_empty l s → vacated_ok s → do l s = Some (Ok t) → vacated_ok t.
Proof.
  intros Hl V H.
  assert (do_callbacks l s = Some (Ok t) → vacated_ok t) as Hcb.
  { intros Hd c Hc. rewrite (f_todo _ _ (proj1 (do_callbacks_frame _ _ _ Hd))) in Hc. by apply (do_callbacks_alone l s); auto. }
  destruct l; cbn [do] in H; try (by apply Hcb); cbn [do_hot] in H;
    try (case_decide; [|done]; injection H as <-; first [exact V|
      apply unchecked_vacated; intros d [Hd Hn]; cbn in Hd, Hn; set_solver]).
  - destruct (todo s) as [|a l] eqn:Ht; [done|]. by apply (act_vacated dl_cpu_busy a l s).
  - unfold work_starts in H. repeat (case_match || case_decide); simplify_eq. exact V.
  - destruct (sched_tick_remote c stopped delta s) as [u|] eqn:E; [|done]. injection H as <-.
    unfold sched_tick_remote in E. repeat case_match; simplify_eq; exact V.
Qed.

Lemma boot_push : push_ok migration_init.
Proof.
  assert (same_push boot migration_init) as S.
  { unfold migration_init, sched_tick_start, init_and_queue. repeat (case_match || case_decide); simplify_eq; done. }
  apply (same_push_ok boot); [done|]. split; try done. intros p. simpl.
  change (0 = count (λ _, false) possible). by induction possible.
Qed.
Lemma boot_todo : todo migration_init = [].
Proof. unfold migration_init, sched_tick_start, init_and_queue. repeat (case_match || case_decide); by simplify_eq. Qed.

Lemma reach_at_home s : reach at_home s → push_ok s.
Proof.
  intros H. refine (proj2 (reach_ind at_home (λ s, reach at_home s ∧ push_ok s) _ _ s H)).
  - split; [apply rtc_refl|apply boot_push].
  - intros l u t (R & Pk) Ha Hd. split; [eapply rtc_r; [exact R|by exists l]|]. destruct (reach_thread _ _ R) as (K & T & G).
    destruct (region_defined l u (Ok t) K T G Pk Ha Hd) as (t' & E & Pt & _). by injection E as <-.
Qed.
Lemma reach_mono (a b : label → state → Prop) s : (∀ l s, a l s → b l s) → reach a s → reach b s.
Proof. intros H. apply rtc_subrel. intros u t (l & Hl & Hd). exists l. auto. Qed.
Lemma reach_orderly s : reach orderly s → push_ok s ∧ vacated_ok s ∧ warned s = false.
Proof.
  intros H. split; [apply reach_at_home; revert H; apply reach_mono; by intros l u []|].
  refine (proj2 (reach_ind orderly (λ s, reach orderly s ∧ vacated_ok s ∧ warned s = false) _ _ s H)).
  - split; [apply rtc_refl|]. destruct boot_holds as (_ & _ & _ & W). split; [|done]. intros c [Hc _]. rewrite boot_todo in Hc. set_solver.
  - intros l u t (R & V & W) (Ha & He & Hi) Hd. split; [eapply rtc_r; [exact R|by exists l]|]. destruct (reach_thread _ _ R) as (K & T & G).
    assert (push_ok u) as Pk by (apply reach_at_home; revert R; apply reach_mono; by intros l' u' []).
    destruct (region_defined l u (Ok t) K T G Pk Ha Hd) as (t' & E & _ & Wt). injection E as <-.
    split; [by apply (do_vacated l u)|]. by rewrite Wt.
Qed.

Lemma todo_rests s : thread_ok s → todo s = [] → rests (sketch_of s).
Proof. unfold thread_ok. intros T E. by rewrite E in T. Qed.

(** * Properties *)

(** C7: whatever processors are taken up and down and whatever happens on
    them meanwhile, deactivations that are refused included, no region of the
    scheduler's part of it has an undefined result: no BUG_ON is reached, no
    work is queued or initialised while it is in a queue, and no WARN fires,
    as long as a run queue from which tasks are pushed off has its callbacks
    run by its own processor only, no task comes to a processor between
    [sched_cpu_wait_empty] and the look of [sched_cpu_dying] at its run queue,
    and the remote ticks of a busy processor are at most three seconds
    apart. *)
Theorem hotplug_defined s l r : reach orderly s → orderly l s → do l s = Some r → ∃ t, r = Ok t ∧ warned t = false.
Proof.
  intros R (Hh & _ & Hi) H. destruct (reach_thread _ _ R) as (K & T & G). destruct (reach_orderly _ R) as (Pk & V & W).
  destruct (region_defined l s r K T G Pk Hh H) as (t & -> & _ & Wt). exists t. split; [done|]. by rewrite Wt.
Qed.

(** C6: when no deactivation is refused and the thread rests, every processor
    is as its phase says: exactly the active ones are in cpu_active, their
    run queues online in their root domains; sched_smt_present is the number
    of cores with two active processors or more; num_cpus_frozen counts the
    processors that a suspend has taken down, and there is a single domain
    exactly while there are such. *)
Theorem processors_exact s : reach accepted s → todo s = [] →
  (∀ c, cpu_active (hot s) c = bool_decide (at_phase (hot s) c = Active)) ∧
  (∀ c, c ∈ possible → ∃ d, rd (root (hot s)) c = Some d ∧ online (root (hot s)) c = cpu_active (hot s) c ∧
     rd_online (root (hot s)) d c = cpu_active (hot s) c) ∧
  sched_smt_present (hot s) = smt_cores (cpu_active (hot s)) ∧
  num_cpus_frozen (hot s) = Z.of_nat (length (frozen_cpus (hot s))) ∧
  (asked (hot s) = OneDomain ↔ frozen_cpus (hot s) ≠ []) ∧
  (∀ c, c ∈ frozen_cpus (hot s) → at_phase (hot s) c ≠ Active).
Proof.
  intros R Ht. pose proof (reach_accepted _ R) as G. unfold planned in G. rewrite Ht in G.
  destruct G as (W & _ & X). destruct (X eq_refl). split_and!; try done; [apply W|].
  intros c Hc. destruct (w_roots _ W c Hc) as (d & E1 & _ & E2).
  assert (online (root (hot s)) c = cpu_active (hot s) c) as E.
  { destruct (cpu_active (hot s) c) eqn:Ha; [auto|]. destruct (online _ c) eqn:Eo; [|done]. by rewrite (w_online _ W c Eo) in Ha. }
  exists d. by rewrite E2.
Qed.

(** The steps of the remote tick and of the thread that starts and stops it. *)
Definition tick_step (l : label) s : Prop :=
  match l with
  | WorkStarts _ => True
  | Remote _ _ _ => in_time l
  | Hot _ => ∃ c, head (todo s) = Some (SchedTickStart c) ∨ head (todo s) = Some (SchedTickStop c)
  | _ => False
  end.

(** The remote tick of a processor is in the work queue or under way once,
    exactly while its state is not OFFLINE; when the thread rests the state is
    RUNNING exactly for the processors that are up and not housekeeping; and
    however the work races with the thread, no WARN of the state machine
    fires and no work is queued twice or initialised while it is in use. *)
Theorem remote_tick_exact s : reach any s →
  (∀ c, queued (ticks s c) + Z.b2z (bool_decide (remote (ticks s c) ≠ None)) =
        Z.b2z (negb (tick_state (ticks s c) =? TICK_SCHED_REMOTE_OFFLINE))) ∧
  (todo s = [] → ∀ c, housekeeping_cpu c = false →
     (tick_state (ticks s c) = TICK_SCHED_REMOTE_RUNNING ↔ at_phase (hot s) c ≠ Offline)) ∧
  (∀ l r, tick_step l s → do l s = Some r → ∃ t, r = Ok t ∧ warned t = warned s).
Proof.
  intros R. destruct (reach_thread _ _ R) as (K & T & _). split_and!.
  - intros c. apply K.
  - intros Ht c Hk. destruct (todo_rests s T Ht c) as [_ E]. simpl in E. rewrite Hk in E. unfold ticking in E. simpl in E.
    rewrite <-Z.eqb_eq, E, negb_true_iff, bool_decide_eq_false. done.
  - intros l r Hl H. destruct l; try done; cbn [do do_hot] in H.
    + destruct Hl as [c Hc]. destruct (todo s) as [|a l] eqn:Ht; [by destruct Hc|]. unfold thread_ok in T. rewrite Ht in T.
      destruct T as (B & _). simpl in Hc. destruct Hc as [[= ->]|[= ->]]; cbn [act] in H.
      * destruct (sched_tick_start_ok c (with_todo l s) K B) as (t & E & _ & _ & _ & _ & W). rewrite E in H. injection H as <-. by exists t.
      * destruct (sched_tick_stop_ok c (with_todo l s) K B) as (_ & _ & _ & _ & W). injection H as <-. eexists. split; [done|exact W].
    + destruct (work_starts_ok c s K) as [E|(t & E & _ & _ & W)]; rewrite E in H; [done|]. injection H as <-. by exists t.
    + destruct (sched_tick_remote c stopped delta s) as [t|] eqn:E; [|done]. injection H as <-.
      destruct (sched_tick_remote_ok c stopped delta s t K E) as (_ & _ & W). exists t. auto.
Qed.

(** C8: while tasks are pushed off a processor, every task that its
    [__schedule] puts on it and that may be moved gets a push work that holds
    a reference to it, until which has run the stopper is the next task; when
    the processor becomes empty, the thread that waits for this is woken. *)
Theorem tasks_pushed_off s t c p b n k ks : reach at_home s → balance_push_on (rqs s c) = true →
  do (Pick c p b n k ks) s = Some (Ok t) →
  balance_push_on (rqs t c) = true ∧ balance_callback (rqs t c) = [balance_push_callback] ∧
  (ordinary c p b = true → push_work t c = Some (c, p) ∧ 1 ≤ refs t p) ∧
  (ordinary c p b = false → n = 0 → k = 0 → hotplug_wait (rqs t c) = false).
Proof.
  intros R Hon H. pose proof (reach_at_home _ R) as Pk. cbn [do do_callbacks] in H. case_decide as D; [|done]. destruct D as [Hc Hs].
  injection H as H. set (u := upd_rq c (λ r, with_counts n k (with_curr p b r)) s) in *.
  assert (push_ok u) as Pu by (eapply same_push_ok; [by apply same_push_upd|done]).
  assert (rqs u c = with_counts n k (with_curr p b (rqs s c))) as Eu by apply upd_rq_at.
  destruct (callbacks_ok c c ks u) as (t' & E & Pt & _ & X); [done..|by left| |].
  - rewrite Eu. simpl. intros _ Ho. rewrite stop_pending_work in Hs by done. destruct (push_work s c) as [[d q]|]; [|done].
    rewrite Hs in Ho by (by rewrite bool_decide_false). unfold ordinary in Ho. rewrite stopper_per_cpu, orb_true_r in Ho by done. done.
  - rewrite H in E. injection E as <-. rewrite Eu in X. simpl in X. destruct (X Hon) as [Y1 Y2].
    split_and!; [done|by rewrite (p_callbacks _ Pt), Y1| |].
    + intros Ho. rewrite Ho in Y2. split; [done|]. rewrite (p_refs _ Pt).
      rewrite (count_change c _ (λ v, work_about p t v && negb (v =? c))); [|apply possible_nodup|done|].
      * assert (work_about p t c = true) as Ew by (unfold work_about; by rewrite Y2, Z.eqb_refl).
        cbv beta. rewrite Ew, Z.eqb_refl. cbn [andb negb Z.b2z].
        assert (∀ f l, 0 ≤ count f l) as Hpos; [|specialize (Hpos (λ v, work_about p t v && negb (v =? c)) possible); lia].
        intros f l. induction l as [|x l IH]; simpl; [done|]. destruct (f x); simpl; lia.
      * intros v Hv. apply Z.eqb_neq in Hv. rewrite Hv. by rewrite andb_true_r.
    + intros Ho. rewrite Ho in Y2. auto.
Qed.

(** * A run of the machine *)

Fixpoint run (ls : list label) (s : state) : option state :=
  match ls with
  | [] => Some s
  | l :: ls => match do l s with Some (Ok s') => run ls s' | _ => None end
  end.

(** The steps of the thread that takes processors up and down. *)
Definition of_thread (l : label) : bool :=
  match l with SchedInitSmp | Up _ _ | Down _ _ | Activate _ | Die _ | Hot _ => true | _ => false end.
Definition regions (n : nat) : list label := repeat (Hot false) n.
(** An attempt to take [c] down that dl_cpu_busy refuses. *)
Definition refused c : list label := Down c false :: regions 6 ++ Hot true :: regions 3.

Lemma others_frame l s t : of_thread l = false → do l s = Some (Ok t) → hot t = hot s ∧ todo t = todo s.
Proof.
  intros Hl H. destruct l; cbn [do] in H; try done;
    try (apply do_callbacks_frame in H as [F _]; split; [apply (f_hot _ _ F)|apply (f_todo _ _ F)]).
  - unfold work_starts in H. repeat (case_match || case_decide); by simplify_eq.
  - destruct (sched_tick_remote c stopped delta s) as [u|] eqn:E; [|done]. injection H as <-.
    unfold sched_tick_remote in E. repeat case_match; by simplify_eq.
Qed.

(** What the thread does next in a run; nothing else changes its data. *)
Lemma run_thread ls s t l ls' : run ls s = Some t → filter of_thread ls = l :: ls' →
  ∃ s1 s2 ls2, hot s1 = hot s ∧ todo s1 = todo s ∧ do l s1 = Some (Ok s2) ∧ run ls2 s2 = Some t ∧ filter of_thread ls2 = ls'.
Proof.
  revert s. induction ls as [|x ls IH]; intros s; simpl; [done|]. rewrite filter_cons.
  destruct (do x s) as [[u| |]|] eqn:E; try done. intros R. case_decide as D; intros F.
  - injection F as <- F. by exists s, u, ls.
  - destruct (IH u R F) as (s1 & s2 & ls2 & E1 & E2 & E3 & E4 & E5). destruct (others_frame x s u) as [F1 F2]; [by destruct (of_thread x)|done|].
    exists s1, s2, ls2. split_and!; congruence.
Qed.
Lemma run_rest ls s t : run ls s = Some t → filter of_thread ls = [] → hot t = hot s ∧ todo t = todo s.
Proof.
  revert s. induction ls as [|x ls IH]; intros s; simpl; [by intros [= <-]|]. rewrite filter_cons.
  destruct (do x s) as [[u| |]|] eqn:E; try done. intros R. case_decide as D; intros F; [done|].
  destruct (IH u R F), (others_frame x s u); [by destruct (of_thread x)|done|]. split; congruence.
Qed.

Fixpoint core_acts (l : list action) h : res core :=
  match l with [] => Ok h | a :: l => h' ← core_act a h; core_acts l h' end.

(** The regions that change the data of the thread as [core_act] says. *)
Definition plain (a : action) : bool :=
  match a with BalancePushSet _ _ | SmtPresent _ _ | SetCpuActive _ _ | SetRqOffline _ | SynchronizeRcu | RcuDone | Finish _ _ => true | _ => false end.

Lemma act_plain b a l s t : plain a = true → act b a (with_todo l s) = Some (Ok t) → todo t = l ∧ core_act a (hot s) = Ok (hot t).
Proof.
  intros Ha H. destruct a; try done; cbn [act core_act] in *; try (by injection H as <-).
  - injection H as <-. by destruct (balance_push_set_rest c on (with_todo l s)) as (-> & _ & ->).
  - by injection H as (h & E & ->)%lift_inv.
  - case_match; [|done]. by injection H as <-.
Qed.

Lemma run_regions acts l s t ls ls' : forallb plain acts = true → todo s = acts ++ l →
  filter of_thread ls = regions (length acts) ++ ls' → run ls s = Some t →
  ∃ u ls2, core_acts acts (hot s) = Ok (hot u) ∧ todo u = l ∧ run ls2 u = Some t ∧ filter of_thread ls2 = ls'.
Proof.
  revert s ls. induction acts as [|a acts IH]; simpl; intros s ls Hp Ht F R; [by exists s, ls|].
  apply andb_true_iff in Hp as [Ha Hp]. destruct (run_thread ls s t _ _ R F) as (s1 & s2 & ls2 & E1 & E2 & H & R2 & F2).
  cbn [do do_hot] in H. rewrite E2, Ht in H. destruct (act_plain _ _ _ _ _ Ha H) as [T2 C2].
  destruct (IH s2 ls2 Hp T2 F2 R2) as (u & ls3 & C & X). exists u, ls3. split; [|done]. by rewrite <-E1, C2.
Qed.

(** C9: a deactivation that [cpuset_cpu_inactive] refuses is undone in part:
    whatever else happens meanwhile, the processor is active again with its
    phase and the active mask as before, but its run queue stays offline, and
    when its core has two active processors sched_smt_present is decremented
    and not incremented again, although as many cores as before have two
    active processors; each further attempt decrements it again. *)
Theorem refused_deactivation_half_undone s t c ls : reach any s → todo s = [] → sched_smp_initialized (hot s) = true →
  run ls s = Some t → filter of_thread ls = refused c →
  todo t = [] ∧ ret (hot t) = - EBUSY ∧ at_phase (hot t) c = Active ∧ cpu_active (hot t) c = true ∧
  (∀ d, at_phase (hot t) d = at_phase (hot s) d ∧ cpu_active (hot t) d = cpu_active (hot s) d) ∧
  online (root (hot t)) c = false ∧
  sched_smt_present (hot t) = sched_smt_present (hot s) - Z.b2z (siblings (cpu_active (hot s)) (core_of c) =? 2).
Proof.
  intros Hr Ht Hi R F. destruct (reach_thread _ _ Hr) as (_ & _ & G). unfold planned in G. rewrite Ht in G. destruct G as (W & O & _).
  destruct (run_thread ls s t _ _ R F) as (s1 & s2 & ls2 & E1 & _ & H & R2 & F2). cbn [do do_hot] in H.
  case_decide as D; [|done]. destruct D as (Hc & Hb & _ & Hp & _). rewrite E1 in *. injection H as H.
  assert (hot s2 = begun c false (hot s)) as E2 by (subst s2; simpl; by rewrite E1).
  destruct (run_regions [SetCpuActive c false; BalancePushSet c true; SynchronizeRcu; RcuDone; SetRqOffline c; SmtPresent c false]
    [CpusetCpuInactive c; Finish c Inactive] s2 t ls2 (Hot true :: regions 3)) as (u & ls3 & C & Tu & R3 & F3); [done|by subst s2|done..|].
  destruct (run_thread ls3 u t _ _ R3 F3) as (u1 & u2 & ls4 & E3 & T3 & H4 & R4 & F4). cbn [do do_hot] in H4. rewrite T3, Tu in H4.
  rewrite E2 in C. cbn [core_acts core_act] in C.
  destruct (offline_spec c (set_cpu_active c false (begun c false (hot s)))) as (r & Er & _ & Eo & _); [done|apply W|].
  simpl in C. rewrite Er in C. simpl in C. injection C as C.
  assert (hot u = with_smt (sched_smt_present (hot s) - Z.b2z (smt_weight c (hot s) =? 2))
    (with_root r (set_cpu_active c false (begun c false (hot s))))) as Eu.
  { rewrite <-C. unfold smt_present. change (smt_weight c (with_root _ _)) with (smt_weight c (hot s)).
    destruct (smt_weight c (hot s) =? 2); simpl; [done|]. by rewrite Z.sub_0_r. }
  assert (deactivate_domains true (hot u) = (- EBUSY, hot u)) as Ed.
  { rewrite Eu. unfold deactivate_domains, cpuset_cpu_inactive. simpl. by rewrite Hi. }
  cbn [act] in H4. change (hot (with_todo _ u1)) with (hot u1) in H4. rewrite E3, Ed in H4. injection H4 as H4.
  destruct (run_regions (deactivate_failed c) [] u2 t ls4 []) as (v & ls5 & Cv & Tv & R5 & F5); [done|by subst u2|by rewrite F4|done|].
  destruct (run_rest _ _ _ R5 F5) as [Eh Et]. rewrite Et, Eh. subst u2.
  cbn [core_acts core_act deactivate_failed res_bind mbind] in Cv. rewrite finish_eq in Cv. injection Cv as <-.
  rewrite <-(smt_weight_siblings c (hot s)) by (intros d; by apply up_at_rest).
  rewrite Eu. simpl. rewrite !fn_lookup_insert. split_and!; try done. intros d.
  destruct (decide (d = c)) as [->|]; [|by rewrite !fn_lookup_insert_ne].
  by rewrite !fn_lookup_insert, (w_phase _ W), Hp.
Qed.
End push.

(** * A machine with two cores *)

(** Processors 0 to 3 with the cores {0, 1} and {2, 3}, the idle tasks 100 to
    103 and the stoppers 200 to 203; only processor 0 keeps its tick. *)
#[global] Instance two_cores : platform := {|
  possible := [0; 1; 2; 3];
  boot_cpu := 0;
  core_of c := c / 2;
  housekeeping_cpu c := c =? 0;
  idle c := 100 + c;
  stopper c := 200 + c;
  kthread_is_per_cpu p := 200 <=? p;
  boot_roots := Roots (λ _, Some 0) (λ c, c =? 0) (λ _ _, true) (λ _ c, c =? 0);
  build_domains x act r :=
    Roots (λ _, Some (if decide (x = OneDomain) then 1 else 2)) act (λ _ _, true) (λ _, act);
  calc_load_fold_active s c adjust := nr_running (rqs s c) - adjust;
  queue_balance_callback (push : bool) k l := if push then l else Callback k :: l;
|}.
#[global] Instance two_cores_ok : @platform_ok two_cores.
Proof.
  split; try done.
  - by_decision.
  - by_decision.
  - intros c Hc. apply Z.leb_le. apply list_elem_of_In in Hc. simpl in *. lia.
  - intros c _. by exists 0.
  - intros x act r _ _ c _. eexists. split; [done|]. by split.
  - intros x act r _ _ c. simpl. auto.
  - intros k l. by right.
Qed.

Definition final `{!platform} (ls : list label) : state := default migration_init (run ls migration_init).
Definition found {A} (o : option A) : bool := match o with Some _ => true | None => false end.

(** Every step of a run is allowed. *)
Fixpoint all_allowed `{!platform} (allowed : label → state → bool) (ls : list label) (s : state) : bool :=
  match ls with
  | [] => true
  | l :: ls => allowed l s && match do l s with Some (Ok s') => all_allowed allowed ls s' | _ => false end
  end.
Lemma run_reach `{P : platform} (allowed : label → state → Prop) (check : label → state → bool) ls :
  (∀ l s, check l s = true → allowed l s) → all_allowed check ls migration_init = true → reach allowed (final ls).
Proof.
  intros Hc. unfold reach, final. generalize migration_init as s0. intros s0 H.
  enough (∀ s, all_allowed check ls s = true → ∃ t, run ls s = Some t ∧ rtc (λ s t, ∃ l, allowed l s ∧ do l s = Some (Ok t)) s t) as G.
  { destruct (G s0 H) as (t & E & R). by rewrite E. }
  clear H. induction ls as [|l ls IH]; simpl; intros s Hs; [by exists s|]. apply andb_true_iff in Hs as [Ha Hs].
  destruct (do l s) as [[u| |]|] eqn:E; try done. destruct (IH u Hs) as (t & Et & R). exists t. split; [done|].
  eapply rtc_l; [|exact R]. exists l. auto.
Qed.

Definition comes_up (c : Z) (tasks_frozen : bool) : list label := Up c tasks_frozen :: regions 2 ++ Activate c :: regions 6.
Definition goes_down (c : Z) (tasks_frozen : bool) : list label := Down c tasks_frozen :: regions 8.
Definition all_up : list label := comes_up 1 false ++ comes_up 2 false ++ comes_up 3 false ++ [SchedInitSmp].

Example all_up_ok : sched_smt_present (hot (final all_up)) = 2 ∧ tick_state (ticks (final all_up) 3) = TICK_SCHED_REMOTE_RUNNING.
Proof. by vm_compute. Qed.
Example refused_ok : todo (final (all_up ++ refused 1)) = [] ∧ ret (hot (final (all_up ++ refused 1))) = - EBUSY.
Proof. by vm_compute. Qed.

Definition check_any `{!platform} (l : label) (s : state) : bool := true.
Definition check_accepted `{!platform} (l : label) (s : state) : bool := match l with Hot b => negb b | _ => true end.
Definition check_home `{!platform} (l : label) (s : state) : bool :=
  match l with
  | SetPrio w c _ => (w =? c) || negb (balance_push_on (rqs s c))
  | Splice _ c _ => negb (balance_push_on (rqs s c))
  | _ => true
  end.

Lemma final_any ls : all_allowed check_any ls migration_init = true → reach any (final ls).
Proof. by apply run_reach. Qed.
Lemma final_accepted ls : all_allowed check_accepted ls migration_init = true → reach accepted (final ls).
Proof. apply run_reach. by intros [] s H [=]; subst. Qed.
Lemma check_home_ok l s : check_home l s = true → at_home l s.
Proof.
  intros H. destruct l; simpl in *; try done.
  - apply orb_true_iff in H as [H|H]; [left; by apply Z.eqb_eq|right; by apply negb_true_iff].
  - by apply negb_true_iff.
Qed.
Lemma final_home ls : all_allowed check_home ls migration_init = true → reach at_home (final ls).
Proof. apply run_reach, check_home_ok. Qed.

Definition check_orderly `{!platform} (l : label) (s : state) : bool :=
  check_home l s &&
  match l with
  | Pick _ _ _ _ _ _ | Counts _ _ _ _ | PushStop _ _ _ =>
      forallb (λ a, match a with CheckVacated _ => false | _ => true end) (todo s)
  | Remote _ _ delta => delta <=? NSEC_PER_SEC * 3
  | _ => true
  end.
Lemma check_orderly_ok l s : check_orderly l s = true → orderly l s.
Proof.
  unfold check_orderly. intros [H1 H2]%andb_true_iff. split; [by apply check_home_ok|]. split.
  - intros c [Hc _]. apply list_elem_of_In in Hc. destruct l; try done; exfalso;
      rewrite forallb_forall in H2; by specialize (H2 _ Hc).
  - destruct l; try done. by apply Z.leb_le.
Qed.
Lemma final_orderly ls : all_allowed check_orderly ls migration_init = true → reach orderly (final ls).
Proof. apply run_reach, check_orderly_ok. Qed.

(** * What goes wrong *)

(** After three refused attempts the counter is negative. *)
Example refused_often : sched_smt_present (hot (final (all_up ++ refused 1 ++ refused 1 ++ refused 1))) = -1.
Proof. by vm_compute. Qed.

(** Processor 0 changes the policy of a task of processor 1, which goes down:
    it holds the callbacks while processor 1 schedules, and runs them when
    processor 1 is up again. *)
Definition missed : list label := all_up ++ goes_down 1 false ++ [Splice 0 1 []; Pick 1 5 false 2 0 []].
Definition escaped : list label := missed ++ Activate 1 :: regions 6 ++ [RunSpliced 0].

(** C10: [__sched_setscheduler] can take the callback that pushes tasks off a
    processor from its run queue: a task that must leave is scheduled there
    and not pushed off; and when the processor is active again, the callback
    comes back although it was switched off, with a WARN, and from then on
    pushes tasks off an active processor. *)
Theorem push_callback_escapes :
  (∃ s, reach any s ∧ balance_push_on (rqs s 1) = true ∧ curr (rqs s 1) = 5 ∧ ordinary 1 5 false = true ∧
     push_work s 1 = None ∧ balance_callback (rqs s 1) = []) ∧
  (∃ s, reach any s ∧ todo s = [] ∧ at_phase (hot s) 1 = Active ∧ balance_push_on (rqs s 1) = false ∧
     balance_callback (rqs s 1) = [balance_push_callback] ∧ warned s = true) ∧
  (∃ s, reach any s ∧ at_phase (hot s) 1 = Active ∧ balance_push_on (rqs s 1) = false ∧ push_work s 1 = Some (1, 7)).
Proof.
  split_and!.
  - exists (final missed). split; [apply final_any; by vm_compute|]. by vm_compute.
  - exists (final escaped). split; [apply final_any; by vm_compute|]. by vm_compute.
  - exists (final (escaped ++ [Pick 1 201 false 2 0 []; PushStop 0 true 0; Pick 1 7 false 2 0 []])).
    split; [apply final_any; by vm_compute|]. by vm_compute.
Qed.

(** * Witnesses *)

(** Processor 3 is suspended: it is left for processor 0 when it is inactive,
    dies, and its work ends. *)
Definition leaving : list label := all_up ++ goes_down 3 true ++ [Pick 3 5 false 2 0 []].
Definition suspended : list label :=
  leaving ++ [Pick 3 203 false 2 0 []; PushStop 3 true 0; Pick 3 103 false 0 0 []; Counts 3 false 1 0; WorkStarts 3; Die 3] ++ regions 6.

Lemma hotplug_defined_witness : ∃ t, default (Exit 0) (do (Remote 3 true 5) (final suspended)) = Ok t ∧ warned t = false.
Proof.
  apply (hotplug_defined (final suspended) (Remote 3 true 5)).
  - apply final_orderly. vm_compute. reflexivity.
  - split; [exact I|]. split; [|vm_compute; discriminate]. intros c [Hc _]. vm_compute in Hc. by apply elem_of_nil in Hc.
  - vm_compute. reflexivity.
Defined.

(** While the deactivation goes on, another task runs. *)
Definition interleaved : list label :=
  Down 1 false :: regions 3 ++ Pick 1 101 false 0 0 [] :: regions 3 ++ Hot true :: regions 3.
Lemma refused_deactivation_half_undone_witness :
  online (root (hot (final (all_up ++ interleaved)))) 1 = false ∧
  sched_smt_present (hot (final (all_up ++ interleaved))) = sched_smt_present (hot (final all_up)) - 1.
Proof.
  destruct (refused_deactivation_half_undone (final all_up) (final (all_up ++ interleaved)) 1 interleaved) as (_ & _ & _ & _ & _ & H1 & H2).
  - apply final_any. vm_compute. reflexivity.
  - vm_compute. reflexivity.
  - vm_compute. reflexivity.
  - vm_compute. reflexivity.
  - vm_compute. reflexivity.
  - split; [exact H1|]. rewrite H2. vm_compute. reflexivity.
Defined.

Lemma processors_exact_witness :
  sched_smt_present (hot (final suspended)) = smt_cores (cpu_active (hot (final suspended))) ∧
  num_cpus_frozen (hot (final suspended)) = 1 ∧ asked (hot (final suspended)) = OneDomain.
Proof.
  assert (reach accepted (final suspended)) as R by (apply final_accepted; vm_compute; reflexivity).
  destruct (processors_exact (final suspended) R ltac:(vm_compute; reflexivity)) as (_ & _ & H & _).
  split; [exact H|]. vm_compute. split; reflexivity.
Defined.

Lemma remote_tick_exact_witness :
  queued (ticks (final suspended) 3) + Z.b2z (bool_decide (remote (ticks (final suspended) 3) ≠ None)) =
    Z.b2z (negb (tick_state (ticks (final suspended) 3) =? TICK_SCHED_REMOTE_OFFLINE)) ∧
  tick_state (ticks (final suspended) 3) = TICK_SCHED_REMOTE_OFFLINING.
Proof.
  assert (reach any (final suspended)) as R by (apply final_any; vm_compute; reflexivity).
  split; [exact (proj1 (remote_tick_exact (final suspended) R) 3)|vm_compute; reflexivity].
Defined.

Lemma tasks_pushed_off_witness : push_work (final leaving) 3 = Some (3, 5) ∧ 1 ≤ refs (final leaving) 5.
Proof.
  refine (proj1 (proj2 (proj2 (tasks_pushed_off (final (all_up ++ goes_down 3 true)) (final leaving) 3 5 false 2 0 [] _ _ _))) _).
  - apply final_home. vm_compute. reflexivity.
  - vm_compute. reflexivity.
  - vm_compute. reflexivity.
  - vm_compute. reflexivity.
Defined.
