(* ===== verification/Psi.v ===== *)
(** Pressure stall information in the kernel of assignment 4: the functions of
    stats.h (src/과제/OS과제/과제4) that tell psi.c what a task does, and the
    places of core.c that call them. CONFIG_PSI and CONFIG_SMP are set. *)
From S2P Require Import Prelude.
Local Open Scope Z_scope.

(** * Data *)

Definition TASK_ON_RQ_QUEUED : Z := 1.
Definition TASK_ON_RQ_MIGRATING : Z := 2.

(** [waking]: [try_to_wake_up] has taken the task and has not yet put it on a
    run queue. *)
Record task := Task {
  born : bool;
  on_rq : Z;
  cpu : Z;
  waking : bool;
  in_iowait : bool;
  in_memstall : bool;
  sched_psi_wake_requeue : bool;
  psi_flags : Z;
}.

(** [consistent]: no change of flags was reported as inconsistent;
    [memstall_ticks]: the ticks that found a task in a memory stall. *)
Record state := State {
  tasks : Z → task;
  curr : Z → Z;
  consistent : bool;
  memstall_ticks : list (Z * Z);
}.

(** psi_types.h and psi.c: the flags of a task, their change, whether psi.c
    takes a change for consistent, the tasks it ignores, and the changes that
    a switch makes. *)
Class psi_code := {
  TSK_IOWAIT : Z;
  TSK_MEMSTALL : Z;
  TSK_RUNNING : Z;
  TSK_ONCPU : Z;
  flags_change : Z → Z → Z → Z;
  change_consistent : Z → Z → Z → bool;
  psi_ignores : Z → bool;
  switch_changes : Z → Z → bool → list (Z * Z * Z);
  psi_cpus : list Z;
  psi_idle : Z → Z;
}.

(** An idle task has the pid 0. *)
Definition is_idle `{!psi_code} (p : Z) : bool := existsb (λ c, psi_idle c =? p) psi_cpus.

(** A change clears flags that are set and sets flags that are not; idle tasks
    are ignored; the outgoing task of a sleep has lost TSK_ONCPU already. *)
Class psi_code_ok `{!psi_code} : Prop := {
  tsk_values : TSK_IOWAIT = 1 ∧ TSK_MEMSTALL = 2 ∧ TSK_RUNNING = 4 ∧ TSK_ONCPU = 8;
  flags_changed f c s : flags_change f c s = Z.lor (Z.ldiff f c) s;
  changes_consistent f c s : Z.land f c = c → Z.land f s = 0 → change_consistent f c s = true;
  ignored p : psi_ignores p = is_idle p;
  switched prev next sleep : switch_changes prev next sleep = (next, 0, TSK_ONCPU) :: if sleep : bool then [] else [(prev, TSK_ONCPU, 0)];
}.

Section psi.
Context `{!psi_code} (psi_disabled : bool).
Implicit Types (s : state) (p c : Z) (t : task).

Definition upd p (f : task → task) s : state :=
  State (<[p := f (tasks s p)]> (tasks s)) (curr s) (consistent s) (memstall_ticks s).

Definition with_flags (v : Z) t : task :=
  Task (born t) (on_rq t) (cpu t) (waking t) (in_iowait t) (in_memstall t) (sched_psi_wake_requeue t) v.
Definition with_requeue (b : bool) t : task :=
  Task (born t) (on_rq t) (cpu t) (waking t) (in_iowait t) (in_memstall t) b (psi_flags t).
Definition with_on_rq (v : Z) t : task :=
  Task (born t) v (cpu t) (waking t) (in_iowait t) (in_memstall t) (sched_psi_wake_requeue t) (psi_flags t).
Definition with_cpu (c : Z) t : task :=
  Task (born t) (on_rq t) c (waking t) (in_iowait t) (in_memstall t) (sched_psi_wake_requeue t) (psi_flags t).
Definition with_waking (b : bool) t : task :=
  Task (born t) (on_rq t) (cpu t) b (in_iowait t) (in_memstall t) (sched_psi_wake_requeue t) (psi_flags t).
Definition with_iowait (b : bool) t : task :=
  Task (born t) (on_rq t) (cpu t) (waking t) b (in_memstall t) (sched_psi_wake_requeue t) (psi_flags t).
Definition with_memstall (b : bool) t : task :=
  Task (born t) (on_rq t) (cpu t) (waking t) (in_iowait t) b (sched_psi_wake_requeue t) (psi_flags t).

(** What psi.c is told. *)
Definition psi_task_change p clear set s : state :=
  if psi_ignores p then s
  else
    let f := psi_flags (tasks s p) in
    let s := State (tasks s) (curr s) (consistent s && change_consistent f clear set) (memstall_ticks s) in
    upd p (with_flags (flags_change f clear set)) s.
Definition psi_task_switch prev next (sleep : bool) s : state :=
  foldl (λ s '(p, clear, set), psi_task_change p clear set s) s (switch_changes prev next sleep).

(** * stats.h *)

Definition psi_enqueue p (wakeup : bool) s : state :=
  if psi_disabled then s
  else
    let t := tasks s p in
    if negb wakeup || sched_psi_wake_requeue t then
      let set := if in_memstall t then Z.lor TSK_RUNNING TSK_MEMSTALL else TSK_RUNNING in
      let s := if sched_psi_wake_requeue t then upd p (with_requeue false) s else s in
      psi_task_change p 0 set s
    else
      let clear := if in_iowait t then Z.lor 0 TSK_IOWAIT else 0 in
      psi_task_change p clear TSK_RUNNING s.

Definition psi_dequeue p (sleep : bool) s : state :=
  if psi_disabled then s
  else
    let t := tasks s p in
    if negb sleep then
      let clear := if in_memstall t then Z.lor TSK_RUNNING TSK_MEMSTALL else TSK_RUNNING in
      psi_task_change p clear 0 s
    else
      let clear := Z.lor TSK_RUNNING TSK_ONCPU in
      let set := if in_iowait t then Z.lor 0 TSK_IOWAIT else 0 in
      psi_task_change p clear set s.

Definition psi_ttwu_dequeue p s : state :=
  if psi_disabled then s
  else
    let t := tasks s p in
    if in_iowait t || in_memstall t then
      let clear := if in_iowait t then Z.lor 0 TSK_IOWAIT else 0 in
      let clear := if in_memstall t then Z.lor clear TSK_MEMSTALL else clear in
      upd p (with_requeue true) (psi_task_change p clear 0 s)
    else s.

Definition psi_sched_switch prev next (sleep : bool) s : state :=
  if psi_disabled then s else psi_task_switch prev next sleep s.

Definition psi_task_tick c s : state :=
  if psi_disabled then s
  else if in_memstall (tasks s (curr s c))
  then State (tasks s) (curr s) (consistent s) (memstall_ticks s ++ [(c, curr s c)])
  else s.

(** * core.c *)

Definition enqueue_task p (restore wakeup : bool) s : state := if restore then s else psi_enqueue p wakeup s.
Definition dequeue_task p (save sleep : bool) s : state := if save then s else psi_dequeue p sleep s.

Definition activate_task p (wakeup : bool) s : state :=
  upd p (with_on_rq TASK_ON_RQ_QUEUED) (enqueue_task p false wakeup s).
Definition deactivate_task p (sleep : bool) s : state :=
  dequeue_task p false sleep (upd p (with_on_rq (if sleep then 0 else TASK_ON_RQ_MIGRATING)) s).

Definition running p s : bool := existsb (λ c, curr s c =? p) psi_cpus.
Definition task_on_rq_queued t : bool := on_rq t =? TASK_ON_RQ_QUEUED.

(** [__schedule] of [c]; [block]: the previous task goes to sleep. *)
Definition schedule c next (block : bool) s : state :=
  let prev := curr s c in
  let s := if block then deactivate_task prev true s else s in
  if prev =? next then s
  else
    let s := State (tasks s) (<[c := next]> (curr s)) (consistent s) (memstall_ticks s) in
    psi_sched_switch prev next (negb (task_on_rq_queued (tasks s prev))) s.

(** [New]: [wake_up_new_task]; [Wake], [Activate]: [try_to_wake_up] up to
    [ttwu_queue], and [ttwu_do_activate]; [MoveOff], [MoveOn]: the halves of
    [move_queued_task]; [Change]: a queued task gets new parameters;
    [SetIowait]: [io_schedule_prepare] and [io_schedule_finish];
    [SetMemstall]: psi_memstall_enter and psi_memstall_leave. *)
Inductive label : Set :=
  | New (p c : Z)
  | Wake (p dest : Z)
  | Activate (p : Z)
  | Schedule (c next : Z) (block : bool)
  | MoveOff (p dest : Z)
  | MoveOn (p : Z)
  | Change (p : Z)
  | SetIowait (c : Z) (b : bool)
  | SetMemstall (c : Z) (b : bool)
  | Tick (c : Z).

Definition may_run c next s : bool :=
  (next =? psi_idle c) ||
  negb (is_idle next) && task_on_rq_queued (tasks s next) && (cpu (tasks s next) =? c) && negb (running next s).

Definition do (l : label) s : option state :=
  match l with
  | New p c =>
      if born (tasks s p) || is_idle p then None
      else Some (activate_task p false (upd p (λ _, Task true 0 c false false false false 0) s))
  | Wake p dest =>
      let t := tasks s p in
      if born t && negb (is_idle p) && (on_rq t =? 0) && negb (waking t) then
        let s := upd p (with_waking true) s in
        Some (if cpu t =? dest then s else upd p (with_cpu dest) (psi_ttwu_dequeue p s))
      else None
  | Activate p =>
      if waking (tasks s p) then Some (upd p (with_waking false) (activate_task p true s)) else None
  | Schedule c next block =>
      if bool_decide (c ∈ psi_cpus) && negb (block && (is_idle (curr s c) || (curr s c =? next))) &&
         ((curr s c =? next) || may_run c next s)
      then Some (schedule c next block s) else None
  | MoveOff p dest =>
      let t := tasks s p in
      if negb (is_idle p) && task_on_rq_queued t && negb (running p s)
      then Some (upd p (with_cpu dest) (deactivate_task p false s)) else None
  | MoveOn p => if on_rq (tasks s p) =? TASK_ON_RQ_MIGRATING then Some (activate_task p false s) else None
  | Change p =>
      if task_on_rq_queued (tasks s p) then Some (enqueue_task p true false (dequeue_task p true false s)) else None
  | SetIowait c b =>
      if bool_decide (c ∈ psi_cpus) && negb (is_idle (curr s c)) then Some (upd (curr s c) (with_iowait b) s) else None
  | SetMemstall c b =>
      let p := curr s c in
      if bool_decide (c ∈ psi_cpus) && negb (is_idle p) && negb psi_disabled && negb (Bool.eqb (in_memstall (tasks s p)) b) then
        let s := upd p (with_memstall b) s in
        Some (if b then psi_task_change p 0 TSK_MEMSTALL s else psi_task_change p TSK_MEMSTALL 0 s)
      else None
  | Tick c => Some (psi_task_tick c s)
  end.

Definition step s s' : Prop := ∃ l, do l s = Some s'.

(** Every processor runs its idle task, and there are no other tasks. *)
Definition start : state :=
  State (λ _, Task false 0 0 false false false false 0) psi_idle true [].
End psi.
