(* ===== verification/PsiProofs.v ===== *)
(** The flags that Psi keeps for psi.c say what every task does. *)
From S2P Require Import Prelude Psi.
Local Open Scope Z_scope.

Section psi.
Context `{P : psi_code} {PO : psi_code_ok}.
Notation do := (do false).
Notation step := (step false).

(** The flags of a task, [r]: it runs on a processor. *)
Definition expected (r : bool) (t : task) : Z :=
  if on_rq t =? TASK_ON_RQ_QUEUED then
    Z.lor (Z.lor TSK_RUNNING (if in_memstall t then TSK_MEMSTALL else 0)) (if r then TSK_ONCPU else 0)
  else if on_rq t =? TASK_ON_RQ_MIGRATING then 0
  else if sched_psi_wake_requeue t then 0
  else Z.lor (if in_iowait t then TSK_IOWAIT else 0) (if in_memstall t then TSK_MEMSTALL else 0).

Record task_ok (r : bool) (t : task) : Prop := {
  t_flags : psi_flags t = expected r t;
  t_on_rq : on_rq t = 0 ∨ on_rq t = 1 ∨ on_rq t = 2;
  t_requeue : sched_psi_wake_requeue t = true → waking t = true;
  t_waking : waking t = true → on_rq t = 0;
  t_running : r = true → on_rq t = 1;
  t_unborn : born t = false → on_rq t = 0 ∧ waking t = false ∧ psi_flags t = 0;
}.

Record inv (s : state) : Prop := {
  i_task p : is_idle p = false → task_ok (running p s) (tasks s p);
  i_idle p : is_idle p = true → waking (tasks s p) = false ∧ on_rq (tasks s p) = 0;
  i_consistent : consistent s = true;
  i_once c d : c ∈ psi_cpus → d ∈ psi_cpus → curr s c = curr s d → is_idle (curr s c) = false → c = d;
}.

(** * Changes of one task *)

Lemma inv_task p s s' : inv s → is_idle p = false → curr s' = curr s → consistent s' = true →
  (∀ q, q ≠ p → tasks s' q = tasks s q) → task_ok (running p s) (tasks s' p) → inv s'.
Proof.
  intros [I1 I0 I2 I3] Hp Ec Hc Hq Ht. split; [| |done|by rewrite Ec].
  - intros q Hi. unfold running. rewrite Ec. destruct (decide (q = p)) as [->|Hne]; [done|]. rewrite Hq by done. by apply I1.
  - intros q Hi. rewrite Hq by congruence. by apply I0.
Qed.

(** Let the bits of the flags compute. *)
Ltac flags :=
  destruct tsk_values as (V1 & V2 & V3 & V4);
  rewrite ?V1, ?V2, ?V3, ?V4 in *.

(** A change on the flags of a task that is not idle. *)
Lemma change_spec p c st s : is_idle p = false → consistent s = true →
  Z.land (psi_flags (tasks s p)) c = c → Z.land (psi_flags (tasks s p)) st = 0 →
  psi_task_change p c st s = upd p (with_flags (Z.lor (Z.ldiff (psi_flags (tasks s p)) c) st)) s.
Proof.
  intros Hi Hc H1 H2. unfold psi_task_change. rewrite ignored, Hi, flags_changed, changes_consistent, Hc by done.
  unfold upd. simpl. by rewrite <-Hc.
Qed.

Lemma upd_at p f s : tasks (upd p f s) p = f (tasks s p).
Proof. apply fn_lookup_insert. Qed.
Lemma upd_other p f s q : q ≠ p → tasks (upd p f s) q = tasks s q.
Proof. intros. by apply fn_lookup_insert_ne. Qed.

(** [s'] differs from [s] in the task [p], which is [t]. *)
Record becomes p (t : task) (s s' : state) : Prop := {
  b_task : tasks s' p = t;
  b_other q : q ≠ p → tasks s' q = tasks s q;
  b_curr : curr s' = curr s;
  b_consistent : consistent s' = true;
}.
Lemma becomes_upd p f s : consistent s = true → becomes p (f (tasks s p)) s (upd p f s).
Proof. intros H. split; [apply upd_at|intros q; apply upd_other|done|done]. Qed.
Lemma becomes_trans p t u s s' s'' : becomes p t s s' → becomes p u s' s'' → becomes p u s s''.
Proof. intros [A1 A2 A3 A4] [B1 B2 B3 B4]. split; [done| |congruence|done]. intros q Hq. by rewrite B2, A2. Qed.
Lemma becomes_then p t s s' f : becomes p t s s' → becomes p (f t) s (upd p f s').
Proof. intros B. eapply becomes_trans; [exact B|]. rewrite <-(b_task _ _ _ _ B). apply becomes_upd, B. Qed.
Lemma becomes_eq p t u s s' : becomes p t s s' → t = u → becomes p u s s'.
Proof. by intros ? <-. Qed.
Lemma becomes_change p c st s : is_idle p = false → consistent s = true →
  Z.land (psi_flags (tasks s p)) c = c → Z.land (psi_flags (tasks s p)) st = 0 →
  becomes p (with_flags (Z.lor (Z.ldiff (psi_flags (tasks s p)) c) st) (tasks s p)) s (psi_task_change p c st s).
Proof.
  intros Hi Hc H1 H2. rewrite change_spec by done.
  exact (becomes_upd p (with_flags (Z.lor (Z.ldiff (psi_flags (tasks s p)) c) st)) s Hc).
Qed.
Lemma becomes_inv p t s s' : inv s → is_idle p = false → becomes p t s s' → task_ok (running p s) t → inv s'.
Proof. intros I Hp [B1 B2 B3 B4] Ht. apply (inv_task p s); try done. by rewrite B1. Qed.

Definition memstall (t : task) : Z := if in_memstall t then TSK_MEMSTALL else 0.
Definition iowait (t : task) : Z := if in_iowait t then TSK_IOWAIT else 0.

(** * The functions of stats.h *)

Lemma enqueue_spec p (w : bool) s (t := tasks s p) : is_idle p = false → consistent s = true →
  psi_flags t = (if w then if sched_psi_wake_requeue t then 0 else Z.lor (iowait t) (memstall t) else 0) →
  (w = false → sched_psi_wake_requeue t = false) →
  becomes p (with_flags (Z.lor TSK_RUNNING (memstall t)) (with_requeue false t)) s (psi_enqueue false p w s).
Proof.
  intros Hi Hc Hf Hr. unfold psi_enqueue, iowait, memstall in *. cbv zeta. fold t. flags.
  destruct (negb w || sched_psi_wake_requeue t) eqn:E.
  - assert (psi_flags t = 0) as F.
    { rewrite Hf. destruct w; [|done]. simpl in E. by rewrite E. }
    assert (∀ u, becomes p (with_requeue false t) s u →
      becomes p (with_flags (Z.lor 4 (if in_memstall t then 2 else 0)) (with_requeue false t)) s
        (psi_task_change p 0 (if in_memstall t then Z.lor 4 2 else 4) u)) as H.
    { intros u B. eapply becomes_trans; [exact B|]. pose proof (b_task _ _ _ _ B) as Bt.
      eapply becomes_eq; [apply becomes_change; [done|apply B|apply Z.land_0_r|]|]; rewrite Bt; simpl; rewrite F; [by destruct (in_memstall t)|].
      by destruct (in_memstall t). }
    destruct (sched_psi_wake_requeue t) eqn:Er; apply H; [by apply becomes_upd|].
    split; try done. subst t. by destruct (tasks s p); simpl in *; subst.
  - apply orb_false_iff in E as [E1 E2]. destruct w; [|done]. rewrite E2 in *.
    eapply becomes_eq; [apply becomes_change; try done; fold t; rewrite Hf; by destruct (in_iowait t), (in_memstall t)|].
    fold t. rewrite Hf. subst t. destruct (tasks s p); simpl in *; subst. by destruct in_iowait, in_memstall.
Qed.

Lemma dequeue_spec p (sleep : bool) s (t := tasks s p) : is_idle p = false → consistent s = true →
  psi_flags t = Z.lor (Z.lor TSK_RUNNING (memstall t)) (if sleep then TSK_ONCPU else 0) →
  becomes p (with_flags (if sleep then Z.lor (iowait t) (memstall t) else 0) t) s (psi_dequeue false p sleep s).
Proof.
  intros Hi Hc Hf. unfold psi_dequeue, iowait, memstall in *. cbv zeta. fold t. flags.
  destruct sleep; cbn [negb]; (eapply becomes_eq; [apply becomes_change; try done; fold t; rewrite Hf; by destruct (in_iowait t), (in_memstall t)|]);
    fold t; rewrite Hf; by destruct (in_iowait t), (in_memstall t).
Qed.

Lemma ttwu_dequeue_spec p s (t := tasks s p) : is_idle p = false → consistent s = true →
  psi_flags t = Z.lor (iowait t) (memstall t) → sched_psi_wake_requeue t = false →
  becomes p (with_flags 0 (with_requeue (in_iowait t || in_memstall t) t)) s (psi_ttwu_dequeue false p s).
Proof.
  intros Hi Hc Hf Hr. unfold psi_ttwu_dequeue, iowait, memstall in *. cbv zeta. fold t. flags.
  destruct (in_iowait t || in_memstall t) eqn:E.
  - eapply becomes_eq; [apply becomes_then, becomes_change; try done; fold t; rewrite Hf; by destruct (in_iowait t), (in_memstall t)|].
    fold t. rewrite Hf. by destruct (in_iowait t), (in_memstall t).
  - apply orb_false_iff in E as [E1 E2]. rewrite E1, E2 in Hf. split; try done. subst t. destruct (tasks s p); simpl in *. by subst.
Qed.

(** * The steps *)

Lemma running_spec p s : running p s = true ↔ ∃ c, c ∈ psi_cpus ∧ curr s c = p.
Proof.
  unfold running. rewrite existsb_exists. split; intros (c & Hc & E); exists c; (split; [by apply list_elem_of_In|by apply Z.eqb_eq]).
Qed.
Lemma not_running p s : is_idle p = false → task_ok (running p s) (tasks s p) → on_rq (tasks s p) ≠ 1 → running p s = false.
Proof. intros Hi [] Hn. apply not_true_iff_false. auto. Qed.

(** A task on a run queue is not being woken. *)
Lemma on_rq_settled r t : task_ok r t → on_rq t ≠ 0 → waking t = false ∧ sched_psi_wake_requeue t = false ∧ born t = true.
Proof.
  intros [] Hn. assert (waking t = false) as Hw by (apply not_true_iff_false; auto). split_and!; [done| |].
  - apply not_true_iff_false. intros E. rewrite t_requeue0 in Hw; done.
  - apply not_false_iff_true. intros E. by destruct (t_unborn0 E).
Qed.

Lemma inv_new p c s s' : inv s → do (New p c) s = Some s' → inv s'.
Proof.
  intros I H. cbn [Psi.do] in H. destruct (born (tasks s p)) eqn:Hb, (is_idle p) eqn:Hi; cbn [orb] in H; try done. apply (inj Some) in H; subst s'.
  pose proof (i_task _ I p Hi) as Ht. destruct (t_unborn _ _ Ht Hb) as (Ho & _).
  assert (running p s = false) as Hr by (apply not_running; [done..|lia]).
  unfold activate_task, enqueue_task. set (u := upd p _ s).
  assert (becomes p (Task true 0 c false false false false 0) s u) as B1.
  { apply (becomes_upd p (λ _, Task true 0 c false false false false 0)). apply I. }
  assert (becomes p (with_flags (Z.lor TSK_RUNNING 0) (Task true 0 c false false false false 0)) s (psi_enqueue false p false u)) as B2.
  { eapply becomes_trans; [exact B1|]. pose proof (b_task _ _ _ _ B1) as Bt.
    eapply becomes_eq; [apply enqueue_spec; [done|apply B1|by rewrite Bt|by rewrite Bt]|]. by rewrite Bt. }
  eapply becomes_inv; [done..|by apply becomes_then|]. rewrite Hr. split; simpl; auto; try done. unfold expected. simpl. by flags.
Qed.

Lemma inv_wake p dest s s' : inv s → do (Wake p dest) s = Some s' → inv s'.
Proof.
  intros I H. cbn [Psi.do] in H. destruct (born (tasks s p)) eqn:Hb, (is_idle p) eqn:Hi, (on_rq (tasks s p) =? 0) eqn:Ho, (waking (tasks s p)) eqn:Hw;
    cbn [andb negb] in H; try done. apply Z.eqb_eq in Ho. pose proof (i_task _ I p Hi) as Ht.
  assert (running p s = false) as Hr by (apply not_running; [done..|lia]). apply (inj Some) in H; subst s'.
  assert (sched_psi_wake_requeue (tasks s p) = false) as Hq.
  { apply not_true_iff_false. intros E. by rewrite (t_requeue _ _ Ht E) in Hw. }
  assert (psi_flags (tasks s p) = Z.lor (iowait (tasks s p)) (memstall (tasks s p))) as Hf.
  { rewrite (t_flags _ _ Ht). unfold expected. by rewrite Ho, Hq. }
  pose proof (becomes_upd p (with_waking true) s (i_consistent _ I)) as B1. case_match.
  - eapply becomes_inv; [done..|exact B1|]. rewrite Hr. destruct Ht. split; simpl; try done; [by rewrite t_flags0, Hr|by rewrite Hb].
  - set (u := upd p (with_waking true) s) in *. pose proof (b_task _ _ _ _ B1) as Bt.
    assert (becomes p (with_flags 0 (with_requeue (in_iowait (tasks s p) || in_memstall (tasks s p)) (with_waking true (tasks s p)))) s
      (psi_ttwu_dequeue false p u)) as B2.
    { eapply becomes_trans; [exact B1|]. eapply becomes_eq; [apply ttwu_dequeue_spec; [done|apply B1|by rewrite Bt|by rewrite Bt]|]. by rewrite Bt. }
    eapply becomes_inv; [done..|by apply becomes_then|]. rewrite Hr. split; simpl; auto; try done; [|by rewrite Hb].
    unfold expected. simpl. rewrite Ho. simpl. by destruct (in_iowait _), (in_memstall _).
Qed.

Lemma inv_activate p s s' : inv s → is_idle p = false → do (Activate p) s = Some s' → inv s'.
Proof.
  intros I Hi H. cbn [Psi.do] in H. destruct (waking (tasks s p)) eqn:Hw; [|done]. apply (inj Some) in H; subst s'.
  pose proof (i_task _ I p Hi) as Ht. pose proof (t_waking _ _ Ht Hw) as Ho.
  assert (running p s = false) as Hr by (apply not_running; [done..|lia]).
  assert (born (tasks s p) = true) as Hb.
  { apply not_false_iff_true. intros E. destruct (t_unborn _ _ Ht E) as (_ & E2 & _). congruence. }
  unfold activate_task, enqueue_task.
  assert (psi_flags (tasks s p) = if sched_psi_wake_requeue (tasks s p) then 0 else Z.lor (iowait (tasks s p)) (memstall (tasks s p))) as Hf.
  { rewrite (t_flags _ _ Ht). unfold expected. by rewrite Ho. }
  pose proof (enqueue_spec p true s Hi (i_consistent _ I) Hf ltac:(done)) as B.
  eapply becomes_inv; [done..|by apply becomes_then, becomes_then|]. rewrite Hr. split; simpl; auto; try done; [|by rewrite Hb].
  unfold expected, memstall. simpl. by rewrite Z.lor_0_r.
Qed.

Lemma inv_move_off p dest s s' : inv s → do (MoveOff p dest) s = Some s' → inv s'.
Proof.
  intros I H. cbn [Psi.do] in H. destruct (is_idle p) eqn:Hi, (task_on_rq_queued (tasks s p)) eqn:Ho, (running p s) eqn:Hr; cbn [andb negb] in H; try done.
  apply (inj Some) in H; subst s'. pose proof (i_task _ I p Hi) as Ht. apply Z.eqb_eq in Ho. unfold deactivate_task, dequeue_task.
  pose proof (becomes_upd p (with_on_rq TASK_ON_RQ_MIGRATING) s (i_consistent _ I)) as B1. set (u := upd p _ s) in *.
  pose proof (b_task _ _ _ _ B1) as Bt.
  destruct (on_rq_settled _ _ Ht) as (Hw & Hq & Hb); [by rewrite Ho|].
  assert (becomes p (with_flags 0 (with_on_rq TASK_ON_RQ_MIGRATING (tasks s p))) s (psi_dequeue false p false u)) as B2.
  { eapply becomes_trans; [exact B1|]. eapply becomes_eq; [apply (dequeue_spec p false); [done|apply B1|]|by rewrite Bt].
    rewrite Bt. simpl. rewrite (t_flags _ _ Ht). unfold expected. by rewrite Ho, Hr. }
  eapply becomes_inv; [done..|by apply becomes_then|]. rewrite Hr. split; simpl; auto; congruence.
Qed.

Lemma inv_move_on p s s' : inv s → is_idle p = false → do (MoveOn p) s = Some s' → inv s'.
Proof.
  intros I Hi H. cbn [Psi.do] in H. destruct (on_rq (tasks s p) =? TASK_ON_RQ_MIGRATING) eqn:Ho; [|done]. apply (inj Some) in H; subst s'.
  apply Z.eqb_eq in Ho. pose proof (i_task _ I p Hi) as Ht. assert (running p s = false) as Hr by (apply not_running; [done..|unfold TASK_ON_RQ_MIGRATING in *; lia]).
  destruct (on_rq_settled _ _ Ht) as (Hw & Hq & Hb); [by rewrite Ho|].
  assert (psi_flags (tasks s p) = 0) as Hf by (rewrite (t_flags _ _ Ht); unfold expected; by rewrite Ho).
  unfold activate_task, enqueue_task. pose proof (enqueue_spec p false s Hi (i_consistent _ I) Hf ltac:(done)) as B.
  eapply becomes_inv; [done..|by apply becomes_then|]. rewrite Hr. split; simpl; auto; try done.
  - unfold expected, memstall. simpl. by rewrite Z.lor_0_r.
  - congruence.
  - congruence.
Qed.

Lemma inv_set_iowait c b s s' : inv s → do (SetIowait c b) s = Some s' → inv s'.
Proof.
  intros I H. cbn [Psi.do] in H. destruct (bool_decide (c ∈ psi_cpus)) eqn:Hc, (is_idle (curr s c)) eqn:Hi; cbn [andb negb] in H; try done.
  apply (inj Some) in H; subst s'. apply bool_decide_eq_true in Hc. pose proof (i_task _ I _ Hi) as Ht.
  assert (running (curr s c) s = true) as Hr by (apply running_spec; by exists c). rewrite Hr in Ht.
  eapply becomes_inv; [done..|apply becomes_upd, I|]. rewrite Hr. destruct Ht. split; simpl; try done.
  rewrite t_flags0. unfold expected. simpl. by rewrite t_running0.
Qed.

Lemma inv_set_memstall c b s s' : inv s → do (SetMemstall c b) s = Some s' → inv s'.
Proof.
  intros I H. cbn [Psi.do] in H. destruct (bool_decide (c ∈ psi_cpus)) eqn:Hc, (is_idle (curr s c)) eqn:Hi; cbn [andb negb] in H; try done.
  destruct (Bool.eqb (in_memstall (tasks s (curr s c))) b) eqn:Hm; cbn [negb] in H; [done|].
  apply (inj Some) in H; subst s'. apply bool_decide_eq_true in Hc. pose proof (i_task _ I _ Hi) as Ht.
  assert (running (curr s c) s = true) as Hr by (apply running_spec; by exists c). rewrite Hr in Ht.
  assert (in_memstall (tasks s (curr s c)) = negb b) as Em by (by destruct (in_memstall _), b).
  pose proof (becomes_upd (curr s c) (with_memstall b) s (i_consistent _ I)) as B. set (u := upd _ _ s) in *.
  pose proof (b_task _ _ _ _ B) as Bt. set (p := curr s c) in *.
  assert (psi_flags (tasks s p) = Z.lor (Z.lor TSK_RUNNING (if negb b then TSK_MEMSTALL else 0)) TSK_ONCPU) as Hf.
  { rewrite (t_flags _ _ Ht). unfold expected. rewrite (t_running _ _ Ht), Em by done. done. }
  assert (becomes p (with_flags (Z.lor (Z.lor TSK_RUNNING (if b then TSK_MEMSTALL else 0)) TSK_ONCPU) (with_memstall b (tasks s p))) s
    (if b then psi_task_change p 0 TSK_MEMSTALL u else psi_task_change p TSK_MEMSTALL 0 u)) as B2.
  { flags. destruct b; (eapply becomes_trans; [exact B|]); (eapply becomes_eq; [apply becomes_change; [done|apply B|by rewrite Bt; simpl; rewrite Hf..]|]);
      rewrite Bt; simpl; by rewrite Hf. }
  eapply becomes_inv; [done|exact Hi|exact B2|]. rewrite Hr. destruct Ht. split; simpl; try done.
  - unfold expected. simpl. by rewrite t_running0.
  - intros E. by destruct (t_unborn0 E) as (E2 & _); rewrite t_running0 in E2.
Qed.

(** * Switches *)

(** After the block of the previous task. *)
Lemma block_spec c s : inv s → c ∈ psi_cpus → is_idle (curr s c) = false →
  becomes (curr s c) (with_flags (Z.lor (iowait (tasks s (curr s c))) (memstall (tasks s (curr s c)))) (with_on_rq 0 (tasks s (curr s c)))) s
    (deactivate_task false (curr s c) true s).
Proof.
  intros I Hc Hi. pose proof (i_task _ I _ Hi) as Ht.
  assert (running (curr s c) s = true) as Hr by (apply running_spec; by exists c). rewrite Hr in Ht.
  pose proof (becomes_upd (curr s c) (with_on_rq 0) s (i_consistent _ I)) as B. unfold deactivate_task, dequeue_task.
  set (u := upd _ _ s) in *. pose proof (b_task _ _ _ _ B) as Bt. eapply becomes_trans; [exact B|].
  eapply becomes_eq; [apply (dequeue_spec _ true); [done|apply B|]|by rewrite Bt].
  rewrite Bt. simpl. rewrite (t_flags _ _ Ht). unfold expected. by rewrite (t_running _ _ Ht).
Qed.

(** Both sides of [psi_sched_switch]. *)
Lemma idle_change p c st s : is_idle p = true → psi_task_change p c st s = s.
Proof. intros H. unfold psi_task_change. by rewrite ignored, H. Qed.

Definition on_cpu_cleared (t : task) : task := with_flags (Z.ldiff (psi_flags t) TSK_ONCPU) t.
Definition on_cpu_set (t : task) : task := with_flags (Z.lor (psi_flags t) TSK_ONCPU) t.

Lemma switch_spec prev next (sleep : bool) s : consistent s = true → prev ≠ next →
  (is_idle next = false → Z.land (psi_flags (tasks s next)) TSK_ONCPU = 0) →
  (is_idle prev = false → sleep = false → Z.land (psi_flags (tasks s prev)) TSK_ONCPU = TSK_ONCPU) →
  let s' := psi_sched_switch false prev next sleep s in
  consistent s' = true ∧ curr s' = curr s ∧ (∀ q, q ≠ prev → q ≠ next → tasks s' q = tasks s q) ∧
  tasks s' next = (if is_idle next then tasks s next else on_cpu_set (tasks s next)) ∧
  tasks s' prev = (if is_idle prev || sleep then tasks s prev else on_cpu_cleared (tasks s prev)).
Proof.
  intros Hc Hne Hn Hp. unfold psi_sched_switch, psi_task_switch. rewrite switched. cbn [foldl].
  assert (∃ u, psi_task_change next 0 TSK_ONCPU s = u ∧ consistent u = true ∧ curr u = curr s ∧ (∀ q, q ≠ next → tasks u q = tasks s q) ∧
    tasks u next = (if is_idle next then tasks s next else on_cpu_set (tasks s next))) as (u & -> & U1 & U2 & U3 & U4).
  { destruct (is_idle next) eqn:Hi; [rewrite idle_change by done; by exists s|]. eexists. split; [done|].
    pose proof (becomes_change next 0 TSK_ONCPU s Hi Hc (Z.land_0_r _) (Hn eq_refl)) as [B1 B2 B3 B4]. split_and!; try done.
    rewrite B1. by rewrite Z.ldiff_0_r. }
  cbv zeta. destruct sleep; cbn [foldl]; [rewrite orb_true_r; split_and!; auto|]. rewrite orb_false_r.
  destruct (is_idle prev) eqn:Hi; [rewrite idle_change by done; split_and!; auto|].
  assert (tasks u prev = tasks s prev) as Eu by auto.
  pose proof (becomes_change prev TSK_ONCPU 0 u Hi U1) as B. rewrite Eu in B.
  destruct B as [B1 B2 B3 B4]; [by apply Hp|apply Z.land_0_r|]. split_and!.
  - done.
  - congruence.
  - intros q Hq1 Hq2. rewrite B2 by done. auto.
  - rewrite B2 by done. done.
  - rewrite B1. by rewrite Z.lor_0_r.
Qed.

Lemma idle_is_idle c : c ∈ psi_cpus → is_idle (psi_idle c) = true.
Proof. intros H. apply existsb_exists. exists c. split; [by apply list_elem_of_In|apply Z.eqb_refl]. Qed.

Lemma may_run_spec c next s : c ∈ psi_cpus → may_run c next s = true →
  is_idle next = true ∨ (is_idle next = false ∧ on_rq (tasks s next) = 1 ∧ running next s = false).
Proof.
  intros Hc. unfold may_run. rewrite orb_true_iff, !andb_true_iff, !negb_true_iff.
  intros [->%Z.eqb_eq|[[[H1 H2%Z.eqb_eq] _] H4]]; [left; by apply idle_is_idle|by right].
Qed.

(** The processors after a switch of [c] to [next]. *)
Lemma running_switched c next s s' q : inv s → c ∈ psi_cpus → curr s' = <[c := next]> (curr s) → curr s c ≠ next →
  running q s' = if decide (q = next) then true
                 else if decide (q = curr s c) then (if is_idle q then running q s' else false) else running q s.
Proof.
  intros I Hc Ec Hne. case_decide as H1; [|case_decide as H2].
  - subst q. apply running_spec. exists c. by rewrite Ec, fn_lookup_insert.
  - destruct (is_idle q) eqn:Hi; [done|]. apply not_true_iff_false. intros (d & Hd & Eq)%running_spec. rewrite Ec in Eq.
    destruct (decide (d = c)) as [->|Hdc]; [rewrite fn_lookup_insert in Eq; congruence|]. rewrite fn_lookup_insert_ne in Eq by done.
    apply Hdc, (i_once _ I d c); congruence.
  - apply eq_iff_eq_true. rewrite !running_spec. rewrite Ec. split; intros (d & Hd & Eq); exists d; (split; [done|]);
      (destruct (decide (d = c)) as [->|Hdc]; [rewrite ?fn_lookup_insert in *; congruence|by rewrite ?fn_lookup_insert_ne in * by done]).
Qed.

Lemma switched_once c next s : inv s → c ∈ psi_cpus → (is_idle next = false → running next s = false) →
  ∀ d e, d ∈ psi_cpus → e ∈ psi_cpus → <[c := next]> (curr s) d = <[c := next]> (curr s) e →
    is_idle (<[c := next]> (curr s) d) = false → d = e.
Proof.
  intros I Hc Hn d e Hd He. assert (∀ x, x ∈ psi_cpus → curr s x = next → is_idle next = true) as Hx.
  { intros x Hx E. apply not_false_iff_true. intros Hi. specialize (Hn Hi). apply not_true_iff_false in Hn. apply Hn, running_spec. by exists x. }
  destruct (decide (d = c)) as [->|H1], (decide (e = c)) as [->|H2]; rewrite ?fn_lookup_insert, ?fn_lookup_insert_ne by done; try done.
  - intros E Hi. rewrite (Hx e) in Hi by done. done.
  - intros E. rewrite E. intros Hi. rewrite (Hx d) in Hi by done. done.
  - by apply (i_once _ I).
Qed.

Lemma inv_schedule c next block s s' : inv s → do (Schedule c next block) s = Some s' → inv s'.
Proof.
  intros I H. cbn [Psi.do] in H. destruct (bool_decide (c ∈ psi_cpus)) eqn:Hc; [|done]. apply bool_decide_eq_true in Hc.
  destruct (block && (is_idle (curr s c) || (curr s c =? next))) eqn:Hb; cbn [andb negb] in H; [done|].
  destruct ((curr s c =? next) || may_run c next s) eqn:Hm; [|done]. apply (inj Some) in H; subst s'. unfold schedule. cbv zeta.
  destruct (Z.eqb_spec (curr s c) next) as [He|Hne]; [by destruct block; [rewrite orb_true_r in Hb|]|].
  rewrite orb_false_r in Hb. simpl in Hm. apply (may_run_spec c next s Hc) in Hm. set (prev := curr s c) in *.
  set (t1 := if block then with_flags (Z.lor (iowait (tasks s prev)) (memstall (tasks s prev))) (with_on_rq 0 (tasks s prev)) else tasks s prev).
  assert (becomes prev t1 s (if block then deactivate_task false prev true s else s)) as B.
  { destruct block; [apply block_spec; try done; by apply andb_false_iff in Hb as [|]|]. split; try done. apply I. }
  set (s1 := if block then deactivate_task false prev true s else s) in *. destruct B as [B1 B2 B3 B4].
  set (s2 := State (tasks s1) (<[c := next]> (curr s1)) (consistent s1) (memstall_ticks s1)).
  set (sleep := negb (task_on_rq_queued (tasks s2 prev))).
  assert (is_idle prev = false → task_ok true (tasks s prev)) as Tp.
  { intros Hi. pose proof (i_task _ I prev Hi) as Ht. assert (running prev s = true) as Hr by (apply running_spec; by exists c). by rewrite Hr in Ht. }
  assert (is_idle prev = false → sleep = block) as Es.
  { intros Hi. subst sleep. change (tasks s2 prev) with (tasks s1 prev). rewrite B1. subst t1. unfold task_on_rq_queued.
    destruct block; [done|]. by rewrite (t_running _ _ (Tp Hi)). }
  assert (is_idle next = false → task_ok false (tasks s next) ∧ on_rq (tasks s next) = 1) as Tn.
  { intros Hi. destruct Hm as [|(_ & Ho & Hr)]; [congruence|]. pose proof (i_task _ I next Hi) as Ht. by rewrite Hr in Ht. }
  destruct (switch_spec prev next sleep s2) as (W1 & W2 & W3 & W4 & W5); try done.
  { intros Hi. destruct (Tn Hi) as [Ht Ho]. change (tasks s2 next) with (tasks s1 next). rewrite B2, (t_flags _ _ Ht) by done.
    unfold expected. rewrite Ho. simpl. flags. by destruct (in_memstall _). }
  { intros Hi Hs. change (tasks s2 prev) with (tasks s1 prev). rewrite B1. subst t1. rewrite Es in Hs by done. rewrite Hs.
    rewrite (t_flags _ _ (Tp Hi)). unfold expected. rewrite (t_running _ _ (Tp Hi)) by done. simpl. flags. by destruct (in_memstall _). }
  change (tasks s2) with (tasks s1) in *. rewrite B1 in W5. rewrite (B2 next) in W4 by done.
  set (s3 := psi_sched_switch false prev next sleep s2) in *.
  assert (curr s3 = <[c := next]> (curr s)) as Ec by (rewrite W2; simpl; by rewrite B3).
  split.
  - intros q Hi. rewrite (running_switched c next s s3 q) by done. fold prev. case_decide as D1; [|case_decide as D2].
    + subst q. rewrite W4, Hi. destruct (Tn Hi) as [Ht Ho]. destruct Ht. split; simpl; try done.
      * unfold expected in *. simpl. rewrite Ho in *. simpl in *. rewrite t_flags0. by rewrite Z.lor_0_r.
      * intros E. by destruct (t_unborn0 E) as (E2 & _); rewrite Ho in E2.
    + subst q. rewrite Hi, W5, Hi, (Es Hi). simpl. destruct (Tp Hi). specialize (t_running0 eq_refl).
      assert (born (tasks s prev) = true) as Hborn.
      { apply not_false_iff_true. intros E. by destruct (t_unborn0 E) as (E2 & _); rewrite t_running0 in E2. }
      assert (waking (tasks s prev) = false) as Hw by (apply not_true_iff_false; intros E; apply t_waking0 in E; congruence).
      assert (sched_psi_wake_requeue (tasks s prev) = false) as Hq by (apply not_true_iff_false; intros E; apply t_requeue0 in E; congruence).
      subst t1. destruct block; split; simpl; try done; try congruence; auto.
      * unfold expected. simpl. by rewrite Hq.
      * unfold expected in *. simpl. rewrite t_running0 in *. simpl in *. rewrite t_flags0. flags. by destruct (in_memstall _).
    + rewrite W3, B2 by done. by apply I.
  - intros q Hi. destruct (decide (q = next)) as [->|H1]; [rewrite W4, Hi; by apply I|].
    destruct (decide (q = prev)) as [->|H2]; [|rewrite W3, B2 by done; by apply I]. rewrite W5, Hi. simpl.
    subst t1. destruct block; [by rewrite Hi in Hb|by apply I].
  - done.
  - rewrite Ec. intros d e. apply (switched_once c next s I Hc). intros Hi. destruct Hm as [|(_ & _ & ?)]; [congruence|done].
Qed.

Lemma do_inv_psi l s s' : inv s → do l s = Some s' → inv s'.
Proof.
  intros I H. destruct l.
  - by eapply inv_new.
  - by eapply inv_wake.
  - destruct (is_idle p) eqn:Hi; [|by eapply inv_activate]. cbn [Psi.do] in H. destruct (i_idle _ I p Hi) as [E _]. by rewrite E in H.
  - by eapply inv_schedule.
  - by eapply inv_move_off.
  - destruct (is_idle p) eqn:Hi; [|by eapply inv_move_on]. cbn [Psi.do] in H. destruct (i_idle _ I p Hi) as [_ E]. by rewrite E in H.
  - cbn [Psi.do] in H. by destruct (task_on_rq_queued _); simplify_eq.
  - by eapply inv_set_iowait.
  - by eapply inv_set_memstall.
  - cbn [Psi.do] in H. apply (inj Some) in H; subst s'. unfold psi_task_tick. destruct (in_memstall _); [|done]. by destruct I; split.
Qed.

Lemma inv_start : (∀ c d, c ∈ psi_cpus → d ∈ psi_cpus → psi_idle c = psi_idle d → c = d) → inv start.
Proof.
  intros Hd. split; try done.
  - intros p Hi. assert (running p start = false) as Hr.
    { apply not_true_iff_false. intros (c & Hc & <-)%running_spec. simpl in Hi. by rewrite idle_is_idle in Hi. }
    rewrite Hr. split; simpl; auto; done.
  - intros c d Hc Hdd E _. by apply Hd.
Qed.

(** C11: whatever tasks are made, woken, moved, switched and put to sleep, the
    flags that psi.c has for a task are exactly what the task does: running
    while it is on a run queue, on a processor while one runs it, waiting for
    I/O or memory while it sleeps so, and nothing while it is between run
    queues; and psi.c never sees an inconsistent change. *)
Theorem psi_flags_exact s : (∀ c d, c ∈ psi_cpus → d ∈ psi_cpus → psi_idle c = psi_idle d → c = d) →
  rtc step start s →
  consistent s = true ∧ ∀ p, is_idle p = false → psi_flags (tasks s p) =
    if on_rq (tasks s p) =? TASK_ON_RQ_QUEUED then
      Z.lor (Z.lor TSK_RUNNING (if in_memstall (tasks s p) then TSK_MEMSTALL else 0)) (if running p s then TSK_ONCPU else 0)
    else if on_rq (tasks s p) =? TASK_ON_RQ_MIGRATING then 0
    else if sched_psi_wake_requeue (tasks s p) then 0
    else Z.lor (if in_iowait (tasks s p) then TSK_IOWAIT else 0) (if in_memstall (tasks s p) then TSK_MEMSTALL else 0).
Proof.
  intros Hd H. assert (inv s) as I.
  { refine (rtc_ind_r inv start (inv_start Hd) _ s H). intros t u _ [l Hl] It. by apply (do_inv_psi l t u). }
  split; [apply I|]. intros p Hi. apply (i_task _ I p Hi).
Qed.
End psi.

(** Two processors with the idle tasks 100 and 101, and the flags of Linux. *)
#[global] Instance linux_psi : psi_code := {|
  TSK_IOWAIT := 1;
  TSK_MEMSTALL := 2;
  TSK_RUNNING := 4;
  TSK_ONCPU := 8;
  flags_change f c s := Z.lor (Z.ldiff f c) s;
  change_consistent f c s := (Z.land f c =? c) && (Z.land f s =? 0);
  psi_ignores p := (p =? 100) || (p =? 101);
  switch_changes prev next sleep := (next, 0, 8) :: if sleep : bool then [] else [(prev, 8, 0)];
  psi_cpus := [0; 1];
  psi_idle c := 100 + c;
|}.
#[global] Instance linux_psi_ok : psi_code_ok.
Proof.
  split; try done; [intros f c s H1 H2; simpl; by rewrite H1, H2, Z.eqb_refl|].
  intros p. unfold is_idle. simpl. by rewrite !(Z.eqb_sym p), orb_false_r.
Qed.

Fixpoint run (ls : list label) (s : state) : option state :=
  match ls with [] => Some s | l :: ls => s ← do false l s; run ls s end.
Lemma run_step ls s s' : run ls s = Some s' → rtc (step false) s s'.
Proof.
  revert s. induction ls as [|l ls IH]; simpl; intros s H; [by injection H as <-|].
  apply bind_Some in H as (t & E & H). eapply rtc_l; [by exists l|auto].
Qed.

(** Task 1 waits for I/O in a memory stall, wakes on another processor and
    runs there. *)
Definition stalls : list label :=
  [New 1 0; Schedule 0 1 false; SetMemstall 0 true; SetIowait 0 true; Schedule 0 100 true].
Definition wakes_elsewhere : list label := stalls ++ [Wake 1 1; Activate 1; Schedule 1 1 false].

Lemma psi_flags_exact_witness :
  psi_flags (tasks (default start (run stalls start)) 1) = 3 ∧
  consistent (default start (run wakes_elsewhere start)) = true ∧
  psi_flags (tasks (default start (run wakes_elsewhere start)) 1) = 14.
Proof.
  assert (rtc (step false) start (default start (run wakes_elsewhere start))) as H.
  { apply (run_step wakes_elsewhere). vm_compute. reflexivity. }
  split; [vm_compute; reflexivity|]. split; [|vm_compute; reflexivity].
  refine (proj1 (psi_flags_exact (default start (run wakes_elsewhere start)) _ H)). intros c d _ _ E. cbn in E. lia.
Defined.
