(* ===== verification/Clock.v ===== *)
(** The clocks of a run queue in the kernel of assignment 4
    (src/과제/OS과제/과제4/core.c): [update_rq_clock], the reading of the time a
    task has run, and the delay of the high resolution tick. The configuration
    has CONFIG_SMP, CONFIG_64BIT, CONFIG_IRQ_TIME_ACCOUNTING,
    CONFIG_PARAVIRT_TIME_ACCOUNTING and CONFIG_SCHED_HRTICK, and neither
    CONFIG_SCHED_DEBUG nor CONFIG_HAVE_SCHED_AVG_IRQ; the clock of pelt.c is
    left out. *)
From S2P Require Import Prelude.
Local Open Scope Z_scope.

Definition TASK_ON_RQ_QUEUED : Z := 1.

(** The clocks are u64. [hrtick_timer]: when the timer is set to fire;
    [hrtick_csd]: its start was asked of the processor and is under way. *)
Record rq := Rq {
  clock : Z;
  clock_task : Z;
  prev_irq_time : Z;
  prev_steal_time_rq : Z;
  clock_update_flags : Z;
  hrtick_time : Z;
  hrtick_timer : option Z;
  hrtick_csd : bool;
  curr : Z;
}.

Record task := Task {
  on_cpu : bool;
  on_rq : Z;
  sum_exec_runtime : Z;
  exec_start : Z;
}.

(** What an update reads: sched_clock_cpu, irq_time_read and
    paravirt_steal_clock. *)
Record reading := Reading { now : Z; irq_time : Z; steal_clock : Z }.

(** The flag of kernel/sched/sched.h, the key that enables the steal clock, and
    [update_curr] and [task_tick] of the class of a task. *)
Class clock_code := {
  RQCF_ACT_SKIP : Z;
  paravirt_steal_rq_enabled : bool;
  update_curr : rq → task → task;
  task_tick : rq → task → bool → task;
}.

(** [update_curr] charges the time since [exec_start], when there is any. *)
Class clock_code_ok `{!clock_code} : Prop := {
  updated_curr r t : update_curr r t =
    let delta_exec := wrap64 (clock_task r - exec_start t) in
    if delta_exec <=? 0 then t
    else Task (on_cpu t) (on_rq t) (wrapu64 (sum_exec_runtime t + delta_exec)) (clock_task r);
}.

Section clock.
Context `{!clock_code}.

(** The part of [delta] that went by in interrupts or on other guests. *)
Definition at_most (x delta : Z) : Z := if delta <? x then delta else x.

Definition update_rq_clock_task (x : reading) (delta : Z) (r : rq) : rq :=
  let irq_delta := at_most (wrap64 (irq_time x - prev_irq_time r)) delta in
  let prev_irq := wrapu64 (prev_irq_time r + irq_delta) in
  let delta := wrap64 (delta - irq_delta) in
  let '(prev_steal, delta) :=
    if paravirt_steal_rq_enabled then
      let steal := at_most (wrap64 (steal_clock x - prev_steal_time_rq r)) delta in
      (wrapu64 (prev_steal_time_rq r + steal), wrap64 (delta - steal))
    else (prev_steal_time_rq r, delta) in
  Rq (clock r) (wrapu64 (clock_task r + delta)) prev_irq prev_steal (clock_update_flags r) (hrtick_time r) (hrtick_timer r) (hrtick_csd r) (curr r).

Definition with_clock (v : Z) (r : rq) : rq :=
  Rq v (clock_task r) (prev_irq_time r) (prev_steal_time_rq r) (clock_update_flags r) (hrtick_time r) (hrtick_timer r) (hrtick_csd r) (curr r).

Definition update_rq_clock (x : reading) (r : rq) : rq :=
  if negb (Z.land (clock_update_flags r) RQCF_ACT_SKIP =? 0) then r
  else
    let delta := wrap64 (now x - clock r) in
    if delta <? 0 then r
    else update_rq_clock_task x delta (with_clock (wrapu64 (clock r + delta)) r).

Definition task_on_rq_queued (t : task) : bool := on_rq t =? TASK_ON_RQ_QUEUED.

(** Of the task [p]; the run queue and the task after it. *)
Definition task_sched_runtime (p : Z) (x : reading) (r : rq) (t : task) : Z * rq * task :=
  if negb (on_cpu t) || negb (task_on_rq_queued t) then (sum_exec_runtime t, r, t)
  else
    let '(r, t) :=
      if (curr r =? p) && task_on_rq_queued t then
        let r := update_rq_clock x r in (r, update_curr r t)
      else (r, t) in
    (sum_exec_runtime t, r, t).

(** [max_t(s64, delay, 10000LL)] of a u64. *)
Definition hrtick_delta (delay : Z) : Z := Z.max (wrap64 delay) 10000.
Definition with_hrtick (time : Z) (timer : option Z) (csd : bool) (r : rq) : rq :=
  Rq (clock r) (clock_task r) (prev_irq_time r) (prev_steal_time_rq r) (clock_update_flags r) time timer csd (curr r).

Definition hrtick_clear (r : rq) : rq := with_hrtick (hrtick_time r) None (hrtick_csd r) r.
Definition __hrtick_restart (r : rq) : rq := with_hrtick (hrtick_time r) (Some (hrtick_time r)) (hrtick_csd r) r.
Definition __hrtick_start (r : rq) : rq := __hrtick_restart (with_hrtick (hrtick_time r) (hrtick_timer r) false r).

(** [local]: the run queue is this processor's. A start that is under way
    already is not asked for again. *)
Definition hrtick_start (get_time : Z) (local : bool) (delay : Z) (r : rq) : rq :=
  let r := with_hrtick (wrap64 (get_time + hrtick_delta delay)) (hrtick_timer r) (hrtick_csd r) r in
  if local then __hrtick_restart r else with_hrtick (hrtick_time r) (hrtick_timer r) true r.

(** The timer of [r] fires while [t] runs. *)
Definition hrtick (x : reading) (r : rq) (t : task) : rq * task :=
  let r := update_rq_clock x (with_hrtick (hrtick_time r) None (hrtick_csd r) r) in (r, task_tick r t true).

(** Updates with the flags that the holders of the lock have set. *)
Inductive event : Set :=
  | Flags (v : Z)
  | Update (x : reading)
  | Start (get_time : Z) (local : bool) (delay : Z)
  | Ipi
  | Clear
  | Fire (x : reading) (t : task).
Definition handle (r : rq) (e : event) : rq :=
  match e with
  | Flags v => Rq (clock r) (clock_task r) (prev_irq_time r) (prev_steal_time_rq r) v (hrtick_time r) (hrtick_timer r) (hrtick_csd r) (curr r)
  | Update x => update_rq_clock x r
  | Start get_time local delay => hrtick_start get_time local delay r
  | Ipi => if hrtick_csd r then __hrtick_start r else r
  | Clear => hrtick_clear r
  | Fire x t => match hrtick_timer r with Some _ => fst (hrtick x r t) | None => r end
  end.
Definition new_rq : rq := Rq 0 0 0 0 0 0 None false 0.
End clock.
