(* ===== verification/ClockProofs.v ===== *)
(** The clocks of Clock lose no time. *)
From S2P Require Import Prelude Clock.
Local Open Scope Z_scope.

Lemma wrap64_id z : - 2^63 ≤ z < 2^63 → wrap64 z = z.
Proof. intros. unfold wrap64. rewrite Z.mod_small; lia. Qed.
Lemma wrapu64_id z : 0 ≤ z < 2^64 → wrapu64 z = z.
Proof. intros. by apply Z.mod_small. Qed.

Section clock.
Context `{C : clock_code} {CO : clock_code_ok}.

(** The clocks of the machine fit into 63 bits (292 years) and those of
    interrupts and of the host do not go backward. *)
Definition in_range (x : reading) : Prop :=
  0 ≤ now x < 2^63 ∧ 0 ≤ irq_time x < 2^63 ∧ 0 ≤ steal_clock x < 2^63.
Definition later (x y : reading) : Prop := irq_time x ≤ irq_time y ∧ steal_clock x ≤ steal_clock y.

Record inv (x : reading) (r : rq) : Prop := {
  c_clock : 0 ≤ clock r < 2^63;
  c_task : 0 ≤ clock_task r;
  c_irq : 0 ≤ prev_irq_time r ≤ irq_time x;
  c_steal : 0 ≤ prev_steal_time_rq r ≤ steal_clock x;
  c_sum : clock_task r + prev_irq_time r + prev_steal_time_rq r = clock r;
}.

Lemma inv_later x y r : later x y → inv x r → inv y r.
Proof. intros [] []. split; lia. Qed.

(** One update: no clock goes backward, and all time is accounted for. *)
Lemma update_inv x r : in_range x → inv x r →
  inv x (update_rq_clock x r) ∧ clock r ≤ clock (update_rq_clock x r) ∧ clock_task r ≤ clock_task (update_rq_clock x r) ∧
  clock_task (update_rq_clock x r) - clock_task r ≤ clock (update_rq_clock x r) - clock r ∧ curr (update_rq_clock x r) = curr r.
Proof.
  intros (Hn & Hi & Hs) I. unfold update_rq_clock. destruct (negb _); [split_and!; try done; lia|].
  destruct I. assert (clock_task r ≤ clock r) by lia.
  rewrite (wrap64_id (now x - clock r)) by lia. destruct (Z.ltb_spec (now x - clock r) 0); [split_and!; try done; lia|].
  set (delta := now x - clock r) in *. rewrite (wrapu64_id (clock r + delta)) by lia.
  unfold update_rq_clock_task, with_clock, at_most. cbn [clock clock_task prev_irq_time prev_steal_time_rq].
  rewrite (wrap64_id (irq_time x - prev_irq_time r)) by lia.
  set (irq := if delta <? irq_time x - prev_irq_time r then delta else irq_time x - prev_irq_time r).
  assert (0 ≤ irq ≤ delta ∧ irq ≤ irq_time x - prev_irq_time r) as [Hd Hle].
  { subst irq. destruct (Z.ltb_spec delta (irq_time x - prev_irq_time r)); lia. }
  rewrite (wrap64_id (delta - irq)), (wrapu64_id (prev_irq_time r + irq)) by lia. destruct paravirt_steal_rq_enabled.
  - rewrite (wrap64_id (steal_clock x - prev_steal_time_rq r)) by lia.
    set (steal := if delta - irq <? steal_clock x - prev_steal_time_rq r then delta - irq else steal_clock x - prev_steal_time_rq r).
    assert (0 ≤ steal ≤ delta - irq ∧ steal ≤ steal_clock x - prev_steal_time_rq r) as [Hd2 Hle2].
    { subst steal. destruct (Z.ltb_spec (delta - irq) (steal_clock x - prev_steal_time_rq r)); lia. }
    rewrite (wrap64_id (delta - irq - steal)), (wrapu64_id (prev_steal_time_rq r + steal)), (wrapu64_id (clock_task r + _)) by lia.
    simpl. split_and!; try lia. split; simpl; lia.
  - rewrite (wrapu64_id (clock_task r + _)) by lia. simpl. split_and!; try lia. split; simpl; lia.
Qed.

(** The readings of a list of events, in order. *)
Fixpoint readings_ok (x : reading) (l : list event) : Prop :=
  match l with
  | [] => True
  | Update y :: l | Fire y _ :: l => in_range y ∧ later x y ∧ readings_ok y l
  | _ :: l => readings_ok x l
  end.
Fixpoint last_reading (x : reading) (l : list event) : reading :=
  match l with [] => x | (Update y | Fire y _) :: l => last_reading y l | _ :: l => last_reading x l end.

(** The timer does not touch the clocks. *)
Lemma inv_hrtick x time timer csd r : inv x r → inv x (with_hrtick time timer csd r).
Proof. by intros []; split. Qed.

Lemma handle_step x e r : readings_ok x [e] → inv x r →
  inv (last_reading x [e]) (handle r e) ∧ clock r ≤ clock (handle r e) ∧ clock_task r ≤ clock_task (handle r e).
Proof.
  intros Hl I. destruct e as [v|y|g [|] d| | |y t]; simpl in *.
  - split_and!; [by destruct I; split|done|done].
  - destruct Hl as (Hy & Hlater & _). by destruct (update_inv y r Hy (inv_later _ _ _ Hlater I)) as (? & ? & ? & _).
  - by split_and!; [repeat apply inv_hrtick| |].
  - by split_and!; [repeat apply inv_hrtick| |].
  - destruct (hrtick_csd r); split_and!; try done. by repeat apply inv_hrtick.
  - by split_and!; [repeat apply inv_hrtick| |].
  - destruct Hl as (Hy & Hlater & _). apply (inv_later _ _ _ Hlater) in I. destruct (hrtick_timer r); [|done].
    by destruct (update_inv y (with_hrtick (hrtick_time r) None (hrtick_csd r) r) Hy (inv_hrtick _ _ _ _ _ I)) as (? & ? & ? & _).
Qed.

Lemma readings_app x l l' : readings_ok x (l ++ l') ↔ readings_ok x l ∧ readings_ok (last_reading x l) l'.
Proof. revert x. induction l as [|e l IH]; intros x; [simpl; tauto|]. destruct e; simpl; rewrite IH; tauto. Qed.
Lemma last_reading_app x l l' : last_reading x (l ++ l') = last_reading (last_reading x l) l'.
Proof. revert x. induction l as [|e l IH]; intros x; [done|]. destruct e; simpl; by rewrite IH. Qed.

Lemma handle_inv x l r : readings_ok x l → inv x r →
  inv (last_reading x l) (foldl handle r l) ∧ clock r ≤ clock (foldl handle r l) ∧ clock_task r ≤ clock_task (foldl handle r l).
Proof.
  revert x r. induction l as [|e l IH]; intros x r Hl I; [done|]. apply (readings_app x [e]) in Hl as [He Hl].
  destruct (handle_step x e r He I) as (I1 & ? & ?). destruct (IH _ _ Hl I1) as (I2 & ? & ?).
  change (e :: l) with ([e] ++ l). rewrite last_reading_app. split_and!; [done|simpl; lia..].
Qed.

(** A timer that is set is set to the last time asked for, or its new start
    is under way. *)
Lemma hrtick_armed l : let r := foldl handle new_rq l in
  hrtick_csd r = true ∨ hrtick_timer r = None ∨ hrtick_timer r = Some (hrtick_time r).
Proof.
  assert (∀ x r, hrtick_time (update_rq_clock x r) = hrtick_time r ∧ hrtick_timer (update_rq_clock x r) = hrtick_timer r ∧
    hrtick_csd (update_rq_clock x r) = hrtick_csd r) as Hu.
  { intros x r. unfold update_rq_clock. destruct (negb _); [done|]. case_match; [done|]. unfold update_rq_clock_task.
    by destruct paravirt_steal_rq_enabled. }
  induction l as [|e l IH] using rev_ind; [by auto|]. rewrite foldl_snoc. cbv zeta in *. set (r := foldl handle new_rq l) in *.
  destruct e as [v|y|g [|] d| | |y t]; simpl; auto.
  - destruct (Hu y r) as (-> & -> & ->). done.
  - destruct (hrtick_csd r) eqn:E; simpl; auto. destruct IH; [done|]. auto.
  - destruct (hrtick_timer r) eqn:E; [|rewrite E; auto]. simpl. destruct (Hu y (with_hrtick (hrtick_time r) None (hrtick_csd r) r)) as (_ & -> & _). auto.
Qed.

(** Whatever the readings are, the three times add up to the clock in 64
    bits. *)
Definition sums (r : rq) : Prop :=
  wrapu64 (clock_task r + prev_irq_time r + prev_steal_time_rq r) = clock r ∧ 0 ≤ clock_task r < 2^64.

Lemma wrapu64_range z : 0 ≤ wrapu64 z < 2^64.
Proof. apply Z.mod_pos_bound. lia. Qed.
Lemma wrap64_shift z : ∃ k, wrap64 z = z + k * 2^64.
Proof. exists (- ((z + 2^63) / 2^64)). unfold wrap64. rewrite Z.mod_eq by lia. lia. Qed.
Lemma wrapu64_shift z : ∃ k, wrapu64 z = z + k * 2^64.
Proof. exists (- (z / 2^64)). unfold wrapu64. rewrite Z.mod_eq by lia. lia. Qed.
Lemma wrapu64_cong x y k : x = y + k * 2^64 → wrapu64 x = wrapu64 y.
Proof. intros ->. unfold wrapu64. apply Z.mod_add. lia. Qed.

Lemma update_sums x r : sums r → sums (update_rq_clock x r).
Proof.
  intros [Hs Hc]. unfold update_rq_clock. destruct (negb _); [done|]. set (delta := wrap64 (now x - clock r)).
  destruct (delta <? 0); [done|]. unfold update_rq_clock_task, with_clock. cbn [clock clock_task prev_irq_time prev_steal_time_rq].
  set (irq := at_most _ delta). destruct (wrap64_shift (delta - irq)) as [k1 E1].
  destruct (wrapu64_shift (prev_irq_time r + irq)) as [k2 E2]. rewrite <-Hs. destruct (wrapu64_shift (clock_task r + prev_irq_time r + prev_steal_time_rq r)) as [k0 E0].
  destruct paravirt_steal_rq_enabled; (split; [|apply wrapu64_range]); cbn [clock clock_task prev_irq_time prev_steal_time_rq].
  - set (steal := at_most _ _). destruct (wrap64_shift (wrap64 (delta - irq) - steal)) as [k3 E3].
    destruct (wrapu64_shift (prev_steal_time_rq r + steal)) as [k4 E4].
    destruct (wrapu64_shift (clock_task r + wrap64 (wrap64 (delta - irq) - steal))) as [k5 E5].
    apply (wrapu64_cong _ _ (k1 + k2 + k3 + k4 + k5 - k0)). lia.
  - destruct (wrapu64_shift (clock_task r + wrap64 (delta - irq))) as [k5 E5].
    apply (wrapu64_cong _ _ (k1 + k2 + k5 - k0)). lia.
Qed.
Lemma handle_sums l : sums (foldl handle new_rq l).
Proof.
  induction l as [|e l IH] using rev_ind; [by vm_compute|]. rewrite foldl_snoc. set (r := foldl handle new_rq l) in *.
  destruct e as [v|y|g [|] d| | |y t]; simpl; try exact IH.
  - by apply update_sums.
  - by case_match.
  - case_match; [|done]. by apply update_sums.
Qed.

(** C12: with clocks of 64 bits, updates that are skipped and a sched_clock
    that may go backward, the time of tasks, of interrupts and of other guests
    always add up to the clock modulo 2^64, whatever the clocks of the machine
    show. While these are below 2^63 and those of interrupts and of the host
    do not go backward, the sum is exact, clock_task does not exceed the clock
    and both stay below 2^63, neither ever goes backward, and no more time of
    interrupts and guests is charged than their clocks show. *)
Theorem clocks_account_all_time l l' r r' : foldl handle new_rq l = r → foldl handle r l' = r' →
  wrapu64 (clock_task r + prev_irq_time r + prev_steal_time_rq r) = clock r ∧
  (readings_ok (Reading 0 0 0) (l ++ l') →
   clock_task r + prev_irq_time r + prev_steal_time_rq r = clock r ∧
   0 ≤ clock_task r ≤ clock r ∧ clock r < 2^63 ∧
   clock r ≤ clock r' ∧ clock_task r ≤ clock_task r' ∧
   0 ≤ prev_irq_time r ≤ irq_time (last_reading (Reading 0 0 0) l) ∧
   0 ≤ prev_steal_time_rq r ≤ steal_clock (last_reading (Reading 0 0 0) l)).
Proof.
  intros <- <-. split; [apply handle_sums|].
  intros [H1 H2]%readings_app. assert (inv (Reading 0 0 0) new_rq) as I0 by by split.
  destruct (handle_inv _ _ _ H1 I0) as (I1 & _). destruct (handle_inv _ _ _ H2 I1) as (_ & ? & ?).
  destruct I1. split_and!; try done; lia.
Qed.

(** The task [t] runs: it was charged up to [exec_start]. *)
Definition charged (r : rq) (t : task) : Prop :=
  on_cpu t = true ∧ on_rq t = TASK_ON_RQ_QUEUED ∧ 0 ≤ exec_start t ≤ clock_task r ∧ 0 ≤ sum_exec_runtime t < 2^63.

(** What a reading needs and leaves. *)
Definition may_read (r : rq) (t : task) : Prop :=
  on_cpu t = true ∧ on_rq t = TASK_ON_RQ_QUEUED ∧ 0 ≤ exec_start t ≤ clock_task r ∧ 0 ≤ sum_exec_runtime t ∧
  sum_exec_runtime t - exec_start t ≤ 2^63.
Lemma charged_may r t : charged r t → may_read r t.
Proof. unfold charged, may_read. intros (? & ? & ? & ?). split_and!; try done; lia. Qed.

Lemma reads p x r t n r' t' : in_range x → inv x r → curr r = p → may_read r t → task_sched_runtime p x r t = (n, r', t') →
  n = sum_exec_runtime t + (clock_task r' - exec_start t) ∧ inv x r' ∧ curr r' = p ∧
  0 ≤ clock_task r' - clock_task r ≤ clock r' - clock r ∧
  may_read r' t' ∧ exec_start t' = clock_task r' ∧ sum_exec_runtime t' = n.
Proof.
  intros Hx I Hp (H1 & H2 & H3 & H4 & H5) H. unfold task_sched_runtime, task_on_rq_queued in H.
  rewrite H1, H2, Hp, !Z.eqb_refl in H. cbn -[update_rq_clock update_curr] in H. injection H as <- <- <-.
  destruct (update_inv x r Hx I) as (Iv & Hc & Ht & Hd & Hq). rewrite updated_curr. cbv zeta.
  assert (clock_task (update_rq_clock x r) < 2^63) as Hb by (destruct Iv; lia). unfold may_read.
  rewrite wrap64_id by lia. destruct (Z.leb_spec (clock_task (update_rq_clock x r) - exec_start t) 0).
  - split_and!; try done; try congruence; lia.
  - cbn [on_cpu on_rq sum_exec_runtime exec_start]. rewrite wrapu64_id by lia. split_and!; try done; try congruence; lia.
Qed.

(** The time that [task_sched_runtime] reads for the running task is what
    it was charged and the time of the task clock since, even if it was not
    charged yet; two readings differ by exactly the time of the task clock
    between them. *)
Theorem runtime_is_task_clock p x y r t n1 r1 t1 n2 r2 t2 :
  in_range x → in_range y → later x y → inv x r → charged r t → curr r = p →
  task_sched_runtime p x r t = (n1, r1, t1) → task_sched_runtime p y r1 t1 = (n2, r2, t2) →
  n1 = sum_exec_runtime t + (clock_task r1 - exec_start t) ∧
  n2 - n1 = clock_task r2 - clock_task r1 ∧ 0 ≤ n2 - n1 ≤ clock r2 - clock r1.
Proof.
  intros Hx Hy Hl I Hc Hp E1 E2. destruct (reads p x r t n1 r1 t1 Hx I Hp (charged_may _ _ Hc) E1) as (A1 & A2 & A3 & _ & A4 & A5 & A6).
  destruct (reads p y r1 t1 n2 r2 t2 Hy (inv_later _ _ _ Hl A2) A3 A4 E2) as (B1 & _ & _ & B2 & _). split; [done|]. lia.
Qed.
End clock.

(** Linux, with the steal clock. *)
#[global] Instance linux_clock : clock_code := {|
  RQCF_ACT_SKIP := 2;
  paravirt_steal_rq_enabled := true;
  update_curr r t :=
    let delta_exec := wrap64 (clock_task r - exec_start t) in
    if delta_exec <=? 0 then t
    else Task (on_cpu t) (on_rq t) (wrapu64 (sum_exec_runtime t + delta_exec)) (clock_task r);
  task_tick _ t _ := t;
|}.
#[global] Instance linux_clock_ok : clock_code_ok.
Proof. by split. Qed.

(** An interrupt longer than the time between two updates is charged to both. *)
Definition day : list event :=
  [Start 0 false 5; Ipi; Update (Reading 100 30 0); Flags 2; Update (Reading 150 30 0); Flags 0; Update (Reading 200 250 5); Update (Reading 500 250 50)].
Lemma clocks_account_all_time_witness :
  clock_task (foldl handle new_rq day) + prev_irq_time (foldl handle new_rq day) + prev_steal_time_rq (foldl handle new_rq day) = 500 ∧
  clock_task (foldl handle new_rq day) = 200.
Proof.
  assert (readings_ok (Reading 0 0 0) (day ++ [])) as H.
  { unfold day. simpl. unfold in_range, later. simpl. repeat (split; try lia). }
  split; [|vm_compute; reflexivity].
  pose proof (proj1 (proj2 (clocks_account_all_time day [] _ _ eq_refl eq_refl) H)) as E. etransitivity; [exact E|].
  vm_compute. reflexivity.
Defined.

Lemma runtime_is_task_clock_witness :
  let r := Rq 100 70 30 0 0 0 None false 7 in let t := Task true 1 1000 60 in
  fst (fst (task_sched_runtime 7 (Reading 180 40 0) r t)) = 1000 + (140 - 60).
Proof.
  simpl. refine (proj1 (runtime_is_task_clock 7 (Reading 180 40 0) (Reading 300 40 0) (Rq 100 70 30 0 0 0 None false 7) (Task true 1 1000 60)
    1080 (Rq 180 140 40 0 0 0 None false 7) (Task true 1 1080 140) 1200 (Rq 300 260 40 0 0 0 None false 7) (Task true 1 1200 260) _ _ _ _ _ _ _ _)).
  - unfold in_range. simpl. lia.
  - unfold in_range. simpl. lia.
  - unfold later. simpl. lia.
  - split; simpl; lia.
  - unfold charged. split_and!; simpl; try lia; reflexivity.
  - reflexivity.
  - vm_compute. reflexivity.
  - vm_compute. reflexivity.
Defined.
