(* ===== verification/Inherit.v ===== *)
(** Priority inheritance in the kernel of assignment 4
    (src/과제/OS과제/과제4/core.c): [rt_mutex_setprio], by which rtmutex.c gives
    the holder of a mutex the priority of the first task that waits for it,
    next to the calls of Sched that change a policy or a nice value, and
    [normalize_rt_tasks], without the statistics. *)
From S2P Require Import Prelude Sched.
Local Open Scope Z_scope.

(** * Data *)

(** A task of Sched, whose [pi_top] is not used, with [pi_top_task], the task
    whose deadline parameters [dl.pi_se] points to, [dl.deadline],
    [rt.timeout], [se.exec_start], and whether it is the idle task of its
    processor, a kernel thread, or blocked on a mutex. *)
Record pi_task := PiTask {
  sched : task;
  pi_top_task : option Z;
  pi_se : Z;
  deadline : Z;
  timeout : Z;
  exec_start : Z;
  is_idle : bool;
  kthread : bool;
  blocked_on : bool;
}.

(** Operations on the run queue: those of Sched, the flag ENQUEUE_REPLENISH of
    the enqueue that follows, [__balance_callbacks], and the WARN_ONs for an
    idle task. *)
Inductive pi_op : Set := Rq (o : rq_op) | Replenish | BalanceCallbacks | Warn.

(** The order of two deadlines, of kernel/sched/sched.h. *)
Class dl_code := { dl_entity_preempt : Z → Z → bool }.

Section inherit.
Context `{sched_headers} `{kernel} `{!dl_code}.
Notation state := (Z → pi_task).

Definition with_sched (t : task) (x : pi_task) : pi_task :=
  PiTask t (pi_top_task x) (pi_se x) (deadline x) (timeout x) (exec_start x) (is_idle x) (kthread x) (blocked_on x).
Definition with_top (d : option Z) (x : pi_task) : pi_task :=
  PiTask (sched x) d (pi_se x) (deadline x) (timeout x) (exec_start x) (is_idle x) (kthread x) (blocked_on x).
Definition with_pi_se (e : Z) (x : pi_task) : pi_task :=
  PiTask (sched x) (pi_top_task x) e (deadline x) (timeout x) (exec_start x) (is_idle x) (kthread x) (blocked_on x).
Definition with_timeout (v : Z) (x : pi_task) : pi_task :=
  PiTask (sched x) (pi_top_task x) (pi_se x) (deadline x) v (exec_start x) (is_idle x) (kthread x) (blocked_on x).
Definition with_exec_start (v : Z) (x : pi_task) : pi_task :=
  PiTask (sched x) (pi_top_task x) (pi_se x) (deadline x) (timeout x) v (is_idle x) (kthread x) (blocked_on x).

Definition prio_of (s : state) (p : Z) : Z := prio (sched (s p)).
Definition rt_mutex_get_top_task (s : state) (p : Z) : option Z := pi_top_task (s p).

(** * Boosting *)

(** The donor, the flag ENQUEUE_REPLENISH and the entity for the task [x] =
    [p] with the new priority [pr]. *)
Definition boost_deadline (s : state) (p : Z) (donor : option Z) (x : pi_task) : res (pi_task * bool) :=
  if negb (dl_prio (normal_prio (sched x))) ||
     match donor with Some d => dl_prio (prio_of s d) && dl_entity_preempt (deadline (s d)) (deadline x) | None => false end
  then d ← opt NullPointer donor; Ok (with_pi_se (pi_se (s d)) x, true)
  else Ok (with_pi_se p x, false).

Definition rt_mutex_setprio (s : state) (p : Z) (donor : option Z) : res (state * list pi_op) :=
  let x := s p in
  let pr := __rt_effective_prio (prio_of s <$> donor) (normal_prio (sched x)) in
  if bool_decide (pi_top_task x = donor) && (pr =? prio (sched x)) && negb (dl_prio pr) then Ok (s, [])
  else
    let x := with_top donor x in
    if (pr =? prio (sched x)) && negb (dl_prio pr) then Ok (<[p := x]> s, [BalanceCallbacks])
    else if is_idle x
    then Ok (<[p := x]> s, (if running (sched x) then [] else [Warn]) ++ (if blocked_on x then [Warn] else []) ++ [BalanceCallbacks])
    else
      let t := sched x in
      let oldprio := prio t in
      let move := negb (oldprio =? pr) in
      '(x, c, replenish, head) ←
        (if dl_prio pr then '(x, r) ← boost_deadline s p donor x; Ok (x, dl_sched_class, r, false)
         else
           let x := if dl_prio oldprio then with_pi_se p x else x in
           if rt_prio pr then Ok (x, rt_sched_class, false, bool_decide (oldprio < pr))
           else
             let x := if rt_prio oldprio then with_timeout 0 x else x in
             Ok (x, fair_sched_class, false, false));
      let t' := with_prio pr c (sched x) in
      Ok (<[p := with_sched t' x]> s,
        (if queued t then [Rq (dequeue_task move)] else []) ++
        (if running t then [Rq put_prev_task] else []) ++
        (if queued t then (if replenish : bool then [Replenish] else []) ++ [Rq (enqueue_task move head)] else []) ++
        (if running t then [Rq set_next_task] else []) ++
        map Rq (check_class_changed t' (class t) oldprio) ++ [BalanceCallbacks]).

(** * The calls of Sched on a task with a donor *)

(** [pi_top] of Sched is the priority of the top task now. *)
Definition with_donor (d : option Z) (t : task) : task :=
  Task (policy t) (static_prio t) (normal_prio t) (prio t) (rt_priority t) (class t) (load t) (dl t) (sched_reset_on_fork t)
    (cpu_burst t) (mm t) (uid t) (euid t) (is_stop t) (queued t) (running t) d (rlim_nice t) (rlim_rtprio t).
Definition view (s : state) (p : Z) : task := with_donor (prio_of s <$> rt_mutex_get_top_task s p) (sched (s p)).
Definition store (s : state) (p : Z) (t : task) : state := <[p := with_sched (with_donor None t) (s p)]> s.

(** The region of [__sched_setscheduler] under the lock. *)
Definition setscheduler_region (s : state) (p : Z) (attr : sched_attr) (user pi : bool) (pol oldpolicy : Z) (reset : bool) : res state :=
  r ← locked (view s p) attr user pi pol oldpolicy reset;
  Ok (match r with Some (_, t, _) => store s p t | None => s end).

Definition set_user_nice_at (s : state) (p nice : Z) : res state :=
  '(t, _) ← set_user_nice (view s p) nice; Ok (store s p t).

(** [others]: what other processors do to the task before its run queue is
    locked. *)
Definition normalize_task (others : list (task → task)) (s : state) (p : Z) : res state :=
  if kthread (s p) then Ok s
  else
    let s := <[p := with_exec_start 0 (s p)]> s in
    if negb (dl_prio (prio_of s p)) && negb (rt_prio (prio_of s p)) then
      if task_nice (sched (s p)) <? 0 then set_user_nice_at s p 0 else Ok s
    else
      '(_, t, _) ← __sched_setscheduler others (view s p) (Attr SCHED_NORMAL 0 0 0 (Dl 0 0 0)) false false;
      Ok (store s p t).

Fixpoint normalize_rt_tasks (others : Z → list (task → task)) (threads : list Z) (s : state) : res state :=
  match threads with
  | [] => Ok s
  | p :: threads => s ← normalize_task (others p) s p; normalize_rt_tasks others threads s
  end.

(** * The regions under the lock of a task, in any order *)

Inductive label : Type :=
  | Setprio (p : Z) (donor : option Z)
  | Setscheduler (p : Z) (attr : sched_attr) (user pi : bool) (pol oldpolicy : Z) (reset : bool)
  | Nice (p nice : Z)
  | Normalize (p : Z).

Definition do (l : label) (s : state) : res state :=
  match l with
  | Setprio p donor => '(s, _) ← rt_mutex_setprio s p donor; Ok s
  | Setscheduler p attr user pi pol oldpolicy reset => setscheduler_region s p attr user pi pol oldpolicy reset
  | Nice p nice => set_user_nice_at s p nice
  | Normalize p => normalize_task [] s p
  end.
End inherit.
