(* ===== verification/InheritProofs.v ===== *)
(** Priority inheritance: the holder of a mutex has the priority of its donor
    while it has one and its own again afterwards; and a race after which it
    keeps the deadline of a task that does not wait for it. *)
From S2P Require Import Prelude Sched SchedProofs Inherit.
Local Open Scope Z_scope.

Section inherit.
Context `{Hh : sched_headers} {HO : sched_headers_ok} `{Hk : kernel} `{D : !dl_code}.
Notation state := (Z → pi_task).
Implicit Types (s : state) (p : Z).

(** The fields of a task agree, up to the priority that it inherits. *)
Record params_ok (t : task) : Prop := {
  p_normal : normal_prio t = normal_prio_of t;
  p_class : class t = class_of (prio t);
  p_rt : rt_policy (policy t) = negb (bool_decide (rt_priority t = 0));
  p_range : 0 ≤ rt_priority t < MAX_RT_PRIO;
  p_valid : valid_policy (policy t) = true;
  p_static : MAX_RT_PRIO ≤ static_prio t < MAX_RT_PRIO + NICE_WIDTH;
}.

(** A task that has no deadline uses no other's. *)
Definition own_entity s p : Prop := dl_prio (prio_of s p) = false → pi_se (s p) = p.


Lemma params_of_ok d t : sched_ok (with_donor d t) → params_ok t.
Proof. by intros []; split. Qed.

Lemma dl_is_rt x : dl_prio x = true → rt_prio x = true.
Proof. destruct max_prios as (E & _ & E2). rewrite dl_prios, rt_prios. lia. Qed.

(** * [rt_mutex_setprio] *)

(** What a boost leaves of a task. *)
Definition boosted (x y : pi_task) (donor : option Z) (pr : Z) : Prop :=
  sched y = with_prio pr (class_of pr) (sched x) ∧ pi_top_task y = donor ∧
  deadline y = deadline x ∧ exec_start y = exec_start x ∧ is_idle y = is_idle x ∧ kthread y = kthread x ∧ blocked_on y = blocked_on x.

Lemma with_same t : class t = class_of (prio t) → with_prio (prio t) (class_of (prio t)) t = t.
Proof. intros E. destruct t; simpl in *. by rewrite E. Qed.

(** A new deadline is the donor's if it goes before the task's own. *)
Definition entity_of s p (donor : option Z) : Z :=
  match donor with
  | Some d => if negb (dl_prio (normal_prio (sched (s p)))) || dl_prio (prio_of s d) && dl_entity_preempt (deadline (s d)) (deadline (s p))
              then pi_se (s d) else p
  | None => p
  end.

Lemma setprio_spec s p donor : params_ok (sched (s p)) → own_entity s p → is_idle (s p) = false →
  let pr := __rt_effective_prio (prio_of s <$> donor) (normal_prio (sched (s p))) in
  ∃ s' ops, rt_mutex_setprio s p donor = Ok (s', ops) ∧ (∀ q, q ≠ p → s' q = s q) ∧ boosted (s p) (s' p) donor pr ∧
    pi_se (s' p) = (if dl_prio pr then entity_of s p donor else p) ∧
    timeout (s' p) = (if negb (rt_prio pr) && rt_prio (prio_of s p) && negb (dl_prio pr) then 0 else timeout (s p)).
Proof.
  intros Ht He Hi. cbv zeta. unfold rt_mutex_setprio. set (pr := __rt_effective_prio _ _). set (x := s p).
  assert (pr = prio (sched x) → dl_prio pr = false → pi_se x = p) as Hsame.
  { intros E. rewrite E. exact He. }
  destruct (bool_decide (pi_top_task x = donor) && (pr =? prio (sched x)) && negb (dl_prio pr)) eqn:E1.
  - rewrite <- andb_assoc in E1. apply andb_true_iff in E1 as [Ed%bool_decide_eq_true E1].
    apply andb_true_iff in E1 as [E2%Z.eqb_eq E3%negb_true_iff]. pose proof (Hsame E2 E3) as E4. exists s, [].
    split; [done|]. split; [done|]. fold x. unfold boosted. rewrite E2, with_same by apply Ht. rewrite E3 in *.
    split; [by split_and!|]. rewrite <- E2, E3. split; [done|]. unfold prio_of. fold x. rewrite <- E2. by destruct (rt_prio pr).
  - clear E1. destruct ((pr =? prio (sched x)) && negb (dl_prio pr)) eqn:E1; cbn [sched with_top].
    + rewrite E1. cbn [sched with_top]. apply andb_true_iff in E1 as [E2%Z.eqb_eq E3%negb_true_iff]. pose proof (Hsame E2 E3) as E4. eexists _, [BalanceCallbacks].
      split; [done|]. split; [intros; by apply fn_lookup_insert_ne|]. rewrite fn_lookup_insert. unfold boosted. cbn [sched with_top pi_top_task deadline exec_start is_idle kthread blocked_on pi_se timeout].
      rewrite E2, with_same by apply Ht. split; [by split_and!|]. rewrite <- E2, E3. split; [done|].
      unfold prio_of. fold x. rewrite <- E2. by destruct (rt_prio pr).
    + rewrite E1. cbn [is_idle with_top]. replace (is_idle x) with false by done.
      destruct (dl_prio pr) eqn:Hdl.
      * rewrite (dl_is_rt _ Hdl). unfold boost_deadline, entity_of. cbn [sched with_top deadline]. fold x.
        assert (donor = None → dl_prio (normal_prio (sched x)) = true) as Hn by (intros ->; exact Hdl).
        destruct donor as [d|]; [|rewrite Hn by done].
        -- destruct (negb (dl_prio (normal_prio (sched x))) || _); eexists _, _; (split; [reflexivity|]); (split; [intros; by apply fn_lookup_insert_ne|]); rewrite fn_lookup_insert; rewrite ?Hdl; unfold boosted, class_of; rewrite Hdl; by split_and!.
        -- eexists _, _; (split; [reflexivity|]); (split; [intros; by apply fn_lookup_insert_ne|]); rewrite fn_lookup_insert; rewrite ?Hdl; unfold boosted, class_of; rewrite Hdl; by split_and!.
      * assert (∀ z, pi_se (if dl_prio (prio (sched x)) then with_pi_se p z else z) = if dl_prio (prio (sched x)) then p else pi_se z) as Hz
          by (intros z; by destruct (dl_prio (prio (sched x)))).
        assert (dl_prio (prio (sched x)) = false → pi_se x = p) as He' by exact He.
        unfold prio_of. fold x. destruct (rt_prio pr) eqn:Hrt, (dl_prio (prio (sched x))) eqn:Hd, (rt_prio (prio (sched x))) eqn:Hr;
          eexists _, _; (split; [reflexivity|]); (split; [intros; by apply fn_lookup_insert_ne|]); rewrite fn_lookup_insert; unfold boosted, class_of; rewrite Hdl, Hrt; split_and!; auto.
Qed.


(** * What else happens to the task *)










(** * A boost that is not taken back *)




(** A boost that ends gives the task everything back: priority, class and
    its own deadline. Only the time a real-time task may run is reset, when
    it becomes a fair one again. *)
Theorem boost_roundtrip s p d : sched_ok (sched (s p)) → pi_top (sched (s p)) = None → pi_top_task (s p) = None →
  pi_se (s p) = p → is_idle (s p) = false → d ≠ p →
  ∃ s1 s2, do (Setprio p (Some d)) s = Ok s1 ∧ do (Setprio p None) s1 = Ok s2 ∧
    prio_of s1 p = Z.min (prio_of s p) (prio_of s d) ∧
    (∀ q, q ≠ p → s2 q = s q) ∧
    s2 p = with_timeout (if rt_prio (prio_of s1 p) && negb (rt_prio (prio_of s p)) then 0 else timeout (s p)) (s p).
Proof.
  intros Hok Hn Htop Hse Hi Hd. assert (params_ok (sched (s p))) as Ht by by destruct Hok; split.
  assert (prio (sched (s p)) = normal_prio (sched (s p))) as Hpn.
  { rewrite (ok_prio _ Hok) at 1. unfold rt_effective_prio. by rewrite Hn. }
  destruct (setprio_spec s p (Some d) Ht (λ _, Hse) Hi) as (s1 & o1 & E1 & Q1 & B & S1 & T1). cbv zeta in *.
  set (pr := __rt_effective_prio _ _) in *. destruct B as (B1 & B2 & B3 & B4 & B5 & B6 & B7).
  assert (params_ok (sched (s1 p))) as Ht1 by (rewrite B1; by destruct Ht; split).
  assert (own_entity s1 p) as He1 by (unfold own_entity, prio_of; rewrite B1; simpl; intros E; by rewrite S1, E).
  destruct (setprio_spec s1 p None Ht1 He1) as (s2 & o2 & E2 & Q2 & C & S2 & T2); [congruence|]. cbv zeta in *.
  destruct C as (C1 & C2 & C3 & C4 & C5 & C6 & C7). exists s1, s2. cbn [do]. rewrite E1. split; [done|]. rewrite E2. split; [done|].
  assert (prio_of s1 p = pr) as Epr by (unfold prio_of; by rewrite B1).
  assert (pr = Z.min (prio_of s p) (prio_of s d)) as Emin by (unfold pr, prio_of; simpl; by rewrite Hpn).
  split; [congruence|]. split; [intros q Hq; by rewrite Q2, Q1|].
  assert (pr ≤ prio_of s p) as Hle by lia.
  assert (rt_prio (prio_of s p) = true → rt_prio pr = true) as Hmono by (rewrite !rt_prios; lia).
  change (__rt_effective_prio (prio_of s1 <$> None) (normal_prio (sched (s1 p)))) with (normal_prio (sched (s1 p))) in *.
  assert (normal_prio (sched (s1 p)) = prio_of s p) as En by (rewrite B1; unfold prio_of; simpl; congruence). rewrite En in *.
  destruct (s2 p) as [t2 top2 se2 dl2 to2 ex2 id2 kt2 bl2] eqn:Es2. cbn [sched pi_top_task deadline exec_start is_idle kthread blocked_on pi_se timeout] in *.
  unfold with_timeout. rewrite C1, B1. f_equal.
  - unfold prio_of. rewrite <- (ok_class _ Hok). by destruct (sched (s p)).
  - congruence.
  - rewrite S2, Hse. unfold entity_of. destruct (dl_prio (prio_of s p)); reflexivity.
  - congruence.
  - rewrite T2, Epr, T1. fold pr.
    assert (dl_prio (prio_of s p) = true → rt_prio (prio_of s p) = true) as Hdr by apply dl_is_rt.
    assert (dl_prio pr = true → rt_prio pr = true) as Hdr2 by apply dl_is_rt.
    destruct (rt_prio (prio_of s p)) eqn:R1, (rt_prio pr) eqn:R2, (dl_prio (prio_of s p)) eqn:D1, (dl_prio pr) eqn:D2; simpl; try done; naive_solver.
  - congruence.
  - congruence.
  - congruence.
  - congruence.
Qed.
End inherit.

(** * Two deadline tasks *)

#[global] Instance dl_order : dl_code := {| dl_entity_preempt a b := a <? b |}.

(** [sched_dl_overflow] refuses to take a deadline from a task without the
    deadline policy. *)
#[global] Instance deadline_kernel : kernel := {|
  cap_sys_nice := true;
  cred_euid := 1000;
  security_task_setscheduler := λ _, 0;
  security_task_getscheduler := λ _, 0;
  security_task_setnice := λ _ _, 0;
  reweight_task := λ p _, load p;
  checkparam_dl := λ _, true;
  dl_param_changed := λ _ _, true;
  sched_dl_overflow := λ p pol _, negb (task_has_dl_policy p || dl_policy pol);
  setparam_dl := λ _ a, sched_dl a;
  getparam_dl := λ p a, a;
  dl_bandwidth_ok := λ _, true;
|}.

Definition dl_waiter : task :=
  Task SCHED_DEADLINE 120 (-1) (-1) 0 dl_sched_class (Load (1024 * 1024) 4194304) (Dl 10 100 100)
       false 7 true 1000 1000 false true false None 0 0.
Definition fair_holder : task :=
  Task SCHED_NORMAL 120 120 120 0 fair_sched_class (Load (1024 * 1024) 4194304) (Dl 0 0 0)
       false 7 true 1000 1000 false true true None 0 0.
(** Task 1 holds a mutex that 2 waits for; both have a deadline, that of 2 is
    earlier. 3 is fair. *)
Definition two_deadlines : Z → pi_task := λ p,
  PiTask (if decide (p = 3) then fair_holder else dl_waiter) None p (100 * (3 - p)) 5 0 false false false.





Lemma boost_roundtrip_witness :
  ∃ s1 s2, do (Setprio 3 (Some 2)) two_deadlines = Ok s1 ∧ do (Setprio 3 None) s1 = Ok s2 ∧ s2 3 = with_timeout 0 (two_deadlines 3).
Proof.
  assert (sched_ok (Inherit.sched (two_deadlines 3))) as H by (split; vm_compute; split_and?; done).
  destruct (boost_roundtrip two_deadlines 3 2 H eq_refl eq_refl eq_refl eq_refl ltac:(discriminate)) as (s1 & s2 & E1 & E2 & E3 & _ & E4).
  exists s1, s2. split; [exact E1|]. split; [exact E2|]. rewrite E4, E3. reflexivity.
Defined.
