(* ===== verification/Resched.v ===== *)
(** How a processor of the kernel of assignment 4 is told to reschedule
    (src/과제/OS과제/과제4/core.c): the flags of a task that other processors
    change by cmpxchg, [resched_curr], the calls of functions on another
    processor, and the wake-up of idle processors. Every access to the flags of
    a task that runs elsewhere is a step of its own. The loop of the idle task
    (kernel/sched/idle.c) and the queue of functions (kernel/smp.c) are
    parameters, with the promise of which the comment of [set_nr_if_polling]
    speaks: while TIF_POLLING_NRFLAG is set, the idle task looks at
    TIF_NEED_RESCHED, and before it schedules it calls what was queued. *)
From S2P Require Import Prelude.
Local Open Scope Z_scope.

(** * Data *)

(** Where the idle task of a processor is: before it sets the polling flag; in
    its loop with the flag set; after it has cleared the flag and before it
    looks once more; halted; and on its way to [schedule_idle]: with the flag
    set, before the queued functions are called, and after that. *)
Inductive idle_place : Set := Enter | Loop | Cleared | Halted | Leave | Flush | Schedule.
#[global] Instance idle_place_eq_dec : EqDecision idle_place.
Proof. solve_decision. Defined.

(** What follows a failed [set_nr_if_polling]. *)
Inductive after : Set := CallIpi | WakeIdle.

(** Where the scheduler's code on a processor is: nowhere; with the lock of a run
    queue, before [resched_curr], or before it looks whether the processor is
    online; before and in the loop of [fetch_or], on the flags of a task of
    [tgt], with the value read; before [smp_send_reschedule]; before the lock is
    released; before and in the loop of [set_nr_if_polling]; before the other
    interrupt; and in [wake_up_if_idle], before and with the lock. *)
Inductive place : Set :=
  | Free
  | Locked (tgt : Z) (test_online : bool)
  | OrLoad (tgt t : Z) (locked : bool)
  | FetchOr (tgt t val : Z) (locked : bool)
  | SendReschedule (tgt : Z) (locked : bool)
  | Unlocking (tgt : Z)
  | IfLoad (tgt : Z) (k : after)
  | IfPolling (tgt val : Z) (k : after)
  | SendCall (tgt : Z)
  | WakeLock (tgt : Z)
  | WakeLocked (tgt : Z).

(** A processor with its run queue. [folded]: PREEMPT_NEED_RESCHED is in the
    preemption count; [resched_ipi], [call_ipi]: an interrupt is on its way;
    [call_queue]: the functions queued for the processor. *)
Record proc := Proc {
  curr : Z;
  idle_at : idle_place;
  folded : bool;
  resched_ipi : bool;
  call_ipi : bool;
  call_queue : list Z;
  rq_lock : option Z;
  at_place : place;
  online : bool;
}.

Record state := State { procs : Z → proc; flags : Z → Z }.

(** The processors, their idle tasks, and the bits of asm/thread_info.h. *)
Class machine := {
  cpus : list Z;
  idle : Z → Z;
  TIF_NEED_RESCHED : Z;
  TIF_POLLING_NRFLAG : Z;
  tick_nohz_full_cpu : Z → bool;
}.

Class machine_ok `{!machine} : Prop := {
  idle_inj c d : c ∈ cpus → d ∈ cpus → idle c = idle d → c = d;
  tif_bits : 0 ≤ TIF_NEED_RESCHED ∧ 0 ≤ TIF_POLLING_NRFLAG ∧ TIF_NEED_RESCHED ≠ TIF_POLLING_NRFLAG;
}.

Section resched.
Context `{!machine}.
Implicit Types (s : state) (c m tgt t : Z).

Definition _TIF_NEED_RESCHED : Z := Z.shiftl 1 TIF_NEED_RESCHED.
Definition _TIF_POLLING_NRFLAG : Z := Z.shiftl 1 TIF_POLLING_NRFLAG.
Definition has (val mask : Z) : bool := negb (Z.land val mask =? 0).

Definition is_idle_task t : bool := existsb (λ c, idle c =? t) cpus.

Definition upd c (f : proc → proc) s : state := State (<[c := f (procs s c)]> (procs s)) (flags s).
Definition set_flags t (v : Z) s : state := State (procs s) (<[t := v]> (flags s)).

Definition with_idle (v : idle_place) (p : proc) : proc :=
  Proc (curr p) v (folded p) (resched_ipi p) (call_ipi p) (call_queue p) (rq_lock p) (at_place p) (online p).
Definition with_folded (v : bool) (p : proc) : proc :=
  Proc (curr p) (idle_at p) v (resched_ipi p) (call_ipi p) (call_queue p) (rq_lock p) (at_place p) (online p).
Definition with_resched_ipi (v : bool) (p : proc) : proc :=
  Proc (curr p) (idle_at p) (folded p) v (call_ipi p) (call_queue p) (rq_lock p) (at_place p) (online p).
Definition with_call_ipi (v : bool) (p : proc) : proc :=
  Proc (curr p) (idle_at p) (folded p) (resched_ipi p) v (call_queue p) (rq_lock p) (at_place p) (online p).
Definition with_queue (v : list Z) (p : proc) : proc :=
  Proc (curr p) (idle_at p) (folded p) (resched_ipi p) (call_ipi p) v (rq_lock p) (at_place p) (online p).
Definition with_lock (v : option Z) (p : proc) : proc :=
  Proc (curr p) (idle_at p) (folded p) (resched_ipi p) (call_ipi p) (call_queue p) v (at_place p) (online p).
Definition with_place (v : place) (p : proc) : proc :=
  Proc (curr p) (idle_at p) (folded p) (resched_ipi p) (call_ipi p) (call_queue p) (rq_lock p) v (online p).
Definition with_online (v : bool) (p : proc) : proc :=
  Proc (curr p) (idle_at p) (folded p) (resched_ipi p) (call_ipi p) (call_queue p) (rq_lock p) (at_place p) v.
Definition with_curr (t : Z) (p : proc) : proc :=
  Proc t (idle_at p) (folded p) (resched_ipi p) (call_ipi p) (call_queue p) (rq_lock p) (at_place p) (online p).

Definition goto m (k : place) s : state := upd m (with_place k) s.
Definition test_tsk_need_resched t s : bool := has (flags s t) _TIF_NEED_RESCHED.
Definition set_tsk_need_resched t s : state := set_flags t (Z.lor (flags s t) _TIF_NEED_RESCHED) s.
Definition clear_tsk_need_resched t s : state := set_flags t (Z.ldiff (flags s t) _TIF_NEED_RESCHED) s.
Definition set_preempt_need_resched c s : state := upd c (with_folded true) s.
Definition smp_send_reschedule tgt s : state := upd tgt (with_resched_ipi true) s.

(** * What kernel/smp.c and kernel/sched/idle.c do *)

(** [awakened]: an interrupt ends the halt of the idle task. *)
Definition awakened (p : proc) : proc := match idle_at p with Halted => with_idle Enter p | _ => p end.

(** [__smp_call_single_queue] puts a function into a queue and says whether it
    calls [send_call_function_single_ipi]; [flush_queue] leaves what its handler
    does not call; [idle_step]: a step of the loop of the idle task of a
    processor, by a choice of its own. *)
Class idle_code := {
  __smp_call_single_queue : list Z → Z → list Z * bool;
  flush_queue : list Z → list Z;
  idle_step : Z → Z → state → option state;
}.

(** What a step of the idle task of [c] may be. *)
Inductive idle_rule `{!idle_code} c s : state → Prop :=
  | idle_enters : idle_at (procs s c) = Enter →
      idle_rule c s (upd c (with_idle Loop) (set_flags (idle c) (Z.lor (flags s (idle c)) _TIF_POLLING_NRFLAG) s))
  | idle_polls : idle_at (procs s c) = Loop → idle_rule c s s
  | idle_stops : idle_at (procs s c) = Loop →
      idle_rule c s (upd c (with_idle Cleared) (set_flags (idle c) (Z.ldiff (flags s (idle c)) _TIF_POLLING_NRFLAG) s))
  | idle_told : idle_at (procs s c) = Loop → test_tsk_need_resched (idle c) s = true →
      idle_rule c s (set_preempt_need_resched c (upd c (with_idle Leave) s))
  | idle_returns : idle_at (procs s c) = Cleared → idle_rule c s (upd c (with_idle Enter) s)
  | idle_halts : idle_at (procs s c) = Cleared → test_tsk_need_resched (idle c) s = false →
      idle_rule c s (upd c (with_idle Halted) s)
  | idle_leaves : idle_at (procs s c) = Leave →
      idle_rule c s (upd c (with_idle Flush) (set_flags (idle c) (Z.ldiff (flags s (idle c)) _TIF_POLLING_NRFLAG) s))
  | idle_flushes : idle_at (procs s c) = Flush → idle_rule c s (upd c (λ p, with_idle Schedule (with_queue (flush_queue (call_queue p)) p)) s).

Class idle_code_ok `{!idle_code} : Prop := {
  first_sends x : snd (__smp_call_single_queue [] x) = true;
  all_flushed q : flush_queue q = [];
  idle_promise c k s s' : idle_step c k s = Some s' → idle_rule c s s';
}.

Context `{!idle_code}.

(** * What a processor does for another *)

(** With the lock of [tgt]. *)
Definition resched_curr m tgt s : state :=
  let t := curr (procs s tgt) in
  if test_tsk_need_resched t s then goto m (Unlocking tgt) s
  else if tgt =? m then goto m (Unlocking tgt) (set_preempt_need_resched m (set_tsk_need_resched t s))
  else goto m (OrLoad tgt t true) s.

(** A turn of the loop of [fetch_or], for [set_nr_and_not_polling]. *)
Definition fetch_or m tgt t (val : Z) (locked : bool) s : state :=
  let old := flags s t in
  if old =? val then
    let s := set_flags t (Z.lor val _TIF_NEED_RESCHED) s in
    if has old _TIF_POLLING_NRFLAG then goto m (if locked then Unlocking tgt else Free) s
    else goto m (SendReschedule tgt locked) s
  else goto m (FetchOr tgt t old locked) s.

Definition polled (b : bool) (tgt : Z) (k : after) : place :=
  if b then Free else match k with CallIpi => SendCall tgt | WakeIdle => WakeLock tgt end.

(** A turn of the loop of [set_nr_if_polling], for the idle task of [tgt]. *)
Definition set_nr_if_polling m tgt (val : Z) (k : after) s : state :=
  if negb (has val _TIF_POLLING_NRFLAG) then goto m (polled false tgt k) s
  else if has val _TIF_NEED_RESCHED then goto m (polled true tgt k) s
  else
    let old := flags s (idle tgt) in
    if old =? val then goto m (polled true tgt k) (set_flags (idle tgt) (Z.lor val _TIF_NEED_RESCHED) s)
    else goto m (IfPolling tgt old k) s.

Definition go m s : option state :=
  match at_place (procs s m) with
  | Free => None
  | Locked tgt test_online =>
      Some (if negb test_online || online (procs s tgt) || (tgt =? m) then resched_curr m tgt s else goto m (Unlocking tgt) s)
  | OrLoad tgt t locked => Some (goto m (FetchOr tgt t (flags s t) locked) s)
  | FetchOr tgt t val locked => Some (fetch_or m tgt t val locked s)
  | SendReschedule tgt locked => Some (goto m (if locked then Unlocking tgt else Free) (smp_send_reschedule tgt s))
  | Unlocking tgt => Some (goto m Free (upd tgt (with_lock None) s))
  | IfLoad tgt k => Some (goto m (IfPolling tgt (flags s (idle tgt)) k) s)
  | IfPolling tgt val k => Some (set_nr_if_polling m tgt val k s)
  | SendCall tgt => Some (goto m Free (upd tgt (with_call_ipi true) s))
  | WakeLock tgt => match rq_lock (procs s tgt) with None => Some (goto m (WakeLocked tgt) (upd tgt (with_lock (Some m)) s)) | Some _ => None end
  | WakeLocked tgt => Some (goto m (if is_idle_task (curr (procs s tgt)) then SendReschedule tgt true else Unlocking tgt) s)
  end.

(** [resched_cpu], or another function that takes the lock and calls
    [resched_curr]. *)
Definition resched_cpu m tgt (test_online : bool) s : option state :=
  match rq_lock (procs s tgt) with
  | None => Some (goto m (Locked tgt test_online) (upd tgt (with_lock (Some m)) s))
  | Some _ => None
  end.

Definition wake_up_idle_cpu m tgt s : state := if tgt =? m then s else goto m (OrLoad tgt (idle tgt) false) s.

(** The interrupt of a kick is the label [Interrupt]. *)
Definition wake_up_full_nohz_cpu tgt s : bool := negb (online (procs s tgt)) || tick_nohz_full_cpu tgt.
Definition wake_up_nohz_cpu m tgt s : state := if wake_up_full_nohz_cpu tgt s then s else wake_up_idle_cpu m tgt s.

Definition send_call_function_single_ipi m tgt s : state := goto m (IfLoad tgt CallIpi) s.

(** The part of [__ttwu_queue_wakelist] that tells the processor, and of other
    callers of [__smp_call_single_queue]. *)
Definition __ttwu_queue_wakelist m tgt (x : Z) s : state :=
  let '(q, send) := __smp_call_single_queue (call_queue (procs s tgt)) x in
  let s := upd tgt (with_queue q) s in
  if send : bool then send_call_function_single_ipi m tgt s else s.

Definition wake_up_if_idle m tgt s : state :=
  if is_idle_task (curr (procs s tgt)) then goto m (IfLoad tgt WakeIdle) s else s.

(** * What a processor does for itself *)

(** [preempt_fold_need_resched]. *)
Definition scheduler_ipi c s : state :=
  let fold := test_tsk_need_resched (curr (procs s c)) s in
  upd c (λ p, let p := awakened (with_resched_ipi false p) in if fold then with_folded true p else p) s.

(** [__schedule] of [c], whose choice is [next]. *)
Definition schedule c next s : state :=
  let s := clear_tsk_need_resched (curr (procs s c)) s in
  upd c (λ p, with_idle Enter (with_folded false (with_curr next p))) s.

Definition running t s : bool := existsb (λ c, curr (procs s c) =? t) cpus.
Definition idling c s : bool := curr (procs s c) =? idle c.
Definition awake c s : bool := negb (idling c s && bool_decide (idle_at (procs s c) = Halted)).
Definition is_free c s : bool := match at_place (procs s c) with Free => true | _ => false end.

Inductive label : Set :=
  | Go (m : Z)
  | Resched (m tgt : Z) (test_online : bool)
  | WakeNohz (m tgt : Z)
  | Call (m tgt x : Z)
  | WakeUpIfIdle (m tgt : Z)
  | ReschedIpi (c : Z)
  | CallFunctionIpi (c : Z)
  | Interrupt (c : Z)
  | Idle (c k : Z)
  | Switch (c next : Z)
  | Online (c : Z) (b : bool)
  | OtherFlag (t : Z) (bit : Z) (b : bool).

Definition may_start m tgt s : bool := bool_decide (m ∈ cpus) && bool_decide (tgt ∈ cpus) && is_free m s && awake m s.

Definition may_switch c next s : bool :=
  bool_decide (c ∈ cpus) && is_free c s && (negb (idling c s) || bool_decide (idle_at (procs s c) = Schedule)) &&
  bool_decide (rq_lock (procs s c) = None) &&
  ((next =? curr (procs s c)) || (next =? idle c) || negb (is_idle_task next) && negb (running next s)).

Definition do (l : label) s : option state :=
  match l with
  | Go m => if bool_decide (m ∈ cpus) then go m s else None
  | Resched m tgt test_online => if may_start m tgt s then resched_cpu m tgt test_online s else None
  | WakeNohz m tgt => if may_start m tgt s then Some (wake_up_nohz_cpu m tgt s) else None
  | Call m tgt x => if may_start m tgt s then Some (__ttwu_queue_wakelist m tgt x s) else None
  | WakeUpIfIdle m tgt => if may_start m tgt s then Some (wake_up_if_idle m tgt s) else None
  | ReschedIpi c => if bool_decide (c ∈ cpus) && resched_ipi (procs s c) then Some (scheduler_ipi c s) else None
  | CallFunctionIpi c => if bool_decide (c ∈ cpus) && call_ipi (procs s c) 
      then Some (upd c (λ p, awakened (with_call_ipi false (with_queue (flush_queue (call_queue p)) p))) s) else None
  | Interrupt c => if bool_decide (c ∈ cpus) then Some (upd c awakened s) else None
  | Idle c k => if bool_decide (c ∈ cpus) && idling c s && is_free c s then idle_step c k s else None
  | Switch c next => if may_switch c next s then Some (schedule c next s) else None
  | Online c b => Some (upd c (with_online b) s)
  | OtherFlag t bit b =>
      if bool_decide (bit = TIF_NEED_RESCHED ∨ bit = TIF_POLLING_NRFLAG ∨ bit < 0) then None
      else Some (set_flags t (if b then Z.lor (flags s t) (Z.shiftl 1 bit) else Z.ldiff (flags s t) (Z.shiftl 1 bit)) s)
  end.

Definition step s s' : Prop := ∃ l, do l s = Some s'.

(** Every processor is at the start of its idle loop. *)
Definition start : state := State (λ c, Proc (idle c) Enter false false false [] None Free true) (λ _, 0).
End resched.

(** * The processor for a new timer *)

(** Topology, the isolation of processors, and what fair.c says of idle
    ones; [domains]: the spans of the domains of a processor, from the smallest
    on. *)
Class timers := {
  housekeeping_cpu : Z → bool;
  housekeeping_any_cpu : Z;
  domains : Z → list (list Z);
  idle_cpu : Z → bool;
}.

Section timers.
Context `{!timers}.

Fixpoint first_busy (this : Z) (l : list Z) : option Z :=
  match l with
  | [] => None
  | i :: l => if this =? i then first_busy this l else if negb (idle_cpu i) then Some i else first_busy this l
  end.

Fixpoint search_domains (this : Z) (l : list (list Z)) : option Z :=
  match l with
  | [] => None
  | span :: l =>
      match first_busy this (filter (λ i, Is_true (housekeeping_cpu i)) span) with
      | Some i => Some i
      | None => search_domains this l
      end
  end.

Definition get_nohz_timer_target (this : Z) : Z :=
  if housekeeping_cpu this && negb (idle_cpu this) then this
  else
    match search_domains this (domains this) with
    | Some i => i
    | None => if housekeeping_cpu this then this else housekeeping_any_cpu
    end.
End timers.
