(* ===== verification/ReschedProofs.v ===== *)
(** Resched loses no request to reschedule and no function: whoever must
    reschedule knows it, will look, or gets an interrupt. *)
From S2P Require Import Prelude Resched.
Local Open Scope Z_scope.

Section resched.
Context `{M : machine} {MO : machine_ok} {C : idle_code} {CO : idle_code_ok}.
Implicit Types (s : state) (c d m tgt t : Z).

Definition need t s : bool := test_tsk_need_resched t s.
Definition polls t s : bool := has (flags s t) _TIF_POLLING_NRFLAG.

(** * The bits *)

Lemma bit_has f i : 0 ≤ i → has f (Z.shiftl 1 i) = Z.testbit f i.
Proof.
  intros Hi. unfold has. destruct (Z.testbit f i) eqn:E.
  - apply negb_true_iff, Z.eqb_neq. intros H. apply (f_equal (λ z, Z.testbit z i)) in H.
    rewrite Z.land_spec, E, Z.shiftl_spec, Z.sub_diag, Z.bits_0 in H by lia. done.
  - apply negb_false_iff, Z.eqb_eq. apply Z.bits_inj'. intros n Hn. rewrite Z.land_spec, Z.bits_0, Z.shiftl_spec by lia.
    destruct (decide (n = i)) as [->|]; [by rewrite E|]. destruct (decide (n < i)); [by rewrite (Z.testbit_neg_r 1), andb_false_r by lia|].
    rewrite (Z.bits_above_log2 1) by (simpl; lia). apply andb_false_r.
Qed.

Lemma bit_lor f i j : 0 ≤ i → 0 ≤ j → has (Z.lor f (Z.shiftl 1 i)) (Z.shiftl 1 j) = has f (Z.shiftl 1 j) || bool_decide (i = j).
Proof.
  intros. rewrite !bit_has, Z.lor_spec, <- (bit_has (Z.shiftl 1 i)) by done. f_equal.
  rewrite bit_has, Z.shiftl_spec by done. case_bool_decide as E; [subst; by rewrite Z.sub_diag|].
  destruct (decide (j < i)); [by rewrite Z.testbit_neg_r by lia|]. apply Z.bits_above_log2; simpl; lia.
Qed.
Lemma bit_ldiff f i j : 0 ≤ i → 0 ≤ j → has (Z.ldiff f (Z.shiftl 1 i)) (Z.shiftl 1 j) = has f (Z.shiftl 1 j) && negb (bool_decide (i = j)).
Proof.
  intros. rewrite !bit_has, Z.ldiff_spec by done. f_equal. f_equal.
  rewrite Z.shiftl_spec by done. case_bool_decide as E; [subst; by rewrite Z.sub_diag|].
  destruct (decide (j < i)); [by rewrite Z.testbit_neg_r by lia|]. apply Z.bits_above_log2; simpl; lia.
Qed.

(** * The invariant *)

Definition sender m c s : bool := match at_place (procs s m) with SendReschedule d _ => d =? c | _ => false end.
(** In [IfPolling] with both flags read, the idle task will look. *)
Definition caller m c s : bool :=
  match at_place (procs s m) with
  | IfLoad d CallIpi | SendCall d => d =? c
  | IfPolling d val CallIpi => (d =? c) && negb (has val _TIF_POLLING_NRFLAG && has val _TIF_NEED_RESCHED)
  | _ => false
  end.

Definition told c s : Prop :=
  folded (procs s c) = true ∨ resched_ipi (procs s c) = true ∨ (∃ m, m ∈ cpus ∧ sender m c s = true) ∨
  idling c s = true ∧ idle_at (procs s c) ≠ Halted.
(** The idle task is on its way to the queue. *)
Definition comes c s : Prop :=
  need (idle c) s = true ∧ idling c s = true ∧ idle_at (procs s c) ≠ Halted ∧ idle_at (procs s c) ≠ Schedule.
Definition called c s : Prop :=
  call_ipi (procs s c) = true ∨ (∃ m, m ∈ cpus ∧ caller m c s = true) ∨ comes c s.

Definition holds (k : place) m s : Prop :=
  match k with
  | Free => True
  | Locked tgt _ | Unlocking tgt | SendReschedule tgt true | WakeLocked tgt => tgt ∈ cpus ∧ rq_lock (procs s tgt) = Some m
  | OrLoad tgt t true | FetchOr tgt t _ true => tgt ∈ cpus ∧ rq_lock (procs s tgt) = Some m ∧ curr (procs s tgt) = t
  | OrLoad tgt t false | FetchOr tgt t _ false => tgt ∈ cpus ∧ t = idle tgt
  | SendReschedule tgt false | IfLoad tgt _ | IfPolling tgt _ _ | SendCall tgt | WakeLock tgt => tgt ∈ cpus
  end.

Record inv s : Prop := {
  i_once c d : c ∈ cpus → d ∈ cpus → curr (procs s c) = curr (procs s d) → c = d;
  i_home c d : c ∈ cpus → d ∈ cpus → curr (procs s c) = idle d → c = d;
  i_poll t : polls t s = true → ∃ c, c ∈ cpus ∧ t = idle c ∧ idling c s = true ∧ (idle_at (procs s c) = Loop ∨ idle_at (procs s c) = Leave);
  i_clear t : need t s = true → is_idle_task t = true ∨ ∃ c, c ∈ cpus ∧ curr (procs s c) = t;
  i_held m : m ∈ cpus → holds (at_place (procs s m)) m s;
  i_told c : c ∈ cpus → need (curr (procs s c)) s = true → told c s;
  i_called c : c ∈ cpus → call_queue (procs s c) ≠ [] → called c s;
}.

Lemma procs_upd c f s d : procs (upd c f s) d = if decide (d = c) then f (procs s c) else procs s d.
Proof. simpl. case_decide; [subst; apply fn_lookup_insert|by apply fn_lookup_insert_ne]. Qed.
Lemma flags_upd c f s : flags (upd c f s) = flags s.
Proof. done. Qed.
Lemma idling_spec c s : idling c s = true ↔ curr (procs s c) = idle c.
Proof. apply Z.eqb_eq. Qed.

(** * A processor goes to another place *)

(** Whatever its place promised is kept otherwise. *)
Definition replaces m (k : place) s : Prop :=
  holds k m s ∧
  (∀ c, sender m c s = true → resched_ipi (procs s c) = true) ∧
  (∀ c, caller m c s = true → caller m c (goto m k s) = true ∨ call_ipi (procs s c) = true ∨ comes c s).

(** An update that leaves alone what the invariant looks at, place apart. *)
Lemma goto_proc m k s c : 
  curr (procs (goto m k s) c) = curr (procs s c) ∧ idle_at (procs (goto m k s) c) = idle_at (procs s c) ∧
  folded (procs (goto m k s) c) = folded (procs s c) ∧ resched_ipi (procs (goto m k s) c) = resched_ipi (procs s c) ∧
  call_ipi (procs (goto m k s) c) = call_ipi (procs s c) ∧ call_queue (procs (goto m k s) c) = call_queue (procs s c) ∧
  rq_lock (procs (goto m k s) c) = rq_lock (procs s c) ∧
  at_place (procs (goto m k s) c) = (if decide (c = m) then k else at_place (procs s c)).
Proof. unfold goto. rewrite procs_upd. by case_decide; subst. Qed.

Lemma inv_goto m k s : m ∈ cpus → inv s → replaces m k s → inv (goto m k s).
Proof.
  intros Hm I (Hk & Hs & Hc).
  assert (∀ c, curr (procs (goto m k s) c) = curr (procs s c)) as Ec by (intros; apply goto_proc).
  assert (∀ c, idle_at (procs (goto m k s) c) = idle_at (procs s c)) as Ei by (intros; apply goto_proc).
  assert (∀ c, rq_lock (procs (goto m k s) c) = rq_lock (procs s c)) as El by (intros; apply goto_proc).
  assert (∀ c, idling c (goto m k s) = idling c s) as Ed by (intros c; unfold idling; by rewrite Ec).
  assert (∀ k' n, holds k' n (goto m k s) = holds k' n s) as Eh by (intros [] n; unfold holds; by rewrite ?El, ?Ec).
  split.
  - intros c d. rewrite !Ec. apply I.
  - intros c d. rewrite !Ec. apply I.
  - intros t Ht. destruct (i_poll _ I t Ht) as (c & ? & ? & ? & ?). exists c. by rewrite Ed, Ei.
  - intros t Ht. destruct (i_clear _ I t Ht) as [|(c & ? & ?)]; [by left|right]. exists c. by rewrite Ec.
  - intros n Hn. rewrite Eh. destruct (goto_proc m k s n) as (_ & _ & _ & _ & _ & _ & _ & ->). case_decide; [by subst|by apply I].
  - intros c Hcc. rewrite Ec. intros Hn. destruct (goto_proc m k s c) as (_ & _ & E3 & E4 & _). unfold told. rewrite E3, E4, Ed, Ei.
    destruct (i_told _ I c Hcc Hn) as [?|[?|[(n & Hn1 & Hn2)|?]]]; auto. destruct (decide (n = m)) as [->|Hne]; [right; left; by apply Hs|].
    right; right; left. exists n. split; [done|]. unfold sender in *. destruct (goto_proc m k s n) as (_ & _ & _ & _ & _ & _ & _ & ->). by rewrite decide_False by done.
  - intros c Hcc. destruct (goto_proc m k s c) as (_ & _ & _ & _ & E5 & E6 & _). rewrite E6. intros Hq. unfold called, comes. rewrite E5, Ed, Ei.
    destruct (i_called _ I c Hcc Hq) as [?|[(n & Hn1 & Hn2)|?]]; auto.
    destruct (decide (n = m)) as [->|Hne]; [destruct (Hc c Hn2) as [?|[?|?]]; auto; right; left; by exists m|].
    right; left. exists n. split; [done|]. unfold caller in *. destruct (goto_proc m k s n) as (_ & _ & _ & _ & _ & _ & _ & ->). by rewrite decide_False by done.
Qed.

(** * A flag is set *)

Lemma need_set t s t' : need t' (set_tsk_need_resched t s) = need t' s || bool_decide (t' = t).
Proof.
  destruct tif_bits as (? & ? & ?). unfold need, set_tsk_need_resched, test_tsk_need_resched, set_flags. cbn [flags].
  case_bool_decide; [subst; rewrite fn_lookup_insert|by rewrite fn_lookup_insert_ne, orb_false_r].
  unfold _TIF_NEED_RESCHED. rewrite bit_lor by done. by rewrite bool_decide_eq_true_2.
Qed.
Lemma polls_set_need t s t' : polls t' (set_tsk_need_resched t s) = polls t' s.
Proof.
  destruct tif_bits as (? & ? & ?). unfold polls, set_tsk_need_resched, set_flags. cbn [flags].
  destruct (decide (t' = t)) as [->|]; [rewrite fn_lookup_insert|by rewrite fn_lookup_insert_ne].
  unfold _TIF_NEED_RESCHED, _TIF_POLLING_NRFLAG. rewrite bit_lor by done. by rewrite bool_decide_eq_false_2, orb_false_r.
Qed.

Lemma inv_need t s : inv s → (is_idle_task t = true ∨ ∃ c, c ∈ cpus ∧ curr (procs s c) = t) →
  (∀ c, c ∈ cpus → curr (procs s c) = t → told c s) → inv (set_tsk_need_resched t s).
Proof.
  intros I Ht Hc. split; try apply I.
  - intros t'. rewrite polls_set_need. apply I.
  - intros t'. rewrite need_set, orb_true_iff, bool_decide_eq_true. intros [H| ->]; [by apply I|done].
  - intros c Hcc. rewrite need_set, orb_true_iff, bool_decide_eq_true. intros [H|E]; [by apply I|by apply Hc].
  - intros c Hcc Hq. destruct (i_called _ I c Hcc Hq) as [?|[?|(? & ?)]]; [by left|by right; left|right; right].
    split; [|done]. rewrite need_set. by apply orb_true_iff; left.
Qed.

(** * Locks and interrupts *)

(** No flag and no current task changes, and halted processors may wake. *)
Definition same_or_woken s s' c : Prop :=
  curr (procs s' c) = curr (procs s c) ∧
  (idle_at (procs s' c) = idle_at (procs s c) ∨ idle_at (procs s c) = Halted ∧ idle_at (procs s' c) = Enter).

Lemma inv_frame0 s s' : inv s → flags s' = flags s → (∀ c, same_or_woken s s' c) →
  (∀ m, m ∈ cpus → holds (at_place (procs s' m)) m s') →
  (∀ c, c ∈ cpus → need (curr (procs s c)) s = true → told c s → told c s') →
  (∀ c, c ∈ cpus → call_queue (procs s' c) ≠ [] → called c s') → inv s'.
Proof.
  intros I Ef Ec Hh Ht Hq.
  assert (∀ c, idling c s' = idling c s) as Ed by (intros c; unfold idling; by rewrite (proj1 (Ec c))).
  split; try done.
  - intros c d. rewrite (proj1 (Ec c)), (proj1 (Ec d)). apply I.
  - intros c d. rewrite (proj1 (Ec c)). apply I.
  - intros t. unfold polls. rewrite Ef. intros Hp. destruct (i_poll _ I t Hp) as (c & ? & ? & ? & Hi). exists c. rewrite Ed.
    split_and!; try done. destruct (proj2 (Ec c)) as [->|[E _]]; [done|]. rewrite E in Hi. by destruct Hi.
  - intros t. unfold need, test_tsk_need_resched. rewrite Ef. intros Hp. destruct (i_clear _ I t Hp) as [|(c & ? & ?)]; [by left|right].
    exists c. by rewrite (proj1 (Ec c)).
  - intros c Hc. unfold need, test_tsk_need_resched. rewrite Ef, (proj1 (Ec c)). intros Hn. apply Ht; [done..|]. by apply I.
Qed.

Lemma told_frame s s' c : told c s → same_or_woken s s' c →
  (folded (procs s c) = true → folded (procs s' c) = true) → (resched_ipi (procs s c) = true → resched_ipi (procs s' c) = true) →
  (∀ m, m ∈ cpus → sender m c s = true → sender m c s' = true ∨ resched_ipi (procs s' c) = true) → told c s'.
Proof.
  intros [H|[H|[(m & Hm & H)|[H1 H2]]]] [Ec Ei] Hf Hr Hs; [by left; auto|by right; left; auto| |].
  - destruct (Hs m Hm H) as [?|?]; [|by right; left]. right; right; left. by exists m.
  - right; right; right. unfold idling. rewrite Ec. split; [done|]. by destruct Ei as [->|[E _]].
Qed.
Lemma called_frame s s' c : called c s → flags s' = flags s → same_or_woken s s' c →
  (call_ipi (procs s c) = true → call_ipi (procs s' c) = true) →
  (∀ m, m ∈ cpus → caller m c s = true → caller m c s' = true ∨ call_ipi (procs s' c) = true) → called c s'.
Proof.
  intros [H|[(m & Hm & H)|(H1 & H2 & H3 & H4)]] Ef [Ec Ei] Hi Hm'; [by left; apply Hi| |].
  - destruct (Hm' m Hm H) as [?|?]; [right; left; by exists m|by left].
  - right; right. unfold comes, need, test_tsk_need_resched, idling. rewrite Ef, Ec. destruct Ei as [->|[? _]]; done.
Qed.

Lemma frame_keeps s s' : inv s → flags s' = flags s → (∀ c, same_or_woken s s' c) →
  (∀ m, m ∈ cpus → holds (at_place (procs s' m)) m s') →
  (∀ c, c ∈ cpus → (folded (procs s c) = true → folded (procs s' c) = true) ∧
     (resched_ipi (procs s c) = true → resched_ipi (procs s' c) = true)) →
  (∀ m c, m ∈ cpus → c ∈ cpus → sender m c s = true → sender m c s' = true ∨ resched_ipi (procs s' c) = true) →
  (∀ c, c ∈ cpus → call_queue (procs s' c) ≠ [] → called c s') → inv s'.
Proof.
  intros I Ef Ec Hh Hm Hs Hq. apply (inv_frame0 s); try done. intros c Hc _ Ht. destruct (Hm c Hc). apply (told_frame s); auto.
Qed.

Definition locks (k : place) : option Z :=
  match k with
  | Locked tgt _ | Unlocking tgt | SendReschedule tgt true | WakeLocked tgt | OrLoad tgt _ true | FetchOr tgt _ _ true => Some tgt
  | _ => None
  end.
Lemma holds_locks k m s tgt : holds k m s → locks k = Some tgt → rq_lock (procs s tgt) = Some m.
Proof. destruct k as [| |? ? []|? ? ? []|? []| | | | | |]; simpl; try done; intros H [= <-]; tauto. Qed.
Lemma holds_locked k m s s' : holds k m s →
  (∀ tgt, locks k = Some tgt → rq_lock (procs s' tgt) = rq_lock (procs s tgt) ∧ curr (procs s' tgt) = curr (procs s tgt)) → holds k m s'.
Proof.
  intros H El. destruct k as [| |? ? []|? ? ? []|? []| | | | | |]; simpl in *; try done;
    repeat match goal with H : _ ∧ _ |- _ => destruct H end; destruct (El _ eq_refl) as [E1 E2]; split_and?; congruence.
Qed.
Lemma holds_other k m s s' : holds k m s → (∀ c, curr (procs s' c) = curr (procs s c)) →
  (∀ tgt, locks k = Some tgt → rq_lock (procs s' tgt) = rq_lock (procs s tgt)) → holds k m s'.
Proof. intros H Ec El. apply (holds_locked k m s); auto. Qed.

(** The lock of [tgt] is taken or released. *)
Lemma lock_keeps m tgt k v s : m ∈ cpus → inv s → (v = Some m ∧ rq_lock (procs s tgt) = None ∨ v = None ∧ locks (at_place (procs s m)) = Some tgt) →
  let s' := goto m k (upd tgt (with_lock v) s) in
  holds k m s' → (∀ c, sender m c s = true → sender m c s' = true) → (∀ c, caller m c s = true → caller m c s' = true) → inv s'.
Proof.
  intros Hm I Hv s' Hk Hs Hc.
  assert (∀ c, procs s' c = (if decide (c = m) then with_place k else λ p, p) (if decide (c = tgt) then with_lock v (procs s c) else procs s c)) as Ep.
  { intros c. unfold s', goto. rewrite procs_upd. destruct (decide (c = m)) as [->|]; rewrite procs_upd; by case_decide; subst. }
  assert (∀ c, same_or_woken s s' c) as Ec.
  { intros c. unfold same_or_woken. rewrite Ep. repeat case_decide; auto. }
  assert (∀ n, n ≠ m → at_place (procs s' n) = at_place (procs s n)) as Epl by (intros n Hn; rewrite Ep, (decide_False (P:=n = m)) by done; by case_decide).
  apply (frame_keeps s); try done.
  - intros n Hn. destruct (decide (n = m)) as [->|Hne].
    { replace (at_place (procs s' m)) with k; [done|]. rewrite Ep, decide_True by done. done. }
    rewrite Epl by done. eapply holds_other; [by apply I|intros; apply Ec|]. intros d Hd. rewrite Ep.
    pose proof (holds_locks _ _ _ _ (i_held _ I n Hn) Hd) as E.
    assert (d ≠ tgt) as Hne2. { intros ->. destruct Hv as [[_ Hv]|[_ Hv]]; [congruence|]. pose proof (holds_locks _ _ _ _ (i_held _ I m Hm) Hv). congruence. }
    rewrite (decide_False (P:=d = tgt)) by done. by case_decide.
  - intros c Hcc. rewrite Ep. by repeat case_decide.
  - intros n c Hn Hcc H. left. destruct (decide (n = m)) as [->|]; [by apply Hs|]. unfold sender in *. by rewrite Epl.
  - intros c Hcc Hq. eapply called_frame; [apply (i_called _ I c Hcc)|done|apply Ec| |].
    + rewrite Ep in Hq. revert Hq. by repeat case_decide.
    + rewrite Ep. by repeat case_decide.
    + intros n Hn H. left. destruct (decide (n = m)) as [->|]; [by apply Hc|]. unfold caller in *. by rewrite Epl.
Qed.

(** More is told of a processor, and nothing else changes. *)
Definition marks (f : proc → proc) : Prop := ∀ p,
  curr (f p) = curr p ∧ idle_at (f p) = idle_at p ∧ at_place (f p) = at_place p ∧ rq_lock (f p) = rq_lock p ∧ call_queue (f p) = call_queue p ∧
  (folded p = true → folded (f p) = true) ∧ (resched_ipi p = true → resched_ipi (f p) = true) ∧ (call_ipi p = true → call_ipi (f p) = true).

Lemma inv_mark tgt f s : marks f → inv s → inv (upd tgt f s).
Proof.
  intros Hf I. assert (∀ c, procs (upd tgt f s) c = (if decide (c = tgt) then f else λ p, p) (procs s c)) as Eu.
  { intros c. rewrite procs_upd. by case_decide; subst. }
  assert (∀ c, same_or_woken s (upd tgt f s) c) as Ec.
  { intros c. unfold same_or_woken. rewrite Eu. case_decide; [|auto]. split; [apply Hf|left; apply Hf]. }
  assert (∀ c, at_place (procs (upd tgt f s) c) = at_place (procs s c)) as Epl by (intros c; rewrite Eu; case_decide; [apply Hf|done]).
  apply (frame_keeps s); try done.
  - intros n Hn. rewrite Epl. eapply holds_other; [by apply I|intros; apply Ec|]. intros d _. rewrite Eu. case_decide; [apply Hf|done].
  - intros c _. rewrite Eu. case_decide; [|done]. split; apply Hf.
  - intros n c _ _ Hs. left. unfold sender in *. by rewrite Epl.
  - intros c Hcc Hq. eapply called_frame; [apply (i_called _ I c Hcc)|done|apply Ec| |].
    + rewrite Eu in Hq. case_decide; [|done]. by rewrite (proj1 (proj2 (proj2 (proj2 (proj2 (Hf _)))))) in Hq.
    + rewrite Eu. case_decide; [apply Hf|done].
    + intros n _ Hs. left. unfold caller in *. by rewrite Epl.
Qed.

(** * What a processor does for another *)

Ltac by_place E := unfold sender, caller; rewrite ?E; try done; try (intros ? ?; done).

(** From a place that promises nothing. *)
Lemma move_keeps m k s : m ∈ cpus → inv s → (∀ c, sender m c s = false) → (∀ c, caller m c s = false) → holds k m s → inv (goto m k s).
Proof. intros Hm I H1 H2 Hk. apply inv_goto; [done..|]. split; [done|]. split; intros c H; [by rewrite H1 in H|by rewrite H2 in H]. Qed.

Lemma told_goto m k s c : told c s → (∀ d, sender m d s = false) → told c (goto m k s).
Proof.
  intros Ht Hs. destruct (goto_proc m k s c) as (E1 & E2 & E3 & E4 & _). unfold told, idling. rewrite E1, E2, E3, E4.
  destruct Ht as [?|[?|[(n & Hn & H)|?]]]; auto. right; right; left. exists n. split; [done|]. unfold sender in *.
  destruct (goto_proc m k s n) as (_ & _ & _ & _ & _ & _ & _ & ->). case_decide as E; [|done]. subst n. by rewrite Hs in H.
Qed.

Lemma inv_resched_curr m tgt b s : m ∈ cpus → inv s → at_place (procs s m) = Locked tgt b → inv (resched_curr m tgt s).
Proof.
  intros Hm I E. pose proof (i_held _ I m Hm) as Hh. rewrite E in Hh. destruct Hh as [Ht Hl].
  assert (∀ c, sender m c s = false) as Hs by by_place E. assert (∀ c, caller m c s = false) as Hc by by_place E.
  unfold resched_curr. destruct (test_tsk_need_resched _ s); [by apply move_keeps|].
  destruct (Z.eqb_spec tgt m) as [->|Hne]; [|by apply move_keeps].
  set (u := set_preempt_need_resched m s). assert (inv u) as Iu by by apply inv_mark.
  assert (∀ c, procs u c = if decide (c = m) then with_folded true (procs s m) else procs s c) as Eu by (intros; apply procs_upd).
  assert (∀ c, curr (procs u c) = curr (procs s c)) as Ec by (intros c; rewrite Eu; case_decide; by subst).
  assert (∀ c, at_place (procs u c) = at_place (procs s c)) as Epl by (intros c; rewrite Eu; case_decide; by subst).
  assert (inv (set_tsk_need_resched (curr (procs s m)) u)) as Iv.
  { apply inv_need; [done| |].
    - right. exists m. by rewrite Ec.
    - intros c Hcc. rewrite Ec. intros Eq. rewrite (i_once _ I c m Hcc Hm Eq). left. by rewrite Eu, decide_True. }
  change (inv (goto m (Unlocking m) (set_tsk_need_resched (curr (procs s m)) u))).
  apply move_keeps; [done..| | |].
  - intros c. unfold sender. change (at_place (procs (set_tsk_need_resched (curr (procs s m)) u) m)) with (at_place (procs u m)). rewrite Epl, E. done.
  - intros c. unfold caller. change (at_place (procs (set_tsk_need_resched (curr (procs s m)) u) m)) with (at_place (procs u m)). rewrite Epl, E. done.
  - split; [done|]. change (rq_lock (procs u m) = Some m). by rewrite Eu, decide_True.
Qed.

Lemma inv_fetch_or m tgt t val b s : m ∈ cpus → inv s → at_place (procs s m) = FetchOr tgt t val b → inv (fetch_or m tgt t val b s).
Proof.
  intros Hm I E. pose proof (i_held _ I m Hm) as Hh. rewrite E in Hh.
  assert (∀ c, sender m c s = false) as Hs by by_place E. assert (∀ c, caller m c s = false) as Hc by by_place E.
  assert (tgt ∈ cpus) as Ht by (by destruct b; destruct Hh). unfold fetch_or. cbv zeta.
  destruct (Z.eqb_spec (flags s t) val) as [Ev|_]; [|by apply move_keeps].
  assert (is_idle_task t = true ∨ ∃ c, c ∈ cpus ∧ curr (procs s c) = t) as Hr.
  { destruct b; [destruct Hh as (_ & _ & <-); right; by exists tgt|destruct Hh as (_ & ->)]. left. apply existsb_exists. exists tgt.
    split; [by apply list_elem_of_In|by apply Z.eqb_eq]. }
  assert (∀ c, c ∈ cpus → curr (procs s c) = t → c = tgt) as Hu.
  { intros c Hcc Eq. destruct b; [destruct Hh as (_ & _ & <-); by apply (i_once _ I)|destruct Hh as (_ & ->)]. by apply (i_home _ I). }
  rewrite <- Ev. destruct (has (flags s t) _TIF_POLLING_NRFLAG) eqn:Hp.
  - change (inv (goto m (if b then Unlocking tgt else Free) (set_tsk_need_resched t s))).
    apply move_keeps; [done| |done|done|by destruct b; [destruct Hh as (? & ? & ?)|]]. apply inv_need; [done..|]. intros c Hcc Eq. right; right; right.
    destruct (i_poll _ I t Hp) as (d & Hd & Et & Hi & Hpl). rewrite Et in Eq. rewrite (i_home _ I c d Hcc Hd Eq).
    split; [done|]. by destruct Hpl as [-> | ->].
  - change (inv (set_tsk_need_resched t (goto m (SendReschedule tgt b) s))).
    assert (∀ c, curr (procs (goto m (SendReschedule tgt b) s) c) = curr (procs s c)) as Ec by (intros; apply goto_proc).
    apply inv_need; [apply move_keeps; [done..|by destruct b; [destruct Hh as (? & ? & ?)|destruct Hh]]| |].
    + destruct Hr as [|(c & ? & ?)]; [by left|right]. exists c. by rewrite Ec.
    + intros c Hcc. rewrite Ec. intros Eq. apply Hu in Eq as ->; [|done]. right; right; left. exists m. split; [done|]. unfold sender.
      destruct (goto_proc m (SendReschedule tgt b) s m) as (_ & _ & _ & _ & _ & _ & _ & ->). rewrite decide_True by done. apply Z.eqb_refl.
Qed.

(** The promise of a polling idle task. *)
Lemma polling_comes s tgt : inv s → tgt ∈ cpus → polls (idle tgt) s = true → need (idle tgt) s = true → comes tgt s.
Proof.
  intros I Ht Hp Hn. destruct (i_poll _ I _ Hp) as (d & Hd & Ed & Hi & Hpl). apply idle_inj in Ed as <-; [|done..].
  split; [done|]. split; [done|]. by destruct Hpl as [-> | ->].
Qed.

Lemma at_place_goto m k s : at_place (procs (goto m k s) m) = k.
Proof. destruct (goto_proc m k s m) as (_ & _ & _ & _ & _ & _ & _ & ->). by rewrite decide_True. Qed.

(** The answer of [set_nr_if_polling]; a processor that stops calling knows
    that the idle task comes. *)
Lemma inv_polled m tgt val k b s : m ∈ cpus → tgt ∈ cpus → inv s → at_place (procs s m) = IfPolling tgt val k →
  (b = true → caller m tgt s = true → comes tgt s) → inv (goto m (polled b tgt k) s).
Proof.
  intros Hm Ht I E Hb. apply inv_goto; [done..|]. split; [by destruct b, k|]. split; [intros c; by unfold sender; rewrite E|].
  intros c Hc. assert (c = tgt) as ->. { unfold caller in Hc. rewrite E in Hc. destruct k; [|done]. by apply andb_prop in Hc as [->%Z.eqb_eq _]. }
  destruct b; [right; right; by apply Hb|]. left. unfold caller in *. rewrite at_place_goto. rewrite E in Hc. destruct k; [|done]. apply Z.eqb_refl.
Qed.

Lemma inv_if_polling m tgt val k s : m ∈ cpus → inv s → at_place (procs s m) = IfPolling tgt val k → inv (set_nr_if_polling m tgt val k s).
Proof.
  intros Hm I E. pose proof (i_held _ I m Hm) as Ht. rewrite E in Ht. simpl in Ht. unfold set_nr_if_polling.
  assert (∀ c, caller m c s = true → has val _TIF_POLLING_NRFLAG && has val _TIF_NEED_RESCHED = false) as Hc.
  { intros c H. unfold caller in H. rewrite E in H. destruct k; [|done]. by apply andb_prop in H as [_ H%negb_true_iff]. }
  destruct (has val _TIF_POLLING_NRFLAG) eqn:Hp; cbn [negb]; [|by eapply inv_polled].
  destruct (has val _TIF_NEED_RESCHED) eqn:Hn. { eapply inv_polled; try done. intros _ H. by apply Hc in H. }
  destruct (Z.eqb_spec (flags s (idle tgt)) val) as [Ev|_].
  - rewrite <- Ev. assert (polls (idle tgt) s = true) as Hps by (unfold polls; by rewrite Ev).
    destruct (i_poll _ I _ Hps) as (d & Hd & Ed & Hi & Hpl). apply idle_inj in Ed as <-; [|done..].
    assert (inv (set_tsk_need_resched (idle tgt) s)) as I2.
    { apply inv_need; [done| |].
      - left. apply existsb_exists. exists tgt. split; [by apply list_elem_of_In|by apply Z.eqb_eq].
      - intros c Hcc Eq. rewrite (i_home _ I c tgt Hcc Ht Eq). right; right; right. split; [done|]. by destruct Hpl as [-> | ->]. }
    change (inv (goto m (polled true tgt k) (set_tsk_need_resched (idle tgt) s))).
    eapply (inv_polled m tgt val k); try done. intros _ _. apply polling_comes; try done; [by rewrite polls_set_need|].
    rewrite need_set. apply orb_true_iff. right. by apply bool_decide_eq_true.
  - apply inv_goto; [done..|]. split; [done|]. split; [intros c; by unfold sender; rewrite E|]. intros c H.
    assert (c = tgt ∧ k = CallIpi) as [-> ->]. { unfold caller in H. rewrite E in H. destruct k; [|done]. by apply andb_prop in H as [->%Z.eqb_eq _]. }
    destruct (has (flags s (idle tgt)) _TIF_POLLING_NRFLAG && has (flags s (idle tgt)) _TIF_NEED_RESCHED) eqn:Hb.
    + apply andb_prop in Hb as [? ?]. right; right. by apply polling_comes.
    + left. unfold caller. rewrite at_place_goto, Z.eqb_refl. by rewrite Hb.
Qed.

(** Interrupts on their way, and locks, are more of the same. *)
Lemma inv_go m s s' : m ∈ cpus → inv s → go m s = Some s' → inv s'.
Proof.
  intros Hm I H. unfold go in H. destruct (at_place (procs s m)) as [|tgt b|tgt t b|tgt t val b|tgt b|tgt|tgt k|tgt val k|tgt|tgt|tgt] eqn:E;
    try (injection H as <-); pose proof (i_held _ I m Hm) as Hh; rewrite E in Hh.
  - done.
  - destruct (negb b || _ || _); [by eapply inv_resched_curr|]. apply move_keeps; try done; intros c; by unfold sender, caller; rewrite E.
  - apply move_keeps; try done; intros c; by unfold sender, caller; rewrite E.
  - by apply inv_fetch_or.
  - apply inv_goto; [done|by apply inv_mark|]. assert (∀ c, procs (smp_send_reschedule tgt s) c =
      if decide (c = tgt) then with_resched_ipi true (procs s c) else procs s c) as Eu.
    { intros c. unfold smp_send_reschedule. rewrite procs_upd. case_decide; by subst. }
    split; [|split; intros c; unfold sender, caller; rewrite Eu].
    + eapply holds_other; [|intros c; rewrite Eu; by case_decide|intros c _; rewrite Eu; by case_decide]. by destruct b.
    + rewrite Eu. destruct (decide (m = tgt)), (decide (c = tgt)); simpl; rewrite ?E; try done; by intros ->%Z.eqb_eq.
    + case_decide; simpl; by rewrite E.
  - apply (lock_keeps m tgt Free None); try done; [right; split; [done|by rewrite E]|..]; intros c; by unfold sender, caller; rewrite E.
  - apply inv_goto; [done..|]. split; [done|]. split; [intros c; by unfold sender; rewrite E|]. intros c Hc.
    assert (c = tgt ∧ k = CallIpi) as [-> ->]. { unfold caller in Hc. rewrite E in Hc. destruct k; [|done]. by apply Z.eqb_eq in Hc as ->. }
    destruct (has (flags s (idle tgt)) _TIF_POLLING_NRFLAG && has (flags s (idle tgt)) _TIF_NEED_RESCHED) eqn:Hb.
    + apply andb_prop in Hb as [? ?]. right; right. by apply polling_comes.
    + left. unfold caller. rewrite at_place_goto, Z.eqb_refl. by rewrite Hb.
  - by apply inv_if_polling.
  - apply inv_goto; [done|by apply inv_mark|]. split; [done|].
    split; intros c; unfold sender, caller; rewrite procs_upd; [case_decide; simpl; subst; by rewrite E|].
    intros H. right; left. rewrite procs_upd. destruct (decide (c = tgt)) as [|Hc]; [done|]. exfalso. apply Hc.
    destruct (decide (m = tgt)); subst; simpl in H; rewrite E in H; by apply Z.eqb_eq in H.
  - destruct (rq_lock (procs s tgt)) eqn:El; [done|]. injection H as <-.
    apply (lock_keeps m tgt _ (Some m)); try done; [by left| |intros c; by unfold sender, caller; rewrite E..].
    split; [done|]. unfold goto. rewrite procs_upd. case_decide; subst; rewrite procs_upd; by rewrite decide_True.
  - destruct (is_idle_task _); apply move_keeps; try done; intros c; by unfold sender, caller; rewrite E.
Qed.

Lemma free_spec m s : is_free m s = true → at_place (procs s m) = Free.
Proof. unfold is_free. by destruct (at_place _). Qed.
Lemma may_start_spec m tgt s : may_start m tgt s = true → m ∈ cpus ∧ tgt ∈ cpus ∧ at_place (procs s m) = Free.
Proof. unfold may_start. intros [[[?%bool_decide_eq_true ?%bool_decide_eq_true]%andb_prop ?%free_spec]%andb_prop _]%andb_prop. done. Qed.

Lemma inv_resched_cpu m tgt b s s' : m ∈ cpus → tgt ∈ cpus → at_place (procs s m) = Free → inv s → resched_cpu m tgt b s = Some s' → inv s'.
Proof.
  intros Hm Ht E I H. unfold resched_cpu in H. destruct (rq_lock (procs s tgt)) eqn:El; [done|]. injection H as <-.
  apply (lock_keeps m tgt _ (Some m)); try done; [by left| |intros c; by unfold sender, caller; rewrite E..].
  split; [done|]. unfold goto. rewrite procs_upd. case_decide; subst; rewrite procs_upd; by rewrite decide_True.
Qed.

Lemma inv_call m tgt x s : m ∈ cpus → tgt ∈ cpus → at_place (procs s m) = Free → inv s → inv (__ttwu_queue_wakelist m tgt x s).
Proof.
  intros Hm Ht E I. unfold __ttwu_queue_wakelist, send_call_function_single_ipi. pose proof (first_sends x) as Hsend.
  destruct (__smp_call_single_queue (call_queue (procs s tgt)) x) as [q send] eqn:Hx. set (u := upd tgt (with_queue q) s).
  assert (∀ c, procs u c = if decide (c = tgt) then with_queue q (procs s c) else procs s c) as Eu.
  { intros c. unfold u. rewrite procs_upd. case_decide; by subst. }
  assert (∀ c, same_or_woken s u c) as Ec by (intros c; unfold same_or_woken; rewrite Eu; case_decide; auto).
  assert (∀ c, at_place (procs u c) = at_place (procs s c)) as Epl by (intros c; rewrite Eu; by case_decide).
  assert (∀ n, n ∈ cpus → holds (at_place (procs s n)) n u) as Eh.
  { intros n Hn. eapply holds_other; [by apply I|intros; apply Ec|]. intros d _. rewrite Eu. by case_decide. }
  assert (∀ c, c ∈ cpus → call_queue (procs s c) ≠ [] → called c u) as Hcu.
  { intros c Hc Hq. eapply called_frame; [apply (i_called _ I c Hc Hq)|done|apply Ec| |].
    - rewrite Eu. by case_decide.
    - intros n _ Hs. left. unfold caller in *. by rewrite Epl. }
  destruct send eqn:Eq.
  - set (g := goto m (IfLoad tgt CallIpi) u).
    assert (∀ c, same_or_woken s g c) as Eg.
    { intros c. destruct (goto_proc m (IfLoad tgt CallIpi) u c) as (E1 & E2 & _). unfold same_or_woken, g. rewrite E1, E2. apply Ec. }
    assert (∀ n, n ≠ m → at_place (procs g n) = at_place (procs s n)) as Epg.
    { intros n Hn. destruct (goto_proc m (IfLoad tgt CallIpi) u n) as (_ & _ & _ & _ & _ & _ & _ & E8). unfold g. by rewrite E8, decide_False. }
    apply (frame_keeps s); try done.
    + intros n Hn. destruct (decide (n = m)) as [->|Hne]; [unfold g; by rewrite at_place_goto|]. rewrite Epg by done.
      eapply holds_other; [by apply Eh|intros c; unfold g; apply goto_proc|intros d _; unfold g; apply goto_proc].
    + intros c _. destruct (goto_proc m (IfLoad tgt CallIpi) u c) as (_ & _ & E3 & E4 & _). unfold g. rewrite E3, E4, Eu. by case_decide.
    + intros n c _ _ Hs. left. destruct (decide (n = m)) as [->|Hne]; [unfold sender in Hs; by rewrite E in Hs|]. unfold sender in *. by rewrite Epg.
    + intros c Hc Hq. destruct (decide (c = tgt)) as [->|Hne].
      { right; left. exists m. split; [done|]. unfold caller, g. rewrite at_place_goto. apply Z.eqb_refl. }
      eapply called_frame; [apply (i_called _ I c Hc)|done|apply Eg| |].
      * destruct (goto_proc m (IfLoad tgt CallIpi) u c) as (_ & _ & _ & _ & _ & E6 & _). unfold g in Hq. by rewrite E6, Eu, decide_False in Hq.
      * destruct (goto_proc m (IfLoad tgt CallIpi) u c) as (_ & _ & _ & _ & E5 & _). unfold g. by rewrite E5, Eu, decide_False.
      * intros n _ Hs. left. destruct (decide (n = m)) as [->|]; [unfold caller in Hs; by rewrite E in Hs|]. unfold caller in *. by rewrite Epg.
  - apply (frame_keeps s); try done.
    + intros n Hn. rewrite Epl. by apply Eh.
    + intros c _. rewrite Eu. by case_decide.
    + intros n c _ _ Hs. left. unfold sender in *. by rewrite Epl.
    + intros c Hc Hq. destruct (decide (c = tgt)) as [->|Hne]; [apply Hcu; [done|intros F; rewrite F in Hx; by rewrite Hx in Hsend]|].
      apply Hcu; [done|]. by rewrite Eu, decide_False in Hq.
Qed.

(** * What a processor does for itself *)

Lemma awakened_idle p : idle_at (awakened p) = idle_at p ∨ idle_at p = Halted ∧ idle_at (awakened p) = Enter.
Proof. unfold awakened. destruct (idle_at p) eqn:E; simpl; auto. Qed.
Lemma awakened_rest p : curr (awakened p) = curr p ∧ folded (awakened p) = folded p ∧ resched_ipi (awakened p) = resched_ipi p ∧
  call_ipi (awakened p) = call_ipi p ∧ call_queue (awakened p) = call_queue p ∧ rq_lock (awakened p) = rq_lock p ∧ at_place (awakened p) = at_place p.
Proof. unfold awakened. by destruct (idle_at p). Qed.

(** A change of [c] alone, by an interrupt. *)
Lemma interrupt_keeps c f s : inv s → (∀ p, curr (f p) = curr p) → (∀ p, rq_lock (f p) = rq_lock p) → (∀ p, at_place (f p) = at_place p) →
  (∀ p, idle_at (f p) = idle_at p ∨ idle_at p = Halted ∧ idle_at (f p) = Enter) →
  (need (curr (procs s c)) s = true → told c s → told c (upd c f s)) →
  (call_queue (f (procs s c)) ≠ [] → call_queue (procs s c) ≠ [] ∧ (call_ipi (procs s c) = true → call_ipi (f (procs s c)) = true)) →
  inv (upd c f s).
Proof.
  intros I F1 F2 F3 F4 Ht Hq.
  assert (∀ d, same_or_woken s (upd c f s) d) as Ec by (intros d; unfold same_or_woken; rewrite procs_upd; case_decide; subst; auto).
  assert (∀ d, at_place (procs (upd c f s) d) = at_place (procs s d)) as Epl by (intros d; rewrite procs_upd; case_decide; by subst).
  apply (inv_frame0 s); try done.
  - intros m Hm. rewrite Epl. eapply holds_other; [by apply I|intros; apply Ec|]. intros d _. rewrite procs_upd. case_decide; by subst.
  - intros d Hd Hn Htd. destruct (decide (d = c)) as [->|Hne]; [by apply Ht|]. apply (told_frame s); try done.
    + rewrite procs_upd. by rewrite decide_False.
    + rewrite procs_upd. by rewrite decide_False.
    + intros m _ Hs. left. unfold sender in *. by rewrite Epl.
  - intros d Hd. rewrite procs_upd. intros Hqd.
    assert (call_queue (procs s d) ≠ [] ∧ (call_ipi (procs s d) = true → call_ipi (procs (upd c f s) d) = true)) as [H1 H2].
    { rewrite procs_upd. case_decide; subst; auto. }
    eapply called_frame; [by apply I|done|apply Ec|done|]. intros m _ Hs. left. unfold caller in *. by rewrite Epl.
Qed.

Lemma inv_awakened c s : inv s → inv (upd c awakened s).
Proof.
  intros I. apply interrupt_keeps; try done; try (intros p; apply awakened_rest); try apply awakened_idle.
  - intros _ Ht. apply (told_frame s); try done.
    + unfold same_or_woken. rewrite procs_upd, decide_True by done. split; [apply awakened_rest|apply awakened_idle].
    + rewrite procs_upd, decide_True by done. by rewrite (proj1 (proj2 (awakened_rest _))).
    + rewrite procs_upd, decide_True by done. by rewrite (proj1 (proj2 (proj2 (awakened_rest _)))).
    + intros m _ Hs. left. unfold sender in *. rewrite procs_upd. case_decide; subst; [|done]. by destruct (awakened_rest (procs s c)) as (_ & _ & _ & _ & _ & _ & ->).
  - destruct (awakened_rest (procs s c)) as (_ & _ & _ & -> & -> & _). done.
Qed.

Lemma inv_scheduler_ipi c s : inv s → inv (scheduler_ipi c s).
Proof.
  intros I. unfold scheduler_ipi.
  assert (∀ p, call_queue (awakened (with_resched_ipi false p)) = call_queue p ∧ call_ipi (awakened (with_resched_ipi false p)) = call_ipi p) as Hq.
  { intros p. by destruct (awakened_rest (with_resched_ipi false p)) as (_ & _ & _ & -> & -> & _). }
  destruct (test_tsk_need_resched (curr (procs s c)) s) eqn:Hn; apply interrupt_keeps; try done;
    try (intros [? []]; simpl; by auto).
  - intros _ _. left. by rewrite procs_upd, decide_True.
  - cbv zeta. cbn [call_queue call_ipi with_folded]. by rewrite (proj1 (Hq _)), (proj2 (Hq _)).
  - intros E. unfold need in E. by rewrite Hn in E.
  - cbv zeta. by rewrite (proj1 (Hq _)), (proj2 (Hq _)).
Qed.

Lemma inv_call_function_ipi c s : inv s →
  inv (upd c (λ p, awakened (with_call_ipi false (with_queue (flush_queue (call_queue p)) p))) s).
Proof.
  intros I. apply interrupt_keeps; try done.
  all: try (intros [? []]; simpl; by auto).
  - intros _ Ht. set (q := with_call_ipi false (with_queue (flush_queue (call_queue (procs s c))) (procs s c))).
    assert (procs (upd c (λ p, awakened (with_call_ipi false (with_queue (flush_queue (call_queue p)) p))) s) c = awakened q) as E by (by rewrite procs_upd, decide_True).
    destruct (awakened_rest q) as (E1 & E2 & E3 & _ & _ & _ & E7). apply (told_frame s); try done.
    + split; rewrite E; [done|]. apply (awakened_idle q).
    + by rewrite E, E2.
    + by rewrite E, E3.
    + intros m _ Hs. left. unfold sender in *. rewrite procs_upd. case_decide; [subst m|done]. fold q. by rewrite E7.
  - rewrite all_flushed. destruct (awakened_rest (with_call_ipi false (with_queue [] (procs s c)))) as (_ & _ & _ & _ & -> & _). done.
Qed.

(** ** The idle loop *)

(** A step of the idle task of [c] from [p] to [q], which may change its
    polling flag. *)
Lemma inv_idle c q s s' : inv s → c ∈ cpus → idling c s = true → at_place (procs s c) = Free →
  (∀ d, procs s' d = if decide (d = c) then q else procs s d) → (∀ t, need t s' = need t s) →
  (∀ t, polls t s' = true → t ≠ idle c ∧ polls t s = true ∨ t = idle c ∧ (idle_at q = Loop ∨ idle_at q = Leave)) →
  curr q = curr (procs s c) → at_place q = at_place (procs s c) → rq_lock q = rq_lock (procs s c) → resched_ipi q = resched_ipi (procs s c) →
  call_ipi q = call_ipi (procs s c) →
  (idle_at q = Halted → need (idle c) s = false) →
  (call_queue q ≠ [] → call_queue (procs s c) ≠ [] ∧ idle_at q ≠ Schedule) → inv s'.
Proof.
  intros I Hc Hi Hf Ep En Epo Q1 Q2 Q3 Q4 Q5 Hh Hq.
  assert (∀ d, curr (procs s' d) = curr (procs s d)) as Ec by (intros d; rewrite Ep; case_decide; by subst).
  assert (∀ d, at_place (procs s' d) = at_place (procs s d)) as Epl by (intros d; rewrite Ep; case_decide; by subst).
  assert (∀ d, rq_lock (procs s' d) = rq_lock (procs s d)) as El by (intros d; rewrite Ep; case_decide; by subst).
  assert (∀ d, idling d s' = idling d s) as Ed by (intros d; unfold idling; by rewrite Ec).
  assert (∀ m d, sender m d s' = sender m d s) as Es by (intros; unfold sender; by rewrite Epl).
  assert (∀ m d, caller m d s' = caller m d s) as Eca by (intros; unfold caller; by rewrite Epl).
  apply idling_spec in Hi as Hcur. split.
  - intros d e. rewrite !Ec. apply I.
  - intros d e. rewrite Ec. apply I.
  - intros t [[Hne Hp]|[-> Hp]]%Epo.
    + destruct (i_poll _ I t Hp) as (d & ? & -> & ? & ?). exists d. rewrite Ed, Ep. rewrite decide_False by congruence. done.
    + exists c. by rewrite Ed, Ep, decide_True.
  - intros t. rewrite En. intros Ht. destruct (i_clear _ I t Ht) as [|(d & ? & ?)]; [by left|right]. exists d. by rewrite Ec.
  - intros m Hm. rewrite Epl. eapply holds_other; [by apply I|done|done].
  - intros d Hd. rewrite Ec, En. intros Hn. destruct (decide (d = c)) as [->|Hne].
    + right; right; right. rewrite Ed, Ep, decide_True by done. split; [done|]. intros E. rewrite Hcur in Hn. by rewrite Hh in Hn.
    + destruct (i_told _ I d Hd Hn) as [?|[?|[(m & ? & ?)|?]]]; unfold told; rewrite Ed, Ep, decide_False by done; auto.
      right; right; left. exists m. by rewrite Es.
  - intros d Hd. rewrite Ep. case_decide as Edc; [subst d|].
    + intros [Hq1 Hq2]%Hq. destruct (i_called _ I c Hd Hq1) as [?|[(m & ? & ?)|(H1 & H2 & H3)]]; unfold called, comes; rewrite Ed, En, Ep, decide_True by done.
      * left. congruence.
      * right; left. exists m. by rewrite Eca.
      * right; right. split_and!; try done. intros E. by rewrite Hh in H1.
    + intros Hq1. destruct (i_called _ I d Hd Hq1) as [?|[(m & ? & ?)|(H1 & H2 & H3)]]; unfold called, comes; rewrite Ed, En, Ep, decide_False by done; auto.
      right; left. exists m. by rewrite Eca.
Qed.

Lemma need_polling t v s t' : (v = Z.lor (flags s t) _TIF_POLLING_NRFLAG ∨ v = Z.ldiff (flags s t) _TIF_POLLING_NRFLAG) →
  need t' (set_flags t v s) = need t' s.
Proof.
  destruct tif_bits as (? & ? & ?). unfold need, test_tsk_need_resched, set_flags, _TIF_NEED_RESCHED, _TIF_POLLING_NRFLAG. cbn [flags].
  destruct (decide (t' = t)) as [->|]; [rewrite fn_lookup_insert|by rewrite fn_lookup_insert_ne].
  intros [-> | ->]; [rewrite bit_lor by done|rewrite bit_ldiff by done]; rewrite bool_decide_eq_false_2 by done; by rewrite ?orb_false_r, ?andb_true_r.
Qed.
Lemma polls_polling t (b : bool) s t' :
  polls t' (set_flags t (if b then Z.lor (flags s t) _TIF_POLLING_NRFLAG else Z.ldiff (flags s t) _TIF_POLLING_NRFLAG) s) =
  if decide (t' = t) then b else polls t' s.
Proof.
  destruct tif_bits as (? & ? & ?). unfold polls, set_flags, _TIF_POLLING_NRFLAG. cbn [flags].
  case_decide; [subst; rewrite fn_lookup_insert|by rewrite fn_lookup_insert_ne].
  destruct b; [rewrite bit_lor by done|rewrite bit_ldiff by done]; rewrite bool_decide_eq_true_2 by done; by rewrite ?orb_true_r, ?andb_false_r.
Qed.

Lemma polls_others c t s : inv s → c ∈ cpus → polls t s = true → t ≠ idle c ∨ idle_at (procs s c) = Loop ∨ idle_at (procs s c) = Leave.
Proof.
  intros I Hc Hp. destruct (decide (t = idle c)) as [->|]; [right|by left]. destruct (i_poll _ I _ Hp) as (d & Hd & Ed & _ & Hpl).
  by apply idle_inj in Ed as <-.
Qed.

Lemma inv_idle_step c k s s' : inv s → c ∈ cpus → idling c s = true → at_place (procs s c) = Free → idle_step c k s = Some s' → inv s'.
Proof.
  intros I Hc Hi Hf H. apply idle_promise in H.
  pose proof (λ q s', inv_idle c q s s' I Hc Hi Hf) as K.
  pose proof (λ t Ht, polls_others c t s I Hc Ht) as Po. pose proof (λ t, polls_polling (idle c) true s t) as Pt.
  pose proof (λ t, polls_polling (idle c) false s t) as Pf. cbv beta iota in Pt, Pf.
  assert (idle_at (procs s c) ≠ Loop → idle_at (procs s c) ≠ Leave → ∀ x t, polls t s = true → t ≠ idle c ∧ polls t s = true ∨ t = idle c ∧ x) as Pn.
  { intros H1 H2 x t Ht. left. split; [|done]. by destruct (Po t Ht) as [?|[?|?]]. }
  destruct H as [Ei|Ei|Ei|Ei Hn|Ei|Ei Hn|Ei|Ei].
  - refine (K (with_idle Loop (procs s c)) _ _ _ _ eq_refl eq_refl eq_refl eq_refl eq_refl _ _).
    + intros d. exact (procs_upd c _ (set_flags (idle c) _ s) d).
    + intros t. apply need_polling. by left.
    + intros t Ht. specialize (Pt t). unfold polls in Ht, Pt. cbn [flags upd] in Ht. rewrite Pt in Ht. case_decide; [right|by left]. split; [done|by left].
    + done.
    + by split.
  - done.
  - refine (K (with_idle Cleared (procs s c)) _ _ _ _ eq_refl eq_refl eq_refl eq_refl eq_refl _ _).
    + intros d. exact (procs_upd c _ (set_flags (idle c) _ s) d).
    + intros t. apply need_polling. by right.
    + intros t Ht. specialize (Pf t). unfold polls in Ht, Pf. cbn [flags upd] in Ht. rewrite Pf in Ht. case_decide; [done|by left].
    + done.
    + by split.
  - refine (K (with_folded true (with_idle Leave (procs s c))) _ _ _ _ eq_refl eq_refl eq_refl eq_refl eq_refl _ _).
    + intros d. unfold set_preempt_need_resched. rewrite !procs_upd. repeat case_decide; by subst.
    + done.
    + intros t Ht. destruct (decide (t = idle c)); [right|by left]. split; [done|by right].
    + done.
    + by split.
  - refine (K (with_idle Enter (procs s c)) _ (procs_upd _ _ _) _ _ eq_refl eq_refl eq_refl eq_refl eq_refl _ _); try done.
    apply Pn; by rewrite Ei.
  - refine (K (with_idle Halted (procs s c)) _ (procs_upd _ _ _) _ _ eq_refl eq_refl eq_refl eq_refl eq_refl _ _); try done.
    apply Pn; by rewrite Ei.
  - refine (K (with_idle Flush (procs s c)) _ _ _ _ eq_refl eq_refl eq_refl eq_refl eq_refl _ _).
    + intros d. exact (procs_upd c _ (set_flags (idle c) _ s) d).
    + intros t. apply need_polling. by right.
    + intros t Ht. specialize (Pf t). unfold polls in Ht, Pf. cbn [flags upd] in Ht. rewrite Pf in Ht. case_decide; [done|by left].
    + done.
    + by split.
  - refine (K (with_idle Schedule (with_queue (flush_queue (call_queue (procs s c))) (procs s c))) _ (procs_upd _ _ _) _ _ eq_refl eq_refl eq_refl eq_refl eq_refl _ _); try done.
    + apply Pn; by rewrite Ei.
    + intros Hq. cbn [call_queue with_idle with_queue] in Hq. by rewrite all_flushed in Hq.
Qed.

(** ** Switches *)

Lemma may_switch_spec c next s : may_switch c next s = true →
  c ∈ cpus ∧ at_place (procs s c) = Free ∧ (idling c s = true → idle_at (procs s c) = Schedule) ∧ rq_lock (procs s c) = None ∧
  (next = curr (procs s c) ∨ next = idle c ∨ is_idle_task next = false ∧ ∀ d, d ∈ cpus → curr (procs s d) ≠ next).
Proof.
  unfold may_switch. rewrite !andb_true_iff, !orb_true_iff, !negb_true_iff, !bool_decide_eq_true, !Z.eqb_eq.
  intros ((((H1 & H2%free_spec) & H3) & H4) & H5). split_and!; try done.
  - intros Hi. destruct H3; congruence.
  - destruct H5 as [[H5|H5]|[H5 H6]%andb_prop]; auto. right; right. apply negb_true_iff in H5, H6. split; [done|]. intros d Hd E.
    apply not_true_iff_false in H6. apply H6, existsb_exists. exists d. split; [by apply list_elem_of_In|by apply Z.eqb_eq].
Qed.

Lemma not_idle_of t d : is_idle_task t = false → d ∈ cpus → t ≠ idle d.
Proof. intros H Hd ->. apply not_true_iff_false in H. apply H, existsb_exists. exists d. split; [by apply list_elem_of_In|apply Z.eqb_refl]. Qed.

Lemma need_clear t s t' : need t' (clear_tsk_need_resched t s) = need t' s && negb (bool_decide (t' = t)).
Proof.
  destruct tif_bits as (? & ? & ?). unfold need, clear_tsk_need_resched, test_tsk_need_resched, set_flags. cbn [flags].
  case_bool_decide; [subst; rewrite fn_lookup_insert|by rewrite fn_lookup_insert_ne, andb_true_r].
  unfold _TIF_NEED_RESCHED. rewrite bit_ldiff by done. by rewrite bool_decide_eq_true_2.
Qed.
Lemma polls_clear t s t' : polls t' (clear_tsk_need_resched t s) = polls t' s.
Proof.
  destruct tif_bits as (? & ? & ?). unfold polls, clear_tsk_need_resched, set_flags. cbn [flags].
  destruct (decide (t' = t)) as [->|]; [rewrite fn_lookup_insert|by rewrite fn_lookup_insert_ne].
  unfold _TIF_NEED_RESCHED, _TIF_POLLING_NRFLAG. rewrite bit_ldiff by done. by rewrite bool_decide_eq_false_2, andb_true_r.
Qed.

Lemma switch_keeps c next s : inv s → may_switch c next s = true → inv (schedule c next s).
Proof.
  intros I (Hc & Hf & Hi & Hl & Hnext)%may_switch_spec. set (s' := schedule c next s). set (prev := curr (procs s c)) in *.
  assert (∀ d, procs s' d = if decide (d = c) then with_idle Enter (with_folded false (with_curr next (procs s c))) else procs s d) as Ep.
  { intros d. unfold s', schedule. rewrite procs_upd. done. }
  assert (∀ t, need t s' = need t s && negb (bool_decide (t = prev))) as En by (intros; apply need_clear).
  assert (∀ t, polls t s' = polls t s) as Epo by (intros; apply polls_clear).
  assert (∀ d, at_place (procs s' d) = at_place (procs s d)) as Epl by (intros d; rewrite Ep; case_decide; by subst).
  assert (∀ m d, sender m d s' = sender m d s) as Es by (intros; unfold sender; by rewrite Epl).
  assert (∀ m d, caller m d s' = caller m d s) as Eca by (intros; unfold caller; by rewrite Epl).
  assert (∀ d, d ≠ c → idling d s' = idling d s) as Ed by (intros d Hd; unfold idling; by rewrite Ep, decide_False).
  assert (∀ d, d ∈ cpus → curr (procs s d) = next → d = c) as Hu.
  { intros d Hd E. destruct Hnext as [Hn|[Hn|[_ Hn]]]; [apply (i_once _ I d c Hd Hc); by rewrite E, Hn|apply (i_home _ I d c Hd Hc); by rewrite E, Hn|by apply Hn in E]. }
  split.
  - intros d e Hd He. rewrite !Ep. repeat case_decide; subst; cbn [curr with_idle with_folded with_curr]; try done.
    + intros E. symmetry. by apply Hu.
    + apply Hu. done.
    + by apply I.
  - intros d e Hd He. rewrite Ep. case_decide; subst; cbn [curr with_idle with_folded with_curr]; [|by apply I].
    intros E. destruct Hnext as [Hn|[Hn|[Hn _]]]; [apply (i_home _ I c e Hd He); by rewrite <- E, Hn|apply idle_inj; [done..|by rewrite <- E, Hn]|by apply (not_idle_of _ e) in Hn].
  - intros t. rewrite Epo. intros Ht. destruct (i_poll _ I t Ht) as (d & ? & ? & Hid & Hpl). exists d.
    assert (d ≠ c) as Hne by (intros ->; rewrite (Hi Hid) in Hpl; by destruct Hpl). rewrite Ed, Ep, decide_False by done. done.
  - intros t. rewrite En, andb_true_iff, negb_true_iff, bool_decide_eq_false. intros [Ht Hne].
    destruct (i_clear _ I t Ht) as [|(d & ? & Ecd)]; [by left|right]. exists d. split; [done|]. rewrite Ep, decide_False; [done|]. intros ->. by apply Hne.
  - intros m Hm. rewrite Epl. pose proof (i_held _ I m Hm) as Hh. apply (holds_locked _ m s); [done|]. intros tgt Hk.
    pose proof (holds_locks _ _ _ tgt Hh Hk). rewrite Ep. case_decide; [subst; congruence|done].
  - intros d Hd. rewrite Ep, En, andb_true_iff, negb_true_iff, bool_decide_eq_false. case_decide; [subst d|].
    + cbn [curr with_idle with_folded with_curr]. intros [Hn Hne]. right; right; right. unfold idling. rewrite Ep, decide_True by done. simpl.
      split; [|done]. apply Z.eqb_eq. destruct Hnext as [?|[?|[Hni Hnr]]]; [done|done|].
      destruct (i_clear _ I next Hn) as [?|(e & ? & He)]; [congruence|by apply Hnr in He].
    + intros [Hn _]. destruct (i_told _ I d Hd Hn) as [?|[?|[(m & ? & ?)|?]]]; unfold told; rewrite Ed, Ep, decide_False by done; auto.
      right; right; left. exists m. by rewrite Es.
  - intros d Hd. rewrite Ep. case_decide; [subst d|].
    + cbn [call_queue with_idle with_folded with_curr]. intros Hq. destruct (i_called _ I c Hd Hq) as [?|[(m & ? & ?)|(_ & H2 & _ & H4)]].
      * left. by rewrite Ep, decide_True.
      * right; left. exists m. by rewrite Eca.
      * by apply Hi in H2.
    + intros Hq. destruct (i_called _ I d Hd Hq) as [?|[(m & ? & ?)|(H1 & H2 & H3)]]; unfold called, comes; rewrite Ed, Ep, decide_False by done; auto.
      * right; left. exists m. by rewrite Eca.
      * right; right. rewrite En, H1, bool_decide_eq_false_2; [done|]. intros E. symmetry in E. by apply (i_home _ I c d Hc Hd) in E.
Qed.

(** * Every step *)

Lemma inv_flags t v s : inv s → (∀ t', need t' (set_flags t v s) = need t' s) → (∀ t', polls t' (set_flags t v s) = polls t' s) → inv (set_flags t v s).
Proof.
  intros I En Ep. split; try apply I.
  - intros t'. rewrite Ep. apply I.
  - intros t'. rewrite En. apply I.
  - intros c Hc. rewrite En. by apply I.
  - intros c Hc Hq. destruct (i_called _ I c Hc Hq) as [?|[?|(? & ?)]]; [by left|by right; left|right; right]. split; [by rewrite En|done].
Qed.

Lemma other_flag t bit (b : bool) s : bit ≠ TIF_NEED_RESCHED → bit ≠ TIF_POLLING_NRFLAG → 0 ≤ bit → inv s →
  inv (set_flags t (if b then Z.lor (flags s t) (Z.shiftl 1 bit) else Z.ldiff (flags s t) (Z.shiftl 1 bit)) s).
Proof.
  intros H1 H2 H0 I. destruct tif_bits as (? & ? & ?). apply inv_flags; [done|intros t'..];
    unfold need, test_tsk_need_resched, polls, set_flags, _TIF_NEED_RESCHED, _TIF_POLLING_NRFLAG; cbn [flags];
    (destruct (decide (t' = t)) as [->|]; [rewrite fn_lookup_insert|by rewrite fn_lookup_insert_ne]);
    (destruct b; [rewrite bit_lor by done|rewrite bit_ldiff by done]; rewrite bool_decide_eq_false_2 by done; by rewrite ?orb_false_r, ?andb_true_r).
Qed.

Lemma inv_do_resched l s s' : inv s → do l s = Some s' → inv s'.
Proof.
  intros I H. destruct l; cbn [do] in H.
  - case_bool_decide; [|done]. by eapply inv_go.
  - destruct (may_start m tgt s) eqn:E; [|done]. apply may_start_spec in E as (H1 & H2 & E). exact (inv_resched_cpu _ _ _ _ _ H1 H2 E I H).
  - destruct (may_start m tgt s) eqn:E; [|done]. apply may_start_spec in E as (? & ? & E). injection H as <-.
    unfold wake_up_nohz_cpu, wake_up_idle_cpu. destruct (wake_up_full_nohz_cpu tgt s), (tgt =? m); try done. apply move_keeps; try done; intros c; by unfold sender, caller; rewrite E.
  - destruct (may_start m tgt s) eqn:E; [|done]. apply may_start_spec in E as (? & ? & E). injection H as <-. by apply inv_call.
  - destruct (may_start m tgt s) eqn:E; [|done]. apply may_start_spec in E as (? & ? & E). injection H as <-.
    unfold wake_up_if_idle. destruct (is_idle_task _); [|done]. apply move_keeps; try done; intros c; by unfold sender, caller; rewrite E.
  - destruct (bool_decide _ && _); [|done]. injection H as <-. by apply inv_scheduler_ipi.
  - destruct (bool_decide _ && _); [|done]. injection H as <-. by apply inv_call_function_ipi.
  - case_bool_decide; [|done]. injection H as <-. by apply inv_awakened.
  - destruct (bool_decide (c ∈ cpus) && idling c s && is_free c s) eqn:E; [|done].
    apply andb_prop in E as [[?%bool_decide_eq_true ?]%andb_prop ?%free_spec]. by eapply inv_idle_step.
  - destruct (may_switch c next s) eqn:E; [|done]. injection H as <-. by apply switch_keeps.
  - injection H as <-. by apply inv_mark.
  - case_bool_decide as E; [done|]. injection H as <-. apply other_flag; [tauto|tauto|lia|done].
Qed.

Lemma start_resched : inv start.
Proof.
  split; try done.
  - intros c d Hc Hd. by apply idle_inj.
  - intros c d Hc Hd. by apply idle_inj.
Qed.

(** C13: given an idle loop that keeps the promise of the comment of
    [set_nr_if_polling], and a queue of functions whose first one sends the
    interrupt and whose handler leaves none, in any interleaving of processors that mark tasks, poll, halt, send
    interrupts and switch, a processor whose task was marked for rescheduling
    has folded the mark into its preemption count, or gets an interrupt, or
    runs the idle task and has not halted; and functions that were queued for a
    processor get it an interrupt too, or its idle task is on the way to them.
    So no processor halts with work to do and no interrupt coming. *)
Theorem no_reschedule_lost s c : rtc step start s → c ∈ cpus →
  (test_tsk_need_resched (curr (procs s c)) s = true →
     folded (procs s c) = true ∨ resched_ipi (procs s c) = true ∨
     (∃ m locked, m ∈ cpus ∧ at_place (procs s m) = SendReschedule c locked) ∨
     idling c s = true ∧ idle_at (procs s c) ≠ Halted) ∧
  (call_queue (procs s c) ≠ [] →
     call_ipi (procs s c) = true ∨
     (∃ m, m ∈ cpus ∧ (at_place (procs s m) = IfLoad c CallIpi ∨ at_place (procs s m) = SendCall c ∨
        ∃ val, at_place (procs s m) = IfPolling c val CallIpi ∧ ¬ (has val _TIF_POLLING_NRFLAG = true ∧ has val _TIF_NEED_RESCHED = true))) ∨
     test_tsk_need_resched (idle c) s = true ∧ idling c s = true ∧ idle_at (procs s c) ≠ Halted ∧ idle_at (procs s c) ≠ Schedule).
Proof.
  intros H Hc. assert (inv s) as I.
  { refine (rtc_ind_r inv start start_resched _ s H). intros t u _ [l Hl] It. by apply (inv_do_resched l t u). }
  split.
  - intros Hn. destruct (i_told _ I c Hc Hn) as [?|[?|[(m & Hm & Hs)|?]]]; auto. right; right; left.
    unfold sender in Hs. destruct (at_place (procs s m)) eqn:E; try done. apply Z.eqb_eq in Hs as ->. eauto.
  - intros Hq. destruct (i_called _ I c Hc Hq) as [?|[(m & Hm & Hs)|?]]; auto. right; left. exists m. split; [done|].
    unfold caller in Hs. destruct (at_place (procs s m)) as [| | | | | |? []|? val []| | |] eqn:E; try done.
    + apply Z.eqb_eq in Hs as ->. by left.
    + apply andb_prop in Hs as [->%Z.eqb_eq Hv%negb_true_iff]. right; right. exists val. split; [done|]. intros [E1 E2]. by rewrite E1, E2 in Hv.
    + apply Z.eqb_eq in Hs as ->. right; by left.
Qed.
End resched.

Section timers.
Context `{T : timers}.

Lemma first_busy_spec this l :
  match first_busy this l with
  | Some i => i ∈ l ∧ i ≠ this ∧ idle_cpu i = false
  | None => ∀ i, i ∈ l → i ≠ this → idle_cpu i = true
  end.
Proof.
  induction l as [|j l IH]; simpl; [by intros i ?%elem_of_nil|].
  assert (∀ x : option Z, match x with Some i => i ∈ l ∧ i ≠ this ∧ idle_cpu i = false | None => ∀ i, i ∈ l → i ≠ this → idle_cpu i = true end →
    (j = this ∨ idle_cpu j = true) → match x with Some i => i ∈ j :: l ∧ i ≠ this ∧ idle_cpu i = false | None => ∀ i, i ∈ j :: l → i ≠ this → idle_cpu i = true end) as Hx.
  { intros [i|] H Hj; [destruct H as (? & ? & ?); split_and!; try done; by apply list_elem_of_further|].
    intros i [->|Hi]%elem_of_cons Hne; [by destruct Hj|by apply H]. }
  destruct (Z.eqb_spec this j) as [->|Hne]; [apply Hx; [done|by left]|].
  destruct (idle_cpu j) eqn:E; simpl; [apply Hx; [done|by right]|]. split_and!; [by apply list_elem_of_here|congruence|done].
Qed.

(** A timer goes to a processor that does the housekeeping: to this one if
    it is busy, else to a busy one in the smallest domain that has one; it goes
    to an idle one only when no other processor of the domains is busy. *)
Theorem timer_target_busy this : housekeeping_cpu housekeeping_any_cpu = true →
  housekeeping_cpu (get_nohz_timer_target this) = true ∧
  (idle_cpu (get_nohz_timer_target this) = true →
     ∀ span i, span ∈ domains this → i ∈ span → housekeeping_cpu i = true → i ≠ this → idle_cpu i = true).
Proof.
  intros Hany. unfold get_nohz_timer_target. destruct (housekeeping_cpu this && negb (idle_cpu this)) eqn:E.
  { apply andb_prop in E as [? E%negb_true_iff]. split; [done|]. congruence. }
  assert (match search_domains this (domains this) with
    | Some i => housekeeping_cpu i = true ∧ idle_cpu i = false
    | None => ∀ span i, span ∈ domains this → i ∈ span → housekeeping_cpu i = true → i ≠ this → idle_cpu i = true end) as H.
  { induction (domains this) as [|span l IH]; simpl; [by intros span i ?%elem_of_nil|].
    pose proof (first_busy_spec this (filter (λ i, Is_true (housekeeping_cpu i)) span)) as Hf.
    destruct (first_busy _ _) as [i|].
    - destruct Hf as ([Hh%Is_true_true _]%list_elem_of_filter & _ & ?). done.
    - destruct (search_domains this l); [done|]. intros sp i [->|Hs]%elem_of_cons Hi Hh; [|by eapply IH].
      apply Hf. apply list_elem_of_filter. split; [by apply Is_true_true|done]. }
  destruct (search_domains this (domains this)) as [i|]; [destruct H as [? H]; split; [done|congruence]|].
  by destruct (housekeeping_cpu this) eqn:Hh.
Qed.
End timers.

(** Two processors with the idle tasks 100 and 101, and the bits of x86. *)
#[global] Instance two_x86 : machine := {| cpus := [0; 1]; idle c := 100 + c; TIF_NEED_RESCHED := 3; TIF_POLLING_NRFLAG := 21; tick_nohz_full_cpu _ := false |}.
#[global] Instance two_x86_ok : machine_ok.
Proof. split; [intros c d _ _ E; simpl in E; lia|]. simpl. lia. Qed.

(** A queue of which the first function sends an interrupt, and an idle loop
    that halts when [k] is 1. *)
#[global] Instance linux_idle : idle_code := {|
  __smp_call_single_queue q x := (q ++ [x], match q with [] => true | _ => false end);
  flush_queue _ := [];
  idle_step c k s :=
    let t := idle c in
    match idle_at (procs s c) with
    | Enter => Some (upd c (with_idle Loop) (set_flags t (Z.lor (flags s t) _TIF_POLLING_NRFLAG) s))
    | Loop =>
        if k =? 1 then Some (upd c (with_idle Cleared) (set_flags t (Z.ldiff (flags s t) _TIF_POLLING_NRFLAG) s))
        else if test_tsk_need_resched t s then Some (set_preempt_need_resched c (upd c (with_idle Leave) s)) else Some s
    | Cleared => Some (upd c (with_idle (if test_tsk_need_resched t s then Enter else Halted)) s)
    | Leave => Some (upd c (with_idle Flush) (set_flags t (Z.ldiff (flags s t) _TIF_POLLING_NRFLAG) s))
    | Flush => Some (upd c (λ p, with_idle Schedule (with_queue [] p)) s)
    | Halted | Schedule => None
    end;
|}.
#[global] Instance linux_idle_ok : idle_code_ok.
Proof.
  split; [done|done|]. intros c k s s' H. cbn [idle_step linux_idle] in H. destruct (idle_at (procs s c)) eqn:E; try done.
  - injection H as <-. exact (idle_enters c s E).
  - destruct (k =? 1); [injection H as <-; exact (idle_stops c s E)|].
    destruct (test_tsk_need_resched _ _) eqn:F; injection H as <-; [exact (idle_told c s E F)|exact (idle_polls c s E)].
  - destruct (test_tsk_need_resched _ _) eqn:F; injection H as <-; [exact (idle_returns c s E)|exact (idle_halts c s E F)].
  - injection H as <-. exact (idle_leaves c s E).
  - injection H as <-. exact (idle_flushes c s E).
Qed.

Fixpoint run (ls : list label) (s : state) : option state :=
  match ls with [] => Some s | l :: ls => s ← do l s; run ls s end.
Lemma run_resched ls s s' : run ls s = Some s' → rtc step s s'.
Proof.
  revert s. induction ls as [|l ls IH]; simpl; intros s H; [by injection H as <-|].
  apply bind_Some in H as (t & E & H). eapply rtc_l; [by exists l|auto].
Qed.

(** Processor 1 halts while 0 reads its flags; the exchange of 0 fails, and 0
    sends an interrupt. *)
Definition halts_meanwhile : list label :=
  [Idle 1 0; Call 0 1 7; Go 0; Idle 1 1; Idle 1 0; Go 0; Go 0].
Lemma no_reschedule_lost_witness :
  ∃ s, run halts_meanwhile start = Some s ∧ idle_at (procs s 1) = Halted ∧ call_queue (procs s 1) = [7] ∧
    (call_ipi (procs s 1) = true ∨ ∃ m, m ∈ cpus ∧ caller m 1 s = true).
Proof.
  assert (∃ s, run halts_meanwhile start = Some s ∧ idle_at (procs s 1) = Halted ∧ call_queue (procs s 1) = [7]) as (s & E & H1 & H2).
  { eexists. split; [vm_compute; reflexivity|]. split; reflexivity. }
  exists s. split; [exact E|]. split; [exact H1|]. split; [exact H2|].
  destruct (no_reschedule_lost s 1 (run_resched _ _ _ E) ltac:(right; left)) as [_ Hq].
  destruct Hq as [Hq|[(m & Hm & Hq)|(_ & _ & Hq & _)]]; [congruence|by left| |congruence].
  right. exists m. split; [exact Hm|]. unfold caller. destruct Hq as [->|[->|(val & -> & Hv)]]; [reflexivity|reflexivity|].
  destruct (has val _TIF_POLLING_NRFLAG), (has val _TIF_NEED_RESCHED); try reflexivity. by destruct Hv.
Defined.

(** Processor 0 is idle, 2 is busy and 3 is isolated. *)
#[global] Instance four_timers : timers := {|
  housekeeping_cpu i := i <? 3; housekeeping_any_cpu := 0; domains _ := [[0; 1]; [0; 1; 2; 3]]; idle_cpu i := i <? 2 |}.
Lemma timer_target_busy_witness : get_nohz_timer_target 0 = 2 ∧ housekeeping_cpu (get_nohz_timer_target 0) = true.
Proof. split; [reflexivity|]. exact (proj1 (timer_target_busy 0 eq_refl)). Defined.
