(* ===== verification/RqLock.v ===== *)
(** The locks of a task in the kernel of assignment 4
    (src/과제/OS과제/과제4/core.c): [task_rq_lock] and [__task_rq_lock] against
    migrations, [wait_task_inactive] and [try_invoke_on_locked_down_task], for
    one task and any number of contexts. Reads without a lock are steps of
    their own. The task is moved and woken as the comments above
    [__task_rq_lock] say. *)
From S2P Require Import Prelude.
Local Open Scope Z_scope.

(** * Data *)

Definition TASK_ON_RQ_QUEUED : Z := 1.
Definition TASK_ON_RQ_MIGRATING : Z := 2.
Definition TASK_RUNNING : Z := 0.
Definition TASK_WAKING : Z := 0x200.
Definition LONG_MIN_BIT : Z := 2^63.

(** The holder of a lock: a processor in [__schedule], or a context. *)
Inductive agent : Set := Cpu (c : Z) | Ctx (i : Z).
#[global] Instance agent_eq_dec : EqDecision agent.
Proof. solve_decision. Defined.

(** What a context does with the locks: [wait_task_inactive] of a state,
    [try_invoke_on_locked_down_task], or something else. *)
Inductive use : Set := Wait (match_state : Z) | Invoke | Other.

(** Where a context is. [Lock]: before the lock of the task; [Read]: with it,
    before the processor of the task is read; [Take]: before the lock of that
    run queue; [Check], [CheckMigrating]: with it, before each of the two
    conditions; [Held]: [task_rq_lock] has returned; [Spin]: in its inner loop.
    [pi]: the lock of the task is given back before the inner loop. [Watch]: in
    [wait_task_inactive], without locks; [Look]: in
    [try_invoke_on_locked_down_task], with the lock of the task, and [LookState],
    [LookAgain]: before its other two reads; [Called]: the function runs, with the lock of a run queue or without;
    [Migrating], [Moved], [Moving]: in a move, before and after the processor is
    set, and with no lock; [Woken], [Queue]: in [try_to_wake_up]; [Listed]: the
    task is on the wake list of a processor, which will put it on its run
    queue. *)
Inductive place : Set :=
  | Free
  | Lock (u : use)
  | Read (u : use) (pi : bool)
  | Take (u : use) (pi : bool) (c : Z)
  | Check (u : use) (pi : bool) (c : Z)
  | CheckMigrating (u : use) (pi : bool) (c : Z)
  | Held (u : use) (pi : bool) (c : Z)
  | Spin (u : use) (pi : bool)
  | Watch (match_state : Z)
  | Look
  | LookState
  | LookAgain
  | Called (rq : option Z)
  | Migrating (c dest : Z)
  | Moved (c dest : Z)
  | Moving (dest : Z)
  | Woken
  | Queue (dest : Z)
  | Listed (dest : Z).

(** A return of [wait_task_inactive]: the number, the state waited for, and
    what the task was when the locks were held. *)
Record entry := Entry {
  ncsw_of : Z;
  match_of : Z;
  voluntary_of : Z;
  ran_of : Z;
  tstate_of : Z;
  on_rq_of : Z;
  on_cpu_of : bool;
}.

(** The task, and the locks. [ran]: how often it was switched to; [voluntary]:
    [nvcsw] before it wraps; [waited]: the returns of [wait_task_inactive] other
    than 0; [returned_0]: those that returned 0. *)
Record state := State {
  cpu : Z;
  on_rq : Z;
  on_cpu : bool;
  tstate : Z;
  voluntary : Z;
  ran : Z;
  pi_lock : option Z;
  rq_lock : Z → option agent;
  at_place : Z → place;
  waited : list entry;
  returned_0 : Z;
}.

Definition nvcsw (s : state) : Z := wrapu64 (voluntary s).

Definition with_cpu (v : Z) (s : state) : state :=
  State v (on_rq s) (on_cpu s) (tstate s) (voluntary s) (ran s) (pi_lock s) (rq_lock s) (at_place s) (waited s) (returned_0 s).
Definition with_on_rq (v : Z) (s : state) : state :=
  State (cpu s) v (on_cpu s) (tstate s) (voluntary s) (ran s) (pi_lock s) (rq_lock s) (at_place s) (waited s) (returned_0 s).
Definition with_on_cpu (v : bool) (s : state) : state :=
  State (cpu s) (on_rq s) v (tstate s) (voluntary s) (ran s) (pi_lock s) (rq_lock s) (at_place s) (waited s) (returned_0 s).
Definition with_tstate (v : Z) (s : state) : state :=
  State (cpu s) (on_rq s) (on_cpu s) v (voluntary s) (ran s) (pi_lock s) (rq_lock s) (at_place s) (waited s) (returned_0 s).
Definition with_counts (v r : Z) (s : state) : state :=
  State (cpu s) (on_rq s) (on_cpu s) (tstate s) v r (pi_lock s) (rq_lock s) (at_place s) (waited s) (returned_0 s).
Definition with_pi (v : option Z) (s : state) : state :=
  State (cpu s) (on_rq s) (on_cpu s) (tstate s) (voluntary s) (ran s) v (rq_lock s) (at_place s) (waited s) (returned_0 s).
Definition set_rq (c : Z) (v : option agent) (s : state) : state :=
  State (cpu s) (on_rq s) (on_cpu s) (tstate s) (voluntary s) (ran s) (pi_lock s) (<[c := v]> (rq_lock s)) (at_place s) (waited s) (returned_0 s).
Definition goto (i : Z) (k : place) (s : state) : state :=
  State (cpu s) (on_rq s) (on_cpu s) (tstate s) (voluntary s) (ran s) (pi_lock s) (rq_lock s) (<[i := k]> (at_place s)) (waited s) (returned_0 s).
Definition log (e : entry) (s : state) : state :=
  State (cpu s) (on_rq s) (on_cpu s) (tstate s) (voluntary s) (ran s) (pi_lock s) (rq_lock s) (at_place s) (waited s ++ [e]) (returned_0 s).
Definition log_0 (s : state) : state :=
  State (cpu s) (on_rq s) (on_cpu s) (tstate s) (voluntary s) (ran s) (pi_lock s) (rq_lock s) (at_place s) (waited s) (returned_0 s + 1).

Definition task_on_rq_migrating (s : state) : bool := on_rq s =? TASK_ON_RQ_MIGRATING.
Definition task_on_rq_queued (s : state) : bool := on_rq s =? TASK_ON_RQ_QUEUED.
Definition task_running (s : state) : bool := on_cpu s.
Definition unmatched (match_state : Z) (s : state) : bool := negb (match_state =? 0) && negb (tstate s =? match_state).

(** * [task_rq_lock] and its users, step by step *)

(** [spin_lock]: the context waits until the lock is free. *)
Definition lock_rq (i c : Z) (k : place) (s : state) : option state :=
  match rq_lock s c with None => Some (goto i k (set_rq c (Some (Ctx i)) s)) | Some _ => None end.
Definition unlock_rq (c : Z) (s : state) : state := set_rq c None s.

(** The locked part of [wait_task_inactive], and what it does next. *)
Definition wait_locked (i match_state c : Z) (s : state) : state :=
  let running := task_running s in
  let queued := task_on_rq_queued s in
  let ncsw := if (match_state =? 0) || (tstate s =? match_state) then Z.lor (nvcsw s) LONG_MIN_BIT else 0 in
  let s' := with_pi None (unlock_rq c s) in
  if ncsw =? 0 then goto i Free (log_0 s')
  else if running then goto i (Watch match_state) s'
  else if queued then goto i (Watch match_state) s'
  else goto i Free (log (Entry ncsw match_state (voluntary s) (ran s) (tstate s) (on_rq s) (on_cpu s)) s').

Definition go (i : Z) (s : state) : option state :=
  match at_place s i with
  | Free => None
  | Lock u =>
      match pi_lock s with
      | None => Some (goto i (match u with Invoke => Look | Wait _ | Other => Read u true end) (with_pi (Some i) s))
      | Some _ => None
      end
  | Read u pi => Some (goto i (Take u pi (cpu s)) s)
  | Take u pi c => lock_rq i c (Check u pi c) s
  | Check u pi c =>
      if c =? cpu s then Some (goto i (CheckMigrating u pi c) s)
      else Some (goto i (Spin u pi) ((if pi then with_pi None else id) (unlock_rq c s)))
  | CheckMigrating u pi c =>
      if negb (task_on_rq_migrating s) then Some (goto i (Held u pi c) s)
      else Some (goto i (Spin u pi) ((if pi then with_pi None else id) (unlock_rq c s)))
  | Held u pi c =>
      Some match u with
           | Wait match_state => wait_locked i match_state c s
           | Invoke => if cpu s =? c then goto i (Called (Some c)) s else goto i Free (with_pi None (unlock_rq c s))
           | Other => goto i Free (with_pi None (unlock_rq c s))
           end
  | Spin u pi => if task_on_rq_migrating s then None else Some (goto i (if pi then Lock u else Read u pi) s)
  | Watch match_state =>
      if task_running s then if unmatched match_state s then Some (goto i Free (log_0 s)) else None
      else Some (goto i (Lock (Wait match_state)) s)
  | Look =>
      if negb (on_rq s =? 0) then Some (goto i (Read Invoke false) s)
      else Some (goto i LookState s)
  | LookState =>
      if (tstate s =? TASK_RUNNING) || (tstate s =? TASK_WAKING) then Some (goto i Free (with_pi None s))
      else Some (goto i LookAgain s)
  | LookAgain => Some (if on_rq s =? 0 then goto i (Called None) s else goto i Free (with_pi None s))
  | Called rq => Some (goto i Free (with_pi None ((if rq is Some c then unlock_rq c else id) s)))
  | Migrating c dest => Some (goto i (Moved c dest) (with_cpu dest s))
  | Moved c dest => Some (goto i (Moving dest) (unlock_rq c s))
  | Moving dest =>
      match rq_lock s dest with None => Some (goto i Free (with_on_rq TASK_ON_RQ_QUEUED s)) | Some _ => None end
  | Woken => None
  | Queue dest =>
      match rq_lock s dest with
      | None => Some (goto i Free (with_pi None (with_tstate TASK_RUNNING (with_on_rq TASK_ON_RQ_QUEUED s))))
      | Some _ => None
      end
  | Listed dest =>
      match rq_lock s dest with
      | None => if on_cpu s then None else Some (goto i Free (with_tstate TASK_RUNNING (with_on_rq TASK_ON_RQ_QUEUED s)))
      | Some _ => None
      end
  end.

Definition is_free (i : Z) (s : state) : bool := match at_place s i with Free => true | _ => false end.
Definition rq_free (c : Z) (s : state) : bool := match rq_lock s c with None => true | Some _ => false end.

(** [StartLock], [StartWait], [StartInvoke]: calls; [Move]: a move of the
    queued task, with the lock of its run queue; [Pull]: one with the locks of
    both run queues; [WakeQueued]: [ttwu_runnable]; [Wake]: [try_to_wake_up] takes the lock of the task, and
    [Place] the processor when the task has left its old one; [Remote]: [ttwu_queue_wakelist] puts
    the task on the wake list instead, of its old processor or of the new one; [Run], [Preempt]:
    [__schedule] switches to and from it; [Block], [Blocked]: it switches from it
    for good, up to the store to [on_cpu] and after; [SetState]: the task sets
    its state; [Signal]: it gives up the processor with a signal pending. *)
Inductive label : Set :=
  | StartLock (i : Z)
  | StartWait (i match_state : Z)
  | StartInvoke (i : Z)
  | Go (i : Z)
  | Move (i dest : Z)
  | Pull (dest : Z)
  | WakeQueued
  | Wake (i : Z)
  | Place (i dest : Z)
  | Remote (i : Z)
  | Run
  | Preempt
  | Signal
  | Block
  | Blocked
  | SetState (v : Z).
#[global] Instance label_eq_dec : EqDecision label.
Proof. solve_decision. Defined.

Definition do (l : label) (s : state) : option state :=
  match l with
  | StartLock i => if is_free i s then Some (goto i (Lock Other) s) else None
  | StartWait i match_state => if is_free i s then Some (goto i (Watch match_state) s) else None
  | StartInvoke i => if is_free i s then Some (goto i (Lock Invoke) s) else None
  | Go i => go i s
  | Move i dest =>
      if is_free i s && rq_free (cpu s) s && task_on_rq_queued s && negb (on_cpu s)
      then Some (goto i (Migrating (cpu s) dest) (with_on_rq TASK_ON_RQ_MIGRATING (set_rq (cpu s) (Some (Ctx i)) s))) else None
  | Pull dest =>
      if rq_free (cpu s) s && rq_free dest s && task_on_rq_queued s && negb (on_cpu s) then Some (with_cpu dest s) else None
  | WakeQueued =>
      if bool_decide (pi_lock s = None) && rq_free (cpu s) s && task_on_rq_queued s then Some (with_tstate TASK_RUNNING s) else None
  | Wake i =>
      if is_free i s && bool_decide (pi_lock s = None) && (on_rq s =? 0) && negb (tstate s =? TASK_RUNNING) && negb (tstate s =? TASK_WAKING)
      then Some (goto i Woken (with_tstate TASK_WAKING (with_pi (Some i) s))) else None
  | Place i dest =>
      match at_place s i with
      | Woken => if on_cpu s then None else Some (goto i (Queue dest) (with_cpu dest s))
      | _ => None
      end
  | Remote i =>
      match at_place s i with
      | Woken => if on_cpu s then Some (goto i (Listed (cpu s)) (with_pi None s)) else None
      | Queue dest => Some (goto i (Listed dest) (with_pi None s))
      | _ => None
      end
  | Run =>
      if rq_free (cpu s) s && task_on_rq_queued s && negb (on_cpu s)
      then Some (with_on_cpu true (with_counts (voluntary s) (ran s + 1) s)) else None
  | Preempt =>
      if rq_free (cpu s) s && task_on_rq_queued s && on_cpu s then Some (with_on_cpu false s) else None
  | Signal =>
      if rq_free (cpu s) s && task_on_rq_queued s && on_cpu s
      then Some (with_on_cpu false (with_tstate TASK_RUNNING (with_counts (voluntary s + 1) (ran s) s))) else None
  | Block =>
      if rq_free (cpu s) s && task_on_rq_queued s && on_cpu s && negb (tstate s =? TASK_RUNNING)
      then Some (with_on_rq 0 (with_counts (voluntary s + 1) (ran s) (set_rq (cpu s) (Some (Cpu (cpu s))) s))) else None
  | Blocked =>
      if bool_decide (rq_lock s (cpu s) = Some (Cpu (cpu s))) then Some (with_on_cpu false (unlock_rq (cpu s) s)) else None
  | SetState v => if on_cpu s && task_on_rq_queued s && negb (v =? TASK_WAKING) then Some (with_tstate v s) else None
  end.

Definition step (s s' : state) : Prop := ∃ l, do l s = Some s'.

(** The task runs on the processor 0. *)
Definition start : state := State 0 TASK_ON_RQ_QUEUED true TASK_RUNNING 0 1 None (λ _, None) (λ _, Free) [] 0.
