(* ===== verification/RqLockProofs.v ===== *)
(** What RqLock promises: the locks of a task keep it where it is, and
    [wait_task_inactive] tells when it has not run. *)
From S2P Require Import Prelude RqLock.
Local Open Scope Z_scope.

Implicit Types (s : state) (i j c d : Z).

(** * The invariant *)

Definition has_pi (k : place) : bool :=
  match k with
  | Read _ _ | Take _ _ _ | Check _ _ _ | CheckMigrating _ _ _ | Held _ _ _ | Spin _ false | Look | LookState | LookAgain
  | Called _ | Woken | Queue _ => true
  | _ => false
  end.
Definition has_rq (k : place) : option Z :=
  match k with
  | Check _ _ c | CheckMigrating _ _ c | Held _ _ c | Called (Some c) | Migrating c _ | Moved c _ => Some c
  | _ => None
  end.
Definition moves (k : place) : bool := match k with Migrating _ _ | Moved _ _ | Moving _ => true | _ => false end.
Definition wakes (k : place) : bool := match k with Woken | Queue _ | Listed _ => true | _ => false end.

(** What a context in [k] knows of the task. *)
Definition knows (k : place) s : Prop :=
  match k with
  | CheckMigrating _ _ c => cpu s = c
  | Held _ _ c | Called (Some c) => cpu s = c ∧ on_rq s ≠ 2
  | LookAgain => tstate s ≠ TASK_WAKING
  | Called None => on_rq s = 0 ∧ tstate s ≠ TASK_WAKING
  | Migrating c _ => on_rq s = 2 ∧ on_cpu s = false ∧ cpu s = c
  | Moved _ d | Moving d => on_rq s = 2 ∧ on_cpu s = false ∧ cpu s = d
  | Woken => on_rq s = 0 ∧ tstate s = TASK_WAKING
  | Queue d => on_rq s = 0 ∧ tstate s = TASK_WAKING ∧ on_cpu s = false ∧ cpu s = d
  | Listed d => on_rq s = 0 ∧ tstate s = TASK_WAKING ∧ cpu s = d
  | _ => True
  end.

Definition entry_ok (e : entry) : Prop :=
  ncsw_of e = Z.lor (wrapu64 (voluntary_of e)) LONG_MIN_BIT ∧ (match_of e = 0 ∨ tstate_of e = match_of e) ∧
  on_rq_of e = 0 ∧ on_cpu_of e = false.
(** The task ran between [e] and a later moment only if it gave up the
    processor for good since, or may still do so. *)
Definition since (e : entry) (v r : Z) (x : Prop) : Prop := voluntary_of e ≤ v ∧ (ran_of e = r ∨ voluntary_of e < v ∨ x).

Record inv s : Prop := {
  v_pi i : has_pi (at_place s i) = true → pi_lock s = Some i;
  v_rq i c : has_rq (at_place s i) = Some c → rq_lock s c = Some (Ctx i);
  v_knows i : knows (at_place s i) s;
  v_moves i j : moves (at_place s i) = true → moves (at_place s j) = true → i = j;
  v_wakes i j : wakes (at_place s i) = true → wakes (at_place s j) = true → i = j;
  v_run : on_cpu s = true → on_rq s = 1 ∨ rq_lock s (cpu s) = Some (Cpu (cpu s));
  v_cpu c d : rq_lock s c = Some (Cpu d) → c = d ∧ c = cpu s ∧ on_cpu s = true ∧ on_rq s = 0;
  v_on_rq : on_rq s = 0 ∨ on_rq s = 1 ∨ on_rq s = 2;
  v_entries e : e ∈ waited s → entry_ok e ∧ since e (voluntary s) (ran s) (on_rq s ≠ 0);
  v_pairs a b e1 e2 : (a < b)%nat → waited s !! a = Some e1 → waited s !! b = Some e2 → since e1 (voluntary_of e2) (ran_of e2) False;
}.

Lemma place_goto i k s j : at_place (goto i k s) j = if decide (j = i) then k else at_place s j.
Proof. simpl. case_decide; [subst; apply fn_lookup_insert|by apply fn_lookup_insert_ne]. Qed.
Lemma rq_lock_set c v s d : rq_lock (set_rq c v s) d = if decide (d = c) then v else rq_lock s d.
Proof. simpl. case_decide; [subst; apply fn_lookup_insert|by apply fn_lookup_insert_ne]. Qed.

(** * A step of one context *)

(** The context [i] goes to [k], and nobody else who has a lock loses it. *)
Record moved_to i (k : place) s s' : Prop := {
  m_place j : at_place s' j = if decide (j = i) then k else at_place s j;
  m_pi : pi_lock s' = pi_lock s ∨ pi_lock s = None ∨ pi_lock s = Some i;
  m_rq c : rq_lock s' c = rq_lock s c ∨ ∀ j, j ≠ i → rq_lock s c ≠ Some (Ctx j);
  m_has_pi : has_pi k = true → pi_lock s' = Some i;
  m_has_rq c : has_rq k = Some c → rq_lock s' c = Some (Ctx i);
  m_knows : knows k s';
  m_others j : j ≠ i → knows (at_place s j) s → knows (at_place s j) s';
  m_moves j : j ≠ i → moves k = true → moves (at_place s j) = false;
  m_wakes j : j ≠ i → wakes k = true → wakes (at_place s j) = false;
  m_run : on_cpu s' = true → on_rq s' = 1 ∨ rq_lock s' (cpu s') = Some (Cpu (cpu s'));
  m_cpu c d : rq_lock s' c = Some (Cpu d) → c = d ∧ c = cpu s' ∧ on_cpu s' = true ∧ on_rq s' = 0;
  m_on_rq : on_rq s' = 0 ∨ on_rq s' = 1 ∨ on_rq s' = 2;
}.

(** The record of waits under a step. *)
Lemma since_later e v r v' r' (x x' : Prop) : since e v r x → v ≤ v' → (r = r' ∧ (x → v < v' ∨ x') ∨ v < v' ∨ x') → since e v' r' x'.
Proof. unfold since. intros [? H]. intuition lia. Qed.

Definition log_kept s s' : Prop :=
  waited s' = waited s ∧ voluntary s ≤ voluntary s' ∧
  (ran s = ran s' ∧ (on_rq s ≠ 0 → voluntary s < voluntary s' ∨ on_rq s' ≠ 0) ∨ voluntary s < voluntary s' ∨ on_rq s' ≠ 0).

Lemma inv_moved_to i k s s' : inv s → moved_to i k s s' → log_kept s s' → inv s'.
Proof.
  intros I [] (L1 & L2 & L3). split; try done.
  - intros j. rewrite m_place0. destruct (decide _) as [->|]; [by subst|]. intros H. pose proof (v_pi _ I j H) as E. destruct m_pi0 as [->|[?|?]]; congruence.
  - intros j c. rewrite m_place0. destruct (decide _) as [->|]; [auto|]. intros H. pose proof (v_rq _ I j c H) as E. destruct (m_rq0 c) as [->|N]; [done|]. by destruct (N j).
  - intros j. rewrite m_place0. case_decide; [by subst|]. apply m_others0; [done|apply I].
  - intros j l. rewrite !m_place0. repeat case_decide; subst; try done.
    + intros H1 H2. by rewrite (m_moves0 l) in H2.
    + intros H1 H2. by rewrite (m_moves0 j) in H1.
    + apply I.
  - intros j l. rewrite !m_place0. repeat case_decide; subst; try done.
    + intros H1 H2. by rewrite (m_wakes0 l) in H2.
    + intros H1 H2. by rewrite (m_wakes0 j) in H1.
    + apply I.
  - intros e. rewrite L1. intros He. destruct (v_entries _ I e He) as [? Hs]. split; [done|]. by eapply since_later.
  - intros a b e1 e2. rewrite L1. apply I.
Qed.

(** * Every step *)

Lemma data_same k s s' : cpu s' = cpu s → on_rq s' = on_rq s → on_cpu s' = on_cpu s → tstate s' = tstate s → knows k s → knows k s'.
Proof. intros E1 E2 E3 E4. destruct k as [| | | | | | | | | | | |[]| | | | | |]; simpl; by rewrite ?E1, ?E2, ?E3, ?E4. Qed.

(** Only places and locks change. *)
Lemma locks_moved i k s s' : inv s → cpu s' = cpu s → on_rq s' = on_rq s → on_cpu s' = on_cpu s → tstate s' = tstate s →
  (∀ j, at_place s' j = if decide (j = i) then k else at_place s j) →
  (pi_lock s' = pi_lock s ∨ pi_lock s = None ∨ pi_lock s = Some i) →
  (∀ c, rq_lock s' c = rq_lock s c ∨ (rq_lock s c = None ∨ rq_lock s c = Some (Ctx i)) ∧ (rq_lock s' c = None ∨ rq_lock s' c = Some (Ctx i))) →
  (has_pi k = true → pi_lock s' = Some i) → (∀ c, has_rq k = Some c → rq_lock s' c = Some (Ctx i)) → knows k s' →
  (moves k = true → moves (at_place s i) = true) → (wakes k = true → wakes (at_place s i) = true) → moved_to i k s s'.
Proof.
  intros I E1 E2 E3 E5 Hp Hpi Hrq H1 H2 H3 H4 H5. split; try done.
  - intros c. destruct (Hrq c) as [?|[[->| ->] _]]; [by left|by right|]. right. intros j Hj [= ->]. done.
  - intros j _. by apply data_same.
  - intros j Hj Hm. destruct (moves (at_place s j)) eqn:E; [|done]. by rewrite (v_moves _ I j i E (H4 Hm)) in Hj.
  - intros j Hj Hm. destruct (wakes (at_place s j)) eqn:E; [|done]. by rewrite (v_wakes _ I j i E (H5 Hm)) in Hj.
  - rewrite E1, E2, E3. intros Hc. destruct (v_run _ I Hc) as [?|E]; [by left|right]. by destruct (Hrq (cpu s)) as [->|[[?|?] _]]; [|congruence..].
  - intros c d Hc. rewrite E1, E2, E3. apply (v_cpu _ I). by destruct (Hrq c) as [<-|[_ [?|?]]]; [|congruence..].
  - rewrite E2. apply I.
Qed.

Lemma log_same s s' : waited s' = waited s → voluntary s' = voluntary s → ran s' = ran s → (on_rq s ≠ 0 → on_rq s' ≠ 0) → log_kept s s'.
Proof. intros E1 E2 E3 E4. split; [done|]. split; [lia|]. left. split; [done|]. auto. Qed.

Ltac places := intros ?; rewrite ?place_goto; simpl; repeat case_decide; subst; rewrite ?fn_lookup_insert, ?fn_lookup_insert_ne by done; done.
Ltac rqs c := let d := fresh in intros d; simpl; destruct (decide (d = c)) as [->|];
  [rewrite fn_lookup_insert; auto|rewrite fn_lookup_insert_ne by done; auto].

Lemma held_pi i s : inv s → has_pi (at_place s i) = true → pi_lock s = Some i.
Proof. intros I. apply I. Qed.

Lemma unlock_spec i u pi c s : inv s → has_pi (at_place s i) = true → has_rq (at_place s i) = Some c →
  moves (at_place s i) = false → inv (goto i (Spin u pi) ((if pi then with_pi None else id) (unlock_rq c s))).
Proof.
  intros I H1 H2 H3. pose proof (v_pi _ I i H1). pose proof (v_rq _ I i c H2).
  eapply (inv_moved_to i (Spin u pi)); [done| |destruct pi; by apply log_same].
  apply locks_moved; try done; destruct pi; try done; try (by places); simpl; auto; rqs c.
Qed.

Lemma inv_wait i m c pi s : inv s → at_place s i = Held (Wait m) pi c → inv (wait_locked i m c s).
Proof.
  intros I E. pose proof (v_pi _ I i) as Hpi. pose proof (v_rq _ I i c) as Hrq. pose proof (v_knows _ I i) as Hk. rewrite E in Hpi, Hrq, Hk.
  specialize (Hpi eq_refl). specialize (Hrq eq_refl). destruct Hk as [Hk1 Hk2]. unfold wait_locked.
  assert (∀ k s', has_pi k = false → has_rq k = None → knows k s' → moves k = false → wakes k = false → cpu s' = cpu s → on_rq s' = on_rq s → on_cpu s' = on_cpu s → tstate s' = tstate s →
    at_place s' = <[i := k]> (at_place s) → pi_lock s' = None → rq_lock s' = <[c := None]> (rq_lock s) → moved_to i k s s') as K.
  { intros k s' K1 K2 K3 K4 K11 K5 K6 K7 K12 K8 K9 K10. apply locks_moved; try done.
    - intros j. rewrite K8. case_decide; [subst; apply fn_lookup_insert|by apply fn_lookup_insert_ne].
    - auto.
    - rewrite K10. rqs c.
    - by rewrite K1.
    - by rewrite K2.
    - by rewrite K4.
    - by rewrite K11. }
  destruct (_ =? 0) eqn:En; [|destruct (task_running s) eqn:Er; [|destruct (task_on_rq_queued s) eqn:Eq]].
  - eapply inv_moved_to; [done|by apply (K Free)|by apply log_same].
  - eapply inv_moved_to; [done|by apply (K (Watch m))|by apply log_same].
  - eapply inv_moved_to; [done|by apply (K (Watch m))|by apply log_same].
  - assert (inv (goto i Free (with_pi None (unlock_rq c s)))) as I2.
    { eapply inv_moved_to; [done|by apply (K Free)|by apply log_same]. }
    assert (on_rq s = 0) as H0.
    { unfold task_on_rq_queued, TASK_ON_RQ_QUEUED in Eq. apply Z.eqb_neq in Eq. destruct (v_on_rq _ I) as [?|[?|?]]; congruence. }
    destruct I2. split; try done; simpl in *.
    + intros e [He|He]%elem_of_app; [by apply v_entries0|]. apply list_elem_of_singleton in He as ->.
      destruct ((m =? 0) || (tstate s =? m)) eqn:Em; [|by rewrite Z.eqb_refl in En]. split; [|unfold since; simpl; lia].
      split; [done|]. split; [|by split]. apply orb_prop in Em as [Em|Em]; apply Z.eqb_eq in Em; auto.
    + intros a b e1 e2 Hab H1 H2. assert (a < length (waited s))%nat as Ha.
      { apply lookup_lt_Some in H2. rewrite length_app in H2. simpl in H2. lia. }
      rewrite lookup_app_l in H1 by done. destruct (decide (b < length (waited s))%nat) as [Hb|Hb].
      * rewrite lookup_app_l in H2 by done. exact (v_pairs0 a b e1 e2 Hab H1 H2).
      * rewrite lookup_app_r in H2 by lia. apply list_lookup_singleton_Some in H2 as [_ <-].
        destruct (v_entries0 e1) as [_ Hs]; [by eapply list_elem_of_lookup_2|]. unfold since in *. simpl in *. intuition lia.
Qed.

(** What else a context does with the locks alone. *)
Lemma inv_locks i k s s' : inv s → cpu s' = cpu s → on_rq s' = on_rq s → on_cpu s' = on_cpu s → tstate s' = tstate s →
  waited s' = waited s → voluntary s' = voluntary s → ran s' = ran s →
  (∀ j, at_place s' j = if decide (j = i) then k else at_place s j) →
  (pi_lock s' = pi_lock s ∨ pi_lock s = None ∨ pi_lock s = Some i) →
  (∀ c, rq_lock s' c = rq_lock s c ∨ (rq_lock s c = None ∨ rq_lock s c = Some (Ctx i)) ∧ (rq_lock s' c = None ∨ rq_lock s' c = Some (Ctx i))) →
  (has_pi k = true → pi_lock s' = Some i) → (∀ c, has_rq k = Some c → rq_lock s' c = Some (Ctx i)) → knows k s' →
  (moves k = true → moves (at_place s i) = true) → (wakes k = true → wakes (at_place s i) = true) → inv s'.
Proof. intros. eapply inv_moved_to; [done|by apply (locks_moved i k)|by apply log_same; [..|congruence]]. Qed.

Lemma rq_free_none c s i : inv s → rq_free c s = true → has_rq (at_place s i) ≠ Some c.
Proof. intros I H E. pose proof (v_rq _ I i c E) as El. unfold rq_free in H. by rewrite El in H. Qed.
Lemma other_rq i j c s : inv s → j ≠ i → has_rq (at_place s i) = Some c → has_rq (at_place s j) ≠ Some c.
Proof. intros I Hj E Ej. pose proof (v_rq _ I i c E). pose proof (v_rq _ I j c Ej). congruence. Qed.
Lemma other_pi i j s : inv s → j ≠ i → has_pi (at_place s i) = true → has_pi (at_place s j) = false.
Proof.
  intros I Hj E. apply not_true_iff_false. intros Ej. pose proof (v_pi _ I i E). pose proof (v_pi _ I j Ej). congruence.
Qed.
Lemma other_moves i j s : inv s → j ≠ i → moves (at_place s i) = true → moves (at_place s j) = false.
Proof. intros I Hj E. apply not_true_iff_false. intros Ej. by destruct Hj, (v_moves _ I j i Ej E). Qed.
Lemma other_wakes i j s : inv s → j ≠ i → wakes (at_place s i) = true → wakes (at_place s j) = false.
Proof. intros I Hj E. apply not_true_iff_false. intros Ej. by destruct Hj, (v_wakes _ I j i Ej E). Qed.

(** A step that changes the data; [P]: what is left to say of the places of
    the others. *)
Lemma inv_data i k s s' : inv s → log_kept s s' →
  (∀ j, at_place s' j = if decide (j = i) then k else at_place s j) →
  (pi_lock s' = pi_lock s ∨ pi_lock s = Some i) →
  (∀ c, rq_lock s' c = rq_lock s c ∨ ∀ j, j ≠ i → rq_lock s c ≠ Some (Ctx j)) →
  (has_pi k = true → pi_lock s' = Some i) → (∀ c, has_rq k = Some c → rq_lock s' c = Some (Ctx i)) → knows k s' →
  (∀ j, j ≠ i → knows (at_place s j) s → knows (at_place s j) s') →
  (∀ j, j ≠ i → moves k = true → moves (at_place s j) = false) →
  (∀ j, j ≠ i → wakes k = true → wakes (at_place s j) = false) →
  (on_cpu s' = true → on_rq s' = 1 ∨ rq_lock s' (cpu s') = Some (Cpu (cpu s'))) →
  (∀ c d, rq_lock s' c = Some (Cpu d) → c = d ∧ c = cpu s' ∧ on_cpu s' = true ∧ on_rq s' = 0) →
  (on_rq s' = 0 ∨ on_rq s' = 1 ∨ on_rq s' = 2) → inv s'.
Proof. intros I L H1 H2 H3 H4 H5 H6 H7 H8 H12 H9 H10 H11. apply (inv_moved_to i k s); [done| |done]. split; try done. destruct H2; auto. Qed.

Ltac others E := let Ej := fresh "Ej" in
  match goal with |- knows (at_place ?s ?j) ?s → _ => destruct (at_place s j) as [| | | | | | | | | | | |[]| | | | | |] eqn:Ej end;
  simpl in *; cbv [TASK_ON_RQ_QUEUED TASK_ON_RQ_MIGRATING TASK_RUNNING TASK_WAKING] in *; try done; intuition (try congruence; try lia).

Ltac locks_step s := match goal with |- inv (goto ?i ?k _) => apply (inv_locks i k s) end.
Ltac data_step s := match goal with |- inv (goto ?i ?k _) => apply (inv_data i k s) end.

Lemma inv_go_lock i s s' : inv s → go i s = Some s' → inv s'.
Proof.
  intros I H. pose proof (v_pi _ I i) as Hpi. pose proof (v_rq _ I i) as Hrq. pose proof (v_knows _ I i) as Hk.
  pose proof (λ j Hj, other_pi i j s I Hj) as Op. pose proof (λ j c Hj, other_rq i j c s I Hj) as Or. pose proof (λ j Hj, other_moves i j s I Hj) as Om.
  pose proof (λ j Hj, other_wakes i j s I Hj) as Ow. unfold go in H. destruct (at_place s i) as [|u|u pi|u pi c|u pi c|u pi c|u pi c|u pi|m| | | |o|c d|c d|d| |d|d] eqn:E; try done;
    cbn [has_pi has_rq moves wakes] in Hpi, Hrq, Op, Or, Om, Ow; simpl in Hk.
  - destruct (pi_lock s) eqn:El; [done|]. injection H as <-. locks_step s; try done; try (by places); simpl; auto; try (by destruct u).
  - injection H as <-. locks_step s; try done; try (by places); simpl; auto; by rewrite ?E.
  - unfold lock_rq in H. destruct (rq_lock s c) eqn:El; [done|]. injection H as <-.
    locks_step s; try done; try (by places); simpl; auto; try (by rqs c). intros d [= <-]. by rewrite fn_lookup_insert.
  - destruct (Z.eqb_spec c (cpu s)) as [->|Hne]; injection H as <-.
    + locks_step s; try done; try (by places); simpl; auto.
    + apply unlock_spec; try done; by rewrite E.
  - destruct (task_on_rq_migrating s) eqn:Em; injection H as <-; cbn [negb].
    + apply unlock_spec; try done; by rewrite E.
    + locks_step s; try done; try (by places); simpl; auto. split; [done|]. by apply Z.eqb_neq in Em.
  - destruct u as [m| |].
    + injection H as <-. by eapply inv_wait.
    + destruct (Z.eqb_spec (cpu s) c) as [Ec|Hne]; [|by destruct Hk]. injection H as <-. locks_step s; try done; try (by places); simpl; auto.
    + injection H as <-. locks_step s; try done; try (by places); simpl; auto; rqs c.
  - destruct (task_on_rq_migrating s); [done|]. injection H as <-. destruct pi.
    + locks_step s; try done; try (by places); simpl; auto.
    + locks_step s; try done; try (by places); simpl; auto.
  - destruct (task_running s); [destruct (unmatched m s); [|done]|]; injection H as <-; locks_step s; try done; try (by places); simpl; auto.
  - destruct (negb _); injection H as <-; locks_step s; try done; try (by places); simpl; auto.
  - destruct (_ || _) eqn:Es; injection H as <-; locks_step s; try done; try (by places); simpl; auto.
    apply orb_false_iff in Es as [_ Es%Z.eqb_neq]. done.
  - destruct (Z.eqb_spec (on_rq s) 0) as [E0|_]; injection H as <-; locks_step s; try done; try (by places); simpl; auto.
  - injection H as <-. destruct o as [c|]; locks_step s; try done; try (by places); simpl; auto. rqs c.
  - injection H as <-. destruct Hk as (K1 & K2 & K3). data_step s; try done; try (by places); simpl; auto.
    + by apply log_same.
    + intros j Hj. pose proof (Or j _ Hj eq_refl) as Hr. pose proof (Om j Hj eq_refl). others Ej.
    + rewrite K2. done.
    + intros e f Hc. destruct (v_cpu _ I e f Hc) as (_ & _ & ? & _). congruence.
  - injection H as <-. destruct Hk as (K1 & K2 & K3). locks_step s; try done; try (by places); simpl; auto; [rqs c|by rewrite E].
  - destruct (rq_lock s d) eqn:El; [done|]. injection H as <-. destruct Hk as (K1 & K2 & K3).
    data_step s; try done; try (by places); simpl; auto.
    + by apply log_same.
    + intros j Hj. pose proof (Om j Hj eq_refl). others Ej.
    + intros e f Hc. destruct (v_cpu _ I e f Hc) as (_ & _ & ? & _). congruence.
  - destruct (rq_lock s d) eqn:El; [done|]. injection H as <-. destruct Hk as (K1 & K4 & K2 & K3). specialize (Hpi eq_refl).
    data_step s; try done; try (by places); simpl; auto.
    + by apply log_same.
    + intros j Hj. pose proof (Op j Hj eq_refl). pose proof (Ow j Hj eq_refl). others Ej.
    + intros e f Hc. destruct (v_cpu _ I e f Hc) as (_ & _ & ? & _). congruence.
  - destruct (rq_lock s d) eqn:El; [done|]. destruct (on_cpu s) eqn:Ec; [done|]. injection H as <-. destruct Hk as (K1 & K2 & K3).
    data_step s; try done; try (by places); simpl; auto.
    + by apply log_same.
    + intros j Hj. pose proof (Ow j Hj eq_refl). others Ej.
    + intros e f Hc. destruct (v_cpu _ I e f Hc) as (_ & _ & ? & _). congruence.
Qed.

(** A step of the task itself, or of its processor. *)
Lemma inv_plain s s' : inv s → log_kept s s' → at_place s' = at_place s → pi_lock s' = pi_lock s →
  (∀ c, rq_lock s' c = rq_lock s c ∨ ∀ j, rq_lock s c ≠ Some (Ctx j)) →
  (∀ j, knows (at_place s j) s → knows (at_place s j) s') →
  (on_cpu s' = true → on_rq s' = 1 ∨ rq_lock s' (cpu s') = Some (Cpu (cpu s'))) →
  (∀ c d, rq_lock s' c = Some (Cpu d) → c = d ∧ c = cpu s' ∧ on_cpu s' = true ∧ on_rq s' = 0) →
  (on_rq s' = 0 ∨ on_rq s' = 1 ∨ on_rq s' = 2) → inv s'.
Proof.
  intros I (L1 & L2 & L3) Ep Epi Hr Hk H1 H2 H3. split; try done.
  - intros j. rewrite Ep, Epi. apply I.
  - intros j c. rewrite Ep. intros E. pose proof (v_rq _ I j c E) as El. destruct (Hr c) as [->|N]; [done|]. by destruct (N j).
  - intros j. rewrite Ep. apply Hk, I.
  - intros j l. rewrite Ep. apply I.
  - intros j l. rewrite Ep. apply I.
  - intros e. rewrite L1. intros He. destruct (v_entries _ I e He) as [? Hs]. split; [done|]. by eapply since_later.
  - intros a b e1 e2. rewrite L1. apply I.
Qed.

Lemma queued_spec s : task_on_rq_queued s = true → on_rq s = 1.
Proof. apply Z.eqb_eq. Qed.
Lemma rq_free_spec c s : rq_free c s = true → rq_lock s c = None.
Proof. unfold rq_free. by destruct (rq_lock s c). Qed.
Lemma log_more s s' : waited s' = waited s → voluntary s ≤ voluntary s' → voluntary s < voluntary s' ∨ on_rq s' ≠ 0 → log_kept s s'.
Proof. intros E1 E2 E3. split; [done|]. split; [done|]. by right. Qed.

Lemma inv_do_lock l s s' : inv s → do l s = Some s' → inv s'.
Proof.
  intros I H. pose proof (λ j, rq_free_none (cpu s) s j I) as Fr. pose proof (v_run _ I) as Hrun.
  assert (∀ c d, rq_lock s c = Some (Cpu d) → on_rq s = 0) as Hc0 by (intros c d E; apply (v_cpu _ I c d E)).
  destruct l as [i|i m|i|i|i dest|dest| |i|i dest|i| | | | | |v]; cbn [do] in H.
  - destruct (is_free i s); [|done]. injection H as <-. locks_step s; try done; try (by places); simpl; auto.
  - destruct (is_free i s); [|done]. injection H as <-. locks_step s; try done; try (by places); simpl; auto.
  - destruct (is_free i s); [|done]. injection H as <-. locks_step s; try done; try (by places); simpl; auto.
  - by eapply inv_go_lock.
  - destruct (_ && negb (on_cpu s)) eqn:E; [|done]. injection H as <-. apply andb_prop in E as [[[_ Hf]%andb_prop Hq%queued_spec]%andb_prop Hn%negb_true_iff].
    data_step s; try done; try (by places); simpl; auto; try congruence.
    + by apply log_more; [|simpl; lia|right].
    + rqs (cpu s). right. intros j _. apply rq_free_spec in Hf. congruence.
    + intros c [= <-]. by rewrite fn_lookup_insert.
    + intros j _. specialize (Fr j Hf). others Ej.
    + intros j _ _. apply not_true_iff_false. intros Hm. pose proof (v_knows _ I j) as Hk. destruct (at_place s j); simpl in *; intuition congruence.
    + intros c d. destruct (decide (c = cpu s)) as [->|]; [by rewrite fn_lookup_insert|]. rewrite fn_lookup_insert_ne by done. intros E. apply Hc0 in E. lia.
  - destruct (_ && negb (on_cpu s)) eqn:E; [|done]. injection H as <-. apply andb_prop in E as [[[Hf _]%andb_prop Hq%queued_spec]%andb_prop Hn%negb_true_iff].
    apply (inv_plain s); try done; simpl; auto; try congruence.
    + by apply log_same.
    + intros j. specialize (Fr j Hf). others Ej.
    + intros c d E. apply Hc0 in E. lia.
  - destruct (_ && task_on_rq_queued s) eqn:E; [|done]. injection H as <-. apply andb_prop in E as [_ Hq%queued_spec].
    apply (inv_plain s); try done; simpl; auto; try apply I; [by apply log_same|]. intros j. others Ej.
  - destruct (_ && negb (tstate s =? TASK_WAKING)) eqn:E; [|done]. injection H as <-.
    apply andb_prop in E as [[[[_ Hp%bool_decide_eq_true]%andb_prop H0%Z.eqb_eq]%andb_prop _]%andb_prop Hw%negb_true_iff%Z.eqb_neq].
    apply (inv_moved_to i Woken s); [done| |by apply log_same]. split; try done; try (by places); simpl; auto.
    + intros j Hj. pose proof (v_pi _ I j) as Hj2. others Ej; by destruct (Hj2 eq_refl).
    + intros j Hj _. apply not_true_iff_false. intros Hm. pose proof (v_knows _ I j) as Hk. destruct (at_place s j); simpl in *; intuition congruence.
    + apply I.
  - destruct (at_place s i) eqn:E; try done. destruct (on_cpu s) eqn:En; [done|]. injection H as <-.
    pose proof (v_pi _ I i) as Hpi. rewrite E in Hpi. specialize (Hpi eq_refl). pose proof (v_knows _ I i) as Hk. rewrite E in Hk. simpl in Hk.
    assert (has_pi (at_place s i) = true) as Hi by by rewrite E. assert (wakes (at_place s i) = true) as Hw by by rewrite E.
    destruct Hk as [Hk1 Hk2]. data_step s; try done; try (by places); simpl; auto; try congruence.
    + by apply log_same.
    + intros j Hj. pose proof (other_pi i j s I Hj Hi). pose proof (other_wakes i j s I Hj Hw). others Ej.
    + intros j Hj _. by apply (other_wakes i j s I Hj Hw).
    + intros c d Hc. destruct (v_cpu _ I c d Hc) as (_ & _ & ? & _). congruence.
  - pose proof (v_pi _ I i) as Hpi. pose proof (v_knows _ I i) as Hk.
    destruct (at_place s i) eqn:E; try done; [destruct (on_cpu s); [|done]|]; injection H as <-; specialize (Hpi eq_refl); simpl in Hk;
      (locks_step s; try done; try (by places); simpl; auto; try (by rewrite E); intuition).
  - destruct (_ && negb (on_cpu s)) eqn:E; [|done]. injection H as <-. apply andb_prop in E as [[Hf Hq%queued_spec]%andb_prop Hn%negb_true_iff].
    apply (inv_plain s); try done; simpl; auto; try congruence.
    + by apply log_more; [|simpl; lia|right; simpl; lia].
    + intros j. others Ej.
    + intros c d E. apply Hc0 in E. lia.
  - destruct (_ && on_cpu s) eqn:E; [|done]. injection H as <-. apply andb_prop in E as [[Hf Hq%queued_spec]%andb_prop Hn].
    apply (inv_plain s); try done; simpl; auto; try congruence.
    + by apply log_same.
    + intros j. others Ej.
    + intros c d E. apply Hc0 in E. lia.
  - destruct (_ && on_cpu s) eqn:E; [|done]. injection H as <-. apply andb_prop in E as [[Hf Hq%queued_spec]%andb_prop Hn].
    apply (inv_plain s); try done; simpl; auto; try congruence.
    + by apply log_more; [|simpl; lia|left; simpl; lia].
    + intros j. others Ej.
    + intros c d E. apply Hc0 in E. lia.
  - destruct (_ && negb (tstate s =? _)) eqn:E; [|done]. injection H as <-. apply andb_prop in E as [[[Hf Hq%queued_spec]%andb_prop Hn]%andb_prop _].
    apply (inv_plain s); try done; simpl; auto; try congruence.
    + by apply log_more; [|simpl; lia|left; simpl; lia].
    + rqs (cpu s). right. apply rq_free_spec in Hf. congruence.
    + intros j. specialize (Fr j Hf). others Ej.
    + rewrite fn_lookup_insert. auto.
    + intros c d. destruct (decide (c = cpu s)) as [->|]; [rewrite fn_lookup_insert; by intros [= <-]|]. rewrite fn_lookup_insert_ne by done. intros E. apply Hc0 in E. lia.
  - case_bool_decide as E; [|done]. injection H as <-. destruct (v_cpu _ I _ _ E) as (_ & _ & _ & H0). apply (inv_plain s); try done; simpl; auto; try apply I.
    + by apply log_same.
    + rqs (cpu s). right. congruence.
    + intros j. others Ej.
    + intros c d. destruct (decide (c = cpu s)) as [->|]; [by rewrite fn_lookup_insert|]. rewrite fn_lookup_insert_ne by done. intros Hc.
      by destruct (v_cpu _ I c d Hc) as (_ & ? & _).
  - destruct (_ && negb (v =? _)) eqn:E; [|done]. injection H as <-.
    apply andb_prop in E as [[Hc Hq%queued_spec]%andb_prop Hw%negb_true_iff%Z.eqb_neq].
    apply (inv_plain s); try done; simpl; auto; try apply I; [by apply log_same|]. intros j. others Ej.
Qed.

Lemma lock_inv s : rtc step start s → inv s.
Proof.
  assert (inv start) as I0.
  { split; try done; simpl; auto. by intros e ?%elem_of_nil. }
  intros H. refine (rtc_ind_r inv start I0 _ s H). intros t u _ [l Hl] It. by apply (inv_do_lock l t u).
Qed.

(** * Properties *)

Definition same_task s s' : Prop := cpu s' = cpu s ∧ on_rq s' = on_rq s ∧ on_cpu s' = on_cpu s ∧ ran s' = ran s.

Lemma go_same i s s' : go i s = Some s' → same_task s s' ∨ moves (at_place s i) = true ∨ (∃ d, at_place s i = Queue d) ∨
  ∃ d, at_place s i = Listed d ∧ rq_lock s d = None.
Proof.
  unfold go. destruct (at_place s i) as [|u|u pi|u pi c|u pi c|u pi c|u pi c|u pi|m| | | |o|c d|c d|d| |d|d]; try done; eauto; intros H.
  - destruct (pi_lock s); [done|]. injection H as <-. by left.
  - injection H as <-. by left.
  - unfold lock_rq in H. destruct (rq_lock s c); [done|]. injection H as <-. by left.
  - destruct (c =? cpu s), pi; injection H as <-; by left.
  - destruct (negb _), pi; injection H as <-; by left.
  - injection H as <-. left. destruct u; [|by destruct (cpu s =? c)|done]. unfold wait_locked. by repeat case_match.
  - destruct (task_on_rq_migrating s); [done|]. injection H as <-. by left.
  - destruct (task_running s); [destruct (unmatched m s); [|done]|]; injection H as <-; by left.
  - destruct (negb _); injection H as <-; by left.
  - destruct (_ || _); injection H as <-; by left.
  - destruct (on_rq s =? 0); injection H as <-; by left.
  - injection H as <-. left. by destruct o.
  - destruct (rq_lock s d) eqn:El; [done|]. eauto 6.
Qed.

(** Whoever has the lock of the task and of its run queue, or the lock of the
    task while that is on no run queue and has left its processor. *)
Lemma locked_same i s l s' : inv s → has_pi (at_place s i) = true → on_rq s ≠ 2 →
  (rq_lock s (cpu s) = Some (Ctx i) ∨ on_rq s = 0 ∧ tstate s ≠ TASK_WAKING ∧ l ≠ Blocked) → (∀ d, at_place s i ≠ Queue d) → (∀ dest, l ≠ Place i dest) →
  do l s = Some s' → same_task s s'.
Proof.
  intros I Hi H2 Hl Hq Hpl H. pose proof (v_pi _ I i Hi) as Hp.
  assert (rq_free (cpu s) s && task_on_rq_queued s = false) as Hf.
  { destruct Hl as [E|(E & _)]; unfold rq_free, task_on_rq_queued; [by rewrite E|]. rewrite E. by rewrite andb_false_r. }
  apply andb_false_iff in Hf.
  destruct l as [j|j m|j|j|j dest|dest| |j|j dest|j| | | | | |v]; cbn [do] in H.
  - destruct (is_free j s); [|done]. by injection H as <-.
  - destruct (is_free j s); [|done]. by injection H as <-.
  - destruct (is_free j s); [|done]. by injection H as <-.
  - destruct (go_same j s s' H) as [?|[Hm|[(d & Hd)|(d & Hd & Ed)]]]; [done| | |].
    + pose proof (v_knows _ I j) as Hk. destruct (at_place s j); simpl in *; intuition congruence.
    + destruct (decide (j = i)) as [->|Hne]; [by destruct (Hq d)|]. pose proof (other_pi i j s I Hne Hi) as E. by rewrite Hd in E.
    + pose proof (v_knows _ I j) as Hk. rewrite Hd in Hk. destruct Hk as (K1 & K2 & K3). by destruct Hl as [El|(_ & El & _)]; [congruence|].
  - destruct (is_free j s), (rq_free (cpu s) s), (task_on_rq_queued s); simpl in H; try done; by destruct Hf.
  - destruct (rq_free (cpu s) s), (task_on_rq_queued s), (rq_free dest s); simpl in H; try done; by destruct Hf.
  - assert (bool_decide (pi_lock s = None) = false) as E by (apply bool_decide_eq_false_2; congruence). by rewrite E in H.
  - assert (bool_decide (pi_lock s = None) = false) as E by (apply bool_decide_eq_false_2; congruence). by rewrite E, andb_false_r in H.
  - destruct (at_place s j) eqn:E; try done. destruct (decide (j = i)) as [->|Hne]; [by destruct (Hpl dest)|].
    pose proof (other_pi i j s I Hne Hi) as Ep. by rewrite E in Ep.
  - destruct (at_place s j); try done; [destruct (on_cpu s); [|done]|]; by injection H as <-.
  - destruct (rq_free (cpu s) s), (task_on_rq_queued s); simpl in H; try done; by destruct Hf.
  - destruct (rq_free (cpu s) s), (task_on_rq_queued s); simpl in H; try done; by destruct Hf.
  - destruct (rq_free (cpu s) s), (task_on_rq_queued s); simpl in H; try done; by destruct Hf.
  - destruct (rq_free (cpu s) s), (task_on_rq_queued s); simpl in H; try done; by destruct Hf.
  - case_bool_decide as E; [|done]. destruct Hl as [El|(_ & _ & El)]; [congruence|done].
  - destruct (_ && negb (v =? _)); [|done]. by injection H as <-.
Qed.

(** C14: when [task_rq_lock] has returned, the run queue is that of the task,
    the task is not between run queues, and both locks are held; and nothing
    that another context or processor does then moves the task, queues or
    dequeues it or switches it, however migrations, wake-ups and other lockers
    interleave. *)
Theorem locked_task_stays i u pi c s l s' : rtc step start s → at_place s i = Held u pi c → do l s = Some s' →
  cpu s = c ∧ task_on_rq_migrating s = false ∧ pi_lock s = Some i ∧ rq_lock s c = Some (Ctx i) ∧
  cpu s' = cpu s ∧ on_rq s' = on_rq s ∧ on_cpu s' = on_cpu s ∧ ran s' = ran s.
Proof.
  intros H E Hd. pose proof (lock_inv s H) as I. pose proof (v_knows _ I i) as Hk. rewrite E in Hk. destruct Hk as [Hk1 Hk2].
  pose proof (v_pi _ I i) as Hp. rewrite E in Hp. specialize (Hp eq_refl). pose proof (v_rq _ I i c) as Hr. rewrite E in Hr. specialize (Hr eq_refl).
  split_and!; try done; [by apply Z.eqb_neq|..]; apply (locked_same i s l s'); try done; try (by rewrite E); try (left; congruence).
  all: try (intros d; by rewrite E). all: intros dest ->; cbn [do] in Hd; by rewrite E in Hd.
Qed.

(** The function that [try_invoke_on_locked_down_task] calls finds the task
    locked down: with the lock of its run queue, or asleep, and until the
    function returns nobody moves, queues or wakes it; while it is asleep only
    its processor may still leave it. *)
Theorem invoked_on_locked_down i o s l s' : rtc step start s → at_place s i = Called o → do l s = Some s' →
  pi_lock s = Some i ∧ task_on_rq_migrating s = false ∧
  match o with Some c => cpu s = c ∧ rq_lock s c = Some (Ctx i) | None => on_rq s = 0 end ∧
  cpu s' = cpu s ∧ on_rq s' = on_rq s ∧ ran s' = ran s.
Proof.
  intros H E Hd. pose proof (lock_inv s H) as I. pose proof (v_knows _ I i) as Hk. rewrite E in Hk.
  pose proof (v_pi _ I i) as Hp. rewrite E in Hp. specialize (Hp eq_refl). pose proof (λ c, v_rq _ I i c) as Hr. rewrite E in Hr.
  assert (on_rq s ≠ 2) as H2 by (destruct o; simpl in Hk; [tauto|destruct Hk; congruence]).
  split; [done|]. split; [by apply Z.eqb_neq|]. split.
  { destruct o as [c|]; [destruct Hk; split; [done|by apply Hr]|by destruct Hk]. }
  destruct (decide (l = Blocked)) as [->|Hne].
  - cbn [do] in Hd. case_bool_decide; [|done]. by injection Hd as <-.
  - assert (same_task s s') as (E1 & E2 & _ & E4); [|done]. apply (locked_same i s l s' I); [by rewrite E|done| | | |done].
    + destruct o as [c|]; [left; destruct Hk as [-> _]; by apply Hr|right; by destruct Hk].
    + intros d. by rewrite E.
    + intros dest ->. cbn [do] in Hd. by rewrite E in Hd.
Qed.

Lemma ncsw_mod v : Z.lor (wrapu64 v) LONG_MIN_BIT `mod` 2^63 = v `mod` 2^63.
Proof.
  apply Z.bits_inj'. intros n Hn. unfold wrapu64, LONG_MIN_BIT. destruct (decide (n < 63)).
  - rewrite !Z.mod_pow2_bits_low by lia. rewrite Z.lor_spec, Z.mod_pow2_bits_low by lia. rewrite Z.pow2_bits_false by lia. apply orb_false_r.
  - by rewrite !Z.mod_pow2_bits_high by lia.
Qed.

(** C15: when [wait_task_inactive] returns a number other than 0, the task was
    on no run queue and on no processor while the locks were held, in the state
    waited for when there was one; and when a later call returns the same
    number, the task was not switched to in between, as long as it gave up the
    processor less than 2^63 times between the two, the width of the number
    without its highest bit. *)
Theorem wait_task_inactive_exact s a b e f : rtc step start s → (a < b)%nat →
  waited s !! a = Some e → waited s !! b = Some f →
  ncsw_of e ≠ 0 ∧ on_rq_of e = 0 ∧ on_cpu_of e = false ∧ (match_of e = 0 ∨ tstate_of e = match_of e) ∧
  (ncsw_of e = ncsw_of f → voluntary_of f - voluntary_of e < 2^63 → ran_of e = ran_of f ∧ voluntary_of e = voluntary_of f).
Proof.
  intros H Hab H1 H2. pose proof (lock_inv s H) as I.
  destruct (v_entries _ I e) as [(E1 & M1 & Q1 & C1) _]; [by eapply list_elem_of_lookup_2|].
  destruct (v_entries _ I f) as [(E2 & _) _]; [by eapply list_elem_of_lookup_2|].
  pose proof (v_pairs _ I a b _ _ Hab H1 H2) as [Hle Hr]. split_and!; try done.
  - rewrite E1. intros E0%Z.lor_eq_0_iff. by destruct E0.
  - intros En Hv. pose proof (ncsw_mod (voluntary_of e)) as F1. pose proof (ncsw_mod (voluntary_of f)) as F2.
    rewrite <- E1 in F1. rewrite <- E2, <- En in F2. assert (0 < 2^63) as Hpos by (apply Z.pow_pos_nonneg; lia).
    revert F1 F2 Hv Hpos. generalize (2^63). intros K F1 F2 Hv Hpos.
    assert ((voluntary_of f - voluntary_of e) `mod` K = 0) as Ez by (rewrite Zminus_mod, <- F1, <- F2, Z.sub_diag; by apply Z.mod_0_l; lia).
    rewrite Z.mod_small in Ez by lia. destruct Hr as [?|[?|[]]]; lia.
Qed.

(** * A machine on which they hold *)

Fixpoint run (ls : list label) (s : state) : option state :=
  match ls with [] => Some s | l :: ls => s ← do l s; run ls s end.
Lemma run_lock ls s s' : run ls s = Some s' → rtc step s s'.
Proof.
  revert s. induction ls as [|l ls IH]; simpl; intros s H; [by injection H as <-|].
  apply bind_Some in H as (t & E & H). eapply rtc_l; [by exists l|auto].
Qed.

(** Context 1 reads the processor 0 of the task; 2 moves it to 5 meanwhile, so
    1 must try again. *)
Definition locks_moved_task : list label :=
  [Preempt; StartLock 1; Go 1; Go 1; Move 2 5; Go 2; Go 2; Go 1; Go 1; Go 2; Go 1; Go 1; Go 1; Go 1; Go 1; Go 1].
Lemma locked_task_stays_witness :
  ∃ s, run locks_moved_task start = Some s ∧ at_place s 1 = Held Other true 5 ∧ cpu s = 5 ∧ rq_lock s 5 = Some (Ctx 1) ∧ do Run s = None.
Proof.
  assert (∃ s, run locks_moved_task start = Some s ∧ at_place s 1 = Held Other true 5 ∧ do Run s = None ∧ is_Some (do (StartLock 3) s)) as (s & H & E & Er & [s' Hs]).
  { eexists. split; [vm_compute; reflexivity|]. split; [reflexivity|]. split; [reflexivity|]. eexists. reflexivity. }
  exists s. destruct (locked_task_stays 1 Other true 5 s _ s' (run_lock _ _ _ H) E Hs) as (E1 & _ & _ & E2 & _). by split_and!.
Defined.

(** It is called while the task sleeps; the one who wakes it waits. *)
Definition invokes_asleep : list label := [SetState 1; Block; Blocked; StartInvoke 1; Go 1; Go 1; Go 1; Go 1].
Lemma invoked_on_locked_down_witness :
  ∃ s, run invokes_asleep start = Some s ∧ at_place s 1 = Called None ∧ on_rq s = 0 ∧ pi_lock s = Some 1 ∧ do (Wake 2) s = None.
Proof.
  assert (∃ s, run invokes_asleep start = Some s ∧ at_place s 1 = Called None ∧ do (Wake 2) s = None ∧ is_Some (do (StartLock 3) s)) as (s & H & E & Er & [s' Hs]).
  { eexists. split; [vm_compute; reflexivity|]. split; [reflexivity|]. split; [reflexivity|]. eexists. reflexivity. }
  exists s. destruct (invoked_on_locked_down 1 None s _ s' (run_lock _ _ _ H) E Hs) as (E1 & _ & E2 & _). by split_and!.
Defined.

(** Two waits for a sleeping task return the same number. *)
Definition waits_twice : list label :=
  [SetState 1; Block; Blocked] ++ flat_map (λ _, [StartWait 1 1; Go 1; Go 1; Go 1; Go 1; Go 1; Go 1; Go 1]) [1; 2].
Definition asleep_entry : entry := Entry (2^63 + 1) 1 1 1 1 0 false.
Lemma wait_task_inactive_exact_witness :
  ∃ s, run waits_twice start = Some s ∧ waited s = [asleep_entry; asleep_entry] ∧
    on_rq_of asleep_entry = 0 ∧ ran_of asleep_entry = ran_of asleep_entry.
Proof.
  assert (∃ s, run waits_twice start = Some s ∧ waited s = [asleep_entry; asleep_entry]) as (s & H & E).
  { eexists. split; [vm_compute; reflexivity|]. reflexivity. }
  exists s. split; [exact H|]. split; [exact E|].
  destruct (wait_task_inactive_exact s 0 1 asleep_entry asleep_entry (run_lock _ _ _ H)) as (_ & H1 & _ & _ & H2);
    [lia|by rewrite E|by rewrite E|]. split; [exact H1|]. apply H2; [reflexivity|simpl; lia].
Defined.
