(* ===== verification/Preempt.v ===== *)
(** How a task of the kernel of assignment 4 enters the scheduler
    (src/과제/OS과제/과제4/core.c): the preemption count, [schedule] and its
    relatives, the calls that give way, and the checks for code that must or
    must not sleep. The configuration has CONFIG_PREEMPTION,
    CONFIG_DEBUG_PREEMPT and CONFIG_DEBUG_ATOMIC_SLEEP, and neither context
    tracking nor CONFIG_SCHED_STACK_END_CHECK; the macros of linux/preempt.h
    and linux/spinlock.h are taken with it. *)
From S2P Require Import Prelude.
Local Open Scope Z_scope.

(** * Data *)

Definition PREEMPT_MASK : Z := 0xff.
Definition PREEMPT_DISABLE_OFFSET : Z := 1.
Definition PREEMPT_DISABLED : Z := 1.
Definition PREEMPT_LOCK_OFFSET : Z := 1.
Definition TASK_RUNNING : Z := 0.
Definition HZ : Z := 250.

Inductive bug : Set :=
  | NegativeCount | CountOverflow | CountUnderflow | LockUnderflow
  | AtomicSchedule | NonBlocking | IdleSleeps
  | NotRunning | InvalidSleep | NotAtomic | NotMigrationDisabled.

(** What happens, in order. [Switch]: [__schedule], with the count it finds. *)
Inductive event : Set :=
  | Switch (preempt : bool) (count : Z)
  | Bug (b : bug)
  | PreemptOff
  | PreemptOn
  | WqSleeping | IoSleeping | WqRunning | IoRunning
  | FlushPlug
  | YieldTask
  | SpinLock | SpinUnlock | CpuRelax.

(** The current task and its processor. [noise]: whether TIF_NEED_RESCHED is
    set again when the task comes back from each of the coming calls of
    [__schedule]. *)
Record state := State {
  preempt_count : Z;
  irqs_disabled : bool;
  need_resched : bool;
  tstate : Z;
  non_block_count : Z;
  wq_worker : bool;
  io_worker : bool;
  pi_blocked : bool;
  plugged : bool;
  in_iowait : bool;
  oops_in_progress : bool;
  noise : list bool;
  trace : list event;
}.

Definition with_count (v : Z) (s : state) : state :=
  State v (irqs_disabled s) (need_resched s) (tstate s) (non_block_count s) (wq_worker s) (io_worker s) (pi_blocked s) (plugged s) (in_iowait s)
    (oops_in_progress s) (noise s) (trace s).
Definition with_irqs (v : bool) (s : state) : state :=
  State (preempt_count s) v (need_resched s) (tstate s) (non_block_count s) (wq_worker s) (io_worker s) (pi_blocked s) (plugged s) (in_iowait s)
    (oops_in_progress s) (noise s) (trace s).
Definition with_tstate (v : Z) (s : state) : state :=
  State (preempt_count s) (irqs_disabled s) (need_resched s) v (non_block_count s) (wq_worker s) (io_worker s) (pi_blocked s) (plugged s) (in_iowait s)
    (oops_in_progress s) (noise s) (trace s).
Definition with_plugged (v : bool) (s : state) : state :=
  State (preempt_count s) (irqs_disabled s) (need_resched s) (tstate s) (non_block_count s) (wq_worker s) (io_worker s) (pi_blocked s) v (in_iowait s)
    (oops_in_progress s) (noise s) (trace s).
Definition with_iowait (v : bool) (s : state) : state :=
  State (preempt_count s) (irqs_disabled s) (need_resched s) (tstate s) (non_block_count s) (wq_worker s) (io_worker s) (pi_blocked s) (plugged s) v
    (oops_in_progress s) (noise s) (trace s).
Definition emit (e : event) (s : state) : state :=
  State (preempt_count s) (irqs_disabled s) (need_resched s) (tstate s) (non_block_count s) (wq_worker s) (io_worker s) (pi_blocked s) (plugged s) (in_iowait s)
    (oops_in_progress s) (noise s) (trace s ++ [e]).

(** * The preemption count *)

Definition __preempt_count_add (val : Z) (s : state) : state := with_count (wrap32 (preempt_count s + val)) s.
Definition __preempt_count_sub (val : Z) (s : state) : state := with_count (wrap32 (preempt_count s - val)) s.

(** [DEBUG_LOCKS_WARN_ON]: is it reported? *)
Definition warns (c : bool) (s : state) : bool := negb (oops_in_progress s) && c.

Definition preempt_latency_start (val : Z) (s : state) : state := if preempt_count s =? val then emit PreemptOff s else s.
Definition preempt_latency_stop (val : Z) (s : state) : state := if preempt_count s =? val then emit PreemptOn s else s.

Definition preempt_count_add (val : Z) (s : state) : state :=
  if warns (preempt_count s <? 0) s then emit (Bug NegativeCount) s
  else
    let s := __preempt_count_add val s in
    let s := if warns (PREEMPT_MASK - 10 <=? Z.land (preempt_count s) PREEMPT_MASK) s then emit (Bug CountOverflow) s else s in
    preempt_latency_start val s.

Definition preempt_count_sub (val : Z) (s : state) : state :=
  if warns (preempt_count s <? val) s then emit (Bug CountUnderflow) s
  else if warns ((val <? PREEMPT_MASK) && (Z.land (preempt_count s) PREEMPT_MASK =? 0)) s then emit (Bug LockUnderflow) s
  else __preempt_count_sub val (preempt_latency_stop val s).

Definition preempt_disable (s : state) : state := preempt_count_add 1 s.
Definition preempt_enable_no_resched (s : state) : state := preempt_count_sub 1 s.
Definition preempt_disable_notrace (s : state) : state := __preempt_count_add 1 s.
Definition preempt_enable_no_resched_notrace (s : state) : state := __preempt_count_sub 1 s.
Definition preemptible (s : state) : bool := (preempt_count s =? 0) && negb (irqs_disabled s).
Definition should_resched (offset : Z) (s : state) : bool := (preempt_count s =? offset) && need_resched s.

(** * [__schedule], for the task that calls it *)

Definition in_atomic_preempt_off (s : state) : bool := negb (preempt_count s =? PREEMPT_DISABLE_OFFSET).
Definition __schedule_bug (s : state) : state := if oops_in_progress s then s else emit (Bug AtomicSchedule) s.
Definition schedule_debug (preempt : bool) (s : state) : state :=
  let s := if negb preempt && negb (tstate s =? TASK_RUNNING) && negb (non_block_count s =? 0) then emit (Bug NonBlocking) s else s in
  if in_atomic_preempt_off s then with_count PREEMPT_DISABLED (__schedule_bug s) else s.

(** A task that slept runs again when it comes back. *)
Definition __schedule (preempt : bool) (s : state) : state :=
  let s := schedule_debug preempt s in
  let s := emit (Switch preempt (preempt_count s)) s in
  State (preempt_count s) (irqs_disabled s) (hd false (noise s)) (if preempt then tstate s else TASK_RUNNING) (non_block_count s) (wq_worker s) (io_worker s)
    (pi_blocked s) (plugged s) (in_iowait s) (oops_in_progress s) (tl (noise s)) (trace s).

(** [do body while (need_resched())]. *)
Fixpoint while_need_resched (fuel : nat) (body : state → state) (s : state) : res state :=
  match fuel with
  | O => Undef Diverges
  | S fuel => let s := body s in if need_resched s then while_need_resched fuel body s else Ok s
  end.
Definition rescheduling (body : state → state) (s : state) : res state := while_need_resched (S (length (noise s))) body s.

(** * The ways into it *)

Definition sched_submit_work (s : state) : state :=
  if tstate s =? TASK_RUNNING then s
  else
    let s :=
      if wq_worker s || io_worker s then
        let s := preempt_disable s in
        let s := if wq_worker s then emit WqSleeping s else emit IoSleeping s in
        preempt_enable_no_resched s
      else s in
    if pi_blocked s then s else if plugged s then with_plugged false (emit FlushPlug s) else s.

Definition sched_update_worker (s : state) : state :=
  if wq_worker s || io_worker s then if wq_worker s then emit WqRunning s else emit IoRunning s else s.

Definition schedule (s : state) : res state :=
  s ← rescheduling (λ s, preempt_enable_no_resched (__schedule false (preempt_disable s))) (sched_submit_work s);
  Ok (sched_update_worker s).

Definition schedule_idle (s : state) : res state :=
  rescheduling (__schedule false) (if tstate s =? TASK_RUNNING then s else emit (Bug IdleSleeps) s).

Definition schedule_preempt_disabled (s : state) : res state :=
  s ← schedule (preempt_enable_no_resched s); Ok (preempt_disable s).

Definition preempt_schedule_common (s : state) : res state :=
  rescheduling (λ s, preempt_enable_no_resched_notrace (preempt_latency_stop 1 (__schedule true (preempt_latency_start 1 (preempt_disable_notrace s))))) s.

Definition preempt_schedule (s : state) : res state := if negb (preemptible s) then Ok s else preempt_schedule_common s.

(** Without context tracking [exception_enter] does nothing. *)
Definition preempt_schedule_notrace (s : state) : res state := if negb (preemptible s) then Ok s else preempt_schedule_common s.

Definition preempt_schedule_irq (s : state) : res state :=
  if negb (preempt_count s =? 0) || negb (irqs_disabled s) then Undef BugOn
  else rescheduling (λ s, preempt_enable_no_resched (with_irqs true (__schedule true (with_irqs false (preempt_disable s))))) s.

Definition preempt_enable (s : state) : res state :=
  let s := preempt_count_sub 1 s in if should_resched 0 s then preempt_schedule s else Ok s.

Definition spin_lock (s : state) : state := emit SpinLock (preempt_disable s).
Definition spin_unlock (s : state) : res state := preempt_enable (emit SpinUnlock s).

(** [yield_task] of the class is called with the run queue locked. *)
Definition do_sched_yield (s : state) : res state :=
  let s := spin_lock (with_irqs true s) in
  let s := emit YieldTask s in
  let s := preempt_disable s in
  s ← preempt_enable (with_irqs false (emit SpinUnlock s));
  schedule (preempt_enable_no_resched s).
Definition yield (s : state) : res state := do_sched_yield (with_tstate TASK_RUNNING s).

(** The value is the return value. *)
Definition __cond_resched_lock (spin_needbreak : bool) (s : state) : res (Z * state) :=
  let resched := should_resched PREEMPT_LOCK_OFFSET s in
  if spin_needbreak || resched then
    s ← spin_unlock s;
    s ← (if resched then preempt_schedule_common s else Ok (emit CpuRelax s));
    Ok (1, spin_lock s)
  else Ok (0, s).

Definition io_schedule_prepare (s : state) : bool * state :=
  let old_iowait := in_iowait s in
  let s := with_iowait true s in
  (old_iowait, if plugged s then with_plugged false (emit FlushPlug s) else s).
Definition io_schedule_finish (token : bool) (s : state) : state := with_iowait token s.
Definition io_schedule (s : state) : res state :=
  let '(token, s) := io_schedule_prepare s in s ← schedule s; Ok (io_schedule_finish token s).

(** * Code that must, and must not, sleep *)

(** The time of the last report of a check, 0 before the first one; a report
    within HZ of the last one is left out. *)
Definition reported (b : bug) (jiffies prev_jiffy : Z) (s : state) : Z * state :=
  if (wrap64 (jiffies - (prev_jiffy + HZ)) <? 0) && negb (prev_jiffy =? 0) then (prev_jiffy, s) else (jiffies, emit (Bug b) s).

(** [system_running]: neither booting nor going down. *)
Definition may_sleep (preempt_offset rcu_depth : Z) (idle system_running : bool) (s : state) : bool :=
  (preempt_count s + rcu_depth =? preempt_offset) && negb (irqs_disabled s) && negb idle && (non_block_count s =? 0) ||
  negb system_running || oops_in_progress s.
Definition ___might_sleep (preempt_offset rcu_depth : Z) (idle system_running : bool) (jiffies prev_jiffy : Z) (s : state) : Z * state :=
  if may_sleep preempt_offset rcu_depth idle system_running s then (prev_jiffy, s) else reported InvalidSleep jiffies prev_jiffy s.
Definition __cant_sleep (preempt_offset jiffies prev_jiffy : Z) (s : state) : Z * state :=
  if irqs_disabled s then (prev_jiffy, s)
  else if preempt_offset <? preempt_count s then (prev_jiffy, s)
  else reported NotAtomic jiffies prev_jiffy s.
Definition __cant_migrate (migration_disabled : bool) (jiffies prev_jiffy : Z) (s : state) : Z * state :=
  if irqs_disabled s then (prev_jiffy, s)
  else if migration_disabled then (prev_jiffy, s)
  else if 0 <? preempt_count s then (prev_jiffy, s)
  else reported NotMigrationDisabled jiffies prev_jiffy s.

(** * All ways in *)

Inductive entry : Set :=
  | Schedule | ScheduleIdle | SchedulePreemptDisabled | PreemptSchedule | PreemptScheduleNotrace | PreemptScheduleIrq
  | Yield | IoSchedule | CondReschedLock (spin_needbreak : bool).

Definition call (e : entry) (s : state) : res state :=
  match e with
  | Schedule => schedule s
  | ScheduleIdle => schedule_idle s
  | SchedulePreemptDisabled => schedule_preempt_disabled s
  | PreemptSchedule => preempt_schedule s
  | PreemptScheduleNotrace => preempt_schedule_notrace s
  | PreemptScheduleIrq => preempt_schedule_irq s
  | Yield => yield s
  | IoSchedule => io_schedule s
  | CondReschedLock spin_needbreak => '(_, s) ← __cond_resched_lock spin_needbreak s; Ok s
  end.
