(* ===== verification/PreemptProofs.v ===== *)
(** What Preempt promises: the ways into the scheduler end, keep the
    preemption count, and switch exactly as often as they are asked to, with
    preemption disabled once. *)
From S2P Require Import Prelude Preempt.
Local Open Scope Z_scope.

Implicit Types (s : state) (n c : Z).

(** * Traces *)

(** No bug is reported, and [__schedule] is called with the count 1. *)
Definition good (e : event) : Prop := match e with Bug _ => False | Switch _ c => c = 1 | _ => True end.
Definition extends s s' : Prop := ∃ l, trace s' = trace s ++ l ∧ Forall good l.
Definition is_switch (e : event) : bool := match e with Switch _ _ => true | _ => false end.
Definition switches s : nat := length (filter is_switch (trace s)).

#[global] Instance extends_preorder : PreOrder extends.
Proof.
  split; [intros s; exists []; by rewrite app_nil_r|]. intros s t u (l & E & H) (l' & E' & H'). exists (l ++ l').
  rewrite E', E, app_assoc. split; [done|by apply Forall_app].
Qed.
Lemma extends_emit e s s' : good e → trace s' = trace s ++ [e] → extends s s'.
Proof. intros He E. exists [e]. split; [done|by constructor]. Qed.
Lemma extends_same s s' : trace s' = trace s → extends s s'.
Proof. intros E. exists []. by rewrite app_nil_r. Qed.
Create HintDb traces.
#[export] Hint Resolve extends_same : traces.

(** * The count *)

Lemma land_mask c : 0 ≤ c < 256 → Z.land c PREEMPT_MASK = c.
Proof. intros. change PREEMPT_MASK with (Z.ones 8). rewrite Z.land_ones by lia. by apply Z.mod_small. Qed.

(** A section without preemption begins and ends without a report. *)
Lemma disable_spec s : 0 ≤ preempt_count s < 200 →
  preempt_disable s = (if preempt_count s =? 0 then emit PreemptOff else id) (with_count (preempt_count s + 1) s).
Proof.
  intros Hc. unfold preempt_disable, preempt_count_add, warns. destruct (Z.ltb_spec (preempt_count s) 0); [lia|]. rewrite andb_false_r.
  unfold __preempt_count_add. rewrite wrap32_small by (unfold int32; lia). cbv zeta. cbn [preempt_count with_count].
  rewrite land_mask by lia. destruct (Z.leb_spec (PREEMPT_MASK - 10) (preempt_count s + 1)) as [Hl|]; [unfold PREEMPT_MASK in Hl; lia|]. rewrite andb_false_r.
  unfold preempt_latency_start. cbn [preempt_count with_count].
  destruct (Z.eqb_spec (preempt_count s + 1) 1), (Z.eqb_spec (preempt_count s) 0); try lia; done.
Qed.
Lemma enable_spec s : 1 ≤ preempt_count s < 200 →
  preempt_enable_no_resched s = with_count (preempt_count s - 1) ((if preempt_count s =? 1 then emit PreemptOn else id) s).
Proof.
  intros Hc. unfold preempt_enable_no_resched, preempt_count_sub, warns. destruct (Z.ltb_spec (preempt_count s) 1); [lia|].
  rewrite land_mask by lia. destruct (Z.eqb_spec (preempt_count s) 0); [lia|]. rewrite !andb_false_r.
  unfold __preempt_count_sub, preempt_latency_stop.
  destruct (preempt_count s =? 1); cbn [preempt_count emit with_count id]; by rewrite wrap32_small by (unfold int32; lia).
Qed.

(** * Loops *)

(** How often a loop calls [__schedule]. *)
Fixpoint rounds (noise : list bool) : nat := match noise with true :: noise => S (rounds noise) | _ => 1 end.

Lemma rounds_pos l : (1 ≤ rounds l)%nat.
Proof. destruct l as [|[] l]; simpl; lia. Qed.

(** What a body of such a loop does. *)
Definition body_ok (P : state → Prop) (body : state → state) : Prop := ∀ s, P s →
  P (body s) ∧ noise (body s) = tl (noise s) ∧ need_resched (body s) = hd false (noise s) ∧ switches (body s) = S (switches s).

Lemma loop_spec (P Q : state → Prop) body s : Q s →
  (∀ s, Q s → P (body s) ∧ noise (body s) = tl (noise s) ∧ need_resched (body s) = hd false (noise s) ∧ switches (body s) = S (switches s)) →
  body_ok P body →
  ∃ s', rescheduling body s = Ok s' ∧ P s' ∧ need_resched s' = false ∧ switches s' = (switches s + rounds (noise s))%nat ∧
    noise s' = drop (rounds (noise s)) (noise s).
Proof.
  intros Hq Hfirst Hbody. unfold rescheduling. cbn [while_need_resched]. cbv zeta. destruct (Hfirst s Hq) as (Hp & Hn & Hr & Hs).
  assert (∀ l t, P t → noise t = l → need_resched t = true → ∃ s', while_need_resched (S (length l)) body t = Ok s' ∧ P s' ∧ need_resched s' = false ∧
    switches s' = (switches t + rounds l)%nat ∧ noise s' = drop (rounds l) l) as K.
  { induction l as [|b l IH]; intros t Ht El _; cbn [while_need_resched length]; cbv zeta;
      destruct (Hbody t Ht) as (Hp' & Hn' & Hr' & Hs'); rewrite El in *; simpl in Hn', Hr'; rewrite Hr'.
    - eexists. split; [done|]. split_and!; try done. rewrite Hs'. simpl. lia.
    - destruct b; simpl.
      + destruct (IH _ Hp' Hn' Hr') as (s' & E & ? & ? & Es & ?). simpl in E. exists s'. split; [exact E|]. split_and!; try done. rewrite Es, Hs'. lia.
      + eexists. split; [done|]. split_and!; try done. rewrite Hs'. lia. }
  rewrite Hr. destruct (noise s) as [|b l]; simpl in *.
  - eexists. split; [done|]. split_and!; try done. rewrite Hs. lia.
  - destruct b; simpl.
    + destruct (K l _ Hp Hn Hr) as (s' & E & ? & ? & Es & ?). exists s'. split; [exact E|]. split_and!; try done. rewrite Es, Hs. lia.
    + eexists. split; [done|]. split_and!; try done. rewrite Hs. lia.
Qed.

(** * The bodies of the loops *)

(** Nothing but good events is added, and the task is as before. *)
Record kept s s' : Prop := {
  k_irqs : irqs_disabled s' = irqs_disabled s;
  k_non_block : non_block_count s' = non_block_count s;
  k_wq : wq_worker s' = wq_worker s;
  k_io : io_worker s' = io_worker s;
  k_extends : extends s s';
}.
Lemma kept_same s s' : irqs_disabled s' = irqs_disabled s → non_block_count s' = non_block_count s → wq_worker s' = wq_worker s →
  io_worker s' = io_worker s → trace s' = trace s → kept s s'.
Proof. intros. split; try done. by apply extends_same. Qed.
#[global] Instance kept_preorder : PreOrder kept.
Proof. split; [intros s; by apply kept_same|]. intros s t u [] []. split; try congruence. by transitivity t. Qed.

(** A call of [__schedule] with preemption disabled once. *)
Record switched s s' : Prop := {
  w_kept : kept s s';
  w_noise : noise s' = tl (noise s);
  w_need : need_resched s' = hd false (noise s);
  w_switches : switches s' = S (switches s);
}.

Lemma switches_app s s' l : trace s' = trace s ++ l → switches s' = (switches s + length (filter is_switch l))%nat.
Proof. intros E. unfold switches. by rewrite E, filter_app, length_app. Qed.

Lemma schedule_spec p s : preempt_count s = 1 → non_block_count s = 0 → switched s (__schedule p s) ∧ preempt_count (__schedule p s) = 1 ∧
  tstate (__schedule p s) = (if p then tstate s else TASK_RUNNING).
Proof.
  intros Hc Hn. unfold __schedule, schedule_debug, in_atomic_preempt_off, PREEMPT_DISABLE_OFFSET. rewrite Hn. rewrite Z.eqb_refl, !andb_false_r, Hc.
  cbv zeta. cbn [negb Z.eqb Pos.eqb]. split; [|done]. split; try done.
  - split; try done. by apply (extends_emit (Switch p 1)); [|simpl; rewrite Hc].
  - by rewrite (switches_app s _ [Switch p 1]) by (simpl; by rewrite Hc); rewrite Nat.add_1_r.
Qed.

Lemma disable_kept s : 0 ≤ preempt_count s < 200 → kept s (preempt_disable s) ∧ preempt_count (preempt_disable s) = preempt_count s + 1 ∧
  noise (preempt_disable s) = noise s ∧ need_resched (preempt_disable s) = need_resched s ∧ tstate (preempt_disable s) = tstate s ∧
  plugged (preempt_disable s) = plugged s ∧ pi_blocked (preempt_disable s) = pi_blocked s ∧ switches (preempt_disable s) = switches s.
Proof.
  intros Hc. rewrite disable_spec by done. destruct (preempt_count s =? 0); simpl; split_and!; try done; try (split; try done; by apply extends_same).
  - split; try done. by apply (extends_emit PreemptOff).
  - by rewrite (switches_app s _ [PreemptOff]); [rewrite Nat.add_0_r|].
Qed.
Lemma enable_kept s : 1 ≤ preempt_count s < 200 → kept s (preempt_enable_no_resched s) ∧ preempt_count (preempt_enable_no_resched s) = preempt_count s - 1 ∧
  noise (preempt_enable_no_resched s) = noise s ∧ need_resched (preempt_enable_no_resched s) = need_resched s ∧
  tstate (preempt_enable_no_resched s) = tstate s ∧ plugged (preempt_enable_no_resched s) = plugged s ∧
  pi_blocked (preempt_enable_no_resched s) = pi_blocked s ∧ switches (preempt_enable_no_resched s) = switches s.
Proof.
  intros Hc. rewrite enable_spec by done. destruct (preempt_count s =? 1); simpl; split_and!; try done; try (split; try done; by apply extends_same).
  - split; try done. by apply (extends_emit PreemptOn).
  - by rewrite (switches_app s _ [PreemptOn]); [rewrite Nat.add_0_r|].
Qed.

Lemma switched_around s t u v : kept s t → switched t u → kept u v → noise t = noise s → noise v = noise u → need_resched v = need_resched u →
  switches t = switches s → switches v = switches u → switched s v.
Proof. intros K1 [K2 E1 E2 E3] K3 F1 F2 F3 F4 F5. split; try congruence. by do 2 (etransitivity; [done|]). Qed.

(** The body of [schedule]. *)
Lemma schedule_body s : preempt_count s = 0 → non_block_count s = 0 →
  let s' := preempt_enable_no_resched (__schedule false (preempt_disable s)) in
  switched s s' ∧ preempt_count s' = 0 ∧ tstate s' = TASK_RUNNING.
Proof.
  intros Hc Hn. destruct (disable_kept s) as (K1 & C1 & N1 & R1 & T1 & _ & _ & S1); [lia|].
  destruct (schedule_spec false (preempt_disable s)) as (K2 & C2 & T2); [lia|by rewrite (k_non_block _ _ K1)|].
  destruct (enable_kept (__schedule false (preempt_disable s))) as (K3 & C3 & N3 & R3 & T3 & _ & _ & S3); [lia|].
  split; [by eapply switched_around|]. split; [lia|by rewrite T3, T2].
Qed.

(** The body of [preempt_schedule_common]: the latency is stopped with the
    count still 1. *)
Lemma latency_kept (b : bool) v s : let s' := if b then preempt_latency_start v s else preempt_latency_stop v s in
  kept s s' ∧ preempt_count s' = preempt_count s ∧ noise s' = noise s ∧ need_resched s' = need_resched s ∧ switches s' = switches s.
Proof.
  destruct b; simpl; unfold preempt_latency_start, preempt_latency_stop; destruct (preempt_count s =? v); split_and!; try done.
  - split; try done. by apply (extends_emit PreemptOff).
  - by rewrite (switches_app s _ [PreemptOff]); [rewrite Nat.add_0_r|].
  - split; try done. by apply (extends_emit PreemptOn).
  - by rewrite (switches_app s _ [PreemptOn]); [rewrite Nat.add_0_r|].
Qed.

Lemma preempt_body s : preempt_count s = 0 → non_block_count s = 0 →
  let s' := preempt_enable_no_resched_notrace (preempt_latency_stop 1 (__schedule true (preempt_latency_start 1 (preempt_disable_notrace s)))) in
  switched s s' ∧ preempt_count s' = 0.
Proof.
  intros Hc Hn. set (a := preempt_disable_notrace s).
  assert (kept s a) as K0 by by apply kept_same. assert (preempt_count a = 1) as C0 by (unfold a, preempt_disable_notrace, __preempt_count_add; simpl; by rewrite Hc).
  destruct (latency_kept true 1 a) as (K1 & C1 & N1 & R1 & S1). set (b := preempt_latency_start 1 a) in *.
  destruct (schedule_spec true b) as (K2 & C2 & _); [lia|by rewrite (k_non_block _ _ K1), (k_non_block _ _ K0)|]. set (c := __schedule true b) in *.
  destruct (latency_kept false 1 c) as (K3 & C3 & N3 & R3 & S3). set (d := preempt_latency_stop 1 c) in *.
  assert (kept d (preempt_enable_no_resched_notrace d)) as K4 by by apply kept_same. cbv zeta. split.
  - apply (switched_around s b c); try done; by etransitivity.
  - unfold preempt_enable_no_resched_notrace, __preempt_count_sub. simpl. rewrite C3, C2. done.
Qed.


(** * The ways in *)

(** After a loop that began with the count [c]. *)
Record after_loop c s s' : Prop := {
  a_kept : kept s s';
  a_count : preempt_count s' = c;
  a_need : need_resched s' = false;
  a_switches : switches s' = (switches s + rounds (noise s))%nat;
  a_noise : noise s' = drop (rounds (noise s)) (noise s);
}.

Lemma loop_after body c s (Q : state → Prop) : Q s → non_block_count s = 0 → preempt_count s = c →
  (∀ t, preempt_count t = c → non_block_count t = 0 → irqs_disabled t = irqs_disabled s → switched t (body t) ∧ preempt_count (body t) = c ∧ Q (body t)) →
  ∃ s', rescheduling body s = Ok s' ∧ after_loop c s s' ∧ Q s'.
Proof.
  intros Hq Hn Hc Hb. set (P t := kept s t ∧ preempt_count t = c ∧ Q t).
  assert (body_ok P body) as HP.
  { intros t (K & C & _). destruct (Hb t C) as ([K' ? ? ?] & ? & ?); [by rewrite (k_non_block _ _ K)|apply K|].
    split; [|done]. split; [by transitivity t|done]. }
  destruct (loop_spec P P body s) as (s' & E & (K & C & HQ) & R & Sw & No); [by split|exact HP|exact HP|]. exists s'. by split.
Qed.

Lemma submit_spec s : 0 ≤ preempt_count s < 100 →
  kept s (sched_submit_work s) ∧ preempt_count (sched_submit_work s) = preempt_count s ∧ noise (sched_submit_work s) = noise s ∧
  switches (sched_submit_work s) = switches s ∧ (tstate s = TASK_RUNNING → sched_submit_work s = s).
Proof.
  intros Hc. unfold sched_submit_work. destruct (Z.eqb_spec (tstate s) TASK_RUNNING); [done|]. cbv zeta.
  set (t := if wq_worker s || io_worker s then _ else s).
  assert (kept s t ∧ preempt_count t = preempt_count s ∧ noise t = noise s ∧ switches t = switches s) as (K & C & N & Sw).
  { subst t. destruct (wq_worker s || io_worker s); [|done]. destruct (disable_kept s) as (K1 & C1 & N1 & _ & _ & _ & _ & S1); [lia|].
    set (a := preempt_disable s) in *. set (b := if wq_worker a then emit WqSleeping a else emit IoSleeping a).
    assert (kept a b ∧ preempt_count b = preempt_count a ∧ noise b = noise a ∧ switches b = switches a) as (K2 & C2 & N2 & S2).
    { subst b. destruct (wq_worker a); split_and!; try done.
      - split; try done. by apply (extends_emit WqSleeping).
      - by rewrite (switches_app a _ [WqSleeping]); [rewrite Nat.add_0_r|].
      - split; try done. by apply (extends_emit IoSleeping).
      - by rewrite (switches_app a _ [IoSleeping]); [rewrite Nat.add_0_r|]. }
    destruct (enable_kept b) as (K3 & C3 & N3 & _ & _ & _ & _ & S3); [lia|].
    split; [by do 2 (etransitivity; [done|])|]. split; [lia|]. split; [congruence|lia]. }
  destruct (pi_blocked t); [by split_and!|]. destruct (plugged t); [|by split_and!]. split_and!; try done.
  - etransitivity; [exact K|]. split; try done. by apply (extends_emit FlushPlug).
  - simpl. rewrite <- Sw. by rewrite (switches_app t (with_plugged false (emit FlushPlug t)) [FlushPlug]); [rewrite Nat.add_0_r|].
Qed.

Lemma update_spec s : kept s (sched_update_worker s) ∧ preempt_count (sched_update_worker s) = preempt_count s ∧
  need_resched (sched_update_worker s) = need_resched s ∧ switches (sched_update_worker s) = switches s ∧ tstate (sched_update_worker s) = tstate s.
Proof.
  unfold sched_update_worker. destruct (wq_worker s || io_worker s); [|done]. destruct (wq_worker s); split_and!; try done.
  - split; try done. by apply (extends_emit WqRunning).
  - by rewrite (switches_app s _ [WqRunning]); [rewrite Nat.add_0_r|].
  - split; try done. by apply (extends_emit IoRunning).
  - by rewrite (switches_app s _ [IoRunning]); [rewrite Nat.add_0_r|].
Qed.


Lemma preempt_common_ok s : preempt_count s = 0 → non_block_count s = 0 → ∃ s', preempt_schedule_common s = Ok s' ∧ after_loop 0 s s'.
Proof.
  intros Hc Hn. destruct (loop_after (λ s, preempt_enable_no_resched_notrace (preempt_latency_stop 1 (__schedule true (preempt_latency_start 1 (preempt_disable_notrace s)))))
    0 s (λ _, True)) as (s' & E & A & _); try done; [|by exists s'].
  intros t Ht Hnt _. by destruct (preempt_body t Ht Hnt).
Qed.

Lemma emit_kept e s : good e → kept s (emit e s).
Proof. intros He. split; try done. by apply (extends_emit e). Qed.

(** ** The end of a spinlock *)

Lemma preempt_schedule_ok s : 0 ≤ preempt_count s → non_block_count s = 0 →
  ∃ s', preempt_schedule s = Ok s' ∧ if preemptible s then after_loop 0 s s' else s' = s.
Proof.
  intros Hc Hn. unfold preempt_schedule. destruct (preemptible s) eqn:E; simpl; [|by eexists].
  unfold preemptible in E. apply andb_prop in E as [E%Z.eqb_eq _]. by apply preempt_common_ok.
Qed.

Lemma preempt_enable_ok s : 1 ≤ preempt_count s < 100 → non_block_count s = 0 →
  ∃ s', preempt_enable s = Ok s' ∧ kept s s' ∧ preempt_count s' = preempt_count s - 1 ∧
    (if (preempt_count s =? 1) && need_resched s && negb (irqs_disabled s) then need_resched s' = false ∧ switches s' = (switches s + rounds (noise s))%nat ∧ noise s' = drop (rounds (noise s)) (noise s)
     else need_resched s' = need_resched s ∧ noise s' = noise s ∧ switches s' = switches s).
Proof.
  intros Hc Hn. unfold preempt_enable. change (preempt_count_sub 1 s) with (preempt_enable_no_resched s).
  destruct (enable_kept s) as (K & C & N & R & _ & _ & _ & Sw); [lia|]. set (a := preempt_enable_no_resched s) in *. cbv zeta.
  assert (∀ x : bool, (preempt_count a =? 0) = (preempt_count s =? 1)) as Ec by (intros _; rewrite C; destruct (Z.eqb_spec (preempt_count s) 1), (Z.eqb_spec (preempt_count s - 1) 0); lia).
  destruct (preempt_schedule_ok a) as (t & E & H); [lia|by rewrite (k_non_block _ _ K)|].
  unfold should_resched. rewrite (Ec true), R. destruct ((preempt_count s =? 1) && need_resched s) eqn:Eb; simpl; [|by exists a].
  exists t. split; [done|]. apply andb_prop in Eb as [E1 E2]. unfold preemptible in H. rewrite (Ec true), E1, (k_irqs _ _ K) in H.
  destruct (irqs_disabled s); simpl in H; simpl.
  - subst t. by split_and!.
  - destruct H as [K' C' R' S' No']. split; [by transitivity a|]. split; [apply Z.eqb_eq in E1; lia|]. split; [done|split; congruence].
Qed.

(** ** All ways in *)

(** How often an entry calls [__schedule]: once, and once more for each time that
    TIF_NEED_RESCHED is set again meanwhile; not at all where preemption is not
    possible or nothing is asked for; and [__cond_resched_lock] in two loops,
    the first one in the unlocking. *)
Definition turns (e : entry) s : nat :=
  match e with
  | PreemptSchedule | PreemptScheduleNotrace => if preemptible s then rounds (noise s) else 0
  | CondReschedLock _ =>
      if should_resched 1 s then
        if irqs_disabled s then rounds (noise s)
        else rounds (noise s) + rounds (drop (rounds (noise s)) (noise s))
      else 0
  | _ => rounds (noise s)
  end.



Lemma cond_ok b s : 1 ≤ preempt_count s < 90 → non_block_count s = 0 →
  ∃ r s', __cond_resched_lock b s = Ok (r, s') ∧ kept s s' ∧ preempt_count s' = preempt_count s ∧
    r = (if b || should_resched 1 s then 1 else 0) ∧
    switches s' = (switches s + turns (CondReschedLock b) s)%nat ∧ (should_resched 1 s = true → need_resched s' = false).
Proof.
  intros Hc Hn. unfold __cond_resched_lock. change (should_resched PREEMPT_LOCK_OFFSET s) with (should_resched 1 s).
  destruct (should_resched 1 s) eqn:Er; rewrite ?orb_true_r, ?orb_false_r.
  - unfold spin_unlock. set (u := emit SpinUnlock s). unfold should_resched in Er. apply andb_prop in Er as [E1%Z.eqb_eq E2].
    assert (switches u = switches s) as Su by (by rewrite (switches_app s u [SpinUnlock]); [rewrite Nat.add_0_r|]).
    destruct (preempt_enable_ok u) as (t & Et & K1 & C1 & H1); [change (1 ≤ preempt_count s < 100); lia|exact Hn|]. rewrite Et. cbn [mbind res_bind].
    change (preempt_count u) with (preempt_count s) in *. change (need_resched u) with (need_resched s) in H1. change (irqs_disabled u) with (irqs_disabled s) in H1.
    assert (should_resched 1 s = true) as Hs by (unfold should_resched; by rewrite E1, E2).
    rewrite E1, E2 in H1. assert (kept s t) as Kst by (transitivity u; [by apply emit_kept|done]).
    destruct (preempt_common_ok t) as (v & Ev & [K2 C2 R2 S2 No2]); [lia|by rewrite (k_non_block _ _ Kst)|]. rewrite Ev. cbn [mbind res_bind].
    destruct (disable_kept v) as (K3 & C3 & N3 & R3 & _ & _ & _ & S3); [lia|]. eexists _, _. split; [done|]. unfold spin_lock.
    split; [transitivity t; [done|]; transitivity v; [done|]; transitivity (preempt_disable v); [done|by apply emit_kept]|].
    split; [change (preempt_count (preempt_disable v) = preempt_count s); lia|]. split; [done|].
    split; [|intros _; change (need_resched (preempt_disable v) = false); congruence].
    rewrite (switches_app (preempt_disable v) (emit SpinLock (preempt_disable v)) [SpinLock]) by done. rewrite S3, S2.
    change (noise u) with (noise s) in H1. simpl. rewrite Hs, Nat.add_0_r. destruct (irqs_disabled s).
    + destruct H1 as (_ & -> & ->). by rewrite Su.
    + destruct H1 as (_ & -> & ->). rewrite Su. lia.
  - destruct b; [|exists 0, s; cbn [turns]; rewrite Er, Nat.add_0_r; by split_and!].
    unfold spin_unlock. set (u := emit SpinUnlock s).
    assert (switches u = switches s) as Su by (by rewrite (switches_app s u [SpinUnlock]); [rewrite Nat.add_0_r|]).
    destruct (preempt_enable_ok u) as (t & Et & K1 & C1 & H1); [change (1 ≤ preempt_count s < 100); lia|exact Hn|]. rewrite Et. cbn [mbind res_bind].
    change (preempt_count u) with (preempt_count s) in *. change (need_resched u) with (need_resched s) in H1.
    unfold should_resched in Er. rewrite Er in H1. simpl in H1. destruct H1 as (R1 & N1 & S1).
    destruct (disable_kept (emit CpuRelax t)) as (K3 & C3 & N3 & R3 & _ & _ & _ & S3); [change (0 ≤ preempt_count t < 200); lia|].
    eexists _, _. split; [done|]. unfold spin_lock.
    split; [transitivity u; [by apply emit_kept|]; transitivity t; [done|]; transitivity (emit CpuRelax t); [by apply emit_kept|];
      transitivity (preempt_disable (emit CpuRelax t)); [done|by apply emit_kept]|].
    split; [change (preempt_count (preempt_disable (emit CpuRelax t)) = preempt_count s); rewrite C3; change (preempt_count t + 1 = preempt_count s); lia|]. split; [done|].
    split; [|done]. cbn [turns]. unfold should_resched. rewrite Er, Nat.add_0_r.
    rewrite (switches_app (preempt_disable (emit CpuRelax t)) _ [SpinLock]) by done. rewrite S3, (switches_app t (emit CpuRelax t) [CpuRelax]) by done.
    simpl. lia.
Qed.


(** * Properties *)


(** [__cond_resched_lock], whose comment says that [schedule] is not called
    twice, calls it twice when the lock is the only one: [spin_unlock] gives way
    already. *)
Theorem cond_resched_lock_schedules_twice b s : preempt_count s = 1 → non_block_count s = 0 → irqs_disabled s = false →
  need_resched s = true → ∃ s', __cond_resched_lock b s = Ok (1, s') ∧ (switches s + 2 ≤ switches s')%nat.
Proof.
  intros Hc Hn Hi Hr. destruct (cond_ok b s) as (r & s' & E & _ & _ & Er & Sw & _); [lia|done|]. exists s'.
  assert (should_resched 1 s = true) as Hs by (unfold should_resched; by rewrite Hc, Hr).
  rewrite Hs, orb_true_r in Er. subst r. split; [done|]. rewrite Sw. cbn [turns]. rewrite Hs, Hi.
  pose proof (rounds_pos (noise s)). pose proof (rounds_pos (drop (rounds (noise s)) (noise s))). lia.
Qed.

(** A task that calls [schedule] with preemption disabled is reported, and
    the count of its caller is lost: it comes back with preemption enabled. *)
Theorem schedule_while_atomic s : 1 ≤ preempt_count s < 90 → non_block_count s = 0 → oops_in_progress s = false →
  ∃ s', schedule s = Ok s' ∧ preempt_count s' = 0 ∧ Bug AtomicSchedule ∈ trace s' ∧ need_resched s' = false.
Proof.
  intros Hc Hn Ho. destruct (submit_spec s) as (K1 & C1 & N1 & S1 & _); [lia|]. unfold schedule. 
  assert (oops_in_progress (sched_submit_work s) = false) as Ho1.
  { unfold sched_submit_work. destruct (tstate s =? TASK_RUNNING); [done|]. cbv zeta.
    assert (∀ t, 0 ≤ preempt_count t < 200 → oops_in_progress (preempt_disable t) = oops_in_progress t) as Hd.
    { intros t Ht. rewrite disable_spec by done. by destruct (preempt_count t =? 0). }
    assert (∀ t, 1 ≤ preempt_count t < 200 → oops_in_progress (preempt_enable_no_resched t) = oops_in_progress t) as He.
    { intros t Ht. rewrite enable_spec by done. by destruct (preempt_count t =? 1). }
    destruct (disable_kept s) as (_ & Cd & _); [lia|].
    destruct (wq_worker s || io_worker s).
    - set (b := if wq_worker (preempt_disable s) then _ else _). assert (oops_in_progress b = false ∧ preempt_count b = preempt_count s + 1) as [Hb Cb].
      { subst b. destruct (wq_worker _); simpl; rewrite Hd by lia; done. }
      destruct (pi_blocked _); [rewrite He by lia; done|]. destruct (plugged _); simpl; rewrite He by lia; done.
    - destruct (pi_blocked s), (plugged s); done. }
  set (a := sched_submit_work s) in *. set (body := λ s0 : state, preempt_enable_no_resched (__schedule false (preempt_disable s0))).
  set (P t := preempt_count t = 0 ∧ non_block_count t = 0 ∧ Bug AtomicSchedule ∈ trace t).
  assert (non_block_count a = 0) as Hna by by rewrite (k_non_block _ _ K1).
  destruct (loop_spec P (λ t, t = a) body a) as (t & E & (T1 & T2 & T3) & R & _); [done| | |].
  - intros t ->. unfold body. set (d := preempt_disable a).
    assert (d = with_count (preempt_count a + 1) a) as Ed. { unfold d. rewrite disable_spec by lia. by destruct (Z.eqb_spec (preempt_count a) 0); [lia|]. }
    set (x := __schedule false d).
    assert (preempt_count x = 1 ∧ non_block_count x = 0 ∧ noise x = tl (noise a) ∧ need_resched x = hd false (noise a) ∧
      trace x = trace a ++ [Bug AtomicSchedule; Switch false 1]) as (X1 & X2 & X3 & X4 & X5).
    { unfold x, __schedule, schedule_debug, in_atomic_preempt_off, PREEMPT_DISABLE_OFFSET, __schedule_bug. rewrite Ed.
      cbn [non_block_count with_count]. rewrite Hna, Z.eqb_refl, andb_false_r. cbn [preempt_count with_count oops_in_progress]. rewrite Ho1.
      destruct (Z.eqb_spec (preempt_count a + 1) 1); [lia|]. simpl. rewrite <- app_assoc. by split_and!. }
    destruct (enable_kept x) as (K & C & N & Rn & _ & _ & _ & Sw); [lia|]. split_and!.
    + split_and!; [lia|by rewrite (k_non_block _ _ K)|]. destruct (k_extends _ _ K) as (l & -> & _). rewrite X5. set_solver.
    + congruence.
    + congruence.
    + rewrite Sw. unfold switches. rewrite X5, filter_app, length_app. simpl. lia.
  - intros u (U1 & U2 & U3). destruct (schedule_body u U1 U2) as ([K' ? ? ?] & ? & ?). split; [|done]. split_and!; [done|unfold body; by rewrite (k_non_block _ _ K')|].
    destruct (k_extends _ _ K') as (l & E & _). unfold body. rewrite E. set_solver.
  - rewrite E. cbn [mbind res_bind]. destruct (update_spec t) as (K3 & C3 & R3 & S3 & T3'). eexists. split; [done|]. split_and!; [congruence| |congruence].
    destruct (k_extends _ _ K3) as (l & -> & _). set_solver.
Qed.

(** [preempt_count_sub] takes back what [preempt_count_add] added. *)
Theorem preempt_count_roundtrip val s : 0 < val → 0 ≤ preempt_count s → preempt_count s + val < 2^31 →
  (val < PREEMPT_MASK → Z.land (preempt_count s + val) PREEMPT_MASK ≠ 0) →
  preempt_count (preempt_count_sub val (preempt_count_add val s)) = preempt_count s.
Proof.
  intros Hv Hc Hb Hm. unfold preempt_count_add, warns. destruct (Z.ltb_spec (preempt_count s) 0); [lia|]. rewrite andb_false_r.
  set (a := preempt_latency_start val _).
  assert (preempt_count a = preempt_count s + val) as Ea.
  { subst a. unfold preempt_latency_start, __preempt_count_add. rewrite wrap32_small by (unfold int32; lia). repeat case_match; done. }
  unfold preempt_count_sub, warns. rewrite Ea. destruct (Z.ltb_spec (preempt_count s + val) val); [lia|]. rewrite andb_false_r.
  assert ((val <? PREEMPT_MASK) && (Z.land (preempt_count s + val) PREEMPT_MASK =? 0) = false) as ->.
  { destruct (Z.ltb_spec val PREEMPT_MASK); [|done]. simpl. apply Z.eqb_neq. auto. }
  rewrite andb_false_r. unfold preempt_latency_stop, __preempt_count_sub.
  destruct (preempt_count a =? val); simpl; rewrite Ea, wrap32_small; unfold int32; lia.
Qed.

(** * A task *)

Definition worker (count : Z) : state := State count false true 1 0 true false false true false false [true; false] [].


Lemma cond_resched_lock_schedules_twice_witness :
  ∃ s, __cond_resched_lock false (worker 1) = Ok (1, s) ∧ (2 ≤ switches s)%nat.
Proof. exact (cond_resched_lock_schedules_twice false (worker 1) eq_refl eq_refl eq_refl eq_refl). Defined.

Lemma schedule_while_atomic_witness : ∃ s, schedule (worker 3) = Ok s ∧ preempt_count s = 0.
Proof. destruct (schedule_while_atomic (worker 3)) as (s & E & H & _); [simpl; lia|reflexivity..|]. exists s. split; [exact E|exact H]. Defined.

Lemma preempt_count_roundtrip_witness : preempt_count (preempt_count_sub 0x100 (preempt_count_add 0x100 (worker 3))) = 3.
Proof. apply (preempt_count_roundtrip 0x100 (worker 3)); [lia|simpl; lia|simpl; lia|]. intros H. vm_compute in H. discriminate. Defined.
