(* ===== verification/Attach.v ===== *)
(** Tasks and task groups in the kernel of assignment 4
    (src/과제/OS과제/과제4/core.c): [sched_change_group], [sched_move_task] and
    the calls of the control group core, next to forks, migrations and the
    removal of groups. The control group core (kernel/cgroup, not in the
    repository) is taken as the comments of core.c describe it: migrations exclude each
    other and the part of a fork that puts the child into a group, and a group
    is freed only when no task is in it. *)
From S2P Require Import Prelude.
Local Open Scope Z_scope.

(** * Data *)

(** How far a task is: copied from its parent, after [sched_fork], with its
    group chosen, after [cpu_cgroup_fork], woken, exiting, and gone. *)
Inductive phase : Set := Absent | Copied | Forked | Chosen | Posted | Alive | Dying | Gone.
#[global] Instance phase_eq_dec : EqDecision phase.
Proof. solve_decision. Defined.

Definition EINVAL : Z := 22.

Inductive change_type : Set := TASK_SET_GROUP | TASK_MOVE_GROUP.

(** [css]: the group of the task for the control group core. [in_rq],
    [attached_to] and [is_next] are what the class of the task keeps: the group
    on whose queue it is, the group that its load counts for, and whether it
    is the task that runs. *)
Record task := Task {
  at_phase : phase;
  css : Z;
  sched_task_group : Z;
  new : bool;
  on_rq : bool;
  current : bool;
  in_rq : option Z;
  attached_to : option Z;
  is_next : bool;
  need_resched : bool;
}.

Inductive life : Set := NoGroup | Online | Offline | Freed.
#[global] Instance life_eq_dec : EqDecision life.
Proof. solve_decision. Defined.

(** A migration to [dst]: the tasks that [cpu_cgroup_can_attach] has still to
    look at and all of them, or those that [cpu_cgroup_attach] has still to
    move. [from]: their old groups, which are kept until the end. *)
Inductive migration : Set :=
  | Idle
  | Checking (dst : Z) (todo tset : list Z)
  | Attaching (dst : Z) (todo : list Z) (from : list Z).

Record state := State { tasks : Z → task; groups : Z → life; mig : migration }.

(** Does [cgroup_fork] keep the group that the child has copied, as the
    comment in [sched_fork] says? *)
Class cgroup_code := { cgroup_fork_pins : bool }.

Section attach.
Context `{!cgroup_code}.
Implicit Types (s : state) (p g : Z) (t : task).

Definition upd p (f : task → task) s : state := State (<[p := f (tasks s p)]> (tasks s)) (groups s) (mig s).
Definition set_group g (v : life) s : state := State (tasks s) (<[g := v]> (groups s)) (mig s).
Definition set_mig (m : migration) s : state := State (tasks s) (groups s) m.

Definition with_phase (v : phase) t : task :=
  Task v (css t) (sched_task_group t) (new t) (on_rq t) (current t) (in_rq t) (attached_to t) (is_next t) (need_resched t).
Definition with_css (v : Z) t : task :=
  Task (at_phase t) v (sched_task_group t) (new t) (on_rq t) (current t) (in_rq t) (attached_to t) (is_next t) (need_resched t).
Definition with_group (v : Z) t : task :=
  Task (at_phase t) (css t) v (new t) (on_rq t) (current t) (in_rq t) (attached_to t) (is_next t) (need_resched t).
Definition with_new (v : bool) t : task :=
  Task (at_phase t) (css t) (sched_task_group t) v (on_rq t) (current t) (in_rq t) (attached_to t) (is_next t) (need_resched t).
Definition with_on_rq (v : bool) t : task :=
  Task (at_phase t) (css t) (sched_task_group t) (new t) v (current t) (in_rq t) (attached_to t) (is_next t) (need_resched t).
Definition with_current (v : bool) t : task :=
  Task (at_phase t) (css t) (sched_task_group t) (new t) (on_rq t) v (in_rq t) (attached_to t) (is_next t) (need_resched t).
Definition with_in_rq (v : option Z) t : task :=
  Task (at_phase t) (css t) (sched_task_group t) (new t) (on_rq t) (current t) v (attached_to t) (is_next t) (need_resched t).
Definition with_attached (v : option Z) t : task :=
  Task (at_phase t) (css t) (sched_task_group t) (new t) (on_rq t) (current t) (in_rq t) v (is_next t) (need_resched t).
Definition with_next (v : bool) t : task :=
  Task (at_phase t) (css t) (sched_task_group t) (new t) (on_rq t) (current t) (in_rq t) (attached_to t) v (need_resched t).
Definition resched_curr t : task :=
  Task (at_phase t) (css t) (sched_task_group t) (new t) (on_rq t) (current t) (in_rq t) (attached_to t) (is_next t) true.

(** * What a class needs of its callers *)

(** The queues of a group exist until it is freed. *)
Definition usable s g : bool := match groups s g with Online | Offline => true | NoGroup | Freed => false end.
Definition use s g : res unit := if usable s g then Ok tt else Undef UseAfterFree.

Definition enqueue_task s t : res task :=
  _ ← use s (sched_task_group t);
  match in_rq t with Some _ => Undef QueuedTwice | None => Ok (with_in_rq (Some (sched_task_group t)) t) end.
Definition dequeue_task s t : res task :=
  match in_rq t with
  | Some g => _ ← use s g; if g =? sched_task_group t then Ok (with_in_rq None t) else Undef BugOn
  | None => Undef BugOn
  end.
Definition put_prev_task s t : res task := _ ← use s (sched_task_group t); if is_next t then Ok (with_next false t) else Undef BugOn.
Definition set_next_task s t : res task := _ ← use s (sched_task_group t); if is_next t then Undef BugOn else Ok (with_next true t).

(** A move detaches the load of the task from the old group, which needs it
    attached, and attaches it to the new one. *)
Definition task_change_group s (type : change_type) t : res task :=
  _ ← use s (sched_task_group t);
  match type with
  | TASK_SET_GROUP => Ok t
  | TASK_MOVE_GROUP => g ← opt BugOn (attached_to t); _ ← use s g; Ok (with_attached (Some (sched_task_group t)) t)
  end.

(** * The operations *)

(** Without automatic groups the group of a task is that of its css. *)
Definition sched_change_group s (type : change_type) t : res task := task_change_group s type (with_group (css t) t).

Definition sched_move_task s t : res task :=
  let running := current t in
  let queued := on_rq t in
  t ← (if queued then dequeue_task s t else Ok t);
  t ← (if running then put_prev_task s t else Ok t);
  t ← sched_change_group s TASK_MOVE_GROUP t;
  t ← (if queued then enqueue_task s t else Ok t);
  if running then t ← set_next_task s t; Ok (resched_curr t) else Ok t.

Definition cpu_cgroup_fork s t : res task := sched_change_group s TASK_SET_GROUP t.

(** The next task of the set, under its lock; the value is the result when
    there is one. *)
Definition cpu_cgroup_can_attach s (todo : list Z) : Z + list Z :=
  match todo with
  | [] => inl 0
  | p :: todo => if new (tasks s p) then inl (- EINVAL) else inr todo
  end.

(** [sched_fork]: [__set_task_cpu] and [task_fork] use the queues of the group
    that the child has copied. *)
Definition sched_fork s t : res task :=
  let t := with_new true t in
  _ ← use s (sched_task_group t); Ok t.

(** [wake_up_new_task]: [__set_task_cpu], [post_init_entity_util_avg] and
    [activate_task]. *)
Definition wake_up_new_task s t : res task :=
  let t := with_new false t in
  _ ← use s (sched_task_group t);
  t ← enqueue_task s (with_attached (Some (sched_task_group t)) t);
  Ok (with_on_rq true t).

(** * Steps *)

(** [Dup]: a running task starts a fork, [root] is the initial group; [Choose]: the fork takes the lock
    against migrations and chooses the group, that of the parent or one that it
    was asked for. [Select] and [Deselect]: a task begins or ceases to run. *)
Inductive label : Set :=
  | Dup (parent child : Z)
  | Fork (child : Z)
  | Cancel (child : Z)
  | Choose (parent child : Z) (into : option Z)
  | PostFork (child : Z)
  | WakeNew (p : Z)
  | Wake (p : Z)
  | Select (p : Z)
  | Deselect (p : Z) (sleeps : bool)
  | Exit (p : Z)
  | Reap (p : Z)
  | Create (g : Z)
  | Release (g : Z)
  | Free (g : Z)
  | Migrate (dst : Z) (tset : list Z)
  | Advance.

Definition root : Z := 0.
Definition is_phase (v : phase) s p : bool := bool_decide (at_phase (tasks s p) = v).
Definition woken s p : bool := is_phase Alive s p || is_phase Dying s p.

(** [known]: the tasks that the control group core knows. *)
Definition known t : bool := match at_phase t with Chosen | Posted | Alive | Dying => true | _ => false end.
Definition copied t : bool := match at_phase t with Copied | Forked => true | _ => false end.

(** Does the core keep [g] for the task? *)
Definition keeps g t : Prop := known t = true ∧ css t = g ∨ cgroup_fork_pins = true ∧ copied t = true ∧ sched_task_group t = g.
Definition migrating g (m : migration) : Prop :=
  match m with Idle => False | Checking dst _ _ => dst = g | Attaching dst _ from => dst = g ∨ g ∈ from end.

Definition no_migration s : bool := match mig s with Idle => true | _ => false end.

Definition on_task p s (f : task → res task) : res state := t ← f (tasks s p); Ok (upd p (λ _, t) s).

(** A step of the migration. *)
Definition advance s : option (res state) :=
  match mig s with
  | Idle => None
  | Checking dst todo tset =>
      match cpu_cgroup_can_attach s todo with
      | inr todo => Some (Ok (set_mig (Checking dst todo tset) s))
      | inl ret =>
          Some (Ok (if ret =? 0
                    then set_mig (Attaching dst tset ((λ p, css (tasks s p)) <$> tset)) (foldr (λ p, upd p (with_css dst)) s tset)
                    else set_mig Idle s))
      end
  | Attaching dst [] from => Some (Ok (set_mig Idle s))
  | Attaching dst (p :: todo) from =>
      Some (s' ← on_task p s (sched_move_task s); Ok (set_mig (Attaching dst todo from) s'))
  end.

(** [None]: the step is not possible. *)
Inductive step : label → state → res state → Prop :=
  | step_dup parent child s :
      is_phase Alive s parent = true → current (tasks s parent) = true → is_phase Absent s child = true →
      step (Dup parent child) s
        (Ok (upd child (λ _, Task Copied root (sched_task_group (tasks s parent)) false false false None None false false) s))
  | step_fork child s :
      is_phase Copied s child = true → step (Fork child) s (on_task child s (λ t, t ← sched_fork s t; Ok (with_phase Forked t)))
  | step_cancel child s :
      is_phase Copied s child || is_phase Forked s child || is_phase Chosen s child = true → step (Cancel child) s (Ok (upd child (with_phase Gone) s))
  | step_choose parent child into s :
      is_phase Forked s child = true → is_phase Alive s parent = true → no_migration s = true →
      (∀ g, into = Some g → groups s g = Online) →
      step (Choose parent child into) s
        (Ok (upd child (λ t, with_phase Chosen (with_css (default (css (tasks s parent)) into) t)) s))
  | step_post_fork child s :
      is_phase Chosen s child = true →
      step (PostFork child) s (on_task child s (λ t, t ← cpu_cgroup_fork s t; Ok (with_phase Posted t)))
  | step_wake_new p s :
      is_phase Posted s p = true → step (WakeNew p) s (on_task p s (λ t, t ← wake_up_new_task s t; Ok (with_phase Alive t)))
  | step_wake p s :
      woken s p = true → on_rq (tasks s p) = false → current (tasks s p) = false →
      step (Wake p) s (on_task p s (λ t, t ← enqueue_task s t; Ok (with_on_rq true t)))
  | step_select p s :
      woken s p = true → on_rq (tasks s p) = true → current (tasks s p) = false →
      step (Select p) s (on_task p s (λ t, t ← set_next_task s t; Ok (with_current true t)))
  | step_deselect p (sleeps : bool) s :
      current (tasks s p) = true →
      step (Deselect p sleeps) s
        (on_task p s (λ t, t ← (if sleeps then dequeue_task s t else Ok t); t ← put_prev_task s t;
                           Ok (with_current false (if sleeps then with_on_rq false t else t))))
  | step_exit p s :
      is_phase Alive s p = true → no_migration s = true → step (Exit p) s (Ok (upd p (with_phase Dying) s))
  | step_reap p s :
      is_phase Dying s p = true → on_rq (tasks s p) = false → current (tasks s p) = false →
      step (Reap p) s (Ok (upd p (λ t, with_phase Gone (with_attached None t)) s))
  | step_create g s : groups s g = NoGroup → step (Create g) s (Ok (set_group g Online s))
  | step_release g s :
      g ≠ root → groups s g = Online → (∀ p, ¬ keeps g (tasks s p)) → ¬ migrating g (mig s) →
      step (Release g) s (Ok (set_group g Offline s))
  | step_free g s : groups s g = Offline → step (Free g) s (Ok (set_group g Freed s))
  | step_migrate dst tset s :
      no_migration s = true → groups s dst = Online → NoDup tset → (∀ p, ¬ is_phase Chosen s p = true) →
      (∀ p, p ∈ tset → is_phase Posted s p || is_phase Alive s p = true) →
      step (Migrate dst tset) s (Ok (set_mig (Checking dst tset tset) s))
  | step_advance s r : advance s = Some r → step Advance s r.

(** The first task runs in the root group. *)
Definition start : state :=
  State (λ p, if p =? 1 then Task Alive root root false true true (Some root) (Some root) true false
              else Task Absent root root false false false None None false false)
    (λ g, if g =? root then Online else NoGroup) Idle.

Definition moves s s' : Prop := ∃ l, step l s (Ok s').
End attach.
