(* ===== verification/AttachProofs.v ===== *)
(** The groups of tasks (Attach): the accounting of the classes follows the
    control group core through forks, migrations and removals of groups, the
    one place where a freed group is used, and what the comment there would
    have to guarantee. *)
From S2P Require Import Prelude Attach.
Local Open Scope Z_scope.

Section proofs.
Context `{!cgroup_code}.
Implicit Types (s : state) (p g : Z) (t : task).

(** * The invariant *)

Definition blank t : Prop :=
  on_rq t = false ∧ current t = false ∧ in_rq t = None ∧ attached_to t = None ∧ is_next t = false.
Definition remaining (m : migration) : list Z := match m with Attaching _ todo _ => todo | _ => [] end.
Definition old_groups (m : migration) : list Z := match m with Attaching _ _ from => from | _ => [] end.

Definition placed (m : migration) p t : Prop :=
  sched_task_group t = css t ∨ p ∈ remaining m ∧ sched_task_group t ∈ old_groups m.

Record in_order (t : task) : Prop := {
  o_new : new t = false;
  o_attached : attached_to t = Some (sched_task_group t);
  o_in_rq : in_rq t = if on_rq t then Some (sched_task_group t) else None;
  o_next : is_next t = current t;
  o_runs : current t = true → on_rq t = true;
}.

Definition task_ok (gs : Z → life) (m : migration) p t : Prop :=
  match at_phase t with
  | Absent | Gone => blank t
  | Copied | Forked => blank t ∧ gs (sched_task_group t) ≠ NoGroup ∧ (cgroup_fork_pins = true → gs (sched_task_group t) = Online)
      ∧ (at_phase t = Forked → new t = true)
  | Chosen => blank t ∧ new t = true ∧ gs (css t) = Online ∧ m = Idle
  | Posted => blank t ∧ new t = true ∧ gs (css t) = Online ∧ sched_task_group t = css t
  | Alive | Dying => in_order t ∧ gs (css t) = Online ∧ gs (sched_task_group t) = Online ∧ placed m p t
  end.

Definition waits t : Prop := at_phase t = Posted ∨ at_phase t = Alive.
Definition mig_ok (gs : Z → life) (m : migration) (ts : Z → task) : Prop :=
  match m with
  | Idle => True
  | Checking dst todo tset =>
      gs dst = Online ∧ NoDup tset ∧ (∀ p, p ∈ tset → waits (ts p)) ∧
      ∃ done, tset = done ++ todo ∧ ∀ p, p ∈ done → new (ts p) = false
  | Attaching dst todo from =>
      gs dst = Online ∧ NoDup todo ∧ (∀ g, g ∈ from → gs g = Online) ∧
      ∀ p, p ∈ todo → at_phase (ts p) = Alive ∧ css (ts p) = dst
  end.

Record inv s : Prop := {
  i_task p : task_ok (groups s) (mig s) p (tasks s p);
  i_mig : mig_ok (groups s) (mig s) (tasks s);
}.

(** A change of one task that a migration does not mind. *)
Definition follows (m : migration) p t t' : Prop :=
  m = Idle ∨
  (waits t → waits t') ∧ (waits t → new t = false → new t' = false) ∧
  (at_phase t = Alive → at_phase t' = Alive ∧ css t' = css t).

Lemma inv_upd p f s : inv s → task_ok (groups s) (mig s) p (f (tasks s p)) → follows (mig s) p (tasks s p) (f (tasks s p)) → inv (upd p f s).
Proof.
  intros [Ht Hm] Hok Hf. constructor; cbn.
  - intros q. destruct (decide (q = p)) as [->|]; [by rewrite fn_lookup_insert | by rewrite fn_lookup_insert_ne].
  - assert (∀ q, q ≠ p → <[p := f (tasks s p)]> (tasks s) q = tasks s q) as Ho by (intros; by rewrite fn_lookup_insert_ne).
    assert (<[p := f (tasks s p)]> (tasks s) p = f (tasks s p)) as Hp by by rewrite fn_lookup_insert.
    destruct Hf as [->|(Hw&Hn&Ha)]; [done|]. revert Hm. unfold mig_ok. destruct (mig s) as [|dst todo tset|dst todo from]; [done|..].
    + intros (Hd&Hnd&Hall&done&He&Hdone). split_and!; [done|done| |exists done; split; [done|]]; intros q Hq;
        (destruct (decide (q = p)) as [->|]; [rewrite Hp | rewrite Ho by done]); eauto.
      apply Hn; [|by apply Hdone]. apply Hall. rewrite He. set_solver.
    + intros (Hd&Hnd&Hfrom&Hall). split_and!; [done..|]. intros q Hq. specialize (Hall q Hq).
      destruct (decide (q = p)) as [->|]; [rewrite Hp | by rewrite Ho]. destruct Hall as [H1 H2].
      destruct (Ha H1) as [? ->]. done.
Qed.

(** * The operations *)

Lemma use_ok s g : groups s g = Online → use s g = Ok tt.
Proof. unfold use, usable. by intros ->. Qed.

Lemma on_task_ok p s f t' : f (tasks s p) = Ok t' → on_task p s f = Ok (upd p (λ _, t') s).
Proof. unfold on_task. by intros ->. Qed.

Ltac open_task t := destruct t as [ph c g nw q cu irq att nx nr]; cbn in *.
Ltac step_class := unfold enqueue_task, dequeue_task, put_prev_task, set_next_task, task_change_group; cbn.

Lemma move_ok s t : in_order t → groups s (css t) = Online → groups s (sched_task_group t) = Online →
  ∃ t', sched_move_task s t = Ok t' ∧ at_phase t' = at_phase t ∧ css t' = css t ∧ sched_task_group t' = css t ∧ current t' = current t ∧ in_order t'.
Proof.
  intros [Hn Ha Hq Hx Hr] Hc Hg. open_task t. subst. unfold sched_move_task, sched_change_group. cbn.
  destruct q, cu; try (specialize (Hr eq_refl); done); step_class; repeat (rewrite use_ok by done; cbn; rewrite ?Z.eqb_refl; cbn);
    eexists; (split; [reflexivity|]); split_and!; try done; constructor; done.
Qed.

Lemma child_group_ok s t : blank t → groups s (css t) = Online →
  ∃ t', cpu_cgroup_fork s t = Ok t' ∧ t' = with_group (css t) t.
Proof. intros _ Hc. unfold cpu_cgroup_fork, sched_change_group. step_class. rewrite use_ok by done. by eexists. Qed.

Lemma wake_new_ok s t : blank t → groups s (sched_task_group t) = Online →
  ∃ t', wake_up_new_task s t = Ok t' ∧ css t' = css t ∧ sched_task_group t' = sched_task_group t ∧ in_order t'.
Proof.
  intros (Hq&Hcu&Hi&Ha&Hx) Hg. open_task t. subst. unfold wake_up_new_task. cbn. rewrite use_ok by done. cbn. step_class. rewrite use_ok by done. cbn.
  eexists. by split_and!.
Qed.

Lemma is_phase_spec v s p : is_phase v s p = true ↔ at_phase (tasks s p) = v.
Proof. unfold is_phase. apply bool_decide_eq_true. Qed.
Lemma woken_spec s p : woken s p = true ↔ at_phase (tasks s p) = Alive ∨ at_phase (tasks s p) = Dying.
Proof. unfold woken. by rewrite orb_true_iff, !is_phase_spec. Qed.

(** What holds of a woken task. *)
Lemma inv_woken s p : inv s → at_phase (tasks s p) = Alive ∨ at_phase (tasks s p) = Dying →
  in_order (tasks s p) ∧ groups s (css (tasks s p)) = Online ∧ groups s (sched_task_group (tasks s p)) = Online ∧ placed (mig s) p (tasks s p).
Proof. intros Hi Hp. pose proof (i_task s Hi p) as Ht. unfold task_ok in Ht. by destruct Hp as [Hp|Hp]; rewrite Hp in Ht. Qed.

(** A woken task that stays one, with its group. *)
Lemma inv_woken_upd s p t' : inv s → at_phase (tasks s p) = Alive ∨ at_phase (tasks s p) = Dying →
  at_phase t' = at_phase (tasks s p) → css t' = css (tasks s p) → sched_task_group t' = sched_task_group (tasks s p) → in_order t' →
  inv (upd p (λ _, t') s).
Proof.
  intros Hi Hp He Hc Hg Ho. destruct (inv_woken s p Hi Hp) as (_&H1&H2&H3). apply inv_upd; [done|..].
  - unfold task_ok, placed. rewrite He, Hc, Hg. by destruct Hp as [Hp|Hp]; rewrite Hp.
  - right. unfold waits. rewrite He, Hc. split_and!; [done| |done]. intros _ _. apply Ho.
Qed.

(** * Every step *)

(** The result of a step that the invariant allows. *)
Definition fine (r : res state) : Prop := ∃ s', r = Ok s' ∧ inv s'.
Lemma fine_ok s : inv s → fine (Ok s).
Proof. by exists s. Qed.
Lemma fine_task p s f t' : f (tasks s p) = Ok t' → inv (upd p (λ _, t') s) → fine (on_task p s f).
Proof. intros Hf Hi. rewrite (on_task_ok p s f t' Hf). by apply fine_ok. Qed.

(** A woken task, through an operation of its class. *)
Lemma woken_task p s f : inv s → at_phase (tasks s p) = Alive ∨ at_phase (tasks s p) = Dying →
  (∀ t, in_order t → groups s (sched_task_group t) = Online → t = tasks s p →
     ∃ t', f t = Ok t' ∧ at_phase t' = at_phase t ∧ css t' = css t ∧ sched_task_group t' = sched_task_group t ∧ in_order t') →
  fine (on_task p s f).
Proof.
  intros Hi Hp Hf. destruct (inv_woken s p Hi Hp) as (H1&_&H3&_). destruct (Hf _ H1 H3 eq_refl) as (t'&E&?&?&?&?).
  apply (fine_task p s f t' E). by apply inv_woken_upd.
Qed.

Lemma fine_wake p s : inv s → at_phase (tasks s p) = Alive ∨ at_phase (tasks s p) = Dying →
  on_rq (tasks s p) = false → current (tasks s p) = false → fine (on_task p s (λ t, t ← enqueue_task s t; Ok (with_on_rq true t))).
Proof.
  intros Hi Hp Hq Hc. apply woken_task; [done|done|]. intros t [] Hg ->. open_task (tasks s p). subst. step_class. rewrite use_ok by done. cbn.
  eexists. split; [reflexivity|]. by split_and!.
Qed.

Lemma fine_select p s : inv s → at_phase (tasks s p) = Alive ∨ at_phase (tasks s p) = Dying →
  on_rq (tasks s p) = true → current (tasks s p) = false → fine (on_task p s (λ t, t ← set_next_task s t; Ok (with_current true t))).
Proof.
  intros Hi Hp Hq Hc. apply woken_task; [done|done|]. intros t [] Hg ->. open_task (tasks s p). subst. step_class. rewrite use_ok by done. cbn.
  eexists. split; [reflexivity|]. by split_and!.
Qed.

Lemma current_woken s p : inv s → current (tasks s p) = true → at_phase (tasks s p) = Alive ∨ at_phase (tasks s p) = Dying.
Proof.
  intros Hi Hc. pose proof (i_task s Hi p) as Ht. unfold task_ok, blank in Ht.
  destruct (at_phase (tasks s p)) eqn:E; [..|by left|by right|]; exfalso; rewrite Hc in Ht; naive_solver.
Qed.

Lemma fine_deselect p (sleeps : bool) s : inv s → current (tasks s p) = true →
  fine (on_task p s (λ t, t ← (if sleeps then dequeue_task s t else Ok t); t ← put_prev_task s t;
                          Ok (with_current false (if sleeps then with_on_rq false t else t)))).
Proof.
  intros Hi Hc. apply woken_task; [done|by apply current_woken|]. intros t [? ? ? ? Hr] Hg ->. open_task (tasks s p). subst.
  rewrite (Hr eq_refl). destruct sleeps; step_class; repeat (rewrite use_ok by done; cbn; rewrite ?Z.eqb_refl; cbn); step_class;
    repeat (rewrite use_ok by done; cbn); eexists; (split; [reflexivity|]); by split_and!.
Qed.

(** A task that is not woken yet. *)
Lemma blank_phase v t : blank t → blank (with_phase v t).
Proof. done. Qed.

Lemma fine_fork child s : inv s → at_phase (tasks s child) = Copied →
  fine (on_task child s (λ t, t ← sched_fork s t; Ok (with_phase Forked t))) ∨
  cgroup_fork_pins = false ∧ on_task child s (λ t, t ← sched_fork s t; Ok (with_phase Forked t)) = Undef UseAfterFree ∧
  groups s (sched_task_group (tasks s child)) = Freed.
Proof.
  intros Hi Hp. pose proof (i_task s Hi child) as Ht. unfold task_ok in Ht. rewrite Hp in Ht. destruct Ht as (Hb&Hn&Hpin&_).
  destruct (usable s (sched_task_group (tasks s child))) eqn:Hu.
  - left. eapply fine_task.
    + unfold sched_fork, use. cbn. rewrite Hu. reflexivity.
    + apply inv_upd; [done| |].
      * unfold task_ok. cbn. by split_and!.
      * right. unfold waits. rewrite Hp. by split_and!; [intros [?|?]|intros [?|?]|].
  - right. unfold usable in Hu. destruct (groups s (sched_task_group (tasks s child))) eqn:Hg; try done.
    split_and!; [|by unfold on_task, sched_fork, use, usable; cbn; rewrite Hg|done]. destruct cgroup_fork_pins; [|done].
    by specialize (Hpin eq_refl).
Qed.

Lemma fine_post_fork child s : inv s → at_phase (tasks s child) = Chosen →
  fine (on_task child s (λ t, t ← cpu_cgroup_fork s t; Ok (with_phase Posted t))).
Proof.
  intros Hi Hp. pose proof (i_task s Hi child) as Ht. unfold task_ok in Ht. rewrite Hp in Ht. destruct Ht as (Hb&Hn&Hc&Hm).
  destruct (child_group_ok s (tasks s child) Hb Hc) as (t'&E&->). eapply fine_task; [by rewrite E|]. apply inv_upd; [done| |by left].
  unfold task_ok. cbn. by split_and!.
Qed.

Lemma fine_wake_new p s : inv s → at_phase (tasks s p) = Posted →
  fine (on_task p s (λ t, t ← wake_up_new_task s t; Ok (with_phase Alive t))).
Proof.
  intros Hi Hp. pose proof (i_task s Hi p) as Ht. unfold task_ok in Ht. rewrite Hp in Ht. destruct Ht as (Hb&Hn&Hc&Hg).
  destruct (wake_new_ok s (tasks s p) Hb) as (t'&E&Ec&Eg&[]); [by rewrite Hg|]. eapply fine_task; [by rewrite E|]. apply inv_upd; [done|..].
  - unfold task_ok, placed. cbn. rewrite Ec, Eg, Hg. split_and!; [by constructor|done..|by left].
  - right. unfold waits. cbn. rewrite Hp. split_and!; [by right|done|done].
Qed.

(** [Release] takes a group that nobody has. *)
Lemma inv_release g s : inv s → (∀ p, ¬ keeps g (tasks s p)) → ¬ migrating g (mig s) → inv (set_group g Offline s).
Proof.
  intros [Ht Hm] Hk Hg.
  assert (∀ h, h ≠ g → <[g := Offline]> (groups s) h = groups s h) as Ho by (intros; by rewrite fn_lookup_insert_ne).
  assert (∀ p, known (tasks s p) = true → css (tasks s p) ≠ g) as Hcss by (intros p ? ?; apply (Hk p); by left).
  assert (∀ h, h ∈ old_groups (mig s) → h ≠ g) as Hold.
  { intros h Hh ->. apply Hg. unfold old_groups in Hh. unfold migrating. destruct (mig s); set_solver. }
  constructor; cbn.
  - intros p. specialize (Ht p). specialize (Hcss p). specialize (Hk p). unfold keeps in Hk. revert Ht Hcss Hk.
    unfold task_ok, known, copied, placed. destruct (at_phase (tasks s p)); try done;
      intros Ht Hcss Hk; try specialize (Hcss eq_refl).
    1,2: destruct Ht as (Hb&Hn&Hp&Hf); split_and!; [done| | |done];
      [destruct (decide (sched_task_group (tasks s p) = g)) as [->|]; [by rewrite fn_lookup_insert|by rewrite Ho]|];
      intros Hpin; rewrite Ho; [auto|]; intros He; apply Hk; right; by split_and!.
    + by rewrite Ho.
    + by rewrite Ho.
    + rewrite (Ho (css _)) by done. destruct Ht as (?&?&?&[Hp|[? Hp]]); rewrite Ho; try (split_and!; done || by left); [by rewrite Hp| |]; auto.
      split_and!; [done..|by right].
    + rewrite (Ho (css _)) by done. destruct Ht as (?&?&?&[Hp|[? Hp]]); rewrite Ho; try (split_and!; done || by left); [by rewrite Hp| |]; auto.
      split_and!; [done..|by right].
  - revert Hm Hg. unfold mig_ok, migrating. destruct (mig s) as [|dst todo tset|dst todo from]; [done|..].
    + intros (?&?) ?. rewrite Ho by done. done.
    + intros (?&?&Hf&?) Hd. rewrite Ho by naive_solver. split_and!; [done..| |done]. intros h Hh. rewrite Ho; [auto|naive_solver].
Qed.

(** Groups that were unused or cannot be used again. *)
Lemma inv_other_group g v s : inv s → groups s g ≠ Online → (groups s g = NoGroup ∨ v ≠ NoGroup) → inv (set_group g v s).
Proof.
  intros [Ht Hm] Hg Hv. assert (∀ h, groups s h = Online → <[g := v]> (groups s) h = Online) as Ho.
  { intros h Hh. rewrite fn_lookup_insert_ne; [done|]. intros ->. done. }
  assert (∀ h, groups s h ≠ NoGroup → <[g := v]> (groups s) h ≠ NoGroup) as Hn.
  { intros h Hh. destruct (decide (h = g)) as [->|]; [rewrite fn_lookup_insert | by rewrite fn_lookup_insert_ne]. naive_solver. }
  constructor; cbn.
  - intros p. specialize (Ht p). revert Ht. unfold task_ok. destruct (at_phase (tasks s p)); naive_solver.
  - revert Hm. unfold mig_ok. destruct (mig s); naive_solver.
Qed.

Lemma task_ok_mig gs m m' p t : task_ok gs m p t → (placed m p t → placed m' p t) → (m = Idle → m' = Idle ∨ at_phase t ≠ Chosen) → task_ok gs m' p t.
Proof.
  unfold task_ok. intros Ht Hp Hm. destruct (at_phase t); try done.
  - destruct Ht as (?&?&?&Hi). destruct (Hm Hi) as [?|?]; [by split_and!|done].
  - destruct Ht as (?&?&?&?). auto.
  - destruct Ht as (?&?&?&?). auto.
Qed.

Lemma inv_set_mig m s : inv s → (∀ p, placed (mig s) p (tasks s p) → placed m p (tasks s p)) → (mig s = Idle → m = Idle ∨ ∀ p, at_phase (tasks s p) ≠ Chosen) →
  mig_ok (groups s) m (tasks s) → inv (set_mig m s).
Proof.
  intros [Ht Hm] Hp Hc Hok. constructor; [|done]. cbn. intros p. apply (task_ok_mig _ (mig s)); [apply Ht|apply Hp|].
  intros Hi. destruct (Hc Hi) as [?|Hn]; [by left|right; apply Hn].
Qed.

Lemma no_migration_spec s : no_migration s = true ↔ mig s = Idle.
Proof. unfold no_migration. by destruct (mig s). Qed.

(** The tasks of a migration have their new group for the core. *)
Lemma commit_task dst l s p : tasks (foldr (λ p, upd p (with_css dst)) s l) p = if bool_decide (p ∈ l) then with_css dst (tasks s p) else tasks s p.
Proof.
  induction l as [|q l IH]; cbn; [by case_bool_decide; [set_solver|]|]. destruct (decide (p = q)) as [->|].
  - rewrite fn_lookup_insert, IH. rewrite (bool_decide_eq_true_2 (q ∈ q :: l)) by set_solver. by case_bool_decide.
  - rewrite fn_lookup_insert_ne by done. rewrite IH. apply (f_equal (λ b : bool, if b then _ else _)), bool_decide_ext. set_solver.
Qed.
Lemma commit_rest dst l s : groups (foldr (λ p, upd p (with_css dst)) s l) = groups s ∧ mig (foldr (λ p, upd p (with_css dst)) s l) = mig s.
Proof. by induction l. Qed.

Lemma inv_commit dst tset s : inv s → mig s = Checking dst [] tset →
  inv (set_mig (Attaching dst tset ((λ p, css (tasks s p)) <$> tset)) (foldr (λ p, upd p (with_css dst)) s tset)).
Proof.
  intros [Ht Hm] Em. rewrite Em in *. destruct Hm as (Hd&Hnd&Hall&done&He&Hdone). rewrite app_nil_r in He. subst done.
  assert (∀ p, p ∈ tset → at_phase (tasks s p) = Alive ∧ in_order (tasks s p) ∧ groups s (css (tasks s p)) = Online ∧ sched_task_group (tasks s p) = css (tasks s p)) as Hin.
  { intros p Hp. specialize (Ht p). specialize (Hdone p Hp). unfold task_ok in Ht. destruct (Hall p Hp) as [Hph|Hph]; rewrite Hph in *.
    - destruct Ht as (_&Hn&_). congruence.
    - destruct Ht as (?&?&?&[?|[Hr _]]); [done|]. by apply elem_of_nil in Hr. }
  destruct (commit_rest dst tset s) as [Eg _]. constructor; cbn; rewrite Eg.
  - intros p. rewrite commit_task. case_bool_decide as Hp.
    + destruct (Hin p Hp) as (Hph&[]&Hon&Hg). unfold task_ok. cbn. rewrite Hph. split_and!; [by constructor|done|by rewrite Hg|].
      right. cbn. split; [done|]. apply list_elem_of_fmap. exists p. by rewrite Hg.
    + apply (task_ok_mig _ (Checking dst [] tset)); [done| |done]. unfold placed. cbn. intros [?|[Hr _]]; [by left|]. by apply elem_of_nil in Hr.
  - split_and!; [done..| |].
    + intros g (p&->&Hp)%list_elem_of_fmap. by apply Hin.
    + intros p Hp. rewrite commit_task, bool_decide_eq_true_2 by done. cbn. split; [by apply Hin|done].
Qed.

Lemma fine_attach dst p todo from s : inv s → mig s = Attaching dst (p :: todo) from →
  fine (s' ← on_task p s (sched_move_task s); Ok (set_mig (Attaching dst todo from) s')).
Proof.
  intros Hi Em. pose proof (i_mig s Hi) as Hm. rewrite Em in Hm. destruct Hm as (Hd&[Hnp Hnd]%NoDup_cons&Hf&Hall).
  destruct (Hall p) as [Hph Hcss]; [set_solver|]. destruct (inv_woken s p Hi (or_introl Hph)) as (Ho&Hc&Hg&_).
  destruct (move_ok s (tasks s p) Ho Hc Hg) as (t'&E&Eph&Ec&Eg&_&Ho'). rewrite (on_task_ok p s _ t' E). cbn. apply fine_ok.
  destruct Hi as [Ht _]. rewrite Em in Ht. constructor; cbn.
  - intros q. destruct (decide (q = p)) as [->|].
    + rewrite fn_lookup_insert. unfold task_ok, placed. rewrite Eph, Hph, Ec, Eg. split_and!; [done|congruence..|by left].
    + rewrite fn_lookup_insert_ne by done. apply (task_ok_mig _ (Attaching dst (p :: todo) from)); [done| |done].
      unfold placed. cbn. intros [?|[Hq ?]]; [by left|]. right. split; [|done]. by apply elem_of_cons in Hq as [?|?].
  - split_and!; [done..|]. intros q Hq. rewrite fn_lookup_insert_ne by (intros ->; done). apply Hall. set_solver.
Qed.

Lemma fine_advance s r : inv s → advance s = Some r → fine r.
Proof.
  intros Hi. unfold advance. destruct (mig s) as [|dst todo tset|dst todo from] eqn:Em; [done|..].
  - pose proof (i_mig s Hi) as Hm. rewrite Em in Hm. destruct Hm as (Hd&Hnd&Hall&done&He&Hdone).
    unfold cpu_cgroup_can_attach. destruct todo as [|p todo]; cbn; [|destruct (new (tasks s p)) eqn:Hnew; cbn]; intros [= <-]; apply fine_ok.
    + by apply inv_commit.
    + apply inv_set_mig; [done| |by left|done]. rewrite Em. unfold placed. cbn. intros q [?|[Hq _]]; [by left|]. by apply elem_of_nil in Hq.
    + apply inv_set_mig; [done|by rewrite Em|by rewrite Em|]. split_and!; [done..|]. exists (done ++ [p]). rewrite <-app_assoc. split; [done|].
      intros q [Hq|Hq%list_elem_of_singleton]%elem_of_app; [auto|by subst].
  - destruct todo as [|p todo]; intros [= <-]; [|by apply fine_attach]. apply fine_ok.
    apply inv_set_mig; [done| |by left|done]. rewrite Em. unfold placed. cbn. intros q [?|[Hq _]]; [by left|]. by apply elem_of_nil in Hq.
Qed.

Lemma step_fine l s r : inv s → step l s r → fine r ∨
  cgroup_fork_pins = false ∧ r = Undef UseAfterFree ∧ ∃ child, l = Fork child ∧ groups s (sched_task_group (tasks s child)) = Freed.
Proof.
  intros Hi Hs. inversion Hs as [parent child ? Hp Hc Ha|child ? Hp|child ? Hp|parent child into ? Hp Hpar Hm Hinto|child ? Hp|p ? Hp|p ? Hp Hq Hc
    |p ? Hp Hq Hc|p sleeps ? Hc|p ? Hp Hm|p ? Hp Hq Hc|g ? Hg|g ? Hr Hg Hk Hm|g ? Hg|dst tset ? Hm Hd Hnd Hc Hp|? ? Ha]; subst;
    rewrite ?woken_spec, ?no_migration_spec, ?orb_true_iff, ?is_phase_spec in *; try (left; apply fine_ok).
  - destruct (inv_woken s parent Hi (or_introl Hp)) as (_&_&Hg&_). apply inv_upd; [done|..].
    + unfold task_ok. cbn. split_and!; [done|congruence|done|done].
    + right. unfold waits. rewrite Ha. by split_and!; [intros [?|?]|intros [?|?]|].
  - destruct (fine_fork child s Hi Hp) as [?|(?&?&?)]; [by left|]. right. split_and!; eauto.
  - pose proof (i_task s Hi child) as Ht. apply inv_upd; [done|..].
    + revert Ht. unfold task_ok. cbn. destruct Hp as [[Hp|Hp]|Hp]; rewrite Hp; by intros (?&_).
    + right. unfold waits. destruct Hp as [[Hp|Hp]|Hp]; rewrite Hp; by split_and!; [intros [?|?]|intros [?|?]|].
  - pose proof (i_task s Hi child) as Ht. unfold task_ok in Ht. rewrite Hp in Ht. destruct Ht as (Hb&_&_&Hn).
    destruct (inv_woken s parent Hi (or_introl Hpar)) as (_&Hg&_). apply inv_upd; [done| |by left].
    unfold task_ok. cbn. split_and!; [done|auto| |done]. destruct into; cbn; auto.
  - left. by apply fine_post_fork.
  - left. by apply fine_wake_new.
  - left. by apply fine_wake.
  - left. by apply fine_select.
  - left. by apply fine_deselect.
  - apply inv_upd; [done| |by left]. destruct (inv_woken s p Hi (or_introl Hp)) as ([]&?&?&?).
    unfold task_ok. cbn. split_and!; [by constructor|done..].
  - destruct (inv_woken s p Hi (or_intror Hp)) as ([]&_). apply inv_upd; [done|..].
    + unfold task_ok, blank. cbn. rewrite o_in_rq0, Hq, o_next0. done.
    + right. unfold waits. rewrite Hp. by split_and!; [intros [?|?]|intros [?|?]|].
  - apply inv_other_group; [done|by rewrite Hg|by left].
  - by apply inv_release.
  - apply inv_other_group; [done|by rewrite Hg|by right].
  - apply inv_set_mig; [done| | |].
    + rewrite Hm. unfold placed. cbn. intros q [?|[Hq _]]; [by left|]. by apply elem_of_nil in Hq.
    + intros _. right. intros q. specialize (Hc q). by rewrite is_phase_spec in Hc.
    + split_and!; [done|done| |].
      * intros q Hq. specialize (Hp q Hq). rewrite orb_true_iff, !is_phase_spec in Hp. done.
      * exists []. split; [done|]. intros q Hq. by apply elem_of_nil in Hq.
  - left. by apply (fine_advance s).
Qed.

Lemma inv_attach_start : inv start.
Proof.
  constructor; [|done]. intros p. cbn. unfold task_ok. destruct (p =? 1); cbn; [|done].
  split_and!; [by constructor|done|done|by left].
Qed.

Lemma reach_attach s : rtc moves start s → inv s.
Proof.
  intros Hs. refine (rtc_ind_r inv start inv_attach_start _ s Hs). intros s1 s2 _ [l Hl] Hi.
  destruct (step_fine l _ _ Hi Hl) as [(s'&[= ->]&?)|(_&?&_)]; done.
Qed.

Lemma then_ok (l : label) s s' s'' : step l s (Ok s') → rtc moves s' s'' → rtc moves s s''.
Proof. intros Hs. apply rtc_l. by exists l. Qed.

(** A migration of one woken task can be carried out. *)
Lemma migrates p dst s : inv s → mig s = Idle → groups s dst = Online → (∀ q, at_phase (tasks s q) ≠ Chosen) → at_phase (tasks s p) = Alive →
  ∃ s', rtc moves s s' ∧ mig s' = Idle ∧ groups s' = groups s ∧ at_phase (tasks s' p) = Alive ∧ css (tasks s' p) = dst ∧
    current (tasks s' p) = current (tasks s p) ∧ ∀ q, q ≠ p → tasks s' q = tasks s q.
Proof.
  intros Hi Hm Hd Hc Ha. destruct (inv_woken s p Hi (or_introl Ha)) as ([Hn ? ? ? ?]&Hcss&Hg&_).
  set (s1 := set_mig (Attaching dst [p] [css (tasks s p)]) (upd p (with_css dst) s)).
  assert (tasks s1 p = with_css dst (tasks s p)) as E1 by (cbn; by rewrite fn_lookup_insert).
  destruct (move_ok s1 (tasks s1 p)) as (t'&E&Hph&Hcs&Hgr&Hcu&Ho); [rewrite E1; by constructor|by rewrite E1|by rewrite E1|].
  rewrite E1 in Hph, Hcs, Hgr, Hcu. exists (set_mig Idle (set_mig (Attaching dst [] [css (tasks s p)]) (upd p (λ _, t') s1))). split.
  - apply (then_ok (Migrate dst [p]) _ (set_mig (Checking dst [p] [p]) s)).
    { apply step_migrate; [by rewrite no_migration_spec|done|apply NoDup_singleton| |].
      - intros q. rewrite is_phase_spec. apply Hc.
      - intros q ->%list_elem_of_singleton. rewrite orb_true_iff, !is_phase_spec. by right. }
    apply (then_ok Advance _ (set_mig (Checking dst [] [p]) (set_mig (Checking dst [p] [p]) s))).
    { apply step_advance. cbn. by rewrite Hn. }
    apply (then_ok Advance _ s1); [by apply step_advance|].
    apply (then_ok Advance _ (set_mig (Attaching dst [] [css (tasks s p)]) (upd p (λ _, t') s1))).
    { apply step_advance. unfold advance. cbn [mig s1 set_mig]. by rewrite (on_task_ok p s1 _ t' E). }
    eapply (then_ok Advance); [by apply step_advance|apply rtc_refl].
  - cbn. rewrite !fn_lookup_insert, Hph, Hcs, Hcu. split_and!; [done..|]. intros q Hq. by rewrite !fn_lookup_insert_ne.
Qed.

(** * Properties *)

(** C19: in any interleaving of forks, wake-ups, exits, migrations and removals
    of groups, no step of the scheduler takes a task off a queue that it is not
    on, puts it on one twice, moves the load of a task that has none yet, or uses
    a group that was freed; but [sched_fork] uses one when the core does not
    keep the group that the child has copied. *)
Theorem group_changes_defined s l u : rtc moves start s → step l s (Undef u) →
  cgroup_fork_pins = false ∧ u = UseAfterFree ∧ ∃ child, l = Fork child ∧ groups s (sched_task_group (tasks s child)) = Freed.
Proof.
  intros Hr Hs. destruct (step_fine l s _ (reach_attach s Hr) Hs) as [(s'&[=]&_)|(?&[= ->]&?)]. by split_and!.
Qed.

(** When no migration is under way, every task that was put into a group
    is accounted there and nowhere else: its queue, its load and its group for
    the core are one group, which is online. *)
Theorem task_in_its_group s p : rtc moves start s → mig s = Idle →
  at_phase (tasks s p) = Alive ∨ at_phase (tasks s p) = Dying →
  sched_task_group (tasks s p) = css (tasks s p) ∧ groups s (css (tasks s p)) = Online ∧
  attached_to (tasks s p) = Some (css (tasks s p)) ∧
  in_rq (tasks s p) = (if on_rq (tasks s p) then Some (css (tasks s p)) else None).
Proof.
  intros Hr Hm Hp. destruct (inv_woken s p (reach_attach s Hr) Hp) as ([]&Hc&_&Hpl). rewrite Hm in Hpl.
  destruct Hpl as [Hg|[Hin _]]; [|by apply elem_of_nil in Hin]. rewrite <-Hg. split_and!; [done|by rewrite Hg|done..].
Qed.
End proofs.

(** * A freed group is used *)

#[local] Instance linux_cgroups : cgroup_code := {| cgroup_fork_pins := false |}.




(** The parent moves to a group, forks and is moved out before the child is put
    into a group; the group is removed and freed, and the child still has it. *)
Lemma freed_group_reached : ∃ s child, rtc moves start s ∧ step (Fork child) s (Undef UseAfterFree).
Proof.
  set (s1 := set_group 1 Online start).
  assert (rtc moves start s1) as R1 by (apply (then_ok (Create 1) _ s1); [by constructor|apply rtc_refl]).
  destruct (migrates 1 1 s1) as (s2&R2&Hm2&Hg2&Hp2&Hc2&Hr2&Ho2);
    [by apply reach_attach|done|done|intros q; cbn; by destruct (q =? 1)|done|].
  assert (at_phase (tasks s2 2) = Absent) as Ha2 by by rewrite Ho2.
  assert (at_phase (tasks s2 1) = Alive) as Hp2' by by rewrite Hp2.
  assert (rtc moves start s2) as R02 by by etransitivity.
  destruct (task_in_its_group s2 1) as (Hg&_); [done|done|by left|].
  set (s3 := upd 2 (λ _, Task Copied root (sched_task_group (tasks s2 1)) false false false None None false false) s2).
  assert (rtc moves start s3) as R3.
  { etransitivity; [done|]. apply (then_ok (Dup 1 2) _ s3); [|apply rtc_refl]. apply step_dup; rewrite ?is_phase_spec; [done|by rewrite Hr2|done]. }
  destruct (migrates 1 0 s3) as (s4&R4&Hm4&Hg4&Hp4&Hc4&Hr4&Ho4); [by apply reach_attach|done|by cbn; rewrite Hg2| |done|].
  { intros q. cbn. destruct (decide (q = 2)) as [->|]; [by rewrite fn_lookup_insert|rewrite fn_lookup_insert_ne by done].
    destruct (decide (q = 1)) as [->|]; [by rewrite Hp2'|]. rewrite Ho2 by done. cbn. by destruct (q =? 1). }
  assert (∀ q, ¬ keeps 1 (tasks s4 q)) as Hk.
  { intros q. unfold keeps. destruct (decide (q = 1)) as [->|]; [rewrite Hc4; naive_solver|]. rewrite Ho4 by done. cbn.
    destruct (decide (q = 2)) as [->|]; [rewrite fn_lookup_insert; cbn; naive_solver|rewrite fn_lookup_insert_ne by done].
    rewrite Ho2 by done. cbn. rewrite (proj2 (Z.eqb_neq q 1)) by done. naive_solver. }
  set (s5 := set_group 1 Freed (set_group 1 Offline s4)).
  assert (tasks s5 2 = tasks s3 2) as E5 by by cbn; rewrite Ho4.
  exists s5, 2. split.
  - etransitivity; [exact R3|]. etransitivity; [exact R4|]. eapply (then_ok (Release 1)).
    { apply step_release; [done|by rewrite Hg4; cbn; rewrite Hg2|done|rewrite Hm4; by intros []]. }
    eapply (then_ok (Free 1)); [by apply step_free|apply rtc_refl].
  - assert (on_task 2 s5 (λ t, t ← sched_fork s5 t; Ok (with_phase Forked t)) = Undef UseAfterFree) as <-.
    { unfold on_task. rewrite E5. cbn. rewrite fn_lookup_insert. unfold sched_fork, use, usable. cbn. by rewrite Hg, Hc2. }
    apply step_fork. rewrite is_phase_spec, E5. cbn. by rewrite fn_lookup_insert.
Qed.

(** C20: [sched_fork] uses a group that was freed: the comment there says that
    the group of the child is kept, but the core keeps only the initial group for
    it. *)
Theorem fork_uses_freed_group : ∃ s child,
  rtc moves start s ∧ at_phase (tasks s child) = Copied ∧ step (Fork child) s (Undef UseAfterFree).
Proof.
  destruct freed_group_reached as (s&child&Hr&Hs). exists s, child. split_and!; [done| |done].
  inversion Hs as [|? ? Hp| | | | | | | | | | | | | |]; subst. by rewrite is_phase_spec in Hp.
Qed.

Lemma group_changes_defined_witness : ∃ s child, groups s (sched_task_group (tasks s child)) = Freed.
Proof.
  destruct freed_group_reached as (s&child&Hr&Hs). destruct (group_changes_defined s (Fork child) UseAfterFree Hr Hs) as (_&_&c&_&Hc).
  by exists s, c.
Defined.

Lemma task_in_its_group_witness : attached_to (tasks start 1) = Some root ∧ in_rq (tasks start 1) = Some root.
Proof. destruct (task_in_its_group start 1) as (_&_&?&?); [apply rtc_refl|done|by left|]. done. Defined.
