(* ===== verification/Pick.v ===== *)
(** The choice of the next task in the kernel of assignment 4
    (src/과제/OS과제/과제4/core.c): [pick_next_task] with its short way for
    fair tasks, [put_prev_task_balance], [check_preempt_curr] and the places
    that put a task on a run queue and call it, against an interface of the
    scheduling classes, which are not in the repository. *)
From S2P Require Import Prelude.
Local Open Scope Z_scope.

(** * The interface of the classes *)

Inductive class : Set := stop_sched_class | dl_sched_class | rt_sched_class | fair_sched_class | idle_sched_class.
#[global] Instance class_eq_dec : EqDecision class.
Proof. solve_decision. Defined.

(** The order of their addresses, which [sched_init] checks. *)
Definition address (c : class) : Z :=
  match c with idle_sched_class => 0 | fair_sched_class => 1 | rt_sched_class => 2 | dl_sched_class => 3 | stop_sched_class => 4 end.

(** [for_each_class]. *)
Definition classes : list class := [stop_sched_class; dl_sched_class; rt_sched_class; fair_sched_class; idle_sched_class].

Inductive answer : Set := RETRY_TASK | Picked (p : option Z).

(** A run queue and what the classes do with it. [curr]: the task that runs
    as the classes know it, from [set_next_task] to [put_prev_task];
    [class_of]: [sched_class] of a task; [cfs_h_nr_running]: [cfs.h_nr_running];
    [class_check_preempt]: whether [check_preempt_curr] of the class of the
    running task marks it for the flags and the task. *)
Class scheduler := {
  rq : Type;
  class_of : Z → class;
  runnable : class → rq → list Z;
  curr : rq → option Z;
  nr_running : rq → Z;
  cfs_h_nr_running : rq → Z;
  balance : class → Z → rq → bool * rq;
  put_prev_task : Z → rq → rq;
  class_pick_next_task : class → rq → option Z * rq;
  pick_next_task_fair : Z → rq → answer * rq;
  enqueue_task : Z → rq → rq;
  dequeue_task : Z → rq → rq;
  class_check_preempt : Z → Z → rq → bool;
  WF_FORK : Z;
}.

(** What the comments of core.c say of them. A balancing may release the lock,
    so that tasks of all classes come and go; it says that a task of its class
    or a higher one is runnable. [pick_next_task_fair] takes care of [prev] when
    it picks a task; when it had to release the lock and tasks of other classes
    came, it asks for a retry. *)
Class scheduler_ok `{!scheduler} : Prop := {
  nr_running_counts q :
    nr_running q = Z.of_nat (length (runnable stop_sched_class q) + length (runnable dl_sched_class q) + length (runnable rt_sched_class q) + length (runnable fair_sched_class q));
  h_nr_running_counts q : cfs_h_nr_running q = Z.of_nat (length (runnable fair_sched_class q));
  runnable_class c p q : p ∈ runnable c q → class_of p = c;
  idle_runnable q : runnable idle_sched_class q ≠ [];
  balance_ok c prev q : curr q = Some prev → curr (balance c prev q).2 = Some prev ∧
    ((balance c prev q).1 = true → ∃ d, address c ≤ address d ∧ runnable d (balance c prev q).2 ≠ []);
  put_ok prev q : curr q = Some prev → curr (put_prev_task prev q) = None ∧ ∀ c, runnable c (put_prev_task prev q) = runnable c q;
  pick_ok c q : curr q = None → (∀ d, runnable d (class_pick_next_task c q).2 = runnable d q) ∧
    match (class_pick_next_task c q).1 with
    | Some p => p ∈ runnable c q ∧ curr (class_pick_next_task c q).2 = Some p
    | None => runnable c q = [] ∧ curr (class_pick_next_task c q).2 = None
    end;
  fair_ok prev q : curr q = Some prev → nr_running q = cfs_h_nr_running q →
    let '(a, q') := pick_next_task_fair prev q in
    match a with
    | RETRY_TASK => curr q' = Some prev
    | Picked (Some p) => p ∈ runnable fair_sched_class q' ∧ curr q' = Some p ∧ nr_running q' = cfs_h_nr_running q'
    | Picked None => nr_running q' = 0 ∧ curr q' = Some prev
    end;
  enqueue_ok p q : curr (enqueue_task p q) = curr q ∧ ∀ c, c ≠ class_of p → runnable c (enqueue_task p q) = runnable c q;
  dequeue_ok p q : curr (dequeue_task p q) = curr q ∧ ∀ c x, x ∈ runnable c (dequeue_task p q) → x ∈ runnable c q;
}.

Section pick.
Context `{!scheduler}.

(** * [pick_next_task] *)

(** The calls, in order. *)
Inductive call : Set := Balance (c : class) | Put (p : Z).

(** [for_class_range], with [l] the rest of the classes. *)
Fixpoint balance_pass (prev : Z) (l : list class) (q : rq) : list call * rq :=
  match l with
  | [] => ([], q)
  | c :: l => let '(b, q) := balance c prev q in if b then ([Balance c], q) else let '(tr, q) := balance_pass prev l q in (Balance c :: tr, q)
  end.

Definition class_range (from : class) : list class := filter (λ c, address c ≤ address from ∧ c ≠ idle_sched_class) classes.

Definition put_prev_task_balance (prev : Z) (q : rq) : list call * rq :=
  let '(tr, q) := balance_pass prev (class_range (class_of prev)) q in (tr ++ [Put prev], put_prev_task prev q).

Fixpoint first_class (l : list class) (q : rq) : res (Z * rq) :=
  match l with
  | [] => Undef BugOn
  | c :: l => let '(p, q) := class_pick_next_task c q in match p with Some p => Ok (p, q) | None => first_class l q end
  end.

Definition restart (prev : Z) (q : rq) : res (Z * list call * rq) :=
  let '(tr, q) := put_prev_task_balance prev q in '(p, q) ← first_class classes q; Ok (p, tr, q).

Definition pick_next_task (prev : Z) (q : rq) : res (Z * list call * rq) :=
  if (address (class_of prev) <=? address fair_sched_class) && (nr_running q =? cfs_h_nr_running q) then
    let '(a, q) := pick_next_task_fair prev q in
    match a with
    | RETRY_TASK => restart prev q
    | Picked (Some p) => Ok (p, [], q)
    | Picked None =>
        let q := put_prev_task prev q in
        let '(p, q) := class_pick_next_task idle_sched_class q in
        p ← opt NullPointer p; Ok (p, [Put prev], q)
    end
  else restart prev q.

(** The class of the best runnable task, by definition. *)
Definition runnable_somewhere (q : rq) (c : class) : bool := bool_decide (runnable c q ≠ []).
Definition highest (q : rq) : class := default idle_sched_class (head (filter (λ c, runnable_somewhere q c = true) classes)).

(** * [check_preempt_curr] *)

(** A run queue with the mark of its current task, and whether the next update
    of the clock is left out. *)
Record state := State { queue : rq; need_resched : bool; clock_skip_update : bool }.

(** [queued]: the running task is on the run queue, that is, not about to
    sleep. *)
Definition check_preempt_curr (queued : bool) (flags p : Z) (s : state) : state :=
  match curr (queue s) with
  | None => s
  | Some c =>
      let marked :=
        if bool_decide (class_of p = class_of c) then need_resched s || class_check_preempt flags p (queue s)
        else if address (class_of c) <? address (class_of p) then true else need_resched s in
      State (queue s) marked (if queued && marked then true else clock_skip_update s)
  end.

(** * The places that put tasks on a run queue and take them off *)

Definition activate_task (p : Z) (s : state) : state := State (enqueue_task p (queue s)) (need_resched s) (clock_skip_update s).
Definition deactivate_task (p : Z) (s : state) : state := State (dequeue_task p (queue s)) (need_resched s) (clock_skip_update s).

Definition ttwu_do_wakeup (queued : bool) (flags p : Z) (s : state) : state := check_preempt_curr queued flags p s.
Definition ttwu_do_activate (queued : bool) (flags p : Z) (s : state) : state := ttwu_do_wakeup queued flags p (activate_task p s).
Definition wake_up_new_task (queued : bool) (p : Z) (s : state) : state := check_preempt_curr queued WF_FORK p (activate_task p s).

(** What [move_queued_task] and [__migrate_swap_task] do with the run queue to
    which the task comes; that from which it goes sees [deactivate_task]. *)
Definition move_queued_task (queued : bool) (p : Z) (s : state) : state := check_preempt_curr queued 0 p (activate_task p s).
Definition __migrate_swap_task (queued : bool) (p : Z) (s : state) : state := check_preempt_curr queued 0 p (activate_task p s).

(** [__schedule]; [block]: the running task goes to sleep. *)
Definition __schedule (block : bool) (prev : Z) (s : state) : res state :=
  '(_, _, q) ← pick_next_task prev (queue (if block then deactivate_task prev s else s)); Ok (State q false false).

(** A run queue, in any order: a wake-up of a task that is on it still; the
    wake-up of one that is not; a new task; one that is moved here, alone or in an
    exchange; a task other than the running one leaves; a switch. *)
Inductive label : Set :=
  | WakeRunnable (queued : bool) (flags p : Z)
  | Wake (queued : bool) (flags p : Z)
  | New (queued : bool) (p : Z)
  | Arrive (queued : bool) (p : Z)
  | SwapIn (queued : bool) (p : Z)
  | Leave (p : Z)
  | Schedule (block : bool).

Definition do (l : label) (s : state) : option (res state) :=
  match l with
  | WakeRunnable queued flags p => Some (Ok (ttwu_do_wakeup queued flags p s))
  | Wake queued flags p => Some (Ok (ttwu_do_activate queued flags p s))
  | New queued p => Some (Ok (wake_up_new_task queued p s))
  | Arrive queued p => Some (Ok (move_queued_task queued p s))
  | SwapIn queued p => Some (Ok (__migrate_swap_task queued p s))
  | Leave p => if decide (curr (queue s) = Some p) then None else Some (Ok (deactivate_task p s))
  | Schedule block => match curr (queue s) with Some prev => Some (__schedule block prev s) | None => None end
  end.
Definition step (s s' : state) : Prop := ∃ l, do l s = Some (Ok s').
End pick.
