(* ===== verification/PickProofs.v ===== *)
(** The choice of the next task (Pick): both ways find a task of the best
    class, the balancing leaves out no class, and no task of a better class
    waits without a mark on the running one. *)
From Stdlib Require Import Sorted.
From S2P Require Import Prelude Pick.
Local Open Scope Z_scope.

Section proofs.
Context `{ss : !scheduler, ok : !scheduler_ok}.
Implicit Types (q : rq) (c d : class) (p prev : Z).

(** * The best class *)

Definition empty_above c q : Prop := ∀ d, address c < address d → runnable d q = [].

Lemma in_classes c : c ∈ classes.
Proof. destruct c; set_solver. Qed.

Lemma address_inj c d : address c = address d → c = d.
Proof. by destruct c, d. Qed.

Lemma head_filter (P : class → Prop) `{!∀ c, Decision (P c)} l1 c l2 : (∀ d, d ∈ l1 → ¬ P d) → P c → head (filter P (l1 ++ c :: l2)) = Some c.
Proof.
  intros Hn Hc. rewrite filter_app. induction l1 as [|d l1 IH]; cbn.
  - by rewrite decide_True.
  - rewrite decide_False by set_solver. apply IH. set_solver.
Qed.

Lemma highest_spec q c : runnable c q ≠ [] → empty_above c q → highest q = c.
Proof.
  intros Hc He. unfold highest.
  assert (∃ l1 l2, classes = l1 ++ c :: l2 ∧ ∀ d, d ∈ l1 → address c < address d) as (l1&l2&->&Hl).
  { destruct c;
      [exists [], (drop 1 classes) | exists (take 1 classes), (drop 2 classes) | exists (take 2 classes), (drop 3 classes)
      |exists (take 3 classes), (drop 4 classes) | exists (take 4 classes), []]; (split; [done|]); cbn; intros d Hd; set_solver by lia. }
  rewrite head_filter; [done| |by apply bool_decide_eq_true].
  intros d Hd. unfold runnable_somewhere. rewrite bool_decide_eq_true, (He d) by auto. by intros [].
Qed.

(** * The ways to the next task *)

Lemma first_class_spec l q : curr q = None → idle_sched_class ∈ l →
  ∃ p q', first_class l q = Ok (p, q') ∧ curr q' = Some p ∧ (∀ d, runnable d q' = runnable d q) ∧ p ∈ runnable (class_of p) q' ∧
    ∃ l1 l2, l = l1 ++ class_of p :: l2 ∧ ∀ d, d ∈ l1 → runnable d q = [].
Proof.
  revert q. induction l as [|c l IH]; intros q Hc Hin; [by apply elem_of_nil in Hin|]. cbn.
  destruct (pick_ok c q Hc) as [Hr Hp]. destruct (class_pick_next_task c q) as [[p|] q'] eqn:E; cbn in *.
  - destruct Hp as [Hp Hc']. exists p, q'. rewrite (runnable_class c p q Hp). split_and!; [done..|by rewrite Hr|].
    exists [], l. split; [done|]. intros d Hd. by apply elem_of_nil in Hd.
  - destruct Hp as [Hp Hc'].
    assert (idle_sched_class ∈ l) as Hl by (apply elem_of_cons in Hin as [<-|?]; [by destruct (idle_runnable q)|done]).
    destruct (IH q' Hc' Hl) as (p&q2&Ef&H1&H2&H3&l1&l2&El&H4). exists p, q2. split_and!; [done..|intros d; by rewrite H2|done|].
    exists (c :: l1), l2. split; [by rewrite El|]. intros d [->|Hd]%elem_of_cons; [done|]. rewrite <-Hr. auto.
Qed.

Lemma above_in_classes c l1 l2 d : classes = l1 ++ c :: l2 → address c < address d → d ∈ l1.
Proof.
  intros E Hd. do 5 (destruct l1 as [|? l1]; [injection E as <- _; destruct d; cbn in Hd; try lia; set_solver by done|injection E as <- E]).
  by destruct l1.
Qed.

Lemma class_range_sorted c : StronglySorted (λ a b, address b < address a) (class_range c).
Proof. destruct c; cbv -[address]; repeat constructor. Qed.
Lemma in_class_range c d : address c ≤ address d → c ≠ idle_sched_class → c ∈ class_range d.
Proof. intros Hc Hi. apply list_elem_of_filter. split; [done|apply in_classes]. Qed.

Lemma balance_pass_spec prev l q : curr q = Some prev → StronglySorted (λ a b, address b < address a) l →
  ∃ l1 q', balance_pass prev l q = (Balance <$> l1, q') ∧ curr q' = Some prev ∧
    ∀ c, c ∈ l → c ∈ l1 ∨ ∃ d, address c ≤ address d ∧ runnable d q' ≠ [].
Proof.
  intros Hc Hs. revert q Hc. induction Hs as [|c l Hs IH Hl]; intros q Hc; cbn; [exists [], q; split_and!; [done..|set_solver]|].
  destruct (balance_ok c prev q Hc) as [Hc' Hb]. destruct (balance c prev q) as [[] q1]; cbn in *.
  - destruct (Hb eq_refl) as (d&Hd&Hr). exists [c], q1. split_and!; [done..|]. intros c' [->|Hc1]%elem_of_cons; [left; set_solver|].
    right. exists d. split; [|done]. rewrite Forall_forall in Hl. specialize (Hl c' Hc1). cbn in Hl. lia.
  - destruct (IH q1 Hc') as (l1&q2&->&H1&H2). exists (c :: l1), q2. split_and!; [done..|].
    intros c' [->|Hc1]%elem_of_cons; [left; set_solver|]. destruct (H2 c' Hc1); [left; set_solver|by right].
Qed.

(** What [pick_next_task] promises. *)
Definition picked prev q p (tr : list call) q' : Prop :=
  curr q' = Some p ∧ p ∈ runnable (class_of p) q' ∧ empty_above (class_of p) q' ∧
  ∀ c, address (class_of p) < address c ≤ address (class_of prev) →
    Balance c ∈ tr ∨ c = fair_sched_class ∧ (pick_next_task_fair prev q).1 = Picked None.

Lemma restart_spec prev q0 q : curr q = Some prev → ∃ p tr q', restart prev q = Ok (p, tr, q') ∧ picked prev q0 p tr q'.
Proof.
  intros Hc. unfold restart, put_prev_task_balance.
  destruct (balance_pass_spec prev (class_range (class_of prev)) q Hc (class_range_sorted _)) as (l1&q1&->&Hc1&Hb).
  destruct (put_ok prev q1 Hc1) as [Hn Hr]. destruct (first_class_spec classes (put_prev_task prev q1) Hn) as (p&q2&->&H1&H2&H3&l2&l3&El&H4); [apply in_classes|].
  assert (empty_above (class_of p) q2) as Ha.
  { intros d Hd. rewrite H2. apply H4. by eapply above_in_classes. }
  eexists p, _, q2. split; [reflexivity|]. split_and!; [done..|]. intros c Hcp. left.
  assert (c ≠ idle_sched_class) as Hi by (intros ->; destruct (class_of p); cbn in Hcp; lia).
  destruct (Hb c) as [Hl|(d&Hd&Hne)]; [by apply in_class_range; [lia|]| |].
  - apply elem_of_app. left. apply list_elem_of_fmap. by exists c.
  - destruct Hne. rewrite <-Hr, <-H2. apply Ha. lia.
Qed.

Lemma all_fair q : nr_running q = cfs_h_nr_running q → empty_above fair_sched_class q.
Proof.
  rewrite nr_running_counts, h_nr_running_counts. intros He d Hd. destruct d; cbn in Hd; try lia; apply length_zero_iff_nil; lia.
Qed.

Lemma pick_spec prev q : curr q = Some prev → ∃ p tr q', pick_next_task prev q = Ok (p, tr, q') ∧ picked prev q p tr q'.
Proof.
  intros Hc. unfold pick_next_task. destruct (Z.leb_spec (address (class_of prev)) (address fair_sched_class)) as [Hp|]; [|by apply restart_spec].
  destruct (Z.eqb_spec (nr_running q) (cfs_h_nr_running q)) as [Hn|]; [|by apply restart_spec]. cbn [andb].
  pose proof (fair_ok prev q Hc Hn) as Hf. destruct (pick_next_task_fair prev q) as [[|[p|]] q1] eqn:E.
  - by apply restart_spec.
  - destruct Hf as (Hin&Hc1&He). exists p, [], q1. split; [done|]. unfold picked. rewrite (runnable_class _ _ _ Hin).
    split_and!; [done|done|by apply all_fair|]. intros c Hcp. cbn in *. lia.
  - destruct Hf as [Hz Hc1]. destruct (put_ok prev q1 Hc1) as [Hn2 Hr]. destruct (pick_ok idle_sched_class _ Hn2) as [Hr2 Hp2].
    destruct (class_pick_next_task idle_sched_class (put_prev_task prev q1)) as [[p|] q2]; cbn in *;
      [|by destruct Hp2 as [Hp2 _]; apply idle_runnable in Hp2].
    destruct Hp2 as [Hin Hc2]. exists p, [Put prev], q2. split; [done|]. pose proof (runnable_class _ _ _ Hin) as Hcl. unfold picked. rewrite Hcl.
    split_and!; [done|by rewrite Hr2| |].
    + intros d Hd. rewrite Hr2, Hr. rewrite nr_running_counts in Hz. destruct d; cbn in Hd; try lia; apply length_zero_iff_nil; lia.
    + intros c Hcp. right. rewrite E. split; [|done]. apply address_inj. cbn in *. lia.
Qed.

(** C21: [pick_next_task] always returns a task, which the classes know as the
    running one; it is a runnable task of the best class that has any, in the
    short way for fair tasks as in the long one. *)
Theorem next_task_is_best prev q : curr q = Some prev →
  ∃ p tr q', pick_next_task prev q = Ok (p, tr, q') ∧ curr q' = Some p ∧ class_of p = highest q' ∧ p ∈ runnable (highest q') q'.
Proof.
  intros Hc. destruct (pick_spec prev q Hc) as (p&tr&q'&E&H1&H2&H3&_). exists p, tr, q'.
  rewrite (highest_spec q' (class_of p)); [done| |done]. intros Hn. rewrite Hn in H2. by apply elem_of_nil in H2.
Qed.

(** Before a task of a class is chosen, every better class, from that of
    the previous task on, could pull tasks from other processors; the fair class
    does it itself in the short way. *)
Theorem balancing_complete prev q p tr q' c : curr q = Some prev → pick_next_task prev q = Ok (p, tr, q') →
  address (class_of p) < address c ≤ address (class_of prev) →
  Balance c ∈ tr ∨ c = fair_sched_class ∧ (pick_next_task_fair prev q).1 = Picked None.
Proof. intros Hc Hk. destruct (pick_spec prev q Hc) as (?&?&?&E&_&_&_&Hb). rewrite E in Hk. injection Hk as -> -> ->. by apply Hb. Qed.

(** * The mark of the running task *)

Definition marked_if_beaten (s : state) : Prop :=
  ∃ x, curr (queue s) = Some x ∧ (need_resched s = true ∨ empty_above (class_of x) (queue s)).

(** A task [p] that comes, and the look at the running one. *)
Lemma check_marked s queued flags p : marked_if_beaten s ∨ (∃ q, marked_if_beaten (State q (need_resched s) (clock_skip_update s)) ∧
    curr (queue s) = curr q ∧ ∀ c, c ≠ class_of p → runnable c (queue s) = runnable c q) →
  marked_if_beaten (check_preempt_curr queued flags p s).
Proof.
  intros Hm0.
  assert (∃ x, curr (queue s) = Some x ∧ (need_resched s = true ∨ ∀ d, address (class_of x) < address d → d ≠ class_of p → runnable d (queue s) = []) ∧
    (need_resched s = true ∨ address (class_of p) ≤ address (class_of x) → need_resched s = true ∨ empty_above (class_of x) (queue s))) as (x & Hx & H1 & H2).
  { destruct Hm0 as [(x & Hx & Hm)|(q & (x & Hx & Hm) & Hq & Hr)]; exists x; simpl in *.
    - split; [done|]. split; [destruct Hm as [?|He]; [by left|right; auto]|done].
    - split; [congruence|]. destruct Hm as [?|He]; [by split; auto|]. split; [right; intros d Hd Hne; rewrite Hr by done; auto|].
      intros [?|Hle]; [by left|]. right. intros d Hd. rewrite Hr by (intros ->; lia). auto. }
  unfold check_preempt_curr. rewrite Hx. exists x. split; [done|]. cbn. case_bool_decide as Hcl.
  - destruct H2 as [->|He]; [right; rewrite Hcl; lia|by left|]. destruct (need_resched s || _); [by left|by right].
  - destruct (Z.ltb_spec (address (class_of x)) (address (class_of p))); [by left|]. apply H2. by right.
Qed.

Lemma activate_marked s p queued flags : marked_if_beaten s → marked_if_beaten (check_preempt_curr queued flags p (activate_task p s)).
Proof.
  intros Hm. apply check_marked. right. exists (queue s). destruct (enqueue_ok p (queue s)). by destruct s.
Qed.
Lemma deactivate_marked s p : marked_if_beaten s → marked_if_beaten (deactivate_task p s).
Proof.
  intros (x & Hx & Hm). destruct (dequeue_ok p (queue s)) as [E Hr]. exists x. cbn. split; [congruence|].
  destruct Hm as [?|He]; [by left|right]. intros d Hd. specialize (He d Hd).
  destruct (runnable d (dequeue_task p (queue s))) as [|y l] eqn:El; [done|]. exfalso.
  specialize (Hr d y). rewrite El, He in Hr. apply (not_elem_of_nil y), Hr. by left.
Qed.

Lemma schedule_marked block prev s s' : curr (queue s) = Some prev → __schedule block prev s = Ok s' → marked_if_beaten s'.
Proof.
  intros Hc H. unfold __schedule in H. set (u := if block then deactivate_task prev s else s) in *.
  assert (curr (queue u) = Some prev) as Hu by (subst u; destruct block; [cbn; by rewrite (proj1 (dequeue_ok _ _))|done]).
  destruct (pick_spec prev _ Hu) as (p&tr&q'&E&Hc2&_&He&_). rewrite E in H. injection H as <-. exists p. split; [done|]. by right.
Qed.

Lemma step_marked s s' : step s s' → marked_if_beaten s → marked_if_beaten s'.
Proof.
  intros [l H] Hm. destruct l; cbn [do] in H.
  - injection H as <-. apply check_marked. by left.
  - injection H as <-. by apply activate_marked.
  - injection H as <-. by apply activate_marked.
  - injection H as <-. by apply activate_marked.
  - injection H as <-. by apply activate_marked.
  - case_decide; [done|]. injection H as <-. by apply deactivate_marked.
  - destruct (curr (queue s)) eqn:E; [|done]. injection H as H. by eapply schedule_marked.
Qed.

(** C22: after a switch, in any sequence of wake-ups, new tasks, moves to and
    from the run queue, exchanges and further switches, while no task changes
    its class, a task of a better class than the running one is runnable only
    while the running one is marked for rescheduling. *)
Theorem better_class_preempts s0 block s s' : do (Schedule block) s0 = Some (Ok s) → rtc step s s' →
  ∃ y, curr (queue s') = Some y ∧ (need_resched s' = false → ∀ d, address (class_of y) < address d → runnable d (queue s') = []).
Proof.
  intros H0 Hr. assert (marked_if_beaten s) as Hs.
  { cbn [do] in H0. destruct (curr (queue s0)) eqn:E; [|done]. injection H0 as H0. by eapply schedule_marked. }
  assert (marked_if_beaten s') as (y&Hy&Hm).
  { refine (rtc_ind_r marked_if_beaten s Hs _ s' Hr). intros. by eapply step_marked. }
  exists y. split; [done|]. intros Hn. destruct Hm as [Hm|Hm]; [congruence|exact Hm].
Qed.
End proofs.

(** * Classes that keep their tasks in a list *)

Record simple_rq := SimpleRq { waiting : list Z; running : option Z }.

Definition simple_class (p : Z) : class :=
  if p =? 0 then idle_sched_class else if p <? 100 then fair_sched_class else if p <? 200 then rt_sched_class
  else if p <? 300 then dl_sched_class else stop_sched_class.
Definition simple_runnable (c : class) (q : simple_rq) : list Z := filter (λ p, simple_class p = c) (waiting q ++ [0]).
Definition simple_count (q : simple_rq) : Z :=
  Z.of_nat (length (simple_runnable stop_sched_class q) + length (simple_runnable dl_sched_class q) + length (simple_runnable rt_sched_class q) + length (simple_runnable fair_sched_class q)).
Definition simple_choice (c : class) (q : simple_rq) : option Z * simple_rq :=
  match simple_runnable c q with [] => (None, q) | p :: _ => (Some p, SimpleRq (waiting q) (Some p)) end.

#[local] Instance simple_classes : scheduler := {|
  rq := simple_rq;
  class_of := simple_class;
  runnable := simple_runnable;
  curr := running;
  nr_running := simple_count;
  cfs_h_nr_running q := Z.of_nat (length (simple_runnable fair_sched_class q));
  balance c prev q := (bool_decide (simple_runnable c q ≠ []), q);
  put_prev_task p q := SimpleRq (waiting q) None;
  class_pick_next_task := simple_choice;
  pick_next_task_fair prev q := let '(p, q) := simple_choice fair_sched_class q in (Picked p, q);
  enqueue_task p q := SimpleRq (waiting q ++ [p]) (running q);
  dequeue_task p q := SimpleRq (filter (λ x, x ≠ p) (waiting q)) (running q);
  class_check_preempt _ _ _ := false;
  WF_FORK := 4;
|}.

Lemma simple_ok : scheduler_ok.
Proof.
  constructor; cbn.
  - done.
  - done.
  - intros c p q [Hc _]%list_elem_of_filter. done.
  - intros q Hn. assert (0 ∈ simple_runnable idle_sched_class q) as Hin; [|rewrite Hn in Hin; by apply elem_of_nil in Hin].
    apply list_elem_of_filter. split; [done|]. set_solver.
  - intros c prev q Hc. split; [done|]. intros Hb%bool_decide_eq_true. by exists c.
  - done.
  - intros c q Hc. unfold simple_choice. destruct (simple_runnable c q) as [|p l] eqn:E; cbn; [done|]. split; [done|]. split; [set_solver|done].
  - intros prev q Hc Hn. unfold simple_choice. destruct (simple_runnable fair_sched_class q) as [|p l] eqn:E; cbn; rewrite ?E in *.
    + by rewrite Hn.
    + split_and!; [change (p ∈ simple_runnable fair_sched_class q); rewrite E; set_solver|done|].
      change (simple_count q = Z.of_nat (length (simple_runnable fair_sched_class q))). by rewrite E.
  - intros p q. split; [done|]. intros c Hc. unfold simple_runnable. cbn [waiting].
    rewrite !filter_app. assert (filter (λ x, simple_class x = c) [p] = []) as ->.
    { rewrite filter_cons, decide_False by congruence. done. }
    by rewrite app_nil_r.
  - intros p q. split; [done|]. intros c x. unfold simple_runnable. cbn [waiting].
    rewrite !list_elem_of_filter, !elem_of_app, list_elem_of_filter. tauto.
Qed.

Definition fair_alone : rq := SimpleRq [5] (Some 5).
Definition rt_left : rq := SimpleRq [5] (Some 150).
Lemma next_task_is_best_witness : ∃ tr q', pick_next_task 5 fair_alone = Ok (5, tr, q').
Proof.
  destruct (@next_task_is_best _ simple_ok 5 fair_alone eq_refl) as (p&tr&q'&E&_). exists tr, q'.
  rewrite E. f_equal. f_equal. f_equal. vm_compute in E. by injection E.
Defined.

Lemma balancing_complete_witness : ∃ tr q', pick_next_task 150 rt_left = Ok (5, tr, q') ∧ Balance rt_sched_class ∈ tr.
Proof.
  eexists _, _. split; [reflexivity|].
  destruct (@balancing_complete _ simple_ok 150 rt_left 5 _ _ rt_sched_class eq_refl eq_refl) as [H|[H _]]; [vm_compute; split; [done|discriminate]|exact H|discriminate H].
Defined.

(** The fair task runs, and a new real-time task comes. *)
Definition scheduled : state := State fair_alone false false.
Lemma better_class_preempts_witness :
  let s := wake_up_new_task true 150 scheduled in
  runnable rt_sched_class (queue s) = [150] ∧ need_resched s = true ∧
  ∃ y, curr (queue s) = Some y ∧ (need_resched s = false → ∀ d, address (class_of y) < address d → runnable d (queue s) = []).
Proof.
  split_and!; [reflexivity|reflexivity|].
  apply (@better_class_preempts _ simple_ok scheduled false scheduled).
  - vm_compute. reflexivity.
  - apply rtc_once. by exists (New true 150).
Defined.
