(* ===== verification/Moves.v ===== *)
(** Tasks that change places in the kernel of assignment 4
    (src/과제/OS과제/과제4/core.c): [migrate_swap], which exchanges two tasks
    while the stoppers hold both processors, next to moves, wake-ups and changes
    of affinity; and [yield_to], which hands the processor to a task that may
    be moved meanwhile. kernel/stop_machine.c is not in the repository: its
    stoppers are taken to run one function at a time, on both processors and
    instead of their tasks, or to refuse. *)
From S2P Require Import Prelude.
Local Open Scope Z_scope.

Definition EINVAL : Z := 22.
Definition EAGAIN : Z := 11.
Definition ESRCH : Z := 3.

(** * [migrate_swap] *)

Inductive on_rq_state : Set := NotQueued | Queued | Migrating.
#[global] Instance on_rq_state_eq_dec : EqDecision on_rq_state.
Proof. solve_decision. Defined.

Record task := Task {
  cpu : Z;
  on_rq : on_rq_state;
  on_cpu : bool;
  cpus_ptr : list Z;
  wake_cpu : Z;
}.

Record migration_swap_arg := Arg { src_task : Z; src_cpu : Z; dst_task : Z; dst_cpu : Z }.

(** Where a call is: before each of its tests without locks, before
    [stop_two_cpus]; in the stoppers, before the test of the processors and
    before the locks; and with its return value. *)
Inductive place : Set :=
  | Free
  | TestActive (a : migration_swap_arg)
  | TestSrc (a : migration_swap_arg)
  | TestDst (a : migration_swap_arg)
  | Stop (a : migration_swap_arg)
  | Stopped (a : migration_swap_arg)
  | Locked (a : migration_swap_arg)
  | Leaving (a : migration_swap_arg) (ret : Z)
  | Returned (ret : Z).

(** [stopper]: the call whose function a stopper runs. *)
Record state := State { tasks : Z → task; active : Z → bool; stopper : Z → option Z; calls : Z → place }.

Definition with_cpu (v : Z) (t : task) : task := Task v (on_rq t) (on_cpu t) (cpus_ptr t) (wake_cpu t).
Definition with_on_rq (v : on_rq_state) (t : task) : task := Task (cpu t) v (on_cpu t) (cpus_ptr t) (wake_cpu t).
Definition with_on_cpu (v : bool) (t : task) : task := Task (cpu t) (on_rq t) v (cpus_ptr t) (wake_cpu t).
Definition with_cpus (v : list Z) (t : task) : task := Task (cpu t) (on_rq t) (on_cpu t) v (wake_cpu t).
Definition with_wake_cpu (v : Z) (t : task) : task := Task (cpu t) (on_rq t) (on_cpu t) (cpus_ptr t) v.

Definition upd (p : Z) (f : task → task) (s : state) : state := State (<[p := f (tasks s p)]> (tasks s)) (active s) (stopper s) (calls s).
Definition goto (i : Z) (k : place) (s : state) : state := State (tasks s) (active s) (stopper s) (<[i := k]> (calls s)).
Definition set_active (c : Z) (b : bool) (s : state) : state := State (tasks s) (<[c := b]> (active s)) (stopper s) (calls s).

(** [set_task_cpu]: a task that runs cannot be moved. *)
Definition set_task_cpu (c : Z) (t : task) : res task := if on_cpu t then Undef BugOn else Ok (with_wake_cpu c (with_cpu c t)).

Definition task_on_rq_queued (t : task) : bool := bool_decide (on_rq t = Queued).

Definition __migrate_swap_task (p c : Z) (s : state) : res state :=
  if task_on_rq_queued (tasks s p) then
    t ← set_task_cpu c (with_on_rq Migrating (tasks s p));
    Ok (upd p (λ _, with_on_rq Queued t) s)
  else Ok (upd p (with_wake_cpu c) s).

(** The region under the locks of both tasks and both run queues. *)
Definition migrate_swap_locked (a : migration_swap_arg) (s : state) : res (Z * state) :=
  if negb (cpu (tasks s (dst_task a)) =? dst_cpu a) then Ok (- EAGAIN, s)
  else if negb (cpu (tasks s (src_task a)) =? src_cpu a) then Ok (- EAGAIN, s)
  else if negb (bool_decide (dst_cpu a ∈ cpus_ptr (tasks s (src_task a)))) then Ok (- EAGAIN, s)
  else if negb (bool_decide (src_cpu a ∈ cpus_ptr (tasks s (dst_task a)))) then Ok (- EAGAIN, s)
  else
    s ← __migrate_swap_task (src_task a) (dst_cpu a) s;
    s ← __migrate_swap_task (dst_task a) (src_cpu a) s;
    Ok (0, s).

(** Both processors run their stoppers instead of what they ran. *)
Definition stop_two_cpus (i : Z) (a : migration_swap_arg) (s : state) : state :=
  State (λ p, if (cpu (tasks s p) =? src_cpu a) || (cpu (tasks s p) =? dst_cpu a) then with_on_cpu false (tasks s p) else tasks s p)
    (active s) (<[src_cpu a := Some i]> (<[dst_cpu a := Some i]> (stopper s))) (calls s).
Definition restart_two_cpus (a : migration_swap_arg) (s : state) : state :=
  State (tasks s) (active s) (<[src_cpu a := None]> (<[dst_cpu a := None]> (stopper s))) (calls s).

Definition migrate_swap (i cur p target_cpu curr_cpu : Z) (s : state) : state :=
  if curr_cpu =? target_cpu then goto i (Returned (- EINVAL)) s else goto i (TestActive (Arg cur curr_cpu p target_cpu)) s.

(** The next step of a call. [refused]: the answer of [stop_two_cpus] when it
    does not run the function. *)
Definition go (i : Z) (refused : option Z) (s : state) : option (res state) :=
  match calls s i with
  | Free | Returned _ => None
  | TestActive a =>
      Some (Ok (goto i (if negb (active s (src_cpu a)) || negb (active s (dst_cpu a)) then Returned (- EINVAL) else TestSrc a) s))
  | TestSrc a => Some (Ok (goto i (if bool_decide (dst_cpu a ∈ cpus_ptr (tasks s (src_task a))) then TestDst a else Returned (- EINVAL)) s))
  | TestDst a => Some (Ok (goto i (if bool_decide (src_cpu a ∈ cpus_ptr (tasks s (dst_task a))) then Stop a else Returned (- EINVAL)) s))
  | Stop a =>
      match refused with
      | Some ret => Some (Ok (goto i (Returned ret) s))
      | None =>
          match stopper s (src_cpu a), stopper s (dst_cpu a) with
          | None, None => Some (Ok (goto i (Stopped a) (stop_two_cpus i a s)))
          | _, _ => None
          end
      end
  | Stopped a =>
      Some (Ok (goto i (if negb (active s (src_cpu a)) || negb (active s (dst_cpu a)) then Leaving a (- EAGAIN) else Locked a) s))
  | Locked a => Some ('(ret, s) ← migrate_swap_locked a s; Ok (goto i (Leaving a ret) s))
  | Leaving a ret => Some (Ok (goto i (Returned ret) (restart_two_cpus a s)))
  end.

(** [Run] and [Rest]: a task is switched to and from; [Sleep]: for good;
    [Wake]: it is woken on a processor; [Move]: another migration; [Detach] and
    [Attach]: the halves of one by the load balancing. *)
Inductive label : Set :=
  | Swap (i cur p target_cpu curr_cpu : Z)
  | Go (i : Z) (refused : option Z)
  | Run (p : Z)
  | Rest (p : Z)
  | Sleep (p : Z)
  | Wake (p c : Z)
  | Move (p c : Z)
  | Detach (p c : Z)
  | Attach (p : Z)
  | SetCpus (p : Z) (cpus : list Z)
  | SetActive (c : Z) (b : bool).

Definition stoppable (c : Z) (s : state) : bool := match stopper s c with None => true | Some _ => false end.
Definition is_free (i : Z) (s : state) : bool := match calls s i with Free | Returned _ => true | _ => false end.
Definition occupied (c : Z) (s : state) (p : Z) : bool := (cpu (tasks s p) =? c) && on_cpu (tasks s p).

Definition do (l : label) (s : state) : option (res state) :=
  match l with
  | Swap i cur p target_cpu curr_cpu => if is_free i s && negb (cur =? p) then Some (Ok (migrate_swap i cur p target_cpu curr_cpu s)) else None
  | Go i refused => go i refused s
  | Run p => if task_on_rq_queued (tasks s p) && stoppable (cpu (tasks s p)) s then Some (Ok (upd p (with_on_cpu true) s)) else None
  | Rest p => if on_cpu (tasks s p) then Some (Ok (upd p (with_on_cpu false) s)) else None
  | Sleep p => if on_cpu (tasks s p) then Some (Ok (upd p (λ t, with_on_cpu false (with_on_rq NotQueued t)) s)) else None
  | Wake p c =>
      if bool_decide (on_rq (tasks s p) = NotQueued) then
        Some (t ← set_task_cpu c (tasks s p); Ok (upd p (λ _, with_on_rq Queued t) s))
      else None
  | Move p c =>
      if task_on_rq_queued (tasks s p) && negb (on_cpu (tasks s p)) then
        Some (t ← set_task_cpu c (tasks s p); Ok (upd p (λ _, t) s))
      else None
  | Detach p c =>
      if task_on_rq_queued (tasks s p) && negb (on_cpu (tasks s p)) then
        Some (t ← set_task_cpu c (with_on_rq Migrating (tasks s p)); Ok (upd p (λ _, t) s))
      else None
  | Attach p => if bool_decide (on_rq (tasks s p) = Migrating) then Some (Ok (upd p (with_on_rq Queued) s)) else None
  | SetCpus p cpus => Some (Ok (upd p (with_cpus cpus) s))
  | SetActive c b => Some (Ok (set_active c b s))
  end.

Definition step (s s' : state) : Prop := ∃ l, do l s = Some (Ok s').
Definition start : state := State (λ p, Task 0 NotQueued false [] 0) (λ _, true) (λ _, None) (λ _, Free).

(** * [yield_to] *)

(** What [yield_to] reads of the target [p] and of the processors; [this]: the
    processor of the caller. *)
Record scene := Scene {
  p_cpu : Z;
  p_running : bool;
  p_state : Z;
  same_class : bool;
  counts : Z → Z;
}.

(** The class of the caller: [yield_to_task], when it has it. *)
Definition class_yield : Type := option (scene → Z).

(** What happens: [resched_curr] of a processor, and [schedule]. *)
Inductive yield_event : Set := Resched (c : Z) | Schedule.

(** The region under both locks. *)
Definition yield_locked (this : Z) (class : class_yield) (preempt : bool) (x : scene) : Z * list yield_event :=
  match class with
  | None => (0, [])
  | Some yield_to_task =>
      if negb (same_class x) then (0, [])
      else if p_running x || negb (p_state x =? 0) then (0, [])
      else
        let yielded := yield_to_task x in
        (yielded, if negb (yielded =? 0) && preempt && negb (this =? p_cpu x) then [Resched (p_cpu x)] else [])
  end.

(** [others]: what other processors do before the locks are taken, turn by turn. *)
Fixpoint yield_again (fuel : nat) (this : Z) (class : class_yield) (preempt : bool) (others : list (scene → scene)) (x : scene) : res (Z * list yield_event * scene) :=
  match fuel with
  | O => Undef Diverges
  | S fuel =>
      let p_rq := p_cpu x in
      if (counts x this =? 1) && (counts x p_rq =? 1) then Ok (- ESRCH, [], x)
      else
        let x := default id (head others) x in
        if negb (p_cpu x =? p_rq) then yield_again fuel this class preempt (tail others) x
        else let '(yielded, ev) := yield_locked this class preempt x in Ok (yielded, ev, x)
  end.

Definition yield_to (this : Z) (class : class_yield) (preempt : bool) (others : list (scene → scene)) (x : scene) : res (Z * list yield_event) :=
  '(yielded, ev, _) ← yield_again (S (length others)) this class preempt others x;
  Ok (yielded, ev ++ if 0 <? yielded then [Schedule] else []).
