(* ===== verification/MovesProofs.v ===== *)
(** Tasks that change places (Moves): an exchange is done by the stoppers on
    tasks that are still where the caller thought, and never moves a task
    that runs; [yield_to] ends and yields exactly when it may. *)
From S2P Require Import Prelude Moves.
Local Open Scope Z_scope.

(** * The invariant *)

Definition holding (k : place) : option migration_swap_arg :=
  match k with Stopped a | Locked a | Leaving a _ => Some a | _ => None end.
Definition argument (k : place) : option migration_swap_arg :=
  match k with TestActive a | TestSrc a | TestDst a | Stop a | Stopped a | Locked a | Leaving a _ => Some a | Free | Returned _ => None end.

Record inv (s : state) : Prop := {
  i_runs p : on_cpu (tasks s p) = true → on_rq (tasks s p) = Queued ∧ stopper s (cpu (tasks s p)) = None;
  i_holds i a : holding (calls s i) = Some a → stopper s (src_cpu a) = Some i ∧ stopper s (dst_cpu a) = Some i;
  i_arg i a : argument (calls s i) = Some a → src_task a ≠ dst_task a;
}.

Lemma inv_change p f s : inv s →
  (on_cpu (f (tasks s p)) = true → on_rq (f (tasks s p)) = Queued ∧ stopper s (cpu (f (tasks s p))) = None) → inv (upd p f s).
Proof.
  intros [H1 H2 H3] Hf. constructor; cbn; [|done..]. intros q.
  destruct (decide (q = p)) as [->|]; [by rewrite fn_lookup_insert|rewrite fn_lookup_insert_ne by done; apply H1].
Qed.

(** A call goes on, and keeps what it has of the stoppers. *)
Lemma inv_at_place i k s : inv s → (∀ a, holding k = Some a → stopper s (src_cpu a) = Some i ∧ stopper s (dst_cpu a) = Some i) →
  (∀ a, argument k = Some a → src_task a ≠ dst_task a) → inv (goto i k s).
Proof.
  intros [H1 H2 H3] Hk Ha. constructor; cbn; [done|..]; intros j a;
    (destruct (decide (j = i)) as [->|]; [rewrite fn_lookup_insert; (apply Hk || apply Ha)|rewrite fn_lookup_insert_ne by done; (apply H2 || apply H3)]).
Qed.

Lemma unqueued_rests p s : inv s → on_rq (tasks s p) ≠ Queued → on_cpu (tasks s p) = false.
Proof. intros Hi Hq. destruct (on_cpu (tasks s p)) eqn:E; [|done]. by destruct (i_runs s Hi p E). Qed.

Lemma set_task_cpu_ok c t : on_cpu t = false → set_task_cpu c t = Ok (with_wake_cpu c (with_cpu c t)).
Proof. unfold set_task_cpu. by intros ->. Qed.

(** * The exchange *)

(** A task after its part of an exchange. *)
Definition exchanged (c : Z) (t : task) : task :=
  if task_on_rq_queued t then Task c Queued false (cpus_ptr t) c else with_wake_cpu c t.

Lemma swap_task_ok p c s : on_cpu (tasks s p) = false → __migrate_swap_task p c s = Ok (upd p (exchanged c) s).
Proof.
  intros Hr. unfold __migrate_swap_task, exchanged. destruct (task_on_rq_queued (tasks s p)) eqn:Hq; [|unfold upd; by rewrite Hq].
  rewrite set_task_cpu_ok by done. cbn. unfold upd. rewrite Hq. do 3 f_equal.
  destruct (tasks s p); cbn in *. by rewrite Hr.
Qed.

(** The conditions that [migrate_swap_stop] looks at again. *)
Definition in_place (a : migration_swap_arg) (s : state) : Prop :=
  cpu (tasks s (src_task a)) = src_cpu a ∧ cpu (tasks s (dst_task a)) = dst_cpu a ∧
  dst_cpu a ∈ cpus_ptr (tasks s (src_task a)) ∧ src_cpu a ∈ cpus_ptr (tasks s (dst_task a)).

Lemma locked_spec a s : src_task a ≠ dst_task a →
  (in_place a s → on_cpu (tasks s (src_task a)) = false ∧ on_cpu (tasks s (dst_task a)) = false) →
  migrate_swap_locked a s = Ok (- EAGAIN, s) ∧ ¬ in_place a s ∨
  migrate_swap_locked a s = Ok (0, upd (dst_task a) (exchanged (src_cpu a)) (upd (src_task a) (exchanged (dst_cpu a)) s)) ∧ in_place a s.
Proof.
  intros Hne Hr. unfold migrate_swap_locked, in_place in *.
  destruct (Z.eqb_spec (cpu (tasks s (dst_task a))) (dst_cpu a)) as [E1|]; [|left; naive_solver].
  destruct (Z.eqb_spec (cpu (tasks s (src_task a))) (src_cpu a)) as [E2|]; [|left; naive_solver]. cbn.
  case_bool_decide as E3; [|left; naive_solver]. case_bool_decide as E4; [|left; naive_solver]. cbn. right. split; [|done].
  destruct Hr as [R1 R2]; [done|]. rewrite swap_task_ok by done. cbn. rewrite swap_task_ok; [done|]. cbn. by rewrite fn_lookup_insert_ne.
Qed.

Lemma exchanged_off c t : on_cpu t = false → on_cpu (exchanged c t) = false.
Proof. unfold exchanged. by case_match. Qed.

Lemma in_place_stopped i a s : inv s → calls s i = Locked a → in_place a s →
  on_cpu (tasks s (src_task a)) = false ∧ on_cpu (tasks s (dst_task a)) = false.
Proof.
  intros Hi Hc (H1&H2&_). destruct (i_holds s Hi i a) as [S1 S2]; [by rewrite Hc|].
  split; [destruct (on_cpu (tasks s (src_task a))) eqn:E | destruct (on_cpu (tasks s (dst_task a))) eqn:E]; try done;
    destruct (i_runs s Hi _ E) as [_ Hs]; [rewrite H1 in Hs | rewrite H2 in Hs]; congruence.
Qed.

Lemma swap_region i a s : inv s → calls s i = Locked a →
  ∃ ret s1, do (Go i None) s = Some (Ok (goto i (Leaving a ret) s1)) ∧
    (ret = - EAGAIN ∧ s1 = s ∧ ¬ in_place a s ∨
     ret = 0 ∧ in_place a s ∧ s1 = upd (dst_task a) (exchanged (src_cpu a)) (upd (src_task a) (exchanged (dst_cpu a)) s)).
Proof.
  intros Hi Hc. cbn. unfold go. rewrite Hc.
  destruct (locked_spec a s) as [[-> ?]|[-> ?]]; [apply (i_arg s Hi i); by rewrite Hc|by apply (in_place_stopped i)|..]; eexists _, _;
    (split; [reflexivity|]); [by left|by right].
Qed.

(** * Every step *)

Definition fine (r : res state) : Prop := ∃ s, r = Ok s ∧ inv s.
Lemma moves_fine s : inv s → fine (Ok s).
Proof. by exists s. Qed.

Lemma fine_go i refused s r : inv s → go i refused s = Some r → fine r.
Proof.
  intros Hi. pose proof (i_holds s Hi i) as Hh. pose proof (i_arg s Hi i) as Ha. unfold go. destruct (calls s i) as [|a|a|a|a|a|a|a ret|ret] eqn:Hc;
    cbn in Hh, Ha; [done|..|done].
  - intros [= <-]. apply moves_fine, inv_at_place; [done|..]; case_match; try done; by intros ? [= <-]; apply Ha.
  - intros [= <-]. apply moves_fine, inv_at_place; [done|..]; case_match; try done; by intros ? [= <-]; apply Ha.
  - intros [= <-]. apply moves_fine, inv_at_place; [done|..]; case_match; try done; by intros ? [= <-]; apply Ha.
  - destruct refused as [ret|]; [intros [= <-]; by apply moves_fine, inv_at_place|].
    destruct (stopper s (src_cpu a)) eqn:S1; [done|]. destruct (stopper s (dst_cpu a)) eqn:S2; [done|]. intros [= <-].
    apply moves_fine, inv_at_place; [|intros ? [= <-]; cbn|by intros ? [= <-]; apply Ha].
    + assert (∀ c j, stopper s c = Some j → <[src_cpu a := Some i]> (<[dst_cpu a := Some i]> (stopper s)) c = Some j) as Hk.
      { intros c j Hj. rewrite !fn_lookup_insert_ne by congruence. done. }
      destruct Hi as [H1 H2 H3]. constructor; cbn; [|intros j b Hj; by destruct (H2 j b Hj); auto|done].
      intros p. destruct (Z.eqb_spec (cpu (tasks s p)) (src_cpu a)); [done|]. destruct (Z.eqb_spec (cpu (tasks s p)) (dst_cpu a)); [done|]. cbn.
      intros Hp. by rewrite !fn_lookup_insert_ne by done; apply H1.
    + split; [by rewrite fn_lookup_insert|]. destruct (decide (dst_cpu a = src_cpu a)) as [->|]; [by rewrite fn_lookup_insert|].
      by rewrite fn_lookup_insert_ne, fn_lookup_insert.
  - intros [= <-]. apply moves_fine, inv_at_place; [done|..]; case_match; try done; by intros ? [= <-]; auto.
  - intros E. destruct (swap_region i a s Hi Hc) as (ret&s1&E'&Hs). cbn in E'. unfold go in E'. rewrite Hc in E'. rewrite E in E'. injection E' as ->.
    apply moves_fine, inv_at_place; [|intros ? [= <-]|by intros ? [= <-]; apply Ha].
    + destruct Hs as [(_&->&_)|(_&Hp&->)]; [done|]. destruct (in_place_stopped i a s Hi Hc Hp) as [R1 R2].
      apply inv_change; [apply inv_change; [done|by rewrite exchanged_off]|]. cbn.
      rewrite fn_lookup_insert_ne by (pose proof (Ha a eq_refl); congruence). by rewrite exchanged_off.
    + destruct Hs as [(_&->&_)|(_&_&->)]; by apply Hh.
  - intros [= <-]. destruct (Hh a eq_refl) as [S1 S2]. apply moves_fine.
    assert (∀ c j, stopper s c ≠ Some i → stopper s c = j → <[src_cpu a := None]> (<[dst_cpu a := None]> (stopper s)) c = j) as Hk.
    { intros c j Hc' <-. rewrite !fn_lookup_insert_ne by congruence. done. }
    destruct Hi as [H1 H2 H3]. constructor; cbn; [|intros j b; destruct (decide (j = i)) as [->|]; [by rewrite fn_lookup_insert|rewrite fn_lookup_insert_ne by done]..].
    + intros p Hp. destruct (H1 p Hp) as [Hq Hs]. split; [done|]. apply Hk; [by rewrite Hs|done].
    + intros Hj. destruct (H2 j b Hj) as [T1 T2]. split; apply Hk; congruence.
    + apply H3.
Qed.

Lemma do_fine l s r : inv s → do l s = Some r → fine r.
Proof.
  intros Hi. destruct l as [i cu p target curr_cpu|i refused|p|p|p|p c|p c|p c|p|p cpus|c b]; cbn.
  - destruct (is_free i s && negb (cu =? p)) eqn:E; [|done]. intros [= <-]. apply moves_fine. apply andb_true_iff in E as [_ E].
    unfold migrate_swap. case_match; apply inv_at_place; try done. intros a [= <-]. cbn. by apply negb_true_iff, Z.eqb_neq in E.
  - by apply fine_go.
  - destruct (task_on_rq_queued (tasks s p) && stoppable (cpu (tasks s p)) s) eqn:E; [|done]. intros [= <-]. apply moves_fine, inv_change; [done|].
    intros _. cbn. apply andb_true_iff in E as [E1%bool_decide_eq_true E2]. split; [done|]. unfold stoppable in E2. by case_match.
  - case_match; [|done]. intros [= <-]. by apply moves_fine, inv_change.
  - case_match; [|done]. intros [= <-]. by apply moves_fine, inv_change.
  - case_bool_decide as E; [|done]. rewrite set_task_cpu_ok by (apply unqueued_rests; congruence). cbn. intros [= <-]. apply moves_fine, inv_change; [done|].
    cbn. by rewrite unqueued_rests by congruence.
  - destruct (task_on_rq_queued (tasks s p) && negb (on_cpu (tasks s p))) eqn:E; [|done]. apply andb_true_iff in E as [_ E%negb_true_iff].
    rewrite set_task_cpu_ok by done. cbn. intros [= <-]. apply moves_fine, inv_change; [done|]. cbn. by rewrite E.
  - destruct (task_on_rq_queued (tasks s p) && negb (on_cpu (tasks s p))) eqn:E; [|done]. apply andb_true_iff in E as [_ E%negb_true_iff].
    rewrite set_task_cpu_ok by done. cbn. intros [= <-]. apply moves_fine, inv_change; [done|]. cbn. by rewrite E.
  - case_bool_decide as E; [|done]. intros [= <-]. apply moves_fine, inv_change; [done|]. cbn. by rewrite unqueued_rests by congruence.
  - intros [= <-]. apply moves_fine, inv_change; [done|]. apply i_runs, Hi.
  - intros [= <-]. apply moves_fine. destruct Hi. by constructor.
Qed.

Lemma reach_moves s : rtc step start s → inv s.
Proof.
  assert (inv start) as Hs by by constructor.
  intros H. refine (rtc_ind_r inv start Hs _ s H). intros t u _ [l Hl] Ht. by destruct (do_fine l t _ Ht Hl) as (?&[= <-]&?).
Qed.

(** C23: however moves, wake-ups, changes of affinity, departures of processors
    and other exchanges interleave, no step moves a task that runs. When the
    function of [migrate_swap] has the locks it either finds that a task has
    left or may not go, and changes nothing, or exchanges both: a queued task is
    on the other processor, a sleeping one will be woken there first, and no
    other task is touched. *)
Theorem swap_exact i a s : rtc step start s → calls s i = Locked a →
  (∀ l u, do l s ≠ Some (Undef u)) ∧
  ∃ ret s', do (Go i None) s = Some (Ok s') ∧ calls s' i = Leaving a ret ∧
    (ret = - EAGAIN ∧ ¬ in_place a s ∧ tasks s' = tasks s ∨
     ret = 0 ∧ in_place a s ∧ tasks s' (src_task a) = exchanged (dst_cpu a) (tasks s (src_task a)) ∧
       tasks s' (dst_task a) = exchanged (src_cpu a) (tasks s (dst_task a)) ∧
       ∀ p, p ≠ src_task a → p ≠ dst_task a → tasks s' p = tasks s p).
Proof.
  intros Hr Hc. pose proof (reach_moves s Hr) as Hi. split.
  { intros l u Hl. by destruct (do_fine l s _ Hi Hl) as (?&?&_). }
  assert (src_task a ≠ dst_task a) as Hne by (apply (i_arg s Hi i); by rewrite Hc).
  destruct (swap_region i a s Hi Hc) as (ret&s1&E&Hs). exists ret, (goto i (Leaving a ret) s1). split; [done|]. split; [cbn; by rewrite fn_lookup_insert|].
  destruct Hs as [(->&->&?)|(->&?&->)]; [by left|right]. split_and!; [done|done|..]; cbn.
  - by rewrite fn_lookup_insert_ne, fn_lookup_insert.
  - by rewrite fn_lookup_insert, fn_lookup_insert_ne.
  - intros p ? ?. by rewrite !fn_lookup_insert_ne.
Qed.

(** * [yield_to] *)

(** The first turn that finds the target where it was read, or nothing to
    yield to. *)
Lemma yield_again_spec fuel this class preempt others x : (length others < fuel)%nat →
  ∃ r, yield_again fuel this class preempt others x = Ok r ∧
    (r.1 = (- ESRCH, []) ∧ counts r.2 this = 1 ∧ counts r.2 (p_cpu r.2) = 1 ∨ r.1 = yield_locked this class preempt r.2).
Proof.
  revert others x. induction fuel as [|fuel IH]; intros others x Hl; [lia|]. cbn.
  destruct ((counts x this =? 1) && (counts x (p_cpu x) =? 1)) eqn:E.
  { apply andb_true_iff in E as [E1%Z.eqb_eq E2%Z.eqb_eq]. eexists. split; [done|]. by left. }
  destruct (Z.eqb_spec (p_cpu (default id (head others) x)) (p_cpu x)) as [E2|E2]; cbn.
  - destruct (yield_locked this class preempt (default id (head others) x)) as [y ev] eqn:Ey. eexists. split; [done|]. right. cbn. by rewrite Ey.
  - apply IH. destruct others; cbn in *; [done|lia].
Qed.

(** [yield_to] returns, whatever moves the target meanwhile. It refuses
    with ESRCH when both run queues have one task only; otherwise what it
    decides holds while both locks are held: it yields only to a task of the
    class of the caller that waits on a run queue, tells another processor to
    reschedule only when it has yielded, and calls [schedule] exactly then. *)
Theorem yield_to_correct this class preempt others x : ∃ yielded ev,
  yield_to this class preempt others x = Ok (yielded, ev) ∧ (0 < yielded ↔ Schedule ∈ ev) ∧
  (0 < yielded → ∃ y f, class = Some f ∧ same_class y = true ∧ p_running y = false ∧ p_state y = 0 ∧ yielded = f y ∧
     ∀ c, Resched c ∈ ev ↔ preempt = true ∧ c = p_cpu y ∧ c ≠ this) ∧
  (yielded = 0 → ev = []).
Proof.
  unfold yield_to. destruct (yield_again_spec (S (length others)) this class preempt others x) as ([[y0 ev0] z]&->&H); [lia|]. cbn in *.
  exists y0, (ev0 ++ if 0 <? y0 then [Schedule] else []). split; [done|]. destruct H as [(H&_)|H]; [injection H as -> ->; cbn; split_and!; [|done..]|].
  { split; [done|]. intros H. by apply elem_of_nil in H. }
  unfold yield_locked in H. destruct class as [f|]; [destruct (same_class z) eqn:E1; [destruct (p_running z) eqn:E2; [|destruct (Z.eqb_spec (p_state z) 0) as [E3|]]|]|];
    cbn in H; injection H as -> ->; try (cbn; split_and!; [split; [done|intros H; by apply elem_of_nil in H]|done..]).
  assert (Schedule ∉ if negb (f z =? 0) && preempt && negb (this =? p_cpu z) then [Resched (p_cpu z)] else []) as Hn by (case_match; set_solver).
  split_and!.
  - destruct (Z.ltb_spec 0 (f z)); [|rewrite app_nil_r]; set_solver by lia.
  - intros Hp. exists z, f. split_and!; [done..|]. intros c. rewrite (proj2 (Z.ltb_lt 0 (f z)) Hp).
    destruct (Z.eqb_spec (f z) 0); [lia|]. destruct preempt, (Z.eqb_spec this (p_cpu z)); cbn; set_solver.
  - intros ->. done.
Qed.

(** * Witnesses *)

Fixpoint run (ls : list label) (s : state) : option state :=
  match ls with
  | [] => Some s
  | l :: ls => match do l s with Some (Ok s') => run ls s' | _ => None end
  end.
Lemma run_moves ls s s' : run ls s = Some s' → rtc step s s'.
Proof.
  revert s. induction ls as [|l ls IH]; cbn; intros s; [intros [= ->]; apply rtc_refl|].
  destruct (do l s) as [[s1| |]|] eqn:E; try done. intros H. eapply rtc_l; [by exists l|by apply IH].
Qed.

(** Two queued tasks, 1 on the processor 0 and 2 on the processor 1. *)
Definition before_swap : list label :=
  [SetCpus 1 [0; 1]; SetCpus 2 [0; 1]; Wake 1 0; Wake 2 1; Run 2; Swap 7 1 2 1 0; Go 7 None; Go 7 None; Go 7 None; Go 7 None; Go 7 None].

Definition at_swap : state := default start (run before_swap start).
Lemma at_swap_reached : rtc step start at_swap.
Proof. apply (run_moves before_swap). by vm_compute. Qed.

Lemma swap_exact_witness : ∃ s', do (Go 7 None) at_swap = Some (Ok s') ∧ cpu (tasks s' 1) = 1 ∧ cpu (tasks s' 2) = 0.
Proof.
  destruct (swap_exact 7 (Arg 1 0 2 1) at_swap at_swap_reached) as (_&ret&s'&Hd&_&[(_&Hn&_)|(_&_&H1&H2&_)]); [reflexivity| |].
  - exfalso. apply Hn. unfold in_place. by_decision.
  - exists s'. split; [exact Hd|]. cbn [src_task dst_task src_cpu dst_cpu] in H1, H2. rewrite H1, H2. by vm_compute.
Defined.
