(* ===== verification/Boot.v ===== *)
(** The start of the scheduler of assignment 4
    (src/과제/OS과제/과제4/core.c): [sched_init] with the block of memory that
    it cuts into the arrays of the root group and the fields of every run queue,
    and the switches for schedstats and NUMA balancing. What fair.c and rt.c do
    with the arrays is a parameter. *)
From S2P Require Import Prelude CString.
Local Open Scope Z_scope.

(** * [sched_init] *)

Definition SCHED_CAPACITY_SCALE : Z := 1024.
Definition ROOT_TASK_GROUP_LOAD : Z := 1024 * 1024.
Definition LOAD_FREQ : Z := 5 * 250 + 1.
Definition sizeof_pointer : Z := 8.

(** The classes, and where the linker put them. *)
Record layout := Layout { idle_at : Z; fair_at : Z; rt_at : Z; dl_at : Z; stop_at : Z; class_size : Z }.

(** The configuration, and what the machine gives: the number of
    processors, the possible ones, the time, and the cost of a migration. *)
Record machine := Machine {
  fair_groups : bool;
  rt_groups : bool;
  nr_cpu_ids : Z;
  possible : list Z;
  jiffies : Z;
  migration_cost : Z;
  rt_runtime_limit : Z;
  cfs_of : Z → Z;
  rt_of : Z → Z;
}.

(** The fields of a run queue that [sched_init] sets. *)
Record run_queue := RunQueue {
  cpu : Z;
  nr_running : Z;
  calc_load_active : Z;
  calc_load_update : Z;
  rt_runtime : Z;
  cpu_capacity : Z;
  cpu_capacity_orig : Z;
  has_callback : bool;
  active_balance : Z;
  next_balance : Z;
  online : bool;
  idle_stamp : Z;
  avg_idle : Z;
  max_idle_balance_cost : Z;
  in_default_domain : bool;
  last_blocked_load_update_tick : Z;
  nohz_flags : Z;
  nr_iowait : Z;
}.

(** The arrays of the root group, as addresses, and the block they are in. *)
Record block := Block { base : Z; words : list Z }.
Record root_group := Root { se : option Z; cfs_rq : option Z; rt_se : option Z; rt_rq : option Z; shares : Z }.
Record state := State { memory : block; root : root_group; rqs : Z → option run_queue; scheduler_running : bool }.

Definition contiguous (l : layout) : bool :=
  (idle_at l + class_size l =? fair_at l) && (fair_at l + class_size l =? rt_at l) && (rt_at l + class_size l =? dl_at l) &&
  (dl_at l + class_size l =? stop_at l).

(** [nr_cpu_ids] is an unsigned int: twice it is computed in 32 bits. *)
Definition array_size (m : machine) : Z := wrapu64 (nr_cpu_ids m * sizeof_pointer).
Definition block_size (m : machine) : Z :=
  let ptr := 0 in
  let ptr := if fair_groups m then wrapu64 (ptr + wrapu32 (2 * nr_cpu_ids m) * sizeof_pointer) else ptr in
  if rt_groups m then wrapu64 (ptr + wrapu32 (2 * nr_cpu_ids m) * sizeof_pointer) else ptr.

(** The block is cut from its start on. *)
Definition cut (m : machine) (ptr : Z) : root_group :=
  let '(se, cfs_rq, shares, ptr) :=
    if fair_groups m then (Some ptr, Some (wrapu64 (ptr + array_size m)), ROOT_TASK_GROUP_LOAD, wrapu64 (wrapu64 (ptr + array_size m) + array_size m))
    else (None, None, 0, ptr) in
  let '(rt_se, rt_rq) := if rt_groups m then (Some ptr, Some (wrapu64 (ptr + array_size m))) else (None, None) in
  Root se cfs_rq rt_se rt_rq shares.

(** A store to an element of an array, and a read. *)
Definition element (a : Z) (i : Z) : Z := wrapu64 (a + i * sizeof_pointer).
Definition store (b : block) (addr v : Z) : res block :=
  if (base b <=? addr) && ((addr - base b) mod sizeof_pointer =? 0)
  then w ← wr (words b) ((addr - base b) / sizeof_pointer) v; Ok (Block (base b) w)
  else Undef OutOfBounds.
Definition read (b : block) (addr : Z) : res Z :=
  if (base b <=? addr) && ((addr - base b) mod sizeof_pointer =? 0) then rd (words b) ((addr - base b) / sizeof_pointer) else Undef OutOfBounds.

(** [init_tg_cfs_entry] and [init_tg_rt_entry] of fair.c and rt.c, which are
    not in the repository, for the root group, a processor, its queue and the
    entity NULL: the root group and the memory give the new memory. *)
Class group_code := {
  init_tg_cfs_entry : root_group → Z → Z → block → res block;
  init_tg_rt_entry : root_group → Z → Z → block → res block;
}.

(** What [sched_init] relies on: where the two arrays have an element for the
    processor, the queue and the NULL go there, and nothing else changes. *)
Class group_code_ok `{!group_code} : Prop := {
  cfs_entry_ok g queues entities i q b b1 b2 : cfs_rq g = Some queues → se g = Some entities →
    store b (element queues i) q = Ok b1 → store b1 (element entities i) 0 = Ok b2 → init_tg_cfs_entry g i q b = Ok b2;
  rt_entry_ok g queues entities i q b b1 b2 : rt_rq g = Some queues → rt_se g = Some entities →
    store b (element queues i) q = Ok b1 → store b1 (element entities i) 0 = Ok b2 → init_tg_rt_entry g i q b = Ok b2;
}.

Section start.
Context `{!group_code}.

Definition init_rq (m : machine) (i : Z) : run_queue := {|
  cpu := i;
  nr_running := 0;
  calc_load_active := 0;
  calc_load_update := wrapu64 (jiffies m + LOAD_FREQ);
  rt_runtime := rt_runtime_limit m;
  cpu_capacity := SCHED_CAPACITY_SCALE;
  cpu_capacity_orig := SCHED_CAPACITY_SCALE;
  has_callback := false;
  active_balance := 0;
  next_balance := jiffies m;
  online := false;
  idle_stamp := 0;
  avg_idle := wrapu64 (2 * migration_cost m);
  max_idle_balance_cost := migration_cost m;
  in_default_domain := true;
  last_blocked_load_update_tick := jiffies m;
  nohz_flags := 0;
  nr_iowait := 0;
|}.

(** The body of the loop over the possible processors. *)
Definition init_cpu (m : machine) (i : Z) (s : state) : res state :=
  b ← (if fair_groups m then init_tg_cfs_entry (root s) i (cfs_of m i) (memory s) else Ok (memory s));
  b ← (if rt_groups m then init_tg_rt_entry (root s) i (rt_of m i) b else Ok b);
  Ok (State b (root s) (<[i := Some (init_rq m i)]> (rqs s)) (scheduler_running s)).

Fixpoint init_cpus (m : machine) (cpus : list Z) (s : state) : res state :=
  match cpus with [] => Ok s | i :: cpus => s ← init_cpu m i s; init_cpus m cpus s end.

(** [addr]: what [kzalloc] returns, which is not looked at. *)
Definition sched_init (l : layout) (m : machine) (addr : Z) : res state :=
  if negb (contiguous l) then Undef BugOn
  else
    let size := block_size m in
    let s :=
      if size =? 0 then State (Block 0 []) (Root None None None None 0) (λ _, None) false
      else State (Block addr (replicate (Z.to_nat (size / sizeof_pointer)) 0)) (cut m addr) (λ _, None) false in
    s ← init_cpus m (possible m) s;
    Ok (State (memory s) (root s) (rqs s) true).
End start.

(** * schedstats and NUMA balancing *)

(** [__sched_schedstats], and the keys [sched_schedstats] and [sched_numa_balancing]. *)
Record keys := Keys { early : bool; schedstats : bool; numa : bool }.

(** The value is the return value. *)
Definition setup_schedstats (str : option string) (k : keys) : Z * keys :=
  match str with
  | None => (0, k)
  | Some str =>
      if bool_decide (strcmp str "enable" = Eq) then (1, Keys true (schedstats k) (numa k))
      else if bool_decide (strcmp str "disable" = Eq) then (1, Keys false (schedstats k) (numa k))
      else (0, k)
  end.
Definition set_schedstats (enabled : bool) (k : keys) : keys := Keys (early k) enabled (numa k).
Definition set_numabalancing_state (enabled : bool) (k : keys) : keys := Keys (early k) (schedstats k) enabled.
Definition init_schedstats (k : keys) : keys := set_schedstats (early k) k.
Definition force_schedstat_enabled (k : keys) : keys := if schedstats k then k else set_schedstats true k.

Definition EPERM : Z := 1.

(** A file for a key. [proc_dointvec_minmax], which is not in the repository,
    is given the key as a number, and gives its result and the new number. *)
Definition sysctl (get : keys → bool) (set : bool → keys → keys) (proc : bool → Z → Z * Z) (write admin : bool) (k : keys) : Z * keys :=
  if write && negb admin then (- EPERM, k)
  else
    let '(err, state) := proc write (if get k then 1 else 0) in
    if err <? 0 then (err, k) else (err, if write then set (negb (state =? 0)) k else k).
Definition sysctl_schedstats := sysctl schedstats set_schedstats.
Definition sysctl_numa_balancing := sysctl numa set_numabalancing_state.
