(* ===== verification/BootProofs.v ===== *)
(** The start of the scheduler (Boot): the arrays of the root group are in
    the block, do not overlap and hold what every possible processor needs;
    the switch for schedstats follows the boot parameter. *)
From S2P Require Import Prelude CString Boot.
Local Open Scope Z_scope.

(** * The block *)

Record machine_ok (m : machine) : Prop := {
  some_ids : 0 < nr_cpu_ids m < 2^31;
  possible_ids i : i ∈ possible m → 0 ≤ i < nr_cpu_ids m;
  possible_once : NoDup (possible m);
}.

(** The block is in memory. *)
Definition fits (m : machine) (addr : Z) : Prop := 0 < addr ∧ addr + 32 * nr_cpu_ids m ≤ 2^64.

Lemma wrapu64_fits z : 0 ≤ z < 2^64 → wrapu64 z = z.
Proof. apply Z.mod_small. Qed.

Definition rt_offset (m : machine) : Z := if fair_groups m then 2 * nr_cpu_ids m else 0.
Definition block_words (m : machine) : Z := rt_offset m + if rt_groups m then 2 * nr_cpu_ids m else 0.

Lemma block_size_words m addr : machine_ok m → fits m addr → block_size m = 8 * block_words m.
Proof.
  intros [Hn _ _] [? ?]. unfold block_size, block_words, rt_offset, sizeof_pointer.
  assert (wrapu32 (2 * nr_cpu_ids m) = 2 * nr_cpu_ids m) as -> by (apply Z.mod_small; lia).
  destruct (fair_groups m), (rt_groups m); rewrite ?(wrapu64_fits (0 + _)) by lia; rewrite ?wrapu64_fits by lia; lia.
Qed.

(** The arrays, one behind the other; a pointer behind an absent one is not used. *)
Lemma cut_spec m addr : machine_ok m → fits m addr → 0 < block_words m →
  cut m addr = Root (if fair_groups m then Some addr else None) (if fair_groups m then Some (addr + 8 * nr_cpu_ids m) else None)
    (if rt_groups m then Some (addr + 8 * rt_offset m) else None) (if rt_groups m then Some (addr + 8 * (rt_offset m + nr_cpu_ids m)) else None)
    (if fair_groups m then ROOT_TASK_GROUP_LOAD else 0).
Proof.
  intros [Hn _ _] [? ?] Hw. unfold cut, block_words, rt_offset, array_size, sizeof_pointer in *.
  destruct (fair_groups m), (rt_groups m); try lia; rewrite ?(wrapu64_fits (nr_cpu_ids m * 8)) by lia;
    rewrite ?(wrapu64_fits (addr + nr_cpu_ids m * 8)) by lia; rewrite ?(wrapu64_fits (addr + nr_cpu_ids m * 8 + nr_cpu_ids m * 8)) by lia;
    rewrite ?(wrapu64_fits (addr + nr_cpu_ids m * 8 + nr_cpu_ids m * 8 + nr_cpu_ids m * 8)) by lia;
    repeat match goal with |- Root _ _ _ _ _ = _ => f_equal | |- Some _ = Some _ => f_equal end; lia.
Qed.

Lemma word_at b o i : 0 ≤ o → 0 ≤ i → 0 ≤ base b → base b + 8 * (o + i) < 2^64 →
  element (base b + 8 * o) i = base b + 8 * (o + i) ∧ (base b <=? base b + 8 * (o + i)) = true ∧
  (base b + 8 * (o + i) - base b) mod 8 = 0 ∧ (base b + 8 * (o + i) - base b) / 8 = o + i.
Proof.
  intros. unfold element, sizeof_pointer. rewrite wrapu64_fits by lia. replace (base b + 8 * (o + i) - base b) with ((o + i) * 8) by lia.
  rewrite Z.mod_mul, Z.div_mul by lia. split_and!; try lia.
Qed.

Definition inside (b : block) (o i : Z) : Prop := 0 ≤ o ∧ 0 ≤ i ∧ o + i < Z.of_nat (length (words b)) ∧ 0 ≤ base b ∧ base b + 8 * Z.of_nat (length (words b)) ≤ 2^64.

Lemma store_ok_at b o i v : inside b o i → store b (element (base b + 8 * o) i) v = Ok (Block (base b) (<[Z.to_nat (o + i) := v]> (words b))).
Proof.
  intros (?&?&?&?&?). destruct (word_at b o i) as (->&Hle&Hmod&Hdiv); [lia..|]. unfold store, sizeof_pointer. rewrite Hle, Hmod, Hdiv. cbn.
  by rewrite wr_ok by lia.
Qed.

Lemma read_at b o i v : inside b o i → getZ (words b) (o + i) = Some v → read b (element (base b + 8 * o) i) = Ok v.
Proof.
  intros (?&?&?&?&?) Hg. destruct (word_at b o i) as (->&Hle&Hmod&Hdiv); [lia..|]. unfold read, sizeof_pointer. rewrite Hle, Hmod, Hdiv. cbn.
  by apply rd_ok_iff.
Qed.

(** * The loop over the processors *)

Definition base_ok (m : machine) (b : block) : Prop :=
  0 ≤ base b ∧ base b + 32 * nr_cpu_ids m ≤ 2^64 ∧ Z.of_nat (length (words b)) = block_words m.

Lemma words_le m : machine_ok m → block_words m ≤ 4 * nr_cpu_ids m.
Proof. intros [Hn _ _]. unfold block_words, rt_offset. repeat case_match; lia. Qed.

(** What the arrays of a pair hold for a processor. *)
Definition entries (b : block) (o n i q : Z) : Prop := getZ (words b) (o + i) = Some 0 ∧ getZ (words b) (o + n + i) = Some q.

Definition ready (m : machine) (b : block) (i : Z) : Prop :=
  (fair_groups m = true → entries b 0 (nr_cpu_ids m) i (cfs_of m i)) ∧
  (rt_groups m = true → entries b (rt_offset m) (nr_cpu_ids m) i (rt_of m i)).

(** Two stores into a pair of arrays leave the rest alone. *)
Lemma two_stores b o n i q : 0 ≤ i < n → 0 ≤ o → o + 2 * n ≤ Z.of_nat (length (words b)) → 0 ≤ base b → base b + 8 * Z.of_nat (length (words b)) ≤ 2^64 →
  ∃ b1 b', store b (element (base b + 8 * (o + n)) i) q = Ok b1 ∧ store b1 (element (base b + 8 * o) i) 0 = Ok b' ∧
    base b' = base b ∧ length (words b') = length (words b) ∧
    entries b' o n i q ∧ ∀ x, x ≠ o + i → x ≠ o + n + i → getZ (words b') x = getZ (words b) x.
Proof.
  intros Hi Ho Hl Hb Hf. rewrite store_ok_at by (unfold inside; lia).
  assert (inside (Block (base b) (<[Z.to_nat (o + n + i) := q]> (words b))) o i) as Hin by (unfold inside; cbn; rewrite length_insert; lia).
  pose proof (store_ok_at _ o i 0 Hin) as Hs. cbn [base words] in Hs. eexists _, _. split; [reflexivity|]. split; [exact Hs|]. cbn. rewrite !length_insert. split_and!; [done..| |].
  - unfold entries. cbn. split; rewrite !getZ_insert by (rewrite ?length_insert; lia); repeat case_decide; try lia; done.
  - intros x H1 H2. rewrite !getZ_insert by (rewrite ?length_insert; lia). repeat case_decide; try lia; done.
Qed.

Section start.
Context `{gc : !group_code, gc_ok : !group_code_ok}.

Lemma init_cpu_ok m s i : machine_ok m → base_ok m (memory s) → 0 ≤ i < nr_cpu_ids m → (0 < block_words m → fits m (base (memory s)) ∧ root s = cut m (base (memory s))) →
  ∃ s', init_cpu m i s = Ok s' ∧ base (memory s') = base (memory s) ∧ base_ok m (memory s') ∧ root s' = root s ∧
    rqs s' = <[i := Some (init_rq m i)]> (rqs s) ∧ ready m (memory s') i ∧ ∀ j, 0 ≤ j < nr_cpu_ids m → j ≠ i → ready m (memory s) j → ready m (memory s') j.
Proof.
  intros Hm (Hb&Hf&Hl) Hi Hr. pose proof (words_le m Hm) as Hle. unfold init_cpu.
  assert (∃ b, (if fair_groups m then init_tg_cfs_entry (root s) i (cfs_of m i) (memory s) else Ok (memory s)) = Ok b ∧
    base b = base (memory s) ∧ length (words b) = length (words (memory s)) ∧
    (fair_groups m = true → entries b 0 (nr_cpu_ids m) i (cfs_of m i) ∧ ∀ x, x ≠ i → x ≠ nr_cpu_ids m + i → getZ (words b) x = getZ (words (memory s)) x) ∧
    (fair_groups m = false → b = memory s)) as (b1&->&B1&L1&F1&N1).
  { destruct (fair_groups m) eqn:Ef; [|by eexists]. unfold block_words, rt_offset in *. rewrite Ef in *.
    destruct Hr as [Hfit Hr]; [repeat case_match; lia|]. pose proof (cut_spec m _ Hm Hfit) as Hcut.
    unfold block_words, rt_offset in Hcut. rewrite Ef in Hcut. rewrite Hcut in Hr by (repeat case_match; lia).
    destruct (two_stores (memory s) 0 (nr_cpu_ids m) i (cfs_of m i)) as (b0&b&E0&E&?&?&?&Hx); [lia|lia|repeat case_match; lia|done|lia|].
    replace (base (memory s) + 8 * 0) with (base (memory s)) in E by lia. exists b. split_and!; try done.
    refine (cfs_entry_ok _ _ _ _ _ _ _ _ _ _ E0 E); by rewrite Hr. }
  cbn.
  assert (∃ b, (if rt_groups m then init_tg_rt_entry (root s) i (rt_of m i) b1 else Ok b1) = Ok b ∧
    base b = base (memory s) ∧ length (words b) = length (words (memory s)) ∧
    (rt_groups m = true → entries b (rt_offset m) (nr_cpu_ids m) i (rt_of m i) ∧
       ∀ x, x ≠ rt_offset m + i → x ≠ rt_offset m + nr_cpu_ids m + i → getZ (words b) x = getZ (words b1) x) ∧
    (rt_groups m = false → b = b1)) as (b2&->&B2&L2&F2&N2).
  { destruct (rt_groups m) eqn:Er; [|by exists b1].
    assert (0 < block_words m) as Hw by (unfold block_words, rt_offset; rewrite Er; repeat case_match; lia).
    destruct (Hr Hw) as [Hfit Hroot]. rewrite cut_spec, Er in Hroot by done.
    destruct (two_stores b1 (rt_offset m) (nr_cpu_ids m) i (rt_of m i)) as (b0&b&E0&E&?&?&?&Hx);
      [lia|unfold rt_offset; case_match; lia|rewrite L1, Hl; unfold block_words; rewrite Er; lia|lia|rewrite L1, Hl; lia|].
    rewrite B1 in E0, E. exists b. split_and!; [|congruence|congruence|done|done].
    refine (rt_entry_ok _ _ _ _ _ _ _ _ _ _ E0 E); by rewrite Hroot. }
  cbn. eexists. split; [reflexivity|]. cbn. unfold base_ok. rewrite B2, L2. split_and!; try done.
  - unfold ready. split; intros Hc.
    + destruct (F1 Hc) as [[H1 H2] _]. destruct (rt_groups m) eqn:Er; [|by rewrite N2]. destruct (F2 eq_refl) as [_ Hx].
      unfold entries, rt_offset in *. rewrite Hc in Hx. rewrite !Hx by lia. done.
    + by apply F2.
  - intros j Hj Hne [R1 R2]. unfold ready. split; intros Hc.
    + destruct (F1 Hc) as [_ H1]. specialize (R1 Hc). destruct R1 as [R1 R1'].
      destruct (rt_groups m) eqn:Er.
      * destruct (F2 eq_refl) as [_ Hx]. unfold entries, rt_offset in *. rewrite Hc in Hx. rewrite !Hx by lia. rewrite !H1 by lia. done.
      * rewrite N2 by done. unfold entries. rewrite !H1 by lia. done.
    + destruct (F2 Hc) as [_ H2]. destruct (R2 Hc) as [S1 S2]. unfold entries. rewrite !H2 by lia.
      destruct (fair_groups m) eqn:Ef; [|by rewrite N1]. destruct (F1 eq_refl) as [_ H1]. unfold rt_offset in *. rewrite Ef in *.
      rewrite !H1 by lia. done.
Qed.

Lemma init_cpus_ok m cpus s : machine_ok m → base_ok m (memory s) → (∀ i, i ∈ cpus → 0 ≤ i < nr_cpu_ids m) → NoDup cpus →
  (0 < block_words m → fits m (base (memory s)) ∧ root s = cut m (base (memory s))) →
  ∃ s', init_cpus m cpus s = Ok s' ∧ root s' = root s ∧ base (memory s') = base (memory s) ∧ base_ok m (memory s') ∧
    (∀ i, rqs s' i = if bool_decide (i ∈ cpus) then Some (init_rq m i) else rqs s i) ∧
    (∀ i, 0 ≤ i < nr_cpu_ids m → (i ∈ cpus ∨ ready m (memory s) i) → ready m (memory s') i).
Proof.
  intros Hm. revert s. induction cpus as [|i cpus IH]; cbn; intros s Hb Hin Hnd Hr.
  { exists s. split_and!; [done..|intros i _ [Hi|?]; [by apply elem_of_nil in Hi|done]]. }
  apply NoDup_cons in Hnd as [Hni Hnd].
  destruct (init_cpu_ok m s i Hm Hb) as (s1&->&B1&Hb1&R1&Q1&Hi1&Ho1); [apply Hin; set_solver|done|]. cbn.
  destruct (IH s1) as (s2&->&R2&B2&Hb2&Q2&H2); [done|intros; apply Hin; set_solver|done|by rewrite B1, R1|].
  exists s2. split; [done|]. split; [congruence|]. split; [congruence|]. split; [done|]. split.
  - intros j. rewrite Q2, Q1. destruct (decide (j = i)) as [->|].
    + rewrite (bool_decide_eq_true_2 (i ∈ i :: cpus)) by set_solver. rewrite bool_decide_eq_false_2 by done. by rewrite fn_lookup_insert.
    + rewrite fn_lookup_insert_ne by done. apply (f_equal (λ b : bool, if b then _ else _)), bool_decide_ext. set_solver.
  - intros j Hj Hor. apply H2; [done|]. destruct (decide (j = i)) as [->|]; [by right|].
    destruct Hor as [[->|?]%elem_of_cons|?]; [done|by left|right; by apply Ho1].
Qed.

(** C24: whatever groups are configured and however many processors below 2^31
    are possible, when [kzalloc] gives a block below 2^64, this block is just large
    enough: every store into the arrays of the root group is in it, the arrays do
    not overlap, and in the end they hold for each possible processor its queues
    and no entity; the run queues of the possible processors, and only they, are set. *)
Theorem boot_arrays l m addr : contiguous l = true → machine_ok m → fits m addr →
  ∃ s, sched_init l m addr = Ok s ∧ scheduler_running s = true ∧ 8 * Z.of_nat (length (words (memory s))) = block_size m ∧
    (∀ i, rqs s i = if bool_decide (i ∈ possible m) then Some (init_rq m i) else None) ∧
    ∀ i, i ∈ possible m →
      (fair_groups m = true → ∃ q e, cfs_rq (root s) = Some q ∧ se (root s) = Some e ∧
         read (memory s) (element q i) = Ok (cfs_of m i) ∧ read (memory s) (element e i) = Ok 0) ∧
      (rt_groups m = true → ∃ q e, rt_rq (root s) = Some q ∧ rt_se (root s) = Some e ∧
         read (memory s) (element q i) = Ok (rt_of m i) ∧ read (memory s) (element e i) = Ok 0).
Proof.
  intros Hl Hm Hfit. unfold sched_init. rewrite Hl. cbn [negb]. pose proof (block_size_words m addr Hm Hfit) as Hsz. pose proof (words_le m Hm) as Hle.
  assert (0 ≤ block_words m) as H0 by (pose proof (some_ids m Hm); unfold block_words, rt_offset; repeat case_match; lia).
  set (s0 := if block_size m =? 0 then _ else _).
  assert (base_ok m (memory s0) ∧ rqs s0 = (λ _, None) ∧ (0 < block_words m → root s0 = cut m addr ∧ base (memory s0) = addr)) as (Hb&Hq&Hr).
  { destruct Hfit as [? ?]. subst s0. unfold base_ok, sizeof_pointer. destruct (Z.eqb_spec (block_size m) 0); cbn; [split_and!; try done; lia|].
    rewrite length_replicate. rewrite Hsz in *. replace (8 * block_words m / 8) with (block_words m) by (rewrite Z.mul_comm, Z.div_mul; lia).
    split_and!; try done; lia. }
  clearbody s0.
  destruct (init_cpus_ok m (possible m) s0 Hm Hb) as (s1&->&R1&B1&(Hp&_&Hw)&Q1&Hready);
    [apply Hm|apply Hm|intros Hw; destruct (Hr Hw) as [-> ->]; done|]. cbn.
  eexists. split; [reflexivity|]. cbn. split_and!; [done|lia|intros i; by rewrite Q1, Hq|].
  intros i Hi. pose proof (possible_ids m Hm i Hi) as Hid. destruct (Hready i Hid (or_introl Hi)) as [Hf Ht].
  assert (0 < block_words m → root s1 = cut m addr ∧ base (memory s1) = addr) as Hr1 by (intros; rewrite R1, B1; auto).
  destruct Hfit as [Ha Hm2]. split; intros Hc.
  - assert (0 < block_words m) as Hpos by (unfold block_words, rt_offset; rewrite Hc; repeat case_match; lia).
    destruct (Hr1 Hpos) as [-> Hb1]. rewrite cut_spec by done. rewrite Hc. cbn. exists (addr + 8 * nr_cpu_ids m), addr. split_and!; try done.
    + rewrite <-Hb1. apply read_at; [|apply Hf; done]. unfold inside, block_words, rt_offset in *. rewrite Hc in Hw. repeat case_match; lia.
    + replace addr with (base (memory s1) + 8 * 0) by lia. apply read_at; [|apply Hf; done].
      unfold inside, block_words, rt_offset in *. rewrite Hc in Hw. repeat case_match; lia.
  - assert (0 < block_words m) as Hpos by (unfold block_words, rt_offset; rewrite Hc; repeat case_match; lia).
    destruct (Hr1 Hpos) as [-> Hb1]. rewrite cut_spec by done. rewrite Hc. cbn.
    exists (addr + 8 * (rt_offset m + nr_cpu_ids m)), (addr + 8 * rt_offset m).
    assert (0 ≤ rt_offset m) by (unfold rt_offset; case_match; lia). unfold block_words in Hw. rewrite Hc in Hw.
    split_and!; try done; rewrite <-Hb1; (apply read_at; [|apply Ht; done]); unfold inside; unfold block_words in Hle; rewrite Hc in Hle; lia.
Qed.

End start.

(** A boot parameter is followed; another text changes nothing and is reported. *)
Lemma schedstats_boot str k :
  schedstats (init_schedstats (setup_schedstats (Some str) k).2) = (if bool_decide (str = "enable") then true else if bool_decide (str = "disable") then false else early k) ∧
  ((setup_schedstats (Some str) k).1 = 0 ↔ str ≠ "enable" ∧ str ≠ "disable").
Proof.
  cbn. repeat case_bool_decide; subst; cbn; rewrite ?strcmp_eq_iff in *; naive_solver.
Qed.

(** What is written to a file for a key is what it is read back as. *)
Lemma sysctl_roundtrip get set proc k v : (∀ b k, get (set b k) = b) → (∀ old, proc true old = (0, v)) → (∀ old, proc false old = (0, old)) →
  let k' := (sysctl get set proc true true k).2 in
  sysctl get set proc true false k = (- EPERM, k) ∧ get k' = negb (v =? 0) ∧ sysctl get set proc false false k' = (0, k').
Proof. intros Hg Hw Hr. unfold sysctl. cbn. rewrite Hw, Hr. cbn. by rewrite Hg. Qed.

(** Four processors, of which three are possible, with both kinds of groups. *)
Definition four_ids : machine := Machine true true 4 [0; 1; 3] 100 500000 950000 (λ i, 1000 + i) (λ i, 2000 + i).
Definition linked : layout := Layout 0 224 448 672 896 224.

(** A pair of arrays, filled with the queue first. *)
Definition fill (queues entities : option Z) (i q : Z) (b : block) : res block :=
  queues ← opt NullPointer queues; entities ← opt NullPointer entities; b ← store b (element queues i) q; store b (element entities i) 0.
#[local] Instance two_arrays : group_code := {|
  init_tg_cfs_entry g := fill (cfs_rq g) (se g);
  init_tg_rt_entry g := fill (rt_rq g) (rt_se g);
|}.
Lemma two_arrays_ok : group_code_ok.
Proof. by split; intros g queues entities i q b b1 b2 Hq He E1 E2; cbn; unfold fill; rewrite Hq, He; cbn; rewrite E1. Qed.

Lemma boot_arrays_witness : ∃ s, sched_init linked four_ids 4096 = Ok s ∧ length (words (memory s)) = 16%nat.
Proof.
  destruct (@boot_arrays _ two_arrays_ok linked four_ids 4096) as (s&E&_&Hl&_).
  - reflexivity.
  - split; [cbn; lia| |by_decision]. intros i. cbn. rewrite !elem_of_cons. lia || set_solver by lia.
  - split; cbn; lia.
  - exists s. split; [exact E|]. change (block_size four_ids) with 128 in Hl. lia.
Defined.
