(* ===== verification/Queries.v ===== *)
(** What programs and administrators ask the scheduler of assignment 4
    (src/과제/OS과제/과제4/core.c, sched.h): the range of priorities and the
    time slice of a policy, the copy of attributes to a program, and the states
    of tasks as letters and as a filter. The reported range of priorities is what
    the checks of a request accept, but not what sched_setscheduler accepts after
    the change of the assignment; every state has a letter. *)
From Stdlib Require Import Ascii.
From S2P Require Import Prelude Sched SchedProofs.
Local Open Scope Z_scope.

Section queries.
Context `{sched_headers} `{kernel}.

(** * Priorities and time slices *)

Definition sched_get_priority_max (pol : Z) : Z :=
  if bool_decide (pol = SCHED_FIFO ∨ pol = SCHED_RR) then MAX_USER_RT_PRIO - 1
  else if bool_decide (pol = SCHED_DEADLINE ∨ pol = SCHED_NORMAL ∨ pol = SCHED_BATCH ∨ pol = SCHED_IDLE) then 0
  else - EINVAL.
Definition sched_get_priority_min (pol : Z) : Z :=
  if bool_decide (pol = SCHED_FIFO ∨ pol = SCHED_RR) then 1
  else if bool_decide (pol = SCHED_DEADLINE ∨ pol = SCHED_NORMAL ∨ pol = SCHED_BATCH ∨ pol = SCHED_IDLE) then 0
  else - EINVAL.

(** [get_rr_interval]: what the class of a task has, if it has it; [timespec]: the seconds and
    nanoseconds of a number of jiffies. *)
Definition sched_rr_get_interval (get_rr_interval : option (task → Z)) (timespec : Z → Z * Z) (s : procs) (pid : Z) : Z * option (Z * Z) :=
  if decide (pid < 0) then (- EINVAL, None)
  else
    match find_process_by_pid s pid with
    | None => (- ESRCH, None)
    | Some p =>
        let retval := security_task_getscheduler p in
        if decide (retval ≠ 0) then (retval, None)
        else (0, Some (timespec (match get_rr_interval with Some f => wrapu32 (f p) | None => 0 end)))
    end.

(** The system call; the pointer of the program. *)
Definition sys_sched_rr_get_interval get_rr_interval timespec (s : procs) (pid : Z) (interval : user unit) : Z * option (Z * Z) :=
  let '(retval, t) := sched_rr_get_interval get_rr_interval timespec s pid in
  if decide (retval = 0) then match interval with At _ => (0, t) | _ => (- EFAULT, None) end else (retval, None).
End queries.

(** * Attributes for a program *)

Section bytes.
Context {A : Type}.

(** [kattr]: the bytes of the structure of the kernel, of which [set_size] sets
    the field [size]; [mem]: those at the pointer of the program. [ok]:
    [access_ok] of its bytes; [faults]: the copy fails. The value is the return
    value. *)
Definition sched_attr_copy_to_user (ok faults : bool) (set_size : Z → list A → list A) (kattr mem : list A) (usize : Z) : Z * list A :=
  if negb ok then (- EFAULT, mem)
  else
    let size := Z.min usize (Z.of_nat (length kattr)) in
    let kattr := set_size size kattr in
    if faults then (- EFAULT, mem) else (0, take (Z.to_nat size) kattr ++ drop (Z.to_nat size) mem).
End bytes.

(** * States of tasks *)

Definition TASK_RUNNING : Z := 0.
Definition TASK_INTERRUPTIBLE : Z := 1.
Definition TASK_UNINTERRUPTIBLE : Z := 2.
Definition __TASK_STOPPED : Z := 4.
Definition __TASK_TRACED : Z := 8.
Definition EXIT_DEAD : Z := 0x10.
Definition EXIT_ZOMBIE : Z := 0x20.
Definition TASK_PARKED : Z := 0x40.
Definition TASK_WAKEKILL : Z := 0x100.
Definition TASK_NOLOAD : Z := 0x400.
Definition TASK_IDLE : Z := Z.lor TASK_UNINTERRUPTIBLE TASK_NOLOAD.
Definition TASK_KILLABLE : Z := Z.lor TASK_WAKEKILL TASK_UNINTERRUPTIBLE.
Definition TASK_REPORT : Z :=
  Z.lor TASK_RUNNING (Z.lor TASK_INTERRUPTIBLE (Z.lor TASK_UNINTERRUPTIBLE (Z.lor __TASK_STOPPED
    (Z.lor __TASK_TRACED (Z.lor EXIT_DEAD (Z.lor EXIT_ZOMBIE TASK_PARKED)))))).
Definition TASK_REPORT_IDLE : Z := TASK_REPORT + 1.

(** The number of the highest bit, from 1 on. *)
Definition fls (x : Z) : Z := if x =? 0 then 0 else Z.log2 x + 1.

Definition task_state_index (state exit_state : Z) : Z :=
  let tsk_state := wrapu32 state in
  let report := Z.land (Z.lor tsk_state exit_state) TASK_REPORT in
  fls (if tsk_state =? TASK_IDLE then TASK_REPORT_IDLE else report).

Definition state_char : list ascii := ["R"; "S"; "D"; "T"; "t"; "X"; "Z"; "P"; "I"]%char.
Definition task_index_to_char (state : Z) : res ascii := rd state_char state.
Definition task_state_to_char (state exit_state : Z) : res ascii := task_index_to_char (task_state_index state exit_state).

Definition state_filter_match (state_filter state : Z) : bool :=
  if state_filter =? 0 then true
  else if Z.land state state_filter =? 0 then false
  else if (state_filter =? TASK_UNINTERRUPTIBLE) && (state =? TASK_IDLE) then false
  else true.

(** [show_state_filter]: the tasks that are shown, and whether the locks and the
    debugging output of all are. *)
Definition show_state_filter (state_filter : Z) (threads : list (Z * Z)) : list (Z * Z) * bool :=
  (filter (λ t, state_filter_match state_filter t.2 = true) threads, state_filter =? 0).

(** * Properties *)


Section proofs.
Context `{!sched_headers, !sched_headers_ok} `{kernel}.

Lemma valid_policy_spec pol : valid_policy pol = true ↔
  (pol = SCHED_FIFO ∨ pol = SCHED_RR) ∨ pol = SCHED_DEADLINE ∨ pol = SCHED_NORMAL ∨ pol = SCHED_BATCH ∨ pol = SCHED_IDLE.
Proof.
  rewrite valid_policies, !orb_true_iff, fair_policies, rt_policies, dl_policies, idle_policies. tauto.
Qed.

(** A request of the kernel for a policy passes the checks of
    [__sched_setscheduler] exactly when the policy exists and the priority lies
    in the range that sched_get_priority_min and sched_get_priority_max report. *)
Theorem reported_range_accepted p attr pol : 0 ≤ pol → 0 ≤ sched_priority attr → sched_flags attr = 0 →
  (dl_policy pol = true → checkparam_dl attr = true) →
  (∃ r, precheck p attr false pol = inr r) ↔
  valid_policy pol = true ∧ sched_get_priority_min pol ≤ sched_priority attr ≤ sched_get_priority_max pol.
Proof.
  intros Hp Hprio Hf Hdl. unfold precheck. rewrite decide_False by lia. destruct (valid_policy pol) eqn:Hv; cbn [negb].
  2: { split; [by intros [? [=]]|by intros [[=] _]]. }
  assert (precheck_ok : refusal p attr false pol (has (sched_flags attr) SCHED_FLAG_RESET_ON_FORK) = None ↔
    sched_priority attr < 100 ∧ rt_policy pol = negb (bool_decide (sched_priority attr = 0))).
  { unfold refusal. destruct max_prios as (_&Hu&Hr). rewrite Hf, has_none, has_none, Hu, Hr. cbn [andb].
    replace (dl_policy pol && negb (checkparam_dl attr)) with false by (destruct (dl_policy pol); [by rewrite Hdl|done]). cbn [orb].
    replace (if mm p then 100 - 1 else 100 - 1) with 99 by by destruct (mm p).
    case_decide; [naive_solver lia|]. destruct (Bool.eqb _ _) eqn:E; cbn [negb].
    - apply eqb_prop in E. split; [intros _; split; [lia|done]|done].
    - apply eqb_false_iff in E. split; [done|]. by intros [_ ?]. }
  assert (Hrange : sched_get_priority_min pol ≤ sched_priority attr ≤ sched_get_priority_max pol ↔
    sched_priority attr < 100 ∧ rt_policy pol = negb (bool_decide (sched_priority attr = 0))).
  { unfold sched_get_priority_min, sched_get_priority_max. destruct max_prios as (_&->&_). apply valid_policy_spec in Hv.
    destruct (decide (pol = SCHED_FIFO ∨ pol = SCHED_RR)) as [Hr|Hr].
    - rewrite !bool_decide_eq_true_2 by done. rewrite (proj2 (rt_policies pol) Hr). case_bool_decide; cbn; naive_solver lia.
    - rewrite !bool_decide_eq_false_2 by done. destruct Hv as [?|Hv]; [done|]. rewrite !bool_decide_eq_true_2 by done.
      assert (rt_policy pol = false) as -> by (apply not_true_iff_false; by rewrite rt_policies). case_bool_decide; cbn; naive_solver lia. }
  rewrite Hrange, <-precheck_ok. destruct (refusal _ _ _ _ _); split; try by intros [? [=]]; naive_solver.
Qed.

(** Sched_setscheduler refuses SCHED_NORMAL with the only priority that
    sched_get_priority_min and sched_get_priority_max report for it, because the
    assignment replaces the policy by SCHED_FIFO. *)
Theorem reported_range_refused others s pid p : 0 ≤ pid → find_process_by_pid s pid = Some p →
  sched_get_priority_min SCHED_NORMAL = 0 ∧ sched_get_priority_max SCHED_NORMAL = 0 ∧
  ∃ s', sys_sched_setscheduler others s pid SCHED_NORMAL (At 0) = Ok (- EINVAL, s') ∧ find_process_by_pid s' pid = Some p.
Proof.
  intros Hp Hf. split_and!; [done|done|]. unfold sys_sched_setscheduler, do_sched_setscheduler. rewrite !decide_False by (done || lia). rewrite Hf.
  unfold sched_setscheduler, _sched_setscheduler.
  assert (legacy_attr p SCHED_NORMAL 0 = Attr SCHED_FIFO 0 (PRIO_TO_NICE (static_prio p)) 0 (Dl 0 0 0)) as ->.
  { unfold legacy_attr. by replace (has SCHED_NORMAL SCHED_RESET_ON_FORK) with false by done. }
  rewrite fifo_needs_priority. cbn. eexists. split; [done|]. unfold find_process_by_pid, set_task. cbn. apply lookup_insert_eq.
Qed.

(** A time slice is returned exactly for a process that may be looked at. *)
Lemma rr_interval_spec get timespec s pid p : 0 ≤ pid → find_process_by_pid s pid = Some p → security_task_getscheduler p = 0 →
  sys_sched_rr_get_interval get timespec s pid (At tt) = (0, Some (timespec (match get with Some f => wrapu32 (f p) | None => 0 end))) ∧
  sys_sched_rr_get_interval get timespec s pid Fault = (- EFAULT, None).
Proof.
  intros Hp Hf Hs. unfold sys_sched_rr_get_interval, sched_rr_get_interval. rewrite decide_False by lia. rewrite Hf, Hs. cbn. done.
Qed.
End proofs.

(** The program gets a prefix of the structure, and no byte behind it changes. *)
Lemma copy_to_user_spec {A} set_size (kattr mem mem' : list A) usize : (∀ n l, length (set_size n l) = length l) → 0 ≤ usize ≤ Z.of_nat (length mem) →
  sched_attr_copy_to_user true false set_size kattr mem usize = (0, mem') →
  let size := Z.to_nat (Z.min usize (Z.of_nat (length kattr))) in
  length mem' = length mem ∧ take size mem' = take size (set_size (Z.of_nat size) kattr) ∧ drop size mem' = drop size mem.
Proof.
  intros Hlen Hu. cbn. intros [= <-]. set (n := Z.to_nat (Z.min usize (Z.of_nat (length kattr)))).
  replace (Z.min usize (Z.of_nat (length kattr))) with (Z.of_nat n) by (unfold n; lia). rewrite ?Nat2Z.id.
  assert (length (take n (set_size (Z.of_nat n) kattr)) = n) as Hn by (rewrite length_take, Hlen; unfold n; lia).
  split_and!.
  - rewrite length_app, Hn, length_drop. unfold n. lia.
  - rewrite take_app_length' by done. done.
  - rewrite drop_app_length' by done. done.
Qed.

(** * States *)

Lemma land_report x : 0 ≤ Z.land x TASK_REPORT < 128.
Proof. change TASK_REPORT with (Z.ones 7). rewrite Z.land_ones by lia. by apply Z.mod_pos_bound. Qed.

Lemma fls_range x n : 0 ≤ n → 0 ≤ x < 2^n → 0 ≤ fls x ≤ n.
Proof.
  intros Hn Hx. unfold fls. destruct (Z.eqb_spec x 0); [lia|]. pose proof (Z.log2_nonneg x). pose proof (Z.log2_lt_pow2 x n). lia.
Qed.

(** Every state of a task, also one with bits that are not reported or
    with both kinds of states, has a letter: the table of letters is never
    read behind its end. *)
Theorem state_has_letter state exit_state : ∃ c, task_state_to_char state exit_state = Ok c.
Proof.
  unfold task_state_to_char, task_index_to_char, task_state_index.
  assert (0 ≤ fls (if wrapu32 state =? TASK_IDLE then TASK_REPORT_IDLE else Z.land (Z.lor (wrapu32 state) exit_state) TASK_REPORT) ≤ 8) as Hr.
  { case_match; [by vm_compute|]. pose proof (land_report (Z.lor (wrapu32 state) exit_state)). apply fls_range; lia. }
  set (i := fls _) in *. destruct (lookup_lt_is_Some_2 state_char (Z.to_nat i)) as [c Hc]; [cbn; lia|].
  exists c. unfold rd. rewrite decide_True by lia. by rewrite Hc.
Qed.

(** A filter for uninterruptible tasks finds killable ones and leaves out the
    idle ones, which do not count for the load. *)
Lemma filter_uninterruptible : state_filter_match TASK_UNINTERRUPTIBLE TASK_KILLABLE = true ∧
  state_filter_match TASK_UNINTERRUPTIBLE TASK_IDLE = false ∧ state_filter_match TASK_IDLE TASK_IDLE = true ∧
  task_state_to_char TASK_IDLE 0 = Ok "I"%char ∧ task_state_to_char TASK_KILLABLE 0 = Ok "D"%char ∧ task_state_to_char TASK_RUNNING EXIT_ZOMBIE = Ok "Z"%char.
Proof. by vm_compute. Qed.

(** * Witnesses *)

Lemma reported_range_accepted_witness : ∃ r, @precheck _ (user_kernel true) normal_task (Attr SCHED_RR 0 0 99 (Dl 0 0 0)) false SCHED_RR = inr r.
Proof.
  apply (@reported_range_accepted _ _ (user_kernel true) normal_task (Attr SCHED_RR 0 0 99 (Dl 0 0 0)) SCHED_RR); try (vm_compute; congruence).
  vm_compute. split; [done|]. split; congruence.
Defined.

Lemma reported_range_refused_witness : ∃ s', @sys_sched_setscheduler _ (user_kernel true) [] one_task 0 SCHED_NORMAL (At 0) = Ok (- EINVAL, s').
Proof.
  destruct (@reported_range_refused _ _ (user_kernel true) [] one_task 0 normal_task) as (_&_&s'&H&_); [lia|by vm_compute|]. by exists s'.
Defined.
