(* ===== verification/Burst.v ===== *)
(** The processor time of assignment 4: the counter [cpu_burst] that the
    assignment adds to stats.h and core.c (src/과제/OS과제/과제4).
    CONFIG_SCHED_INFO and CONFIG_SCHEDSTATS are set, CONFIG_PSI is not. *)
From S2P Require Import Prelude.
Local Open Scope Z_scope.

(** * Accounting (stats.h) *)

Record sched_info := Info { last_queued : Z; run_delay : Z; last_arrival : Z; pcount : Z }.

Inductive task_state : Set := TASK_RUNNING | TASK_SLEEPING | TASK_DEAD.

#[global] Instance task_state_eq_dec : EqDecision task_state.
Proof. solve_decision. Defined.

Record task := Task { tstate : task_state; info : sched_info; cpu_burst : Z }.

Record rq := Rq {
  clock : Z;
  idle : Z;                     (** the idle task *)
  rq_run_delay : Z;
  rq_pcount : Z;
  rq_cpu_time : Z;
}.

Definition rq_sched_info_arrive (r : rq) (delta : Z) : rq :=
  Rq (clock r) (idle r) (wrapu64 (rq_run_delay r + delta)) (wrapu64 (rq_pcount r + 1)) (rq_cpu_time r).
Definition rq_sched_info_depart (r : rq) (delta : Z) : rq :=
  Rq (clock r) (idle r) (rq_run_delay r) (rq_pcount r) (wrapu64 (rq_cpu_time r + delta)).
Definition rq_sched_info_dequeued (r : rq) (delta : Z) : rq :=
  Rq (clock r) (idle r) (wrapu64 (rq_run_delay r + delta)) (rq_pcount r) (rq_cpu_time r).

(** The time since [last_queued], 0 when it is not set. *)
Definition waited (r : rq) (t : task) : Z :=
  if decide (last_queued (info t) = 0) then 0 else wrapu64 (clock r - last_queued (info t)).

Definition sched_info_reset_dequeued (i : sched_info) : sched_info :=
  Info 0 (run_delay i) (last_arrival i) (pcount i).

Section stats.
Context (sched_info_on : bool).

Definition sched_info_dequeued (r : rq) (t : task) : rq * task :=
  let delta := if sched_info_on then waited r t else 0 in
  let i := sched_info_reset_dequeued (info t) in
  (rq_sched_info_dequeued r delta,
   Task (tstate t) (Info (last_queued i) (wrapu64 (run_delay i + delta)) (last_arrival i) (pcount i))
        (cpu_burst t)).

Definition sched_info_arrive (r : rq) (t : task) : rq * task :=
  let delta := waited r t in
  let i := sched_info_reset_dequeued (info t) in
  (rq_sched_info_arrive r delta,
   Task (tstate t) (Info (last_queued i) (wrapu64 (run_delay i + delta)) (clock r)
                         (wrapu64 (pcount i + 1))) (cpu_burst t)).

Definition sched_info_queued (r : rq) (t : task) : task :=
  if sched_info_on && bool_decide (last_queued (info t) = 0)
  then Task (tstate t) (Info (clock r) (run_delay (info t)) (last_arrival (info t)) (pcount (info t)))
            (cpu_burst t)
  else t.

Definition sched_info_depart (r : rq) (t : task) : rq * task :=
  let delta := wrapu64 (clock r - last_arrival (info t)) in
  let t := Task (tstate t) (info t) (wrapu64 (cpu_burst t + delta)) in
  (rq_sched_info_depart r delta,
   if decide (tstate t = TASK_RUNNING) then sched_info_queued r t else t).

(** * One processor

    [curr] runs; the kernel log holds the lines [finish_task_switch] prints. *)

Record cpu := Cpu { cpu_rq : rq; tasks : gmap Z task; curr : Z; log : list (Z * Z) }.

Definition update (pid : Z) (f : task → rq * task) (s : cpu) : cpu :=
  match tasks s !! pid with
  | Some t => let '(r, t) := f t in Cpu r (<[pid := t]> (tasks s)) (curr s) (log s)
  | None => s
  end.

Definition __sched_info_switch (prev next : Z) (s : cpu) : cpu :=
  let s := if decide (prev = idle (cpu_rq s)) then s
           else update prev (sched_info_depart (cpu_rq s)) s in
  if decide (next = idle (cpu_rq s)) then s
  else update next (sched_info_arrive (cpu_rq s)) s.

Definition sched_info_switch (prev next : Z) (s : cpu) : cpu :=
  if sched_info_on then __sched_info_switch prev next s else s.

(** The line for a task that has died. *)
Definition finish_task_switch (prev : Z) (s : cpu) : cpu :=
  match tasks s !! prev with
  | Some t => if decide (tstate t = TASK_DEAD)
              then Cpu (cpu_rq s) (tasks s) (curr s) (log s ++ [(prev, cpu_burst t)])
              else s
  | None => s
  end.

(** [prepare_task_switch], the switch, [finish_task_switch]; a switch to the
    running task does not happen. *)
Definition context_switch (next : Z) (s : cpu) : cpu :=
  if decide (next = curr s) then s
  else
    let prev := curr s in
    let s := sched_info_switch prev next s in
    finish_task_switch prev (Cpu (cpu_rq s) (tasks s) next (log s)).

Definition enqueue_task (restore : bool) (pid : Z) (s : cpu) : cpu :=
  if restore then s else update pid (λ t, (cpu_rq s, sched_info_queued (cpu_rq s) t)) s.
Definition dequeue_task (save : bool) (pid : Z) (s : cpu) : cpu :=
  if save then s else update pid (sched_info_dequeued (cpu_rq s)) s.

(** [sched_fork]: a cleared [sched_info] and no time used yet. *)
Definition fork_task : task := Task TASK_SLEEPING (Info 0 0 0 0) 0.

Inductive event : Set :=
  | Advance (n : N)                       (** the clock of the run queue *)
  | Fork (pid : Z)
  | SetState (pid : Z) (st : task_state)
  | Enqueue (restore : bool) (pid : Z)
  | Dequeue (save : bool) (pid : Z)
  | Switch (next : Z).

Definition advance (n : N) (r : rq) : rq :=
  Rq (wrapu64 (clock r + Z.of_N n)) (idle r) (rq_run_delay r) (rq_pcount r) (rq_cpu_time r).

Definition handle (e : event) (s : cpu) : cpu :=
  match e with
  | Advance n => Cpu (advance n (cpu_rq s)) (tasks s) (curr s) (log s)
  | Fork pid => Cpu (cpu_rq s) (<[pid := fork_task]> (tasks s)) (curr s) (log s)
  | SetState pid st => update pid (λ t, (cpu_rq s, Task st (info t) (cpu_burst t))) s
  | Enqueue restore pid => enqueue_task restore pid s
  | Dequeue save pid => dequeue_task save pid s
  | Switch next => context_switch next s
  end.

Definition run (l : list event) (s : cpu) : cpu := foldl (λ s e, handle e s) s l.

(** What may happen: a new pid is not in use, and only tasks run. *)
Definition possible (e : event) (s : cpu) : Prop :=
  match e with
  | Fork pid => tasks s !! pid = None ∧ pid ≠ idle (cpu_rq s)
  | Switch next => next = idle (cpu_rq s) ∨ is_Some (tasks s !! next)
  | _ => True
  end.
End stats.
