(* ===== verification/BurstProofs.v ===== *)
(** Assignment 4: the time printed for a dead task is the time it ran. *)
From S2P Require Import Prelude Burst.
Local Open Scope Z_scope.

(** * Specification *)

(** How much a step adds to the time [pid] has run. *)
Definition ran (e : event) (s : cpu) (pid : Z) : Z :=
  match e with Advance n => if decide (curr s = pid) then Z.of_N n else 0 | _ => 0 end.

Fixpoint used (l : list event) (s : cpu) (pid : Z) : Z :=
  match l with
  | [] => 0
  | e :: l => ran e s pid + used l (handle true e s) pid
  end.

Fixpoint possible_run (l : list event) (s : cpu) : Prop :=
  match l with
  | [] => True
  | e :: l => possible e s ∧ possible_run l (handle true e s)
  end.

(** A processor that runs its idle task. *)
Definition boot (clock idle : Z) : cpu := Cpu (Rq clock idle 0 0 0) ∅ idle [].

(** * The invariant

    [u pid]: the time [pid] has run; [c]: the task whose time is counted from
    its arrival, the idle task when there is none. *)

Definition since (c : Z) (r : rq) (pid : Z) (t : task) : Z :=
  if decide (c = pid) then clock r - last_arrival (info t) else 0.

Definition accounted (c : Z) (r : rq) (pid : Z) (t : task) (used : Z) : Prop :=
  0 ≤ cpu_burst t < 2^64 ∧ ∃ k, cpu_burst t + since c r pid t = used + k * 2^64.

Record inv (c : Z) (u : Z → Z) (s : cpu) : Prop := {
  inv_curr : c = idle (cpu_rq s) ∨ is_Some (tasks s !! c);
  inv_idle : tasks s !! idle (cpu_rq s) = None;
  inv_tasks : ∀ pid t, tasks s !! pid = Some t → accounted c (cpu_rq s) pid t (u pid);
  inv_new : ∀ pid, pid ≠ idle (cpu_rq s) → tasks s !! pid = None → u pid = 0;
}.

Lemma wrapu64_congr z : ∃ k, wrapu64 z = z + k * 2^64 ∧ 0 ≤ wrapu64 z < 2^64.
Proof.
  exists (- (z / 2^64)). unfold wrapu64. pose proof (Z.div_mod z (2^64) ltac:(lia)).
  pose proof (Z.mod_pos_bound z (2^64) ltac:(lia)). split; lia.
Qed.

(** A change of one task that keeps the books of all others. *)
Lemma inv_update c c' u s pid f :
  (∀ t r t', tasks s !! pid = Some t → f t = (r, t') →
     clock r = clock (cpu_rq s) ∧ idle r = idle (cpu_rq s) ∧
     (accounted c (cpu_rq s) pid t (u pid) → accounted c' (cpu_rq s) pid t' (u pid))) →
  (∀ pid', pid' ≠ pid → is_Some (tasks s !! pid') → (c = pid' ↔ c' = pid')) →
  (c' = idle (cpu_rq s) ∨ is_Some (tasks s !! c')) →
  inv c u s → inv c' u (update pid f s).
Proof.
  intros Hf Hcc Hc' [Hc Hi Ht Hn].
  assert (∀ r, clock r = clock (cpu_rq s) → ∀ pid' t, pid' ≠ pid → tasks s !! pid' = Some t →
    accounted c' r pid' t (u pid')) as Hothers.
  { intros r Er pid' t Hne Ht'. destruct (Ht pid' t Ht') as [? [k Hk]]. split; [done|]. exists k.
    rewrite <- Hk. unfold since. rewrite Er. specialize (Hcc pid' Hne ltac:(eauto)).
    repeat case_decide; tauto. }
  unfold update. destruct (tasks s !! pid) as [t|] eqn:Hpid.
  - destruct (f t) as [r t'] eqn:Eft. destruct (Hf t r t' eq_refl Eft) as (Ec & Ei & Ha).
    split; cbn [cpu_rq tasks]; rewrite ?Ei.
    + destruct Hc' as [?|[x Hx]]; [by left|right].
      destruct (decide (c' = pid)) as [->|]; [rewrite lookup_insert_eq; eauto|rewrite lookup_insert_ne; eauto].
    + rewrite lookup_insert_ne; [done|congruence].
    + intros pid' t0. destruct (decide (pid' = pid)) as [->|Hne].
      * rewrite lookup_insert_eq. intros [= <-]. specialize (Ha (Ht pid t Hpid)).
        unfold accounted, since in *. by rewrite Ec.
      * rewrite lookup_insert_ne by done. by apply Hothers.
    + intros pid' Hne. destruct (decide (pid' = pid)) as [->|Hne']; [by rewrite lookup_insert_eq|].
      rewrite lookup_insert_ne by done. by apply Hn.
  - split; try done. intros pid' t0 Ht0. apply Hothers; [done|congruence|done].
Qed.

(** Changes that keep the time and the arrival of a task. *)
Definition same_time (t t' : task) : Prop :=
  cpu_burst t' = cpu_burst t ∧ last_arrival (info t') = last_arrival (info t).

Lemma inv_same c u s pid f :
  (∀ t r t', f t = (r, t') →
     clock r = clock (cpu_rq s) ∧ idle r = idle (cpu_rq s) ∧ same_time t t') →
  inv c u s → inv c u (update pid f s).
Proof.
  intros Hf Hinv. apply (inv_update c); [|done|apply Hinv|done].
  intros t r t' _ Ef. destruct (Hf t r t' Ef) as (? & ? & [Eb Ea]).
  split; [done|]. split; [done|]. unfold accounted, since. by rewrite Eb, Ea.
Qed.

Lemma accounted_same c r pid t t' u : same_time t t' → accounted c r pid t u → accounted c r pid t' u.
Proof. intros [Eb Ea]. unfold accounted, since. by rewrite Eb, Ea. Qed.

Lemma queued_same_time r t : same_time t (sched_info_queued true r t).
Proof. unfold sched_info_queued. by case_match. Qed.

Lemma inv_depart u s :
  curr s ≠ idle (cpu_rq s) → inv (curr s) u s →
  inv (idle (cpu_rq s)) u (update (curr s) (sched_info_depart true (cpu_rq s)) s).
Proof.
  intros Hne Hinv. apply (inv_update (curr s)); [| |by left|done].
  - intros t r t' Ht. unfold sched_info_depart. intros [= <- <-]. split; [done|]. split; [done|].
    intros [Hb [k Hk]]. unfold since in Hk. rewrite decide_True in Hk by done.
    set (delta := wrapu64 (clock (cpu_rq s) - last_arrival (info t))).
    set (t1 := Task (tstate t) (info t) (wrapu64 (cpu_burst t + delta))).
    destruct (wrapu64_congr (clock (cpu_rq s) - last_arrival (info t))) as (k1 & E1 & _).
    destruct (wrapu64_congr (cpu_burst t + delta)) as (k2 & E2 & Hr2).
    assert (accounted (idle (cpu_rq s)) (cpu_rq s) (curr s) t1 (u (curr s))) as Ha.
    { split; [exact Hr2|]. exists (k + k1 + k2). unfold since. rewrite decide_False by congruence.
      cbn [cpu_burst t1]. unfold delta in *. lia. }
    case_decide; [|exact Ha].
    by eapply accounted_same; [apply queued_same_time|].
  - intros pid' Hne' [x Hx]. pose proof (inv_idle _ _ _ Hinv). split; congruence.
Qed.

Lemma inv_arrive u s next :
  is_Some (tasks s !! next) → inv (idle (cpu_rq s)) u s →
  inv next u (update next (sched_info_arrive (cpu_rq s)) s).
Proof.
  intros Hs Hinv. apply (inv_update (idle (cpu_rq s))); [| |by right|done].
  - intros t r t' Ht. unfold sched_info_arrive. intros [= <- <-]. split; [done|]. split; [done|].
    intros [Hb [k Hk]]. split; [done|]. exists k. unfold since in *.
    rewrite decide_False in Hk by (pose proof (inv_idle _ _ _ Hinv); congruence).
    rewrite decide_True by done. cbn [cpu_burst info last_arrival]. lia.
  - intros pid' Hne' [x Hx]. pose proof (inv_idle _ _ _ Hinv). split; congruence.
Qed.

Lemma update_curr pid f s : curr (update pid f s) = curr s ∧ log (update pid f s) = log s.
Proof. unfold update. destruct (tasks s !! pid); [|done]. by destruct (f _). Qed.

Lemma update_is_Some pid f s x : is_Some (tasks s !! x) → is_Some (tasks (update pid f s) !! x).
Proof.
  unfold update. destruct (tasks s !! pid); [|done]. destruct (f _). simpl. intros ?.
  rewrite lookup_insert_is_Some'. auto.
Qed.

Lemma depart_idle s :
  idle (cpu_rq (update (curr s) (sched_info_depart true (cpu_rq s)) s)) = idle (cpu_rq s).
Proof. unfold update. by destruct (tasks s !! curr s). Qed.

(** The accounting of a switch, before [curr] changes. *)
Lemma inv_switch u s next :
  next = idle (cpu_rq s) ∨ is_Some (tasks s !! next) → inv (curr s) u s →
  inv next u (sched_info_switch true (curr s) next s) ∧
  log (sched_info_switch true (curr s) next s) = log s.
Proof.
  intros Hnext Hinv. unfold sched_info_switch, __sched_info_switch.
  set (s1 := if decide (curr s = idle (cpu_rq s)) then s else _).
  assert (inv (idle (cpu_rq s1)) u s1 ∧ idle (cpu_rq s1) = idle (cpu_rq s) ∧ log s1 = log s ∧
    (is_Some (tasks s !! next) → is_Some (tasks s1 !! next))) as (H1 & Ei & El & Hs).
  { unfold s1. case_decide as Hc; [rewrite <- Hc; auto|]. rewrite depart_idle. split; [by apply inv_depart|].
    split; [done|]. split; [apply update_curr|apply update_is_Some]. }
  clearbody s1. rewrite <- Ei in Hnext. case_decide as Hd; [rewrite Hd; auto|].
  destruct Hnext as [|Hsome]; [done|]. split; [apply inv_arrive; auto|].
  by rewrite (proj2 (update_curr _ _ _)).
Qed.

Lemma inv_handle e u s :
  possible e s → inv (curr s) u s → inv (curr (handle true e s)) (λ pid, ran e s pid + u pid) (handle true e s).
Proof.
  intros Hp Hinv. destruct e as [n|pid|pid st|restore pid|save pid|next]; cbn [handle ran] in *.
  - destruct Hinv as [Hc Hi Ht Hn]. split; try done.
    + intros pid t Hpid. destruct (Ht pid t Hpid) as [Hb [k Hk]]. split; [done|].
      destruct (wrapu64_congr (clock (cpu_rq s) + Z.of_N n)) as (k' & E & _).
      exists (if decide (curr s = pid) then k + k' else k). unfold since in *.
      cbn [cpu_rq curr clock advance]. rewrite E. revert Hk.
      destruct (decide (curr s = pid)); intros Hk; lia.
    + intros pid Hne Hpid. cbn [cpu_rq idle advance tasks] in *. rewrite Hn by done.
      rewrite decide_False; [done|]. intros Hcur. destruct Hc as [Hc|[x Hx]]; congruence.
  - destruct Hp as [Hnone Hne]. destruct Hinv as [Hc Hi Ht Hn]. split; cbn [curr cpu_rq tasks].
    + destruct Hc as [?|[x Hx]]; [by left|right]. rewrite lookup_insert_ne by congruence. eauto.
    + by rewrite lookup_insert_ne.
    + intros pid' t. destruct (decide (pid' = pid)) as [->|Hne'].
      * rewrite lookup_insert_eq. intros [= <-]. split; [done|]. exists 0. unfold since.
        rewrite decide_False by (destruct Hc as [?|[x Hx]]; congruence). by rewrite Hn.
      * rewrite lookup_insert_ne by done. apply Ht.
    + intros pid' Hne'. destruct (decide (pid' = pid)) as [->|]; [by rewrite lookup_insert_eq|].
      rewrite lookup_insert_ne by done. by apply Hn.
  - rewrite (proj1 (update_curr _ _ _)). apply inv_same; [|exact Hinv].
    by intros t r t' [= <- <-].
  - unfold enqueue_task. destruct restore; [exact Hinv|]. rewrite (proj1 (update_curr _ _ _)).
    apply inv_same; [|exact Hinv]. intros t r t' [= <- <-]. split; [done|]. split; [done|].
    apply queued_same_time.
  - unfold dequeue_task. destruct save; [exact Hinv|]. rewrite (proj1 (update_curr _ _ _)).
    apply inv_same; [|exact Hinv]. by intros t r t' [= <- <-].
  - unfold context_switch. case_decide; [exact Hinv|].
    destruct (inv_switch u s next Hp Hinv) as [H1 _]. destruct H1 as [Hc Hi Ht Hn].
    assert (∀ r ts l, idle r = idle (cpu_rq (sched_info_switch true (curr s) next s)) →
      r = cpu_rq (sched_info_switch true (curr s) next s) →
      ts = tasks (sched_info_switch true (curr s) next s) →
      inv next (λ pid, 0 + u pid) (Cpu r ts next l)) as Hfin by (intros r ts l _ -> ->; by split).
    unfold finish_task_switch. cbn [tasks cpu_rq curr log].
    destruct (_ !! curr s); [destruct (decide _)|]; by apply Hfin.
Qed.

Lemma inv_run l s u :
  possible_run l s → inv (curr s) u s →
  inv (curr (run true l s)) (λ pid, u pid + used l s pid) (run true l s).
Proof.
  induction l as [|e l IH] in s, u |- *; intros Hp Hinv.
  - destruct Hinv. split; try done; cbn [used run foldl]; intros; rewrite Z.add_0_r; auto.
  - destruct Hp as [He Hl]. specialize (IH _ _ Hl (inv_handle e u s He Hinv)).
    cbn [run foldl used] in *. destruct IH as [A B C D]. split; try done.
    + intros pid t Ht. replace (u pid + (ran e s pid + used l (handle true e s) pid))
        with (ran e s pid + u pid + used l (handle true e s) pid) by lia. by apply C.
    + intros pid Hne Ht. rewrite <- (D pid Hne Ht). lia.
Qed.

(** The task switched out stays in the table, in its state. *)
Lemma switch_prev s next t :
  next ≠ curr s → curr s ≠ idle (cpu_rq s) → tasks s !! curr s = Some t →
  ∃ t', tasks (sched_info_switch true (curr s) next s) !! curr s = Some t' ∧ tstate t' = tstate t.
Proof.
  intros Hne Hidle Ht. unfold sched_info_switch, __sched_info_switch. rewrite (decide_False (P:=curr s = idle (cpu_rq s))) by done.
  set (s1 := update (curr s) _ s).
  assert (∃ t', tasks s1 !! curr s = Some t' ∧ tstate t' = tstate t) as (t' & Ht' & Es).
  { unfold s1, update. rewrite Ht. unfold sched_info_depart. cbn [tasks].
    rewrite lookup_insert_eq. eexists. split; [done|]. unfold sched_info_queued. by repeat case_match. }
  exists t'. split; [|done]. case_decide; [done|]. unfold update at 1.
  destruct (tasks s1 !! next); [|done]. destruct (sched_info_arrive _ _). cbn [tasks].
  by rewrite lookup_insert_ne.
Qed.

(** * Properties *)

(** C40: whatever happens on a processor since it booted, the line the kernel
    prints when a dead task is switched out shows the time the task has run
    (modulo 2^64), and a task that is not dead prints nothing. *)
Theorem printed_burst_is_time_run clock0 idle0 l next :
  possible_run l (boot clock0 idle0) →
  let s := run true l (boot clock0 idle0) in
  possible (Switch next) s → next ≠ curr s → curr s ≠ idle (cpu_rq s) →
  ∃ t, tasks s !! curr s = Some t ∧
    log (handle true (Switch next) s) =
      log s ++ (if decide (tstate t = TASK_DEAD)
                then [(curr s, used l (boot clock0 idle0) (curr s) mod 2^64)] else []).
Proof.
  intros Hl s Hp Hne Hidle.
  assert (inv (curr s) (λ pid, 0 + used l (boot clock0 idle0) pid) s) as Hinv.
  { apply inv_run; [done|]. split; [by left|apply lookup_empty| |done].
    intros pid t Ht. cbn [tasks boot] in Ht. by rewrite lookup_empty in Ht. }
  destruct (inv_curr _ _ _ Hinv) as [|[t Ht]]; [done|]. exists t. split; [done|].
  destruct (inv_switch _ _ _ Hp Hinv) as [H1 El].
  destruct (switch_prev s next t Hne Hidle Ht) as (t' & Ht' & Es).
  cbn [handle]. unfold context_switch, finish_task_switch. rewrite decide_False by done.
  cbn [tasks]. rewrite Ht', Es. case_decide; cbn [log]; rewrite El; [|by rewrite app_nil_r].
  destruct (inv_tasks _ _ _ H1 _ _ Ht') as [Hb [k Hk]]. unfold since in Hk.
  rewrite decide_False in Hk by done. do 3 f_equal.
  apply (Z.mod_unique_pos _ _ (- k)); [exact Hb|]. lia.
Qed.

(** * Witness: a task forked, run for 5 + 3 ticks in two turns, and dead *)

Definition two_turns : list event :=
  [Fork 7; SetState 7 TASK_RUNNING; Enqueue false 7; Advance 2; Switch 7; Advance 5; Switch 0;
   Advance 10; Switch 7; Advance 3; SetState 7 TASK_DEAD].

Lemma printed_burst_is_time_run_witness :
  let s := run true two_turns (boot 100 0) in
  used two_turns (boot 100 0) (curr s) = 8 ∧
  ∃ t, tasks s !! curr s = Some t ∧
    log (handle true (Switch 0) s) =
      log s ++ (if decide (tstate t = TASK_DEAD)
                then [(curr s, used two_turns (boot 100 0) (curr s) mod 2^64)] else []).
Proof.
  intros s. split; [by vm_compute|].
  apply (printed_burst_is_time_run 100 0 two_turns 0).
  - vm_compute. repeat split; try discriminate; eauto.
  - left. by vm_compute.
  - by vm_compute.
  - by vm_compute.
Defined.
