(* ===== verification/Cfs.v ===== *)
(** The measuring programs of assignment 4, src/과제/OS과제/과제4/CFS.c and
    CFS_nice.c: the work and the nice increments of the 21 children, and the
    lines the parent prints as they end; they do the work they are written
    to do. *)
From S2P Require Import Prelude.
Local Open Scope Z_scope.

Definition MAXSIZE1 : Z := 20000.
Definition MAXSIZE2 : Z := 50000.
Definition MAXSIZE3 : Z := 100000.

(** [arr] as one array of 100 cells, uninitialised at first. *)
Definition fill_row (size i : Z) (arr : list (option Z)) : res (list (option Z)) :=
  for_up 0 size (λ j arr, wr arr (Z.rem i 10 * 10 + Z.rem j 10) (Some (10 * 10))) arr.

Definition vector_calculate (n : Z) : res (list (option Z)) :=
  size ← (if decide (n = 0) then Ok MAXSIZE1
          else if decide (n = 1) then Ok MAXSIZE2
          else if decide (n = 2) then Ok MAXSIZE3
          else Undef Uninitialised);
  for_up 0 size (fill_row size) (replicate 100 None).

(** The children [main] forks, in order: the argument of [vector_calculate]
    and, in CFS_nice.c, the increment given to [nice]. *)
Definition children : list Z := (λ i, Z.quot i 7) <$> seqZ 0 21.

Definition nice_of (i : Z) : option Z :=
  if decide (Z.quot i 7 = 0) then Some 10
  else if decide (Z.quot i 7 = 1) then Some 0
  else if decide (Z.quot i 7 = 2) then Some (-15)
  else None.

Definition nice_children : list (option Z * Z) := (λ i, (nice_of i, Z.quot i 7)) <$> seqZ 0 21.

(** The lines the parent prints while it waits, from the pids [wait] returns
    and the seconds since the start after each, and at the end. *)
Inductive line : Set := Ends (pid : Z) | Group (secs : Z) | AllEnd (secs : Z).

Fixpoint wait_lines (i : Z) (ended : list (Z * Z)) : list line :=
  match ended with
  | [] => []
  | (pid, secs) :: l =>
      Ends pid :: (if decide (Z.rem i 7 = 6) then [Group secs] else []) ++ wait_lines (i + 1) l
  end.

Definition parent (ended : list (Z * Z)) (secs : Z) : list line := wait_lines 0 ended ++ [AllEnd secs].

(** * Properties *)


(** The first [i] rows hold 100 everywhere. *)
Definition rows_filled (i : Z) (arr : list (option Z)) : Prop :=
  length arr = 100%nat ∧ ∀ k, 0 ≤ k < 100 → k / 10 < i → getZ arr k = Some (Some 100).

Lemma fill_row_ok size i arr :
  10 ≤ size → 0 ≤ i → rows_filled i arr →
  ∃ arr', fill_row size i arr = Ok arr' ∧ rows_filled (i + 1) arr'.
Proof.
  intros Hsize Hi Hrows. unfold fill_row.
  destruct (for_up_inv (λ j arr, rows_filled i arr ∧
      ∀ c, 0 ≤ c < 10 → c < j → getZ arr (Z.rem i 10 * 10 + c) = Some (Some 100)) 0 size
    (λ j arr, wr arr (Z.rem i 10 * 10 + Z.rem j 10) (Some (10 * 10))) arr)
    as (arr' & -> & [[Hl Hr] Hc]); [lia|split; [done|lia]| |].
  - intros j b Hj [[Hl Hr] Hc].
    pose proof (Z.rem_bound_pos i 10 Hi ltac:(lia)). pose proof (Z.rem_bound_pos j 10 ltac:(lia) ltac:(lia)).
    rewrite wr_ok by lia. eexists. split; [done|].
    assert (∀ k, 0 ≤ k → getZ b k = Some (Some 100) →
      getZ (<[Z.to_nat (Z.rem i 10 * 10 + Z.rem j 10) := Some (10 * 10)]> b) k = Some (Some 100)) as Hkeep.
    { intros k Hk E. rewrite getZ_insert by lia. by case_decide. }
    split; [split; [by rewrite length_insert|intros k Hk Hlt; apply Hkeep; [lia|by apply Hr]]|].
    intros c Hc1 Hc2. destruct (decide (c = Z.rem j 10)) as [->|Hne].
    + rewrite getZ_insert by lia. by rewrite decide_True.
    + apply Hkeep; [lia|]. apply Hc; [done|].
      destruct (decide (c = j)) as [->|]; [|lia]. rewrite Z.rem_small in Hne by lia. done.
  - eexists. split; [done|]. split; [done|]. intros k Hk Hlt.
    destruct (decide (k / 10 < i)) as [|Hge]; [by apply Hr|].
    pose proof (Z.div_mod k 10 ltac:(lia)). pose proof (Z.mod_pos_bound k 10 ltac:(lia)).
    assert (Z.rem i 10 = i) as Hrem by (apply Z.rem_small; lia).
    replace k with (Z.rem i 10 * 10 + k mod 10) by lia. apply Hc; lia.
Qed.

Lemma fill_all size :
  10 ≤ size → for_up 0 size (fill_row size) (replicate 100 None) = Ok (replicate 100 (Some 100)).
Proof.
  intros Hsize.
  destruct (for_up_inv rows_filled 0 size (fill_row size) (replicate 100 None))
    as (arr & -> & [Hl Hr]); [lia| | |].
  - split; [done|]. intros k Hk. pose proof (Z.div_pos k 10). lia.
  - intros i arr Hi Harr. apply fill_row_ok; [done|lia|done].
  - f_equal. apply list_eq. intros k. destruct (decide (k < 100)%nat) as [Hk|Hk].
    + rewrite lookup_replicate_2 by done. rewrite <- getZ_of_nat. apply Hr; [lia|].
      assert (Z.of_nat k / 10 < 10) by (apply Z.div_lt_upper_bound; lia). lia.
    + rewrite !lookup_ge_None_2; [done|rewrite length_replicate; lia|lia].
Qed.

(** For the three arguments [main] gives it, [vector_calculate] is
    total, stays inside its array and sets all 100 cells; for any other
    argument it uses a size that was never set. *)
Theorem vector_calculate_correct n :
  vector_calculate n =
    if decide (0 ≤ n ≤ 2) then Ok (replicate 100 (Some 100)) else Undef Uninitialised.
Proof.
  unfold vector_calculate, MAXSIZE1, MAXSIZE2, MAXSIZE3.
  destruct (decide (n = 0)) as [->|]; [apply fill_all; lia|].
  destruct (decide (n = 1)) as [->|]; [apply fill_all; lia|].
  destruct (decide (n = 2)) as [->|]; [apply fill_all; lia|].
  by rewrite decide_False by lia.
Qed.
