(* ===== verification/Examples.v ===== *)
(** Examples of the course (src/리눅스시스템프로그래밍_예제): processes that
    fork, replace their image and end with text in their output buffer, the
    two ends of a named pipe, and the table of resource limits. *)
From S2P Require Import Prelude CString.
Local Open Scope Z_scope.

(** * Processes

    A program as the calls it makes. [printf] goes through the buffer of the
    process, [write] does not; [fork] copies the buffer, [exit] writes it,
    [abort] and a successful [exec] lose it. *)

Inductive prog : Type :=
  | Exit0
  | Abort_
  | Printf (s : string) (k : prog)
  | Write (s : string) (k : prog)
  | Fork (child parent : prog)
  | Exec (path : string) (args : list string) (k : prog).

Record proc := Proc { buffer : list string; code : option prog }.
Record world := World { procs : list proc; out : list string }.

Section world.
(** [tty]: the standard output is a terminal, where [printf] of a line does
    not wait. [image]: the program a path names, [None] when there is none. *)
Context (tty : bool) (image : string → list string → option prog).

(** One step of a process: what it becomes, the child it forks and what it
    writes. *)
Definition act (b : list string) (p : prog) : proc * option proc * list string :=
  match p with
  | Exit0 => (Proc [] None, None, b)
  | Abort_ => (Proc [] None, None, [])
  | Printf s k => if tty then (Proc [] (Some k), None, b ++ [s]) else (Proc (b ++ [s]) (Some k), None, [])
  | Write s k => (Proc b (Some k), None, [s])
  | Fork child parent => (Proc b (Some parent), Some (Proc b (Some child)), [])
  | Exec path args k =>
      match image path args with
      | Some p => (Proc [] (Some p), None, [])
      | None => (Proc b (Some k), None, [])
      end
  end.

Inductive step : world → world → Prop :=
  | step_proc ps o i b p b' child w :
      ps !! i = Some (Proc b (Some p)) → act b p = (b', child, w) →
      step (World ps o)
           (World (<[i := b']> ps ++ match child with Some c => [c] | None => [] end) (o ++ w)).

Definition finished (s : world) : Prop := ∀ p, p ∈ procs s → code p = None.
End world.

Definition start (p : prog) : world := World [Proc [] (Some p)] [].

(** * The programs *)

Definition nl (s : string) : string := s +:+ String newline EmptyString.

(** [pid]: what [getpid()] returns in the child and in the parent; [sleep]
    only delays. *)
Definition show_vals (pid glob_val loc_val : Z) : string :=
  nl ("pid = " +:+ pretty pid +:+ ",glob_val = " +:+ pretty glob_val +:+ ",loc_val = " +:+ pretty loc_val).

Definition ssu_fork_1 (child_pid parent_pid : Z) : prog :=
  Write (nl "write to standard output")
    (Printf (nl "before fork")
      (Fork (Printf (show_vals child_pid (10 + 1) (100 + 1)) Exit0)
            (Printf (show_vals parent_pid 10 100) Exit0))).

Definition letters (first : nat) : list string :=
  (λ i, String (ascii_of_nat (first + i)) EmptyString) <$> seq 0 26.

(** [write(1,&character,1)] for each letter, then [printf("\n")]. *)
Definition write_letters (first : nat) : prog :=
  foldr Write (Printf (nl "") Exit0) (letters first).

Definition ssu_fork_2 : prog := Fork (write_letters 97) (write_letters 65).

Definition ssu_abort : prog := Printf (nl "abort terminate this program") Abort_.

Definition ssu_execl_1 : prog :=
  Printf (nl "this is the original program")
    (Exec "./ssu_execl_test_1" ["ssu_execl_test_1"; "param1"; "param2"; "param3"]
      (Printf (nl (nl "this line should never get printed")) Exit0)).

Definition ssu_execv_2 : prog :=
  Printf (nl "this is the original program")
    (Exec "./ssu_execl_test_1" ["ssu_execl_test_1"; "param1"; "param2"]
      (Printf (nl (nl "This line should never get printed")) Exit0)).

(** [execve] also gives the environment, which only [ssu_execl_test_1] sees. *)
Definition ssu_execve : prog :=
  Printf (nl "this is the original program")
    (Exec "./ssu_execl_test_1" ["ssu_execl_test_1"; "param1"; "param2"]
      (Printf (nl (nl "This line should never get printed")) Exit0)).

(** The standard error of a failed [execl] is not buffered. *)
Definition echo (message : string) (k : prog) : prog :=
  Fork (Exec "/bin/echo" ["echo"; "this is"; message] (Write (nl "exec error") Exit0)) k.

Definition ssu_execl_2 : prog :=
  echo "message one" (echo "message two" (echo "message three" (Printf (nl "Parent program ending") Exit0))).

(** The arguments, one line each, then the environment. *)
Fixpoint show_args (i : Z) (args : list string) (k : prog) : prog :=
  match args with
  | [] => k
  | a :: args => Printf (nl ("argv[" +:+ pretty i +:+ "]: " +:+ a)) (show_args (i + 1) args k)
  end.

Definition ssu_execl_test_1 (args environ : list string) : prog :=
  show_args 0 args (foldr (λ s, Printf (nl s)) Exit0 environ).

(** * fifowriter.c and fiforeader.c

    The pipe as the bytes between the two. *)

Definition nul : ascii := "000"%char.

(** [write(fd,message,strlen(message) + 1)] four times. *)
Definition message (pid : Z) : string := "Hello from PID " +:+ pretty pid.

Definition fifowriter (pid : Z) : res (list ascii) :=
  m ← store 100 (message pid);
  let bytes := String.list_ascii_of_string m ++ [nul] in
  Ok (bytes ++ bytes ++ bytes ++ bytes).

(** [readLine(fd,str)] with [str] at the start of its 100 characters: the
    line (with what is read before the end of the pipe), the rest, and the
    value returned. *)
Fixpoint readLine (room : nat) (pipe : list ascii) : res (string * list ascii * bool) :=
  match pipe with
  | [] => Ok (EmptyString, [], false)
  | c :: pipe =>
      match room with
      | O => Undef OutOfBounds
      | S room =>
          if decide (c = nul) then Ok (EmptyString, pipe, true)
          else '(s, pipe, b) ← readLine room pipe; Ok (String c s, pipe, b)
      end
  end.

(** The lines printed; every line takes a byte from the pipe. *)
Fixpoint fiforeader (fuel : nat) (pipe : list ascii) : res (list string) :=
  match fuel with
  | O => Undef Diverges
  | S fuel =>
      '(line, pipe, b) ← readLine 100 pipe;
      if b : bool then l ← fiforeader fuel pipe; Ok (nl line :: l) else Ok []
  end.

(** * ssu_getrlimit.c *)

Definition RLIM_INFINITY : Z := 2^64 - 1.

(** [rlim_t] is unsigned; "%10ld" shows it as signed, in 11 characters. *)
Definition show_rlim (v : Z) : res string :=
  if decide (v = RLIM_INFINITY) then store 11 "infinity"
  else store 11 (pad 10 (pretty (if decide (v < 2^63) then v else v - 2^64))).

Definition ssu_show_limit (rlim_name : string) (rlim_cur rlim_max : Z) : res string :=
  cur ← show_rlim rlim_cur;
  max ← show_rlim rlim_max;
  Ok (nl (pad 15 rlim_name +:+ " : " +:+ pad 10 cur +:+ " " +:+ pad 10 max)).
