(* ===== verification/ExamplesProofs.v ===== *)
(** The examples: how often a text is written by processes that fork with
    text in their buffer, and that the reader of the named pipe prints what
    the writer wrote. *)
From S2P Require Import Prelude CString Examples.
Local Open Scope Z_scope.

(** * Counting what is written *)

Definition count (x : string) (l : list string) : nat := length (filter (λ y, y = x) l).

(** How often [x] is written once a process with [b] in its buffer and the
    rest [p] of its program, and all its descendants, have ended. *)
Fixpoint total (tty : bool) (x : string) (b : list string) (p : prog) : nat :=
  match p with
  | Exit0 => count x b
  | Abort_ => 0
  | Printf s k => if tty then (count x (b ++ [s]) + total tty x [] k)%nat else total tty x (b ++ [s]) k
  | Write s k => (count x [s] + total tty x b k)%nat
  | Fork child parent => (total tty x b child + total tty x b parent)%nat
  | Exec _ _ k => 0
  end.

Fixpoint exec_free (p : prog) : Prop :=
  match p with
  | Exit0 | Abort_ => True
  | Printf _ k | Write _ k => exec_free k
  | Fork child parent => exec_free child ∧ exec_free parent
  | Exec _ _ _ => False
  end.

Definition owed (tty : bool) (x : string) (p : proc) : nat :=
  match code p with Some k => total tty x (buffer p) k | None => 0 end.

Definition owed_all (tty : bool) (x : string) : list proc → nat := sum_list_with (owed tty x).

Lemma count_app x l l' : count x (l ++ l') = (count x l + count x l')%nat.
Proof. unfold count. by rewrite filter_app, length_app. Qed.

Lemma owed_all_insert tty x ps i p q :
  ps !! i = Some p →
  (owed_all tty x (<[i := q]> ps) + owed tty x p = owed_all tty x ps + owed tty x q)%nat.
Proof.
  induction ps as [|p0 ps IH] in i |- *; [done|]. destruct i as [|i]; simpl; intros Hp.
  - injection Hp as ->. lia.
  - specialize (IH i Hp). lia.
Qed.

Definition all_exec_free (ps : list proc) : Prop :=
  Forall (λ p, match code p with Some k => exec_free k | None => True end) ps.

(** What a step writes and what is still owed add up. *)
Lemma step_total tty image x s s' :
  step tty image s s' → all_exec_free (procs s) →
  all_exec_free (procs s') ∧
  (count x (out s') + owed_all tty x (procs s') = count x (out s) + owed_all tty x (procs s))%nat.
Proof.
  intros [ps o i b p b' child w Hi Hact] Hfree. cbn [procs out] in *.
  pose proof (Forall_lookup_1 _ _ _ _ Hfree Hi) as Hp. cbn [code] in Hp.
  pose proof (owed_all_insert tty x ps i _ b' Hi) as Hsum. unfold all_exec_free.
  unfold owed_all in *. rewrite sum_list_with_app, count_app.
  destruct p as [| |t k|t k|pc pp|path args k]; cbn [act exec_free] in Hact, Hp; [..|done].
  3: destruct tty.
  all: simplify_eq; cbn [owed code buffer total sum_list_with] in *; rewrite ?count_app in *;
    (split; [apply Forall_app; split; [apply Forall_insert; [done|]|]|]);
    try (by constructor); try (constructor; [apply Hp|done]); try apply Hp; try done;
    rewrite ?Nat.add_0_r in *; change (count x []) with 0%nat in *; lia.
Qed.

Lemma finished_owes_nothing tty x s : finished s → owed_all tty x (procs s) = 0%nat.
Proof.
  unfold finished. induction (procs s) as [|p ps IH]; intros Hf; [done|]. unfold owed_all in *. simpl.
  rewrite IH by (intros q Hq; apply Hf; by right). unfold owed. by rewrite (Hf p) by left.
Qed.

Lemma steps_total tty image x s s' :
  rtc (step tty image) s s' → all_exec_free (procs s) →
  (count x (out s') + owed_all tty x (procs s') = count x (out s) + owed_all tty x (procs s))%nat.
Proof.
  induction 1 as [|s1 s2 s3 Hstep _ IH]; intros Hfree; [done|].
  destruct (step_total tty image x s1 s2 Hstep Hfree) as [Hfree2 E]. specialize (IH Hfree2). lia.
Qed.

(** Whatever the interleaving, every text is written [total] times. *)
Lemma written_total tty image x p s :
  exec_free p → rtc (step tty image) (start p) s → finished s → count x (out s) = total tty x [] p.
Proof.
  intros Hp Hs Hf. pose proof (steps_total tty image x _ _ Hs) as H.
  rewrite finished_owes_nothing in H by done. unfold start, owed_all in H. cbn in H.
  rewrite Nat.add_0_r in H. rewrite <- Nat.add_0_r. apply H. by constructor.
Qed.

(** * Named pipe *)

Fixpoint no_nul (s : string) : Prop :=
  match s with EmptyString => True | String c s => c ≠ nul ∧ no_nul s end.

Definition encode (s : string) : list ascii := String.list_ascii_of_string s ++ [nul].

Lemma readLine_encode room s rest :
  no_nul s → (String.length s < room)%nat → readLine room (encode s ++ rest) = Ok (s, rest, true).
Proof.
  unfold encode. induction s as [|c s IH] in room |- *; intros Hs Hr.
  - destruct room; [simpl in Hr; lia|done].
  - destruct room as [|room]; [simpl in Hr; lia|]. destruct Hs as [Hc Hs]. cbn.
    rewrite decide_False by done. unfold mbind in IH. rewrite IH by (done || simpl in Hr; lia). done.
Qed.

Lemma fiforeader_lines fuel l :
  Forall (λ s, no_nul s ∧ (String.length s < 100)%nat) l → (length l < fuel)%nat →
  fiforeader fuel (concat (encode <$> l)) = Ok (nl <$> l).
Proof.
  intros Hl. induction Hl as [|s l [Hs Hlen] _ IH] in fuel |- *; intros Hf;
    (destruct fuel as [|fuel]; [simpl in Hf; lia|]); [done|].
  cbn [fiforeader fmap list_fmap concat]. rewrite readLine_encode by done. cbn [mbind res_bind].
  rewrite IH by (simpl in Hf; lia). done.
Qed.

Lemma digits_no_nul s : all_digits s → no_nul s.
Proof.
  induction s as [|c s IH]; [done|]. intros H. split; [|apply IH; intros n; apply (H (S n))].
  intros ->. by specialize (H 0%nat nul eq_refl).
Qed.

(** * Properties *)

(** The line [ssu_fork_1] prints before it forks is written twice when
    the standard output is not a terminal, because the child inherits it in
    its buffer, and once on a terminal; what it writes with [write] appears
    once; all this under every interleaving of parent and child. *)
Theorem before_fork_is_doubled tty image child_pid parent_pid s :
  rtc (step tty image) (start (ssu_fork_1 child_pid parent_pid)) s → finished s →
  count (nl "before fork") (out s) = (if tty then 1 else 2)%nat ∧
  count (nl "write to standard output") (out s) = 1%nat.
Proof.
  intros Hs Hf. split; erewrite written_total; eauto; try done; destruct tty; done.
Qed.

(** The reader of the named pipe prints the four messages of the writer,
    one per line, and ends; no message leaves a buffer of 100 characters. *)
Theorem fifo_roundtrip pid fuel :
  0 ≤ pid < 10 ^ 10 → (5 ≤ fuel)%nat →
  ∃ pipe, fifowriter pid = Ok pipe ∧ fiforeader fuel pipe = Ok (replicate 4 (nl (message pid))).
Proof.
  intros Hpid Hf. unfold fifowriter.
  assert (String.length (message pid) < 100)%nat as Hlen.
  { unfold message. rewrite string_length_app. pose proof (pretty_length 10 pid ltac:(done) ltac:(lia)).
    change (String.length "Hello from PID ") with 15%nat. lia. }
  rewrite store_ok by done. eexists. split; [done|].
  assert (no_nul (message pid)) as Hn.
  { destruct (pretty_nonneg_digits pid) as [Hd _]; [lia|]. apply digits_no_nul in Hd.
    unfold message. cbn. by repeat split. }
  change (replicate 4 (nl (message pid))) with (nl <$> replicate 4 (message pid)).
  rewrite <- (fiforeader_lines fuel); [|by apply Forall_replicate|rewrite length_replicate; lia].
  f_equal. cbn [replicate fmap list_fmap concat]. by rewrite app_nil_r.
Qed.

(** * Witnesses *)

Lemma fifo_roundtrip_witness :
  ∃ pipe, fifowriter 4711 = Ok pipe ∧
    fiforeader 5 pipe = Ok (replicate 4 ("Hello from PID 4711" +:+ String newline "")).
Proof. by apply (fifo_roundtrip 4711 5); [|lia]. Defined.

Definition no_image (path : string) (args : list string) : option prog := None.

(** The output of one execution into a file. *)
Definition file_output : list string :=
  [nl "write to standard output"; nl "before fork"; show_vals 8 11 101; nl "before fork"; show_vals 7 10 100].

Lemma file_execution :
  rtc (step false no_image) (start (ssu_fork_1 8 7)) (World [Proc [] None; Proc [] None] file_output).
Proof.
  do 3 (eapply rtc_l; [eapply (step_proc _ _ _ _ 0); reflexivity|]).
  do 2 (eapply rtc_l; [eapply (step_proc _ _ _ _ 1); reflexivity|]).
  do 2 (eapply rtc_l; [eapply (step_proc _ _ _ _ 0); reflexivity|]).
  apply rtc_refl.
Qed.

Lemma before_fork_is_doubled_witness : count (nl "before fork") file_output = 2%nat.
Proof.
  apply (before_fork_is_doubled false no_image 8 7 (World [Proc [] None; Proc [] None] file_output)).
  - apply file_execution.
  - intros p Hp. cbn [procs] in Hp. rewrite !elem_of_cons, elem_of_nil in Hp.
    by destruct Hp as [->|[->|[]]].
Defined.
