(* ===== verification/Signals.v ===== *)
(** Examples of the course on pipes, signals and time
    (src/리눅스시스템프로그래밍_예제: pipe.c, shell_pipe.c, ssu_alarm_1.c,
    ssu_alarm_2.c, printdate.c, myparent.c, ssu_execv_1.c). What is printed
    follows the buffer of the standard output: [tty] says that it is a terminal.
    The answers of system calls and the times are arguments. *)
From S2P Require Import Prelude CString Examples.
Local Open Scope Z_scope.

(** * pipe.c *)

Definition MAXLINE : nat := 100.

(** A read of at least one byte of the pipe, as many as [choice] says. *)
Definition piece (choice : nat) (bytes : list ascii) : nat := (Nat.min (S choice) (Nat.min MAXLINE (length bytes)))%nat.

(** [while ((n=read(fd[0],line,MAXLINE)) > 0) write(STDOUT_FILENO,line,n)]. *)
Fixpoint copy (fuel : nat) (choices : list nat) (bytes : list ascii) : res (list (list ascii)) :=
  match bytes with
  | [] => Ok []
  | _ =>
      match fuel with
      | O => Undef Diverges
      | S fuel =>
          let n := piece (default O (head choices)) bytes in
          l ← copy fuel (tail choices) (drop n bytes); Ok (take n bytes :: l)
      end
  end.

(** What the parent writes: the line goes through the buffer, the bytes do not. *)
Definition pipe_parent (tty : bool) (choices : list nat) (bytes : list ascii) : res (list (list ascii)) :=
  let header := String.list_ascii_of_string (nl "command results from child process") in
  l ← copy (length bytes) choices bytes;
  Ok (if tty then header :: l else l ++ [header]).

(** * shell_pipe.c *)

(** [str[strlen(str)-1] = '\0'], on the line that fgets has read, and the two commands. *)
Definition shell_commands (line : string) : res (string * string) :=
  if decide (line = EmptyString) then Undef OutOfBounds
  else
    let str := String.substring 0 (String.length line - 1) line in
    if existsb (Ascii.eqb "|"%char) (String.list_ascii_of_string str) then
      match strtok "|"%char str with
      | command1 :: command2 :: _ => Ok (command1, command2)
      | _ => Undef NullPointer
      end
    else Undef Uninitialised.

(** * ssu_alarm_1.c and ssu_alarm_2.c *)

(** The handler, called [n] times from the count on. *)
Fixpoint ssu_signal_handler (n : nat) (count : Z) : res (list string) :=
  match n with
  | O => Ok []
  | S n => c ← in_int (count + 1); l ← ssu_signal_handler n c; Ok (nl ("alarm " +:+ pretty count) :: l)
  end.

(** The input comes after [t] seconds; the read goes on after the handler. *)
Definition ssu_alarm_2 (tty : bool) (t : Z) (input : string) : list string :=
  let handled := if t <? 10 then [] else [nl "ssu_alarm() called"] in
  let remain := if t <? 10 then 10 - t else 0 in
  let last := nl (pretty remain +:+ " seconds remain to alarm") in
  if tty then handled ++ [input; last] else input :: handled ++ [last].

(** * printdate.c *)

(** A turn of the second loop: the line that is printed, and [i] after it. The
    process kills itself when [i] is 0, and its buffer is lost. [dates]: how often date was started. *)
Record clock := Clock { left : Z; printed : list string; dates : Z }.

Fixpoint countdown (fuel : nat) (c : clock) : res clock :=
  match fuel with
  | O => Undef Diverges
  | S fuel =>
      let lines := if left c <=? 5 then printed c ++ [nl (pretty (left c))] else printed c in
      i ← in_int (left c - 1);
      let c := Clock i lines (dates c + 1) in
      if i =? 0 then Ok c else countdown fuel c
  end.

(** What is seen of it, and how often date was started. *)
Definition printdate (tty : bool) (fuel : nat) (arg : string) : res (list string * Z) :=
  c ← countdown fuel (Clock (atoi arg) [] 0);
  Ok (if tty then printed c else [], dates c).

(** * myparent.c *)

(** The answers of fork, and the array that the parent fills. *)
Fixpoint fork_all (i : Z) (pids : list Z) (arr : list (option Z)) : res (list (option Z)) :=
  match pids with
  | [] => Ok arr
  | pid :: pids => arr ← (if 0 <? pid then wr arr i (Some pid) else Ok arr); fork_all (i + 1) pids arr
  end.

(** [kill(ptr_pid[i],SIGKILL)] from the last to the first. *)
Fixpoint kill_all (n : nat) (arr : list (option Z)) : res (list Z) :=
  match n with
  | O => Ok []
  | S n => o ← rd arr (Z.of_nat n); pid ← opt Uninitialised o; l ← kill_all n arr; Ok (pid :: l)
  end.

Definition myparent (pids : list Z) : res (list Z) :=
  arr ← fork_all 0 pids (replicate (length pids) None);
  kill_all (length pids) arr.

(** * The status of a process, in ssu_execv_1.c *)

Definition WEXITSTATUS (stat : Z) : Z := Z.land (Z.shiftr stat 8) 0xff.
Definition WTERMSIG (stat : Z) : Z := Z.land stat 0x7f.
Definition WSTOPSIG (stat : Z) : Z := WEXITSTATUS stat.
Definition WIFEXITED (stat : Z) : bool := WTERMSIG stat =? 0.
Definition WIFSTOPPED (stat : Z) : bool := Z.land stat 0xff =? 0x7f.
(** [((signed char) ((stat & 0x7f) + 1) >> 1) > 0]. *)
Definition WIFSIGNALED (stat : Z) : bool := 0 <? Z.shiftr ((WTERMSIG stat + 1 + 128) mod 256 - 128) 1.
Definition WCOREDUMP (stat : Z) : bool := negb (Z.land stat 0x80 =? 0).

Definition term_stat (stat : Z) : string :=
  if WIFEXITED stat then nl ("normally terminated. exit status = " +:+ pretty (WEXITSTATUS stat))
  else if WIFSIGNALED stat then
    nl ("abnormal termination by signal " +:+ pretty (WTERMSIG stat) +:+ ", " +:+ if WCOREDUMP stat then "core dumped" else "no core")
  else if WIFSTOPPED stat then nl ("stopped by signal " +:+ pretty (WSTOPSIG stat))
  else "".

(** How the kernel encodes what happened to a process. *)
Inductive fate : Set := Exited (code : Z) | Signaled (sig : Z) (core : bool) | StoppedBy (sig : Z).
Definition encode (f : fate) : Z :=
  match f with
  | Exited code => Z.shiftl code 8
  | Signaled sig core => sig + if core then 0x80 else 0
  | StoppedBy sig => Z.shiftl sig 8 + 0x7f
  end.
Definition possible_fate (f : fate) : bool :=
  match f with
  | Exited code => (0 <=? code) && (code <? 256)
  | Signaled sig _ => (1 <=? sig) && (sig <=? 64)
  | StoppedBy sig => (1 <=? sig) && (sig <=? 64)
  end.

(** * Properties *)

(** The parent of pipe.c passes on exactly the bytes of the child, in
    order, however the reads cut them, and its first line stands in front only
    on a terminal: in a file it comes last. *)
Theorem pipe_passes_on tty choices bytes : ∃ pieces, copy (length bytes) choices bytes = Ok pieces ∧ concat pieces = bytes ∧
  Forall (λ l, 1 ≤ length l ≤ MAXLINE)%nat pieces ∧
  pipe_parent tty choices bytes =
    Ok (let header := String.list_ascii_of_string (nl "command results from child process") in
        if tty then header :: pieces else pieces ++ [header]).
Proof.
  assert (∀ fuel choices bytes, (length bytes ≤ fuel)%nat → ∃ pieces, copy fuel choices bytes = Ok pieces ∧ concat pieces = bytes ∧
    Forall (λ l, 1 ≤ length l ≤ MAXLINE)%nat pieces) as Hc.
  { clear. induction fuel as [|fuel IH]; intros choices [|a bytes] Hl; try by exists [].
    - cbn in Hl. lia.
    - set (b := a :: bytes) in *. set (n := piece (default O (head choices)) b).
      assert (1 ≤ n ≤ Nat.min MAXLINE (length b))%nat as Hn by (unfold n, piece, MAXLINE, b; cbn [length]; lia).
      destruct (IH (tail choices) (drop n b)) as (l&E&Hl1&Hl2); [rewrite length_drop; lia|].
      exists (take n b :: l). split; [|split].
      + unfold b at 1. cbn [copy]. fold b. fold n. by rewrite E.
      + change (take n b ++ concat l = b). by rewrite Hl1, take_drop.
      + constructor; [|done]. rewrite length_take. lia. }
  destruct (Hc (length bytes) choices bytes (le_n _)) as (pieces&E&H1&H2). exists pieces. split_and!; [done..|].
  unfold pipe_parent. by rewrite E.
Qed.

(** The countdown from [n]: the lines from there on. *)
Fixpoint lines_from (n : nat) : list string :=
  match n with O => [] | S m => (if Z.of_nat n <=? 5 then [nl (pretty (Z.of_nat n))] else []) ++ lines_from m end.

Lemma countdown_ok n fuel lines k : (0 < n)%nat → Z.of_nat n < 2^31 → (n ≤ fuel)%nat →
  countdown fuel (Clock (Z.of_nat n) lines k) = Ok (Clock 0 (lines ++ lines_from n) (k + Z.of_nat n)).
Proof.
  revert n lines k. induction fuel as [|fuel IH]; intros [|n] lines k Hn Hs Hf; try lia. cbn [countdown left printed dates].
  rewrite in_int_ok by (unfold int32; lia). cbn [mbind res_bind]. replace (Z.of_nat (S n) - 1) with (Z.of_nat n) by lia.
  cbn [lines_from]. destruct n as [|n].
  - done.
  - replace (Z.of_nat (S n) =? 0) with false by (symmetry; apply Z.eqb_neq; lia). rewrite IH by lia. f_equal.
    replace (k + 1 + Z.of_nat (S n)) with (k + Z.of_nat (S (S n))) by lia. f_equal. case_match; [by rewrite <-app_assoc|done].
Qed.

(** Printdate with a positive number starts date once a second, exactly
    that often, and kills itself; its countdown is seen on a terminal only: what
    is still in the buffer dies with the process. *)
Theorem countdown_lost tty fuel arg : 0 < atoi arg → (Z.to_nat (atoi arg) ≤ fuel)%nat →
  printdate tty fuel arg = Ok (if tty then lines_from (Z.to_nat (atoi arg)) else [], atoi arg).
Proof.
  intros Hp Hf. unfold printdate. pose proof (wrap32_range (atol arg)) as [_ Hr]. fold (atoi arg) in Hr.
  rewrite <-(Z2Nat.id (atoi arg)) at 1 by lia. rewrite (countdown_ok (Z.to_nat (atoi arg))) by lia. cbn. rewrite Z2Nat.id by lia. done.
Qed.

Lemma fork_all_ok pids i arr : 0 ≤ i → i + Z.of_nat (length pids) ≤ Z.of_nat (length arr) → Forall (λ pid, 0 < pid) pids →
  ∃ arr', fork_all i pids arr = Ok arr' ∧ length arr' = length arr ∧
    ∀ j, getZ arr' j = if decide (i ≤ j < i + Z.of_nat (length pids)) then Some (pids !! Z.to_nat (j - i)) else getZ arr j.
Proof.
  intros Hi Hl Hp. revert i arr Hi Hl. induction Hp as [|pid pids Hpid Hp IH]; intros i arr Hi Hl; cbn [fork_all length] in *.
  { exists arr. split_and!; [done..|]. intros j. rewrite decide_False by lia. done. }
  rewrite (proj2 (Z.ltb_lt 0 pid)) by done. rewrite wr_ok by lia. cbn [mbind res_bind].
  destruct (IH (i + 1) (<[Z.to_nat i := Some pid]> arr)) as (arr'&E&El&Hg); [lia|rewrite length_insert; lia|].
  exists arr'. rewrite length_insert in El. split_and!; [done..|]. intros j. rewrite Hg. rewrite getZ_insert by lia.
  repeat case_decide; subst; try lia; try done.
  - replace (Z.to_nat (j - i)) with (S (Z.to_nat (j - (i + 1)))) by lia. done.
  - replace (Z.to_nat (j - j)) with O by lia. done.
Qed.

(** The parent of myparent.c kills each of its children exactly once, the
    last one first, when all forks succeed; a fork that fails leaves a cell of
    the array unset, which is then taken for a process. *)
Theorem children_killed_once pids : Forall (λ pid, 0 < pid) pids → myparent pids = Ok (reverse pids).
Proof.
  intros Hp. unfold myparent. destruct (fork_all_ok pids 0 (replicate (length pids) None)) as (arr&->&El&Hg); [lia|rewrite length_replicate; lia|done|].
  cbn [mbind res_bind].
  assert (∀ n, (n ≤ length pids)%nat → kill_all n arr = Ok (reverse (take n pids))) as Hk.
  { induction n as [|n IH]; intros Hn; [done|]. cbn [kill_all]. destruct (lookup_lt_is_Some_2 pids n) as [pid Hpid]; [lia|].
    assert (rd arr (Z.of_nat n) = Ok (Some pid)) as ->.
    { apply rd_ok_iff. rewrite Hg, decide_True by lia. by rewrite Z.sub_0_r, Nat2Z.id, Hpid. }
    cbn. rewrite IH by lia. cbn. by rewrite (take_S_r _ _ _ Hpid), reverse_snoc. }
  rewrite Hk by lia. by rewrite take_ge.
Qed.

Lemma failed_fork_killed : myparent [101; -1; 103] = Undef Uninitialised.
Proof. by vm_compute. Qed.

(** What is printed of a fate. *)
Definition report (f : fate) : string :=
  match f with
  | Exited code => nl ("normally terminated. exit status = " +:+ pretty code)
  | Signaled sig core => nl ("abnormal termination by signal " +:+ pretty sig +:+ ", " +:+ if core then "core dumped" else "no core")
  | StoppedBy sig => nl ("stopped by signal " +:+ pretty sig)
  end.

Definition fates : list fate :=
  (Exited <$> seqZ 0 256) ++ ((λ sig, Signaled sig true) <$> seqZ 1 64) ++ ((λ sig, Signaled sig false) <$> seqZ 1 64) ++ (StoppedBy <$> seqZ 1 64).

Lemma fate_listed f : possible_fate f = true → f ∈ fates.
Proof.
  unfold fates. rewrite !elem_of_app, !list_elem_of_fmap.
  destruct f as [code|sig []|sig]; cbn; intros [?%Z.leb_le ?]%andb_true_iff;
    [left; exists code; rewrite elem_of_seqZ | right; left; exists sig; rewrite elem_of_seqZ
    |right; right; left; exists sig; rewrite elem_of_seqZ | right; right; right; exists sig; rewrite elem_of_seqZ]; (split; [done|]);
    (match goal with H : (_ <? _) = true |- _ => apply Z.ltb_lt in H | H : (_ <=? _) = true |- _ => apply Z.leb_le in H end); lia.
Qed.

(** The macros of the status take apart what the kernel has put together:
    every exit, signal and stop is reported as what it was. *)
Theorem status_roundtrip f : possible_fate f = true → term_stat (encode f) = report f.
Proof.
  intros Hf%fate_listed. assert (forallb (λ f, String.eqb (term_stat (encode f)) (report f)) fates = true) as Ha by by vm_compute.
  rewrite forallb_forall in Ha. apply String.eqb_eq, Ha. by apply list_elem_of_In.
Qed.

(** The two alarms: with the input in time the seconds that remain are shown,
    otherwise the handler has run and none remain; in a file the text of the
    handler comes behind the input. *)
Lemma alarm_shown tty t input : 0 ≤ t → let l := ssu_alarm_2 tty t input in
  (t < 10 → l = [input; nl (pretty (10 - t) +:+ " seconds remain to alarm")]) ∧
  (10 ≤ t → l ≡ₚ [nl "ssu_alarm() called"; input; nl "0 seconds remain to alarm"]).
Proof.
  intros Ht. unfold ssu_alarm_2. split; intros H; destruct (Z.ltb_spec t 10); try lia; destruct tty; try done. apply perm_swap.
Qed.

(** Spaces around the bar become part of the commands, which are then not found;
    without a bar the commands are not set. *)
Lemma spaces_kept : shell_commands (nl "ls|wc") = Ok ("ls", "wc") ∧ shell_commands (nl "ls | wc") = Ok ("ls ", " wc") ∧
  shell_commands (nl "ls") = Undef Uninitialised ∧ shell_commands (nl "ls|") = Undef NullPointer.
Proof. by vm_compute. Qed.

(** * Witnesses *)

Lemma countdown_lost_witness : printdate false 7 "7" = Ok ([], 7).
Proof. apply (countdown_lost false 7 "7"); by vm_compute. Defined.

Lemma children_killed_once_witness : myparent [101; 102] = Ok [102; 101].
Proof. apply (children_killed_once [101; 102]). repeat constructor. Defined.

Lemma status_roundtrip_witness : term_stat 139 = nl "abnormal termination by signal 11, core dumped".
Proof. apply (status_roundtrip (Signaled 11 true)). reflexivity. Defined.
